(* ===== verification/_CoqProject ===== *)
-Q . S2P
Prelude.v
GoStrings.v
GoFloat.v
GoFloatExact.v
GoStrconv.v
GoHttp.v
GoJson.v
GoJsonFacts.v
GoJsonText.v
RouterConfig.v
RouterMatch.v
RouterBudget.v
RouterSpec.v
RouterCompile.v
BodyRewrite.v
Picker.v
Sessions.v
Dispatcher.v
DispatchLoad.v
DispatchHealth.v
Activator.v
Usage.v
Proxy.v
ProxyFacts.v
RouterCompileFacts.v
Gguf.v
GgufFacts.v
GgufRemote.v
GpuSharing.v
GpuQuota.v
GpuQuotaFacts.v
ModelPool.v
ModelPoolFacts.v
GoNetip.v
SafeHttp.v
SafeHttpFacts.v
AgentEvict.v
Agent.v
AgentMachine.v
AgentFacts.v
AgentRaces.v
AgentBudget.v
AgentRestarts.v
AgentState.v
GoPath.v
ArgFlags.v
ArgRoots.v
Memory.v
MemoryFacts.v
ArgPolicy.v
ArgPolicyFacts.v
ArgTables.v
AgentWatch.v
AgentWatchFacts.v
EndpointWatch.v
LoadScrape.v
LoadScrapeFacts.v
Drain.v
DrainFacts.v
Foreman.v
ForemanTasks.v
ForemanNodes.v
ForemanRelease.v
ForemanMachine.v
ForemanSafety.v
ForemanFacts.v
ForemanRaces.v
ForemanRollout.v
