(* ===== verification/Prelude.v ===== *)
(** * LLMKube: a verification development of the inference request path

    LLMKube is a Kubernetes operator that serves language models.  Its router
    proxy (src/internal/router) is the program that every inference request goes
    through: it matches the request to a rule, refuses it when policy or budget
    says so, picks a backend and one of its pods, keeps pods in a ModelPool warm
    or swaps them, forwards the request, and charges the tokens it used.  Its
    controller validates ModelRouter resources and compiles them to the proxy's
    configuration, its admission webhook and quota controller ration GPUs, its
    ModelPool controller gives members of a pool the one GPU slot in turn, its
    InferenceService controller waits for idle replicas before it replaces them, its model
    library reads the metadata of GGUF files, local or remote, and its guarded HTTP
    client fetches the URLs that users supply.  Its node agent (src/pkg/agent) runs the
    engines on a machine outside the cluster: it watches InferenceServices, starts,
    restarts and stops engines within the memory of the host, evicts them under memory
    pressure, and decides which extra arguments an engine may be given.  Foreman
    (src/internal/foreman, src/pkg/foreman) schedules the tasks of coding agents on a
    fleet of nodes and rolls out new versions of the agents.  This development models these programs as executable definitions
    and proves what makes them correct.

    ** How the parts interact

    [handleCompletion] (proxy.go) reads the body, extracts the features, asks the
    matcher (match.go) for a route, applies the fail-closed gate, resolves the
    budget keys and asks the budget store (budget.go) for admission.  It then tries
    the route's backends in order: a pooled backend first needs a slot from the
    activator (activator.go), and the dispatcher (backend.go, endpoint_load.go,
    placement.go) places the request on a pod, through the pickers, the hash ring
    and the session table (picker/), rewrites its model field and sends it.  The
    response's usage (usage.go) is charged to the budget store.

    The configuration the proxy runs on is written by the ModelRouter controller:
    [validateModelRouter] checks the specification and [compileRouterConfig]
    (router_config_builder.go) resolves its backends against the cluster and
    translates its rules and budgets.  The proxy follows the pods of a Service through
    its endpoint watch (endpoint_watch.go) and their load through its scraper
    (load_scraper.go), which both write to the dispatcher.

    In the node agent, the watcher (watcher.go) turns polls of the cluster into events;
    the event loop (agent.go) starts and deletes engines for them and runs due
    restarts; the health monitor (health.go, health_restart.go) stops an unhealthy
    engine and asks for its restart; the memory watchdog (watchdog.go, pressure.go)
    evicts the least important engine and lets it back (pressure_restart.go); the
    heartbeat tears down what the cluster deleted.  They share the maps of MetalAgent
    under one mutex.  The arguments a service adds to its engine go through the policy
    (policy/), which parses them as the engine would.

    In Foreman, the AgenticTask controller (agentictask_controller.go) reserves a node
    for a task whose dependencies are done and assigns it; the agent of the node
    (pkg/foreman/agent: fleetnode.go, watcher.go) registers, sends heartbeats, claims the
    task, runs it and writes the outcome; the FleetNode controller
    (fleetnode_controller.go) marks silent nodes, frees dead reservations and deletes
    orphaned nodes; the AgentRelease controller (agentrelease_controller.go) writes update
    requests to the nodes of a release, a few at a time, and waits until each runs the new
    version.  They meet only in the objects of the API.

    ** Files

    - Prelude: machine integers, time, errors, the development's tactics and hint
      databases, lemmas on lists, maps and sums over maps.
    - GoStrings, GoFloat, GoStrconv, GoHttp: the parts of Go's strings, path, unicode/utf8,
      strconv, sort, math and net/http that the sources call.
    - GoFloatExact: sums and products of small binary fractions are not rounded.
    - GoJson, GoJsonFacts, GoJsonText: encoding/json, as a parser to trees that
      keep literals as written, decoders for structs and pointers, and marshalling
      of maps of raw messages; with the round trips of parsing and printing and of
      quoting and unquoting.
    - RouterConfig (config.go): the wire types and [Validate].
    - RouterMatch (match.go): [Match] and its predicates.
    - RouterBudget (budget.go, budgetScopeKeys and compileBudgetRules of proxy.go):
      the rolling-window store, and the ledger it refines.
    - BodyRewrite: [applyModelOverride] (backend.go), [InjectStreamUsage] (usage.go).
    - Picker, Sessions (picker/picker.go, picker/sessions.go): scores, the least
      loaded pick, the consistent-hash ring, the session table.
    - Dispatcher (backend.go, endpoint_load.go, placement.go): the dispatcher's state
      and operations; DispatchLoad and DispatchHealth hold its properties.
    - Activator (activator.go): the pool runtime and the transition system of
      callers and swap goroutines.
    - Usage (usage.go, capturedBody of proxy.go): token counts, pricing, capture.
    - Proxy (proxy.go): the handler, against the interface [Dispatching] that the
      dispatcher implements; ProxyFacts holds its properties.
    - RouterSpec (api/v1alpha1/modelrouter_types.go, modelrouter_validation.go): the
      specification of a ModelRouter, its schema and its static validation.
    - RouterCompile (router_config_builder.go and the helpers it calls): the
      compilation, against a [Cluster] of lookups; RouterCompileFacts holds its
      properties, which join the controller to the proxy.
    - Gguf (pkg/gguf/parser.go): the parser, over the interface [Reader] of an
      io.Reader; GgufFacts holds its properties; GgufRemote (pkg/gguf/remote.go) the
      reader over HTTP ranges.
    - GpuSharing (pkg/apiutil, gpu_sharing.go, gpu_resources.go, gpu_sharding.go):
      what a service asks of a device.  GpuQuota (internal/webhook/quota, the quota
      webhook and controller): admission and observed usage; GpuQuotaFacts holds
      its properties.
    - ModelPool (modelpool_controller.go, modelpool_idle.go): one pass of the pool
      controller; ModelPoolFacts holds its properties.
    - GoNetip: the parts of net/netip and net that the guard calls.  SafeHttp
      (internal/safehttp): the guarded HTTP client; SafeHttpFacts holds its
      properties.
    - AgentEvict (eviction.go, priority.go, watchdog.go): the choice of a process to
      evict and of evicted services to restart, and the levels of the watchdog.
      Agent (agent.go, health.go, health_restart.go, pressure.go, pressure_restart.go):
      the shared state and every critical section on it.  AgentMachine: the threads as
      program counters and the steps between critical sections.  AgentFacts,
      AgentRaces, AgentBudget, AgentRestarts and AgentState hold the properties that
      all interleavings have.
    - AgentWatch (watcher.go, runWatcherLoop of agent.go): the polling watcher;
      AgentWatchFacts holds its properties.
    - GoPath: path/filepath and a file system of directories, files and symbolic links.
      ArgFlags (policy/flagspecs.go): the tables of flags.  ArgRoots (policy/roots.go):
      the allowed directories.  ArgPolicy (policy/args.go): the parsing and the rules.
      ArgPolicyFacts and ArgTables hold their properties.
    - Memory (memory.go; checkMemoryAdmission, estimateModelMemory and localModelSize of
      agent.go): the estimate of a model's memory, the size of its files, the budgets and
      the check before a start, which ends in [reserveMemory] of Agent; MemoryFacts holds
      its properties.
    - EndpointWatch (endpoint_watch.go): the informers, the watcher and the
      dispatcher's endpoint sets, with their property.  LoadScrape (load_scraper.go):
      the metrics page and a pass of the scraper; LoadScrapeFacts holds its properties.
    - Drain (drain_before_rollout.go, pod_lifetime.go, the idle probes of runtime_*.go):
      the gate of a rollout and the recycling of old pods; DrainFacts holds its properties.
    - Foreman (api/foreman/v1alpha1, conditions.go, workload_coder_escalation.go): the
      resources, their predicates and the API as a monad.  ForemanTasks
      (agentictask_controller.go): a pass of the scheduler.  ForemanNodes
      (fleetnode_controller.go, pkg/foreman/agent/fleetnode.go and watcher.go): a pass of
      the FleetNode controller and the programs of a node's agent.  ForemanRelease
      (agentrelease_controller.go): a pass over a release.  ForemanMachine: all of
      them as steps on one cluster, the invariant, and a logic of triples for programs
      that others interrupt between two calls.  ForemanSafety: every step keeps the
      invariant.  ForemanFacts and ForemanRaces hold the properties.  ForemanRollout: the
      runs of one release, their invariant and their properties.

    ** How the code is modelled

    A Go int64, uint64 or time.Duration is a [Z] with the wrap-around written out at
    each operation; float64 is binary64 (SpecFloat); a string or []byte is a
    [string] of bytes; a pointer that may be nil is an [option]; a map is a [gmap]; a
    function that returns an error returns a [result] or an option.  A struct is a
    [Record] with the same fields, prefixed.  Load records are shared between the
    dispatcher's map and the release closures of requests in flight, so they live in
    a heap and are referred to by location.  A mutex-protected or atomic operation is
    one step; what happens between them is left open, by quantifying over sequences
    of steps ([dstep] for the dispatcher, [step] for the activator, [history] for the
    handler, [watch_step] for the endpoint watch).  A run-time panic is an outcome of its
    own.  A thread of the node agent is at a program counter; a step of it
    ([agent_step]) is one critical section with the code up to the next, and what the
    engine, the operating system and the Kubernetes API do meanwhile is the step's
    answer, which is arbitrary.  The conversion of a float to uint64 is that of arm64,
    where the agent runs.  A file system is a function from paths to nodes; [lands]
    says, without the resolver, where a path leads.  An engine that reads arguments is
    an argument of the theorems about it: a list of its options, with how many values
    each takes, that the table covers.

    A controller of Foreman is a program of the monad [api] over a [Cluster] of objects:
    a read shows the live object or what a lagging cache shows ([en_view]), a write is a
    merge patch that carries the fields that differ, with the version of the object where
    the source asks for an optimistic lock, any call may fail, and others may change the
    cluster before each call ([en_meanwhile]).  [step] composes the programs; there a pass
    of the scheduler reads what is live, and passes of the other controllers and the
    actions of agents are atomic and come anywhere between its calls.  [rollout_step] has
    the passes of one release, with no failing call, and what agents, the FleetNode
    controller and the user do between them, with any; in it an agent keeps its kind, and
    a node that exists keeps its labels.

    The clock, the environment variables, the answers of upstreams and of the
    Kubernetes API, and whether net/http accepts a URL, are arguments; so are, for the
    guarded client, DNS (by the number of the lookup), IDNA, url.Parse, the proxy
    chosen by the environment and the redirects of servers.  Where a
    theorem needs something of them it is a hypothesis: [ClusterLaws] says that an
    object looked up by name has that name and that lookups do not fail for a while,
    the theorem on remote files that the server answers from the file, the theorem on
    the guarded client that IDNA returns ASCII and URLs are well formed, and the
    theorems on quotas and pools that name a cluster that answers ([client_of],
    [calm]) that its reads succeed.

    ** What the theorems show

    - Policy: sensitive requests of fail-closed rules reach only local backends
      (ProxyFacts); [Validate] accepts exactly the well-formed configurations and
      the matcher's routes then resolve (RouterConfig, RouterMatch); the matcher
      takes the first accepting rule; credentials sent upstream are the backend's
      own (DispatchHealth).
    - Budgets: the bucketed counters refine a ledger of charges, the retry delay is
      exact, budgets reach the requests they apply to (RouterBudget), and no request
      is served past a cap after any history of requests (ProxyFacts).
    - Dispatch: fallback takes the first success, failures are reported by the last
      error, and every slot and count taken is given back (ProxyFacts, DispatchLoad);
      quarantine lasts its window and placement avoids quarantined pods
      (DispatchHealth).
    - Placement: the pick is least-loaded and rotates ties, the ring's homes are
      stable under removal, the binary search is the linear specification, the
      session table stays within its capacity, and its scan guard is invisible
      (Picker, Sessions).
    - Pools: swaps are serialized, the incumbent is drained, counters are exact, and
      announced changes lose no wake-up (Activator).
    - Bodies: both rewrites change one field and read back (BodyRewrite); the last
      usage of a stream wins and the capture buffer is its tail (Usage).
    - Configuration: the controller's validation accepts exactly a declarative
      predicate (RouterSpec); a valid specification compiles exactly when its
      backends resolve and its budgets have caps, the compiled configuration passes
      the proxy's own [Validate], and what the static gate promises of sensitive
      data the proxy enforces (RouterCompileFacts).
    - Model files: the parser returns on every input, takes exactly the bytes of
      what it returns, and reads back every encodable file (GgufFacts); over HTTP it
      returns what it returns on the file (GgufRemote).
    - GPUs: whatever is written through the webhook, the usage the controller
      reports stays within each quota's caps (GpuQuotaFacts); a layer split becomes
      the smallest whole ratios (GpuSharing).
    - Pool control: a pass starts a member only when the others are gone and drains
      a serving one only when idle, a swap goes through, and the slot returns to the
      default after idle time (ModelPoolFacts).
    - Pods: the dispatcher's endpoints are the ready ones once the events are handled
      (EndpointWatch); a metrics page is read as it was written (LoadScrapeFacts).
    - Node agent: of two engines of one service one is on its way out, memory is never
      admitted past the budget, no restart is lost, the shared maps stay well formed
      (AgentRaces, AgentBudget, AgentRestarts, AgentState); the evicted process is the
      least important one and restarts leave the floor of memory free (AgentEvict).
    - Memory: no overflow of the estimate goes unnoticed and below 256 TiB its float64
      arithmetic is exact; a model in local files is admitted exactly when its files, its
      cache and the overhead fit its budget and what the other services leave
      (MemoryFacts).
    - Watcher: a poll reports exactly the changes, a failed lookup changes nothing, the
      events are a log of what is recorded, and it gives up exactly after its threshold
      of failures in a row (AgentWatchFacts).
    - Engine arguments: no accepted argument can be read as an option that sets how the
      engine listens, what llama-server reads is what was checked, and what it opens
      lies in the allowed directories (ArgPolicyFacts); the tables fit together and
      comma-separated values read back (ArgTables).
    - Rollouts of services: a new template is applied exactly when every replica said that
      it is idle, nothing is left to drain or the time is spent, it is held for the whole
      timeout and no longer, and at most the pod that expired first is recycled
      (DrainFacts).
    - Foreman: no node gets two tasks and no Agent more than its bound, in every run of
      the machine; an undisturbed pass schedules exactly the tasks that are ready, and a
      claim whose node went silent is released twice and then fails (ForemanFacts).  No
      more nodes hold an update request than the release allows, in every run whose
      passes go through, and a pass without approval sends none, whatever fails
      (ForemanRollout).
    - Outgoing requests: whatever DNS answers, a guarded request connects only to
      vetted addresses and configured proxies, and the IPv6 forms of an IPv4 address
      are blocked when it is (SafeHttpFacts).
    - Defects found while modelling are theorems too: a null body panics with its
      slot held, upper-case sensitive values gate nothing, the busy flag of the
      fallback loop has no effect, a residency change found by the re-check wakes
      nobody, a late failure outlives its pod, of two budgets on one scope only the
      last counts, an external backend without a tier passes for local, nested
      arrays defeat the memory limits of the GGUF parser, quotas miss the memory of
      scaled pods and the members of a group and count services outside their
      scope, a pool unloads a serving resident over a stray Pod and crashes when its
      resident is removed, a zone takes an address past the HTTP guard, an eviction
      races a respawn and a killed stop ends it, the watcher never withdraws a service
      that was only in its first list, finite gauges add up to an infinity, IPv6 pods get
      URLs without brackets, Foreman moves a running task on a stale read and books a
      node twice when the hygiene of its FleetNode is overtaken (ForemanRaces), a
      rollout whose status write fails forgets the nodes it sent or failed, counts a
      silence into the soak window and lists more nodes in flight than it may
      (ForemanRollout), a model behind links is sized by the text of the links and an
      estimate that overflows shrinks (MemoryFacts), and the gate of a service's rollout trusts one replica when it
      cannot list them, waits for nothing when its timeout overflows, waits twice when the
      update fails and reads timestamps as values (DrainFacts).

    ** Fuel and bounds

    The JSON parser runs on two steps of fuel per byte plus two; [value_fuel] shows
    that more changes nothing.  The glob matcher's fuel is the length of its pattern,
    which each step shortens.  The ring's binary search takes the length of the
    interval as fuel, which each step at least halves.  The GGUF parser's fuel is one
    more than the bytes left, and [Parse_total_exact] shows that it never runs out;
    the loop of a ranged read takes as many rounds as it has bytes to read, and the
    greatest common divisor two rounds per bit ([gcd_loop_spec]).  A guarded request
    has at most five hops, and five steps of fuel are enough ([Do_fuel]).  The argument
    parser's fuel counts the tokens and the bytes a chain of short options can put back
    ([token_fuel]); a path is resolved through at most as many parents as it has bytes,
    and through 255 links, the limit of filepath.EvalSymlinks.  All other recursion is
    structural.  The nesting limit of JSON is the package's 10000.

    ** What is not modelled

    The rest of the Kubernetes side (the other controllers and webhooks), the command
    line, and of Foreman the coding agent itself, the Workloads that create tasks, and the
    audit and archive of finished ones; of the node agent, how engines are built,
    spawned and probed, model downloads, endpoint registration, relay mode and shutdown,
    and the signed size probe of an s3 source, whose outcome is an input; the reuse of connections and the timeouts of HTTP clients; within
    the router, the decoding of the configuration file, the copying of bodies to the
    client, error bodies, audit lines, traces and metrics.  [strings.ToLower],
    [strings.ToUpper], [strings.TrimSpace], [strings.Fields] and [strings.EqualFold] are
    exact on ASCII text.  Number literals are decimal.

    ** Plan

    Next: the argument lists of the agent's executors; then the rest of the
    InferenceService controller. *)

From stdpp Require Import base gmap strings list.
From Stdlib Require Import ZArith Lia Bool.

(** ** Machine integers

    Go's [int], [int64] and [time.Duration] are 64-bit two's complement, and
    [uint64] is 64-bit unsigned; both are modelled by [Z] with the wrap-around
    written out at each arithmetic operation the source performs. *)

Declare Scope go_scope.
Delimit Scope go_scope with go.
Open Scope Z_scope.

Definition two63 : Z := 9223372036854775808.
Definition two64 : Z := 18446744073709551616.
Definition max_int64 : Z := two63 - 1.
Definition min_int64 : Z := - two63.

(** [wrap64 z] is the [int64] whose bits are the low 64 bits of [z]. *)
Definition wrap64 (z : Z) : Z := (z + two63) mod two64 - two63.

(** [wrap32 z] is the [int32] whose bits are the low 32 bits of [z]. *)
Definition wrap32 (z : Z) : Z := (z + 2147483648) mod 4294967296 - 2147483648.

(** [uwrap64 z] is the [uint64] whose bits are the low 64 bits of [z]. *)
Definition uwrap64 (z : Z) : Z := z mod two64.

(** Saturation to the [int64] range, as [time.Time.Sub] does. *)
Definition sat64 (z : Z) : Z := Z.max min_int64 (Z.min max_int64 z).

Definition in_int64 (z : Z) : Prop := min_int64 <= z <= max_int64.
Definition in_uint64 (z : Z) : Prop := 0 <= z < two64.

Notation "x +64 y" := (wrap64 (x + y)) (at level 50, left associativity) : go_scope.
Notation "x -64 y" := (wrap64 (x - y)) (at level 50, left associativity) : go_scope.
Notation "x *64 y" := (wrap64 (x * y)) (at level 40, left associativity) : go_scope.

(** ** Time

    A [time.Time] is the number of nanoseconds since Go's zero time, so that
    [IsZero] is equality with 0 and [Truncate], which rounds towards the zero
    time, is a remainder.  A [time.Duration] is a nanosecond count. *)

Definition nanosecond : Z := 1.
Definition microsecond : Z := 1000.
Definition millisecond : Z := 1000000.
Definition second : Z := 1000000000.
Definition minute : Z := 60 * second.
Definition hour : Z := 60 * minute.

(** [t.Sub(u)]. *)
Definition time_sub (t u : Z) : Z := sat64 (t - u).
(** [t.Add(d)]. *)
Definition time_add (t d : Z) : Z := t + d.
(** A time as the Kubernetes API stores it, in whole seconds. *)
Definition wire (t : Z) : Z := t / second * second.
(** [t.Truncate(d)] for a positive [d]. *)
Definition time_truncate (t d : Z) : Z := t - t mod d.
(** [t.IsZero()]. *)
Definition time_is_zero (t : Z) : bool := t =? 0.

(** ** Errors

    A fallible Go function returns a value or a non-nil error. *)

Inductive result (E A : Type) : Type :=
| Ok (a : A)
| Err (e : E).
Arguments Ok {E A} _.
Arguments Err {E A} _.

#[export] Instance result_ret (E : Type) : MRet (result E) := fun A a => Ok a.
#[export] Instance result_bind (E : Type) : MBind (result E) :=
  fun A B f r => match r with Ok a => f a | Err e => Err e end.

(** [when b e] is the early return [if b { return e }]. *)
Definition when {E : Type} (b : bool) (e : E) : result E unit := if b then Err e else Ok tt.

(** ** Automation *)

Create HintDb llm discriminated.
Create Rewrite HintDb wrap.
Create Rewrite HintDb result.

(** Case analysis on the boolean tests of the goal and the hypotheses. *)
Ltac case_if :=
  match goal with
  | |- context [if ?b then _ else _] => destruct b eqn:?
  | H : context [if ?b then _ else _] |- _ => destruct b eqn:?
  end.

(** Turn the boolean facts of the context into propositions. *)
Ltac to_prop :=
  repeat match goal with
  | H : bool_decide _ = true |- _ => apply bool_decide_eq_true in H
  | H : bool_decide _ = false |- _ => apply bool_decide_eq_false in H
  | H : andb _ _ = true |- _ => apply andb_true_iff in H; destruct H
  | H : orb _ _ = false |- _ => apply orb_false_iff in H; destruct H
  | H : negb _ = true |- _ => apply negb_true_iff in H
  | H : negb _ = false |- _ => apply negb_false_iff in H
  | H : (_ <? _) = true |- _ => apply Z.ltb_lt in H
  | H : (_ <? _) = false |- _ => apply Z.ltb_ge in H
  | H : (_ <=? _) = true |- _ => apply Z.leb_le in H
  | H : (_ <=? _) = false |- _ => apply Z.leb_gt in H
  | H : (_ =? _) = true |- _ => apply Z.eqb_eq in H
  | H : (_ =? _) = false |- _ => apply Z.eqb_neq in H
  end.

(** ** Lemmas on machine integers and time *)

Lemma wrap32_small (z : Z) : -2147483648 <= z <= 2147483647 -> wrap32 z = z.
Proof. intros H. unfold wrap32. rewrite Z.mod_small; lia. Qed.

Lemma wrap64_small (z : Z) : in_int64 z -> wrap64 z = z.
Proof.
  unfold in_int64, wrap64, min_int64, max_int64, two63, two64; intros H.
  rewrite Z.mod_small; lia.
Qed.

Lemma wrap64_range (z : Z) : in_int64 (wrap64 z).
Proof.
  unfold in_int64, wrap64, min_int64, max_int64.
  pose proof (Z.mod_pos_bound (z + two63) two64 ltac:(reflexivity)).
  unfold two63, two64 in *; lia.
Qed.

(** Wrapping is a ring homomorphism onto the residues modulo [two64]. *)
Lemma wrap64_eq_mod (a b : Z) : wrap64 a = wrap64 b <-> a mod two64 = b mod two64.
Proof.
  unfold wrap64; split; intros H.
  - assert ((a + two63) mod two64 = (b + two63) mod two64) as E by lia.
    replace a with ((a + two63) - two63) by lia.
    replace b with ((b + two63) - two63) by lia.
    rewrite (Zminus_mod (a + two63)), E, <- Zminus_mod. reflexivity.
  - rewrite (Zplus_mod a), H, <- Zplus_mod. reflexivity.
Qed.

Lemma wrap64_mod (z : Z) : wrap64 z mod two64 = z mod two64.
Proof.
  unfold wrap64. rewrite Zminus_mod_idemp_l. f_equal; lia.
Qed.

Lemma wrap64_add_l (a b : Z) : wrap64 (wrap64 a + b) = wrap64 (a + b).
Proof.
  apply wrap64_eq_mod. rewrite Zplus_mod, wrap64_mod, <- Zplus_mod. reflexivity.
Qed.

Lemma wrap64_add_r (a b : Z) : wrap64 (a + wrap64 b) = wrap64 (a + b).
Proof. rewrite !(Z.add_comm a). apply wrap64_add_l. Qed.

Lemma wrap64_idem (z : Z) : wrap64 (wrap64 z) = wrap64 z.
Proof. apply wrap64_small, wrap64_range. Qed.

Lemma sat64_small (z : Z) : in_int64 z -> sat64 z = z.
Proof. unfold in_int64, sat64; lia. Qed.

(** Saturation keeps a comparison against a bound inside the range. *)
Lemma sat64_gt (z d : Z) : min_int64 <= d < max_int64 -> (d < sat64 z <-> d < z).
Proof. unfold sat64; lia. Qed.

Lemma sat64_ge (z d : Z) : min_int64 < d <= max_int64 -> (d <= sat64 z <-> d <= z).
Proof. unfold sat64; lia. Qed.

Lemma time_truncate_le (t d : Z) : 0 < d -> t - d < time_truncate t d <= t.
Proof. intros; unfold time_truncate. pose proof (Z.mod_pos_bound t d); lia. Qed.

Lemma time_truncate_mono (t u d : Z) :
  0 < d -> t <= u -> time_truncate t d <= time_truncate u d.
Proof.
  intros Hd Htu; unfold time_truncate.
  rewrite !(Z.mod_eq _ d) by lia.
  assert (t / d <= u / d) by (apply Z.div_le_mono; lia). nia.
Qed.

#[export] Hint Resolve wrap64_range : llm.
#[export] Hint Rewrite wrap64_add_l wrap64_add_r wrap64_idem : wrap.

(** ** Lemmas on results *)

Lemma bind_Ok {E A B} (r : result E A) (f : A -> result E B) (b : B) :
  (r ≫= f) = Ok b <-> exists a, r = Ok a /\ f a = Ok b.
Proof.
  destruct r as [a|e]; simpl; split.
  - eauto.
  - intros (a' & [= <-] & H); done.
  - discriminate.
  - intros (a' & [=] & _).
Qed.

Lemma when_Ok {E} (b : bool) (e : E) (u : unit) : when b e = Ok u <-> b = false.
Proof. destruct b, u; simpl; split; congruence. Qed.

#[export] Hint Rewrite @bind_Ok @when_Ok : result.

(** ** Lemmas on lists *)

Lemma find_Some_iff {A} (f : A -> bool) (l : list A) (x : A) :
  List.find f l = Some x <->
  exists l1 l2, l = l1 ++ x :: l2 /\ f x = true /\ Forall (fun y => f y = false) l1.
Proof.
  induction l as [|y l IH]; simpl.
  - split; [discriminate | intros (l1 & l2 & E & _); destruct l1; discriminate].
  - destruct (f y) eqn:Hy; split.
    + intros [= ->]. exists [], l; auto.
    + intros (l1 & l2 & E & Hx & Hall). destruct l1 as [|z l1]; simplify_eq/=; [done|].
      inversion Hall; simplify_eq. congruence.
    + intros H. apply IH in H as (l1 & l2 & -> & Hx & Hall).
      exists (y :: l1), l2; split_and!; auto.
    + intros (l1 & l2 & E & Hx & Hall). destruct l1 as [|z l1]; simplify_eq/=; [congruence|].
      apply IH. inversion Hall; simplify_eq. eauto.
Qed.

Lemma find_None_iff {A} (f : A -> bool) (l : list A) :
  List.find f l = None <-> Forall (fun y => f y = false) l.
Proof.
  induction l as [|y l IH]; simpl; [split; auto|].
  destruct (f y) eqn:Hy; split; intros H; try discriminate.
  - inversion H; congruence.
  - constructor; [done | by apply IH].
  - apply IH. by inversion H.
Qed.

(** ** Maps built by a loop of insertions

    [for _, x := range l { m[f(x)] = x }]. *)

Lemma foldl_insert_lookup {A} (f : A -> string) (l : list A) (m : gmap string A) (k : string) :
  NoDup (f <$> l) ->
  foldl (fun m x => <[f x := x]> m) m l !! k =
  match List.find (fun x => bool_decide (f x = k)) l with
  | Some x => Some x
  | None => m !! k
  end.
Proof.
  revert m; induction l as [|x l IH]; intros m; simpl; [done|].
  rewrite NoDup_cons. intros [Hni Hnd]. rewrite IH by done.
  case_bool_decide as Hx; subst.
  - assert (List.find (fun y => bool_decide (f y = f x)) l = None) as ->.
    { apply find_None_iff, Forall_forall. intros y Hy. rewrite bool_decide_eq_false.
      intros Hy'. apply Hni. rewrite <- Hy'. apply list_elem_of_fmap; eauto. }
    by rewrite lookup_insert_eq.
  - rewrite lookup_insert_ne by done. done.
Qed.

Lemma find_elem_nodup {A} (f : A -> string) (l : list A) (x : A) :
  NoDup (f <$> l) -> x ∈ l -> List.find (fun y => bool_decide (f y = f x)) l = Some x.
Proof.
  induction l as [|y l IH]; [by rewrite elem_of_nil|].
  rewrite fmap_cons, NoDup_cons, elem_of_cons. intros [Hni Hnd] [->|Hx]; simpl.
  - by rewrite bool_decide_eq_true_2.
  - rewrite bool_decide_eq_false_2; [by apply IH|].
    intros E. apply Hni. rewrite E. apply list_elem_of_fmap; eauto.
Qed.

(** The last write to a key wins. *)
Lemma foldl_insert_shadow {A} (f : A -> string) (l1 l2 : list A) (x y : A) (m : gmap string A) :
  f x = f y -> y ∈ l2 ->
  foldl (fun m x => <[f x := x]> m) m (l1 ++ x :: l2) = foldl (fun m x => <[f x := x]> m) m (l1 ++ l2).
Proof.
  intros Hf Hy. rewrite !foldl_app. simpl. generalize (foldl (fun m x => <[f x := x]> m) m l1) as m1.
  induction l2 as [|z l2 IH]; intros m1; [by apply elem_of_nil in Hy|]. simpl.
  destruct (decide (f z = f x)) as [E|E].
  - by rewrite E, insert_insert_eq.
  - rewrite insert_insert_ne by done. apply IH. apply elem_of_cons in Hy as [->|?]; [congruence|done].
Qed.

Lemma foldl_insert_elem {A} (f : A -> string) (l : list A) (m : gmap string A) (k : string) (x : A) :
  foldl (fun m x => <[f x := x]> m) m l !! k = Some x -> (x ∈ l /\ f x = k) \/ m !! k = Some x.
Proof.
  revert m; induction l as [|y l IH]; intros m; simpl; [auto|].
  intros [[Hx Hk]|H]%IH; [left; split; [by right|done]|].
  destruct (decide (f y = k)) as [<-|].
  - rewrite lookup_insert_eq in H. injection H as ->. left. split; [by left|done].
  - rewrite lookup_insert_ne in H by done. by right.
Qed.

(** ** Sums over maps *)

Section MapSum.
Context {K A : Type} `{Countable K}.
Implicit Types (m : gmap K A) (f : K -> A -> Z).

Definition msum (f : K -> A -> Z) (m : gmap K A) : Z := map_fold (fun k x acc => f k x + acc) 0 m.

Lemma msum_empty f : msum f ∅ = 0.
Proof. apply map_fold_empty. Qed.

Lemma msum_insert f m k x : m !! k = None -> msum f (<[k := x]> m) = f k x + msum f m.
Proof. intros Hk. unfold msum. rewrite map_fold_insert_L; [done| |done]. intros; lia. Qed.

Lemma msum_delete f m k x : m !! k = Some x -> msum f m = f k x + msum f (delete k m).
Proof.
  intros Hk. rewrite <- msum_insert by apply lookup_delete_eq. by rewrite insert_delete_id.
Qed.

Lemma msum_bounds f m :
  (forall k x, m !! k = Some x -> 0 <= f k x <= 1) -> 0 <= msum f m <= Z.of_nat (size m).
Proof.
  induction m as [|k x m Hk IH] using map_ind; intros Hf.
  - rewrite msum_empty, map_size_empty. lia.
  - rewrite msum_insert, map_size_insert_None by done.
    specialize (Hf k x) as Hkx. rewrite lookup_insert_eq in Hkx. specialize (Hkx eq_refl).
    assert (0 <= msum f m <= Z.of_nat (size m)); [|lia].
    apply IH. intros k' x' Hk'. apply Hf. rewrite lookup_insert_ne by congruence. done.
Qed.

Lemma msum_zero f m : (forall k x, m !! k = Some x -> f k x = 0) -> msum f m = 0.
Proof.
  induction m as [|k x m Hk IH] using map_ind; intros Hf; [apply msum_empty|].
  rewrite msum_insert by done. rewrite (Hf k x) by apply lookup_insert_eq.
  rewrite IH; [done|]. intros k' x' Hk'. apply Hf. rewrite lookup_insert_ne by congruence. done.
Qed.

End MapSum.
