(* ===== verification/GoStrings.v ===== *)
(** * Go's strings, as the router uses them

    A Go [string] is a byte sequence; so is [String.string], a list of 8-bit
    [ascii].  This file models the functions of the packages [strings], [path],
    [unicode/utf8], [strconv] and [sort] that the modelled sources call.
    [ToLower] and [TrimSpace] are exact on ASCII text, which is what HTTP header
    names, Kubernetes names and classification labels are; bytes from 128 up are
    left alone. *)

From stdpp Require Import base strings list sorting pretty.
From Stdlib Require Import ZArith Lia Bool Ascii.
From S2P Require Import Prelude.

Definition byte_of (c : ascii) : Z := Z.of_N (N_of_ascii c).

(** ** Package [strings] *)

Fixpoint HasPrefix (s p : string) {struct p} : bool :=
  match p, s with
  | EmptyString, _ => true
  | String a p', String b s' => Ascii.eqb a b && HasPrefix s' p'
  | String _ _, EmptyString => false
  end.

(** [strings.CutPrefix]: the rest of [s] after the prefix [p], if it has it. *)
Fixpoint CutPrefix (s p : string) {struct p} : option string :=
  match p, s with
  | EmptyString, _ => Some s
  | String a p', String b s' => if Ascii.eqb a b then CutPrefix s' p' else None
  | String _ _, EmptyString => None
  end.

Definition colon : ascii := ":"%char.

(** [strings.Cut] around the first occurrence of a one-byte separator. *)
Fixpoint CutByte (s : string) (c : ascii) : option (string * string) :=
  match s with
  | EmptyString => None
  | String a s' =>
      if Ascii.eqb a c then Some (EmptyString, s')
      else match CutByte s' c with
           | Some (before, after) => Some (String a before, after)
           | None => None
           end
  end.

Fixpoint ContainsByte (s : string) (c : ascii) : bool :=
  match s with
  | EmptyString => false
  | String a s' => Ascii.eqb a c || ContainsByte s' c
  end.

(** [strings.Split] and [bytes.Split] at a one-byte separator. *)
Fixpoint SplitByte (s : string) (c : ascii) : list string :=
  match s with
  | EmptyString => [EmptyString]
  | String x s' =>
      if Ascii.eqb x c then EmptyString :: SplitByte s' c
      else match SplitByte s' c with
           | l :: ls => String x l :: ls
           | [] => [String x EmptyString]
           end
  end.

(** [strings.Contains]. *)
Fixpoint Contains (s sub : string) : bool :=
  HasPrefix s sub ||
  match s with
  | EmptyString => false
  | String _ s' => Contains s' sub
  end.

Fixpoint last_byte (s : string) : option ascii :=
  match s with
  | EmptyString => None
  | String a EmptyString => Some a
  | String _ s' => last_byte s'
  end.

Definition HasSuffixByte (s : string) (c : ascii) : bool :=
  match last_byte s with Some a => Ascii.eqb a c | None => false end.

Definition lower_byte (c : ascii) : ascii :=
  let n := N_of_ascii c in
  if ((65 <=? n) && (n <=? 90))%N then ascii_of_N (n + 32)%N else c.

Fixpoint ToLower (s : string) : string :=
  match s with
  | EmptyString => EmptyString
  | String c s' => String (lower_byte c) (ToLower s')
  end.

Definition upper_byte (c : ascii) : ascii :=
  let n := N_of_ascii c in
  if ((97 <=? n) && (n <=? 122))%N then ascii_of_N (n - 32)%N else c.

Fixpoint ToUpper (s : string) : string :=
  match s with
  | EmptyString => EmptyString
  | String c s' => String (upper_byte c) (ToUpper s')
  end.

(** [strings.EqualFold]. *)
Definition EqualFold (s t : string) : bool := bool_decide (ToLower s = ToLower t).

(** Tab, line feed, vertical tab, form feed, carriage return and space. *)
Definition is_space (c : ascii) : bool :=
  let n := N_of_ascii c in ((9 <=? n) && (n <=? 13) || (n =? 32))%N.

Fixpoint TrimLeftSpace (s : string) : string :=
  match s with
  | EmptyString => EmptyString
  | String c s' => if is_space c then TrimLeftSpace s' else s
  end.

Fixpoint TrimRightSpace (s : string) : string :=
  match s with
  | EmptyString => EmptyString
  | String c s' =>
      match TrimRightSpace s' with
      | EmptyString => if is_space c then EmptyString else String c EmptyString
      | r => String c r
      end
  end.

Definition TrimSpace (s : string) : string := TrimRightSpace (TrimLeftSpace s).

(** [strings.Fields], with the field that is being read. *)
Fixpoint fields_from (cur : string) (s : string) : list string :=
  let flush := if bool_decide (cur = EmptyString) then [] else [cur] in
  match s with
  | EmptyString => flush
  | String c s' => if is_space c then flush ++ fields_from EmptyString s' else fields_from (cur +:+ String c EmptyString) s'
  end.

Definition Fields (s : string) : list string := fields_from EmptyString s.

(** [strings.Join]. *)
Fixpoint Join (elems : list string) (sep : string) : string :=
  match elems with
  | [] => EmptyString
  | [e] => e
  | e :: es => e +:+ sep +:+ Join es sep
  end.

(** [strconv.Itoa]. *)
Definition Itoa (z : Z) : string := pretty z.

(** [sort.Strings]: ascending byte-lexicographic order. *)
Definition SortStrings (l : list string) : list string := merge_sort String.le l.

(** ** Package [unicode/utf8] *)

Definition RuneError : Z := 65533.

Definition in_range (lo hi : Z) (c : ascii) : bool := (lo <=? byte_of c) && (byte_of c <=? hi).

(** The range of valid second bytes after a first byte of a three- or four-byte
    sequence: it excludes overlong encodings, surrogates and values past
    U+10FFFF. *)
Definition second_range (b0 : Z) : Z * Z :=
  if b0 =? 224 then (160, 191)
  else if b0 =? 237 then (128, 159)
  else if b0 =? 240 then (144, 191)
  else if b0 =? 244 then (128, 143)
  else (128, 191).

(** [utf8.DecodeRuneInString]: the first rune of [s] and the number of bytes it
    takes; an invalid byte decodes as [RuneError] with width 1. *)
Definition DecodeRuneInString (s : string) : Z * nat :=
  match s with
  | EmptyString => (RuneError, 0%nat)
  | String c0 s1 =>
      let b0 := byte_of c0 in
      let bad := (RuneError, 1%nat) in
      if b0 <? 128 then (b0, 1%nat)
      else if (194 <=? b0) && (b0 <=? 223) then
        match s1 with
        | String c1 _ =>
            if in_range 128 191 c1 then ((b0 - 192) * 64 + (byte_of c1 - 128), 2%nat) else bad
        | EmptyString => bad
        end
      else if (224 <=? b0) && (b0 <=? 239) then
        match s1 with
        | String c1 (String c2 _) =>
            if in_range (second_range b0).1 (second_range b0).2 c1 && in_range 128 191 c2
            then ((b0 - 224) * 4096 + (byte_of c1 - 128) * 64 + (byte_of c2 - 128), 3%nat)
            else bad
        | _ => bad
        end
      else if (240 <=? b0) && (b0 <=? 244) then
        match s1 with
        | String c1 (String c2 (String c3 _)) =>
            if in_range (second_range b0).1 (second_range b0).2 c1
               && in_range 128 191 c2 && in_range 128 191 c3
            then ((b0 - 240) * 262144 + (byte_of c1 - 128) * 4096
                  + (byte_of c2 - 128) * 64 + (byte_of c3 - 128), 4%nat)
            else bad
        | _ => bad
        end
      else bad
  end.

Fixpoint drop_bytes (n : nat) (s : string) : string :=
  match n, s with
  | O, _ => s
  | S n', String _ s' => drop_bytes n' s'
  | S _, EmptyString => EmptyString
  end.

(** ** Package [path]: [path.Match]

    [None] is [ErrBadPattern]. *)
Module PathMatch.

Definition star : ascii := "*"%char.
Definition qmark : ascii := "?"%char.
Definition lbrack : ascii := "["%char.
Definition rbrack : ascii := "]"%char.
Definition backslash : ascii := "\"%char.
Definition slash : ascii := "/"%char.
Definition caret : ascii := "^"%char.
Definition dash : ascii := "-"%char.

(** The leading run of stars of a pattern, and the rest. *)
Fixpoint skip_stars (p : string) : bool * string :=
  match p with
  | String c p' => if Ascii.eqb c star then (true, (skip_stars p').2) else (false, p)
  | EmptyString => (false, EmptyString)
  end.

(** The chunk up to the first star outside a character class, and the rest. *)
Fixpoint scan (inrange : bool) (p : string) : string * string :=
  match p with
  | EmptyString => (EmptyString, EmptyString)
  | String c p' =>
      if Ascii.eqb c backslash then
        match p' with
        | String d p'' => let '(ch, rest) := scan inrange p'' in (String c (String d ch), rest)
        | EmptyString => (String c EmptyString, EmptyString)
        end
      else if Ascii.eqb c star && negb inrange then (EmptyString, p)
      else
        let inrange' := if Ascii.eqb c lbrack then true
                        else if Ascii.eqb c rbrack then false else inrange in
        let '(ch, rest) := scan inrange' p' in (String c ch, rest)
  end.

(** [path.scanChunk]. *)
Definition scanChunk (p : string) : bool * string * string :=
  let '(st, p') := skip_stars p in
  let '(ch, rest) := scan false p' in (st, ch, rest).

(** [path.getEsc]: the next rune of a character class and the remaining chunk;
    [None] is [ErrBadPattern]. *)
Definition getEsc (chunk : string) : option (Z * string) :=
  match chunk with
  | EmptyString => None
  | String c r =>
      if Ascii.eqb c dash || Ascii.eqb c rbrack then None
      else
        let body := if Ascii.eqb c backslash then r else chunk in
        match body with
        | EmptyString => None
        | _ =>
            let '(rn, n) := DecodeRuneInString body in
            if (rn =? RuneError) && (n =? 1)%nat then None
            else match drop_bytes n body with
                 | EmptyString => None
                 | rest => Some (rn, rest)
                 end
        end
  end.

(** The ranges of a character class, after the opening bracket and the optional
    caret: whether [r] is in one of them, and the chunk after the closing
    bracket. *)
Fixpoint class_ranges (fuel : nat) (r : Z) (matched : bool) (nrange : nat) (chunk : string)
  : option (bool * string) :=
  match fuel with
  | O => None
  | S fuel' =>
      match chunk with
      | String c rest =>
          if Ascii.eqb c rbrack && (0 <? nrange)%nat then Some (matched, rest)
          else
            match getEsc chunk with
            | None => None
            | Some (lo, chunk1) =>
                match chunk1 with
                | String c1 r1 =>
                    if Ascii.eqb c1 dash then
                      match getEsc r1 with
                      | None => None
                      | Some (hi, chunk2) =>
                          class_ranges fuel' r (matched || ((lo <=? r) && (r <=? hi))) (S nrange) chunk2
                      end
                    else class_ranges fuel' r (matched || (lo =? r)) (S nrange) chunk1
                | EmptyString => None
                end
            end
      | EmptyString => None
      end
  end.

(** [path.matchChunk] with its [failed] flag: [None] is [ErrBadPattern],
    [Some None] a mismatch and [Some (Some t)] a match that leaves [t]. *)
Fixpoint matchChunk_loop (fuel : nat) (failed : bool) (chunk s : string) : option (option string) :=
  match fuel with
  | O => None
  | S fuel' =>
      match chunk with
      | EmptyString => Some (if failed then None else Some s)
      | String c rest =>
          let failed := failed || match s with EmptyString => true | _ => false end in
          if Ascii.eqb c lbrack then
            let '(r, n) := if failed then (0, 0%nat) else DecodeRuneInString s in
            let s' := drop_bytes n s in
            let '(negated, chunk1) :=
              match rest with
              | String d rest' => if Ascii.eqb d caret then (true, rest') else (false, rest)
              | EmptyString => (false, rest)
              end in
            match class_ranges fuel' r false 0 chunk1 with
            | None => None
            | Some (matched, chunk2) =>
                matchChunk_loop fuel' (failed || Bool.eqb matched negated) chunk2 s'
            end
          else if Ascii.eqb c qmark then
            if failed then matchChunk_loop fuel' true rest s
            else
              let is_slash := match s with String d _ => Ascii.eqb d slash | _ => false end in
              matchChunk_loop fuel' is_slash rest (drop_bytes (DecodeRuneInString s).2 s)
          else
            let lit := if Ascii.eqb c backslash
                       then match rest with
                            | String d rest' => Some (d, rest')
                            | EmptyString => None
                            end
                       else Some (c, rest) in
            match lit with
            | None => None
            | Some (d, rest') =>
                if failed then matchChunk_loop fuel' true rest' s
                else match s with
                     | String e s' => matchChunk_loop fuel' (negb (Ascii.eqb d e)) rest' s'
                     | EmptyString => matchChunk_loop fuel' true rest' s
                     end
            end
      end
  end.

(** Each iteration takes at least one byte off the chunk. *)
Definition matchChunk (chunk s : string) : option (option string) :=
  matchChunk_loop (S (String.length chunk)) false chunk s.

(** The retry loop under a star: skip one more byte each time, never a slash. *)
Fixpoint star_loop (chunk : string) (last : bool) (name : string) : option (option string) :=
  match name with
  | EmptyString => Some None
  | String c name' =>
      if Ascii.eqb c slash then Some None
      else match matchChunk chunk name' with
           | None => None
           | Some (Some t) =>
               if last && negb (bool_decide (t = EmptyString))
               then star_loop chunk last name'
               else Some (Some t)
           | Some None => star_loop chunk last name'
           end
  end.

(** The syntax check of what is left of the pattern after a mismatch. *)
Fixpoint check_rest (fuel : nat) (pattern : string) : option bool :=
  match fuel, pattern with
  | _, EmptyString => Some false
  | O, _ => None
  | S fuel', _ =>
      let '(_, chunk, rest) := scanChunk pattern in
      match matchChunk chunk EmptyString with
      | None => None
      | Some _ => check_rest fuel' rest
      end
  end.

Fixpoint Match_loop (fuel : nat) (pattern name : string) : option bool :=
  match fuel, pattern with
  | _, EmptyString => Some (bool_decide (name = EmptyString))
  | O, _ => None
  | S fuel', _ =>
      let '(st, chunk, rest) := scanChunk pattern in
      if st && bool_decide (chunk = EmptyString) then Some (negb (ContainsByte name slash))
      else
        let last := bool_decide (rest = EmptyString) in
        let retry :=
          if st then
            match star_loop chunk last name with
            | None => None
            | Some (Some t) => Match_loop fuel' rest t
            | Some None => check_rest fuel' rest
            end
          else check_rest fuel' rest in
        match matchChunk chunk name with
        | Some (Some t) =>
            if bool_decide (t = EmptyString) || negb last then Match_loop fuel' rest t
            else retry
        | None => None
        | Some None => retry
        end
  end.

(** [path.Match]: a scan takes at least one byte off a non-empty pattern. *)
Definition Match (pattern name : string) : option bool :=
  Match_loop (S (String.length pattern)) pattern name.

End PathMatch.

(** ** Lemmas *)

Lemma lower_byte_idem (c : ascii) : lower_byte (lower_byte c) = lower_byte c.
Proof. destruct c as [[] [] [] [] [] [] [] []]; reflexivity. Qed.

Lemma ToLower_idem (s : string) : ToLower (ToLower s) = ToLower s.
Proof. induction s as [|c s IH]; simpl; [done|]. by rewrite lower_byte_idem, IH. Qed.

Lemma app_cons (c : ascii) (s t : string) : String c s +:+ t = String c (s +:+ t).
Proof. reflexivity. Qed.

Lemma app_nil (t : string) : EmptyString +:+ t = t.
Proof. reflexivity. Qed.

Lemma app_empty_r (s : string) : s +:+ EmptyString = s.
Proof. induction s as [|c s IH]; [done|]. by rewrite app_cons, IH. Qed.

Lemma app_assoc_str (a b c : string) : (a +:+ b) +:+ c = a +:+ (b +:+ c).
Proof. induction a as [|x a IH]; [done|]. by rewrite !app_cons, IH. Qed.

Lemma app_inv_head_str (a b c : string) : a +:+ b = a +:+ c -> b = c.
Proof. induction a as [|x a IH]; [done|]. rewrite !app_cons. intros [= H]; auto. Qed.

Lemma length_app_str (a b : string) : String.length (a +:+ b) = (String.length a + String.length b)%nat.
Proof. induction a as [|c a IH]; [done|]. rewrite app_cons. simpl. by rewrite IH. Qed.

Lemma byte_of_range (c : ascii) : 0 <= byte_of c < 256.
Proof. unfold byte_of. pose proof (N_ascii_bounded c). lia. Qed.

Lemma CutPrefix_Some (s p t : string) : CutPrefix s p = Some t <-> s = p +:+ t.
Proof.
  revert s; induction p as [|a p IH]; intros s; simpl; rewrite ?app_nil, ?app_cons.
  - split; congruence.
  - destruct s as [|b s]; [split; discriminate|].
    destruct (Ascii.eqb_spec a b) as [->|Hne]; [rewrite IH|]; split; congruence.
Qed.

Lemma CutPrefix_app (p t : string) : CutPrefix (p +:+ t) p = Some t.
Proof. by apply CutPrefix_Some. Qed.

Lemma HasPrefix_CutPrefix (s p : string) :
  HasPrefix s p = match CutPrefix s p with Some _ => true | None => false end.
Proof.
  revert s; induction p as [|a p IH]; intros s; simpl; [done|].
  destruct s as [|b s]; [done|].
  destruct (Ascii.eqb a b); simpl; auto.
Qed.

Lemma CutByte_Some (s : string) (c : ascii) (b a : string) :
  CutByte s c = Some (b, a) -> s = b +:+ String c a /\ ContainsByte b c = false.
Proof.
  revert b; induction s as [|x s IH]; intros b; simpl; [done|].
  destruct (Ascii.eqb_spec x c) as [->|Hne]; [intros [= <- <-]; done|].
  destruct (CutByte s c) as [[b' a']|]; [|done].
  intros [= <- <-]. destruct (IH b' eq_refl) as [-> H]. simpl.
  apply Ascii.eqb_neq in Hne. by rewrite app_cons, Hne, H.
Qed.

Lemma CutByte_app (b a : string) (c : ascii) :
  ContainsByte b c = false -> CutByte (b +:+ String c a) c = Some (b, a).
Proof.
  induction b as [|x b IH]; rewrite ?app_nil, ?app_cons; simpl; [by rewrite Ascii.eqb_refl|].
  intros H; to_prop. rewrite H. by rewrite IH.
Qed.

Lemma Sorted_SortStrings (l : list string) : Sorted String.le (SortStrings l).
Proof. apply Sorted_merge_sort, _. Qed.

Lemma SortStrings_Permutation (l : list string) : SortStrings l ≡ₚ l.
Proof. apply merge_sort_Permutation. Qed.

Module GlobFacts.
Import PathMatch.

(** The bytes with no special meaning in a pattern. *)
Definition literal_byte (c : ascii) : bool :=
  negb (Ascii.eqb c star || Ascii.eqb c qmark || Ascii.eqb c lbrack || Ascii.eqb c backslash).

Fixpoint literal (p : string) : bool :=
  match p with
  | EmptyString => true
  | String c p' => literal_byte c && literal p'
  end.

Lemma scan_literal (p q : string) (b : bool) :
  literal p = true -> (b = false) -> (q = EmptyString \/ exists r, q = String star r) ->
  scan b (p +:+ q) = (p, q).
Proof.
  intros Hp -> Hq. induction p as [|c p IH]; rewrite ?app_nil, ?app_cons; simpl in *.
  - destruct Hq as [-> | [r ->]]; reflexivity.
  - apply andb_true_iff in Hp as [Hc Hp]. unfold literal_byte in Hc.
    apply negb_true_iff in Hc. rewrite !orb_false_iff in Hc.
    destruct Hc as [[[Hs _] Hl] Hb]. rewrite Hb, Hs, Hl. simpl.
    destruct (Ascii.eqb c rbrack); rewrite (IH Hp); reflexivity.
Qed.

Lemma matchChunk_loop_failed (p s : string) (fuel : nat) :
  literal p = true -> (String.length p < fuel)%nat ->
  matchChunk_loop fuel true p s = Some None.
Proof.
  revert s fuel; induction p as [|c p IH]; intros s fuel Hp Hf; (destruct fuel; [lia|]); simpl in *; [done|].
  apply andb_true_iff in Hp as [Hc Hp]. unfold literal_byte in Hc.
  apply negb_true_iff in Hc. rewrite !orb_false_iff in Hc.
  destruct Hc as [[[_ Hq] Hl] Hb]. rewrite Hq, Hl, Hb. apply IH; [done|lia].
Qed.

Lemma matchChunk_loop_literal (p s : string) (fuel : nat) :
  literal p = true -> (String.length p < fuel)%nat ->
  matchChunk_loop fuel false p s = Some (CutPrefix s p).
Proof.
  revert s fuel; induction p as [|c p IH]; intros s fuel Hp Hf; (destruct fuel; [lia|]).
  { destruct s; reflexivity. }
  simpl in Hp, Hf. apply andb_true_iff in Hp as [Hc Hp].
  unfold literal_byte in Hc. apply negb_true_iff in Hc. rewrite !orb_false_iff in Hc.
  destruct Hc as [[[_ Hq] Hl] Hb]. cbn -[Ascii.eqb]. rewrite Hq, Hl, Hb.
  destruct s as [|e s].
  - apply matchChunk_loop_failed; [done|lia].
  - destruct (Ascii.eqb c e) eqn:He; simpl.
    + apply IH; [done|lia].
    + apply matchChunk_loop_failed; [done|lia].
Qed.

Lemma matchChunk_literal (p s : string) :
  literal p = true -> matchChunk p s = Some (CutPrefix s p).
Proof. intros; apply matchChunk_loop_literal; [done|lia]. Qed.

Lemma skip_stars_literal (c : ascii) (p : string) :
  literal_byte c = true -> skip_stars (String c p) = (false, String c p).
Proof.
  intros H; simpl. unfold literal_byte in H. apply negb_true_iff in H.
  rewrite !orb_false_iff in H. destruct H as [[[-> _] _] _]. done.
Qed.

(** A pattern with no metacharacter matches exactly itself. *)
Lemma Match_literal (p name : string) :
  literal p = true -> Match p name = Some (bool_decide (name = p)).
Proof.
  intros Hp. unfold Match. destruct p as [|c p]; [done|].
  pose proof Hp as Hp'. simpl in Hp. apply andb_true_iff in Hp as [Hc Hp].
  cbn [String.length Match_loop]. unfold scanChunk. rewrite skip_stars_literal by done.
  rewrite <- (app_empty_r (String c p)) at 1. rewrite scan_literal by auto.
  rewrite matchChunk_literal by done. cbn [andb].
  destruct (CutPrefix name (String c p)) as [t|] eqn:E.
  - apply CutPrefix_Some in E as ->.
    destruct (bool_decide_reflect (t = EmptyString)) as [->|Hne]; simpl.
    + rewrite app_empty_r. by rewrite bool_decide_eq_true_2.
    + rewrite bool_decide_eq_false_2; [done|]. intros H.
      rewrite <- (app_empty_r (String c p)) in H at 2. by apply app_inv_head_str in H.
  - simpl. rewrite bool_decide_eq_false_2; [done|].
    intros ->. rewrite <- (app_empty_r (String c p)) in E at 1.
    by rewrite CutPrefix_app in E.
Qed.

(** A literal followed by a star matches the names with that prefix whose rest
    has no slash. *)
Lemma Match_prefix_star (p name : string) :
  literal p = true ->
  Match (p +:+ "*") name =
  Some (match CutPrefix name p with
        | Some t => negb (ContainsByte t slash)
        | None => false
        end).
Proof.
  intros Hp. unfold Match. destruct p as [|c p]; [done|].
  pose proof Hp as Hp'. simpl in Hp. apply andb_true_iff in Hp as [Hc Hp].
  change (String c p +:+ "*") with (String c (p +:+ "*")).
  cbn [String.length Match_loop]. unfold scanChunk. rewrite skip_stars_literal by done.
  change (String c (p +:+ "*")) with (String c p +:+ "*").
  rewrite scan_literal by eauto.
  rewrite matchChunk_literal by done. cbn [andb].
  assert (Hl : exists n, String.length (p +:+ "*") = S n).
  { destruct p; simpl; eauto. }
  destruct Hl as [n ->]. destruct (CutPrefix name (String c p)); simpl; [|done].
  by rewrite orb_true_r.
Qed.

End GlobFacts.

Lemma CutByte_None (s : string) (c : Ascii.ascii) : ContainsByte s c = false -> CutByte s c = None.
Proof. induction s as [|x s IH]; simpl; [done|]. intros H. to_prop. rewrite H. by rewrite IH. Qed.

Lemma SplitByte_app (a b : string) (c : Ascii.ascii) :
  ContainsByte a c = false -> SplitByte (a +:+ String c b) c = a :: SplitByte b c.
Proof.
  induction a as [|x a IH]; rewrite ?app_nil, ?app_cons; cbn [SplitByte ContainsByte]; [by rewrite Ascii.eqb_refl|].
  intros [Hx Ha]%orb_false_iff. by rewrite Hx, IH.
Qed.

Lemma SplitByte_whole (a : string) (c : Ascii.ascii) : ContainsByte a c = false -> SplitByte a c = [a].
Proof.
  induction a as [|x a IH]; [done|]. cbn [SplitByte ContainsByte]. intros [Hx Ha]%orb_false_iff. by rewrite Hx, IH.
Qed.

(** Pieces without the separator are found again. *)
Lemma SplitByte_Join (c : Ascii.ascii) (l : list string) :
  l <> [] -> Forall (fun a => ContainsByte a c = false) l -> SplitByte (Join l (String c EmptyString)) c = l.
Proof.
  intros Hne Hl. induction l as [|a l IH]; [done|]. inversion Hl; subst.
  destruct l as [|b l]; [by apply SplitByte_whole|].
  change (Join (a :: b :: l) (String c EmptyString)) with (a +:+ String c (Join (b :: l) (String c EmptyString))).
  rewrite SplitByte_app by done. by rewrite IH.
Qed.

Lemma ContainsByte_app (a b : string) (c : Ascii.ascii) : ContainsByte (a +:+ b) c = ContainsByte a c || ContainsByte b c.
Proof. induction a as [|x a IH]; rewrite ?app_nil, ?app_cons; [done|]. cbn. by rewrite IH, orb_assoc. Qed.
