(* ===== verification/GoFloat.v ===== *)
(** * Go's [float64]

    IEEE 754 binary64 arithmetic, rounding to nearest even, from the standard
    library's executable [spec_float] semantics.  Products and sums are rounded
    one at a time, as Go does on amd64 (the language allows a fused
    multiply-add on other architectures). *)

From Stdlib Require Import ZArith Lia Bool SpecFloat.
From S2P Require Import Prelude.

Definition prec : Z := 53.
Definition emax : Z := 1024.

Abbreviation float64 := spec_float.

Definition fzero : float64 := S754_zero false.
Definition fadd (x y : float64) : float64 := SFadd prec emax x y.
Definition fmul (x y : float64) : float64 := SFmul prec emax x y.
Definition fdiv (x y : float64) : float64 := SFdiv prec emax x y.

(** [x > y], [x >= y], [x < y] and [x <= y]; false when an operand is NaN. *)
Definition fgt (x y : float64) : bool := SFltb y x.
Definition fge (x y : float64) : bool := SFleb y x.
Definition flt (x y : float64) : bool := SFltb x y.
Definition fle (x y : float64) : bool := SFleb x y.

(** [float64(z)] for an integer [z]. *)
Definition float_of_int (z : Z) : float64 := binary_normalize prec emax z 0 false.

(** The literal [n / d], rounded once. *)
Definition float_lit (n : Z) (d : positive) : float64 :=
  match n with
  | Zpos p => SFdiv prec emax (S754_finite false p 0) (S754_finite false d 0)
  | Zneg p => SFdiv prec emax (S754_finite true p 0) (S754_finite false d 0)
  | Z0 => fzero
  end.

(** The integer [math.Ceil(x)] of a finite [x]. *)
Definition ceil_Z (x : float64) : option Z :=
  match x with
  | S754_zero _ => Some 0
  | S754_finite s m e =>
      let v := if s then Zneg m else Zpos m in
      Some (match e with
            | Z0 => v
            | Zpos _ => v * 2 ^ e
            | Zneg p => - ((- v) / 2 ^ (Zpos p))
            end)
  | S754_infinity _ | S754_nan => None
  end.

(** [int64(math.Ceil(x))].  Go leaves the conversion of a value outside the
    [int64] range to the implementation; this is amd64's answer. *)
Definition int64_ceil (x : float64) : Z :=
  match ceil_Z x with
  | Some z => if (min_int64 <=? z) && (z <=? max_int64) then z else min_int64
  | None => min_int64
  end.

Definition is_nan (x : float64) : bool := match x with S754_nan => true | _ => false end.

(** ** Lemmas *)

Lemma fgt_fge (x y : float64) : fgt x y = true -> fge x y = true.
Proof.
  unfold fgt, fge, SFltb, SFleb. destruct (SFcompare y x) as [[]|]; auto.
Qed.

Lemma SFcompare_antisym (x y : float64) :
  SFcompare y x = match SFcompare x y with Some c => Some (CompOpp c) | None => None end.
Proof.
  destruct x as [[]|[]| |[] m e], y as [[]|[]| |[] m' e']; simpl; auto;
    rewrite (Z.compare_antisym e e'); destruct (e ?= e'); simpl; auto;
    rewrite (Pos.compare_cont_antisym m m' Eq); simpl;
    destruct (Pos.compare_cont Eq m m'); reflexivity.
Qed.

Lemma fge_not_flt (x y : float64) : fge x y = true -> flt x y = false.
Proof.
  unfold fge, flt, SFltb, SFleb. rewrite (SFcompare_antisym y x).
  destruct (SFcompare y x) as [[]|]; simpl; congruence.
Qed.

Lemma fgt_not_fle (x y : float64) : fgt x y = true -> fle x y = false.
Proof.
  unfold fgt, fle, SFltb, SFleb. rewrite (SFcompare_antisym y x).
  destruct (SFcompare y x) as [[]|]; simpl; congruence.
Qed.

Lemma flt_not_fgt (x y : float64) : flt x y = true -> fgt x y = false.
Proof.
  unfold fgt, flt, SFltb. rewrite (SFcompare_antisym y x).
  destruct (SFcompare y x) as [[]|]; simpl; congruence.
Qed.

Example lit_0_9 : float_lit 9 10 = S754_finite false 8106479329266893 (-53).
Proof. reflexivity. Qed.

Example ceil_2_5 : int64_ceil (float_lit 5 2) = 3.
Proof. reflexivity. Qed.

Example ceil_neg_2_5 : int64_ceil (float_lit (-5) 2) = -2.
Proof. reflexivity. Qed.
