(* ===== verification/GoFloatExact.v ===== *)
(** * Exact floating-point arithmetic

    Sums and products of small dyadic fractions are exact: no operation rounds while the
    numerators stay below [2 ^ 53]. *)

From stdpp Require Import base tactics.
From Stdlib Require Import ZArith Lia Bool SpecFloat.
From S2P Require Import Prelude GoFloat.

(** ** Digits and shifts *)

Lemma digits2_bounds (m : positive) : 2 ^ (Zpos (digits2_pos m) - 1) <= Zpos m < 2 ^ Zpos (digits2_pos m).
Proof.
  induction m as [m IH|m IH|]; cbn [digits2_pos]; [| |done].
  all: rewrite Pos2Z.inj_succ; replace (Z.succ (Zpos (digits2_pos m)) - 1) with (Z.succ (Zpos (digits2_pos m) - 1)) by lia.
  all: rewrite !Z.pow_succ_r by lia; lia.
Qed.

Lemma iter_xO (m d : positive) : Zpos (Pos.iter xO m d) = Zpos m * 2 ^ Zpos d.
Proof.
  revert m. induction d as [|d IH] using Pos.peano_ind; intros m; [cbn; lia|].
  rewrite Pos.iter_succ, Pos2Z.inj_succ, Z.pow_succ_r by lia. change (Zpos (xO (Pos.iter xO m d))) with (2 * Zpos (Pos.iter xO m d)). rewrite IH. lia.
Qed.

(** Shifting an exact mantissa right by bits that are zero. *)
Lemma shr_1_even (p : Z) : 0 < p -> shr_1 {| shr_m := 2 * p; shr_r := false; shr_s := false |} = {| shr_m := p; shr_r := false; shr_s := false |}.
Proof. by destruct p. Qed.

Lemma iter_shr_exact (n : positive) : forall p, 0 < p ->
  iter_pos shr_1 n {| shr_m := p * 2 ^ Zpos n; shr_r := false; shr_s := false |} = {| shr_m := p; shr_r := false; shr_s := false |}.
Proof.
  induction n as [n IH|n IH|]; intros p Hp; cbn [iter_pos].
  - replace (p * 2 ^ Zpos n~1) with (2 * (p * 2 ^ Zpos n * 2 ^ Zpos n)) by (change (Zpos n~1) with (2 * Zpos n + 1); rewrite Z.pow_add_r, Z.pow_twice_r by lia; lia).
    rewrite shr_1_even by nia. rewrite IH by nia. by apply IH.
  - replace (p * 2 ^ Zpos n~0) with (p * 2 ^ Zpos n * 2 ^ Zpos n) by (change (Zpos n~0) with (2 * Zpos n); rewrite Z.pow_twice_r by lia; lia).
    rewrite IH by nia. by apply IH.
  - replace (p * 2 ^ 1) with (2 * p) by lia. by apply shr_1_even.
Qed.

(** ** Rounding that does not round *)

(** [m * 2 ^ e = N / 2 ^ k]. *)
Definition same_value (k m e N : Z) : Prop := 0 <= e + k /\ m * 2 ^ (e + k) = N \/ e + k < 0 /\ m = N * 2 ^ (- (e + k)).

Definition small (k N : Z) : Prop := 0 <= k <= 64 /\ 0 < N < 2 ^ 53.

(** The position of the leading bit. *)
Lemma same_value_digits k m e N : small k N -> same_value k (Zpos m) e N -> - k < Zpos (digits2_pos m) + e <= 53 - k.
Proof.
  intros [Hk HN] Hv. pose proof (digits2_bounds m) as [Hlo Hhi]. set (d := Zpos (digits2_pos m)) in *. assert (Hd : 1 <= d) by (unfold d; lia).
  destruct Hv as [[He Hv]|[He Hv]].
  - split; [lia|]. assert (2 ^ (d - 1 + (e + k)) < 2 ^ 53) as H%Z.pow_lt_mono_r_iff; [|lia|lia|lia]. rewrite Z.pow_add_r by lia. pose proof (Z.pow_pos_nonneg 2 (e + k)). nia.
  - pose proof (Z.pow_pos_nonneg 2 (- (e + k)) ltac:(lia) ltac:(lia)) as Hp. split.
    + assert (2 ^ (- (e + k)) < 2 ^ d) as H%Z.pow_lt_mono_r_iff by nia; lia.
    + assert (2 ^ (d - 1) < 2 ^ (53 + - (e + k))) as H%Z.pow_lt_mono_r_iff; [|lia|lia|lia]. rewrite Z.pow_add_r by lia. nia.
Qed.

Lemma fexp_small k m e N : small k N -> same_value k (Zpos m) e N -> fexp prec emax (Zpos (digits2_pos m) + e) = Zpos (digits2_pos m) + e - 53.
Proof. intros Hs Hv. pose proof (same_value_digits _ _ _ _ Hs Hv). unfold fexp, emin, prec, emax. destruct Hs. lia. Qed.

Lemma shr_none mrs e n : n <= 0 -> shr mrs e n = (mrs, e).
Proof. by destruct n. Qed.

Definition exactly (m : Z) : shr_record := {| shr_m := m; shr_r := false; shr_s := false |}.

(** A mantissa of at most 53 bits stays as it is. *)
Lemma shr_fexp_short k m e N :
  small k N -> same_value k (Zpos m) e N -> Zpos (digits2_pos m) <= 53 -> shr_fexp prec emax (Zpos m) e loc_Exact = (exactly (Zpos m), e).
Proof. intros Hs Hv Hd. unfold shr_fexp. cbn [Zdigits2]. rewrite (fexp_small _ _ _ _ Hs Hv). by rewrite shr_none by lia. Qed.

(** A longer one ends in zeros, which are shifted out. *)
Lemma shr_fexp_long k m e N :
  small k N -> same_value k (Zpos m) e N -> 53 < Zpos (digits2_pos m) ->
  exists q e', shr_fexp prec emax (Zpos m) e loc_Exact = (exactly (Zpos q), e') /\ same_value k (Zpos q) e' N /\ Zpos (digits2_pos q) <= 53.
Proof.
  intros Hs Hv Hd. pose proof (same_value_digits _ _ _ _ Hs Hv) as Hdig. pose proof (fexp_small _ _ _ _ Hs Hv) as Hf. pose proof (digits2_bounds m) as [Hlo Hhi].
  destruct Hv as [[He Hv]|[He Hv]].
  { assert (2 ^ 53 <= 2 ^ (Zpos (digits2_pos m) - 1)) by (apply Z.pow_le_mono_r; lia). pose proof (Z.pow_pos_nonneg 2 (e + k)). destruct Hs. nia. }
  remember (Zpos (digits2_pos m) - 53) as n eqn:Hn. remember (N * 2 ^ (- (e + k) - n)) as q eqn:Hq.
  assert (Hm : Zpos m = q * 2 ^ n) by (rewrite Hq, Hv, <- Z.mul_assoc, <- Z.pow_add_r by lia; do 2 f_equal; lia).
  pose proof (Z.pow_pos_nonneg 2 n ltac:(lia) ltac:(lia)) as Hpn. destruct q as [|q|]; [lia| |nia]. destruct n as [|n|]; [lia| |lia].
  exists q, (e + Zpos n). split_and!.
  - unfold shr_fexp. cbn [Zdigits2]. rewrite Hf. replace (Zpos (digits2_pos m) + e - 53 - e) with (Zpos n) by lia. rewrite Hm. cbn [shr shr_record_of_loc].
    by rewrite iter_shr_exact by lia.
  - destruct (decide (Zpos n = - (e + k))) as [Hx|]; [left|right]; (split; [lia|]); rewrite Hq; [|f_equal; f_equal; lia].
    rewrite Hx. replace (- (e + k) - - (e + k)) with 0 by lia. replace (e + - (e + k) + k) with 0 by lia. lia.
  - destruct (digits2_bounds q) as [Hqlo _]. assert (2 ^ Zpos (digits2_pos m) = 2 ^ 53 * 2 ^ Zpos n) as Hsplit by (rewrite <- Z.pow_add_r by lia; f_equal; lia).
    assert (2 ^ (Zpos (digits2_pos q) - 1) < 2 ^ 53) as Hl%Z.pow_lt_mono_r_iff; [nia|lia..].
Qed.

Lemma round_exact k m e N :
  small k N -> same_value k (Zpos m) e N ->
  exists m' e', binary_round_aux prec emax false (Zpos m) e loc_Exact = S754_finite false m' e' /\ same_value k (Zpos m') e' N.
Proof.
  intros Hs Hv. assert (Hshr : exists q e', shr_fexp prec emax (Zpos m) e loc_Exact = (exactly (Zpos q), e') /\ same_value k (Zpos q) e' N /\ Zpos (digits2_pos q) <= 53).
  { destruct (Z.le_gt_cases (Zpos (digits2_pos m)) 53) as [Hd|Hd]; [exists m, e; split; [by eapply shr_fexp_short|done]|by apply shr_fexp_long]. }
  destruct Hshr as (q & e' & Hq & Hvq & Hdq). exists q, e'. split; [|done]. unfold binary_round_aux. rewrite Hq. cbn [exactly shr_m loc_of_shr_record round_nearest_even].
  rewrite (shr_fexp_short k q e' N Hs Hvq Hdq). cbn [exactly shr_m]. pose proof (same_value_digits _ _ _ _ Hs Hvq). destruct Hs.
  by replace (e' <=? emax - prec) with true by (symmetry; apply Z.leb_le; unfold emax, prec; lia).
Qed.

(** The same for a mantissa that is first shifted left. *)
Lemma shl_align_value k m e e' N : same_value k (Zpos m) e N -> same_value k (Zpos (shl_align m e e').1) (shl_align m e e').2 N.
Proof.
  unfold shl_align. intros Hv. destruct (e' - e) as [|d|d] eqn:Hd; [done|done|]. cbn. rewrite iter_xO. assert (He : e' = e - Zpos d) by lia. subst e'.
  destruct Hv as [[He Hv]|[He Hv]].
  - destruct (Z.le_gt_cases 0 (e - Zpos d + k)) as [H|H]; [left|right]; (split; [done|]).
    + rewrite <- Hv, <- Z.mul_assoc, <- Z.pow_add_r by lia. do 2 f_equal. lia.
    + rewrite <- Hv, <- Z.mul_assoc, <- Z.pow_add_r by lia. do 2 f_equal. lia.
  - right. split; [lia|]. rewrite Hv, <- Z.mul_assoc, <- Z.pow_add_r by lia. do 2 f_equal. lia.
Qed.

Lemma normalize_exact k m e N :
  small k N -> same_value k (Zpos m) e N -> exists m' e', binary_normalize prec emax (Zpos m) e false = S754_finite false m' e' /\ same_value k (Zpos m') e' N.
Proof.
  intros Hs Hv. cbn [binary_normalize]. unfold binary_round. pose proof (shl_align_value k m e (fexp prec emax (Zpos (digits2_pos m) + e)) N Hv) as Hv'.
  destruct (shl_align _ _ _) as [mz ez]. by apply round_exact.
Qed.

(** ** The operations *)

(** The float is [N / 2 ^ k]. *)
Definition exact (k : Z) (x : float64) (N : Z) : Prop :=
  match x with
  | S754_zero s => s = false /\ N = 0
  | S754_finite s m e => s = false /\ 0 < N /\ same_value k (Zpos m) e N
  | _ => False
  end.

Lemma exact_of_int z : 0 <= z < 2 ^ 53 -> exact 0 (float_of_int z) z.
Proof.
  intros Hz. destruct z as [|p|]; [done| |lia]. unfold float_of_int. destruct (normalize_exact 0 p 0 (Zpos p)) as (m & e & -> & Hv); [split; lia|left; lia|]. cbn. lia || auto with lia.
Qed.

(** The two cases of [same_value] in one, with the exponent shifted out of the negative. *)
Lemma same_value_shift k m e N c : 0 <= c -> 0 <= e + k + c -> same_value k m e N <-> m * 2 ^ (e + k + c) = N * 2 ^ c.
Proof.
  intros Hc Hek. unfold same_value. destruct (Z.le_gt_cases 0 (e + k)) as [H|H].
  - pose proof (Z.pow_pos_nonneg 2 c ltac:(lia) Hc). rewrite (Z.pow_add_r 2 (e + k) c), Z.mul_assoc, Z.mul_cancel_r by lia. lia.
  - assert (2 ^ c = 2 ^ (- (e + k)) * 2 ^ (e + k + c)) as -> by (rewrite <- Z.pow_add_r by lia; f_equal; lia).
    pose proof (Z.pow_pos_nonneg 2 (e + k + c) ltac:(lia) Hek). rewrite Z.mul_assoc, Z.mul_cancel_r by lia. lia.
Qed.

Lemma same_value_mul j k m m' e e' M N : same_value j m e M -> same_value k m' e' N -> same_value (j + k) (m * m') (e + e') (M * N).
Proof.
  set (c := Z.abs (e + j)). set (c' := Z.abs (e' + k)). rewrite (same_value_shift j m e M c), (same_value_shift k m' e' N c') by lia.
  intros H H'. rewrite (same_value_shift _ _ _ _ (c + c')) by lia. replace (e + e' + (j + k) + (c + c')) with ((e + j + c) + (e' + k + c')) by lia.
  rewrite (Z.pow_add_r 2 (e + j + c)), (Z.pow_add_r 2 c) by lia.
  transitivity (m * 2 ^ (e + j + c) * (m' * 2 ^ (e' + k + c'))); [ring|]. rewrite H, H'. ring.
Qed.

Lemma same_value_add k m m' e M N : same_value k m e M -> same_value k m' e N -> same_value k (m + m') e (M + N).
Proof.
  rewrite !(same_value_shift k _ e _ (Z.abs (e + k))) by lia. intros H H'. lia.
Qed.

Lemma exact_mul j k x y M N : 0 <= j -> 0 <= k -> j + k <= 64 -> M * N < 2 ^ 53 -> exact j x M -> exact k y N -> exact (j + k) (fmul x y) (M * N).
Proof.
  intros Hj Hk Hjk HMN Hx Hy. destruct x as [sx| | |sx mx ex], y as [sy| | |sy my ey]; try done; cbn in Hx, Hy; unfold fmul; cbn [SFmul].
  - destruct Hx as [-> ->], Hy as [-> ->]. done.
  - destruct Hx as [-> ->], Hy as [-> _]. done.
  - destruct Hx as [-> _], Hy as [-> ->]. cbn. split; [done|lia].
  - destruct Hx as (-> & HM & Hx), Hy as (-> & HN & Hy). cbn [xorb].
    destruct (round_exact (j + k) (mx * my) (ex + ey) (M * N)) as (m & e & -> & Hv); [split; nia| |cbn; split; [done|]; split; [nia|done]].
    rewrite Pos2Z.inj_mul. by apply same_value_mul.
Qed.

Lemma shl_align_exp m e e' : e' <= e -> (shl_align m e e').2 = e'.
Proof. unfold shl_align. intros H. destruct (e' - e) eqn:Hd; cbn; lia. Qed.

Lemma exact_add k x y M N : 0 <= k <= 64 -> M + N < 2 ^ 53 -> exact k x M -> exact k y N -> exact k (fadd x y) (M + N).
Proof.
  intros Hk HMN Hx Hy. destruct x as [sx| | |sx mx ex], y as [sy| | |sy my ey]; try done; cbn in Hx, Hy; unfold fadd; cbn [SFadd].
  - by destruct Hx as [-> ->], Hy as [-> ->].
  - by destruct Hx as [-> ->].
  - destruct Hy as [-> ->]. by rewrite Z.add_0_r.
  - destruct Hx as (-> & HM & Hx), Hy as (-> & HN & Hy). cbn [cond_Zopp].
    pose proof (shl_align_value k mx ex (Z.min ex ey) M Hx) as Hx'. pose proof (shl_align_value k my ey (Z.min ex ey) N Hy) as Hy'.
    rewrite shl_align_exp in Hx', Hy' by lia. pose proof (same_value_add _ _ _ _ _ _ Hx' Hy') as Hv. rewrite <- Pos2Z.inj_add in Hv |- *.
    destruct (normalize_exact k _ (Z.min ex ey) (M + N) ltac:(split; lia) Hv) as (m & e & -> & Hv'). cbn. split_and!; [done|lia|done].
Qed.

(** The ceiling of the fraction. *)
Lemma exact_ceil k x N : 0 <= k -> exact k x N -> ceil_Z x = Some (- (- N / 2 ^ k)).
Proof.
  intros Hk. destruct x as [s| | |s m e]; cbn [exact]; try done; [by intros [-> ->]|]. intros (-> & HN & Hv). cbn [ceil_Z]. f_equal. pose proof (Z.pow_pos_nonneg 2 k ltac:(lia) Hk) as Hp.
  destruct e as [|p|p].
  - rewrite (same_value_shift _ _ _ _ 0) in Hv by lia. replace (- N) with (- Zpos m * 2 ^ k) by (replace (0 + k + 0) with k in Hv by lia; lia).
    rewrite Z.div_mul by lia. lia.
  - rewrite (same_value_shift _ _ _ _ 0) in Hv by lia. rewrite Z.add_0_r, Z.pow_add_r in Hv by lia. replace (- N) with (- (Zpos m * 2 ^ Zpos p) * 2 ^ k) by lia.
    rewrite Z.div_mul by lia. lia.
  - rewrite (same_value_shift _ _ _ _ (Zpos p)) in Hv by lia. replace (Zneg p + k + Zpos p) with k in Hv by lia. pose proof (Z.pow_pos_nonneg 2 (Zpos p) ltac:(lia) ltac:(lia)).
    rewrite <- (Z.div_mul_cancel_r (- Zpos m) (2 ^ Zpos p) (2 ^ k)), <- (Z.div_mul_cancel_r (- N) (2 ^ k) (2 ^ Zpos p)) by lia. do 2 f_equal; lia.
Qed.
