(* ===== verification/GoStrconv.v ===== *)
(** * Number and path helpers of Go's standard library

    [strconv.ParseFloat] on decimal literals, [strings.ReplaceAll] of one byte by
    another and [filepath.Base].  The decimal literals cover what the schema of the
    custom resources admits ([0-9]+ with an optional fraction); [named_float] adds the
    names of infinities and NaN, which that schema refuses.  Hexadecimal literals and
    digit separators are not modelled. *)

From stdpp Require Import base strings list.
From Stdlib Require Import ZArith Lia Bool Ascii SpecFloat.
From S2P Require Import Prelude GoStrings GoFloat.

(** ** Decimal literals *)

Definition is_digit (c : ascii) : bool := (48 <=? byte_of c) && (byte_of c <=? 57).
Definition digit (c : ascii) : Z := byte_of c - 48.

(** What the reader of a mantissa has seen. *)
Record mantissa := {
  mt_value : Z;
  mt_fraction : Z;
  mt_digits : bool;
  mt_dot : bool;
}.

(** The longest prefix of digits with at most one point. *)
Fixpoint read_mantissa (s : string) (m : mantissa) : mantissa * string :=
  match s with
  | EmptyString => (m, s)
  | String c s' =>
      if is_digit c then
        read_mantissa s' {| mt_value := 10 * mt_value m + digit c;
                            mt_fraction := if mt_dot m then mt_fraction m + 1 else mt_fraction m;
                            mt_digits := true; mt_dot := mt_dot m |}
      else if bool_decide (c = "."%char) && negb (mt_dot m) then
        read_mantissa s' {| mt_value := mt_value m; mt_fraction := mt_fraction m;
                            mt_digits := mt_digits m; mt_dot := true |}
      else (m, s)
  end.

(** The digits of an exponent, which stops growing at 10000. *)
Fixpoint read_exponent (s : string) (e : Z) : Z * string :=
  match s with
  | String c s' => if is_digit c then read_exponent s' (if e <? 10000 then 10 * e + digit c else e) else (e, s)
  | EmptyString => (e, s)
  end.

Definition read_sign (s : string) : bool * string :=
  match s with
  | String "+"%char s' => (false, s')
  | String "-"%char s' => (true, s')
  | _ => (false, s)
  end.

(** The exponent part, [None] when it is malformed. *)
Definition read_exponent_part (s : string) : option (Z * string) :=
  match s with
  | String c s' =>
      if bool_decide (lower_byte c = "e"%char) then
        let '(neg, s1) := read_sign s' in
        match s1 with
        | String d _ =>
            if is_digit d then let '(e, s2) := read_exponent s1 0 in Some (if neg then - e else e, s2) else None
        | EmptyString => None
        end
      else Some (0, s)
  | EmptyString => Some (0, s)
  end.

(** [m * 10 ^ e] with the sign [neg], rounded once. *)
Definition float_of_decimal (neg : bool) (m e : Z) : float64 :=
  match m with
  | Zpos p =>
      if 0 <=? e then SFdiv prec emax (S754_finite neg (p * Z.to_pos (10 ^ e)) 0) (S754_finite false 1 0)
      else SFdiv prec emax (S754_finite neg p 0) (S754_finite false (Z.to_pos (10 ^ (- e))) 0)
  | _ => S754_zero neg
  end.

Definition is_infinite (x : float64) : bool := match x with S754_infinity _ => true | _ => false end.

(** [strconv.ParseFloat(s, 64)]: [None] for a syntax or a range error. *)
Definition ParseFloat (s : string) : option float64 :=
  let '(neg, s1) := read_sign s in
  let '(m, s2) := read_mantissa s1 {| mt_value := 0; mt_fraction := 0; mt_digits := false; mt_dot := false |} in
  if negb (mt_digits m) then None
  else match read_exponent_part s2 with
       | Some (e, EmptyString) =>
           let x := float_of_decimal neg (mt_value m) (e - mt_fraction m) in
           if is_infinite x then None else Some x
       | _ => None
       end.

(** [strconv.ParseFloat] with the names of infinities and NaN. *)
Definition named_float (s : string) : option float64 :=
  let '(neg, rest) := read_sign s in
  if bool_decide (ToLower rest = "inf") || bool_decide (ToLower rest = "infinity") then Some (S754_infinity neg)
  else if bool_decide (ToLower s = "nan") then Some S754_nan
  else ParseFloat s.

(** The literals the schema admits: [^[0-9]+(\.[0-9]+)?$]. *)
Fixpoint all_digits (s : string) : bool :=
  match s with
  | EmptyString => true
  | String c s' => is_digit c && all_digits s'
  end.

Definition is_decimal (s : string) : bool :=
  match CutByte s "."%char with
  | Some (a, b) => negb (bool_decide (a = EmptyString)) && all_digits a
                   && negb (bool_decide (b = EmptyString)) && all_digits b
  | None => negb (bool_decide (s = EmptyString)) && all_digits s
  end.

(** ** Strings and paths *)

(** The value of a string of digits. *)
Fixpoint read_digits (s : string) (n : Z) : option Z :=
  match s with
  | EmptyString => Some n
  | String c s' => if is_digit c then read_digits s' (10 * n + digit c) else None
  end.

(** [strconv.ParseInt] with base 10. *)
Definition ParseInt (bits : Z) (s : string) : option Z :=
  let '(neg, rest) := read_sign s in
  if bool_decide (rest = EmptyString) then None
  else n ← read_digits rest 0;
       let v := if neg : bool then - n else n in
       if (- 2 ^ (bits - 1) <=? v) && (v <? 2 ^ (bits - 1)) then Some v else None.

(** [strconv.Atoi], for 64-bit integers. *)
Definition Atoi (s : string) : option Z := ParseInt 64 s.

(** [strings.ReplaceAll] of the one-byte string [a] by the one-byte string [b]. *)
Fixpoint ReplaceByte (s : string) (a b : ascii) : string :=
  match s with
  | EmptyString => EmptyString
  | String c s' => String (if bool_decide (c = a) then b else c) (ReplaceByte s' a b)
  end.

(** The string without its trailing slashes. *)
Fixpoint trim_slashes (s : string) : string :=
  match s with
  | EmptyString => EmptyString
  | String c s' =>
      match trim_slashes s' with
      | EmptyString => if bool_decide (c = PathMatch.slash) then EmptyString else String c EmptyString
      | t => String c t
      end
  end.

(** What follows the last slash. *)
Fixpoint after_slash (s : string) : string :=
  match s with
  | EmptyString => EmptyString
  | String c s' => if ContainsByte s PathMatch.slash then after_slash s' else s
  end.

(** [filepath.Base]. *)
Definition Base (path : string) : string :=
  if bool_decide (path = EmptyString) then "."
  else let p := after_slash (trim_slashes path) in
       if bool_decide (p = EmptyString) then "/" else p.

(** ** Lemmas *)

Lemma ReplaceByte_empty (s : string) (a b : ascii) : ReplaceByte s a b = EmptyString <-> s = EmptyString.
Proof. destruct s; simpl; split; congruence. Qed.

Example parse_1_5 : ParseFloat "1.5" = Some (float_lit 3 2).
Proof. vm_compute. reflexivity. Qed.
Example parse_0_9 : ParseFloat "0.9" = Some (float_lit 9 10).
Proof. vm_compute. reflexivity. Qed.
Example parse_3 : ParseFloat "3" = Some (float_of_int 3).
Proof. vm_compute. reflexivity. Qed.
Example parse_exp : ParseFloat "-25e-1" = Some (float_lit (-5) 2).
Proof. vm_compute. reflexivity. Qed.
Example parse_range : ParseFloat "1e309" = None.
Proof. vm_compute. reflexivity. Qed.
Example base_file : Base "/models/qwen3.gguf//" = "qwen3.gguf".
Proof. vm_compute. reflexivity. Qed.
