(* ===== verification/GoHttp.v ===== *)
(** * HTTP headers as Go represents them

    [http.Header] is a map from canonical field names to their values;
    [Get], [Set] and [Add] canonicalize the name they are given with
    [textproto.CanonicalMIMEHeaderKey]. *)

From Stdlib Require Import ZArith Lia Bool Ascii.
From stdpp Require Import base gmap strings list.
From S2P Require Import Prelude GoStrings.

Abbreviation Header := (gmap string (list string)).

(** [validHeaderFieldByte]: the bytes of an RFC 7230 token. *)
Definition token_byte (c : ascii) : bool :=
  let n := N_of_ascii c in
  (((48 <=? n) && (n <=? 57)) || ((65 <=? n) && (n <=? 90)) || ((97 <=? n) && (n <=? 122)))%N ||
  existsb (Ascii.eqb c) ["!"; "#"; "$"; "%"; "&"; "'"; "*"; "+"; "-"; "."; "^"; "_"; "`"; "|"; "~"]%char.

Fixpoint all_token_bytes (s : string) : bool :=
  match s with
  | EmptyString => true
  | String c s' => token_byte c && all_token_bytes s'
  end.

(** Upper case for the first letter and for each one after a hyphen. *)
Fixpoint canonical_bytes (upper : bool) (s : string) : string :=
  match s with
  | EmptyString => EmptyString
  | String c s' => String (if upper then upper_byte c else lower_byte c) (canonical_bytes (Ascii.eqb c "-") s')
  end.

(** A name with an invalid byte is returned unchanged. *)
Definition CanonicalHeaderKey (s : string) : string :=
  if all_token_bytes s then canonical_bytes true s else s.

Definition header_values (h : Header) (k : string) : list string := default [] (h !! CanonicalHeaderKey k).
Definition header_get (h : Header) (k : string) : string := default EmptyString (head (header_values h k)).
Definition header_set (h : Header) (k v : string) : Header := <[CanonicalHeaderKey k := [v]]> h.
Definition header_add (h : Header) (k v : string) : Header := <[CanonicalHeaderKey k := header_values h k ++ [v]]> h.

(** ** Lemmas *)

Lemma lower_upper_byte (c : ascii) : lower_byte (upper_byte c) = lower_byte c.
Proof. destruct c as [[] [] [] [] [] [] [] []]; reflexivity. Qed.

Lemma lower_lower_byte (c : ascii) : lower_byte (lower_byte c) = lower_byte c.
Proof. destruct c as [[] [] [] [] [] [] [] []]; reflexivity. Qed.

Lemma ToLower_canonical_bytes (u : bool) (s : string) : ToLower (canonical_bytes u s) = ToLower s.
Proof.
  revert u; induction s as [|c s IH]; intros u; simpl; [done|]. rewrite IH.
  destruct u; [by rewrite lower_upper_byte|by rewrite lower_lower_byte].
Qed.

(** Canonicalization changes letter case only. *)
Lemma ToLower_CanonicalHeaderKey (s : string) : ToLower (CanonicalHeaderKey s) = ToLower s.
Proof. unfold CanonicalHeaderKey. case_if; [apply ToLower_canonical_bytes|done]. Qed.

Lemma header_add_lookup_ne (h : Header) (k v k' : string) :
  CanonicalHeaderKey k ≠ k' -> header_add h k v !! k' = h !! k'.
Proof. intros. unfold header_add. by rewrite lookup_insert_ne. Qed.

Example canonical_accept_encoding : CanonicalHeaderKey "accept-ENCODING" = "Accept-Encoding".
Proof. reflexivity. Qed.
