(* ===== verification/GoJson.v ===== *)
(** * Go's [encoding/json], as the router uses it

    A JSON text is parsed to a tree that keeps each string and number literal as
    it is written, so that a [json.RawMessage] is a tree and [json.Marshal]'s
    compaction of it is printing.  Objects keep the order and the duplicates of
    their members.  The parser accepts what the package's scanner accepts,
    including the nesting limit; strings are unquoted and quoted as the package
    does, invalid UTF-8 and HTML characters included.  Decoding into a struct
    matches field names the way the package does, without regard to case, and
    fails when a value has the wrong type; [null] leaves a field as it is and
    sets a pointer to nil. *)

From stdpp Require Import base gmap strings list sorting.
From Stdlib Require Import ZArith Lia Bool Ascii.
From S2P Require Import Prelude GoStrings.

(** ** Values *)

Inductive json :=
| JNull
| JBool (b : bool)
| JNum (lit : string)
| JStr (lit : string)
| JArr (l : list json)
| JObj (l : list (string * json)).

(** ** Scanning *)

Definition dquote : ascii := "034"%char.
Definition backslash : ascii := "\"%char.

Definition is_ws (c : ascii) : bool :=
  let b := byte_of c in (b =? 32) || (b =? 9) || (b =? 10) || (b =? 13).

Fixpoint skip_ws (s : string) : string :=
  match s with
  | EmptyString => EmptyString
  | String c s' => if is_ws c then skip_ws s' else s
  end.

Definition is_digit (c : ascii) : bool := in_range 48 57 c.

Definition hex_val (c : ascii) : option Z :=
  let b := byte_of c in
  if (48 <=? b) && (b <=? 57) then Some (b - 48)
  else if (97 <=? b) && (b <=? 102) then Some (b - 87)
  else if (65 <=? b) && (b <=? 70) then Some (b - 55)
  else None.

Definition is_hex (c : ascii) : bool := match hex_val c with Some _ => true | None => false end.

(** What may follow a backslash, other than [u]: the quote, the backslash, the slash
    and the letters b, f, n, r and t. *)
Definition simple_escape (c : ascii) : option ascii :=
  if Ascii.eqb c dquote then Some dquote
  else if Ascii.eqb c backslash then Some backslash
  else if Ascii.eqb c "/"%char then Some "/"%char
  else if Ascii.eqb c "b"%char then Some "008"%char
  else if Ascii.eqb c "f"%char then Some "012"%char
  else if Ascii.eqb c "n"%char then Some "010"%char
  else if Ascii.eqb c "r"%char then Some "013"%char
  else if Ascii.eqb c "t"%char then Some "009"%char
  else None.

Definition prepend (p : string) (r : option (string * string)) : option (string * string) :=
  match r with Some (lit, rest) => Some (p +:+ lit, rest) | None => None end.

Definition one (c : ascii) : string := String c EmptyString.

(** A string literal after its opening quote: its text up to the closing quote,
    and the rest. *)
Fixpoint lex_string (s : string) : option (string * string) :=
  match s with
  | EmptyString => None
  | String c s1 =>
      if Ascii.eqb c dquote then Some (EmptyString, s1)
      else if Ascii.eqb c backslash then
        match s1 with
        | EmptyString => None
        | String e s2 =>
            match simple_escape e with
            | Some _ => prepend (String c (one e)) (lex_string s2)
            | None =>
                if Ascii.eqb e "u"%char then
                  match s2 with
                  | String h1 (String h2 (String h3 (String h4 s6))) =>
                      if is_hex h1 && is_hex h2 && is_hex h3 && is_hex h4
                      then prepend (String c (String e (String h1 (String h2 (String h3 (one h4)))))) (lex_string s6)
                      else None
                  | _ => None
                  end
                else None
            end
        end
      else if byte_of c <? 32 then None
      else prepend (one c) (lex_string s1)
  end.

Fixpoint lex_digits (s : string) : string * string :=
  match s with
  | String c s' => if is_digit c then let '(ds, r) := lex_digits s' in (String c ds, r) else (EmptyString, s)
  | EmptyString => (EmptyString, EmptyString)
  end.

Definition is_empty_str (s : string) : bool := match s with EmptyString => true | _ => false end.

(** At least one digit. *)
Definition lex_digits1 (s : string) : option (string * string) :=
  let '(ds, r) := lex_digits s in if is_empty_str ds then None else Some (ds, r).

Definition lex_int (s : string) : option (string * string) :=
  match s with
  | String c s' => if Ascii.eqb c "0"%char then Some (one c, s') else lex_digits1 s
  | EmptyString => None
  end.

Definition lex_frac (s : string) : option (string * string) :=
  match s with
  | String c s' => if Ascii.eqb c "."%char then prepend (one c) (lex_digits1 s') else Some (EmptyString, s)
  | EmptyString => Some (EmptyString, s)
  end.

Definition is_exp (c : ascii) : bool := Ascii.eqb c "e"%char || Ascii.eqb c "E"%char.
Definition is_sign (c : ascii) : bool := Ascii.eqb c "+"%char || Ascii.eqb c "-"%char.

Definition lex_exp (s : string) : option (string * string) :=
  match s with
  | String c s' =>
      if is_exp c then
        match s' with
        | String g s'' => if is_sign g then prepend (String c (one g)) (lex_digits1 s'') else prepend (one c) (lex_digits1 s')
        | EmptyString => None
        end
      else Some (EmptyString, s)
  | EmptyString => Some (EmptyString, s)
  end.

(** One lexer after another. *)
Definition then_lex (f g : string -> option (string * string)) (s : string) : option (string * string) :=
  match f s with Some (a, r) => prepend a (g r) | None => None end.

Definition lex_minus (s : string) : option (string * string) :=
  match s with
  | String c s' => if Ascii.eqb c "-"%char then Some (one c, s') else Some (EmptyString, s)
  | EmptyString => Some (EmptyString, s)
  end.

Definition lex_number : string -> option (string * string) :=
  then_lex lex_minus (then_lex lex_int (then_lex lex_frac lex_exp)).

(** ** Parsing *)

(** The scanner's limit on nested arrays and objects. *)
Definition maxNestingDepth : Z := 10000.

Definition scalar (s : string) : option (json * string) :=
  match CutPrefix s "null" with
  | Some r => Some (JNull, r)
  | None =>
  match CutPrefix s "true" with
  | Some r => Some (JBool true, r)
  | None =>
  match CutPrefix s "false" with
  | Some r => Some (JBool false, r)
  | None => match lex_number s with Some (n, r) => Some (JNum n, r) | None => None end
  end end end.

(** The rest after white space and the byte [c], if that is what comes first. *)
Definition eat (c : ascii) (s : string) : option string :=
  match skip_ws s with
  | String x r => if Ascii.eqb x c then Some r else None
  | EmptyString => None
  end.

(** A member's name and its colon. *)
Definition key (s : string) : option (string * string) :=
  match eat dquote s with
  | None => None
  | Some r =>
      match lex_string r with
      | None => None
      | Some (k, r1) => match eat ":" r1 with Some r2 => Some (k, r2) | None => None end
      end
  end.

(** [value], [elements] (an array after its opening bracket, not empty) and
    [members] (an object after its opening brace, not empty), with fuel. *)
Fixpoint value (fuel : nat) (depth : Z) (s : string) : option (json * string) :=
  match fuel with
  | O => None
  | S fuel =>
      match eat "{" s with
      | Some r =>
          if maxNestingDepth <=? depth then None
          else match eat "}" r with
               | Some r' => Some (JObj [], r')
               | None => match members fuel (depth + 1) r with Some (ms, r') => Some (JObj ms, r') | None => None end
               end
      | None =>
      match eat "[" s with
      | Some r =>
          if maxNestingDepth <=? depth then None
          else match eat "]" r with
               | Some r' => Some (JArr [], r')
               | None => match elements fuel (depth + 1) r with Some (vs, r') => Some (JArr vs, r') | None => None end
               end
      | None =>
      match eat dquote s with
      | Some r => match lex_string r with Some (l, r') => Some (JStr l, r') | None => None end
      | None => scalar (skip_ws s)
      end end end
  end
with elements (fuel : nat) (depth : Z) (s : string) : option (list json * string) :=
  match fuel with
  | O => None
  | S fuel =>
      match value fuel depth s with
      | None => None
      | Some (v, r) =>
          match eat "]" r with
          | Some r' => Some ([v], r')
          | None =>
          match eat "," r with
          | Some r' => match elements fuel depth r' with Some (vs, r'') => Some (v :: vs, r'') | None => None end
          | None => None
          end end
      end
  end
with members (fuel : nat) (depth : Z) (s : string) : option (list (string * json) * string) :=
  match fuel with
  | O => None
  | S fuel =>
      match key s with
      | None => None
      | Some (k, r) =>
          match value fuel depth r with
          | None => None
          | Some (v, r') =>
              match eat "}" r' with
              | Some r'' => Some ([(k, v)], r'')
              | None =>
              match eat "," r' with
              | Some r'' => match members fuel depth r'' with Some (ms, r3) => Some ((k, v) :: ms, r3) | None => None end
              | None => None
              end end
          end
      end
  end.

(** Two steps of fuel per byte are enough. *)
Definition parse_fuel (s : string) : nat := 2 * String.length s + 2.

Definition parse (s : string) : option json :=
  match value (parse_fuel s) 0 s with
  | Some (v, r) => if is_empty_str (skip_ws r) then Some v else None
  | None => None
  end.

(** ** Printing *)

Definition quoted (lit : string) : string := String dquote (lit +:+ one dquote).

Fixpoint print (v : json) : string :=
  match v with
  | JNull => "null"
  | JBool true => "true"
  | JBool false => "false"
  | JNum n => n
  | JStr l => quoted l
  | JArr l => "[" +:+ Join (map print l) "," +:+ "]"
  | JObj l => "{" +:+ Join (map (fun kv => quoted kv.1 +:+ ":" +:+ print kv.2) l) "," +:+ "}"
  end.

(** ** Quoting *)

Definition ascii_of_Z (z : Z) : ascii := ascii_of_N (Z.to_N z).

(** [utf8.AppendRune]: the encoding of a rune; surrogates and values out of range
    encode as [RuneError]. *)
Definition EncodeRune (r : Z) : string :=
  let cont n := ascii_of_Z (128 + n mod 64) in
  let three r := String (ascii_of_Z (224 + r / 4096)) (String (cont (r / 64)) (one (cont r))) in
  if (r <? 0) || (1114111 <? r) || ((55296 <=? r) && (r <=? 57343)) then three RuneError
  else if r <? 128 then one (ascii_of_Z r)
  else if r <? 2048 then String (ascii_of_Z (192 + r / 64)) (one (cont r))
  else if r <? 65536 then three r
  else String (ascii_of_Z (240 + r / 262144)) (String (cont (r / 4096)) (String (cont (r / 64)) (one (cont r)))).

(** [getu4]: the code of an escape [\uXXXX] at the head of [s]. *)
Definition getu4 (s : string) : option Z :=
  match s with
  | String b (String u r) =>
      if Ascii.eqb b backslash && Ascii.eqb u "u"%char then
        match r with
        | String h1 (String h2 (String h3 (String h4 _))) =>
            match hex_val h1, hex_val h2, hex_val h3, hex_val h4 with
            | Some a, Some b, Some c, Some d => Some (a * 4096 + b * 256 + c * 16 + d)
            | _, _, _, _ => None
            end
        | _ => None
        end
      else None
  | _ => None
  end.

Definition high_surrogate (r : Z) : bool := (55296 <=? r) && (r <? 56320).
Definition low_surrogate (r : Z) : bool := (56320 <=? r) && (r <? 57344).

(** The rune of the escape at the head of [s], and the bytes it takes after the
    first: a surrogate pair is one rune, a lone surrogate is [RuneError]. *)
Definition unicode_escape (s : string) (r : Z) : Z * nat :=
  if high_surrogate r || low_surrogate r then
    match getu4 (drop_bytes 6 s) with
    | Some r2 => if high_surrogate r && low_surrogate r2
                 then ((r - 55296) * 1024 + (r2 - 56320) + 65536, 11%nat) else (RuneError, 5%nat)
    | None => (RuneError, 5%nat)
    end
  else (r, 5%nat).

(** The rune at the head of [s], if it is validly encoded, and its length. *)
Definition rune_at (s : string) : option (Z * nat) :=
  let '(r, n) := DecodeRuneInString s in
  if (r =? RuneError) && Nat.leb n 1 then None else Some (r, n).

(** [unquote] on a literal's text; [copy] bytes are copied and [skip] bytes
    dropped first. *)
Fixpoint unquote_from (copy skip : nat) (s : string) : string :=
  match s with
  | EmptyString => EmptyString
  | String c s' =>
      match copy, skip with
      | S copy, _ => String c (unquote_from copy skip s')
      | O, S skip => unquote_from 0 skip s'
      | O, O =>
          if Ascii.eqb c backslash then
            match getu4 s with
            | Some r => let '(r, n) := unicode_escape s r in EncodeRune r +:+ unquote_from 0 n s'
            | None =>
                match s' with
                | String e _ => default EmptyString (one <$> simple_escape e) +:+ unquote_from 0 1 s'
                | EmptyString => EmptyString
                end
            end
          else match rune_at s with
               | Some (_, n) => String c (unquote_from (pred n) 0 s')
               | None => EncodeRune RuneError +:+ unquote_from 0 0 s'
               end
      end
  end.

Definition unquote (lit : string) : string := unquote_from 0 0 lit.

Definition hex_digit (z : Z) : ascii := ascii_of_Z (if z <? 10 then 48 + z else 87 + z).

(** The escape [\uXXXX] of a rune below 65536. *)
Definition u_escape (r : Z) : string :=
  "\u" +:+ String (hex_digit (r / 4096 mod 16)) (String (hex_digit (r / 256 mod 16))
             (String (hex_digit (r / 16 mod 16)) (one (hex_digit (r mod 16))))).

Definition is_html (c : ascii) : bool := Ascii.eqb c "<"%char || Ascii.eqb c ">"%char || Ascii.eqb c "&"%char.

(** How [appendString] writes an ASCII byte. *)
Definition quote_byte (c : ascii) : string :=
  if Ascii.eqb c dquote || Ascii.eqb c backslash then String backslash (one c)
  else if Ascii.eqb c "008"%char then "\b"
  else if Ascii.eqb c "012"%char then "\f"
  else if Ascii.eqb c "010"%char then "\n"
  else if Ascii.eqb c "013"%char then "\r"
  else if Ascii.eqb c "009"%char then "\t"
  else if (byte_of c <? 32) || is_html c then u_escape (byte_of c)
  else one c.

Definition is_line_separator (r : Z) : bool := (r =? 8232) || (r =? 8233).

(** [appendString] with HTML escaping: the text between the quotes. *)
Fixpoint quote_from (copy skip : nat) (s : string) : string :=
  match s with
  | EmptyString => EmptyString
  | String c s' =>
      match copy, skip with
      | S copy, _ => String c (quote_from copy skip s')
      | O, S skip => quote_from 0 skip s'
      | O, O =>
          if byte_of c <? 128 then quote_byte c +:+ quote_from 0 0 s'
          else match rune_at s with
               | None => u_escape RuneError +:+ quote_from 0 0 s'
               | Some (r, n) =>
                   if is_line_separator r then u_escape r +:+ quote_from 0 (pred n) s'
                   else String c (quote_from (pred n) 0 s')
               end
      end
  end.

Definition quote (s : string) : string := quote_from 0 0 s.

(** ** Compaction *)

(** The HTML escaping of a literal's text: the bytes of the characters less-than,
    greater-than and ampersand, and of U+2028 and U+2029. *)
Fixpoint escape_lit (s : string) : string :=
  match s with
  | EmptyString => EmptyString
  | String c s1 =>
      if is_html c then u_escape (byte_of c) +:+ escape_lit s1
      else match s1 with
           | String c1 (String c2 s3) =>
               if (byte_of c =? 226) && (byte_of c1 =? 128) && ((byte_of c2 =? 168) || (byte_of c2 =? 169))
               then u_escape (8232 + (byte_of c2 - 168)) +:+ escape_lit s3
               else String c (escape_lit s1)
           | _ => String c (escape_lit s1)
           end
  end.

Fixpoint compact (v : json) : json :=
  match v with
  | JNull => JNull
  | JBool b => JBool b
  | JNum n => JNum n
  | JStr l => JStr (escape_lit l)
  | JArr l => JArr (map compact l)
  | JObj l => JObj (map (fun kv => (escape_lit kv.1, compact kv.2)) l)
  end.

(** ** Maps of raw messages *)

(** [json.Unmarshal] of an object into a [map[string]json.RawMessage]: the last
    member of a name wins. *)
Definition members_map (l : list (string * json)) : gmap string json :=
  foldl (fun m kv => <[unquote kv.1 := kv.2]> m) ∅ l.

(** The result of the call: an error, the nil map of [null], or a map. *)
Inductive unmarshalled_map :=
| MapErr
| MapNil
| MapOf (m : gmap string json).

Definition unmarshal_map (v : option json) : unmarshalled_map :=
  match v with
  | Some JNull => MapNil
  | Some (JObj l) => MapOf (members_map l)
  | _ => MapErr
  end.

(** [json.Marshal] of a map: the names in ascending order, the messages compacted. *)
Definition marshal_map (m : gmap string json) : json :=
  JObj (omap (fun k => (fun v => (quote k, compact v)) <$> m !! k) (SortStrings (map fst (map_to_list m)))).

(** ** Structs *)

(** The name matching of struct fields: letters fold to upper case, as do the long
    s (U+017F) and the Kelvin sign (U+212A). *)
Definition upper_byte (c : ascii) : ascii :=
  if in_range 97 122 c then ascii_of_Z (byte_of c - 32) else c.

Fixpoint fold_name (s : string) : string :=
  match s with
  | EmptyString => EmptyString
  | String c s1 =>
      match s1 with
      | String c1 s2 =>
          if (byte_of c =? 197) && (byte_of c1 =? 191) then String "S"%char (fold_name s2)
          else match s2 with
               | String c2 s3 =>
                   if (byte_of c =? 226) && (byte_of c1 =? 132) && (byte_of c2 =? 170) then String "K"%char (fold_name s3)
                   else String (upper_byte c) (fold_name s1)
               | EmptyString => String (upper_byte c) (fold_name s1)
               end
      | EmptyString => one (upper_byte c)
      end
  end.

(** A decoder stores a value into a variable, or fails. *)
Definition decoder (A : Type) : Type := json -> A -> option A.

Definition dec_string : decoder string := fun v old =>
  match v with JStr l => Some (unquote l) | JNull => Some old | _ => None end.

Definition dec_bool : decoder bool := fun v old =>
  match v with JBool b => Some b | JNull => Some old | _ => None end.

Fixpoint digits_val (acc : Z) (s : string) : option Z :=
  match s with
  | EmptyString => Some acc
  | String c s' => if is_digit c then digits_val (acc * 10 + (byte_of c - 48)) s' else None
  end.

(** [strconv.ParseInt(s, 10, 64)] on a number literal. *)
Definition ParseInt (s : string) : option Z :=
  let checked z := if (min_int64 <=? z) && (z <=? max_int64) then Some z else None in
  match CutPrefix s "-" with
  | Some r => match digits_val 0 r with Some z => checked (- z) | None => None end
  | None => match digits_val 0 s with Some z => checked z | None => None end
  end.

Definition dec_int64 : decoder Z := fun v old =>
  match v with JNum n => ParseInt n | JNull => Some old | _ => None end.

(** A pointer: [null] makes it nil, anything else is decoded into the value it
    points to, a new zero value when it was nil. *)
Definition dec_ptr {A} (zero : A) (d : decoder A) : decoder (option A) := fun v old =>
  match v with
  | JNull => Some None
  | _ => Some <$> d v (default zero old)
  end.

(** A struct, by its fields' names and decoders. *)
Definition dec_struct {A} (fields : list (string * decoder A)) : decoder A := fun v old =>
  match v with
  | JNull => Some old
  | JObj l =>
      foldl (fun acc kv =>
        a ← acc;
        match List.find (fun f => bool_decide (fold_name f.1 = fold_name (unquote kv.1))) fields with
        | Some f => f.2 kv.2 a
        | None => Some a
        end) (Some old) l
  | _ => None
  end.

(** A slice: [null] makes it nil, an array is decoded element by element. *)
Definition dec_slice {A} (zero : A) (d : decoder A) : decoder (list A) := fun v _ =>
  match v with
  | JNull => Some []
  | JArr l => mapM (fun x => d x zero) l
  | _ => None
  end.

(** [json.Unmarshal] of a text into a variable. *)
Definition unmarshal {A} (d : decoder A) (zero : A) (s : string) : option A :=
  v ← parse s; d v zero.
