(* ===== verification/GoJsonFacts.v ===== *)
(** * Facts about the JSON model

    The parser returns well-formed trees, printing a well-formed tree and parsing
    it back is the identity, the fuel of the parser is enough on every text,
    quoting and unquoting a valid string is the identity, and marshalling a map
    and unmarshalling it gives the map back. *)

From stdpp Require Import base gmap strings list sorting.
From Stdlib Require Import ZArith Lia Bool Ascii.
From S2P Require Import Prelude GoStrings GoJson.

(** ** Induction *)

Section JsonInd.
Context (P : json -> Prop).
Hypothesis HNull : P JNull.
Hypothesis HBool : forall b, P (JBool b).
Hypothesis HNum : forall n, P (JNum n).
Hypothesis HStr : forall l, P (JStr l).
Hypothesis HArr : forall l, Forall P l -> P (JArr l).
Hypothesis HObj : forall l, Forall (fun kv => P kv.2) l -> P (JObj l).

Fixpoint json_nested_ind (v : json) : P v :=
  match v with
  | JNull => HNull
  | JBool b => HBool b
  | JNum n => HNum n
  | JStr l => HStr l
  | JArr l => HArr l ((fix go l : Forall P l :=
      match l with [] => Forall_nil_2 P | v :: l => Forall_cons_2 P v l (json_nested_ind v) (go l) end) l)
  | JObj l => HObj l ((fix go l : Forall (fun kv => P kv.2) l :=
      match l with
      | [] => Forall_nil_2 _
      | kv :: l => Forall_cons_2 (fun kv => P kv.2) kv l (json_nested_ind kv.2) (go l)
      end) l)
  end.
End JsonInd.

(** Reassociate appends and expose their first bytes. *)
Ltac app_norm := unfold one; rewrite ?app_assoc_str, ?app_cons, ?app_nil.

(** ** Literals *)

(** A string literal's text, and a number literal: scanned back from any text
    they are followed by. *)
Definition str_lit (l : string) : Prop := forall t, lex_string (l +:+ String dquote t) = Some (l, t).

(** A text that cannot continue a number. *)
Definition num_end (t : string) : Prop :=
  match t with
  | EmptyString => True
  | String c _ => is_digit c = false /\ is_exp c = false /\ Ascii.eqb c "."%char = false
  end.

Definition num_lit (n : string) : Prop :=
  (exists c r, n = String c r /\ (is_digit c = true \/ c = "-"%char)) /\
  forall t, num_end t -> lex_number (n +:+ t) = Some (n, t).

Lemma prepend_Some (p : string) (x : option (string * string)) (l r : string) :
  prepend p x = Some (l, r) <-> exists l', x = Some (l', r) /\ l = p +:+ l'.
Proof.
  destruct x as [[a b]|]; simpl; [|by split; [|intros (?&?&?)]].
  split; [intros [= <- <-]; eauto|by intros (l' & [= -> ->] & ->)].
Qed.

(** What a scanner returns is a prefix of its text. *)
Definition splits (f : string -> option (string * string)) : Prop :=
  forall s l r, f s = Some (l, r) -> s = l +:+ r.

Lemma lex_string_text (s l r : string) : lex_string s = Some (l, r) -> s = l +:+ String dquote r /\ str_lit l.
Proof.
  enough (forall n s, (String.length s < n)%nat -> forall l r, lex_string s = Some (l, r) -> s = l +:+ String dquote r /\ str_lit l)
    as H by (apply (H (S (String.length s))); lia). clear s l r.
  assert (forall c l, Ascii.eqb c dquote = false -> Ascii.eqb c backslash = false -> (byte_of c <? 32) = false ->
    str_lit l -> str_lit (one c +:+ l)) as Hplain.
  { intros c l E1 E2 E3 Hl t. app_norm. simpl. rewrite E1, E2, E3, Hl. done. }
  induction n as [|n IH]; intros s Hn l r H; [lia|]. destruct s as [|c s1]; simpl in H; [done|].
  destruct (Ascii.eqb c dquote) eqn:Eq.
  { injection H as <- <-. apply Ascii.eqb_eq in Eq as ->. split; [done|]. intros t. done. }
  destruct (Ascii.eqb c backslash) eqn:Eb; simpl in Hn.
  - destruct s1 as [|e s2]; [done|]. simpl in Hn. destruct (simple_escape e) eqn:Ee.
    + apply prepend_Some in H as (l' & H & ->). apply IH in H as [-> Hl]; [|lia].
      split; [by app_norm|]. intros t. app_norm. simpl. rewrite Eq, Eb, Ee, Hl. done.
    + destruct (Ascii.eqb e "u") eqn:Eu; [|done]. destruct s2 as [|h1 [|h2 [|h3 [|h4 s6]]]]; try done. simpl in Hn.
      destruct (is_hex h1 && is_hex h2 && is_hex h3 && is_hex h4) eqn:Eh; [|done].
      apply prepend_Some in H as (l' & H & ->). apply IH in H as [-> Hl]; [|lia].
      split; [by app_norm|]. intros t. app_norm. simpl. rewrite Eq, Eb, Ee, Eu, Eh, Hl. done.
  - destruct (byte_of c <? 32) eqn:E3; [done|]. apply prepend_Some in H as (l' & H & ->). apply IH in H as [-> Hl]; [|lia].
    split; [by app_norm|]. by apply Hplain.
Qed.

(** A scanner that finds the same literal again before any text in [F]. *)
Definition rescans (f : string -> option (string * string)) (F : string -> Prop) : Prop :=
  forall s l r, f s = Some (l, r) -> s = l +:+ r /\ forall u, F u -> f (l +:+ u) = Some (l, u).

(** The first byte of a text, if any, fails the test [p]. *)
Definition first_not (p : ascii -> bool) (t : string) : Prop :=
  match t with EmptyString => True | String c _ => p c = false end.

Lemma then_rescans (f g : string -> option (string * string)) (F G : string -> Prop) :
  rescans f F -> rescans g G -> (forall s l r u, g s = Some (l, r) -> G u -> F (l +:+ u)) ->
  rescans (then_lex f g) G.
Proof.
  intros Hf Hg HF s l r H. unfold then_lex in *. destruct (f s) as [[a r1]|] eqn:E1; [|done].
  apply prepend_Some in H as (b & E2 & ->). destruct (Hf _ _ _ E1) as [-> Hf']. destruct (Hg _ _ _ E2) as [-> Hg'].
  split; [by rewrite app_assoc_str|]. intros u Hu. rewrite app_assoc_str, Hf' by eauto. by rewrite Hg'.
Qed.

Lemma lex_digits_rescan (s ds r : string) : lex_digits s = (ds, r) ->
  s = ds +:+ r /\ forall u, first_not is_digit u -> lex_digits (ds +:+ u) = (ds, u).
Proof.
  revert ds r; induction s as [|c s IH]; intros ds r H; simpl in H.
  - injection H as <- <-. split; [done|]. intros [|c u] Hu; [done|]. rewrite app_nil. simpl in *. by rewrite Hu.
  - destruct (is_digit c) eqn:Ec.
    + destruct (lex_digits s) as [ds' r'] eqn:E. injection H as <- <-. destruct (IH _ _ eq_refl) as [-> IH'].
      app_norm. split; [done|]. intros u Hu. rewrite app_cons. simpl. by rewrite Ec, IH'.
    + injection H as <- <-. split; [done|]. intros [|x u] Hu; [done|]. rewrite app_nil. simpl in *. by rewrite Hu.
Qed.

Lemma lex_digits1_rescans : rescans lex_digits1 (first_not is_digit).
Proof.
  intros s l r H. unfold lex_digits1 in *. destruct (lex_digits s) as [ds r'] eqn:E. destruct (is_empty_str ds) eqn:En; [done|].
  injection H as <- <-. destruct (lex_digits_rescan _ _ _ E) as [-> Hr]. split; [done|]. intros u Hu. by rewrite Hr, En.
Qed.

Lemma lex_digits1_first (s l r : string) : lex_digits1 s = Some (l, r) -> exists c l', l = String c l' /\ is_digit c = true.
Proof.
  unfold lex_digits1. destruct s as [|c s]; simpl; [done|]. destruct (is_digit c) eqn:Ec; [|done].
  destruct (lex_digits s) as [ds r']. simpl. intros [= <- <-]. eauto.
Qed.

Lemma lex_int_rescans : rescans lex_int (first_not is_digit).
Proof.
  intros [|c s] l r H; simpl in H; [done|]. destruct (Ascii.eqb c "0") eqn:E0.
  - injection H as <- <-. split; [done|]. intros u _. app_norm. simpl. by rewrite E0.
  - destruct (lex_digits1_rescans _ _ _ H) as [Hs Hr]. split; [done|]. intros u Hu.
    destruct (lex_digits1_first _ _ _ H) as (c' & l' & -> & _). rewrite app_cons in *. injection Hs as -> Hs.
    simpl. rewrite E0, <- app_cons. by apply Hr.
Qed.

Lemma lex_int_first (s l r : string) : lex_int s = Some (l, r) -> exists c l', l = String c l' /\ is_digit c = true.
Proof.
  destruct s as [|c s]; simpl; [done|]. destruct (Ascii.eqb c "0") eqn:E0; [|apply lex_digits1_first].
  apply Ascii.eqb_eq in E0 as ->. intros [= <- <-]. by eexists _, _.
Qed.

Definition is_dot (c : ascii) : bool := Ascii.eqb c "."%char.

Lemma lex_frac_rescans : rescans lex_frac (first_not (fun c => is_digit c || is_dot c)).
Proof.
  assert (forall u, first_not (fun c => is_digit c || is_dot c) u -> lex_frac (EmptyString +:+ u) = Some (EmptyString, u)) as Hnone.
  { intros [|c u] Hu; [done|]. rewrite app_nil. simpl in *. apply orb_false_iff in Hu as [_ Hu]. unfold is_dot in Hu. by rewrite Hu. }
  intros [|c s] l r H; simpl in H; [by injection H as <- <-; split; [|apply Hnone]|]. destruct (Ascii.eqb c ".") eqn:E0; [|by injection H as <- <-; split; [|apply Hnone]].
  apply prepend_Some in H as (l' & H & ->). destruct (lex_digits1_rescans _ _ _ H) as [-> Hr]. app_norm.
  split; [done|]. intros u Hu. app_norm. simpl. rewrite E0, Hr; [done|]. destruct u; [done|]. simpl in *. by apply orb_false_iff in Hu as [-> _].
Qed.

Lemma lex_frac_first (s l r : string) : lex_frac s = Some (l, r) -> l = EmptyString \/ exists c l', l = String c l' /\ is_dot c = true.
Proof.
  destruct s as [|c s]; simpl; [intros [= <- <-]; auto|]. destruct (Ascii.eqb c ".") eqn:E0; [|intros [= <- <-]; auto].
  intros (l' & _ & ->)%prepend_Some. right. app_norm. eauto.
Qed.

Lemma lex_exp_rescans : rescans lex_exp (first_not (fun c => is_digit c || is_exp c)).
Proof.
  assert (forall u, first_not (fun c => is_digit c || is_exp c) u -> lex_exp (EmptyString +:+ u) = Some (EmptyString, u)) as Hnone.
  { intros [|c u] Hu; [done|]. rewrite app_nil. simpl in *. apply orb_false_iff in Hu as [_ Hu]. by rewrite Hu. }
  assert (forall u, first_not (fun c => is_digit c || is_exp c) u -> first_not is_digit u) as Hdig.
  { intros [|c u] Hu; [done|]. simpl in *. by apply orb_false_iff in Hu as [-> _]. }
  intros [|c s] l r H; simpl in H; [by injection H as <- <-; split; [|apply Hnone]|]. destruct (is_exp c) eqn:E0; [|by injection H as <- <-; split; [|apply Hnone]].
  destruct s as [|g s]; [done|]. destruct (is_sign g) eqn:Eg; apply prepend_Some in H as (l' & H & ->).
  - destruct (lex_digits1_rescans _ _ _ H) as [-> Hr]. app_norm. split; [done|]. intros u Hu. app_norm. simpl.
    by rewrite E0, Eg, Hr by auto.
  - destruct (lex_digits1_first _ _ _ H) as (c' & l'' & -> & _). destruct (lex_digits1_rescans _ _ _ H) as [Hs Hr].
    rewrite Hs. app_norm. split; [done|]. intros u Hu. app_norm. simpl. rewrite app_cons in Hs. injection Hs as -> Hs.
    by rewrite E0, Eg, <- app_cons, Hr by auto.
Qed.

Lemma lex_exp_first (s l r : string) : lex_exp s = Some (l, r) -> l = EmptyString \/ exists c l', l = String c l' /\ is_exp c = true.
Proof.
  destruct s as [|c s]; simpl; [intros [= <- <-]; auto|]. destruct (is_exp c) eqn:E0; [|intros [= <- <-]; auto].
  destruct s as [|g s]; [done|]. destruct (is_sign g); intros (l' & _ & ->)%prepend_Some; right; app_norm; eauto.
Qed.

Lemma first_not_weaken (p q : ascii -> bool) (t : string) :
  (forall c, q c = true -> p c = true) -> first_not p t -> first_not q t.
Proof. intros H. destruct t as [|c t]; simpl; [done|]. specialize (H c). destruct (q c); [|done]. by rewrite H. Qed.

(** A byte that is a number's sign, point or exponent is no digit. *)
Lemma not_digit (c : ascii) : is_dot c = true \/ is_exp c = true -> is_digit c = false /\ (is_exp c = true -> is_dot c = false).
Proof. unfold is_dot, is_exp. rewrite orb_true_iff, !Ascii.eqb_eq. intros [->|[->| ->]]; (split; [done|]); [by intros [?|?]|done|done]. Qed.

Definition is_num_part (c : ascii) : bool := is_digit c || is_dot c || is_exp c.

Lemma lex_tail_rescans : rescans (then_lex lex_frac lex_exp) (first_not is_num_part).
Proof.
  apply (then_rescans _ _ _ _ lex_frac_rescans).
  - intros s l r H. destruct (lex_exp_rescans _ _ _ H) as [-> Hr]. split; [done|]. intros u Hu. apply Hr.
    revert Hu. apply first_not_weaken. intros c. unfold is_num_part. rewrite !orb_true_iff. tauto.
  - intros s l r u H Hu. destruct (lex_exp_first _ _ _ H) as [->|(c & l' & -> & Hc)].
    + rewrite app_nil. revert Hu. apply first_not_weaken. intros c. unfold is_num_part. rewrite !orb_true_iff. tauto.
    + rewrite app_cons. simpl. destruct (not_digit c ltac:(auto)) as [H1 H2]. by rewrite H1, H2.
Qed.

Lemma lex_number_rescans : rescans lex_number (first_not is_num_part).
Proof.
  apply (then_rescans _ _ (first_not (fun c => Ascii.eqb c "-"%char))).
  - intros s l r H. assert (l = EmptyString /\ s = r /\ first_not (fun c => Ascii.eqb c "-"%char) r \/ l = "-" /\ s = "-" +:+ r) as Hl.
    { destruct s as [|c s]; simpl in H; [injection H as <- <-; by left|].
      destruct (Ascii.eqb c "-") eqn:E; injection H as <- <-; [|by left]. apply Ascii.eqb_eq in E as ->. auto. }
    destruct Hl as [(-> & -> & _)|[-> ->]]; (split; [done|]); intros [|c u] Hu; rewrite ?app_nil; try done. simpl in *. by rewrite Hu.
  - apply (then_rescans _ _ _ _ lex_int_rescans lex_tail_rescans).
    intros s l r u H Hu. unfold then_lex in H. destruct (lex_frac s) as [[a r1]|] eqn:E1; [|done].
    apply prepend_Some in H as (b & E2 & ->). rewrite app_assoc_str.
    destruct (lex_frac_first _ _ _ E1) as [->|(c & l' & -> & Hc)];
      [rewrite app_nil; destruct (lex_exp_first _ _ _ E2) as [->|(c & l' & -> & Hc)]|].
    + rewrite app_nil. revert Hu. apply first_not_weaken. intros c. unfold is_num_part. rewrite !orb_true_iff. tauto.
    + rewrite app_cons. simpl. apply not_digit. auto.
    + rewrite app_cons. simpl. apply not_digit. auto.
  - intros s l r u H _. unfold then_lex at 1 in H. destruct (lex_int s) as [[a r1]|] eqn:E1; [|done].
    apply prepend_Some in H as (b & _ & ->). destruct (lex_int_first _ _ _ E1) as (c & l' & -> & Hc). rewrite !app_cons. simpl.
    destruct (Ascii.eqb c "-") eqn:E; [|done]. apply Ascii.eqb_eq in E as ->. done.
Qed.

Lemma lex_number_first (s l r : string) : lex_number s = Some (l, r) ->
  exists c l', l = String c l' /\ (is_digit c = true \/ c = "-"%char).
Proof.
  unfold lex_number, then_lex at 1. intros H. destruct (lex_minus s) as [[m r0]|] eqn:E0; [|done].
  apply prepend_Some in H as (n & H & ->). unfold then_lex at 1 in H.
  destruct (lex_int r0) as [[a r1]|] eqn:E1; [|done]. apply prepend_Some in H as (b & _ & ->).
  destruct (lex_int_first _ _ _ E1) as (c & l' & -> & Hc). destruct s as [|x s]; simpl in E0; [injection E0 as <- <-|].
  - rewrite app_nil, app_cons. eauto.
  - destruct (Ascii.eqb x "-") eqn:E; injection E0 as <- <-; app_norm; [|eauto]. apply Ascii.eqb_eq in E as ->. eauto.
Qed.

Lemma num_end_first (t : string) : num_end t -> first_not is_num_part t.
Proof. destruct t as [|c t]; simpl; [done|]. intros (H1 & H2 & H3). unfold is_num_part, is_dot. by rewrite H1, H2, H3. Qed.

Lemma lex_number_lit (s n r : string) : lex_number s = Some (n, r) -> num_lit n.
Proof.
  intros H. split; [by eapply lex_number_first|]. intros t Ht.
  destruct (lex_number_rescans _ _ _ H) as [_ Hr]. by apply Hr, num_end_first.
Qed.

(** ** Well-formed trees *)

Fixpoint wf_json (v : json) : Prop :=
  match v with
  | JNull | JBool _ => True
  | JNum n => num_lit n
  | JStr l => str_lit l
  | JArr l => (fix go l := match l with [] => True | v :: l => wf_json v /\ go l end) l
  | JObj l => (fix go l := match l with [] => True | kv :: l => str_lit kv.1 /\ wf_json kv.2 /\ go l end) l
  end.

Lemma wf_JArr (l : list json) : wf_json (JArr l) <-> Forall wf_json l.
Proof. simpl. induction l as [|v l IH]; [by rewrite Forall_nil|]. by rewrite Forall_cons, IH. Qed.

Lemma wf_JObj (l : list (string * json)) : wf_json (JObj l) <-> Forall (fun kv => str_lit kv.1 /\ wf_json kv.2) l.
Proof. simpl. induction l as [|v l IH]; [by rewrite Forall_nil|]. rewrite Forall_cons, IH. tauto. Qed.

(** The nesting of a tree. *)
Fixpoint nesting (v : json) : Z :=
  match v with
  | JArr l => 1 + foldr (fun v n => Z.max (nesting v) n) 0 l
  | JObj l => 1 + foldr (fun kv n => Z.max (nesting kv.2) n) 0 l
  | _ => 0
  end.

Lemma foldr_max_le {A} (f : A -> Z) (l : list A) (n : Z) :
  0 <= n -> (foldr (fun v m => Z.max (f v) m) 0 l <= n <-> Forall (fun v => f v <= n) l).
Proof.
  intros Hn. induction l as [|v l IH]; simpl; [by rewrite Forall_nil|]. rewrite Forall_cons, <- IH. lia.
Qed.

Lemma foldr_max_pos {A} (f : A -> Z) (l : list A) : 0 <= foldr (fun v m => Z.max (f v) m) 0 l.
Proof. induction l; simpl; lia. Qed.

Lemma nesting_pos (v : json) : 0 <= nesting v.
Proof. destruct v; simpl; try lia; [pose proof (foldr_max_pos nesting l)|pose proof (foldr_max_pos (fun kv => nesting kv.2) l)]; lia. Qed.

(** ** The parser *)

Lemma skip_ws_length (s : string) : (String.length (skip_ws s) <= String.length s)%nat.
Proof. induction s as [|c s IH]; simpl; [done|]. case_if; simpl; lia. Qed.

Lemma eat_length (c : ascii) (s r : string) : eat c s = Some r -> (String.length r < String.length s)%nat.
Proof.
  unfold eat. pose proof (skip_ws_length s). destruct (skip_ws s) as [|x t]; [done|]. case_if; [|done]. intros [= <-]. simpl in *. lia.
Qed.

Lemma lex_string_length (s l r : string) : lex_string s = Some (l, r) -> (String.length r < String.length s)%nat.
Proof. intros [-> _]%lex_string_text. rewrite length_app_str. simpl. lia. Qed.

Lemma key_spec (s k r : string) : key s = Some (k, r) -> str_lit k /\ (String.length r < String.length s)%nat.
Proof.
  unfold key. destruct (eat dquote s) as [r0|] eqn:E0; [|done]. destruct (lex_string r0) as [[k' r1]|] eqn:E1; [|done].
  destruct (eat ":" r1) as [r2|] eqn:E2; [|done]. intros [= <- <-].
  apply eat_length in E0, E2. pose proof (lex_string_length _ _ _ E1). apply lex_string_text in E1 as [_ H1]. split; [done|lia].
Qed.

Lemma CutPrefix_length (s p r : string) : CutPrefix s p = Some r -> (String.length s = String.length p + String.length r)%nat.
Proof. intros ->%CutPrefix_Some. apply length_app_str. Qed.

Lemma scalar_spec (s : string) (v : json) (r : string) :
  scalar s = Some (v, r) -> wf_json v /\ nesting v = 0 /\ (String.length r < String.length s)%nat.
Proof.
  unfold scalar.
  destruct (CutPrefix s "null") eqn:E1; [intros [= <- <-]; apply CutPrefix_length in E1; simpl in *; auto with lia|].
  destruct (CutPrefix s "true") eqn:E2; [intros [= <- <-]; apply CutPrefix_length in E2; simpl in *; auto with lia|].
  destruct (CutPrefix s "false") eqn:E3; [intros [= <- <-]; apply CutPrefix_length in E3; simpl in *; auto with lia|].
  destruct (lex_number s) as [[n r']|] eqn:E4; [|done]. intros [= <- <-]. split; [by eapply lex_number_lit|]. split; [done|].
  destruct (lex_number_first _ _ _ E4) as (c & n' & -> & _). destruct (lex_number_rescans _ _ _ E4) as [-> _].
  rewrite app_cons. simpl. rewrite length_app_str. lia.
Qed.

(** What the three parsers return, at depth [d]. *)
Definition good (d : Z) (v : json) : Prop := wf_json v /\ d + nesting v <= maxNestingDepth.

Lemma good_JArr (d : Z) (l : list json) : d < maxNestingDepth -> Forall (good (d + 1)) l -> good d (JArr l).
Proof.
  intros Hd Hl. split; [apply wf_JArr; eapply Forall_impl; [exact Hl|]; by intros v []|]. simpl.
  enough (foldr (fun v m => Z.max (nesting v) m) 0 l <= maxNestingDepth - d - 1) by lia.
  apply foldr_max_le; [lia|]. eapply Forall_impl; [exact Hl|]. intros v [_ H]. lia.
Qed.

Lemma good_JObj (d : Z) (l : list (string * json)) :
  d < maxNestingDepth -> Forall (fun kv => str_lit kv.1 /\ good (d + 1) kv.2) l -> good d (JObj l).
Proof.
  intros Hd Hl. split; [apply wf_JObj; eapply Forall_impl; [exact Hl|]; by intros v [? []]|]. simpl.
  enough (foldr (fun kv m => Z.max (nesting kv.2) m) 0 l <= maxNestingDepth - d - 1) by lia.
  apply (foldr_max_le (fun kv : string * json => nesting kv.2)); [lia|]. eapply Forall_impl; [exact Hl|]. intros v (_ & _ & H). lia.
Qed.

Lemma value_step_good (fuel : nat) :
  (forall d s vs r, d <= maxNestingDepth -> elements fuel d s = Some (vs, r) -> Forall (good d) vs /\ (String.length r < String.length s)%nat) ->
  (forall d s ms r, d <= maxNestingDepth -> members fuel d s = Some (ms, r) ->
     Forall (fun kv => str_lit kv.1 /\ good d kv.2) ms /\ (String.length r < String.length s)%nat) ->
  forall d s v r, d <= maxNestingDepth -> value (S fuel) d s = Some (v, r) -> good d v /\ (String.length r < String.length s)%nat.
Proof.
  intros HE HM d s v r Hd H. simpl in H.
  destruct (eat "{" s) as [r1|] eqn:E1; [|destruct (eat "[" s) as [r1|] eqn:E2; [|destruct (eat dquote s) as [r1|] eqn:E3]].
  - destruct (maxNestingDepth <=? d) eqn:Ed; [done|]. to_prop. apply eat_length in E1. destruct (eat "}" r1) as [r2|] eqn:E4.
    + injection H as <- <-. apply eat_length in E4. split; [by apply good_JObj|lia].
    + destruct (members fuel (d + 1) r1) as [[ms r2]|] eqn:E5; [|done]. injection H as <- <-.
      apply HM in E5 as [? ?]; [|lia]. split; [by apply good_JObj|lia].
  - destruct (maxNestingDepth <=? d) eqn:Ed; [done|]. to_prop. apply eat_length in E2. destruct (eat "]" r1) as [r2|] eqn:E4.
    + injection H as <- <-. apply eat_length in E4. split; [by apply good_JArr|lia].
    + destruct (elements fuel (d + 1) r1) as [[ms r2]|] eqn:E5; [|done]. injection H as <- <-.
      apply HE in E5 as [? ?]; [|lia]. split; [by apply good_JArr|lia].
  - destruct (lex_string r1) as [[l r2]|] eqn:E4; [|done]. injection H as <- <-. apply eat_length in E3.
    pose proof (lex_string_length _ _ _ E4). apply lex_string_text in E4 as [_ Hl]. split; [split; [done|simpl; lia]|lia].
  - apply scalar_spec in H as (Hw & Hn & Hl). pose proof (skip_ws_length s). split; [split; [done|lia]|lia].
Qed.

Lemma parsers_good (fuel : nat) :
  (forall d s v r, d <= maxNestingDepth -> value fuel d s = Some (v, r) -> good d v /\ (String.length r < String.length s)%nat) /\
  (forall d s vs r, d <= maxNestingDepth -> elements fuel d s = Some (vs, r) -> Forall (good d) vs /\ (String.length r < String.length s)%nat) /\
  (forall d s ms r, d <= maxNestingDepth -> members fuel d s = Some (ms, r) ->
     Forall (fun kv => str_lit kv.1 /\ good d kv.2) ms /\ (String.length r < String.length s)%nat).
Proof.
  induction fuel as [|fuel (IHv & IHe & IHm)]; [done|]. split; [by apply value_step_good|]. split.
  - intros d s vs r Hd H. simpl in H. destruct (value fuel d s) as [[v r1]|] eqn:E1; [|done].
    apply IHv in E1 as [Hv Hl]; [|done]. destruct (eat "]" r1) as [r2|] eqn:E2; [|destruct (eat "," r1) as [r2|] eqn:E3; [|done]].
    + injection H as <- <-. apply eat_length in E2. split; [by apply Forall_singleton|lia].
    + destruct (elements fuel d r2) as [[vs' r3]|] eqn:E4; [|done]. injection H as <- <-. apply eat_length in E3.
      apply IHe in E4 as [Hvs Hl']; [|done]. split; [by constructor|lia].
  - intros d s ms r Hd H. simpl in H. destruct (key s) as [[k r0]|] eqn:E0; [|done]. apply key_spec in E0 as [Hk Hl0].
    destruct (value fuel d r0) as [[v r1]|] eqn:E1; [|done].
    apply IHv in E1 as [Hv Hl]; [|done]. destruct (eat "}" r1) as [r2|] eqn:E2; [|destruct (eat "," r1) as [r2|] eqn:E3; [|done]].
    + injection H as <- <-. apply eat_length in E2. split; [by apply Forall_singleton|lia].
    + destruct (members fuel d r2) as [[ms' r3]|] eqn:E4; [|done]. injection H as <- <-. apply eat_length in E3.
      apply IHm in E4 as [Hvs Hl']; [|done]. split; [by constructor|lia].
Qed.

(** A parsed text gives a well-formed tree within the nesting limit. *)
Lemma parse_good (s : string) (v : json) : parse s = Some v -> good 0 v.
Proof.
  unfold parse. destruct (value _ _ s) as [[v' r]|] eqn:E; [|done]. case_if; [|done]. intros [= ->].
  by apply (proj1 (parsers_good _)) in E as [H _].
Qed.

(** ** Fuel *)

(** Past two steps per byte, more fuel changes nothing. *)
Lemma parsers_fuel (n : nat) : forall (m : nat) (d : Z) (s : string), d <= maxNestingDepth ->
  ((2 * String.length s + 1 <= n -> 2 * String.length s + 1 <= m -> value n d s = value m d s) /\
   (2 * String.length s + 2 <= n -> 2 * String.length s + 2 <= m -> elements n d s = elements m d s) /\
   (2 * String.length s + 1 <= n -> 2 * String.length s + 1 <= m -> members n d s = members m d s))%nat.
Proof.
  induction n as [|n IH]; intros [|m] d s Hd; repeat split; try lia; intros Hn Hm; simpl.
  - destruct (eat "{" s) as [r1|] eqn:E1; [|destruct (eat "[" s) as [r1|] eqn:E2; [|done]].
    + apply eat_length in E1. destruct (maxNestingDepth <=? d) eqn:Ed; [done|]. to_prop. destruct (eat "}" r1); [done|].
      destruct (IH m (d + 1) r1) as (_ & _ & ->); [lia|done|lia|lia].
    + apply eat_length in E2. destruct (maxNestingDepth <=? d) eqn:Ed; [done|]. to_prop. destruct (eat "]" r1); [done|].
      destruct (IH m (d + 1) r1) as (_ & -> & _); [lia|done|lia|lia].
  - destruct (IH m d s) as (-> & _ & _); [done| |lia|lia]. destruct (value m d s) as [[v r1]|] eqn:E1; [|done].
    apply (proj1 (parsers_good m)) in E1 as [_ Hl]; [|done]. destruct (eat "]" r1); [done|].
    destruct (eat "," r1) as [r2|] eqn:E2; [|done]. apply eat_length in E2.
    destruct (IH m d r2) as (_ & -> & _); [done|done|lia|lia].
  - destruct (key s) as [[k r0]|] eqn:E0; [|done]. apply key_spec in E0 as [_ Hl0].
    destruct (IH m d r0) as (-> & _ & _); [done| |lia|lia]. destruct (value m d r0) as [[v r1]|] eqn:E1; [|done].
    apply (proj1 (parsers_good m)) in E1 as [_ Hl]; [|done]. destruct (eat "}" r1); [done|].
    destruct (eat "," r1) as [r2|] eqn:E2; [|done]. apply eat_length in E2.
    destruct (IH m d r2) as (_ & _ & ->); [done|done|lia|lia].
Qed.

Lemma value_fuel (n : nat) (s : string) : (parse_fuel s <= n)%nat -> value n 0 s = value (parse_fuel s) 0 s.
Proof. unfold parse_fuel. intros Hn. apply parsers_fuel; [done|lia|lia]. Qed.

(** ** Parsing a printed tree *)

(** The fuel a tree needs. *)
Fixpoint need (v : json) : nat :=
  match v with
  | JArr l => S (foldr (fun v n => S (Nat.max (need v) n)) 0 l)%nat
  | JObj l => S (foldr (fun kv n => S (Nat.max (need kv.2) n)) 0 l)%nat
  | _ => 1%nat
  end.

Lemma need_pos (v : json) : (1 <= need v)%nat.
Proof. destruct v; simpl; lia. Qed.

(** The bytes a value can start with. *)
Definition starts_value (s : string) : Prop :=
  match s with
  | EmptyString => False
  | String c _ => is_ws c = false /\ Ascii.eqb c "]"%char = false /\ Ascii.eqb c "}"%char = false
  end.

Lemma digit_byte (c : ascii) : is_digit c = true \/ c = "-"%char -> 45 <= byte_of c <= 57.
Proof. unfold is_digit, in_range. intros [H| ->]; [to_prop; lia|by vm_compute]. Qed.

Lemma eqb_byte (c x : ascii) : byte_of c ≠ byte_of x -> Ascii.eqb c x = false.
Proof. intros H. apply Ascii.eqb_neq. by intros ->. Qed.

Lemma not_ws_byte (c : ascii) : 33 <= byte_of c -> is_ws c = false.
Proof. unfold is_ws. intros H. rewrite !orb_false_iff, !Z.eqb_neq. lia. Qed.

Lemma print_starts (v : json) (t : string) : wf_json v -> starts_value (print v +:+ t).
Proof.
  destruct v as [|[]| | | |]; intros H; try done.
  destruct H as [(c & r & -> & Hc) _]. cbn [print]. rewrite app_cons. apply digit_byte in Hc. simpl.
  split; [apply not_ws_byte; lia|]. split; apply eqb_byte; vm_compute (byte_of "]"); vm_compute (byte_of "}"); lia.
Qed.

Lemma eat_here (c : ascii) (t : string) : is_ws c = false -> eat c (String c t) = Some t.
Proof. unfold eat. intros H. simpl. by rewrite H, Ascii.eqb_refl. Qed.

Lemma eat_other (c x : ascii) (t : string) : is_ws x = false -> Ascii.eqb x c = false -> eat c (String x t) = None.
Proof. unfold eat. intros H Hx. simpl. by rewrite H, Hx. Qed.

Lemma skip_ws_other (x : ascii) (t : string) : is_ws x = false -> skip_ws (String x t) = String x t.
Proof. intros H. simpl. by rewrite H. Qed.

Lemma eat_value (c : ascii) (s : string) : c = "]"%char \/ c = "}"%char -> starts_value s -> eat c s = None.
Proof. intros Hc. destruct s as [|x s]; simpl; [done|]. intros (H1 & H2 & H3). apply eat_other; [done|]. by destruct Hc as [->| ->]. Qed.

Lemma key_here (k t : string) : str_lit k -> key (quoted k +:+ ":" +:+ t) = Some (k, t).
Proof.
  intros Hk. unfold key, quoted. rewrite app_cons, eat_here by done. rewrite app_assoc_str. app_norm. by rewrite Hk, eat_here.
Qed.

Lemma value_number (fuel : nat) (d : Z) (n t : string) : num_lit n -> num_end t -> value (S fuel) d (n +:+ t) = Some (JNum n, t).
Proof.
  intros [(c & r & -> & Hc) Hn] Ht. specialize (Hn t Ht). rewrite app_cons in *.
  apply digit_byte in Hc. assert (is_ws c = false) as Hw by (apply not_ws_byte; lia).
  assert (forall x, byte_of x < 45 \/ 57 < byte_of x -> Ascii.eqb c x = false /\ Ascii.eqb x c = false) as Hx.
  { intros x Hx. split; [|rewrite Ascii.eqb_sym]; apply eqb_byte; lia. }
  cbn [value]. rewrite !eat_other by (done || (apply Hx; by right) || (apply Hx; by left)).
  rewrite skip_ws_other by done. unfold scalar. cbn [CutPrefix].
  rewrite (proj2 (Hx "n"%char ltac:(by right))), (proj2 (Hx "t"%char ltac:(by right))), (proj2 (Hx "f"%char ltac:(by right))).
  by rewrite Hn.
Qed.

Lemma num_end_close (c : ascii) (t : string) : c ∈ [","; "]"; "}"]%char -> num_end (String c t).
Proof. rewrite !elem_of_cons, elem_of_nil. by intros [->|[->|[->|[]]]]. Qed.

(** The induction hypothesis of the round trip. *)
Definition reparses (v : json) : Prop :=
  wf_json v -> forall fuel d t, (need v <= fuel)%nat -> d + nesting v <= maxNestingDepth -> num_end t ->
  value fuel d (print v +:+ t) = Some (v, t).

Lemma elements_print (l : list json) : Forall reparses l -> Forall wf_json l -> l ≠ [] ->
  forall fuel d t, (foldr (fun v n => S (Nat.max (need v) n)) 0 l <= fuel)%nat -> Forall (fun v => d + nesting v <= maxNestingDepth) l ->
  elements fuel d (Join (map print l) "," +:+ "]" +:+ t) = Some (l, t).
Proof.
  induction 1 as [|v l Hv Hl IH]; intros Hw Hne fuel d t Hf Hd; [done|]. apply Forall_cons in Hw as [Hwv Hwl].
  apply Forall_cons in Hd as [Hdv Hdl]. destruct fuel as [|fuel]; simpl in Hf; [lia|]. cbn [elements].
  destruct l as [|v' l].
  - cbn [map Join]. rewrite (Hv Hwv) by (lia || done || by apply num_end_close; set_solver). by rewrite app_cons, app_nil, eat_here.
  - change (Join (map print (v :: v' :: l)) ",") with (print v +:+ "," +:+ Join (map print (v' :: l)) ",").
    rewrite !app_assoc_str, (Hv Hwv) by (lia || done || by apply num_end_close; set_solver).
    rewrite app_cons, app_nil, eat_other, eat_here by done.
    by rewrite IH by (done || lia).
Qed.

Lemma members_print (l : list (string * json)) : Forall (fun kv => reparses kv.2) l -> Forall (fun kv => str_lit kv.1 /\ wf_json kv.2) l -> l ≠ [] ->
  forall fuel d t, (foldr (fun kv n => S (Nat.max (need kv.2) n)) 0 l <= fuel)%nat -> Forall (fun kv => d + nesting kv.2 <= maxNestingDepth) l ->
  members fuel d (Join (map (fun kv => quoted kv.1 +:+ ":" +:+ print kv.2) l) "," +:+ "}" +:+ t) = Some (l, t).
Proof.
  induction 1 as [|[k v] l Hv Hl IH]; intros Hw Hne fuel d t Hf Hd; [done|]. apply Forall_cons in Hw as [[Hk Hwv] Hwl].
  apply Forall_cons in Hd as [Hdv Hdl]. destruct fuel as [|fuel]; simpl in Hf; [lia|]. cbn [members]. simpl in Hk, Hwv, Hdv, Hv.
  destruct l as [|v' l].
  - cbn [map Join fst snd]. rewrite !app_assoc_str, key_here by done.
    rewrite (Hv Hwv) by (lia || done || by apply num_end_close; set_solver). by rewrite app_cons, app_nil, eat_here.
  - set (f := fun kv : string * json => quoted kv.1 +:+ ":" +:+ print kv.2) in *.
    change (Join (map f ((k, v) :: v' :: l)) ",") with ((quoted k +:+ ":" +:+ print v) +:+ "," +:+ Join (map f (v' :: l)) ",").
    rewrite !app_assoc_str, key_here by done. rewrite (Hv Hwv) by (lia || done || by apply num_end_close; set_solver).
    rewrite app_cons, app_nil, eat_other, eat_here by done.
    by rewrite IH by (done || lia).
Qed.

Lemma nest_bound {A} (f : A -> Z) (l : list A) (d m : Z) :
  d + (1 + foldr (fun v n => Z.max (f v) n) 0 l) <= m -> Forall (fun v => d + 1 + f v <= m) l.
Proof. revert d; induction l as [|v l IH]; intros d H; simpl in H; constructor; [lia|apply IH; lia]. Qed.

Lemma value_print (v : json) : reparses v.
Proof.
  induction v as [|[]|n|l|l IH|l IH] using json_nested_ind; intros Hw [|fuel] d t Hf Hd Ht;
    try (simpl in Hf; lia); try done.
  - by apply value_number.
  - cbn [print value]. unfold quoted. rewrite app_cons, !eat_other by done. rewrite eat_here by done. app_norm. by rewrite Hw.
  - cbn [print value]. rewrite app_assoc_str, app_cons, app_nil, eat_other, eat_here by done.
    apply wf_JArr in Hw. simpl in Hf, Hd. pose proof (foldr_max_pos nesting l).
    destruct (maxNestingDepth <=? d) eqn:Ed; to_prop; [lia|]. destruct l as [|v l]; [done|].
    rewrite app_assoc_str, eat_value; [|by auto|].
    + rewrite elements_print; [done|done|done|done|lia|by apply nest_bound].
    + apply Forall_cons in Hw as [Hw _]. destruct l; cbn [map Join]; rewrite ?app_assoc_str; by apply print_starts.
  - cbn [print value]. rewrite app_assoc_str, app_cons, app_nil, eat_here by done.
    apply wf_JObj in Hw. simpl in Hf, Hd. pose proof (foldr_max_pos (fun kv : string * json => nesting kv.2) l).
    destruct (maxNestingDepth <=? d) eqn:Ed; to_prop; [lia|]. destruct l as [|v l]; [done|].
    rewrite app_assoc_str, eat_value; [|by auto|by destruct l].
    rewrite members_print; [done|done|done|done|lia|by apply (nest_bound (fun kv : string * json => nesting kv.2))].
Qed.

Lemma Join_cons (e : string) (es : list string) (sep : string) :
  es ≠ [] -> Join (e :: es) sep = e +:+ sep +:+ Join es sep.
Proof. by destruct es. Qed.

(** The fuel a tree needs is within the fuel of its text. *)
Lemma need_list {A} (f : A -> nat) (g : A -> string) (l : list A) :
  Forall (fun v => (f v <= 2 * String.length (g v))%nat) l ->
  (foldr (fun v n => S (Nat.max (f v) n)) 0 l <= 2 * String.length (Join (map g l) ",") + 1)%nat.
Proof.
  induction 1 as [|v l Hv Hl IH]; [simpl; lia|]. destruct l as [|v' l].
  - simpl. lia.
  - cbn [map]. rewrite Join_cons by done. rewrite !length_app_str. cbn [foldr]. cbn [foldr map] in IH. simpl in *. lia.
Qed.

Lemma need_print (v : json) : wf_json v -> (need v <= 2 * String.length (print v))%nat.
Proof.
  induction v as [|[]|n|l|l IH|l IH] using json_nested_ind; intros Hw; try (simpl; lia).
  - destruct Hw as [(c & r & -> & _) _]. simpl. lia.
  - apply wf_JArr in Hw. cbn [need print]. rewrite !length_app_str.
    pose proof (need_list need print l) as H. rewrite !Forall_forall in *. specialize (H ltac:(eauto)). simpl in *. lia.
  - apply wf_JObj in Hw. cbn [need print]. rewrite !length_app_str.
    pose proof (need_list (fun kv : string * json => need kv.2) (fun kv => quoted kv.1 +:+ ":" +:+ print kv.2) l) as H.
    rewrite !Forall_forall in *. enough (forall kv, kv ∈ l -> (need kv.2 <= 2 * String.length (quoted kv.1 +:+ ":" +:+ print kv.2))%nat) as Hk
      by (specialize (H Hk); simpl in *; lia).
    intros kv Hkv. rewrite !length_app_str. specialize (IH kv Hkv (proj2 (Hw kv Hkv))). lia.
Qed.

(** Printing a well-formed tree and parsing it gives the tree. *)
Lemma parse_print (v : json) : good 0 v -> parse (print v) = Some v.
Proof.
  intros [Hw Hn]. unfold parse. pose proof (value_print v Hw (parse_fuel (print v)) 0 EmptyString) as H.
  rewrite app_empty_r in H. rewrite H; [done| |done|done]. pose proof (need_print v Hw). unfold parse_fuel. lia.
Qed.
