(* ===== verification/GoJsonText.v ===== *)
(** * Facts about quoting

    Unquoting yields valid UTF-8, quoting a valid string and unquoting it gives the
    string back, quoted and compacted text is a string literal again, and a map
    marshalled and unmarshalled is the map with its messages compacted. *)

From stdpp Require Import base gmap strings list sorting.
From Stdlib Require Import ZArith Lia Bool Ascii.
From S2P Require Import Prelude GoStrings GoJson GoJsonFacts.

(** ** Literals, as a grammar *)

Inductive lit : string -> Prop :=
| lit_nil : lit EmptyString
| lit_plain (c : ascii) (l : string) :
    Ascii.eqb c dquote = false -> Ascii.eqb c backslash = false -> 32 <= byte_of c -> lit l -> lit (String c l)
| lit_escape (e : ascii) (l : string) : is_Some (simple_escape e) -> lit l -> lit (String backslash (String e l))
| lit_unicode (h1 h2 h3 h4 : ascii) (l : string) :
    is_hex h1 && is_hex h2 && is_hex h3 && is_hex h4 = true -> lit l ->
    lit (String backslash (String "u" (String h1 (String h2 (String h3 (String h4 l)))))).

Lemma lit_str_lit (l : string) : lit l -> str_lit l.
Proof.
  induction 1 as [|c l E1 E2 E3 _ IH|e l [x He] _ IH|h1 h2 h3 h4 l Hh _ IH]; intros t; rewrite ?app_cons; cbn [lex_string].
  - done.
  - rewrite E1, E2, (proj2 (Z.ltb_ge _ _) E3), IH. done.
  - rewrite He, IH. done.
  - change (simple_escape "u") with (@None ascii). cbn. rewrite Hh, IH. done.
Qed.

Lemma lex_string_lit (n : nat) : forall s l r, (String.length s < n)%nat -> lex_string s = Some (l, r) -> lit l.
Proof.
  induction n as [|n IH]; intros [|c s] l r Hn H; simpl in Hn, H; try lia; try done.
  destruct (Ascii.eqb c dquote) eqn:Eq; [injection H as <- <-; constructor|].
  destruct (Ascii.eqb c backslash) eqn:Eb.
  - apply Ascii.eqb_eq in Eb as ->. destruct s as [|e s]; [done|]. simpl in Hn. destruct (simple_escape e) eqn:Ee.
    + apply prepend_Some in H as (l' & H & ->). app_norm. constructor; [by eexists|]. eapply IH; [|done]. lia.
    + destruct (Ascii.eqb e "u") eqn:Eu; [|done]. apply Ascii.eqb_eq in Eu as ->.
      destruct s as [|h1 [|h2 [|h3 [|h4 s]]]]; try done. simpl in Hn.
      destruct (is_hex h1 && is_hex h2 && is_hex h3 && is_hex h4) eqn:Eh; [|done].
      apply prepend_Some in H as (l' & H & ->). app_norm. constructor; [done|]. eapply IH; [|done]. lia.
  - destruct (byte_of c <? 32) eqn:E3; [done|]. to_prop. apply prepend_Some in H as (l' & H & ->). app_norm.
    constructor; [done|done|lia|]. eapply IH; [|done]. lia.
Qed.

Lemma str_lit_lit (l : string) : str_lit l <-> lit l.
Proof. split; [|apply lit_str_lit]. intros H. eapply lex_string_lit; [|apply (H EmptyString)]. apply Nat.lt_succ_diag_r. Qed.

(** ** Bytes *)

Lemma byte_of_Z (z : Z) : 0 <= z < 256 -> byte_of (ascii_of_Z z) = z.
Proof. intros H. unfold byte_of, ascii_of_Z. rewrite N_ascii_embedding by lia. lia. Qed.

Lemma ascii_of_byte (c : ascii) : ascii_of_Z (byte_of c) = c.
Proof. unfold byte_of, ascii_of_Z. rewrite N2Z.id. apply ascii_N_embedding. Qed.

Lemma byte_of_inj (c x : ascii) : byte_of c = byte_of x -> c = x.
Proof. intros H. by rewrite <- (ascii_of_byte c), H, ascii_of_byte. Qed.

(** ** Runes *)

(** [e] is the encoding of [r], whatever follows it. *)
Definition is_rune (e : string) (r : Z) : Prop :=
  e ≠ EmptyString /\ forall t, rune_at (e +:+ t) = Some (r, String.length e).

(** Sequences of validly encoded runes. *)
Inductive utf8 : string -> Prop :=
| utf8_nil : utf8 EmptyString
| utf8_rune (e : string) (r : Z) (t : string) : is_rune e r -> utf8 t -> utf8 (e +:+ t).

Ltac bytes :=
  repeat match goal with
  | c : ascii |- _ => lazymatch goal with H : 0 <= byte_of c < 256 |- _ => fail | _ => pose proof (byte_of_range c) end
  end.

(** A first byte above 127 and continuation bytes after it. *)
Definition high_bytes (e : string) : Prop :=
  match e with
  | EmptyString => True
  | String c e' => 128 <= byte_of c /\ Forall (fun c => 128 <= byte_of c <= 191) (String.list_ascii_of_string e')
  end.

(** Decoding depends on the bytes of the rune only; they are one ASCII byte or
    bytes above 127. *)
Lemma rune_at_split (s : string) (r : Z) (n : nat) : rune_at s = Some (r, n) ->
  exists e t, s = e +:+ t /\ String.length e = n /\ is_rune e r /\
    ((exists c, e = one c /\ byte_of c < 128 /\ r = byte_of c) \/ high_bytes e).
Proof.
  unfold rune_at, is_rune, high_bytes, DecodeRuneInString. intros H.
  destruct s as [|c0 s1]; [done|]. bytes. cbv zeta beta iota in H.
  destruct (byte_of c0 <? 128) eqn:E0.
  { simpl in H. rewrite andb_true_r in H. destruct (byte_of c0 =? RuneError) eqn:Er; [done|]. injection H as <- <-.
    exists (one c0), s1. split; [done|]. split; [done|]. split; [split; [done|]|].
    - intros t. app_norm. unfold rune_at, DecodeRuneInString. cbv zeta beta iota. rewrite E0, Er. done.
    - left. to_prop. eauto. }
  destruct ((194 <=? byte_of c0) && (byte_of c0 <=? 223)) eqn:E1.
  { destruct s1 as [|c1 s2]; [done|]. destruct (in_range 128 191 c1) eqn:E2; [|done]. simpl in H. rewrite andb_false_r in H.
    injection H as <- <-. exists (String c0 (one c1)), s2. split; [done|]. split; [done|]. split; [split; [done|]|].
    - intros t. app_norm. unfold rune_at, DecodeRuneInString. cbv zeta beta iota. rewrite E0, E1, E2, andb_false_r. done.
    - right. unfold in_range in E2. to_prop. repeat constructor; lia. }
  destruct ((224 <=? byte_of c0) && (byte_of c0 <=? 239)) eqn:E2.
  { destruct s1 as [|c1 [|c2 s3]]; [done|done|]. destruct (in_range _ _ c1 && in_range 128 191 c2) eqn:E3; [|done].
    simpl in H. rewrite andb_false_r in H. injection H as <- <-. exists (String c0 (String c1 (one c2))), s3.
    split; [done|]. split; [done|]. split; [split; [done|]|].
    - intros t. app_norm. unfold rune_at, DecodeRuneInString. cbv zeta beta iota. rewrite E0, E1, E2, E3, andb_false_r. done.
    - right. unfold in_range, second_range in E3. repeat case_if; simpl in E3; to_prop; repeat constructor; lia. }
  destruct ((240 <=? byte_of c0) && (byte_of c0 <=? 244)) eqn:E3; [|done].
  destruct s1 as [|c1 [|c2 [|c3 s4]]]; [done|done|done|].
  destruct (in_range _ _ c1 && in_range 128 191 c2 && in_range 128 191 c3) eqn:E4; [|done].
  simpl in H. rewrite andb_false_r in H. injection H as <- <-. exists (String c0 (String c1 (String c2 (one c3)))), s4.
  split; [done|]. split; [done|]. split; [split; [done|]|].
  - intros t. app_norm. unfold rune_at, DecodeRuneInString. cbv zeta beta iota. rewrite E0, E1, E2, E3, E4, andb_false_r. done.
  - right. unfold in_range, second_range in E4. repeat case_if; simpl in E4; to_prop; repeat constructor; lia.
Qed.

Lemma in_range_iff (lo hi : Z) (c : ascii) : in_range lo hi c = true <-> lo <= byte_of c <= hi.
Proof. unfold in_range. rewrite andb_true_iff, !Z.leb_le. done. Qed.

Lemma rune_at_1 (c0 : ascii) (t : string) : byte_of c0 < 128 -> rune_at (String c0 t) = Some (byte_of c0, 1%nat).
Proof.
  intros H0. unfold rune_at, DecodeRuneInString. rewrite (proj2 (Z.ltb_lt _ _) H0).
  assert (byte_of c0 ≠ RuneError) as E by (unfold RuneError; lia). apply Z.eqb_neq in E. by rewrite E.
Qed.

Lemma rune_at_2 (c0 c1 : ascii) (t : string) : 194 <= byte_of c0 <= 223 -> 128 <= byte_of c1 <= 191 ->
  rune_at (String c0 (String c1 t)) = Some ((byte_of c0 - 192) * 64 + (byte_of c1 - 128), 2%nat).
Proof.
  intros H0 H1. unfold rune_at, DecodeRuneInString.
  rewrite (proj2 (Z.ltb_ge _ _)), (proj2 (Z.leb_le 194 _)), (proj2 (Z.leb_le _ 223)), (proj2 (in_range_iff _ _ c1)) by lia.
  cbn [andb]. by rewrite andb_false_r.
Qed.

(** The second bytes a first byte allows. *)
Definition second_ok (b0 b1 : Z) : Prop :=
  128 <= b1 <= 191 /\ (b0 = 224 -> 160 <= b1) /\ (b0 = 237 -> b1 <= 159) /\ (b0 = 240 -> 144 <= b1) /\ (b0 = 244 -> b1 <= 143).

Lemma second_range_iff (b0 : Z) (c1 : ascii) :
  in_range (second_range b0).1 (second_range b0).2 c1 = true <-> second_ok b0 (byte_of c1).
Proof. rewrite in_range_iff. unfold second_range, second_ok. repeat case_if; simpl; to_prop; lia. Qed.

Lemma rune_at_3 (c0 c1 c2 : ascii) (t : string) :
  224 <= byte_of c0 <= 239 -> second_ok (byte_of c0) (byte_of c1) -> 128 <= byte_of c2 <= 191 ->
  rune_at (String c0 (String c1 (String c2 t))) = Some ((byte_of c0 - 224) * 4096 + (byte_of c1 - 128) * 64 + (byte_of c2 - 128), 3%nat).
Proof.
  intros H0 H1 H2. apply second_range_iff in H1. unfold rune_at, DecodeRuneInString.
  rewrite (proj2 (Z.ltb_ge _ _)), (proj2 (Z.leb_le 194 _)), (proj2 (Z.leb_gt _ 223)), (proj2 (Z.leb_le 224 _)), (proj2 (Z.leb_le _ 239)) by lia.
  cbn [andb]. rewrite H1, (proj2 (in_range_iff _ _ c2)) by lia. cbn [andb]. by rewrite andb_false_r.
Qed.

Lemma rune_at_4 (c0 c1 c2 c3 : ascii) (t : string) :
  240 <= byte_of c0 <= 244 -> second_ok (byte_of c0) (byte_of c1) -> 128 <= byte_of c2 <= 191 -> 128 <= byte_of c3 <= 191 ->
  rune_at (String c0 (String c1 (String c2 (String c3 t)))) =
  Some ((byte_of c0 - 240) * 262144 + (byte_of c1 - 128) * 4096 + (byte_of c2 - 128) * 64 + (byte_of c3 - 128), 4%nat).
Proof.
  intros H0 H1 H2 H3. apply second_range_iff in H1. unfold rune_at, DecodeRuneInString.
  rewrite (proj2 (Z.ltb_ge _ _)), (proj2 (Z.leb_le 194 _)), (proj2 (Z.leb_gt _ 223)), (proj2 (Z.leb_le 224 _)), (proj2 (Z.leb_gt _ 239)),
    (proj2 (Z.leb_le 240 _)), (proj2 (Z.leb_le _ 244)) by lia.
  cbn [andb]. rewrite H1, (proj2 (in_range_iff _ _ c2)), (proj2 (in_range_iff _ _ c3)) by lia. cbn [andb]. by rewrite andb_false_r.
Qed.

(** The encoding of a rune is one valid rune. *)
Lemma EncodeRune_is_rune (r : Z) : exists r', is_rune (EncodeRune r) r'.
Proof.
  unfold is_rune, EncodeRune. destruct ((r <? 0) || (1114111 <? r) || ((55296 <=? r) && (r <=? 57343))) eqn:Eb.
  { exists RuneError. split; [done|]. intros t. app_norm. by rewrite rune_at_3. }
  apply orb_false_iff in Eb as [Eb Es]. apply andb_false_iff in Es. to_prop.
  assert (r < 55296 \/ 57343 < r) as Hs by (destruct Es; to_prop; lia). clear Es.
  assert (forall n, 128 <= byte_of (ascii_of_Z (128 + n mod 64)) <= 191) as Hc.
  { intros n. pose proof (Z.mod_pos_bound n 64). rewrite byte_of_Z; lia. }
  repeat case_if; to_prop; eexists; (split; [done|]); intros t; app_norm.
  - rewrite rune_at_1; [done|]. rewrite byte_of_Z; lia.
  - rewrite rune_at_2; [done| |by apply Hc]. rewrite byte_of_Z; Z.to_euclidean_division_equations; lia.
  - rewrite rune_at_3; [done| | |by apply Hc].
    + rewrite byte_of_Z; Z.to_euclidean_division_equations; lia.
    + unfold second_ok. rewrite !byte_of_Z; Z.to_euclidean_division_equations; lia.
  - rewrite rune_at_4; [done| | |by apply Hc|by apply Hc].
    + rewrite byte_of_Z; Z.to_euclidean_division_equations; lia.
    + unfold second_ok. rewrite !byte_of_Z; Z.to_euclidean_division_equations; lia.
Qed.

Lemma ascii_is_rune (c : ascii) : byte_of c < 128 -> is_rune (one c) (byte_of c).
Proof. intros H. split; [done|]. intros t. app_norm. by rewrite rune_at_1. Qed.

(** A validly encoded line separator is its three bytes. *)
Lemma separator_bytes (e : string) (r : Z) : is_rune e r -> is_line_separator r = true -> e = EncodeRune r.
Proof.
  intros [_ He] Hr. specialize (He EmptyString). rewrite app_empty_r in He.
  assert (r = 8232 \/ r = 8233) as Hr' by (unfold is_line_separator in Hr; apply orb_true_iff in Hr as [H|H]; to_prop; auto). clear Hr.
  destruct (rune_at_split _ _ _ He) as (e' & t & -> & Hl & _). rewrite length_app_str in Hl.
  destruct t as [|x t]; [|simpl in Hl; lia]. clear Hl. rewrite app_empty_r in *. rename e' into e. revert He.
  unfold rune_at, DecodeRuneInString. destruct e as [|c0 s1]; [done|]. cbv zeta beta iota. bytes.
  assert (forall (b : bool) (n : nat) (x : Z), (if (x =? RuneError) && b then None else Some (x, n)) = Some (r, String.length (String c0 s1)) ->
    x = r /\ n = S (String.length s1)) as Hx by (intros b n x; case_if; [done|by intros [= -> ->]]).
  destruct (byte_of c0 <? 128) eqn:E0; [intros [? _]%Hx; to_prop; lia|]. to_prop.
  destruct ((194 <=? byte_of c0) && (byte_of c0 <=? 223)) eqn:E1.
  { destruct s1 as [|c1 s2]; [done|]. destruct (in_range 128 191 c1) eqn:E2; [|done]. apply in_range_iff in E2.
    intros [? _]%Hx. to_prop. lia. }
  destruct ((224 <=? byte_of c0) && (byte_of c0 <=? 239)) eqn:E2.
  { destruct s1 as [|c1 [|c2 s3]]; [done|done|]. destruct (in_range _ _ c1 && in_range 128 191 c2) eqn:E3; [|done].
    apply andb_true_iff in E3 as [E3%second_range_iff E4%in_range_iff]. unfold second_ok in E3. intros [Hv Hn]%Hx. to_prop.
    destruct s3; [|done]. assert (byte_of c0 = 226 /\ byte_of c1 = 128 /\ byte_of c2 = r - 8064) as (B0 & B1 & B2) by lia.
    rewrite <- (ascii_of_byte c0), <- (ascii_of_byte c1), <- (ascii_of_byte c2), B0, B1, B2. by destruct Hr' as [->| ->]. }
  destruct ((240 <=? byte_of c0) && (byte_of c0 <=? 244)) eqn:E3; [|done].
  destruct s1 as [|c1 [|c2 [|c3 s4]]]; [done|done|done|].
  destruct (in_range _ _ c1 && in_range 128 191 c2 && in_range 128 191 c3) eqn:E4; [|done].
  apply andb_true_iff in E4 as [E4 E6%in_range_iff]. apply andb_true_iff in E4 as [E4%second_range_iff E5%in_range_iff].
  unfold second_ok in E4. intros [? _]%Hx. to_prop. lia.
Qed.

(** ** Copying and skipping *)

Lemma unquote_copy (e t : string) (k : nat) : unquote_from (String.length e) k (e +:+ t) = e +:+ unquote_from 0 k t.
Proof. induction e as [|c e IH]; rewrite ?app_nil, ?app_cons; [done|]. cbn [String.length unquote_from]. by rewrite IH. Qed.

Lemma quote_copy (e t : string) (k : nat) : quote_from (String.length e) k (e +:+ t) = e +:+ quote_from 0 k t.
Proof. induction e as [|c e IH]; rewrite ?app_nil, ?app_cons; [done|]. cbn [String.length quote_from]. by rewrite IH. Qed.

Lemma quote_skip (e t : string) : quote_from 0 (String.length e) (e +:+ t) = quote_from 0 0 t.
Proof. induction e as [|c e IH]; rewrite ?app_nil, ?app_cons; [done|]. cbn [String.length quote_from]. by rewrite IH. Qed.

(** A rune that is not an escape is copied. *)
Lemma unquote_rune (e : string) (r : Z) (t : string) :
  is_rune e r -> (forall c e', e = String c e' -> Ascii.eqb c backslash = false) -> unquote (e +:+ t) = e +:+ unquote t.
Proof.
  intros [Hne He] Hb. destruct e as [|c e]; [done|]. specialize (He t). rewrite !app_cons in *. unfold unquote. cbn [unquote_from].
  rewrite (Hb c e) by done. rewrite He. cbn [String.length pred]. by rewrite unquote_copy.
Qed.

(** ** Unquoting gives valid UTF-8 *)

Lemma simple_escape_ascii (e c : ascii) : simple_escape e = Some c -> byte_of c < 128.
Proof. unfold simple_escape. repeat case_if; intros [= <-]; done. Qed.

Lemma utf8_unquote_from (n : nat) : forall s k, (String.length s < n)%nat -> utf8 (unquote_from 0 k s).
Proof.
  induction n as [|n IH]; intros s k Hn; [lia|]. destruct s as [|c s]; [constructor|]. simpl in Hn. cbn [unquote_from].
  destruct k as [|k]; [|apply IH; lia]. destruct (Ascii.eqb c backslash).
  - destruct (getu4 (String c s)) as [r|].
    + destruct (unicode_escape (String c s) r) as [r' k]. destruct (EncodeRune_is_rune r') as [r'' Hr].
      apply (utf8_rune _ _ _ Hr). apply IH. lia.
    + destruct s as [|e s]; [constructor|]. destruct (simple_escape e) as [x|] eqn:Ee; simpl.
      * apply (utf8_rune _ (byte_of x)); [|apply (IH s 0%nat); simpl in Hn; lia]. apply ascii_is_rune. by eapply simple_escape_ascii.
      * rewrite app_nil. apply (IH s 0%nat). simpl in Hn. lia.
  - destruct (rune_at (String c s)) as [[r m]|] eqn:Er.
    + destruct (rune_at_split _ _ _ Er) as (e & t & Hs & Hm & Hr & _). destruct e as [|c' e]; [by destruct Hr|].
      rewrite app_cons in Hs. injection Hs as <- ->. subst m. cbn [String.length pred]. rewrite unquote_copy, <- app_cons.
      apply (utf8_rune _ _ _ Hr). apply IH. rewrite length_app_str in Hn. lia.
    + destruct (EncodeRune_is_rune RuneError) as [r' Hr]. apply (utf8_rune _ _ _ Hr). apply IH. lia.
Qed.

Lemma utf8_unquote (l : string) : utf8 (unquote l).
Proof. apply (utf8_unquote_from (S (String.length l))). lia. Qed.

(** ** Quoting and unquoting *)

Lemma unquote_quote_byte (c : ascii) (t : string) : byte_of c < 128 -> unquote (quote_byte c +:+ t) = String c (unquote t).
Proof.
  destruct c as [[] [] [] [] [] [] [] []]; intros H; try (vm_compute in H; discriminate H); reflexivity.
Qed.

Lemma unquote_separator (r : Z) (t : string) :
  is_line_separator r = true -> unquote (u_escape r +:+ t) = EncodeRune r +:+ unquote t.
Proof.
  intros H. assert (r = 8232 \/ r = 8233) as [->| ->] by (unfold is_line_separator in H; apply orb_true_iff in H as [H|H]; to_prop; auto);
    reflexivity.
Qed.

Lemma quote_rune (e : string) (r : Z) (t : string) : is_rune e r ->
  quote (e +:+ t) = (match e with
                     | String c EmptyString => if byte_of c <? 128 then quote_byte c else e
                     | _ => if is_line_separator r then u_escape r else e
                     end) +:+ quote t.
Proof.
  intros Hr. pose proof Hr as [Hne He]. specialize (He t). destruct (rune_at_split _ _ _ He) as (e' & t' & Hs & Hl & _ & Hb).
  assert (e = e' /\ t = t') as [<- <-].
  { clear -Hs Hl. revert e' Hs Hl; induction e as [|c e IH]; intros [|c' e'] Hs Hl; simpl in Hl; try lia; [done|].
    rewrite !app_cons in Hs. injection Hs as -> Hs. apply IH in Hs as [-> ->]; [done|]. lia. }
  unfold quote. destruct e as [|c e]; [done|]. rewrite !app_cons in He |- *. cbn [quote_from].
  destruct Hb as [(c' & [= <- ->] & Hlt & _)|Hh].
  - rewrite (proj2 (Z.ltb_lt _ _) Hlt). by rewrite app_nil.
  - destruct Hh as [Hc Hh]. rewrite (proj2 (Z.ltb_ge _ _) Hc), He. cbn [String.length pred].
    destruct (is_line_separator r) eqn:El.
    + rewrite quote_skip. destruct e; [|done]. pose proof (separator_bytes _ _ Hr El) as H.
      unfold is_line_separator in El. apply orb_true_iff in El as [H1|H1]; to_prop; by subst r.
    + rewrite quote_copy, <- app_cons. destruct e; done.
Qed.

(** Quoting a valid string and unquoting it gives the string. *)
Lemma unquote_quote (s : string) : utf8 s -> unquote (quote s) = s.
Proof.
  induction 1 as [|e r t Hr _ IH]; [done|]. rewrite (quote_rune _ _ _ Hr).
  pose proof Hr as [Hne He]. specialize (He EmptyString). rewrite app_empty_r in He.
  assert (forall c e', e = String c e' -> Ascii.eqb c backslash = false \/ byte_of c < 128 /\ e' = EmptyString) as Hb.
  { intros c e' ->. destruct (rune_at_split _ _ _ He) as (e1 & t1 & Hs & Hl & _ & [(c' & -> & Hlt & _)|Hh]).
    - right. unfold one in Hs. rewrite app_cons, app_nil in Hs. injection Hs as -> ->. simpl in Hl. destruct t1; [auto|done].
    - left. destruct e1 as [|c1 e1]; [done|]. rewrite app_cons in Hs. injection Hs as <- _. destruct Hh as [Hc _].
      apply eqb_byte. vm_compute (byte_of backslash). lia. }
  destruct e as [|c [|c1 e]]; [done| |].
  - destruct (byte_of c <? 128) eqn:Ec; to_prop; [by rewrite unquote_quote_byte, IH, app_cons, app_nil|].
    rewrite (unquote_rune _ _ _ Hr), IH; [done|]. intros ? ? [= <- <-]. destruct (Hb c EmptyString eq_refl) as [|[]]; [done|lia].
  - destruct (is_line_separator r) eqn:El.
    + by rewrite unquote_separator, IH, (separator_bytes _ _ Hr El).
    + rewrite (unquote_rune _ _ _ Hr), IH; [done|]. intros ? ? [= <- <-]. by destruct (Hb c (String c1 e) eq_refl) as [|[]].
Qed.

(** ** Quoted and compacted text is a literal *)

Lemma lit_app (a b : string) : lit a -> lit b -> lit (a +:+ b).
Proof. induction 1; intros Hb; rewrite ?app_nil, ?app_cons; [done|apply lit_plain|apply lit_escape|apply lit_unicode]; auto. Qed.

Lemma lit_high (e : string) : high_bytes e -> lit e.
Proof.
  intros H. assert (Forall (fun c => 128 <= byte_of c) (String.list_ascii_of_string e)) as He.
  { destruct e as [|c e]; [constructor|]. destruct H as [Hc He]. constructor; [done|]. eapply Forall_impl; [exact He|]. simpl. lia. }
  clear H. induction e as [|c e IH]; [constructor|]. apply Forall_cons in He as [Hc He].
  constructor; [apply eqb_byte; vm_compute (byte_of dquote); lia|apply eqb_byte; vm_compute (byte_of backslash); lia|lia|auto].
Qed.

Lemma hex_digit_hex (z : Z) : is_hex (hex_digit (z mod 16)) = true.
Proof.
  pose proof (Z.mod_pos_bound z 16 eq_refl) as H. remember (z mod 16) as d. clear Heqd.
  assert (d = 0 \/ d = 1 \/ d = 2 \/ d = 3 \/ d = 4 \/ d = 5 \/ d = 6 \/ d = 7 \/ d = 8 \/ d = 9 \/ d = 10 \/ d = 11 \/
    d = 12 \/ d = 13 \/ d = 14 \/ d = 15) as Hd by lia.
  repeat (destruct Hd as [->|Hd]; [reflexivity|]). by subst.
Qed.

Lemma lit_u_escape (r : Z) : lit (u_escape r).
Proof. apply lit_unicode; [by rewrite !hex_digit_hex|constructor]. Qed.

Lemma lit_quote_byte (c : ascii) : byte_of c < 128 -> lit (quote_byte c).
Proof.
  intros _. unfold quote_byte. destruct (Ascii.eqb c dquote || Ascii.eqb c backslash) eqn:E.
  { apply orb_true_iff in E as [->%Ascii.eqb_eq| ->%Ascii.eqb_eq]; by repeat econstructor. }
  apply orb_false_iff in E as [E1 E2].
  do 5 (case_if; [by repeat econstructor|]). destruct ((byte_of c <? 32) || is_html c) eqn:E; [apply lit_u_escape|].
  apply orb_false_iff in E as [E _]. to_prop. constructor; [done|done|lia|constructor].
Qed.

#[local] Hint Resolve lit_app lit_high lit_u_escape lit_quote_byte : llm.

Lemma lit_quote_from (n : nat) : forall s k, (String.length s < n)%nat -> lit (quote_from 0 k s).
Proof.
  induction n as [|n IH]; intros s k Hn; [lia|]. destruct s as [|c s]; [constructor|]. simpl in Hn. cbn [quote_from].
  destruct k as [|k]; [|apply IH; lia]. destruct (byte_of c <? 128) eqn:Ec; to_prop; [auto with llm lia|].
  destruct (rune_at (String c s)) as [[r m]|] eqn:Er; [|auto with llm lia].
  destruct (is_line_separator r); [auto with llm lia|].
  destruct (rune_at_split _ _ _ Er) as (e & t & Hs & <- & [Hne _] & He). destruct e as [|c' e]; [done|].
  rewrite app_cons in Hs. injection Hs as <- ->. cbn [String.length pred]. rewrite quote_copy, <- app_cons.
  destruct He as [(x & [= -> _] & Hx & _)|He]; [lia|]. apply lit_app; [auto with llm|]. apply IH. rewrite length_app_str in Hn. lia.
Qed.

Lemma lit_quote (s : string) : lit (quote s).
Proof. apply (lit_quote_from (S (String.length s))). lia. Qed.

(** Bytes that may start an HTML escape are plain. *)
Definition escapable (c : ascii) : bool := is_html c || (byte_of c =? 226).

Lemma escape_other (c : ascii) (s : string) : escapable c = false -> escape_lit (String c s) = String c (escape_lit s).
Proof.
  unfold escapable. intros [H1 H2]%orb_false_iff. cbn [escape_lit]. rewrite H1. destruct s as [|c1 [|c2 s]]; try done.
  by rewrite H2.
Qed.

Lemma escape_byte_other (e : ascii) : is_Some (simple_escape e) -> escapable e = false.
Proof. 
  intros [x H]. revert H. unfold simple_escape.
  repeat match goal with |- context [Ascii.eqb e ?y] => destruct (Ascii.eqb_spec e y) as [->|]; [done|] end. done.
Qed.

Lemma hex_other (h : ascii) : is_hex h = true -> escapable h = false.
Proof.
  unfold is_hex, hex_val. intros H. assert (48 <= byte_of h <= 57 \/ 97 <= byte_of h <= 102 \/ 65 <= byte_of h <= 70) as Hh
    by (repeat case_if; to_prop; lia || done).
  unfold escapable, is_html. rewrite !orb_false_iff, Z.eqb_neq. repeat split; try lia; apply eqb_byte;
    [vm_compute (byte_of "<")|vm_compute (byte_of ">")|vm_compute (byte_of "&")]; lia.
Qed.

(** A literal that starts with a byte other than a backslash goes on after it. *)
Lemma lit_tail (c : ascii) (l : string) : lit (String c l) -> byte_of c ≠ 92 -> lit l.
Proof. inversion 1; subst; intros Hc; [done|by destruct Hc|by destruct Hc]. Qed.

Lemma lit_escape_lit_n (n : nat) : forall l, (String.length l < n)%nat -> lit l -> lit (escape_lit l).
Proof.
  induction n as [|n IH]; intros l Hn Hl; [lia|].
  inversion Hl as [|c s E1 E2 E3 Hs|e s He Hs|h1 h2 h3 h4 s Hh Hs]; subst; simpl in Hn.
  - constructor.
  - assert (lit (escape_lit s)) as Hs' by (apply IH; [lia|done]).
    cbn [escape_lit]. destruct (is_html c); [auto with llm|].
    destruct s as [|c1 [|c2 s3]]; [by apply lit_plain..|].
    destruct ((byte_of c =? 226) && (byte_of c1 =? 128) && ((byte_of c2 =? 168) || (byte_of c2 =? 169))) eqn:Es; [|by apply lit_plain].
    apply lit_app; [auto with llm|]. apply andb_true_iff in Es as [Es Hc2]. apply orb_true_iff in Hc2. to_prop.
    simpl in Hn. apply IH; [lia|]. apply lit_tail in Hs; [|lia]. apply lit_tail in Hs; [done|]. destruct Hc2; to_prop; lia.
  - rewrite escape_other by done. rewrite escape_other by (by apply escape_byte_other). apply lit_escape; [done|]. apply IH; [lia|done].
  - apply andb_true_iff in Hh as [Hh H4]. apply andb_true_iff in Hh as [Hh H3]. apply andb_true_iff in Hh as [H1 H2].
    rewrite !escape_other by (done || by apply hex_other).
    apply lit_unicode; [by rewrite H1, H2, H3, H4|]. apply IH; [lia|done].
Qed.

Lemma lit_escape_lit (l : string) : lit l -> lit (escape_lit l).
Proof. apply (lit_escape_lit_n (S (String.length l))). lia. Qed.

Lemma nesting_compact (v : json) : nesting (compact v) = nesting v.
Proof.
  induction v as [| | | |l IH|l IH] using json_nested_ind; try done; simpl; f_equal; induction IH as [|x l Hx _ IHl]; simpl; congruence.
Qed.

Lemma wf_compact (v : json) : wf_json v -> wf_json (compact v).
Proof.
  induction v as [| | |l|l IH|l IH] using json_nested_ind; try done.
  - intros H. apply str_lit_lit, lit_escape_lit, str_lit_lit, H.
  - rewrite (wf_JArr l). intros Hw. apply wf_JArr, Forall_fmap. rewrite !Forall_forall in *. simpl. auto.
  - rewrite (wf_JObj l). intros Hw. apply wf_JObj, Forall_fmap. rewrite !Forall_forall in *. intros kv Hkv. destruct (Hw kv Hkv) as [Hk Hv].
    split; [apply str_lit_lit, lit_escape_lit, str_lit_lit, Hk|by apply IH].
Qed.

Lemma good_compact (d : Z) (v : json) : good d v -> good d (compact v).
Proof. intros [H1 H2]. split; [by apply wf_compact|by rewrite nesting_compact]. Qed.

(** ** Maps *)

Lemma elem_of_sorted_keys (m : gmap string json) (k : string) : k ∈ SortStrings (map fst (map_to_list m)) <-> is_Some (m !! k).
Proof.
  rewrite SortStrings_Permutation, list_elem_of_fmap. split.
  - intros ([k' v] & -> & H%elem_of_map_to_list). by eexists.
  - intros [v H]. exists (k, v). split; [done|]. by apply elem_of_map_to_list.
Qed.

(** A marshalled map is well-formed within the nesting limit. *)
Lemma marshal_map_good (m : gmap string json) : (forall k v, m !! k = Some v -> good 1 v) -> good 0 (marshal_map m).
Proof.
  intros Hm. apply good_JObj; [done|]. rewrite Forall_forall. intros [k' v'] (k & Hk & H)%list_elem_of_omap.
  destruct (m !! k) as [v|] eqn:E; [|done]. simpl in H. injection H as <- <-. split; [apply str_lit_lit, lit_quote|].
  eapply good_compact, Hm, E.
Qed.

Lemma members_map_lookup (m : gmap string json) (ks : list string) (m0 : gmap string json) (k : string) :
  Forall utf8 ks ->
  foldl (fun m kv => <[unquote kv.1 := kv.2]> m) m0 (omap (fun k => (fun v => (quote k, compact v)) <$> m !! k) ks) !! k =
  if decide (k ∈ ks) then match m !! k with Some v => Some (compact v) | None => m0 !! k end else m0 !! k.
Proof.
  intros Hks. revert m0; induction Hks as [|x ks Hx _ IH]; intros m0; [done|].
  cbn [omap list_omap]. destruct (m !! x) as [v|] eqn:E; simpl; rewrite IH.
  - rewrite unquote_quote by done. destruct (decide (x = k)) as [->|Hne].
    + rewrite lookup_insert_eq, E. rewrite (decide_True (P := k ∈ k :: ks)) by by left. by destruct (decide _).
    + rewrite lookup_insert_ne by done.
      destruct (decide (k ∈ ks)) as [H|H], (decide (k ∈ x :: ks)) as [H'|H']; try done; rewrite elem_of_cons in H'; naive_solver.
  - destruct (decide (x = k)) as [->|Hne].
    + rewrite E. by destruct (decide (k ∈ ks)), (decide (k ∈ k :: ks)).
    + destruct (decide (k ∈ ks)) as [H|H], (decide (k ∈ x :: ks)) as [H'|H']; try done; rewrite elem_of_cons in H'; naive_solver.
Qed.

(** A marshalled map, unmarshalled, is the map with its messages compacted. *)
Lemma unmarshal_marshal_map (m : gmap string json) : (forall k v, m !! k = Some v -> utf8 k) ->
  unmarshal_map (Some (marshal_map m)) = MapOf (compact <$> m).
Proof.
  intros Hm. simpl. f_equal. apply map_eq. intros k. unfold members_map. rewrite members_map_lookup.
  - rewrite lookup_fmap, lookup_empty. destruct (decide _) as [_|H]; [by destruct (m !! k)|].
    rewrite elem_of_sorted_keys in H. destruct (m !! k); [|done]. destruct H. by eexists.
  - rewrite Forall_forall. intros x [v Hv]%elem_of_sorted_keys. by eapply Hm.
Qed.

(** ** Compacting twice *)

(** Text with no byte that may start an escape. *)
Definition inert (s : string) : Prop := Forall (fun c => escapable c = false) (String.list_ascii_of_string s).

Lemma escape_inert (a b : string) : inert a -> escape_lit (a +:+ b) = a +:+ escape_lit b.
Proof.
  unfold inert. induction a as [|c a IH]; intros H; [done|]. apply Forall_cons in H as [Hc Ha].
  rewrite !app_cons, escape_other by done. by rewrite IH.
Qed.

Lemma u_escape_inert (r : Z) : inert (u_escape r).
Proof. unfold inert, u_escape. repeat constructor; apply hex_other, hex_digit_hex. Qed.

Lemma quote_byte_inert (c : ascii) : byte_of c < 128 -> inert (quote_byte c).
Proof. destruct c as [[] [] [] [] [] [] [] []]; intros H; try (vm_compute in H; discriminate H); repeat constructor. Qed.

(** A byte after the first of an encoded separator is written as it is. *)
Lemma escape_first (s : string) (x : ascii) (t : string) :
  escape_lit s = String x t -> byte_of x = 128 \/ byte_of x = 168 \/ byte_of x = 169 -> exists s', s = String x s' /\ t = escape_lit s'.
Proof.
  destruct s as [|c s]; [done|]. cbn [escape_lit]. intros H Hx.
  assert (forall r u, u_escape r +:+ u = String x t -> False) as Hu.
  { intros r u E. unfold u_escape in E. app_norm. rewrite ?app_cons in E. injection E as <- _. vm_compute (byte_of "\") in Hx. lia. }
  destruct (is_html c); [by apply Hu in H|]. destruct s as [|c1 [|c2 s3]]; [injection H as <- <-; eauto..|].
  destruct (_ && _); [by apply Hu in H|]. injection H as <- <-. eauto.
Qed.

Definition separator_at (c c1 c2 : ascii) : bool :=
  (byte_of c =? 226) && (byte_of c1 =? 128) && ((byte_of c2 =? 168) || (byte_of c2 =? 169)).

(** A byte that starts no escape is written as it is. *)
Lemma escape_plain (c : ascii) (s : string) :
  is_html c = false -> (forall c1 c2 s3, s = String c1 (String c2 s3) -> separator_at c c1 c2 = false) ->
  escape_lit (String c s) = String c (escape_lit s).
Proof.
  intros Hc Hs. cbn [escape_lit]. rewrite Hc. destruct s as [|c1 [|c2 s3]]; [done..|].
  specialize (Hs c1 c2 s3 eq_refl). unfold separator_at in Hs. by rewrite Hs.
Qed.

Lemma escape_idem_n (n : nat) : forall s, (String.length s < n)%nat -> escape_lit (escape_lit s) = escape_lit s.
Proof.
  induction n as [|n IH]; intros s Hn; [lia|]. destruct s as [|c s]; [done|]. simpl in Hn.
  assert (escape_lit (escape_lit s) = escape_lit s) as Hs by (apply IH; lia).
  destruct (is_html c) eqn:Hc; [cbn [escape_lit]; rewrite Hc, escape_inert by apply u_escape_inert; by rewrite Hs|].
  assert ((exists c1 c2 s3, s = String c1 (String c2 s3) /\ separator_at c c1 c2 = true) \/
          ~ (exists c1 c2 s3, s = String c1 (String c2 s3) /\ separator_at c c1 c2 = true)) as Hdec.
  { destruct s as [|c1 [|c2 s3]]; [right; by intros (?&?&?&?&?)..|]. destruct (separator_at c c1 c2) eqn:E; [left; eauto|].
    right. intros (?&?&?&[= <- <- <-]&?). congruence. }
  destruct Hdec as [(c1 & c2 & s3 & -> & Hp)|Hno].
  - cbn [escape_lit]. rewrite Hc. unfold separator_at in Hp. rewrite Hp, escape_inert by apply u_escape_inert.
    rewrite IH; [done|]. simpl in Hn. lia.
  - rewrite escape_plain; [|done|].
    + rewrite escape_plain; [by rewrite Hs|done|]. intros c1 c2 s3 E. apply not_true_is_false. intros Hp. apply Hno.
      unfold separator_at in Hp. apply andb_true_iff in Hp as [Hp H2]. apply orb_true_iff in H2. to_prop.
      destruct (escape_first s _ _ E) as (s' & -> & E'); [lia|]. symmetry in E'. destruct (escape_first s' _ _ E') as (s'' & -> & _).
      { destruct H2; to_prop; lia. }
      exists c1, c2, s''. split; [done|]. unfold separator_at. rewrite !andb_true_iff, orb_true_iff, !Z.eqb_eq.
      split; [lia|]. destruct H2; to_prop; lia.
    + intros c1 c2 s3 ->. apply not_true_is_false. intros Hp. apply Hno. eauto.
Qed.

Lemma escape_idem (s : string) : escape_lit (escape_lit s) = escape_lit s.
Proof. apply (escape_idem_n (S (String.length s))). lia. Qed.

Lemma compact_idem (v : json) : compact (compact v) = compact v.
Proof.
  induction v as [| | |l|l IH|l IH] using json_nested_ind; try done; simpl.
  - by rewrite escape_idem.
  - f_equal. rewrite map_map. by apply map_ext_Forall.
  - f_equal. rewrite map_map. apply map_ext_Forall. eapply Forall_impl; [exact IH|]. intros kv H. simpl. by rewrite H, escape_idem.
Qed.

(** A rune that is neither ASCII nor a separator is written as it is. *)
Lemma escape_rune (e : string) (r : Z) (t : string) :
  is_rune e r -> high_bytes e -> is_line_separator r = false -> escape_lit (e +:+ t) = e +:+ escape_lit t.
Proof.
  intros [Hne He] Hb Hr. specialize (He t). destruct e as [|c e]; [done|]. destruct Hb as [Hc Hb]. rewrite app_cons in *.
  assert (inert e) as Hi.
  { eapply Forall_impl; [exact Hb|]. intros x Hx. simpl in Hx. unfold escapable, is_html. rewrite !orb_false_iff, Z.eqb_neq.
    repeat split; try lia; apply eqb_byte; [vm_compute (byte_of "<")|vm_compute (byte_of ">")|vm_compute (byte_of "&")]; lia. }
  rewrite escape_plain, escape_inert; [by rewrite app_cons|done| |].
  - unfold is_html. rewrite !orb_false_iff. repeat split; apply eqb_byte; [vm_compute (byte_of "<")|vm_compute (byte_of ">")|vm_compute (byte_of "&")]; lia.
  - intros c1 c2 s3 E. rewrite E in He. apply not_true_is_false. unfold separator_at. intros [H1 H2]%andb_true_iff. apply orb_true_iff in H2.
    to_prop. assert (byte_of c2 = 168 \/ byte_of c2 = 169) as H2' by (destruct H2; to_prop; auto). clear H2.
    rewrite rune_at_3 in He by (unfold second_ok; lia). injection He as He _. unfold is_line_separator in Hr. to_prop. lia.
Qed.

(** Quoted text holds nothing left to escape. *)
Lemma escape_quote (s : string) : utf8 s -> escape_lit (quote s) = quote s.
Proof.
  induction 1 as [|e r t Hr _ IH]; [done|]. rewrite (quote_rune _ _ _ Hr). pose proof (proj2 Hr EmptyString) as He.
  rewrite app_empty_r in He. destruct (rune_at_split _ _ _ He) as (e' & t' & Hs & Hl & _ & Hb).
  assert (e' = e) as ->.
  { rewrite Hs, length_app_str in Hl. destruct t'; [by rewrite app_empty_r in Hs|simpl in Hl; lia]. }
  destruct Hb as [(c & -> & Hc & _)|Hb].
  - simpl. rewrite (proj2 (Z.ltb_lt _ _) Hc), escape_inert by (by apply quote_byte_inert). by rewrite IH.
  - destruct e as [|c e]; [by destruct Hr|]. assert ((byte_of c <? 128) = false) as Hc by (apply Z.ltb_ge, Hb).
    destruct (is_line_separator r) eqn:El.
    + destruct e as [|x e]; [|rewrite escape_inert by apply u_escape_inert; by rewrite IH].
      pose proof (separator_bytes _ _ Hr El) as H. unfold is_line_separator in El. apply orb_true_iff in El as [H1|H1]; to_prop; by subst r.
    + destruct e as [|x e]; rewrite ?Hc, (escape_rune _ r) by done; by rewrite IH.
Qed.

(** A marshalled map is compact. *)
Lemma compact_marshal_map (m : gmap string json) : (forall k v, m !! k = Some v -> utf8 k) ->
  compact (marshal_map m) = marshal_map m.
Proof.
  intros Hm. unfold marshal_map. simpl. f_equal.
  assert (Forall utf8 (SortStrings (map fst (map_to_list m)))) as Hks.
  { rewrite Forall_forall. intros x [v Hv]%elem_of_sorted_keys. by eapply Hm. }
  induction Hks as [|k ks Hk _ IH]; [done|]. cbn [omap list_omap]. destruct (m !! k) as [v|]; simpl; [|exact IH].
  by rewrite escape_quote, compact_idem, IH.
Qed.

(** The names of an unmarshalled map are valid, its messages well-formed. *)
Lemma members_map_entries (l : list (string * json)) (k : string) (v : json) :
  members_map l !! k = Some v -> utf8 k /\ exists lit, (lit, v) ∈ l.
Proof.
  unfold members_map. cut (forall m0 : gmap string json,
    foldl (fun m kv => <[unquote kv.1 := kv.2]> m) m0 l !! k = Some v -> m0 !! k = Some v \/ utf8 k /\ exists lit, (lit, v) ∈ l).
  { intros H E. destruct (H _ E) as [E'|]; [|done]. by rewrite lookup_empty in E'. }
  induction l as [|[x w] l IH]; intros m0 E; [by left|]. apply IH in E as [E|(Hk & y & Hy)]; [|right; split; [done|]; exists y; by right].
  simpl in E. apply lookup_insert_Some in E as [[<- <-]|[_ E]]; [|by left].
  right. split; [apply utf8_unquote|]. exists x. by left.
Qed.

Lemma unmarshal_map_entries (d : Z) (x : json) (m : gmap string json) (k : string) (v : json) :
  good d x -> unmarshal_map (Some x) = MapOf m -> m !! k = Some v -> utf8 k /\ good (d + 1) v.
Proof.
  intros [Hw Hn] Hm Hk. destruct x as [| | | | |l]; try done. injection Hm as <-.
  apply members_map_entries in Hk as (Hu & y & Hy). split; [done|].
  apply wf_JObj in Hw. apply (nest_bound (fun kv : string * json => nesting kv.2)) in Hn. rewrite Forall_forall in Hw, Hn.
  split; [by apply (Hw (y, v))|by apply (Hn (y, v))].
Qed.
