(* ===== verification/RouterConfig.v ===== *)
(** * The router-proxy configuration (internal/router/config.go)

    The wire shape the controller writes and the proxy reads, its validation
    ([Config.Validate]) and the lookups on it.  Pointers are [option]s, maps are
    [gmap]s, a [time.Duration] is a nanosecond count and an error is a value of
    [config_error], one constructor per message of the source.
    [Validate] takes [httpguts.ValidHeaderFieldName], a third-party function, as
    an argument. *)

From stdpp Require Import base gmap strings list.
From Stdlib Require Import ZArith Lia Bool.
From S2P Require Import Prelude GoStrings GoFloat.

(** ** Data *)

Definition DefaultRouteStrategyStatic : string := "Static".
Definition DefaultRouteStrategyBackendNameMatch : string := "BackendNameMatch".

Record EndpointSource := {
  es_Namespace : string;
  es_Service : string;
  es_Port : Z;
}.

Definition BalancingRoundRobin : string := "RoundRobin".
Definition BalancingLoadAware : string := "LoadAware".
Definition minSessionIdleTimeout : Z := minute.
Definition maxSessionIdleTimeout : Z := 24 * hour.

Record Balancing := {
  bal_Mode : string;
  bal_SessionHeaders : list string;
  bal_SessionIdleTimeout : Z;
}.

Record MetricsProfile := {
  mp_Path : string;
  mp_Running : string;
  mp_Waiting : string;
  mp_KVUsage : string;
}.

Record TokenCost := {
  tc_PromptUSD : float64;
  tc_CompletionUSD : float64;
}.

Record BackendPool := {
  bp_Name : string;
  bp_Namespace : string;
  bp_Member : string;
  bp_Members : list string;
  bp_SwapBudget : Z;
}.

Record Backend := {
  be_Name : string;
  be_DisplayName : string;
  be_Tier : string;
  be_Address : string;
  be_Endpoints : list string;
  be_EndpointSource : option EndpointSource;
  be_Balancing : option Balancing;
  be_Metrics : option MetricsProfile;
  be_Provider : string;
  be_Model : string;
  be_ServedModel : string;
  be_InferenceService : string;
  be_Capabilities : list string;
  be_Weight : Z;
  be_CredentialsEnv : string;
  be_Timeout : Z;
  be_Pool : option BackendPool;
  be_CostPerMillionTokens : option TokenCost;
}.

Record RuleMatch := {
  rm_DataClassification : list string;
  rm_TaskComplexity : string;
  rm_RequiredCapabilities : list string;
  rm_Headers : gmap string string;
  rm_Models : list string;
}.

Record RuleRoute := {
  rr_Backends : list string;
  rr_Strategy : string;
  rr_PoolActivation : string;
}.

Definition PoolActivationWait : string := "Wait".
Definition PoolActivationIfIdle : string := "IfIdle".

Record Rule := {
  ru_Name : string;
  ru_Match : RuleMatch;
  ru_Route : RuleRoute;
  ru_FailClosed : bool;
  ru_Timeout : Z;
}.

Definition BudgetScopeRouter : string := "router".
Definition BudgetScopeRule : string := "rule".
Definition BudgetScopeTeam : string := "team".
Definition DefaultTeamHeaderKey : string := "x-llmkube-team".

Record Budget := {
  bu_Name : string;
  bu_Scope : string;
  bu_RuleName : string;
  bu_HeaderKey : string;
  bu_Window : Z;
  bu_MaxTokens : Z;
  bu_MaxUSD : float64;
}.

Record ClassificationPolicy := {
  cp_Mode : string;
  cp_HeaderKey : string;
  cp_Sensitive : list string;
}.

Record AuditLogPolicy := {
  al_Sink : string;
  al_FilePath : string;
  al_IncludeRequestBody : bool;
}.

Record Policy := {
  po_Classification : ClassificationPolicy;
  po_AuditLog : AuditLogPolicy;
  po_Budgets : list Budget;
}.

Record Config := {
  cfg_Backends : list Backend;
  cfg_Rules : list Rule;
  cfg_DefaultRoute : string;
  cfg_DefaultRouteStrategy : string;
  cfg_Policy : Policy;
}.

(** ** Lookups *)

Definition is_LoadAware (b : Backend) : bool :=
  match be_Balancing b with
  | Some bal => bool_decide (bal_Mode bal = BalancingLoadAware)
  | None => false
  end.

Definition HasLoadAware (c : Config) : bool := existsb is_LoadAware (cfg_Backends c).

Definition HasSessionAffinity (c : Config) : bool :=
  existsb (fun b => is_LoadAware b &&
                    match be_Balancing b with
                    | Some bal => negb (bool_decide (bal_SessionHeaders bal = []))
                    | None => false
                    end) (cfg_Backends c).

(** [Config.BackendByName]: the first backend with the name. *)
Definition BackendByName (c : Config) (name : string) : option Backend :=
  List.find (fun b => bool_decide (be_Name b = name)) (cfg_Backends c).

Definition SensitiveSet (c : Config) : gset string :=
  match cp_Sensitive (po_Classification (cfg_Policy c)) with
  | [] => {["pii"; "phi"]}
  | l => list_to_set l
  end.

Definition ClassificationHeader (c : Config) : string :=
  let h := TrimSpace (cp_HeaderKey (po_Classification (cfg_Policy c))) in
  if bool_decide (h = EmptyString) then "x-llmkube-classification" else h.

Definition pricesTokens (b : Backend) : bool :=
  match be_CostPerMillionTokens b with
  | Some c => fgt (tc_PromptUSD c) fzero || fgt (tc_CompletionUSD c) fzero
  | None => false
  end.

(** ** Validation *)

Inductive config_error :=
| ErrNoBackends
| ErrBackendNameRequired (i : nat)
| ErrBackendDuplicateName (i : nat) (name : string)
| ErrBackendTier (i : nat) (name tier : string)
| ErrBackendAddress (i : nat) (name : string)
| ErrBackendEndpointSource (i : nat) (name : string)
| ErrBalancingMode (i : nat) (name mode : string)
| ErrSessionIdleTimeout (i : nat) (name : string) (t : Z)
| ErrSessionHeader (i : nat) (name header : string)
| ErrMetricsProfile (i : nat) (name : string)
| ErrDefaultRoute (name : string)
| ErrDefaultRouteStrategy (s : string)
| ErrRuleNameRequired (i : nat)
| ErrRuleNoBackends (i : nat) (name : string)
| ErrRuleUnknownBackend (i : nat) (rule : string) (j : nat) (name : string)
| ErrRulePoolActivation (i : nat) (rule mode : string)
| ErrBudgetNameRequired (i : nat)
| ErrBudgetDuplicateName (i : nat) (name : string)
| ErrBudgetRuleNameRequired (i : nat) (name : string)
| ErrBudgetUnknownRule (i : nat) (name rule : string)
| ErrBudgetScope (i : nat) (name scope : string)
| ErrBudgetWindow (i : nat) (name : string)
| ErrBudgetNoCap (i : nat) (name : string)
| ErrBackendPricing (j : nat) (name : string).

Definition maxSessionHeaderNameLen : nat := 256.

Definition is_empty (s : string) : bool := bool_decide (s = EmptyString).
Definition is_nil {A} (l : list A) : bool := match l with [] => true | _ => false end.

Section Validate.
Context (ValidHeaderFieldName : string -> bool).

Fixpoint validateSessionHeaders (i : nat) (name : string) (hs : list string) : result config_error unit :=
  match hs with
  | [] => Ok tt
  | h :: hs' =>
      if (maxSessionHeaderNameLen <? String.length h)%nat || negb (ValidHeaderFieldName h)
      then Err (ErrSessionHeader i name h)
      else validateSessionHeaders i name hs'
  end.

Definition validateBalancing (i : nat) (b : Backend) : result config_error unit :=
  _ ← match be_Balancing b with
      | Some bal =>
          _ ← when (negb (bool_decide (bal_Mode bal ∈ [EmptyString; BalancingRoundRobin; BalancingLoadAware])))
                (ErrBalancingMode i (be_Name b) (bal_Mode bal));
          let t := bal_SessionIdleTimeout bal in
          _ ← when (negb (t =? 0) && ((t <? minSessionIdleTimeout) || (maxSessionIdleTimeout <? t)))
                (ErrSessionIdleTimeout i (be_Name b) t);
          validateSessionHeaders i (be_Name b) (bal_SessionHeaders bal)
      | None => Ok tt
      end;
  match be_Metrics b with
  | Some m => when (is_empty (mp_Path m) || is_empty (mp_Running m) || is_empty (mp_Waiting m))
                (ErrMetricsProfile i (be_Name b))
  | None => Ok tt
  end.

(** The body of the backend loop, under the names seen so far. *)
Definition validateBackend (names : gset string) (i : nat) (b : Backend) : result config_error unit :=
  _ ← when (is_empty (be_Name b)) (ErrBackendNameRequired i);
  _ ← when (bool_decide (be_Name b ∈ names)) (ErrBackendDuplicateName i (be_Name b));
  _ ← when (negb (bool_decide (be_Tier b = "local")) && negb (bool_decide (be_Tier b = "cloud")))
        (ErrBackendTier i (be_Name b) (be_Tier b));
  _ ← when (is_empty (be_Address b) && is_nil (be_Endpoints b)) (ErrBackendAddress i (be_Name b));
  _ ← match be_EndpointSource b with
      | Some s => when (is_empty (es_Namespace s) || is_empty (es_Service s) || (es_Port s <=? 0))
                    (ErrBackendEndpointSource i (be_Name b))
      | None => Ok tt
      end;
  validateBalancing i b.

Fixpoint validateBackends (names : gset string) (i : nat) (bs : list Backend) : result config_error (gset string) :=
  match bs with
  | [] => Ok names
  | b :: bs' =>
      _ ← validateBackend names i b;
      validateBackends ({[be_Name b]} ∪ names) (S i) bs'
  end.

Fixpoint validateRouteBackends (names : gset string) (i : nat) (rule : string) (j : nat) (l : list string)
  : result config_error unit :=
  match l with
  | [] => Ok tt
  | n :: l' =>
      _ ← when (negb (bool_decide (n ∈ names))) (ErrRuleUnknownBackend i rule j n);
      validateRouteBackends names i rule (S j) l'
  end.

Definition validateRule (names : gset string) (i : nat) (r : Rule) : result config_error unit :=
  _ ← when (is_empty (ru_Name r)) (ErrRuleNameRequired i);
  _ ← when (is_nil (rr_Backends (ru_Route r))) (ErrRuleNoBackends i (ru_Name r));
  _ ← validateRouteBackends names i (ru_Name r) 0 (rr_Backends (ru_Route r));
  when (negb (bool_decide (rr_PoolActivation (ru_Route r) ∈ [EmptyString; PoolActivationWait; PoolActivationIfIdle])))
    (ErrRulePoolActivation i (ru_Name r) (rr_PoolActivation (ru_Route r))).

Fixpoint validateRules (names ruleNames : gset string) (i : nat) (rs : list Rule)
  : result config_error (gset string) :=
  match rs with
  | [] => Ok ruleNames
  | r :: rs' =>
      _ ← validateRule names i r;
      validateRules names ({[ru_Name r]} ∪ ruleNames) (S i) rs'
  end.

Fixpoint validatePricing (j : nat) (bs : list Backend) : result config_error unit :=
  match bs with
  | [] => Ok tt
  | b :: bs' =>
      _ ← when (negb (pricesTokens b)) (ErrBackendPricing j (be_Name b));
      validatePricing (S j) bs'
  end.

Definition validateBudgetScope (ruleNames : gset string) (i : nat) (b : Budget) : result config_error unit :=
  if bool_decide (bu_Scope b = BudgetScopeRouter) || bool_decide (bu_Scope b = BudgetScopeTeam) then Ok tt
  else if bool_decide (bu_Scope b = BudgetScopeRule) then
    _ ← when (is_empty (bu_RuleName b)) (ErrBudgetRuleNameRequired i (bu_Name b));
    when (negb (bool_decide (bu_RuleName b ∈ ruleNames))) (ErrBudgetUnknownRule i (bu_Name b) (bu_RuleName b))
  else Err (ErrBudgetScope i (bu_Name b) (bu_Scope b)).

Fixpoint validateBudgets (bs : list Backend) (ruleNames seen : gset string) (i : nat) (l : list Budget)
  : result config_error unit :=
  match l with
  | [] => Ok tt
  | b :: l' =>
      _ ← when (is_empty (bu_Name b)) (ErrBudgetNameRequired i);
      _ ← when (bool_decide (bu_Name b ∈ seen)) (ErrBudgetDuplicateName i (bu_Name b));
      _ ← validateBudgetScope ruleNames i b;
      _ ← when (bu_Window b <=? 0) (ErrBudgetWindow i (bu_Name b));
      _ ← when ((bu_MaxTokens b <=? 0) && fle (bu_MaxUSD b) fzero) (ErrBudgetNoCap i (bu_Name b));
      _ ← (if fgt (bu_MaxUSD b) fzero then validatePricing 0 bs else Ok tt);
      validateBudgets bs ruleNames ({[bu_Name b]} ∪ seen) (S i) l'
  end.

(** [Config.Validate]. *)
Definition Validate (c : Config) : result config_error unit :=
  _ ← when (is_nil (cfg_Backends c)) ErrNoBackends;
  names ← validateBackends ∅ 0 (cfg_Backends c);
  _ ← when (negb (is_empty (cfg_DefaultRoute c)) && negb (bool_decide (cfg_DefaultRoute c ∈ names)))
        (ErrDefaultRoute (cfg_DefaultRoute c));
  _ ← when (negb (bool_decide (cfg_DefaultRouteStrategy c ∈
              [EmptyString; DefaultRouteStrategyStatic; DefaultRouteStrategyBackendNameMatch])))
        (ErrDefaultRouteStrategy (cfg_DefaultRouteStrategy c));
  ruleNames ← validateRules names ∅ 0 (cfg_Rules c);
  validateBudgets (cfg_Backends c) ruleNames ∅ 0 (po_Budgets (cfg_Policy c)).

End Validate.

(** ** What a valid configuration is *)

Definition balancing_ok (ValidHeaderFieldName : string -> bool) (bal : Balancing) : Prop :=
  bal_Mode bal ∈ [EmptyString; BalancingRoundRobin; BalancingLoadAware] /\
  (bal_SessionIdleTimeout bal = 0 \/
   minSessionIdleTimeout <= bal_SessionIdleTimeout bal <= maxSessionIdleTimeout) /\
  Forall (fun h => (String.length h <= maxSessionHeaderNameLen)%nat /\ ValidHeaderFieldName h = true)
         (bal_SessionHeaders bal).

Definition metrics_ok (m : MetricsProfile) : Prop :=
  mp_Path m ≠ EmptyString /\ mp_Running m ≠ EmptyString /\ mp_Waiting m ≠ EmptyString.

Definition source_ok (s : EndpointSource) : Prop :=
  es_Namespace s ≠ EmptyString /\ es_Service s ≠ EmptyString /\ 0 < es_Port s.

Definition all_in {A} (P : A -> Prop) (o : option A) : Prop :=
  match o with Some a => P a | None => True end.

Record backend_ok (v : string -> bool) (b : Backend) : Prop := {
  bo_name : be_Name b ≠ EmptyString;
  bo_tier : be_Tier b = "local" \/ be_Tier b = "cloud";
  bo_addr : be_Address b ≠ EmptyString \/ be_Endpoints b ≠ [];
  bo_source : all_in source_ok (be_EndpointSource b);
  bo_balancing : all_in (balancing_ok v) (be_Balancing b);
  bo_metrics : all_in metrics_ok (be_Metrics b);
}.

Record rule_ok (names : list string) (r : Rule) : Prop := {
  ro_name : ru_Name r ≠ EmptyString;
  ro_some : rr_Backends (ru_Route r) ≠ [];
  ro_known : Forall (fun n => n ∈ names) (rr_Backends (ru_Route r));
  ro_pool : rr_PoolActivation (ru_Route r) ∈ [EmptyString; PoolActivationWait; PoolActivationIfIdle];
}.

Record budget_ok (bs : list Backend) (rules : list string) (b : Budget) : Prop := {
  uo_name : bu_Name b ≠ EmptyString;
  uo_scope : bu_Scope b = BudgetScopeRouter \/ bu_Scope b = BudgetScopeTeam \/
             (bu_Scope b = BudgetScopeRule /\ bu_RuleName b ≠ EmptyString /\ bu_RuleName b ∈ rules);
  uo_window : 0 < bu_Window b;
  uo_cap : 0 < bu_MaxTokens b \/ fle (bu_MaxUSD b) fzero = false;
  uo_priced : fgt (bu_MaxUSD b) fzero = true -> Forall (fun be => pricesTokens be = true) bs;
}.

Record ValidConfig (v : string -> bool) (c : Config) : Prop := {
  vc_some : cfg_Backends c ≠ [];
  vc_backends : Forall (backend_ok v) (cfg_Backends c);
  vc_unique : NoDup (be_Name <$> cfg_Backends c);
  vc_default : cfg_DefaultRoute c = EmptyString \/ cfg_DefaultRoute c ∈ be_Name <$> cfg_Backends c;
  vc_strategy : cfg_DefaultRouteStrategy c ∈
      [EmptyString; DefaultRouteStrategyStatic; DefaultRouteStrategyBackendNameMatch];
  vc_rules : Forall (rule_ok (be_Name <$> cfg_Backends c)) (cfg_Rules c);
  vc_budgets : Forall (budget_ok (cfg_Backends c) (ru_Name <$> cfg_Rules c)) (po_Budgets (cfg_Policy c));
  vc_budget_names : NoDup (bu_Name <$> po_Budgets (cfg_Policy c));
}.

(** ** A concrete configuration

    Two backends, a fail-closed rule for sensitive data and a rule for one model
    family; the witnesses of the theorems on the router are stated on it. *)
Module Sample.

Definition backend (name tier : string) (pool : option BackendPool) (cost : option TokenCost) : Backend :=
  {| be_Name := name; be_DisplayName := EmptyString; be_Tier := tier;
     be_Address := "http://" +:+ name; be_Endpoints := []; be_EndpointSource := None;
     be_Balancing := None; be_Metrics := None; be_Provider := EmptyString;
     be_Model := EmptyString; be_ServedModel := EmptyString; be_InferenceService := EmptyString;
     be_Capabilities := ["chat"]; be_Weight := 0; be_CredentialsEnv := EmptyString;
     be_Timeout := 0; be_Pool := pool; be_CostPerMillionTokens := cost |}.

Definition rule (name : string) (class models backends : list string) (closed : bool) : Rule :=
  {| ru_Name := name;
     ru_Match := {| rm_DataClassification := class; rm_TaskComplexity := EmptyString;
                    rm_RequiredCapabilities := []; rm_Headers := ∅; rm_Models := models |};
     ru_Route := {| rr_Backends := backends; rr_Strategy := EmptyString; rr_PoolActivation := EmptyString |};
     ru_FailClosed := closed; ru_Timeout := 0 |}.

Definition budget (name scope : string) (window tokens : Z) : Budget :=
  {| bu_Name := name; bu_Scope := scope; bu_RuleName := EmptyString; bu_HeaderKey := EmptyString;
     bu_Window := window; bu_MaxTokens := tokens; bu_MaxUSD := fzero |}.

Definition policy (sensitive : list string) (budgets : list Budget) : Policy :=
  {| po_Classification := {| cp_Mode := "header-only"; cp_HeaderKey := EmptyString; cp_Sensitive := sensitive |};
     po_AuditLog := {| al_Sink := "stdout"; al_FilePath := EmptyString; al_IncludeRequestBody := false |};
     po_Budgets := budgets |}.

Definition config : Config :=
  {| cfg_Backends := [backend "llama" "local" None None; backend "gpt" "cloud" None None];
     cfg_Rules := [rule "phi" ["phi"] [] ["llama"] true;
                   rule "gpt" [] ["gpt-*"] ["gpt"; "llama"] false];
     cfg_DefaultRoute := "llama";
     cfg_DefaultRouteStrategy := DefaultRouteStrategyBackendNameMatch;
     cfg_Policy := policy [] [budget "hourly" BudgetScopeRouter hour 1000] |}.

End Sample.

(** ** Lemmas *)

Lemma is_empty_false (s : string) : is_empty s = false <-> s ≠ EmptyString.
Proof. unfold is_empty. by rewrite bool_decide_eq_false. Qed.

Lemma is_empty_true (s : string) : is_empty s = true <-> s = EmptyString.
Proof. unfold is_empty. by rewrite bool_decide_eq_true. Qed.

Lemma is_nil_false {A} (l : list A) : is_nil l = false <-> l ≠ [].
Proof. destruct l; simpl; split; congruence. Qed.

Lemma is_nil_true {A} (l : list A) : is_nil l = true <-> l = [].
Proof. destruct l; simpl; split; congruence. Qed.

#[export] Hint Rewrite is_empty_false is_empty_true @is_nil_false @is_nil_true : result.
#[export] Hint Rewrite orb_false_iff orb_true_iff andb_false_iff andb_true_iff negb_false_iff negb_true_iff : result.
#[export] Hint Rewrite @bool_decide_eq_true @bool_decide_eq_false : result.
#[export] Hint Rewrite Z.ltb_lt Z.ltb_ge Z.leb_le Z.leb_gt Z.eqb_eq Z.eqb_neq Nat.ltb_ge Nat.ltb_lt : result.

(** Rewrite every boolean test and bind of the goal into a proposition. *)
Ltac res := repeat first
  [ setoid_rewrite bind_Ok | setoid_rewrite when_Ok
  | progress autorewrite with result ].

Lemma ex_unit (P : unit -> Prop) : (exists u, P u) <-> P tt.
Proof. split; [intros [[] H]|intros H; exists tt]; done. Qed.

Section Proofs.
Context (v : string -> bool).

Lemma validateSessionHeaders_Ok (i : nat) (name : string) (hs : list string) :
  validateSessionHeaders v i name hs = Ok tt <->
  Forall (fun h => (String.length h <= maxSessionHeaderNameLen)%nat /\ v h = true) hs.
Proof.
  induction hs as [|h hs IH]; simpl; [split; auto|].
  rewrite Forall_cons, <- IH.
  destruct (_ || _) eqn:E; autorewrite with result in E.
  - split; [discriminate|]. intros [[H1 H2] _]. destruct E; [lia|congruence].
  - tauto.
Qed.

Lemma validateBalancing_Ok (i : nat) (b : Backend) :
  validateBalancing v i b = Ok tt <->
  all_in (balancing_ok v) (be_Balancing b) /\ all_in metrics_ok (be_Metrics b).
Proof.
  unfold validateBalancing, balancing_ok, metrics_ok.
  rewrite bind_Ok, ex_unit. f_equiv.
  - destruct (be_Balancing b) as [bal|]; simpl; [|tauto].
    rewrite !bind_Ok, !ex_unit. rewrite bind_Ok, ex_unit, !when_Ok, validateSessionHeaders_Ok.
    autorewrite with result. destruct (decide (bal_SessionIdleTimeout bal = 0)); intuition lia.
  - destruct (be_Metrics b) as [m|]; simpl; [|tauto].
    rewrite when_Ok. autorewrite with result. tauto.
Qed.

Lemma validateBackend_Ok (names : gset string) (i : nat) (b : Backend) :
  validateBackend v names i b = Ok tt <-> backend_ok v b /\ be_Name b ∉ names.
Proof.
  unfold validateBackend. rewrite !bind_Ok, !ex_unit, !when_Ok.
  repeat (rewrite bind_Ok, ex_unit). rewrite !when_Ok, validateBalancing_Ok.
  assert (Hs : match be_EndpointSource b with
               | Some s => when (is_empty (es_Namespace s) || is_empty (es_Service s) || (es_Port s <=? 0))
                             (ErrBackendEndpointSource i (be_Name b))
               | None => Ok tt
               end = Ok tt <-> all_in source_ok (be_EndpointSource b)).
  { destruct (be_EndpointSource b) as [s|]; simpl; [|tauto].
    rewrite when_Ok. autorewrite with result. unfold source_ok. tauto. }
  rewrite Hs. autorewrite with result. split.
  - intros (H1 & H2 & H3 & H4 & H5 & H6 & H7). split; [split|]; auto.
  - intros [[] ?]. split_and!; auto.
Qed.

Lemma validateBackends_Ok (names out : gset string) (i : nat) (bs : list Backend) :
  validateBackends v names i bs = Ok out <->
  out = list_to_set (be_Name <$> bs) ∪ names /\ Forall (backend_ok v) bs /\
  NoDup (be_Name <$> bs) /\ Forall (fun n => n ∉ names) (be_Name <$> bs).
Proof.
  revert names i; induction bs as [|b bs IH]; intros names i; simpl.
  - split; [intros [= <-]; split_and!; [set_solver|constructor..]|].
    intros (-> & _). f_equal. set_solver.
  - rewrite bind_Ok, ex_unit, validateBackend_Ok, IH, !Forall_cons, NoDup_cons.
    rewrite !Forall_forall. split.
    + intros ([Hb Hn] & -> & Hbs & Hnd & Hall). split_and!; auto; set_solver.
    + intros (-> & [Hb Hbs] & [Hni Hnd] & Hn & Hall). split_and!; auto; set_solver.
Qed.

Lemma validateRouteBackends_Ok (names : gset string) (i : nat) (rule : string) (j : nat) (l : list string) :
  validateRouteBackends names i rule j l = Ok tt <-> Forall (fun n => n ∈ names) l.
Proof.
  revert j; induction l as [|n l IH]; intros j; simpl; [split; auto|].
  rewrite bind_Ok, ex_unit, when_Ok, IH, Forall_cons. by autorewrite with result.
Qed.

Lemma validateRule_Ok (names : list string) (i : nat) (r : Rule) :
  validateRule (list_to_set names) i r = Ok tt <-> rule_ok names r.
Proof.
  unfold validateRule. rewrite bind_Ok, ex_unit. rewrite bind_Ok, ex_unit.
  rewrite bind_Ok, ex_unit, !when_Ok, validateRouteBackends_Ok. autorewrite with result.
  rewrite !Forall_forall. split.
  - intros (? & ? & H & ?). split; auto. rewrite Forall_forall. set_solver.
  - intros [? ? H ?]. rewrite Forall_forall in H. split_and!; auto. set_solver.
Qed.

Lemma validateRules_Ok (names : list string) (seen out : gset string) (i : nat) (rs : list Rule) :
  validateRules (list_to_set names) seen i rs = Ok out <->
  out = list_to_set (ru_Name <$> rs) ∪ seen /\ Forall (rule_ok names) rs.
Proof.
  revert seen i; induction rs as [|r rs IH]; intros seen i; simpl.
  - split; [intros [= <-]; split; [set_solver|constructor]|]. intros (-> & _). f_equal. set_solver.
  - rewrite bind_Ok, ex_unit, validateRule_Ok, IH, Forall_cons. split.
    + intros (Hr & -> & Hrs). split_and!; auto. set_solver.
    + intros (-> & Hr & Hrs). split_and!; auto. set_solver.
Qed.

Lemma validatePricing_Ok (j : nat) (bs : list Backend) :
  validatePricing j bs = Ok tt <-> Forall (fun b => pricesTokens b = true) bs.
Proof.
  revert j; induction bs as [|b bs IH]; intros j; simpl; [split; auto|].
  rewrite bind_Ok, ex_unit, when_Ok, IH, Forall_cons. by autorewrite with result.
Qed.

Lemma validateBudgetScope_Ok (rules : list string) (i : nat) (b : Budget) :
  validateBudgetScope (list_to_set rules) i b = Ok tt <->
  bu_Scope b = BudgetScopeRouter \/ bu_Scope b = BudgetScopeTeam \/
  (bu_Scope b = BudgetScopeRule /\ bu_RuleName b ≠ EmptyString /\ bu_RuleName b ∈ rules).
Proof.
  unfold validateBudgetScope. case_if; autorewrite with result in *; [tauto|].
  case_if; autorewrite with result in *; [|split; [discriminate|tauto]].
  rewrite ex_unit, !when_Ok. autorewrite with result.
  rewrite elem_of_list_to_set. tauto.
Qed.

Lemma validateBudgets_Ok (bs : list Backend) (rules : list string) (seen : gset string) (i : nat) (l : list Budget) :
  validateBudgets bs (list_to_set rules) seen i l = Ok tt <->
  Forall (budget_ok bs rules) l /\ NoDup (bu_Name <$> l) /\ Forall (fun n => n ∉ seen) (bu_Name <$> l).
Proof.
  revert seen i; induction l as [|b l IH]; intros seen i; simpl; [split; auto using NoDup_nil_2|].
  do 6 (rewrite bind_Ok, ex_unit).
  rewrite !when_Ok, validateBudgetScope_Ok, IH, !Forall_cons, NoDup_cons. autorewrite with result.
  assert (Hp : (if fgt (bu_MaxUSD b) fzero then validatePricing 0 bs else Ok tt) = Ok tt <->
               (fgt (bu_MaxUSD b) fzero = true -> Forall (fun be => pricesTokens be = true) bs)).
  { destruct (fgt _ _); [rewrite validatePricing_Ok; tauto|split; congruence]. }
  rewrite Hp, !Forall_forall. split.
  - intros (H1 & H2 & H3 & H4 & H5 & H6 & H7 & H8 & H9). clear IH Hp. split_and!; auto.
    + split; auto. by rewrite Forall_forall.
    + clear -H9. intros H. specialize (H9 _ H). set_solver.
    + clear -H9. intros x H. specialize (H9 _ H). set_solver.
  - intros ([[] H7] & [H8 H9] & H10 & H11). rewrite Forall_forall in uo_priced0. clear IH Hp.
    split_and!; auto. clear -H8 H11. intros x H. specialize (H11 _ H).
    rewrite elem_of_union, elem_of_singleton. intros [->|?]; done.
Qed.

(** [Validate] accepts exactly the valid configurations. *)
Lemma Validate_Ok (c : Config) : Validate v c = Ok tt <-> ValidConfig v c.
Proof.
  unfold Validate. rewrite bind_Ok, ex_unit, when_Ok, bind_Ok. autorewrite with result.
  split.
  - intros (Hne & names & Hb & H). apply validateBackends_Ok in Hb as (-> & Hbs & Hnd & _).
    rewrite bind_Ok, ex_unit, when_Ok in H. destruct H as [Hd H].
    rewrite bind_Ok, ex_unit, when_Ok in H. destruct H as [Hs H].
    rewrite bind_Ok in H. destruct H as (rn & Hr & Hu). rewrite union_empty_r_L in Hr, Hd.
    apply validateRules_Ok in Hr as (-> & Hr). rewrite union_empty_r_L in Hu.
    apply validateBudgets_Ok in Hu as (Hu & Hun & _). autorewrite with result in *.
    rewrite elem_of_list_to_set in Hd. split; auto.
  - intros [Hne Hbs Hnd Hd Hs Hr Hu Hun]. split; [done|].
    exists (list_to_set (be_Name <$> cfg_Backends c) ∪ ∅). split.
    { apply validateBackends_Ok. split_and!; auto. rewrite Forall_forall. set_solver. }
    rewrite union_empty_r_L, bind_Ok, ex_unit, when_Ok. split.
    { autorewrite with result. by rewrite elem_of_list_to_set. }
    rewrite bind_Ok, ex_unit, when_Ok. split; [by autorewrite with result|].
    rewrite bind_Ok. exists (list_to_set (ru_Name <$> cfg_Rules c) ∪ ∅). split.
    { by apply validateRules_Ok. }
    rewrite union_empty_r_L. apply validateBudgets_Ok. split_and!; auto.
    rewrite Forall_forall. set_solver.
Qed.

End Proofs.

(** [Config.Validate] returns nil exactly on the configurations that satisfy
    the declarative well-formedness predicate: at least one backend, unique and
    non-empty backend names, a known tier, an address or endpoint list, well-formed
    endpoint source, balancing and metrics, a known default route and strategy,
    rules that name at least one backend and only known ones with a known pool
    activation, and uniquely named budgets with a known scope, a positive window,
    a cap, and a price on every backend when the cap is in dollars. *)
Lemma Validate_exact (ValidHeaderFieldName : string -> bool) (c : Config) :
  Validate ValidHeaderFieldName c = Ok tt <-> ValidConfig ValidHeaderFieldName c.
Proof. apply Validate_Ok. Qed.
