(* ===== verification/RouterMatch.v ===== *)
(** * Rule matching (internal/router/match.go)

    Which backends a request may be dispatched to: the first rule whose match
    block accepts the request, else the backend its model names, else the
    default route. *)

From stdpp Require Import base gmap strings list.
From Stdlib Require Import ZArith Lia Bool.
From S2P Require Import Prelude GoStrings GoFloat RouterConfig.

(** ** Data *)

Record RequestFeatures := {
  rf_Model : string;
  rf_Classification : string;
  rf_TaskComplexity : string;
  rf_Headers : gmap string string;
}.

Record MatchResult := {
  mr_Rule : option Rule;
  mr_Backends : list string;
  mr_Strategy : string;
  mr_FailClosed : bool;
  mr_PoolActivation : string;
}.

Record Matcher := {
  m_cfg : Config;
  m_backendsByName : gmap string Backend;
}.

Definition strategyPrimaryFallback : string := "primary-fallback".
Definition strategyWeighted : string := "weighted".
Definition strategyShadow : string := "shadow".

(** ** Operations *)

Definition NewMatcher (cfg : Config) : Matcher :=
  {| m_cfg := cfg;
     m_backendsByName := foldl (fun m b => <[be_Name b := b]> m) ∅ (cfg_Backends cfg) |}.

Definition publishedID (b : Backend) : string :=
  if bool_decide (be_DisplayName b = EmptyString) then be_Name b else be_DisplayName b.

(** [Matcher.BackendByName]: the cached lookup. *)
Definition Matcher_BackendByName (m : Matcher) (name : string) : option Backend :=
  m_backendsByName m !! name.

Definition backendByPublishedID (m : Matcher) (id : string) : option Backend :=
  List.find (fun b => bool_decide (publishedID b = id)) (cfg_Backends (m_cfg m)).

Definition strategyOrDefault (s : string) : string :=
  if bool_decide (s = EmptyString) then strategyPrimaryFallback else s.

Definition contains (haystack : list string) (needle : string) : bool :=
  existsb (fun s => bool_decide (s = needle)) haystack.

Definition matchModels (patterns : list string) (model : string) : bool :=
  match patterns with
  | [] => true
  | _ =>
      if bool_decide (model = EmptyString)
      then existsb (fun p => bool_decide (p = "*")) patterns
      else existsb (fun p => match PathMatch.Match p model with Some ok => ok | None => false end) patterns
  end.

Definition matchHeaders (want have : gmap string string) : bool :=
  forallb (fun kv => bool_decide (have !! ToLower kv.1 = Some kv.2)) (map_to_list want).

Definition hasAllCapabilities (have want : list string) : bool :=
  forallb (fun w => bool_decide (w ∈ (list_to_set have : gset string))) want.

Definition satisfiesRequiredCapabilities (m : Matcher) (required backendNames : list string) : bool :=
  match required with
  | [] => true
  | _ =>
      existsb (fun name => match m_backendsByName m !! name with
                        | Some b => hasAllCapabilities (be_Capabilities b) required
                        | None => false
                        end) backendNames
  end.

Definition ruleMatches (m : Matcher) (rule : Rule) (f : RequestFeatures) : bool :=
  let mt := ru_Match rule in
  if negb (is_nil (rm_DataClassification mt)) && negb (contains (rm_DataClassification mt) (rf_Classification f))
  then false
  else if negb (bool_decide (rm_TaskComplexity mt = EmptyString))
          && negb (bool_decide (rm_TaskComplexity mt = rf_TaskComplexity f))
  then false
  else if negb (matchModels (rm_Models mt) (rf_Model f)) then false
  else if negb (matchHeaders (rm_Headers mt) (rf_Headers f)) then false
  else satisfiesRequiredCapabilities m (rm_RequiredCapabilities mt) (rr_Backends (ru_Route rule)).

Definition rule_result (rule : Rule) : MatchResult :=
  {| mr_Rule := Some rule;
     mr_Backends := rr_Backends (ru_Route rule);
     mr_Strategy := strategyOrDefault (rr_Strategy (ru_Route rule));
     mr_FailClosed := ru_FailClosed rule;
     mr_PoolActivation := rr_PoolActivation (ru_Route rule) |}.

(** The decision that dispatches to one backend without a rule. *)
Definition direct_result (name : string) : MatchResult :=
  {| mr_Rule := None;
     mr_Backends := [name];
     mr_Strategy := strategyPrimaryFallback;
     mr_FailClosed := false;
     mr_PoolActivation := EmptyString |}.

Definition empty_result : MatchResult :=
  {| mr_Rule := None; mr_Backends := []; mr_Strategy := EmptyString;
     mr_FailClosed := false; mr_PoolActivation := EmptyString |}.

(** The fallback of [Matcher.Match] when no rule accepted the request. *)
Definition matchDefault (m : Matcher) (f : RequestFeatures) : MatchResult :=
  let named :=
    if bool_decide (cfg_DefaultRouteStrategy (m_cfg m) = DefaultRouteStrategyBackendNameMatch)
       && negb (bool_decide (rf_Model f = EmptyString))
    then backendByPublishedID m (rf_Model f) else None in
  match named with
  | Some b => direct_result (be_Name b)
  | None =>
      if bool_decide (cfg_DefaultRoute (m_cfg m) = EmptyString) then empty_result
      else direct_result (cfg_DefaultRoute (m_cfg m))
  end.

(** [Matcher.Match]. *)
Definition Match (m : Matcher) (f : RequestFeatures) : MatchResult :=
  match List.find (fun r => ruleMatches m r f) (cfg_Rules (m_cfg m)) with
  | Some rule => rule_result rule
  | None => matchDefault m f
  end.

(** ** Specification *)

(** What a match block asks of a request, dimension by dimension. *)
Record rule_accepts (cfg : Config) (r : Rule) (f : RequestFeatures) : Prop := {
  ra_class : rm_DataClassification (ru_Match r) = [] \/
             rf_Classification f ∈ rm_DataClassification (ru_Match r);
  ra_task : rm_TaskComplexity (ru_Match r) = EmptyString \/
            rm_TaskComplexity (ru_Match r) = rf_TaskComplexity f;
  ra_models : rm_Models (ru_Match r) = [] \/
              (exists p, p ∈ rm_Models (ru_Match r) /\
                 if decide (rf_Model f = EmptyString) then p = "*"
                 else PathMatch.Match p (rf_Model f) = Some true);
  ra_headers : forall k v, rm_Headers (ru_Match r) !! k = Some v ->
                      rf_Headers f !! ToLower k = Some v;
  ra_caps : rm_RequiredCapabilities (ru_Match r) = [] \/
            (exists b, b ∈ cfg_Backends cfg /\ be_Name b ∈ rr_Backends (ru_Route r) /\
               rm_RequiredCapabilities (ru_Match r) ⊆ be_Capabilities b);
}.

(** ** Lemmas *)

Lemma contains_true (l : list string) (x : string) : contains l x = true <-> x ∈ l.
Proof.
  unfold contains. rewrite existsb_exists. setoid_rewrite bool_decide_eq_true.
  setoid_rewrite <- list_elem_of_In. split; [by intros (y & ? & ->)|eauto].
Qed.

(** With unique names the cached map and the linear scan agree. *)
Lemma Matcher_BackendByName_scan (c : Config) (name : string) :
  NoDup (be_Name <$> cfg_Backends c) ->
  Matcher_BackendByName (NewMatcher c) name = BackendByName c name.
Proof.
  intros H. unfold Matcher_BackendByName, NewMatcher, BackendByName; simpl.
  rewrite (foldl_insert_lookup be_Name) by done. by destruct (List.find _ _).
Qed.

Lemma BackendByName_Some (c : Config) (name : string) (b : Backend) :
  BackendByName c name = Some b -> b ∈ cfg_Backends c /\ be_Name b = name.
Proof.
  intros H. apply find_some in H as [Hin Hn].
  apply bool_decide_eq_true in Hn. by rewrite list_elem_of_In.
Qed.

Lemma BackendByName_is_Some (c : Config) (name : string) :
  name ∈ be_Name <$> cfg_Backends c -> exists b, BackendByName c name = Some b.
Proof.
  intros H. destruct (BackendByName c name) as [b|] eqn:E; [eauto|].
  apply find_None_iff in E. rewrite Forall_forall in E.
  apply list_elem_of_fmap in H as (b & -> & Hb). specialize (E b Hb).
  by rewrite bool_decide_eq_false in E.
Qed.

Lemma BackendByName_elem (c : Config) (b : Backend) :
  NoDup (be_Name <$> cfg_Backends c) -> b ∈ cfg_Backends c -> BackendByName c (be_Name b) = Some b.
Proof.
  apply find_elem_nodup.
Qed.

Lemma matchModels_true (ps : list string) (model : string) :
  matchModels ps model = true <->
  ps = [] \/ exists p, p ∈ ps /\ if decide (model = EmptyString) then p = "*"
                         else PathMatch.Match p model = Some true.
Proof.
  unfold matchModels. destruct ps as [|p0 ps]; [tauto|].
  assert (p0 :: ps ≠ []) as Hne by done. generalize dependent (p0 :: ps). intros l Hne.
  case_bool_decide as Hm; rewrite existsb_exists; setoid_rewrite <- list_elem_of_In;
    destruct (decide (model = EmptyString)); try done.
  - setoid_rewrite bool_decide_eq_true. naive_solver.
  - split.
    + intros (p & Hp & H). right. exists p. split; [done|].
      destruct (PathMatch.Match p model) as [[]|]; done.
    + intros [H|(p & Hp & H)]; [done|]. exists p. by rewrite H.
Qed.

Lemma matchHeaders_true (want have : gmap string string) :
  matchHeaders want have = true <->
  forall k v, want !! k = Some v -> have !! ToLower k = Some v.
Proof.
  unfold matchHeaders. rewrite forallb_forall. split.
  - intros H k v Hk. apply elem_of_map_to_list in Hk. apply list_elem_of_In in Hk.
    specialize (H _ Hk). by apply bool_decide_eq_true in H.
  - intros H [k v] Hk. apply bool_decide_eq_true. apply H.
    by apply elem_of_map_to_list, list_elem_of_In.
Qed.

Lemma hasAllCapabilities_true (have want : list string) :
  hasAllCapabilities have want = true <-> want ⊆ have.
Proof.
  unfold hasAllCapabilities. rewrite forallb_forall. setoid_rewrite bool_decide_eq_true.
  setoid_rewrite elem_of_list_to_set. setoid_rewrite <- list_elem_of_In. done.
Qed.

Lemma satisfiesRequiredCapabilities_true (c : Config) (req names : list string) :
  NoDup (be_Name <$> cfg_Backends c) ->
  satisfiesRequiredCapabilities (NewMatcher c) req names = true <->
  req = [] \/ exists b, b ∈ cfg_Backends c /\ be_Name b ∈ names /\ req ⊆ be_Capabilities b.
Proof.
  intros Hnd. unfold satisfiesRequiredCapabilities. destruct req as [|r0 req]; [tauto|].
  assert (r0 :: req ≠ []) as Hne by done. generalize dependent (r0 :: req). intros l Hne.
  rewrite existsb_exists. setoid_rewrite <- list_elem_of_In.
  setoid_rewrite (Matcher_BackendByName_scan c _ Hnd). split.
  - intros (n & Hn & H). right. destruct (BackendByName c n) as [b|] eqn:E; [|done].
    apply BackendByName_Some in E as [Hb <-]. apply hasAllCapabilities_true in H. eauto.
  - intros [H|(b & Hb & Hn & Hc)]; [done|]. exists (be_Name b). split; [done|].
    rewrite BackendByName_elem by done. by apply hasAllCapabilities_true.
Qed.

Lemma ruleMatches_true (c : Config) (r : Rule) (f : RequestFeatures) :
  NoDup (be_Name <$> cfg_Backends c) ->
  ruleMatches (NewMatcher c) r f = true <-> rule_accepts c r f.
Proof.
  intros Hnd. unfold ruleMatches.
  transitivity
    ((rm_DataClassification (ru_Match r) = [] \/ rf_Classification f ∈ rm_DataClassification (ru_Match r)) /\
     (rm_TaskComplexity (ru_Match r) = EmptyString \/ rm_TaskComplexity (ru_Match r) = rf_TaskComplexity f) /\
     matchModels (rm_Models (ru_Match r)) (rf_Model f) = true /\
     matchHeaders (rm_Headers (ru_Match r)) (rf_Headers f) = true /\
     satisfiesRequiredCapabilities (NewMatcher c) (rm_RequiredCapabilities (ru_Match r))
       (rr_Backends (ru_Route r)) = true).
  - rewrite <- contains_true. destruct (rm_DataClassification (ru_Match r)), (contains _ _);
      do 2 case_bool_decide; destruct (matchModels _ _), (matchHeaders _ _); simpl;
      intuition congruence.
  - rewrite matchModels_true, matchHeaders_true, satisfiesRequiredCapabilities_true by done.
    split; [intros (?&?&?&?&?); by split | intros []; done].
Qed.

(** Where a configuration's routing can send a request that no rule accepts. *)
Lemma matchDefault_known (v : string -> bool) (c : Config) (f : RequestFeatures) :
  ValidConfig v c ->
  Forall (fun n => n ∈ be_Name <$> cfg_Backends c) (mr_Backends (matchDefault (NewMatcher c) f)).
Proof.
  intros [_ _ _ Hd _ _ _ _]. unfold matchDefault.
  match goal with |- context [match ?o with Some _ => _ | None => _ end] => destruct o as [b|] eqn:E end; simpl.
  - apply Forall_singleton. case_if; [|done]. apply find_some in E as [E _].
    apply list_elem_of_fmap. exists b. split; [done|]. by apply list_elem_of_In.
  - clear E. case_bool_decide; simpl; [constructor|]. apply Forall_singleton. naive_solver.
Qed.

Lemma Match_known (v : string -> bool) (c : Config) (f : RequestFeatures) :
  ValidConfig v c ->
  Forall (fun n => n ∈ be_Name <$> cfg_Backends c) (mr_Backends (Match (NewMatcher c) f)).
Proof.
  intros Hv. unfold Match. destruct (List.find _ _) as [r|] eqn:E.
  - apply find_some in E as [E _]. apply list_elem_of_In in E. simpl in E.
    pose proof (vc_rules _ _ Hv) as Hr. rewrite Forall_forall in Hr.
    simpl. apply (ro_known _ _ (Hr _ E)).
  - eapply matchDefault_known; eauto.
Qed.

Lemma Match_first (c : Config) (f : RequestFeatures) (d : MatchResult) :
  NoDup (be_Name <$> cfg_Backends c) ->
  Match (NewMatcher c) f = d <->
  (exists pre r post, cfg_Rules c = pre ++ r :: post /\ rule_accepts c r f /\
     Forall (fun r' => ~ rule_accepts c r' f) pre /\ d = rule_result r) \/
  (Forall (fun r => ~ rule_accepts c r f) (cfg_Rules c) /\ d = matchDefault (NewMatcher c) f).
Proof.
  intros Hnd.
  assert (Hiff : forall r, ruleMatches (NewMatcher c) r f = false <-> ~ rule_accepts c r f).
  { intros r. rewrite <- ruleMatches_true by done. destruct (ruleMatches _ _ _); naive_solver. }
  unfold Match; simpl. split.
  - intros <-. destruct (List.find _ _) as [r|] eqn:E.
    + apply find_Some_iff in E as (pre & post & Heq & Hr & Hpre). left. exists pre, r, post.
      rewrite <- ruleMatches_true by done. split_and!; auto.
      eapply Forall_impl; [exact Hpre|]. intros; by apply Hiff.
    + apply find_None_iff in E. right. split; [|done].
      eapply Forall_impl; [exact E|]. intros; by apply Hiff.
  - intros [(pre & r & post & Heq & Hr & Hpre & ->)|[Hall ->]].
    + enough (List.find (fun r0 => ruleMatches (NewMatcher c) r0 f) (cfg_Rules c) = Some r) as -> by done.
      apply find_Some_iff. exists pre, post. rewrite ruleMatches_true by done. split_and!; auto.
      eapply Forall_impl; [exact Hpre|]. intros; by apply Hiff.
    + enough (List.find (fun r0 => ruleMatches (NewMatcher c) r0 f) (cfg_Rules c) = None) as -> by done.
      apply find_None_iff. eapply Forall_impl; [exact Hall|]. intros; by apply Hiff.
Qed.

(** ** Properties *)

(** [Matcher.Match] decides by the first rule, in declared order, whose match
    block accepts the request in every dimension it declares (classification, task
    complexity, model globs, headers up to key case, capabilities of some routed
    backend); the rule's route is returned with its fail-closed flag and pool
    activation, and the default route is taken exactly when no rule accepts. *)
Lemma Match_first_rule (c : Config) (f : RequestFeatures) (d : MatchResult) :
  NoDup (be_Name <$> cfg_Backends c) ->
  Match (NewMatcher c) f = d <->
  (exists pre r post, cfg_Rules c = pre ++ r :: post /\ rule_accepts c r f /\
     Forall (fun r' => ~ rule_accepts c r' f) pre /\ d = rule_result r) \/
  (Forall (fun r => ~ rule_accepts c r f) (cfg_Rules c) /\ d = matchDefault (NewMatcher c) f).
Proof. apply Match_first. Qed.

Definition sample_request (model class : string) : RequestFeatures :=
  {| rf_Model := model; rf_Classification := class; rf_TaskComplexity := EmptyString; rf_Headers := ∅ |}.

(** Under a validated configuration every backend name the matcher returns
    resolves, through the cached map, to a configured backend of that name: the
    dispatcher never sees an unknown name. *)
Lemma Match_backends_resolve (v : string -> bool) (c : Config) (f : RequestFeatures) (name : string) :
  Validate v c = Ok tt ->
  name ∈ mr_Backends (Match (NewMatcher c) f) ->
  exists b, Matcher_BackendByName (NewMatcher c) name = Some b /\ b ∈ cfg_Backends c /\ be_Name b = name.
Proof.
  intros Hv Hn. apply Validate_Ok in Hv. pose proof (Match_known v c f Hv) as Hk.
  rewrite Forall_forall in Hk. destruct (BackendByName_is_Some c name (Hk _ Hn)) as [b Hb].
  exists b. rewrite Matcher_BackendByName_scan by apply Hv. split; [done|].
  by apply BackendByName_Some.
Qed.

(** The prefix globs that rules use mean what they say: a non-empty model
    matches the pattern list [[p*]] for a literal [p] exactly when it starts with
    [p] and the rest has no slash, since [path.Match] stops [*] at separators. *)
Lemma matchModels_prefix_glob (p model : string) :
  GlobFacts.literal p = true -> model ≠ EmptyString ->
  matchModels [p +:+ "*"] model =
  match CutPrefix model p with
  | Some rest => negb (ContainsByte rest PathMatch.slash)
  | None => false
  end.
Proof.
  intros Hp Hm. unfold matchModels. rewrite bool_decide_eq_false_2 by done. simpl.
  rewrite GlobFacts.Match_prefix_star by done. destruct (CutPrefix model p); by rewrite orb_false_r.
Qed.
