(* ===== verification/RouterBudget.v ===== *)
(** * Budgets (internal/router/budget.go, and the scope keys of proxy.go)

    The rolling-window accounting engine: rules keyed by scope, one-second usage
    buckets per concrete scope key, the admission check, the charge and the
    snapshot.  The clock the source injects is an argument of each operation.
    The specification is a ledger that remembers every charge: the bucketed
    counters refine it. *)

From stdpp Require Import base gmap strings list sorting.
From Stdlib Require Import ZArith Lia Bool.
From S2P Require Import Prelude GoStrings GoFloat RouterConfig RouterMatch.

(** ** Data *)

Record BudgetRule := {
  br_Name : string;
  br_ScopeKey : string;
  br_MaxTokens : Z;
  br_MaxUSD : float64;
  br_Window : Z;
}.

Record BudgetUsage := {
  us_Name : string;
  us_ScopeKey : string;
  us_UsedTokens : Z;
  us_UsedUSD : float64;
  us_MaxTokens : Z;
  us_MaxUSD : float64;
  us_Window : Z;
}.

Record bucket := {
  bk_start : Z;
  bk_tokens : Z;
  bk_usd : float64;
}.

Record BudgetStore := {
  st_rules : gmap string BudgetRule;
  st_buckets : gmap string (list bucket);
}.

Definition bucketDuration : Z := second.

(** ** The engine *)

Definition NewBudgetStore (rules : list BudgetRule) : BudgetStore :=
  {| st_rules := foldl (fun m r => <[br_ScopeKey r := r]> m) ∅ rules; st_buckets := ∅ |}.

(** The header name of a concrete team key [team:<headerKey>:<value>]. *)
Definition teamHeaderKey (sk : string) : option string :=
  match CutPrefix sk "team:" with
  | None => None
  | Some rest =>
      match CutByte rest colon with
      | Some (hk, value) => if is_empty hk || is_empty value then None else Some hk
      | None => None
      end
  end.

Definition ruleFor (s : BudgetStore) (sk : string) : option BudgetRule :=
  match st_rules s !! sk with
  | Some r => Some r
  | None =>
      match teamHeaderKey sk with
      | Some hk => st_rules s !! ("team:" +:+ hk)
      | None => None
      end
  end.

Definition bucketsOf (s : BudgetStore) (sk : string) : list bucket :=
  default [] (st_buckets s !! sk).

(** The scan of [usedInWindow]: tokens, dollars and the oldest start so far. *)
Fixpoint scanWindow (windowStart : Z) (bkts : list bucket) (tokens : Z) (usd : float64) (oldest : Z)
    : Z * float64 * Z :=
  match bkts with
  | [] => (tokens, usd, oldest)
  | b :: bkts' =>
      if windowStart <? bk_start b then
        scanWindow windowStart bkts' (tokens +64 bk_tokens b)%go (fadd usd (bk_usd b))
          (if time_is_zero oldest || (bk_start b <? oldest) then bk_start b else oldest)
      else scanWindow windowStart bkts' tokens usd oldest
  end.

Definition usedInWindow (s : BudgetStore) (sk : string) (now window : Z) : Z * float64 * Z :=
  match bucketsOf s sk with
  | [] => (0, fzero, now)
  | bkts => scanWindow (time_add now (wrap64 (- window))) bkts 0 fzero now
  end.

Definition retryAfterOf (oldest window now : Z) : Z :=
  let d := time_sub (time_add oldest window) now in
  if d <? 0 then 0 else d.

(** What [Allowed] returns: [AllowedOk], or the retry delay and the name of the
    exhausted budget. *)
Inductive admission :=
| AllowedOk
| Exhausted (retryAfter : Z) (name : string).

(** One iteration of the loop of [Allowed] on a key. *)
Definition checkKey (s : BudgetStore) (now : Z) (sk : string) : admission :=
  match ruleFor s sk with
  | None => AllowedOk
  | Some rule =>
      let '(usedTokens, usedUSD, oldest) := usedInWindow s sk now (br_Window rule) in
      if (0 <? br_MaxTokens rule) && (br_MaxTokens rule <=? usedTokens)
      then Exhausted (retryAfterOf oldest (br_Window rule) now) (br_Name rule)
      else if fgt (br_MaxUSD rule) fzero && fge usedUSD (br_MaxUSD rule)
      then Exhausted (retryAfterOf oldest (br_Window rule) now) (br_Name rule)
      else AllowedOk
  end.

Fixpoint Allowed (s : BudgetStore) (now : Z) (scopeKeys : list string) : admission :=
  match scopeKeys with
  | [] => AllowedOk
  | sk :: sks =>
      match checkKey s now sk with
      | Exhausted r n => Exhausted r n
      | AllowedOk => Allowed s now sks
      end
  end.

(** The buckets still inside the window. *)
Definition evict (windowStart : Z) (bkts : list bucket) : list bucket :=
  List.filter (fun b => windowStart <? bk_start b) bkts.

(** Add to the last bucket when it is the current one, else append. *)
Fixpoint addToLast (bkts : list bucket) (bucketStart tokens : Z) (usd : float64) : list bucket :=
  match bkts with
  | [] => [{| bk_start := bucketStart; bk_tokens := tokens; bk_usd := usd |}]
  | [b] =>
      if bk_start b =? bucketStart
      then [{| bk_start := bk_start b; bk_tokens := (bk_tokens b +64 tokens)%go; bk_usd := fadd (bk_usd b) usd |}]
      else [b; {| bk_start := bucketStart; bk_tokens := tokens; bk_usd := usd |}]
  | b :: bkts' => b :: addToLast bkts' bucketStart tokens usd
  end.

Definition charge (s : BudgetStore) (sk : string) (now window tokens : Z) (usd : float64) : BudgetStore :=
  let start := time_truncate now bucketDuration in
  let bkts :=
    match bucketsOf s sk with
    | [] => [{| bk_start := start; bk_tokens := tokens; bk_usd := usd |}]
    | bkts => addToLast (evict (time_add now (wrap64 (- window))) bkts) start tokens usd
    end in
  {| st_rules := st_rules s; st_buckets := <[sk := bkts]> (st_buckets s) |}.

Fixpoint Charge (s : BudgetStore) (now : Z) (scopeKeys : list string) (tokens : Z) (usd : float64) : BudgetStore :=
  match scopeKeys with
  | [] => s
  | sk :: sks =>
      let s' := match ruleFor s sk with
                | Some rule => charge s sk now (br_Window rule) tokens usd
                | None => s
                end in
      Charge s' now sks tokens usd
  end.

Definition usageOf (s : BudgetStore) (now : Z) (sk : string) : option BudgetUsage :=
  match ruleFor s sk with
  | None => None
  | Some rule =>
      let '(usedTokens, usedUSD, _) := usedInWindow s sk now (br_Window rule) in
      Some {| us_Name := br_Name rule; us_ScopeKey := sk; us_UsedTokens := usedTokens;
              us_UsedUSD := usedUSD; us_MaxTokens := br_MaxTokens rule; us_MaxUSD := br_MaxUSD rule;
              us_Window := br_Window rule |}
  end.

Definition Snapshot (s : BudgetStore) (now : Z) : list BudgetUsage :=
  let keys : gset string := dom (st_rules s) ∪ dom (st_buckets s) in
  omap (usageOf s now) (SortStrings (elements keys)).

(** ** Scope keys (proxy.go) *)

(** The header a team budget reads. *)
Definition teamHeader (b : Budget) : string :=
  if is_empty (bu_HeaderKey b) then DefaultTeamHeaderKey else bu_HeaderKey b.

Definition compileBudgetRule (b : Budget) : option BudgetRule :=
  let mk sk := Some {| br_Name := bu_Name b; br_ScopeKey := sk; br_MaxTokens := bu_MaxTokens b;
                       br_MaxUSD := bu_MaxUSD b; br_Window := bu_Window b |} in
  if bool_decide (bu_Scope b = BudgetScopeRouter) then mk "router"
  else if bool_decide (bu_Scope b = BudgetScopeRule) then mk ("rule:" +:+ bu_RuleName b)
  else if bool_decide (bu_Scope b = BudgetScopeTeam) then mk ("team:" +:+ teamHeader b)
  else None.

Definition compileBudgetRules (budgets : list Budget) : list BudgetRule :=
  omap compileBudgetRule budgets.

(** The key, if any, that a budget contributes to a request. *)
Definition budgetScopeKey (f : RequestFeatures) (dec : MatchResult) (b : Budget) : option string :=
  if bool_decide (bu_Scope b = BudgetScopeRouter) then Some "router"
  else if bool_decide (bu_Scope b = BudgetScopeRule) then
    match mr_Rule dec with
    | Some r => if bool_decide (ru_Name r = bu_RuleName b) then Some ("rule:" +:+ bu_RuleName b) else None
    | None => None
    end
  else if bool_decide (bu_Scope b = BudgetScopeTeam) then
    let hk := teamHeader b in
    let v := default EmptyString (rf_Headers f !! ToLower hk) in
    if is_empty v then None else Some ("team:" +:+ hk +:+ ":" +:+ v)
  else None.

(** The loop of [budgetScopeKeys] with its [add] closure: empty and repeated
    keys are dropped. *)
Fixpoint addKeys (seen : gset string) (ks : list (option string)) : list string :=
  match ks with
  | [] => []
  | None :: ks' => addKeys seen ks'
  | Some k :: ks' =>
      if is_empty k || bool_decide (k ∈ seen) then addKeys seen ks'
      else k :: addKeys ({[k]} ∪ seen) ks'
  end.

Definition budgetScopeKeys (c : Config) (f : RequestFeatures) (dec : MatchResult) : list string :=
  addKeys ∅ (map (budgetScopeKey f dec) (po_Budgets (cfg_Policy c))).

(** ** Specification: the ledger *)

(** One charge against one concrete scope key. *)
Record entry := {
  en_key : string;
  en_time : Z;
  en_tokens : Z;
}.

(** The tokens the ledger holds for a key whose one-second slot began after
    [w]. *)
Definition ledger_used (l : list entry) (sk : string) (w : Z) : Z :=
  foldr (fun e acc => if bool_decide (en_key e = sk) && (w <? time_truncate (en_time e) bucketDuration)
                   then en_tokens e + acc else acc) 0 l.

(** A call of [Charge]. *)
Record charge_call := {
  cc_time : Z;
  cc_keys : list string;
  cc_tokens : Z;
  cc_usd : float64;
}.

Definition run_charges (s : BudgetStore) (cs : list charge_call) : BudgetStore :=
  foldl (fun s c => Charge s (cc_time c) (cc_keys c) (cc_tokens c) (cc_usd c)) s cs.

(** The ledger of a sequence of calls: every key is entered. *)
Definition ledger_of (cs : list charge_call) : list entry :=
  cs ≫= fun c => map (fun sk => {| en_key := sk; en_time := cc_time c; en_tokens := cc_tokens c |}) (cc_keys c).

(** The tokens the ledger holds for a key from [from] on. *)
Definition ledger_since (l : list entry) (sk : string) (from : Z) : Z :=
  foldr (fun e acc => if bool_decide (en_key e = sk) && (from <=? en_time e)
                   then en_tokens e + acc else acc) 0 l.

(** The tokens of the buckets that start after [w]. *)
Definition bucket_sum (w : Z) (bkts : list bucket) : Z :=
  foldr (fun b acc => if w <? bk_start b then bk_tokens b + acc else acc) 0 bkts.

Definition rules_ok (s : BudgetStore) : Prop :=
  forall sk r, st_rules s !! sk = Some r -> 0 < br_Window r <= max_int64.

(** The store agrees with the ledger on every window that ends at or after [T]. *)
Definition agrees (s : BudgetStore) (l : list entry) (T : Z) : Prop :=
  forall sk r, ruleFor s sk = Some r -> forall w, T - br_Window r <= w ->
  wrap64 (bucket_sum w (bucketsOf s sk)) = wrap64 (ledger_used l sk w).

(** ** Lemmas *)

Lemma scanWindow_tokens (w : Z) (bkts : list bucket) (t : Z) (u : float64) (o : Z) :
  in_int64 t -> (scanWindow w bkts t u o).1.1 = wrap64 (t + bucket_sum w bkts).
Proof.
  revert t u o; induction bkts as [|b bkts IH]; intros t u o Ht; simpl.
  - by rewrite Z.add_0_r, wrap64_small.
  - case_if; rewrite IH by auto with llm; [|done].
    autorewrite with wrap. f_equal; lia.
Qed.

Lemma int64_0 : in_int64 0.
Proof. unfold in_int64, min_int64, max_int64, two63; lia. Qed.
#[export] Hint Resolve int64_0 : llm.

Lemma usedInWindow_tokens (s : BudgetStore) (sk : string) (now window : Z) :
  0 < window <= max_int64 ->
  (usedInWindow s sk now window).1.1 = wrap64 (bucket_sum (now - window) (bucketsOf s sk)).
Proof.
  intros Hw. unfold usedInWindow.
  assert (time_add now (wrap64 (- window)) = now - window) as ->.
  { unfold time_add. rewrite wrap64_small; [lia|]. unfold in_int64, min_int64, max_int64, two63 in *; lia. }
  destruct (bucketsOf s sk) as [|b bkts]; [reflexivity|].
  by rewrite scanWindow_tokens by auto with llm.
Qed.

Lemma bucket_sum_evict (w w' : Z) (bkts : list bucket) :
  w' <= w -> bucket_sum w (evict w' bkts) = bucket_sum w bkts.
Proof.
  intros H. induction bkts as [|b bkts IH]; simpl; [done|].
  destruct (w' <? bk_start b) eqn:E; simpl; rewrite IH; [done|].
  to_prop. case_if; to_prop; lia.
Qed.

Lemma bucket_sum_addToLast (w start tokens : Z) (usd : float64) (bkts : list bucket) :
  wrap64 (bucket_sum w (addToLast bkts start tokens usd)) =
  wrap64 (bucket_sum w bkts + if w <? start then tokens else 0).
Proof.
  induction bkts as [|b [|b' bkts] IH].
  - simpl. case_if; f_equal; lia.
  - simpl. destruct (bk_start b =? start) eqn:E; to_prop; simpl.
    + rewrite E. destruct (w <? start); [|done]. autorewrite with wrap. f_equal; lia.
    + repeat case_if; f_equal; lia.
  - remember (b' :: bkts) as l. assert (addToLast (b :: l) start tokens usd = b :: addToLast l start tokens usd) as ->
      by by rewrite Heql.
    cbn [bucket_sum foldr]. fold (bucket_sum w (addToLast l start tokens usd)). fold (bucket_sum w l).
    destruct (w <? bk_start b); [|done].
    rewrite <- wrap64_add_r, IH, wrap64_add_r. f_equal; lia.
Qed.

Lemma bucketsOf_charge (s : BudgetStore) (sk sk' : string) (now window tokens : Z) (usd : float64) :
  bucketsOf (charge s sk now window tokens usd) sk' =
  if decide (sk = sk')
  then addToLast (evict (time_add now (wrap64 (- window))) (bucketsOf s sk))
         (time_truncate now bucketDuration) tokens usd
  else bucketsOf s sk'.
Proof.
  unfold charge, bucketsOf at 1; simpl. destruct (decide (sk = sk')) as [<-|Hne].
  - rewrite lookup_insert_eq. simpl. by destruct (bucketsOf s sk).
  - by rewrite lookup_insert_ne.
Qed.

Lemma ruleFor_charge (s : BudgetStore) (sk sk' : string) (now window tokens : Z) (usd : float64) :
  ruleFor (charge s sk now window tokens usd) sk' = ruleFor s sk'.
Proof. done. Qed.

Lemma ruleFor_Charge (s : BudgetStore) (now : Z) (sks : list string) (tokens : Z) (usd : float64) (sk : string) :
  ruleFor (Charge s now sks tokens usd) sk = ruleFor s sk.
Proof.
  revert s; induction sks as [|k sks IH]; intros s; simpl; [done|].
  rewrite IH. by destruct (ruleFor s k).
Qed.

Lemma rules_ok_ruleFor (s : BudgetStore) (sk : string) (r : BudgetRule) :
  rules_ok s -> ruleFor s sk = Some r -> 0 < br_Window r <= max_int64.
Proof.
  intros H. unfold ruleFor. destruct (st_rules s !! sk) eqn:E; [intros [= <-]; by eapply H|].
  destruct (teamHeaderKey sk); [apply H|done].
Qed.

Lemma st_rules_Charge (s : BudgetStore) (now : Z) (sks : list string) (tokens : Z) (usd : float64) :
  st_rules (Charge s now sks tokens usd) = st_rules s.
Proof.
  revert s; induction sks as [|k sks IH]; intros s; simpl; [done|].
  rewrite IH. by destruct (ruleFor s k).
Qed.

Lemma ledger_used_app (l1 l2 : list entry) (sk : string) (w : Z) :
  ledger_used (l1 ++ l2) sk w = ledger_used l1 sk w + ledger_used l2 sk w.
Proof. induction l1 as [|e l1 IH]; simpl; [done|]. case_if; lia. Qed.

Lemma agrees_mono (s : BudgetStore) (l : list entry) (T T' : Z) : T <= T' -> agrees s l T -> agrees s l T'.
Proof. intros H Ha sk r Hr w Hw. eapply Ha; eauto; lia. Qed.

(** A charge of one key keeps the agreement. *)
Lemma agrees_charge (s : BudgetStore) (l : list entry) (sk : string) (r : BudgetRule) (now tokens : Z) (usd : float64) :
  rules_ok s -> ruleFor s sk = Some r -> agrees s l now ->
  agrees (charge s sk now (br_Window r) tokens usd) (l ++ [{| en_key := sk; en_time := now; en_tokens := tokens |}]) now.
Proof.
  intros Hok Hr Ha sk' r' Hr' w Hw. rewrite ruleFor_charge in Hr'.
  pose proof (Ha _ _ Hr' w Hw) as Hsum. rewrite ledger_used_app, bucketsOf_charge. simpl.
  destruct (decide (sk = sk')) as [<-|Hne].
  - rewrite bool_decide_eq_true_2 by done. rewrite Hr in Hr'. injection Hr' as <-.
    pose proof (rules_ok_ruleFor _ _ _ Hok Hr) as Hwin.
    rewrite bucket_sum_addToLast, bucket_sum_evict, <- wrap64_add_l, Hsum, wrap64_add_l.
    + simpl. f_equal. case_if; lia.
    + unfold time_add. rewrite wrap64_small; [lia|]. unfold in_int64, min_int64, max_int64, two63 in *; lia.
  - rewrite bool_decide_eq_false_2 by done. simpl. by rewrite Z.add_0_r.
Qed.

(** A key without a rule is not charged, and no window ever reads it. *)
Lemma agrees_skip (s : BudgetStore) (l : list entry) (e : entry) (T : Z) :
  ruleFor s (en_key e) = None -> agrees s l T -> agrees s (l ++ [e]) T.
Proof.
  intros Hn Ha sk r Hr w Hw. rewrite ledger_used_app. simpl.
  rewrite bool_decide_eq_false_2 by congruence. simpl. rewrite Z.add_0_r. eauto.
Qed.

Lemma agrees_Charge (s : BudgetStore) (l : list entry) (now : Z) (sks : list string) (tokens : Z) (usd : float64) :
  rules_ok s -> agrees s l now ->
  agrees (Charge s now sks tokens usd)
    (l ++ map (fun sk => {| en_key := sk; en_time := now; en_tokens := tokens |}) sks) now.
Proof.
  revert s l; induction sks as [|sk sks IH]; intros s l Hok Ha; simpl; [by rewrite app_nil_r|].
  rewrite cons_middle, app_assoc. apply IH.
  - destruct (ruleFor s sk); done.
  - destruct (ruleFor s sk) as [r|] eqn:E; [by apply agrees_charge|by apply agrees_skip].
Qed.

Lemma agrees_run (cs : list charge_call) (s : BudgetStore) (l : list entry) (T T' : Z) :
  rules_ok s -> agrees s l T -> Sorted Z.le (T :: map cc_time cs) -> T <= T' ->
  Forall (fun c => cc_time c <= T') cs ->
  agrees (run_charges s cs) (l ++ ledger_of cs) T'.
Proof.
  revert s l T; induction cs as [|c cs IH]; intros s l T Hok Ha Hs HT Hall; simpl.
  - rewrite app_nil_r. by eapply agrees_mono.
  - apply Sorted_inv in Hs as [Hs Hhd]. apply HdRel_inv in Hhd. apply Forall_cons in Hall as [Hc Hall].
    rewrite app_assoc. apply (IH _ _ (cc_time c)); auto.
    + by intros ??; rewrite st_rules_Charge; apply Hok.
    + apply agrees_Charge; [done|]. by eapply agrees_mono.
Qed.

Lemma agrees_empty (rules : list BudgetRule) (T : Z) : agrees (NewBudgetStore rules) [] T.
Proof. intros sk r _ w _. unfold bucketsOf; simpl. by rewrite lookup_empty. Qed.

(** Only the buckets on either side of the window's start matter. *)
Lemma scanWindow_ext (w w' : Z) (bkts : list bucket) (t : Z) (u : float64) (o : Z) :
  Forall (fun b => (w <? bk_start b) = (w' <? bk_start b)) bkts ->
  scanWindow w bkts t u o = scanWindow w' bkts t u o.
Proof.
  intros H; revert t u o; induction H as [|b bkts Hb _ IH]; intros t u o; simpl; [done|].
  rewrite Hb. by case_if.
Qed.

(** The sentinel does not change what is summed. *)
Lemma scanWindow_sums (w : Z) (bkts : list bucket) (t : Z) (u : float64) (o o' : Z) :
  (scanWindow w bkts t u o).1 = (scanWindow w bkts t u o').1.
Proof.
  revert t u o o'; induction bkts as [|b bkts IH]; intros t u o o'; simpl; [done|].
  case_if; apply IH.
Qed.

Lemma scanWindow_none (w : Z) (bkts : list bucket) (t : Z) (u : float64) (o : Z) :
  Forall (fun b => (w <? bk_start b) = false) bkts -> scanWindow w bkts t u o = (t, u, o).
Proof. induction 1 as [|b bkts Hb _ IH]; simpl; [done|]. by rewrite Hb. Qed.

(** The third component is the least start inside the window, or the sentinel. *)
Lemma scanWindow_oldest (w : Z) (bkts : list bucket) (t : Z) (u : float64) (o : Z) :
  0 < o -> Forall (fun b => 0 < bk_start b) bkts ->
  let o' := (scanWindow w bkts t u o).2 in
  o' <= o /\ (forall b, b ∈ bkts -> w < bk_start b -> o' <= bk_start b) /\
  (o' = o \/ exists b, b ∈ bkts /\ w < bk_start b /\ bk_start b = o').
Proof.
  intros Ho Hpos. revert t u o Ho; induction Hpos as [|b bkts Hb _ IH]; intros t u o Ho; simpl.
  - split_and!; [lia|by intros b Hb%elem_of_nil|by left].
  - destruct (w <? bk_start b) eqn:E; to_prop.
    + set (o1 := if time_is_zero o || (bk_start b <? o) then bk_start b else o).
      assert (0 < o1 /\ o1 <= o /\ o1 <= bk_start b /\ (o1 = o \/ o1 = bk_start b)) as (H1 & H2 & H3 & H4).
      { subst o1. unfold time_is_zero. destruct (o =? 0) eqn:Ez; to_prop; [lia|simpl].
        case_if; to_prop; lia. }
      specialize (IH (t +64 bk_tokens b)%go (fadd u (bk_usd b)) o1 H1). simpl in IH.
      destruct IH as (I1 & I2 & I3). split_and!; [lia| |].
      * intros b' [->|Hb']%elem_of_cons Hw; [lia|auto].
      * destruct I3 as [I3|(b' & Hb' & Hb2)]; [|right; exists b'; split; [by right|done]].
        rewrite I3. destruct H4 as [->| ->]; [by left|right; exists b; split; [by left|done]].
    + specialize (IH t u o Ho). simpl in IH. destruct IH as (I1 & I2 & I3). split_and!; [done| |].
      * intros b' [->|Hb']%elem_of_cons Hw; [lia|auto].
      * destruct I3 as [I3|(b' & Hb' & Hb2)]; [by left|right; exists b'; split; [by right|done]].
Qed.

(** The caps of a rule are reached by this usage. *)
Definition cap_reached (r : BudgetRule) (usedTokens : Z) (usedUSD : float64) : bool :=
  ((0 <? br_MaxTokens r) && (br_MaxTokens r <=? usedTokens)) ||
  (fgt (br_MaxUSD r) fzero && fge usedUSD (br_MaxUSD r)).

Lemma cap_not_reached_by_zero (r : BudgetRule) : cap_reached r 0 fzero = false.
Proof.
  unfold cap_reached. destruct (0 <? br_MaxTokens r) eqn:E; to_prop; simpl.
  - rewrite (proj2 (Z.leb_gt _ _)) by lia. simpl.
    destruct (fgt (br_MaxUSD r) fzero) eqn:G; [|done]. simpl.
    destruct (fge fzero (br_MaxUSD r)) eqn:F; [|done]. apply fge_not_flt in F. unfold fgt, flt in *. congruence.
  - destruct (fgt (br_MaxUSD r) fzero) eqn:G; [|done]. simpl.
    destruct (fge fzero (br_MaxUSD r)) eqn:F; [|done]. apply fge_not_flt in F. unfold fgt, flt in *. congruence.
Qed.

Lemma checkKey_eq (s : BudgetStore) (now : Z) (sk : string) (r : BudgetRule) :
  ruleFor s sk = Some r ->
  checkKey s now sk =
  let u := usedInWindow s sk now (br_Window r) in
  if cap_reached r u.1.1 u.1.2 then Exhausted (retryAfterOf u.2 (br_Window r) now) (br_Name r) else AllowedOk.
Proof.
  intros Hr. unfold checkKey, cap_reached. rewrite Hr.
  destruct (usedInWindow _ _ _ _) as [[t u] o]; simpl. by repeat case_if.
Qed.

Lemma Allowed_Exhausted (s : BudgetStore) (now : Z) (sks : list string) (ra : Z) (n : string) :
  Allowed s now sks = Exhausted ra n <->
  exists pre sk post, sks = pre ++ sk :: post /\ checkKey s now sk = Exhausted ra n /\
    Forall (fun k => checkKey s now k = AllowedOk) pre.
Proof.
  split.
  - induction sks as [|k sks IH]; simpl; [done|]. destruct (checkKey s now k) as [|ra' n'] eqn:E.
    + intros H. destruct (IH H) as (pre & sk & post & -> & Hk & Hp). exists (k :: pre), sk, post. auto.
    + intros [= -> ->]. exists [], k, sks. auto.
  - intros (pre & sk & post & -> & Hk & Hp). induction Hp as [|k pre Hk' _ IH]; simpl.
    + by rewrite Hk.
    + by rewrite Hk'.
Qed.

Lemma Allowed_ok (s : BudgetStore) (now : Z) (sks : list string) :
  Allowed s now sks = AllowedOk <-> Forall (fun k => checkKey s now k = AllowedOk) sks.
Proof.
  induction sks as [|k sks IH]; simpl; [split; auto|].
  rewrite Forall_cons. destruct (checkKey s now k); [tauto|split; [done|intros [? _]; done]].
Qed.

Lemma usedInWindow_scan (s : BudgetStore) (sk : string) (now window : Z) :
  0 < window <= max_int64 ->
  usedInWindow s sk now window = scanWindow (now - window) (bucketsOf s sk) 0 fzero now.
Proof.
  intros Hw. unfold usedInWindow, time_add. rewrite (wrap64_small (- window)).
  - replace (now + - window) with (now - window) by lia. by destruct (bucketsOf s sk).
  - unfold in_int64, min_int64, max_int64, two63 in *; lia.
Qed.

(** A reached cap has an oldest bucket inside the window. *)
Lemma reached_oldest (s : BudgetStore) (sk : string) (r : BudgetRule) (now : Z) :
  0 < br_Window r <= max_int64 -> 0 < now ->
  Forall (fun b => 0 < bk_start b <= now) (bucketsOf s sk) ->
  let u := usedInWindow s sk now (br_Window r) in
  cap_reached r u.1.1 u.1.2 = true ->
  exists b, b ∈ bucketsOf s sk /\ now - br_Window r < bk_start b /\ bk_start b = u.2 /\
    (forall b', b' ∈ bucketsOf s sk -> now - br_Window r < bk_start b' -> u.2 <= bk_start b').
Proof.
  intros Hw Hnow Hb. rewrite usedInWindow_scan by done. simpl. intros Hcap.
  assert (Forall (fun b => 0 < bk_start b) (bucketsOf s sk)) as Hpos by (eapply Forall_impl; [exact Hb|]; simpl; lia).
  destruct (scanWindow_oldest (now - br_Window r) _ 0 fzero now Hnow Hpos) as (Ho1 & Ho2 & Ho3).
  destruct Ho3 as [Ho3|(b & Hb1 & Hb2 & Hb3)]; [|by exists b].
  destruct (decide (Forall (fun b => (now - br_Window r <? bk_start b) = false) (bucketsOf s sk))) as [Hall|Hex].
  - rewrite scanWindow_none in Hcap by done. simpl in Hcap. by rewrite cap_not_reached_by_zero in Hcap.
  - apply not_Forall_Exists in Hex; [|apply _]. apply Exists_exists in Hex as (b & Hin & Hb').
    exists b. simpl in Hb'. apply not_false_iff_true, Z.ltb_lt in Hb'. split_and!; auto.
    rewrite Forall_forall in Hb. specialize (Hb _ Hin). specialize (Ho2 _ Hin Hb'). lia.
Qed.

Lemma retryAfterOf_pos (o w now : Z) : 0 <= o + w - now <= max_int64 -> retryAfterOf o w now = o + w - now.
Proof.
  intros H. unfold retryAfterOf, time_sub, time_add. rewrite sat64_small.
  - by rewrite (proj2 (Z.ltb_ge _ _)) by lia.
  - unfold in_int64, min_int64, two63; lia.
Qed.

(** Until the oldest bucket expires, the usage does not change. *)
Lemma usedInWindow_until (s : BudgetStore) (sk : string) (now w d : Z) (b : bucket) :
  0 < w <= max_int64 -> 0 < now -> 0 <= d < bk_start b + w - now ->
  Forall (fun b => 0 < bk_start b <= now) (bucketsOf s sk) ->
  b ∈ bucketsOf s sk -> now - w < bk_start b ->
  (forall b', b' ∈ bucketsOf s sk -> now - w < bk_start b' -> bk_start b <= bk_start b') ->
  usedInWindow s sk (now + d) w = ((usedInWindow s sk now w).1, bk_start b).
Proof.
  intros Hw Hnow Hd Hb Hin Hwb Hmin. rewrite !usedInWindow_scan by done.
  rewrite (scanWindow_ext (now + d - w) (now - w)).
  2:{ apply Forall_forall. intros x Hx. specialize (Hmin x Hx).
      destruct (now + d - w <? bk_start x) eqn:E1, (now - w <? bk_start x) eqn:E2; to_prop; lia. }
  apply injective_projections; simpl; [apply scanWindow_sums|].
  assert (Forall (fun b => 0 < bk_start b) (bucketsOf s sk)) as Hpos by (eapply Forall_impl; [exact Hb|]; simpl; lia).
  destruct (scanWindow_oldest (now - w) _ 0 fzero (now + d) ltac:(lia) Hpos) as (Ho1 & Ho2 & Ho3).
  specialize (Ho2 b Hin Hwb). rewrite Forall_forall in Hb. specialize (Hb _ Hin).
  destruct Ho3 as [Ho3|(b' & Hb1 & Hb2 & Hb3)]; [lia|]. specialize (Hmin b' Hb1 Hb2). lia.
Qed.

Lemma checkKey_retry (s : BudgetStore) (sk : string) (r : BudgetRule) (now ra : Z) (n : string) :
  ruleFor s sk = Some r -> 0 < br_Window r <= max_int64 -> 0 < now ->
  Forall (fun b => 0 < bk_start b <= now) (bucketsOf s sk) ->
  checkKey s now sk = Exhausted ra n ->
  exists b, b ∈ bucketsOf s sk /\ now - br_Window r < bk_start b /\
    ra = bk_start b + br_Window r - now /\
    (forall d, 0 <= d < ra -> checkKey s (now + d) sk = Exhausted (ra - d) n).
Proof.
  intros Hr Hw Hnow Hb. rewrite (checkKey_eq _ _ _ _ Hr). cbv zeta.
  destruct (cap_reached _ _ _) eqn:Hcap; [|done]. intros [= <- <-].
  destruct (reached_oldest s sk r now Hw Hnow Hb Hcap) as (b & Hin & Hwb & Hbo & Hmin).
  rewrite <- Hbo in *. pose proof (proj1 (Forall_forall _ _) Hb b Hin) as Hbn. simpl in Hbn.
  exists b. rewrite retryAfterOf_pos by lia. split_and!; auto.
  intros d Hd. rewrite (checkKey_eq _ _ _ _ Hr). cbv zeta.
  rewrite (usedInWindow_until s sk now (br_Window r) d b) by auto. simpl.
  rewrite Hcap, retryAfterOf_pos by lia. f_equal. lia.
Qed.

(** ** Lemmas on scope keys *)

Lemma teamHeader_nonempty (b : Budget) : is_empty (teamHeader b) = false.
Proof. unfold teamHeader. destruct (is_empty (bu_HeaderKey b)) eqn:E; [reflexivity|done]. Qed.

Lemma teamHeaderKey_concrete (hk v : string) :
  ContainsByte hk colon = false -> is_empty hk = false -> is_empty v = false ->
  teamHeaderKey ("team:" +:+ hk +:+ ":" +:+ v) = Some hk.
Proof.
  intros Hc Hh Hv. unfold teamHeaderKey. rewrite CutPrefix_app.
  change (":" +:+ v) with (String colon v). rewrite CutByte_app by done. by rewrite Hh, Hv.
Qed.

Lemma elem_of_addKeys (seen : gset string) (ks : list (option string)) (k : string) :
  Some k ∈ ks -> k ≠ EmptyString -> k ∉ seen -> k ∈ addKeys seen ks.
Proof.
  revert seen; induction ks as [|[k'|] ks IH]; intros seen; simpl; [by rewrite elem_of_nil| |].
  - rewrite elem_of_cons. intros [[= <-]|Hk] Hne Hns.
    + rewrite (proj2 (is_empty_false k)) by done. rewrite bool_decide_eq_false_2 by done. by left.
    + destruct (is_empty k' || bool_decide (k' ∈ seen)); [auto|].
      destruct (decide (k = k')) as [->|]; [by left|right]. apply IH; set_solver.
  - rewrite elem_of_cons. intros [?|Hk]; [done|auto].
Qed.

Lemma NoDup_addKeys (seen : gset string) (ks : list (option string)) :
  NoDup (addKeys seen ks) /\ Forall (fun k => k ∉ seen) (addKeys seen ks).
Proof.
  revert seen; induction ks as [|[k|] ks IH]; intros seen; simpl; [split; constructor| |auto].
  destruct (is_empty k || bool_decide (k ∈ seen)) eqn:E; [auto|]. to_prop.
  destruct (IH ({[k]} ∪ seen)) as [H1 H2]. rewrite Forall_forall in H2. split.
  - apply NoDup_cons. split; [intros Hk; specialize (H2 _ Hk); set_solver|done].
  - apply Forall_cons. split; [done|]. apply Forall_forall. intros x Hx. specialize (H2 _ Hx). set_solver.
Qed.

Lemma budgetScopeKey_nonempty (f : RequestFeatures) (dec : MatchResult) (b : Budget) (k : string) :
  budgetScopeKey f dec b = Some k -> k ≠ EmptyString.
Proof.
  unfold budgetScopeKey. repeat case_if; try done; try (intros [= <-]; done).
  destruct (mr_Rule dec); [case_if; [intros [= <-]; done|done]|done].
Qed.

(** No compiled rule has a concrete team key as its own scope key. *)
Lemma compileBudgetRule_not_concrete (b : Budget) (r : BudgetRule) (hk v : string) :
  ContainsByte (teamHeader b) colon = false ->
  compileBudgetRule b = Some r -> br_ScopeKey r ≠ "team:" +:+ hk +:+ ":" +:+ v.
Proof.
  intros Hc. unfold compileBudgetRule. repeat case_if; intros [= <-]; simpl; try discriminate.
  intros H%app_inv_head_str. rewrite H in Hc. clear -Hc.
  induction hk as [|c hk IH]; [discriminate Hc|]. rewrite app_cons in Hc. simpl in Hc. to_prop. auto.
Qed.

Section Governs.
Context (bs : list Budget).
Hypothesis Hunique : NoDup (br_ScopeKey <$> compileBudgetRules bs).
Hypothesis Hcolon : Forall (fun b => ContainsByte (teamHeader b) colon = false) bs.

Let s : BudgetStore := NewBudgetStore (compileBudgetRules bs).

Lemma store_rules_lookup (r : BudgetRule) :
  r ∈ compileBudgetRules bs -> st_rules s !! br_ScopeKey r = Some r.
Proof.
  intros Hr. unfold s; simpl. rewrite (foldl_insert_lookup br_ScopeKey) by done.
  by rewrite find_elem_nodup.
Qed.

Lemma store_rules_concrete (hk v : string) : st_rules s !! ("team:" +:+ hk +:+ ":" +:+ v) = None.
Proof.
  unfold s; simpl. rewrite (foldl_insert_lookup br_ScopeKey) by done.
  destruct (List.find _ _) as [r|] eqn:E; [|apply lookup_empty].
  apply find_some in E as [Hin Heq]. apply bool_decide_eq_true in Heq.
  apply list_elem_of_In in Hin. unfold compileBudgetRules in Hin.
  apply list_elem_of_omap in Hin as (b & Hb & Hc).
  rewrite Forall_forall in Hcolon. by eapply compileBudgetRule_not_concrete in Heq; [|by apply Hcolon|].
Qed.

Lemma ruleFor_budget (f : RequestFeatures) (dec : MatchResult) (b : Budget) (k : string) :
  b ∈ bs -> budgetScopeKey f dec b = Some k ->
  exists r, compileBudgetRule b = Some r /\ ruleFor s k = Some r.
Proof.
  intros Hb Hk.
  assert (Hl : forall r, compileBudgetRule b = Some r -> st_rules s !! br_ScopeKey r = Some r).
  { intros r Hr. apply store_rules_lookup. apply list_elem_of_omap. eauto. }
  pose proof (proj1 (Forall_forall _ _) Hcolon b Hb) as Hcb. simpl in Hcb.
  unfold compileBudgetRule, budgetScopeKey in *.
  case_bool_decide; [|case_bool_decide; [|case_bool_decide; [|done]]].
  - injection Hk as <-. eexists; split; [done|]. unfold ruleFor. specialize (Hl _ eq_refl).
    cbn [br_ScopeKey] in Hl. by rewrite Hl.
  - destruct (mr_Rule dec); [|done]. case_bool_decide; [|done]. injection Hk as <-.
    eexists; split; [done|]. unfold ruleFor. specialize (Hl _ eq_refl). cbn [br_ScopeKey] in Hl. by rewrite Hl.
  - destruct (is_empty (default _ _)) eqn:Ev in Hk; [done|]. injection Hk as <-.
    eexists; split; [done|]. unfold ruleFor. specialize (Hl _ eq_refl). cbn [br_ScopeKey] in Hl.
    rewrite store_rules_concrete, teamHeaderKey_concrete; auto using teamHeader_nonempty.
Qed.

End Governs.

(** ** Properties *)

Lemma rules_ok_new (rules : list BudgetRule) :
  Forall (fun r => 0 < br_Window r <= max_int64) rules -> rules_ok (NewBudgetStore rules).
Proof.
  intros H sk r Hr. apply foldl_insert_elem in Hr as [[Hin _]|Hr]; [|by rewrite lookup_empty in Hr].
  rewrite Forall_forall in H. by apply H.
Qed.

Lemma st_rules_run (s : BudgetStore) (cs : list charge_call) : st_rules (run_charges s cs) = st_rules s.
Proof. revert s; induction cs as [|c cs IH]; intros s; simpl; [done|]. by rewrite IH, st_rules_Charge. Qed.

Lemma ledger_bounds (l : list entry) (sk : string) (w from : Z) :
  Forall (fun e => 0 <= en_tokens e) l -> w + bucketDuration <= from ->
  0 <= ledger_since l sk from <= ledger_used l sk w.
Proof.
  intros Hl Hw. induction Hl as [|e l He _ IH]; simpl; [lia|].
  pose proof (time_truncate_le (en_time e) bucketDuration ltac:(reflexivity)) as Ht.
  destruct (bool_decide (en_key e = sk)); simpl; [|done].
  destruct (from <=? en_time e) eqn:E1, (w <? time_truncate (en_time e) bucketDuration) eqn:E2; to_prop; lia.
Qed.

(** The counters of a store after a run of charges are the ledger's. *)
Lemma run_used_tokens (rules : list BudgetRule) (cs : list charge_call) (sk : string) (r : BudgetRule) (now : Z) :
  Forall (fun r => 0 < br_Window r <= max_int64) rules ->
  Sorted Z.le (map cc_time cs) -> Forall (fun c => cc_time c <= now) cs ->
  ruleFor (run_charges (NewBudgetStore rules) cs) sk = Some r ->
  (usedInWindow (run_charges (NewBudgetStore rules) cs) sk now (br_Window r)).1.1 =
  wrap64 (ledger_used (ledger_of cs) sk (now - br_Window r)).
Proof.
  intros Hrules Hs Hnow Hr. pose proof (rules_ok_new rules Hrules) as Hok.
  assert (rules_ok (run_charges (NewBudgetStore rules) cs)) as Hok' by (intros ??; rewrite st_rules_run; apply Hok).
  rewrite usedInWindow_tokens by by eapply rules_ok_ruleFor.
  pose (T := match cs with [] => now | c :: _ => cc_time c end).
  refine (agrees_run cs _ [] T now Hok (agrees_empty rules T) _ _ Hnow sk r Hr _ _); [| |lia]; unfold T.
  - destruct cs; simpl in *; constructor; auto. constructor. lia.
  - destruct cs; [lia|]. by apply Forall_cons in Hnow as [? _].
Qed.

(** C40: the bucketed counters refine the ledger.  After any sequence of
    [Charge] calls made in non-decreasing time order, the tokens
    [usedInWindow] reports for a governed key are exactly the tokens of every
    charge of that key whose one-second slot began inside the window (in int64
    arithmetic): eviction and bucket merging lose and add nothing. *)
Theorem usage_refines_ledger (rules : list BudgetRule) (cs : list charge_call) (sk : string)
    (r : BudgetRule) (now : Z) :
  Forall (fun r => 0 < br_Window r <= max_int64) rules ->
  Sorted Z.le (map cc_time cs) -> Forall (fun c => cc_time c <= now) cs ->
  ruleFor (run_charges (NewBudgetStore rules) cs) sk = Some r ->
  (usedInWindow (run_charges (NewBudgetStore rules) cs) sk now (br_Window r)).1.1 =
  wrap64 (ledger_used (ledger_of cs) sk (now - br_Window r)).
Proof. apply run_used_tokens. Qed.

Definition sample_rule : BudgetRule :=
  {| br_Name := "team-cap"; br_ScopeKey := "team:x-team"; br_MaxTokens := 100; br_MaxUSD := fzero;
     br_Window := 10 * second |}.

Definition sample_charge (t : Z) (tokens : Z) : charge_call :=
  {| cc_time := t; cc_keys := ["team:x-team:a"]; cc_tokens := tokens; cc_usd := fzero |}.

Definition sample_charges : list charge_call :=
  [sample_charge (100 * second + 5) 40; sample_charge (100 * second + 7) 30; sample_charge (108 * second) 50].

Lemma usage_refines_ledger_witness :
  (usedInWindow (run_charges (NewBudgetStore [sample_rule]) sample_charges)
     "team:x-team:a" (109 * second) (br_Window sample_rule)).1.1 = 120.
Proof.
  rewrite (usage_refines_ledger [sample_rule] sample_charges "team:x-team:a" sample_rule (109 * second)).
  - reflexivity.
  - apply (bool_decide_unpack _). vm_compute. exact I.
  - repeat constructor; vm_compute; discriminate.
  - apply (bool_decide_unpack _). vm_compute. exact I.
  - reflexivity.
Defined.

(** An admitted request finds its capped keys below their caps. *)
Lemma Allowed_below_cap (rules : list BudgetRule) (cs : list charge_call) (now : Z)
    (keys : list string) (sk : string) (r : BudgetRule) :
  let s := run_charges (NewBudgetStore rules) cs in
  Forall (fun r => 0 < br_Window r <= max_int64) rules ->
  Sorted Z.le (map cc_time cs) -> Forall (fun c => cc_time c <= now) cs ->
  Forall (fun e => 0 <= en_tokens e) (ledger_of cs) ->
  ledger_used (ledger_of cs) sk (now - br_Window r) <= max_int64 ->
  Allowed s now keys = AllowedOk -> sk ∈ keys -> ruleFor s sk = Some r -> 0 < br_MaxTokens r ->
  ledger_since (ledger_of cs) sk (now - br_Window r + bucketDuration) < br_MaxTokens r.
Proof.
  intros s Hrules Hs Hnow Hpos Hmax Hok Hin Hr Hcap.
  apply Allowed_ok in Hok. rewrite Forall_forall in Hok. specialize (Hok sk Hin). simpl in Hok.
  rewrite (checkKey_eq _ _ _ _ Hr) in Hok. cbv zeta in Hok. unfold cap_reached in Hok.
  unfold s in Hok. rewrite run_used_tokens in Hok by done.
  destruct (ledger_bounds (ledger_of cs) sk (now - br_Window r) _ Hpos ltac:(reflexivity)) as [H0 Hle].
  rewrite wrap64_small in Hok by (unfold in_int64, min_int64, two63; lia).
  rewrite (proj2 (Z.ltb_lt _ _) Hcap) in Hok. simpl in Hok.
  destruct (br_MaxTokens r <=? _) eqn:E; [discriminate|]. to_prop. lia.
Qed.

(** The retry delay of an exhausted key is exact.  It is the time until the
    oldest bucket inside the window leaves it: at every earlier instant the same
    request is still refused with the remaining delay, and at the instant itself
    that bucket is no longer counted. *)
Lemma Allowed_retry_after_exact (s : BudgetStore) (sk : string) (r : BudgetRule) (now ra : Z) (n : string) :
  ruleFor s sk = Some r -> 0 < br_Window r <= max_int64 -> 0 < now ->
  Forall (fun b => 0 < bk_start b <= now) (bucketsOf s sk) ->
  Allowed s now [sk] = Exhausted ra n ->
  0 < ra <= br_Window r /\
  (forall d, 0 <= d < ra -> Allowed s (now + d) [sk] = Exhausted (ra - d) n) /\
  exists b, b ∈ bucketsOf s sk /\ b ∈ evict (now - br_Window r) (bucketsOf s sk) /\
       b ∉ evict (now + ra - br_Window r) (bucketsOf s sk).
Proof.
  intros Hr Hw Hnow Hb Ha. simpl in Ha. destruct (checkKey s now sk) as [|ra' n'] eqn:E; [done|].
  injection Ha as -> ->.
  destruct (checkKey_retry s sk r now ra n Hr Hw Hnow Hb E) as (b & Hin & Hwb & -> & Hd).
  pose proof (proj1 (Forall_forall _ _) Hb b Hin) as Hbn. simpl in Hbn. split_and!; [lia|lia| |].
  - intros d Hd'. simpl. by rewrite Hd.
  - exists b. unfold evict. rewrite !list_elem_of_In, !filter_In, <- !list_elem_of_In, !Z.ltb_lt.
    split_and!; auto. lia.
Qed.

(** Budgets reach the requests they apply to.  When no two configured budgets
    share a scope and team headers carry no colon, each budget whose scope a
    request matches (always for a router budget, the matched rule for a rule
    budget, a non-empty header for a team budget) contributes its key to
    [budgetScopeKeys], the store resolves that key to exactly that budget's caps,
    and no key is charged twice. *)
Lemma budget_governs_request (c : Config) (f : RequestFeatures) (dec : MatchResult) (b : Budget) (k : string) :
  NoDup (br_ScopeKey <$> compileBudgetRules (po_Budgets (cfg_Policy c))) ->
  Forall (fun b => ContainsByte (teamHeader b) colon = false) (po_Budgets (cfg_Policy c)) ->
  b ∈ po_Budgets (cfg_Policy c) -> budgetScopeKey f dec b = Some k ->
  NoDup (budgetScopeKeys c f dec) /\ k ∈ budgetScopeKeys c f dec /\
  exists r, compileBudgetRule b = Some r /\
       ruleFor (NewBudgetStore (compileBudgetRules (po_Budgets (cfg_Policy c)))) k = Some r.
Proof.
  intros Hu Hc Hb Hk. split; [apply NoDup_addKeys|]. split.
  - apply elem_of_addKeys; [|by eapply budgetScopeKey_nonempty|set_solver].
    rewrite <- Hk. by apply list_elem_of_fmap_2.
  - by eapply ruleFor_budget.
Qed.

Definition sample_team_budget : Budget :=
  {| bu_Name := "team-cap"; bu_Scope := BudgetScopeTeam; bu_RuleName := EmptyString; bu_HeaderKey := "X-Team";
     bu_Window := hour; bu_MaxTokens := 100; bu_MaxUSD := fzero |}.

Definition sample_team_config : Config :=
  {| cfg_Backends := cfg_Backends Sample.config; cfg_Rules := []; cfg_DefaultRoute := "llama";
     cfg_DefaultRouteStrategy := EmptyString;
     cfg_Policy := Sample.policy [] [Sample.budget "hourly" BudgetScopeRouter hour 1000; sample_team_budget] |}.

Definition sample_team_request : RequestFeatures :=
  {| rf_Model := "m"; rf_Classification := EmptyString; rf_TaskComplexity := EmptyString;
     rf_Headers := {[ "x-team" := "a:b" ]} |}.

(** A budget that shares its scope with a later one is dropped.
    [NewBudgetStore] builds the same store with and without it, so none of its
    caps is ever enforced, charged or reported. *)
Lemma duplicate_scope_budget_dropped (rs1 rs2 : list BudgetRule) (r r' : BudgetRule) :
  br_ScopeKey r = br_ScopeKey r' -> r' ∈ rs2 ->
  NewBudgetStore (rs1 ++ r :: rs2) = NewBudgetStore (rs1 ++ rs2).
Proof. intros Hk Hin. unfold NewBudgetStore. by rewrite (foldl_insert_shadow br_ScopeKey _ _ r r'). Qed.
