(* ===== verification/RouterSpec.v ===== *)
(** * The ModelRouter resource and its static validation

    The part of the ModelRouter specification (api/v1alpha1/modelrouter_types.go)
    that the router configuration is compiled from, what the schema generated from
    its markers admits, the default the API server fills in for a tier, and
    [validateModelRouter] (internal/controller/modelrouter_validation.go), which
    returns the list of everything wrong with a specification.  An error is a value
    of [spec_error], one constructor per message of the source with the position it
    points at. *)

From stdpp Require Import base gmap strings list.
From Stdlib Require Import ZArith Lia Bool Ascii.
From S2P Require Import Prelude GoStrings GoFloat GoStrconv GoHttp.

(** ** The resource *)

Definition backendTierLocal : string := "local".
Definition backendTierCloud : string := "cloud".
Definition RouterBackendResolutionEndpoint : string := "endpoint".
Definition BalancingModeLoadAware : string := "LoadAware".

Record ExternalProvider := {
  ex_Provider : string;
  ex_URL : string;
  ex_Model : string;
  ex_CredentialsSecretRef : option string;
}.

Record TokenCost := {
  st_PromptUSD : string;
  st_CompletionUSD : string;
}.

Record SessionAffinity := {
  sa_Headers : list string;
  sa_IdleTimeout : option Z;
}.

Record BackendBalancing := {
  bb_Mode : string;
  bb_SessionAffinity : option SessionAffinity;
}.

Record RouterBackend := {
  rb_Name : string;
  rb_DisplayName : string;
  rb_InferenceServiceRef : option string;
  rb_External : option ExternalProvider;
  rb_Tier : string;
  rb_Resolution : string;
  rb_Balancing : option BackendBalancing;
  rb_Capabilities : list string;
  rb_Weight : option Z;
  rb_CostPerMillionTokens : option TokenCost;
  rb_Timeout : option Z;
}.

Record RuleMatch := {
  sm_DataClassification : list string;
  sm_TaskComplexity : string;
  sm_RequiredCapabilities : list string;
  sm_Headers : gmap string string;
  sm_Models : list string;
}.

Record RuleRoute := {
  sr_Backends : list string;
  sr_Strategy : string;
  sr_PoolActivation : string;
}.

Record RouterRule := {
  rl_Name : string;
  rl_Match : option RuleMatch;
  rl_Route : RuleRoute;
  rl_FailClosed : bool;
  rl_Timeout : option Z;
}.

Record BudgetSpec := {
  bg_Name : string;
  bg_Scope : string;
  bg_RuleName : string;
  bg_HeaderKey : string;
  bg_WindowSeconds : Z;
  bg_MaxTokens : option Z;
  bg_MaxUSD : string;
}.

Record ClassificationPolicy := {
  sc_Mode : string;
  sc_HeaderKey : string;
  sc_SensitiveClassifications : list string;
}.

Record AuditLogPolicy := {
  sl_Sink : string;
  sl_FilePath : string;
  sl_IncludeRequestBody : bool;
}.

Record RouterPolicy := {
  pol_Budgets : list BudgetSpec;
  pol_Classification : option ClassificationPolicy;
  pol_AuditLog : option AuditLogPolicy;
}.

Record ModelRouterSpec := {
  spec_Backends : list RouterBackend;
  spec_Rules : list RouterRule;
  spec_DefaultRoute : string;
  spec_DefaultRouteStrategy : string;
  spec_Policy : option RouterPolicy;
}.

(** ** Static validation *)

Inductive spec_error :=
| SpecBothKinds (i : nat)
| SpecNoKind (i : nat)
| SpecCloudInference (i : nat)
| SpecNameRequired (i : nat)
| SpecDuplicateName (i : nat) (name : string)
| SpecBackendTimeoutLow (i : nat) (d : Z)
| SpecBackendTimeoutHigh (i : nat) (d : Z)
| SpecDefaultRoute (name : string)
| SpecRuleNoBackends (i : nat)
| SpecRuleUnknownBackend (i j : nat) (name : string)
| SpecRuleFailOpen (i : nat) (matched : list string)
| SpecRuleCloudBackend (i : nat) (name : string) (matched : list string)
| SpecRuleTimeoutLow (i : nat) (d : Z)
| SpecRuleTimeoutHigh (i : nat) (d : Z)
| SpecBudgetRuleRequired (i : nat)
| SpecBudgetUnknownRule (i : nat) (rule : string)
| SpecBudgetNoCap (i : nat)
| SpecBackendPricing (i : nat).

Definition minRouterTimeout : Z := 100 * millisecond.
Definition maxRouterTimeout : Z := 30 * minute.

Definition validateBackendKindExclusivity (i : nat) (b : RouterBackend) : list spec_error :=
  match rb_InferenceServiceRef b, rb_External b with
  | Some _, Some _ => [SpecBothKinds i]
  | None, None => [SpecNoKind i]
  | _, _ => []
  end.

Definition validateBackendTimeout (i : nat) (b : RouterBackend) : list spec_error :=
  match rb_Timeout b with
  | None => []
  | Some d => if d <? minRouterTimeout then [SpecBackendTimeoutLow i d]
              else if maxRouterTimeout <? d then [SpecBackendTimeoutHigh i d] else []
  end.

Definition validateRuleTimeout (i : nat) (r : RouterRule) : list spec_error :=
  match rl_Timeout r with
  | None => []
  | Some d => if d <? minRouterTimeout then [SpecRuleTimeoutLow i d]
              else if maxRouterTimeout <? d then [SpecRuleTimeoutHigh i d] else []
  end.

(** A pointer that is set. *)
Definition is_set {A} (o : option A) : bool := match o with Some _ => true | None => false end.

(** The body of the backend loop, under the names seen so far. *)
Definition validateBackend (nameSet : gset string) (i : nat) (b : RouterBackend) : list spec_error :=
  validateBackendKindExclusivity i b ++
  (if is_set (rb_InferenceServiceRef b) && bool_decide (rb_Tier b = backendTierCloud)
   then [SpecCloudInference i] else []) ++
  (if bool_decide (rb_Name b = EmptyString) then [SpecNameRequired i]
   else if bool_decide (rb_Name b ∈ nameSet) then [SpecDuplicateName i (rb_Name b)] else []) ++
  validateBackendTimeout i b.

(** [validateBackends] from index [i] on: the names, the lookup by name (the last
    backend of a name wins) and the errors. *)
Fixpoint validateBackends (nameSet : gset string) (byName : gmap string RouterBackend) (i : nat) (bs : list RouterBackend)
    : gset string * gmap string RouterBackend * list spec_error :=
  match bs with
  | [] => (nameSet, byName, [])
  | b :: bs' =>
      let '(ns, bn, errs) := validateBackends ({[rb_Name b]} ∪ nameSet) (<[rb_Name b := b]> byName) (S i) bs' in
      (ns, bn, validateBackend nameSet i b ++ errs)
  end.

Definition sensitiveClassificationSet (policy : option RouterPolicy) : gset string :=
  match policy with
  | Some {| pol_Classification := Some c |} =>
      match sc_SensitiveClassifications c with
      | [] => {["pii"; "phi"]}
      | l => list_to_set l
      end
  | _ => {["pii"; "phi"]}
  end.

Fixpoint undefinedBackends (nameSet : gset string) (i j : nat) (names : list string) : list spec_error :=
  match names with
  | [] => []
  | n :: names' =>
      (if bool_decide (n ∈ nameSet) then [] else [SpecRuleUnknownBackend i j n]) ++
      undefinedBackends nameSet i (S j) names'
  end.

Definition validateRuleRoute (nameSet : gset string) (i : nat) (r : RouterRule) : list spec_error :=
  match sr_Backends (rl_Route r) with
  | [] => [SpecRuleNoBackends i]
  | names => undefinedBackends nameSet i 0 names
  end.

(** The classes of a rule's match that are sensitive. *)
Definition matchedSensitive (sensitive : gset string) (r : RouterRule) : list string :=
  match rl_Match r with
  | None => []
  | Some m => List.filter (fun c => bool_decide (c ∈ sensitive)) (sm_DataClassification m)
  end.

Fixpoint cloudBackends (byName : gmap string RouterBackend) (i : nat) (matched names : list string) : list spec_error :=
  match names with
  | [] => []
  | n :: names' =>
      match byName !! n with
      | None => []
      | Some b => if bool_decide (rb_Tier b = backendTierCloud) then [SpecRuleCloudBackend i n matched] else []
      end ++ cloudBackends byName i matched names'
  end.

Definition validateRuleSensitiveData (sensitive : gset string) (byName : gmap string RouterBackend) (i : nat)
    (r : RouterRule) : list spec_error :=
  match matchedSensitive sensitive r with
  | [] => []
  | matched =>
      (if rl_FailClosed r then [] else [SpecRuleFailOpen i matched]) ++
      cloudBackends byName i matched (sr_Backends (rl_Route r))
  end.

(** [validateRules] from index [i] on: the rule names and the errors. *)
Fixpoint validateRules (sensitive nameSet : gset string) (byName : gmap string RouterBackend) (i : nat)
    (rs : list RouterRule) : gset string * list spec_error :=
  match rs with
  | [] => (∅, [])
  | r :: rs' =>
      let '(ruleNames, errs) := validateRules sensitive nameSet byName (S i) rs' in
      ((if bool_decide (rl_Name r = EmptyString) then ∅ else {[rl_Name r]}) ∪ ruleNames,
       validateRuleRoute nameSet i r ++ validateRuleSensitiveData sensitive byName i r ++
       validateRuleTimeout i r ++ errs)
  end.

Definition positiveUSD (s : string) : bool :=
  match ParseFloat (TrimSpace s) with
  | Some f => fgt f fzero
  | None => false
  end.

Definition pricesTokens (c : option TokenCost) : bool :=
  match c with
  | None => false
  | Some c => positiveUSD (st_PromptUSD c) || positiveUSD (st_CompletionUSD c)
  end.

(** A budget that declares a dollar cap. *)
Definition capsUSD (b : BudgetSpec) : bool := negb (bool_decide (TrimSpace (bg_MaxUSD b) = EmptyString)).

(** The body of the budget loop. *)
Definition validateBudget (ruleNames : gset string) (i : nat) (b : BudgetSpec) : list spec_error :=
  (if bool_decide (bg_Scope b = "rule") then
     if bool_decide (bg_RuleName b = EmptyString) then [SpecBudgetRuleRequired i]
     else if bool_decide (bg_RuleName b ∈ ruleNames) then [] else [SpecBudgetUnknownRule i (bg_RuleName b)]
   else []) ++
  (if negb (is_set (bg_MaxTokens b)) && negb (capsUSD b) then [SpecBudgetNoCap i] else []).

Fixpoint validateBudgetList (ruleNames : gset string) (i : nat) (l : list BudgetSpec) : list spec_error :=
  match l with
  | [] => []
  | b :: l' => validateBudget ruleNames i b ++ validateBudgetList ruleNames (S i) l'
  end.

Fixpoint unpricedBackends (i : nat) (bs : list RouterBackend) : list spec_error :=
  match bs with
  | [] => []
  | b :: bs' => (if pricesTokens (rb_CostPerMillionTokens b) then [] else [SpecBackendPricing i]) ++
                unpricedBackends (S i) bs'
  end.

Definition validateBudgets (spec : ModelRouterSpec) (ruleNames : gset string) : list spec_error :=
  match spec_Policy spec with
  | None => []
  | Some p =>
      validateBudgetList ruleNames 0 (pol_Budgets p) ++
      (if existsb capsUSD (pol_Budgets p) then unpricedBackends 0 (spec_Backends spec) else [])
  end.

Definition validateModelRouter (spec : ModelRouterSpec) : list spec_error :=
  let '(nameSet, byName, backendErrs) := validateBackends ∅ ∅ 0 (spec_Backends spec) in
  let '(ruleNames, ruleErrs) :=
    validateRules (sensitiveClassificationSet (spec_Policy spec)) nameSet byName 0 (spec_Rules spec) in
  backendErrs ++
  (if negb (bool_decide (spec_DefaultRoute spec = EmptyString)) && negb (bool_decide (spec_DefaultRoute spec ∈ nameSet))
   then [SpecDefaultRoute (spec_DefaultRoute spec)] else []) ++
  ruleErrs ++ validateBudgets spec ruleNames.

(** ** The schema and its defaults

    What the API server admits by the markers of the types, on the fields above,
    and what it fills in.  An omitted string field decodes to the empty string. *)

Definition one_of (s : string) (l : list string) : bool := bool_decide (s ∈ l).

Definition label_byte (c : ascii) : bool := is_digit c || ((97 <=? byte_of c) && (byte_of c <=? 122)).

Fixpoint label_rest (s : string) : bool :=
  match s with
  | EmptyString => true
  | String c s' => (label_byte c || bool_decide (c = "-"%char)) && label_rest s'
  end.

(** The pattern of names: a letter or digit, then at most 62 of those or hyphens. *)
Definition is_label (s : string) : bool :=
  match s with
  | EmptyString => false
  | String c s' => label_byte c && label_rest s' && (String.length s' <=? 62)%nat
  end.

Definition decimal_or_empty (s : string) : bool := bool_decide (s = EmptyString) || is_decimal s.

Definition schema_cost (c : TokenCost) : bool :=
  decimal_or_empty (st_PromptUSD c) && decimal_or_empty (st_CompletionUSD c).

Definition schema_header (h : string) : bool :=
  negb (bool_decide (h = EmptyString)) && (String.length h <=? 256)%nat && all_token_bytes h.

Definition schema_affinity (s : SessionAffinity) : bool :=
  negb (bool_decide (sa_Headers s = [])) && (length (sa_Headers s) <=? 8)%nat && forallb schema_header (sa_Headers s) &&
  match sa_IdleTimeout s with Some d => (minute <=? d) && (d <=? 24 * hour) | None => true end.

Definition schema_balancing (b : BackendBalancing) : bool :=
  one_of (bb_Mode b) [EmptyString; "RoundRobin"; BalancingModeLoadAware] &&
  match bb_SessionAffinity b with Some s => schema_affinity s | None => true end.

Definition schema_backend (b : RouterBackend) : bool :=
  is_label (rb_Name b) &&
  one_of (rb_Tier b) [EmptyString; backendTierLocal; backendTierCloud] &&
  one_of (rb_Resolution b) [EmptyString; "service"; RouterBackendResolutionEndpoint] &&
  match rb_External b with
  | Some p => one_of (ex_Provider p) ["anthropic"; "openai"; "bedrock"; "vertex_ai"; "litellm"]
  | None => true
  end &&
  match rb_Balancing b with
  | Some bal => is_set (rb_InferenceServiceRef b) && one_of (rb_Resolution b) [RouterBackendResolutionEndpoint] &&
                schema_balancing bal
  | None => true
  end &&
  match rb_Weight b with Some w => (0 <=? w) && (w <? 2 ^ 31) | None => true end &&
  match rb_CostPerMillionTokens b with Some c => schema_cost c | None => true end.

Definition schema_rule (r : RouterRule) : bool :=
  is_label (rl_Name r) &&
  match rl_Match r with
  | Some m => one_of (sm_TaskComplexity m) [EmptyString; "simple"; "moderate"; "complex"]
  | None => true
  end &&
  negb (bool_decide (sr_Backends (rl_Route r) = [])) &&
  one_of (sr_Strategy (rl_Route r)) [EmptyString; "primary-fallback"; "weighted"; "shadow"] &&
  one_of (sr_PoolActivation (rl_Route r)) [EmptyString; "Wait"; "IfIdle"].

Definition schema_budget (b : BudgetSpec) : bool :=
  is_label (bg_Name b) && one_of (bg_Scope b) ["router"; "rule"; "team"] &&
  ((0 <=? bg_WindowSeconds b) && (bg_WindowSeconds b <? 2 ^ 31)) &&
  match bg_MaxTokens b with Some n => (1 <=? n) && (n <=? max_int64) | None => true end &&
  decimal_or_empty (bg_MaxUSD b).

Definition schema_policy (p : RouterPolicy) : bool :=
  forallb schema_budget (pol_Budgets p) &&
  match pol_Classification p with
  | Some c => one_of (sc_Mode c) [EmptyString; "header-only"; "detector"; "hybrid"]
  | None => true
  end &&
  match pol_AuditLog p with
  | Some a => one_of (sl_Sink a) [EmptyString; "stdout"; "file"; "otlp"]
  | None => true
  end.

Definition schema_ok (spec : ModelRouterSpec) : bool :=
  negb (bool_decide (spec_Backends spec = [])) && forallb schema_backend (spec_Backends spec) &&
  forallb schema_rule (spec_Rules spec) &&
  one_of (spec_DefaultRouteStrategy spec) [EmptyString; "Static"; "BackendNameMatch"] &&
  match spec_Policy spec with Some p => schema_policy p | None => true end.

Definition or_default (s d : string) : string := if bool_decide (s = EmptyString) then d else s.

Definition default_backend (b : RouterBackend) : RouterBackend :=
  {| rb_Name := rb_Name b; rb_DisplayName := rb_DisplayName b; rb_InferenceServiceRef := rb_InferenceServiceRef b;
     rb_External := rb_External b; rb_Tier := or_default (rb_Tier b) backendTierLocal;
     rb_Resolution := or_default (rb_Resolution b) "service";
     rb_Balancing := (fun bal => {| bb_Mode := or_default (bb_Mode bal) "RoundRobin";
                                    bb_SessionAffinity := bb_SessionAffinity bal |}) <$> rb_Balancing b;
     rb_Capabilities := rb_Capabilities b; rb_Weight := rb_Weight b;
     rb_CostPerMillionTokens := rb_CostPerMillionTokens b; rb_Timeout := rb_Timeout b |}.

Definition default_rule (r : RouterRule) : RouterRule :=
  {| rl_Name := rl_Name r; rl_Match := rl_Match r;
     rl_Route := {| sr_Backends := sr_Backends (rl_Route r);
                    sr_Strategy := or_default (sr_Strategy (rl_Route r)) "primary-fallback";
                    sr_PoolActivation := or_default (sr_PoolActivation (rl_Route r)) "Wait" |};
     rl_FailClosed := rl_FailClosed r; rl_Timeout := rl_Timeout r |}.

Definition default_policy (p : RouterPolicy) : RouterPolicy :=
  {| pol_Budgets := (fun b => {| bg_Name := bg_Name b; bg_Scope := bg_Scope b; bg_RuleName := bg_RuleName b;
                                 bg_HeaderKey := bg_HeaderKey b;
                                 bg_WindowSeconds := if bg_WindowSeconds b =? 0 then 3600 else bg_WindowSeconds b;
                                 bg_MaxTokens := bg_MaxTokens b; bg_MaxUSD := bg_MaxUSD b |}) <$> pol_Budgets p;
     pol_Classification := (fun c => {| sc_Mode := or_default (sc_Mode c) "header-only"; sc_HeaderKey := sc_HeaderKey c;
                                        sc_SensitiveClassifications := sc_SensitiveClassifications c |})
                           <$> pol_Classification p;
     pol_AuditLog := (fun a => {| sl_Sink := or_default (sl_Sink a) "stdout"; sl_FilePath := sl_FilePath a;
                                  sl_IncludeRequestBody := sl_IncludeRequestBody a |}) <$> pol_AuditLog p |}.

(** The specification as it is stored. *)
Definition default_spec (s : ModelRouterSpec) : ModelRouterSpec :=
  {| spec_Backends := default_backend <$> spec_Backends s; spec_Rules := default_rule <$> spec_Rules s;
     spec_DefaultRoute := spec_DefaultRoute s;
     spec_DefaultRouteStrategy := or_default (spec_DefaultRouteStrategy s) "Static";
     spec_Policy := default_policy <$> spec_Policy s |}.

(** ** What a valid specification is *)

Definition timeout_ok (d : option Z) : Prop :=
  match d with Some d => minRouterTimeout <= d <= maxRouterTimeout | None => True end.

Record spec_backend_ok (b : RouterBackend) : Prop := {
  sb_kind : is_set (rb_InferenceServiceRef b) = negb (is_set (rb_External b));
  sb_tier : rb_InferenceServiceRef b ≠ None -> rb_Tier b ≠ backendTierCloud;
  sb_name : rb_Name b ≠ EmptyString;
  sb_timeout : timeout_ok (rb_Timeout b);
}.

Record spec_rule_ok (spec : ModelRouterSpec) (r : RouterRule) : Prop := {
  sro_some : sr_Backends (rl_Route r) ≠ [];
  sro_known : Forall (fun n => n ∈ rb_Name <$> spec_Backends spec) (sr_Backends (rl_Route r));
  sro_sensitive : forall m c, rl_Match r = Some m -> c ∈ sm_DataClassification m ->
      c ∈ sensitiveClassificationSet (spec_Policy spec) ->
      rl_FailClosed r = true /\
      forall b, b ∈ spec_Backends spec -> rb_Name b ∈ sr_Backends (rl_Route r) -> rb_Tier b ≠ backendTierCloud;
  sro_timeout : timeout_ok (rl_Timeout r);
}.

Record spec_budget_ok (spec : ModelRouterSpec) (b : BudgetSpec) : Prop := {
  sbo_rule : bg_Scope b = "rule" -> bg_RuleName b ≠ EmptyString /\ bg_RuleName b ∈ rl_Name <$> spec_Rules spec;
  sbo_cap : bg_MaxTokens b ≠ None \/ capsUSD b = true;
  sbo_priced : capsUSD b = true -> Forall (fun be => pricesTokens (rb_CostPerMillionTokens be) = true) (spec_Backends spec);
}.

Definition spec_Budgets (spec : ModelRouterSpec) : list BudgetSpec :=
  match spec_Policy spec with Some p => pol_Budgets p | None => [] end.

Record SpecValid (spec : ModelRouterSpec) : Prop := {
  sv_backends : Forall spec_backend_ok (spec_Backends spec);
  sv_unique : NoDup (rb_Name <$> spec_Backends spec);
  sv_default : spec_DefaultRoute spec = EmptyString \/ spec_DefaultRoute spec ∈ rb_Name <$> spec_Backends spec;
  sv_rules : Forall (spec_rule_ok spec) (spec_Rules spec);
  sv_budgets : Forall (spec_budget_ok spec) (spec_Budgets spec);
}.

(** ** Lemmas *)

Lemma errs_app {A} (l1 l2 : list A) : l1 ++ l2 = [] <-> l1 = [] /\ l2 = [].
Proof. destruct l1; simpl; naive_solver. Qed.

Lemma errs_if {A} (c : bool) (e : A) : (if c then [e] else []) = [] <-> c = false.
Proof. destruct c; naive_solver. Qed.

Lemma errs_unless {A} (c : bool) (e : A) : (if c then [] else [e]) = [] <-> c = true.
Proof. destruct c; naive_solver. Qed.

Create Rewrite HintDb errs.
#[export] Hint Rewrite @errs_app @errs_if @errs_unless : errs.
#[export] Hint Rewrite negb_true_iff negb_false_iff andb_false_iff andb_true_iff orb_true_iff : errs.
#[export] Hint Rewrite @bool_decide_eq_true @bool_decide_eq_false Z.ltb_ge : errs.

Lemma validateBackendTimeout_nil (i : nat) (b : RouterBackend) :
  validateBackendTimeout i b = [] <-> timeout_ok (rb_Timeout b).
Proof.
  unfold validateBackendTimeout, timeout_ok. destruct (rb_Timeout b) as [d|]; [|tauto].
  repeat case_match; autorewrite with errs in *; rewrite ?Z.ltb_lt in *; intuition (try lia; done).
Qed.

Lemma validateRuleTimeout_nil (i : nat) (r : RouterRule) :
  validateRuleTimeout i r = [] <-> timeout_ok (rl_Timeout r).
Proof.
  unfold validateRuleTimeout, timeout_ok. destruct (rl_Timeout r) as [d|]; [|tauto].
  repeat case_match; autorewrite with errs in *; rewrite ?Z.ltb_lt in *; intuition (try lia; done).
Qed.

Lemma validateBackend_nil (nameSet : gset string) (i : nat) (b : RouterBackend) :
  validateBackend nameSet i b = [] <-> spec_backend_ok b /\ rb_Name b ∉ nameSet.
Proof.
  unfold validateBackend. autorewrite with errs. rewrite validateBackendTimeout_nil.
  assert (Hk : validateBackendKindExclusivity i b = [] <-> is_set (rb_InferenceServiceRef b) = negb (is_set (rb_External b))).
  { unfold validateBackendKindExclusivity. destruct (rb_InferenceServiceRef b), (rb_External b); simpl; naive_solver. }
  assert (Ht : is_set (rb_InferenceServiceRef b) = false \/ rb_Tier b ≠ backendTierCloud <->
               (rb_InferenceServiceRef b ≠ None -> rb_Tier b ≠ backendTierCloud)).
  { destruct (rb_InferenceServiceRef b); simpl; naive_solver. }
  rewrite Hk, Ht. repeat case_bool_decide; split.
  all: try (intros (?&?&?&?); done).
  all: try (intros [[] ?]; done).
Qed.

Lemma validateBackends_spec (bs : list RouterBackend) (ns : gset string) (bn : gmap string RouterBackend) (i : nat) :
  (validateBackends ns bn i bs).1 =
    (list_to_set (rb_Name <$> bs) ∪ ns, foldl (fun m b => <[rb_Name b := b]> m) bn bs) /\
  ((validateBackends ns bn i bs).2 = [] <->
   Forall spec_backend_ok bs /\ NoDup (rb_Name <$> bs) /\ Forall (fun n => n ∉ ns) (rb_Name <$> bs)).
Proof.
  revert ns bn i. induction bs as [|b bs IH]; intros ns bn i; simpl.
  - split; [f_equal; set_solver|]. split; auto using NoDup_nil_2.
  - specialize (IH ({[rb_Name b]} ∪ ns) (<[rb_Name b := b]> bn) (S i)).
    destruct (validateBackends _ _ _ bs) as [[ns' bn'] errs]. simpl in *. destruct IH as [[= -> ->] IH].
    split; [f_equal; set_solver|].
    rewrite errs_app, validateBackend_nil, IH, !Forall_cons, NoDup_cons, !Forall_forall. split.
    + intros ([? ?] & ? & ? & Hn). split_and!; auto; set_solver.
    + intros ([? ?] & [? ?] & ? & Hn). split_and!; auto; set_solver.
Qed.

Lemma undefinedBackends_nil (nameSet : gset string) (i j : nat) (names : list string) :
  undefinedBackends nameSet i j names = [] <-> Forall (fun n => n ∈ nameSet) names.
Proof.
  revert j. induction names as [|n names IH]; intros j; simpl; [by split|].
  by rewrite errs_app, errs_unless, bool_decide_eq_true, IH, Forall_cons.
Qed.

Lemma cloudBackends_nil (byName : gmap string RouterBackend) (i : nat) (matched names : list string) :
  cloudBackends byName i matched names = [] <->
  forall n b, n ∈ names -> byName !! n = Some b -> rb_Tier b ≠ backendTierCloud.
Proof.
  induction names as [|n names IH]; simpl; [split; [intros _ n b H; by apply not_elem_of_nil in H|done]|].
  rewrite errs_app, IH. split.
  - intros [H1 H2] n' b [->|Hn]%elem_of_cons Hb; [|eauto].
    rewrite Hb, errs_if, bool_decide_eq_false in H1. done.
  - intros H. split; [|intros n' b Hn; apply H; by right].
    destruct (byName !! n) as [b|] eqn:E; [|done]. rewrite errs_if, bool_decide_eq_false.
    apply (H n); [by left|done].
Qed.

Lemma matchedSensitive_elem (s : gset string) (r : RouterRule) (c : string) :
  c ∈ matchedSensitive s r <-> exists m, rl_Match r = Some m /\ c ∈ sm_DataClassification m /\ c ∈ s.
Proof.
  unfold matchedSensitive. destruct (rl_Match r) as [m|].
  - rewrite list_elem_of_In, filter_In, <- list_elem_of_In, bool_decide_eq_true. naive_solver.
  - rewrite elem_of_nil. naive_solver.
Qed.

Lemma validateRuleSensitiveData_nil (s : gset string) (byName : gmap string RouterBackend) (i : nat) (r : RouterRule) :
  validateRuleSensitiveData s byName i r = [] <->
  forall c, c ∈ matchedSensitive s r -> rl_FailClosed r = true /\
    forall n b, n ∈ sr_Backends (rl_Route r) -> byName !! n = Some b -> rb_Tier b ≠ backendTierCloud.
Proof.
  unfold validateRuleSensitiveData. destruct (matchedSensitive s r) as [|c cs].
  - split; [intros _ c Hc; by apply not_elem_of_nil in Hc|done].
  - rewrite errs_app, errs_unless, cloudBackends_nil. split; [by intros [? ?] c' _|].
    intros H. apply (H c). by left.
Qed.

Section Rules.
Context (spec : ModelRouterSpec) (Hnd : NoDup (rb_Name <$> spec_Backends spec)).

(** The names and the lookup that [validateBackends] hands to the rules. *)
Let nameSet : gset string := list_to_set (rb_Name <$> spec_Backends spec) ∪ ∅.
Let byName : gmap string RouterBackend := foldl (fun m b => <[rb_Name b := b]> m) ∅ (spec_Backends spec).

Lemma byName_lookup (n : string) (b : RouterBackend) :
  byName !! n = Some b <-> b ∈ spec_Backends spec /\ rb_Name b = n.
Proof.
  unfold byName. rewrite (foldl_insert_lookup rb_Name) by done. split.
  - destruct (List.find _ _) as [b'|] eqn:E; [|done]. intros [= ->].
    apply find_some in E as [E Hn]. apply bool_decide_eq_true in Hn. by rewrite list_elem_of_In.
  - intros [Hb <-]. by rewrite (find_elem_nodup rb_Name).
Qed.

Lemma validateRule_nil (i : nat) (r : RouterRule) :
  validateRuleRoute nameSet i r = [] /\
  validateRuleSensitiveData (sensitiveClassificationSet (spec_Policy spec)) byName i r = [] /\
  validateRuleTimeout i r = [] <-> spec_rule_ok spec r.
Proof.
  assert (Hr : validateRuleRoute nameSet i r = [] <-> sr_Backends (rl_Route r) ≠ [] /\
               Forall (fun n => n ∈ rb_Name <$> spec_Backends spec) (sr_Backends (rl_Route r))).
  { unfold validateRuleRoute. destruct (sr_Backends _) as [|n l]; [naive_solver|].
    rewrite undefinedBackends_nil, !Forall_forall. unfold nameSet. set_solver. }
  rewrite Hr, validateRuleSensitiveData_nil, validateRuleTimeout_nil.
  setoid_rewrite matchedSensitive_elem. setoid_rewrite byName_lookup. split.
  - intros ([H1 H2] & H3 & H4). split; auto. intros m c Hm Hc Hs. destruct (H3 c) as [? H]; [by exists m|].
    split; [done|]. intros b Hb Hn. by apply (H (rb_Name b)).
  - intros [H1 H2 H3 H4]. split_and!; auto. intros c (m & Hm & Hc & Hs).
    destruct (H3 m c Hm Hc Hs) as [? H]. split; [done|]. intros n b Hn [Hb <-]. auto.
Qed.

Lemma validateRules_spec (i : nat) (rs : list RouterRule) :
  let out := validateRules (sensitiveClassificationSet (spec_Policy spec)) nameSet byName i rs in
  (forall n, n ∈ out.1 <-> n ≠ EmptyString /\ n ∈ rl_Name <$> rs) /\ (out.2 = [] <-> Forall (spec_rule_ok spec) rs).
Proof.
  cbv zeta. revert i. induction rs as [|r rs IH]; intros i; simpl.
  - split; [set_solver|by split].
  - specialize (IH (S i)). destruct (validateRules _ _ _ _ rs) as [rn errs]. simpl in *. destruct IH as [IH1 IH2].
    split.
    + intros n. rewrite elem_of_union, IH1, elem_of_cons. case_bool_decide; set_solver.
    + rewrite !errs_app, Forall_cons, <- IH2, <- (validateRule_nil i). tauto.
Qed.

End Rules.

Lemma validateBudget_nil (ruleNames : gset string) (i : nat) (b : BudgetSpec) :
  validateBudget ruleNames i b = [] <->
  (bg_Scope b = "rule" -> bg_RuleName b ≠ EmptyString /\ bg_RuleName b ∈ ruleNames) /\
  (bg_MaxTokens b ≠ None \/ capsUSD b = true).
Proof.
  unfold validateBudget. rewrite errs_app. f_equiv.
  - repeat case_bool_decide; naive_solver.
  - destruct (bg_MaxTokens b), (capsUSD b); simpl; naive_solver.
Qed.

Lemma validateBudgetList_nil (ruleNames : gset string) (i : nat) (l : list BudgetSpec) :
  validateBudgetList ruleNames i l = [] <-> Forall (fun b => forall i, validateBudget ruleNames i b = []) l.
Proof.
  revert i. induction l as [|b l IH]; intros i; simpl; [by split|].
  rewrite errs_app, IH, Forall_cons. setoid_rewrite validateBudget_nil. naive_solver.
Qed.

Lemma unpricedBackends_nil (i : nat) (bs : list RouterBackend) :
  unpricedBackends i bs = [] <-> Forall (fun b => pricesTokens (rb_CostPerMillionTokens b) = true) bs.
Proof.
  revert i. induction bs as [|b bs IH]; intros i; simpl; [by split|].
  by rewrite errs_app, errs_unless, IH, Forall_cons.
Qed.

Lemma validateBudgets_nil (spec : ModelRouterSpec) (ruleNames : gset string) :
  (forall n, n ∈ ruleNames <-> n ≠ EmptyString /\ n ∈ rl_Name <$> spec_Rules spec) ->
  validateBudgets spec ruleNames = [] <-> Forall (spec_budget_ok spec) (spec_Budgets spec).
Proof.
  intros Hn. unfold validateBudgets, spec_Budgets. destruct (spec_Policy spec) as [p|]; [|by split].
  assert (Hu : (if existsb capsUSD (pol_Budgets p) then unpricedBackends 0 (spec_Backends spec) else []) = [] <->
     forall b, b ∈ pol_Budgets p -> capsUSD b = true ->
          Forall (fun be => pricesTokens (rb_CostPerMillionTokens be) = true) (spec_Backends spec)).
  { destruct (existsb capsUSD (pol_Budgets p)) eqn:E.
    - rewrite unpricedBackends_nil. apply existsb_exists in E as (b & Hb & Hc). apply list_elem_of_In in Hb. naive_solver.
    - split; [|done]. intros _ b Hb Hc. apply list_elem_of_In in Hb.
      assert (existsb capsUSD (pol_Budgets p) = true) by (apply existsb_exists; eauto). congruence. }
  rewrite errs_app, Hu, validateBudgetList_nil, Forall_forall. setoid_rewrite validateBudget_nil. setoid_rewrite Hn.
  rewrite (Forall_forall (spec_budget_ok spec)). split.
  - intros [H1 H2] b Hb. destruct (H1 b Hb 0%nat). split; [naive_solver|done|eauto].
  - intros H. split; [|intros b Hb; apply (H b Hb)]. intros b Hb _. destruct (H b Hb). naive_solver.
Qed.

Lemma validateModelRouter_nil (spec : ModelRouterSpec) : validateModelRouter spec = [] <-> SpecValid spec.
Proof.
  unfold validateModelRouter. pose proof (validateBackends_spec (spec_Backends spec) ∅ ∅ 0) as [Hb1 Hb2].
  destruct (validateBackends _ _ _ _) as [[ns bn] berrs]. simpl in *. injection Hb1 as -> ->.
  assert (Hd : Forall (fun n => n ∉ (∅ : gset string)) (rb_Name <$> spec_Backends spec)) by (apply Forall_forall; set_solver).
  destruct (decide (NoDup (rb_Name <$> spec_Backends spec))) as [Hnd|Hnd].
  - pose proof (validateRules_spec spec Hnd 0 (spec_Rules spec)) as [Hr1 Hr2].
    destruct (validateRules _ _ _ _ _) as [rn rerrs]. simpl in *.
    rewrite !errs_app, Hb2, Hr2, (validateBudgets_nil spec rn Hr1), errs_if, union_empty_r_L.
    autorewrite with errs. rewrite elem_of_list_to_set. split; [intros (?&?&?&?); split; tauto|intros []; tauto].
  - destruct (validateRules _ _ _ _ _) as [rn rerrs]. rewrite errs_app, Hb2.
    split; [tauto|]. intros H. by destruct (Hnd (sv_unique _ H)).
Qed.

(** ** Properties *)

