(* ===== verification/RouterCompile.v ===== *)
(** * Compilation of a ModelRouter (internal/controller/router_config_builder.go)

    How the controller turns a ModelRouter into the configuration of its proxy:
    [resolveBackend] for each backend, the translation of rules, policy, budgets and
    prices, the API-key checks of modelrouter_backend_auth.go and endpoint_auth.go,
    and [compileRouterConfig], which refuses a configuration that does not pass the
    proxy's [Validate].

    The answers of the Kubernetes API are a record of functions, so one compilation
    reads one state of the cluster; a lookup finds an object, reports that it does
    not exist, or fails.  A status message is a list of [backend_message]s, which
    the source joins with semicolons.  The JSON text and its hash are represented by
    the configuration they are computed from; events and probe times are left
    out. *)

From stdpp Require Import base gmap strings list.
From Stdlib Require Import ZArith Lia Bool Ascii.
From S2P Require Import Prelude GoStrings GoFloat GoStrconv RouterConfig RouterSpec.

(** ** The cluster *)

Inductive lookup_result (A : Type) :=
| Found (a : A)
| NotFound
| LookupFailed.
Arguments Found {A} _.
Arguments NotFound {A}.
Arguments LookupFailed {A}.

(** The part of an InferenceService that the compilation reads. *)
Record InferenceService := {
  is_Name : string;
  is_Namespace : string;
  is_Runtime : string;
  is_ModelRef : string;
  is_EndpointPort : Z;
  is_APIKeySecretRef : option string;
  is_ExtraArgs : list string;
  is_Command : list string;
  is_Args : list string;
  is_Env : list string;
}.

Record Model := {
  md_Name : string;
  md_Source : string;
}.

Record Endpoint := {
  ept_Ready : option bool;
  ept_Addresses : list string;
}.

Record ModelPool := {
  mpl_Name : string;
  mpl_Namespace : string;
  mpl_Members : list string;
  mpl_SwapBudget : option Z;
}.

(** The API server's answers; a list call gives [None] when it fails.  A Secret is
    the set of its keys, an EndpointSlice the list of its endpoints. *)
Record Cluster := {
  getInferenceService : string -> string -> lookup_result InferenceService;
  getModel : string -> string -> lookup_result Model;
  getSecret : string -> string -> lookup_result (gset string);
  listEndpointSlices : string -> string -> option (list (list Endpoint));
  listModelPools : string -> option (list ModelPool);
}.

(** An object that is found has the name and namespace asked for, and neither is
    empty. *)
Class ClusterLaws (C : Cluster) : Prop := {
  cl_found : forall ns n isvc, getInferenceService C ns n = Found isvc ->
    is_Name isvc = n /\ is_Namespace isvc = ns /\ n ≠ EmptyString /\ ns ≠ EmptyString;
}.

(** ** Prices and budgets *)

Definition parseUSD (s : string) : float64 :=
  let s := TrimSpace s in
  if is_empty s then fzero
  else match ParseFloat s with
       | None => fzero
       | Some f => if flt f fzero then fzero else f
       end.

Definition translateTokenCost (c : option RouterSpec.TokenCost) : option RouterConfig.TokenCost :=
  (fun c => {| tc_PromptUSD := parseUSD (st_PromptUSD c); tc_CompletionUSD := parseUSD (st_CompletionUSD c) |}) <$> c.

Definition translateBudget (b : BudgetSpec) : Budget :=
  let window := wrap64 (bg_WindowSeconds b * second) in
  {| bu_Name := bg_Name b; bu_Scope := bg_Scope b; bu_RuleName := bg_RuleName b; bu_HeaderKey := bg_HeaderKey b;
     bu_Window := if window <=? 0 then hour else window;
     bu_MaxTokens := default 0 (bg_MaxTokens b);
     bu_MaxUSD := parseUSD (bg_MaxUSD b) |}.

Definition translateBudgets (l : list BudgetSpec) : list Budget := map translateBudget l.

(** ** Rules and policy *)

Definition empty_match : RouterConfig.RuleMatch :=
  {| rm_DataClassification := []; rm_TaskComplexity := EmptyString; rm_RequiredCapabilities := [];
     rm_Headers := ∅; rm_Models := [] |}.

Definition translateRule (r : RouterRule) : Rule :=
  {| ru_Name := rl_Name r;
     ru_Match := match rl_Match r with
                 | Some m => {| rm_DataClassification := sm_DataClassification m; rm_TaskComplexity := sm_TaskComplexity m;
                                rm_RequiredCapabilities := sm_RequiredCapabilities m; rm_Headers := sm_Headers m;
                                rm_Models := sm_Models m |}
                 | None => empty_match
                 end;
     ru_Route := {| rr_Backends := sr_Backends (rl_Route r); rr_Strategy := sr_Strategy (rl_Route r);
                    rr_PoolActivation := sr_PoolActivation (rl_Route r) |};
     ru_FailClosed := rl_FailClosed r;
     ru_Timeout := default 0 (rl_Timeout r) |}.

Definition translatePolicy (p : option RouterPolicy) : Policy :=
  match p with
  | None => {| po_Classification := {| cp_Mode := "header-only"; cp_HeaderKey := EmptyString; cp_Sensitive := [] |};
               po_AuditLog := {| al_Sink := "stdout"; al_FilePath := EmptyString; al_IncludeRequestBody := false |};
               po_Budgets := [] |}
  | Some p =>
      {| po_Classification :=
           match pol_Classification p with
           | Some c => {| cp_Mode := or_default (sc_Mode c) "header-only"; cp_HeaderKey := sc_HeaderKey c;
                          cp_Sensitive := sc_SensitiveClassifications c |}
           | None => {| cp_Mode := "header-only"; cp_HeaderKey := EmptyString; cp_Sensitive := [] |}
           end;
         po_AuditLog :=
           match pol_AuditLog p with
           | Some a => {| al_Sink := or_default (sl_Sink a) "stdout"; al_FilePath := sl_FilePath a;
                          al_IncludeRequestBody := sl_IncludeRequestBody a |}
           | None => {| al_Sink := "stdout"; al_FilePath := EmptyString; al_IncludeRequestBody := false |}
           end;
         po_Budgets := translateBudgets (pol_Budgets p) |}
  end.

(** ** API keys (endpoint_auth.go, runtime_args.go) *)

Definition hasMatchingExtraArg (args : list string) (name : string) : bool :=
  let flag := if HasPrefix name "-" then name else "--" +:+ name in
  existsb (fun v => bool_decide (v = flag) || HasPrefix v (flag +:+ "=")) args.

Definition RuntimeVLLM : string := "vllm".
Definition RuntimeOMLX : string := "omlx".
Definition vllmAPIKeyEnv : string := "VLLM_API_KEY".

Definition inferenceServiceRequiresAPIKey (isvc : InferenceService) : bool :=
  if is_set (is_APIKeySecretRef isvc) then true
  else if hasMatchingExtraArg (is_ExtraArgs isvc) "api-key" then true
  else if negb (is_nil (is_Command isvc)) && hasMatchingExtraArg (is_Args isvc) "api-key" then true
  else bool_decide (is_Runtime isvc = RuntimeVLLM) && existsb (fun e => bool_decide (e = vllmAPIKeyEnv)) (is_Env isvc).

(** ** Backends *)

Inductive backend_message :=
| MsgServiceNotFound (name : string)
| MsgServiceLookup (name : string)
| MsgNoReadyEndpoints
| MsgListSlices (service : string)
| MsgListPools
| MsgExternalURL (provider : string)
| MsgSecretNotFound (name : string)
| MsgSecretLookup (name : string)
| MsgSecretKey (name key : string)
| MsgNoKind
| MsgKeyed (backend : string)
| MsgKeyedPool (pool : string) (members : list string).

Record BackendStatus := {
  bs_Name : string;
  bs_Tier : string;
  bs_Address : string;
  bs_Healthy : bool;
  bs_Message : list backend_message;
}.

Inductive compile_error :=
| ErrServiceLookup (name : string)
| ErrInvalidConfig (e : config_error).

Definition defaultAnthropicURL : string := "https://api.anthropic.com".
Definition defaultOpenAIURL : string := "https://api.openai.com".

Definition wellKnownCredEnv (provider : string) : string :=
  if bool_decide (provider = "anthropic") then "ANTHROPIC_API_KEY"
  else if bool_decide (provider = "openai") then "OPENAI_API_KEY"
  else if bool_decide (provider = "litellm") then "LITELLM_MASTER_KEY"
  else if bool_decide (provider = "bedrock") then "AWS_ACCESS_KEY_ID"
  else if bool_decide (provider = "vertex_ai") then "GOOGLE_APPLICATION_CREDENTIALS"
  else EmptyString.

Definition sanitizeDNSName (name : string) : string := ReplaceByte name "."%char "-"%char.

Definition resolveServingRuntime (isvc : InferenceService) : string := or_default (is_Runtime isvc) "llamacpp".

(** The port of an InferenceService's endpoint, 8080 when it sets none. *)
Definition servicePort (isvc : InferenceService) : Z := if 0 <? is_EndpointPort isvc then is_EndpointPort isvc else 8080.

Definition serviceURL (isvc : InferenceService) : string :=
  "http://" +:+ sanitizeDNSName (is_Name isvc) +:+ "." +:+ is_Namespace isvc +:+ ".svc.cluster.local:" +:+ Itoa (servicePort isvc).

(** [router.ReadyEndpointURLs] (endpoints.go): a nil ready condition counts as
    ready. *)
Definition ReadyEndpointURLs (slices : list (list Endpoint)) (port : Z) : list string :=
  concat (map (fun ep => match ept_Ready ep with
                      | Some false => []
                      | _ => map (fun a => "http://" +:+ a +:+ ":" +:+ Itoa port) (ept_Addresses ep)
                      end) (concat slices)).

Definition vllmMetricsProfile : MetricsProfile :=
  {| mp_Path := "/metrics"; mp_Running := "vllm:num_requests_running";
     mp_Waiting := "vllm:num_requests_waiting"; mp_KVUsage := "vllm:kv_cache_usage_perc" |}.

Section Compile.
Context (C : Cluster) (defaultLiteLLMURL : string) (ValidHeaderFieldName : string -> bool).

(** The address of an external provider, empty when none is known. *)
Definition resolveExternalURL (p : ExternalProvider) : string * list backend_message :=
  if negb (is_empty (ex_URL p)) then (ex_URL p, [])
  else if bool_decide (ex_Provider p = "anthropic") then (defaultAnthropicURL, [])
  else if bool_decide (ex_Provider p = "openai") then (defaultOpenAIURL, [])
  else if bool_decide (ex_Provider p = "litellm") then
    if negb (is_empty defaultLiteLLMURL) then (defaultLiteLLMURL, []) else (EmptyString, [MsgExternalURL (ex_Provider p)])
  else (EmptyString, [MsgExternalURL (ex_Provider p)]).

Definition resolveInferenceServiceAddress (ns name : string) : string * list backend_message :=
  match getInferenceService C ns name with
  | NotFound => (EmptyString, [MsgServiceNotFound name])
  | LookupFailed => (EmptyString, [MsgServiceLookup name])
  | Found isvc => (serviceURL isvc, [])
  end.

Definition localBackendServedModel (ns name : string) : string :=
  match getInferenceService C ns name with
  | Found isvc =>
      if negb (bool_decide (is_Runtime isvc = RuntimeOMLX)) || is_empty (is_ModelRef isvc) then EmptyString
      else match getModel C ns (is_ModelRef isvc) with
           | Found m => if negb (is_empty (md_Source m)) then Base (md_Source m) else md_Name m
           | _ => EmptyString
           end
  | _ => EmptyString
  end.

(** The ready pod URLs, the Service to watch, its address and a message. *)
Definition resolveInferenceServiceEndpoints (ns name : string)
    : list string * option EndpointSource * string * list backend_message :=
  match getInferenceService C ns name with
  | NotFound => ([], None, EmptyString, [MsgServiceNotFound name])
  | LookupFailed => ([], None, EmptyString, [MsgServiceLookup name])
  | Found isvc =>
      let svc := sanitizeDNSName (is_Name isvc) in
      let source := Some {| es_Namespace := is_Namespace isvc; es_Service := svc; es_Port := servicePort isvc |} in
      match listEndpointSlices C ns svc with
      | None => ([], source, serviceURL isvc, [MsgListSlices svc])
      | Some slices => (ReadyEndpointURLs slices (servicePort isvc), source, serviceURL isvc, [])
      end
  end.

(** The first pool of the namespace with the member: [None] when listing failed. *)
Definition resolveBackendPool (ns member : string) : option (option BackendPool) :=
  match listModelPools C ns with
  | None => None
  | Some pools =>
      Some ((fun p => {| bp_Name := mpl_Name p; bp_Namespace := mpl_Namespace p; bp_Member := member;
                         bp_Members := mpl_Members p; bp_SwapBudget := default 0 (mpl_SwapBudget p) |})
            <$> List.find (fun p => existsb (fun m => bool_decide (m = member)) (mpl_Members p)) pools)
  end.

(** [None] when the Secret exists with the key. *)
Definition assertCredentialsSecretExists (ns name expectedKey : string) : option backend_message :=
  match getSecret C ns name with
  | NotFound => Some (MsgSecretNotFound name)
  | LookupFailed => Some (MsgSecretLookup name)
  | Found keys =>
      if is_empty expectedKey then None
      else if bool_decide (expectedKey ∈ keys) then None else Some (MsgSecretKey name expectedKey)
  end.

Definition compileBalancing (ns isvcName : string) (b : option BackendBalancing)
    : result compile_error (option Balancing * option MetricsProfile) :=
  match b with
  | None => Ok (None, None)
  | Some b =>
      let loadAware := bool_decide (bb_Mode b = BalancingLoadAware) in
      let out := Some match bb_SessionAffinity b with
        | Some sa => if loadAware
                     then {| bal_Mode := bb_Mode b; bal_SessionHeaders := sa_Headers sa;
                             bal_SessionIdleTimeout := default 0 (sa_IdleTimeout sa) |}
                     else {| bal_Mode := bb_Mode b; bal_SessionHeaders := []; bal_SessionIdleTimeout := 0 |}
        | None => {| bal_Mode := bb_Mode b; bal_SessionHeaders := []; bal_SessionIdleTimeout := 0 |}
        end in
      if negb loadAware then Ok (out, None)
      else match getInferenceService C ns isvcName with
           | NotFound => Ok (out, None)
           | LookupFailed => Err (ErrServiceLookup isvcName)
           | Found isvc => if bool_decide (resolveServingRuntime isvc = RuntimeVLLM)
                           then Ok (out, Some vllmMetricsProfile) else Ok (out, None)
           end
  end.

(** The wire form of a backend before its kind is looked at. *)
Definition wire_base (b : RouterBackend) : Backend :=
  {| be_Name := rb_Name b; be_DisplayName := rb_DisplayName b; be_Tier := rb_Tier b; be_Address := EmptyString;
     be_Endpoints := []; be_EndpointSource := None; be_Balancing := None; be_Metrics := None;
     be_Provider := EmptyString; be_Model := EmptyString; be_ServedModel := EmptyString;
     be_InferenceService := EmptyString; be_Capabilities := rb_Capabilities b; be_Weight := default 0 (rb_Weight b);
     be_CredentialsEnv := EmptyString; be_Timeout := default 0 (rb_Timeout b); be_Pool := None;
     be_CostPerMillionTokens := translateTokenCost (rb_CostPerMillionTokens b) |}.

(** The local branch of [resolveBackend]. *)
Definition resolveLocal (ns : string) (b : RouterBackend) (name : string) : result compile_error (Backend * BackendStatus) :=
  let base := wire_base b in
  let tier := or_default (rb_Tier b) backendTierLocal in
  '(addr, source, bal, metrics, healthy, msg) ←
    (if bool_decide (rb_Resolution b = RouterBackendResolutionEndpoint) then
       let '(endpoints, source, svcAddr, msg) := resolveInferenceServiceEndpoints ns name in
       '(bal, metrics) ← compileBalancing ns name (rb_Balancing b);
       Ok (svcAddr, source, bal, metrics, negb (is_nil endpoints),
           if is_nil endpoints then msg ++ [MsgNoReadyEndpoints] else msg)
     else
       let '(addr, msg) := resolveInferenceServiceAddress ns name in
       Ok (addr, None, None, None, negb (is_empty addr), msg));
  let '(pool, poolMsg) := match resolveBackendPool ns name with
                          | None => (None, [MsgListPools])
                          | Some p => (p, [])
                          end in
  Ok ({| be_Name := be_Name base; be_DisplayName := be_DisplayName base; be_Tier := tier; be_Address := addr;
         be_Endpoints := []; be_EndpointSource := source; be_Balancing := bal; be_Metrics := metrics;
         be_Provider := EmptyString; be_Model := EmptyString; be_ServedModel := localBackendServedModel ns name;
         be_InferenceService := name; be_Capabilities := be_Capabilities base; be_Weight := be_Weight base;
         be_CredentialsEnv := EmptyString; be_Timeout := be_Timeout base; be_Pool := pool;
         be_CostPerMillionTokens := be_CostPerMillionTokens base |},
      {| bs_Name := rb_Name b; bs_Tier := tier; bs_Address := addr; bs_Healthy := healthy; bs_Message := msg ++ poolMsg |}).

(** The external branch of [resolveBackend]. *)
Definition resolveExternal (ns : string) (b : RouterBackend) (p : ExternalProvider) : Backend * BackendStatus :=
  let base := wire_base b in
  let tier := or_default (rb_Tier b) backendTierCloud in
  let '(addr, urlMsg) := resolveExternalURL p in
  let cred := match ex_CredentialsSecretRef p with
              | Some _ => if is_empty addr then EmptyString else wellKnownCredEnv (ex_Provider p)
              | None => EmptyString
              end in
  let wire := {| be_Name := be_Name base; be_DisplayName := be_DisplayName base; be_Tier := tier; be_Address := addr;
                 be_Endpoints := []; be_EndpointSource := None; be_Balancing := None; be_Metrics := None;
                 be_Provider := ex_Provider p; be_Model := ex_Model p; be_ServedModel := EmptyString;
                 be_InferenceService := EmptyString; be_Capabilities := be_Capabilities base; be_Weight := be_Weight base;
                 be_CredentialsEnv := cred; be_Timeout := be_Timeout base; be_Pool := None;
                 be_CostPerMillionTokens := be_CostPerMillionTokens base |} in
  let '(healthy, msg) :=
    if is_empty addr then (false, urlMsg)
    else match ex_CredentialsSecretRef p with
         | None => (true, [])
         | Some s => match assertCredentialsSecretExists ns s cred with
                     | Some m => (false, [m])
                     | None => (true, [])
                     end
         end in
  (wire, {| bs_Name := rb_Name b; bs_Tier := tier; bs_Address := addr; bs_Healthy := healthy; bs_Message := msg |}).

Definition resolveBackend (ns : string) (b : RouterBackend) : result compile_error (Backend * BackendStatus) :=
  match rb_InferenceServiceRef b, rb_External b with
  | Some name, _ => resolveLocal ns b name
  | None, Some p => Ok (resolveExternal ns b p)
  | None, None => Ok (wire_base b, {| bs_Name := rb_Name b; bs_Tier := rb_Tier b; bs_Address := EmptyString;
                                      bs_Healthy := false; bs_Message := [MsgNoKind] |})
  end.

(** Whether an InferenceService requires a key; one that does not exist does not. *)
Definition requiresKey (ns name : string) : result compile_error bool :=
  match getInferenceService C ns name with
  | NotFound => Ok false
  | LookupFailed => Err (ErrServiceLookup name)
  | Found isvc => Ok (inferenceServiceRequiresAPIKey isvc)
  end.

Fixpoint keyedBackendNames (ns : string) (bs : list RouterBackend) : result compile_error (list string) :=
  match bs with
  | [] => Ok []
  | b :: bs' =>
      match rb_InferenceServiceRef b with
      | None => keyedBackendNames ns bs'
      | Some name =>
          keyed ← requiresKey ns name;
          names ← keyedBackendNames ns bs';
          Ok (if (keyed : bool) then rb_Name b :: names else names)
      end
  end.

Definition keyedBackends (ns : string) (bs : list RouterBackend) : result compile_error (list string) :=
  names ← keyedBackendNames ns bs;
  Ok (SortStrings names).

Fixpoint keyedMemberNames (ns self : string) (members : list string) : result compile_error (list string) :=
  match members with
  | [] => Ok []
  | m :: members' =>
      if bool_decide (m = self) then keyedMemberNames ns self members'
      else
        keyed ← requiresKey ns m;
        names ← keyedMemberNames ns self members';
        Ok (if (keyed : bool) then m :: names else names)
  end.

Definition keyedPoolMembers (ns self : string) (members : list string) : result compile_error (list string) :=
  names ← keyedMemberNames ns self members;
  Ok (SortStrings names).

(** A status that reports a reason the backend cannot serve. *)
Definition mark_keyed (s : BackendStatus) (m : backend_message) : BackendStatus :=
  {| bs_Name := bs_Name s; bs_Tier := bs_Tier s; bs_Address := bs_Address s; bs_Healthy := false;
     bs_Message := bs_Message s ++ [m] |}.

(** One iteration of the backend loop: the wire form, the status, and whether the
    backend is keyed only through its pool. *)
Definition compileBackend (ns : string) (keyed : list string) (b : RouterBackend)
    : result compile_error (Backend * BackendStatus * bool) :=
  '(wire, status) ← resolveBackend ns b;
  if bool_decide (rb_Name b ∈ keyed) then Ok (wire, mark_keyed status (MsgKeyed (rb_Name b)), false)
  else match be_Pool wire, rb_InferenceServiceRef b with
       | Some pool, Some name =>
           siblings ← keyedPoolMembers ns name (bp_Members pool);
           if is_nil siblings then Ok (wire, status, false)
           else Ok (wire, mark_keyed status (MsgKeyedPool (bp_Name pool) siblings), true)
       | _, _ => Ok (wire, status, false)
       end.

Fixpoint compileBackends (ns : string) (keyed : list string) (bs : list RouterBackend)
    : result compile_error (list (Backend * BackendStatus * bool)) :=
  match bs with
  | [] => Ok []
  | b :: bs' =>
      r ← compileBackend ns keyed b;
      rs ← compileBackends ns keyed bs';
      Ok (r :: rs)
  end.

Record compiledConfig := {
  cc_Config : Config;
  cc_Backends : list BackendStatus;
  cc_Warnings : list (string * list backend_message);
  cc_HasPools : bool;
  cc_KeyedBackends : list string;
  cc_KeyedPoolBackends : list string;
}.

Definition compileRouterConfig (ns : string) (spec : ModelRouterSpec) : result compile_error compiledConfig :=
  keyed ← keyedBackends ns (spec_Backends spec);
  rs ← compileBackends ns keyed (spec_Backends spec);
  let wires := map (fun r => r.1.1) rs in
  let statuses := map (fun r => r.1.2) rs in
  let out := {| cfg_Backends := wires; cfg_Rules := map translateRule (spec_Rules spec);
                cfg_DefaultRoute := spec_DefaultRoute spec; cfg_DefaultRouteStrategy := spec_DefaultRouteStrategy spec;
                cfg_Policy := translatePolicy (spec_Policy spec) |} in
  match Validate ValidHeaderFieldName out with
  | Err e => Err (ErrInvalidConfig e)
  | Ok _ =>
      Ok {| cc_Config := out; cc_Backends := statuses;
            cc_Warnings := map (fun s => (bs_Name s, bs_Message s)) (List.filter (fun s => negb (is_nil (bs_Message s))) statuses);
            cc_HasPools := existsb (fun b => is_set (be_Pool b)) wires;
            cc_KeyedBackends := keyed;
            cc_KeyedPoolBackends := SortStrings (map (fun r => bs_Name r.1.2) (List.filter (fun r => r.2) rs)) |}
  end.

End Compile.
