(* ===== verification/BodyRewrite.v ===== *)
(** * Request body rewriting (internal/router/backend.go, usage.go)

    [applyModelOverride] puts the model an upstream serves into the request body,
    and [InjectStreamUsage] makes a budgeted stream ask for its token usage.  Both
    decode the body into a map of raw messages, change one entry and marshal the
    map again. *)

From stdpp Require Import base gmap strings list.
From Stdlib Require Import ZArith Lia Bool.
From S2P Require Import Prelude GoStrings RouterConfig GoJson GoJsonFacts GoJsonText.

(** ** The model field *)

(** [applyModelOverride]: [None] is the panic of a write to the nil map a body
    [null] decodes to. *)
Definition applyModelOverride (body model : string) : option string :=
  if is_empty model then Some body
  else
    match unmarshal_map (parse body) with
    | MapErr => Some body
    | MapNil => None
    | MapOf obj =>
        let enc := JStr (quote model) in
        if match obj !! "model" with Some (JStr cur) => String.eqb cur (quote model) | _ => false end then Some body
        else Some (print (marshal_map (<["model" := enc]> obj)))
    end.

(** ** The usage option *)

(** The entry [k] of a map decoded as a [bool], [false] when it is absent or none. *)
Definition flag (m : gmap string json) (k : string) : bool :=
  match m !! k with Some v => default false (dec_bool v false) | None => false end.

(** The stream options of a request, an empty map when they are absent or not an
    object. *)
Definition streamOptions (req : gmap string json) : gmap string json :=
  match req !! "stream_options" with
  | Some raw => match unmarshal_map (Some raw) with MapOf m => m | _ => ∅ end
  | None => ∅
  end.

(** [InjectStreamUsage]: the rewritten body, [None] when it is unchanged. *)
Definition InjectStreamUsage (body : string) : option string :=
  if is_empty body then None
  else
    match unmarshal_map (parse body) with
    | MapErr | MapNil => None
    | MapOf req =>
        if negb (flag req "stream") then None
        else
          let opts := streamOptions req in
          if flag opts "include_usage" then None
          else
            let merged := marshal_map (<["include_usage" := JBool true]> opts) in
            Some (print (marshal_map (<["stream_options" := merged]> req)))
    end.

(** ** Lemmas *)

Lemma utf8_ascii (s : string) : Forall (fun c => byte_of c < 128) (String.list_ascii_of_string s) -> utf8 s.
Proof.
  induction s as [|c s IH]; intros H; [constructor|]. apply Forall_cons in H as [Hc Hs].
  rewrite <- (app_nil s), <- (app_cons c EmptyString s). apply (utf8_rune (one c) (byte_of c)); [by apply ascii_is_rune|auto].
Qed.

(** A map read from a body, with one well-formed entry added, marshals to a text
    that reads back as that map compacted. *)
Lemma marshal_insert_reads (body : string) (x : json) (m : gmap string json) (k : string) (v : json) :
  parse body = Some x -> unmarshal_map (Some x) = MapOf m -> utf8 k -> good 1 v ->
  unmarshal_map (parse (print (marshal_map (<[k := v]> m)))) = MapOf (compact <$> <[k := v]> m).
Proof.
  intros Hp Hm Hk Hv. pose proof (parse_good _ _ Hp) as Hx.
  assert (forall k' v', <[k := v]> m !! k' = Some v' -> utf8 k' /\ good 1 v') as Hent.
  { intros k' v' [[<- <-]|[_ H]]%lookup_insert_Some; [done|]. by eapply (unmarshal_map_entries 0). }
  rewrite parse_print by (apply marshal_map_good; intros; by eapply Hent).
  apply unmarshal_marshal_map. intros; by eapply Hent.
Qed.

Lemma streamOptions_entries (d : Z) (x : json) (req : gmap string json) (k : string) (v : json) :
  good d x -> unmarshal_map (Some x) = MapOf req -> streamOptions req !! k = Some v -> utf8 k /\ good (d + 2) v.
Proof.
  unfold streamOptions. intros Hx Hm. destruct (req !! "stream_options") as [raw|] eqn:Er; [|by rewrite lookup_empty].
  destruct (unmarshal_map_entries _ _ _ _ _ Hx Hm Er) as [_ Hraw].
  destruct (unmarshal_map (Some raw)) as [| |m] eqn:Em; [by rewrite lookup_empty..|]. intros Hk.
  destruct (unmarshal_map_entries _ _ _ _ _ Hraw Em Hk). split; [done|]. by replace (d + 2) with (d + 1 + 1) by lia.
Qed.

Lemma good_string (d : Z) (s : string) : d <= maxNestingDepth -> good d (JStr (quote s)).
Proof. intros H. split; [apply str_lit_lit, lit_quote|simpl; lia]. Qed.

(** The rewrite fails, by a panic, exactly on the body [null]. *)
Lemma applyModelOverride_None (body model : string) :
  applyModelOverride body model = None <-> is_empty model = false /\ parse body = Some JNull.
Proof.
  unfold applyModelOverride. destruct (is_empty model); [by split; [|intros [? _]]|].
  destruct (parse body) as [[| | | | |l]|]; simpl; try (split; [done|by intros [_ ?]]).
  split; [|by intros [_ ?]].
  by destruct (match members_map l !! "model" with Some (JStr cur) => String.eqb cur (quote model) | _ => false end).
Qed.

(** The merged options are a well-formed message that reads back as the options
    with the flag set. *)
Lemma merged_options (x : json) (req : gmap string json) :
  good 0 x -> unmarshal_map (Some x) = MapOf req ->
  let opts := <["include_usage" := JBool true]> (streamOptions req) in
  good 1 (marshal_map opts) /\ compact (marshal_map opts) = marshal_map opts /\
  unmarshal_map (Some (marshal_map opts)) = MapOf (compact <$> opts).
Proof.
  intros Hx Hm opts.
  assert (forall k v, opts !! k = Some v -> utf8 k /\ good 2 v) as Ho.
  { intros k v [[<- <-]|[_ H]]%lookup_insert_Some; [split; [apply utf8_ascii; repeat constructor|done]|].
    by eapply (streamOptions_entries 0). }
  split; [|split; [apply compact_marshal_map|apply unmarshal_marshal_map]; intros; by eapply Ho].
  apply good_JObj; [done|]. rewrite Forall_forall. intros [k' v'] (k & Hk & H)%list_elem_of_omap.
  destruct (opts !! k) as [v|] eqn:E; [|done]. simpl in H. injection H as <- <-. split; [apply str_lit_lit, lit_quote|].
  eapply good_compact, Ho, E.
Qed.

(** A rewritten body reads back as the request with its stream options asking for
    the usage. *)
Lemma InjectStreamUsage_reads (body out : string) :
  InjectStreamUsage body = Some out ->
  exists req req', unmarshal_map (parse body) = MapOf req /\ unmarshal_map (parse out) = MapOf req' /\
    (forall k, k ≠ "stream_options" -> req' !! k = compact <$> req !! k) /\
    streamOptions req' !! "include_usage" = Some (JBool true) /\
    (forall o, o ≠ "include_usage" -> streamOptions req' !! o = compact <$> streamOptions req !! o) /\
    InjectStreamUsage out = None.
Proof.
  unfold InjectStreamUsage. cbv zeta. destruct (is_empty body); [done|]. destruct (parse body) as [x|] eqn:Ep; [|by simpl].
  destruct (unmarshal_map (Some x)) as [| |req] eqn:Em; [done..|]. destruct (negb _) eqn:Es; [done|].
  destruct (flag (streamOptions req) _); [done|]. intros <-%(inj Some).
  pose proof (parse_good _ _ Ep) as Hx. destruct (merged_options _ _ Hx Em) as (Hg & Hc & Hu).
  set (opts := <["include_usage" := JBool true]> (streamOptions req)) in *.
  pose proof (marshal_insert_reads _ _ _ "stream_options" _ Ep Em ltac:(apply utf8_ascii; repeat constructor) Hg) as Hr.
  set (req' := compact <$> <["stream_options" := marshal_map opts]> req) in *.
  assert (streamOptions req' = compact <$> opts) as Ho.
  { unfold streamOptions, req'. rewrite lookup_fmap, lookup_insert_eq.
    change (compact <$> Some (marshal_map opts)) with (Some (compact (marshal_map opts))). by rewrite Hc, Hu. }
  exists req, req'. rewrite Hr, Ho. split; [done|]. split; [done|]. split; [|split; [|split]].
  - intros k Hk. unfold req'. by rewrite lookup_fmap, lookup_insert_ne.
  - unfold opts. by rewrite lookup_fmap, lookup_insert_eq.
  - intros o Hk. unfold opts. by rewrite lookup_fmap, lookup_insert_ne.
  - case_if; [done|]. case_if; [done|]. unfold flag, opts. by rewrite lookup_fmap, lookup_insert_eq.
Qed.

(** ** Properties *)

(** The model override.  On a JSON object the rewritten body reads back with
    the wanted model and, up to the compaction of its text, with every other field
    as it was; rewriting it again changes nothing. *)
Lemma applyModelOverride_sets_model (body model out : string) (obj : gmap string json) :
  model ≠ EmptyString -> utf8 model -> unmarshal_map (parse body) = MapOf obj -> applyModelOverride body model = Some out ->
  exists obj', unmarshal_map (parse out) = MapOf obj' /\
    (exists cur, obj' !! "model" = Some (JStr cur) /\ unquote cur = model) /\
    (forall k, k ≠ "model" -> compact <$> obj' !! k = compact <$> obj !! k) /\
    applyModelOverride out model = Some out.
Proof.
  intros Hne Hu Hm. unfold applyModelOverride. cbv zeta. rewrite (proj2 (is_empty_false model)), Hm by done.
  destruct (match obj !! "model" with Some (JStr cur) => String.eqb cur (quote model) | _ => false end) eqn:Ec; intros [= <-].
  - exists obj. rewrite Hm, Ec. split; [done|]. split; [|done].
    destruct (obj !! "model") as [[| | |cur| |]|]; try done. apply String.eqb_eq in Ec as ->. eauto using unquote_quote.
  - destruct (parse body) as [x|] eqn:Ep; [|done].
    pose proof (marshal_insert_reads _ _ _ "model" (JStr (quote model)) Ep Hm) as Hr.
    specialize (Hr ltac:(apply utf8_ascii; repeat constructor) (good_string 1 model ltac:(done))).
    eexists. split; [exact Hr|]. setoid_rewrite Hr. split; [|split].
    + exists (quote model). rewrite lookup_fmap, lookup_insert_eq. simpl. rewrite escape_quote by done. by rewrite unquote_quote.
    + intros k Hk. rewrite lookup_fmap, lookup_insert_ne by done. destruct (obj !! k); simpl; [|done]. by rewrite compact_idem.
    + rewrite lookup_fmap, lookup_insert_eq. simpl. rewrite escape_quote by done. by rewrite String.eqb_refl.
Qed.

(** [text s] is [s] with each apostrophe made a double quote. *)
Definition text (s : string) : string :=
  String.string_of_list_ascii (map (fun c => if Ascii.eqb c (Ascii.ascii_of_nat 39) then dquote else c) (String.list_ascii_of_string s)).

(** The usage option.  A rewritten body reads back, up to the compaction of its
    text, as the request with every field and every stream option as it was, except
    that the stream options ask for the usage; it is not rewritten again. *)
Lemma InjectStreamUsage_asks (body out : string) :
  InjectStreamUsage body = Some out ->
  exists req req', unmarshal_map (parse body) = MapOf req /\ unmarshal_map (parse out) = MapOf req' /\
    (forall k, k ≠ "stream_options" -> req' !! k = compact <$> req !! k) /\
    streamOptions req' !! "include_usage" = Some (JBool true) /\
    (forall o, o ≠ "include_usage" -> streamOptions req' !! o = compact <$> streamOptions req !! o) /\
    InjectStreamUsage out = None.
Proof. apply InjectStreamUsage_reads. Qed.
