(* ===== verification/Picker.v ===== *)
(** * Endpoint picking (internal/router/picker/picker.go)

    Load estimates, the KV filter, the least-loaded choice with rotating ties,
    and the consistent-hash ring with its concrete 64-bit hash and the binary
    search of package [sort]. *)

From stdpp Require Import base gmap strings list sorting.
From Stdlib Require Import ZArith Lia Bool.
From S2P Require Import Prelude GoStrings GoFloat.

(** ** Data *)

Record Sample := {
  sm_Running : float64;
  sm_Waiting : float64;
  sm_KVUsage : float64;
  sm_At : Z;
  sm_InFlightAt : Z;
}.

Record Candidate := {
  ca_Endpoint : string;
  ca_InFlight : Z;
  ca_Sample : option Sample;
  ca_Prefill : Z;
}.

(** The source's [Result] strings; [NoResult] is the empty one. *)
Inductive Result := NoResult | LeastLoaded | Sticky | Spill | Fallback | Migrated.

(** The source's [Reason] strings; [ReasonNone] is the empty one. *)
Inductive Reason := ReasonNone | ReasonWaiting | ReasonKVFull | ReasonNotReady.

#[export] Instance Result_eq_dec : EqDecision Result.
Proof. solve_decision. Defined.
#[export] Instance Reason_eq_dec : EqDecision Reason.
Proof. solve_decision. Defined.

Definition StaleAfter : Z := 5 * second.
Definition KVFullThreshold : float64 := float_lit 9 10.
Definition VirtualNodes : nat := 128.
Definition BytesPerToken : Z := 4.
Definition TokensPerRequest : Z := 16384.
Definition MaxRequestTokens : Z := 262144.

(** ** Load and placement *)

Definition EstimateTokens (bodyBytes : Z) : Z :=
  if bodyBytes <=? 0 then 0 else Z.min (bodyBytes / BytesPerToken) MaxRequestTokens.

Definition freshSample (c : Candidate) (now : Z) : option Sample :=
  match ca_Sample c with
  | None => None
  | Some s => if StaleAfter <? time_sub now (sm_At s) then None else Some s
  end.

Definition Load (c : Candidate) (now : Z) : Z :=
  match freshSample c now with
  | None => ca_InFlight c
  | Some s =>
      let sent := (ca_InFlight c -64 sm_InFlightAt s)%go in
      let sent := if sent <? 0 then 0 else sent in
      (int64_ceil (fadd (sm_Running s) (sm_Waiting s)) +64 sent)%go
  end.

(** A fresh reading at or above the KV threshold. *)
Definition kvFull (c : Candidate) (now : Z) : bool :=
  match freshSample c now with
  | Some s => fge (sm_KVUsage s) KVFullThreshold
  | None => false
  end.

Definition Eligible (cands : list Candidate) (now : Z) : list Candidate :=
  match List.filter (fun c => negb (kvFull c now)) cands with
  | [] => cands
  | out => out
  end.

Definition Score (c : Candidate) (now : Z) : Z :=
  ((Load c now *64 TokensPerRequest) +64 ca_Prefill c)%go.

(** The first index of the scan: [tieStart]'s magnitude, reduced without a
    signed negation. *)
Definition tieIndex (tieStart : Z) (n : nat) : nat :=
  let mag := if tieStart <? 0 then uwrap64 (uwrap64 (wrap64 (- (wrap64 (tieStart + 1)))) + 1)
             else uwrap64 tieStart in
  Z.to_nat (mag mod Z.of_nat n).

Definition scoreAt (cands : list Candidate) (now : Z) (j : nat) : Z :=
  match cands !! j with Some c => Score c now | None => 0 end.

Definition endpointAt (cands : list Candidate) (j : nat) : string :=
  match cands !! j with Some c => ca_Endpoint c | None => EmptyString end.

(** The loop [for i := 1; i < n; i++], on the list of its values of [i]. *)
Fixpoint pickLoop (cands : list Candidate) (now : Z) (start : nat) (is_ : list nat) (best : nat) (bestScore : Z) : nat :=
  match is_ with
  | [] => best
  | i :: is' =>
      let j := ((start + i) mod length cands)%nat in
      let sc := scoreAt cands now j in
      if sc <? bestScore then pickLoop cands now start is' j sc
      else pickLoop cands now start is' best bestScore
  end.

Definition pickIndex (cands : list Candidate) (now tieStart : Z) : nat :=
  let start := tieIndex tieStart (length cands) in
  pickLoop cands now start (seq 1 (length cands - 1)) start (scoreAt cands now start).

Definition PickLeastLoaded (cands : list Candidate) (now tieStart : Z) : string * Result :=
  match cands with
  | [] => (EmptyString, NoResult)
  | _ => (endpointAt cands (pickIndex cands now tieStart), LeastLoaded)
  end.

(** ** Hashing *)

Definition fnv_offset64 : Z := 14695981039346656037.
Definition fnv_prime64 : Z := 1099511628211.

(** FNV-1a 64 of package [hash/fnv]. *)
Fixpoint fnv64a (s : string) (h : Z) : Z :=
  match s with
  | EmptyString => h
  | String c s' => fnv64a s' (uwrap64 (Z.lxor h (byte_of c) * fnv_prime64))
  end.

Definition hash64 (s : string) : Z :=
  let x := fnv64a s fnv_offset64 in
  let x := Z.lxor x (Z.shiftr x 30) in
  let x := uwrap64 (x * 13787848793156543929) in
  let x := Z.lxor x (Z.shiftr x 27) in
  let x := uwrap64 (x * 10723151780598845931) in
  Z.lxor x (Z.shiftr x 31).

Definition SessionHash (key : string) : Z := hash64 key.

(** ** The ring *)

Record Ring := {
  rg_points : list Z;
  rg_owner : gmap Z string;
}.

(** The body of the construction loop for one virtual node. *)
Definition addPoint (r : Ring) (v : Z * string) : Ring :=
  match rg_owner r !! v.1 with
  | Some _ => r
  | None => {| rg_points := rg_points r ++ [v.1]; rg_owner := <[v.1 := v.2]> (rg_owner r) |}
  end.

Definition virtualNodes (ep : string) : list (Z * string) :=
  map (fun i => (hash64 (ep +:+ "#" +:+ Itoa (Z.of_nat i)), ep)) (seq 0 VirtualNodes).

Definition NewRing (endpoints : list string) : Ring :=
  let r := foldl addPoint {| rg_points := []; rg_owner := ∅ |} (endpoints ≫= virtualNodes) in
  {| rg_points := merge_sort Z.le (rg_points r); rg_owner := rg_owner r |}.

(** [sort.Search]: the loop over [i < j]; [j - i] bounds its iterations. *)
Fixpoint searchLoop (fuel : nat) (f : nat -> bool) (i j : nat) : nat :=
  match fuel with
  | O => i
  | S fuel' =>
      if (i <? j)%nat then
        let h := Nat.div2 (i + j) in
        if f h then searchLoop fuel' f i h else searchLoop fuel' f (S h) j
      else i
  end.

Definition Search (n : nat) (f : nat -> bool) : nat := searchLoop n f 0 n.

Definition Ring_start (r : Ring) (key : string) : nat :=
  let h := hash64 key in
  let i := Search (length (rg_points r)) (fun i => match rg_points r !! i with Some p => h <=? p | None => true end) in
  if (i =? length (rg_points r))%nat then 0%nat else i.

Definition Home (r : Ring) (key : string) : string :=
  match rg_points r !! Ring_start r key with
  | None => EmptyString
  | Some p => default EmptyString (rg_owner r !! p)
  end.

#[global] Arguments hash64 : simpl never.
#[global] Arguments virtualNodes : simpl never.

(** ** Lemmas: the least-loaded choice *)

Lemma tieIndex_lt (t : Z) (n : nat) : (0 < n)%nat -> (tieIndex t n < n)%nat.
Proof.
  intros Hn. unfold tieIndex.
  match goal with |- context [?m mod ?k] => pose proof (Z.mod_pos_bound m k ltac:(lia)) end. lia.
Qed.

(** The reduction is the magnitude modulo [n], [math.MinInt] included. *)
Lemma tieIndex_eq (t : Z) (n : nat) :
  in_int64 t -> (0 < n)%nat -> Z.of_nat (tieIndex t n) = Z.abs t mod Z.of_nat n.
Proof.
  intros Ht Hn. unfold tieIndex.
  rewrite Z2Nat.id by (apply Z.mod_pos_bound; lia). f_equal.
  unfold in_int64, min_int64, max_int64 in Ht. destruct (t <? 0) eqn:E; to_prop.
  - rewrite (wrap64_small (t + 1)), wrap64_small by (unfold in_int64, min_int64, max_int64, two63 in *; lia).
    unfold uwrap64. rewrite (Z.mod_small (- (t + 1))) by (unfold two64, two63 in *; lia).
    rewrite Z.mod_small by (unfold two64, two63 in *; lia). lia.
  - unfold uwrap64. rewrite Z.mod_small by (unfold two64, two63 in *; lia). lia.
Qed.

(** What the loop keeps: the chosen offset beats every earlier one strictly and
    every later one weakly. *)
Lemma pickLoop_spec (cands : list Candidate) (now : Z) (start : nat) (m : nat) (i0 k : nat) :
  let at_ i := scoreAt cands now ((start + i) mod length cands)%nat in
  (k < i0)%nat ->
  (forall i, (i < k)%nat -> at_ k < at_ i) -> (forall i, (i < i0)%nat -> at_ k <= at_ i) ->
  exists k', (k' < i0 + m)%nat /\
    pickLoop cands now start (seq i0 m) ((start + k) mod length cands)%nat (at_ k) =
      ((start + k') mod length cands)%nat /\
    (forall i, (i < k')%nat -> at_ k' < at_ i) /\ (forall i, (i < i0 + m)%nat -> at_ k' <= at_ i).
Proof.
  intros at_. revert i0 k; induction m as [|m IH]; intros i0 k Hk Hlt Hle; cbn [seq pickLoop].
  - exists k. rewrite Nat.add_0_r. auto.
  - fold (at_ i0). destruct (at_ i0 <? at_ k) eqn:E; to_prop.
    + destruct (IH (S i0) i0) as (k' & H1 & H2 & H3 & H4); try lia.
      * intros i Hi. specialize (Hle i Hi). lia.
      * intros i Hi. destruct (decide (i = i0)) as [->|]; [lia|]. specialize (Hle i ltac:(lia)). lia.
      * exists k'. split_and!; auto; [lia|]. intros i Hi. apply H4. lia.
    + destruct (IH (S i0) k) as (k' & H1 & H2 & H3 & H4); auto.
      * intros i Hi. destruct (decide (i = i0)) as [->|]; [lia|]. apply Hle. lia.
      * exists k'. split_and!; auto; [lia|]. intros i Hi. apply H4. lia.
Qed.

Lemma pickIndex_spec (cands : list Candidate) (now tieStart : Z) :
  cands ≠ [] ->
  let n := length cands in let start := tieIndex tieStart n in
  exists k, (k < n)%nat /\ pickIndex cands now tieStart = ((start + k) mod n)%nat /\
    (forall i, (i < k)%nat -> scoreAt cands now ((start + k) mod n)%nat < scoreAt cands now ((start + i) mod n)%nat) /\
    (forall i, (i < n)%nat -> scoreAt cands now ((start + k) mod n)%nat <= scoreAt cands now ((start + i) mod n)%nat).
Proof.
  intros Hne n start. assert (0 < n)%nat as Hn by (unfold n; destruct cands; simpl; [done|lia]).
  pose proof (tieIndex_lt tieStart n Hn) as Hs. fold start in Hs.
  destruct (pickLoop_spec cands now start (n - 1) 1 0) as (k & H1 & H2 & H3 & H4); try lia.
  { intros i Hi. assert (i = 0)%nat as -> by lia. lia. }
  exists k. replace (1 + (n - 1))%nat with n in * by lia. split_and!; auto.
  fold n in H2. unfold pickIndex. fold n. fold start. rewrite <- H2.
  rewrite Nat.add_0_r, (Nat.mod_small start n) by done. reflexivity.
Qed.

(** Every index is an offset from the start. *)
Lemma offset_exists (n start j : nat) :
  (start < n)%nat -> (j < n)%nat -> exists i, (i < n)%nat /\ ((start + i) mod n = j)%nat.
Proof.
  intros Hs Hj. destruct (decide (start <= j)%nat).
  - exists (j - start)%nat. split; [lia|]. rewrite Nat.mod_small; lia.
  - exists (j + n - start)%nat. split; [lia|].
    replace (start + (j + n - start))%nat with (j + 1 * n)%nat by lia.
    rewrite Nat.Div0.mod_add, Nat.mod_small; lia.
Qed.

Lemma PickLeastLoaded_min (cands : list Candidate) (now tieStart : Z) :
  cands ≠ [] ->
  exists c, c ∈ cands /\ PickLeastLoaded cands now tieStart = (ca_Endpoint c, LeastLoaded) /\
       Forall (fun c' => Score c now <= Score c' now) cands.
Proof.
  intros Hne. destruct (pickIndex_spec cands now tieStart Hne) as (k & Hk & Hp & _ & Hle). simpl in *.
  set (n := length cands) in *. set (start := tieIndex tieStart n) in *.
  assert (0 < n)%nat as Hn by lia. set (j := ((start + k) mod n)%nat) in *.
  assert (j < n)%nat as Hj by (apply Nat.mod_upper_bound; lia).
  destruct (lookup_lt_is_Some_2 cands j Hj) as [c Hc]. exists c.
  split; [by eapply list_elem_of_lookup_2|]. split.
  - unfold PickLeastLoaded. destruct cands; [done|]. by rewrite Hp; unfold endpointAt; rewrite Hc.
  - apply Forall_forall. intros c' Hc'. apply list_elem_of_lookup in Hc' as [j' Hj'].
    destruct (offset_exists n start j') as (i & Hi & Hij); [by apply tieIndex_lt|by eapply lookup_lt_Some|].
    specialize (Hle i Hi). rewrite Hij in Hle. unfold scoreAt in Hle. by rewrite Hc, Hj' in Hle.
Qed.

Lemma Eligible_sub (cands : list Candidate) (now : Z) (c : Candidate) : c ∈ Eligible cands now -> c ∈ cands.
Proof.
  unfold Eligible. destruct (List.filter _ cands) as [|c0 l] eqn:E; [done|].
  rewrite <- E, list_elem_of_In, filter_In, <- list_elem_of_In. tauto.
Qed.

Lemma Eligible_nonempty (cands : list Candidate) (now : Z) : cands ≠ [] -> Eligible cands now ≠ [].
Proof. unfold Eligible. by destruct (List.filter _ cands). Qed.

(** A candidate short of KV room is only eligible when every one is. *)
Lemma Eligible_kvFull (cands : list Candidate) (now : Z) (c : Candidate) :
  c ∈ Eligible cands now -> kvFull c now = true -> Forall (fun c' => kvFull c' now = true) cands.
Proof.
  unfold Eligible. destruct (List.filter _ cands) as [|c0 l] eqn:E.
  - intros _ _. apply Forall_forall. intros c' Hc'.
    destruct (kvFull c' now) eqn:K; [done|]. exfalso.
    assert (c' ∈ List.filter (fun c => negb (kvFull c now)) cands) as H.
    { rewrite list_elem_of_In, filter_In, <- list_elem_of_In, K. done. }
    rewrite E in H. by apply elem_of_nil in H.
  - rewrite <- E, list_elem_of_In, filter_In. intros [_ H] Hk. by rewrite Hk in H.
Qed.

(** The pick after the KV filter is always a candidate. *)
Lemma pick_eligible (cands : list Candidate) (now tieStart : Z) :
  cands ≠ [] ->
  exists c, c ∈ Eligible cands now /\ (PickLeastLoaded (Eligible cands now) now tieStart).1 = ca_Endpoint c /\
       c ∈ cands.
Proof.
  intros Hne. destruct (PickLeastLoaded_min (Eligible cands now) now tieStart) as (c & Hc & Hp & _).
  { by apply Eligible_nonempty. }
  exists c. rewrite Hp. split_and!; auto. by eapply Eligible_sub.
Qed.

(** ** Lemmas: binary search and the ring *)

Lemma searchLoop_spec (n : nat) (f : nat -> bool) (fuel i j : nat) :
  (forall a b, (a <= b < n)%nat -> f a = true -> f b = true) ->
  (j - i <= fuel)%nat -> (i <= j <= n)%nat ->
  (forall k, (k < i)%nat -> f k = false) -> (forall k, (j <= k < n)%nat -> f k = true) ->
  let r := searchLoop fuel f i j in
  (r <= n)%nat /\ (forall k, (k < r)%nat -> f k = false) /\ (forall k, (r <= k < n)%nat -> f k = true).
Proof.
  intros Hm. revert i j; induction fuel as [|fuel IH]; intros i j Hf Hij Hlo Hhi; simpl.
  - assert (i = j) as <- by lia. split_and!; [lia|done|done].
  - destruct (i <? j)%nat eqn:E.
    + apply Nat.ltb_lt in E. pose proof (Nat.div2_odd (i + j)) as Hd.
      assert (i <= Nat.div2 (i + j) < j)%nat as Hh by (destruct (Nat.odd (i + j)); simpl in Hd; lia).
      destruct (f (Nat.div2 (i + j))) eqn:F; apply IH; try lia; auto.
      * intros k Hk. eapply Hm; [|exact F]. lia.
      * intros k Hk. destruct (f k) eqn:Fk; [|done].
        rewrite (Hm k (Nat.div2 (i + j))) in F by (done || lia). done.
    + apply Nat.ltb_ge in E. assert (i = j) as <- by lia. split_and!; [lia|done|done].
Qed.

(** The point a hash falls on, as a property of the set of points: the least
    one at or after it, or the least one of all when there is none. *)
Definition lands_on (S : Z -> Prop) (h p : Z) : Prop :=
  S p /\ ((h <= p /\ forall q, S q -> h <= q -> p <= q) \/
          ((forall q, S q -> q < h) /\ forall q, S q -> p <= q)).

Lemma lands_on_unique (S : Z -> Prop) (h p q : Z) : lands_on S h p -> lands_on S h q -> p = q.
Proof.
  intros [Sp [[Hp Mp]|[Lp Mp]]] [Sq [[Hq Mq]|[Lq Mq]]].
  - specialize (Mp q Sq Hq). specialize (Mq p Sp Hp). lia.
  - specialize (Lq p Sp). lia.
  - specialize (Lp q Sq). lia.
  - specialize (Mp q Sq). specialize (Mq p Sp). lia.
Qed.

Lemma lands_on_sub (S S' : Z -> Prop) (h p : Z) :
  (forall q, S' q -> S q) -> S' p -> lands_on S h p -> lands_on S' h p.
Proof. intros Hsub Hp [_ [[H1 H2]|[H1 H2]]]; (split; [done|]); [left|right]; naive_solver. Qed.

Lemma Sorted_lookup_le (l : list Z) (i j : nat) (p q : Z) :
  Sorted Z.le l -> (i <= j)%nat -> l !! i = Some p -> l !! j = Some q -> p <= q.
Proof.
  intros Hs Hij Hp Hq. apply Sorted_StronglySorted in Hs; [|intros ???; lia].
  destruct (decide (i = j)) as [->|]; [rewrite Hp in Hq; injection Hq as ->; lia|].
  revert i j Hij Hp Hq n; induction Hs as [|x l _ IH Hx]; intros i j Hij Hp Hq Hne; [done|].
  destruct i as [|i], j as [|j]; try lia; simpl in *.
  - injection Hp as <-. rewrite Forall_forall in Hx. apply Hx. by eapply list_elem_of_lookup_2.
  - apply (IH i j); auto; lia.
Qed.

(** Binary search on a sorted ring lands where the set of points says. *)
Lemma Ring_start_lands (r : Ring) (key : string) :
  Sorted Z.le (rg_points r) -> rg_points r ≠ [] ->
  exists p, rg_points r !! Ring_start r key = Some p /\ lands_on (fun q => q ∈ rg_points r) (hash64 key) p.
Proof.
  intros Hs Hne. unfold Ring_start. set (h := hash64 key). set (n := length (rg_points r)).
  set (f := fun i => match rg_points r !! i with Some p => h <=? p | None => true end).
  assert (0 < n)%nat as Hn by (unfold n; destruct (rg_points r); simpl; [done|lia]).
  destruct (searchLoop_spec n f n 0 n) as (H1 & H2 & H3); try lia.
  { intros a b Hab. unfold f. destruct (rg_points r !! a) as [p|] eqn:Ea.
    - destruct (rg_points r !! b) as [q|] eqn:Eb; [|done]. rewrite !Z.leb_le.
      pose proof (Sorted_lookup_le _ a b p q Hs ltac:(lia) Ea Eb). lia.
    - apply lookup_ge_None in Ea. fold n in Ea. lia. }
  fold (Search n f) in *. set (i := Search n f) in *.
  assert (Hq : forall q, q ∈ rg_points r -> exists k, (k < n)%nat /\ rg_points r !! k = Some q /\ f k = (h <=? q)).
  { intros q Hq. apply list_elem_of_lookup in Hq as [k Hk]. exists k. split; [by eapply lookup_lt_Some|].
    split; [done|]. unfold f. by rewrite Hk. }
  destruct (i =? n)%nat eqn:E; [apply Nat.eqb_eq in E|apply Nat.eqb_neq in E].
  - destruct (lookup_lt_is_Some_2 (rg_points r) 0 Hn) as [p Hp]. exists p. split; [done|].
    split; [by eapply list_elem_of_lookup_2|]. right. split; intros q (k & Hk & Hk' & Hf)%Hq.
    + rewrite H2 in Hf by lia. symmetry in Hf. to_prop. lia.
    + by apply (Sorted_lookup_le _ 0 k p q Hs); [lia| |].
  - destruct (lookup_lt_is_Some_2 (rg_points r) i) as [p Hp]; [fold n; lia|]. exists p. split; [done|].
    split; [by eapply list_elem_of_lookup_2|]. left. split.
    + assert (f i = true) as Hf by (apply H3; lia). unfold f in Hf. rewrite Hp in Hf. by to_prop.
    + intros q (k & Hk & Hk' & Hf)%Hq Hhq. apply (Sorted_lookup_le _ i k p q Hs); [|done|done].
      destruct (decide (k < i)%nat) as [Hki|]; [|lia]. rewrite H2 in Hf by done. symmetry in Hf. to_prop. lia.
Qed.

(** What the construction loop builds: the first claim of a point owns it. *)
Lemma addPoint_owner (vs : list (Z * string)) (r : Ring) (p : Z) :
  rg_owner (foldl addPoint r vs) !! p =
  match rg_owner r !! p with
  | Some ep => Some ep
  | None => snd <$> List.find (fun v => v.1 =? p) vs
  end.
Proof.
  revert r; induction vs as [|[q ep] vs IH]; intros r; simpl; [by destruct (rg_owner r !! p)|].
  rewrite IH. unfold addPoint; simpl. destruct (rg_owner r !! q) as [ep'|] eqn:Eq.
  - destruct (q =? p) eqn:E; [|done]. to_prop. subst. by rewrite Eq.
  - simpl. destruct (decide (q = p)) as [->|Hne].
    + rewrite lookup_insert_eq, Eq, Z.eqb_refl. done.
    + rewrite lookup_insert_ne by done. by rewrite (proj2 (Z.eqb_neq _ _)).
Qed.

Lemma addPoint_points (vs : list (Z * string)) (r : Ring) :
  (forall p, p ∈ rg_points r <-> is_Some (rg_owner r !! p)) ->
  forall p, p ∈ rg_points (foldl addPoint r vs) <-> is_Some (rg_owner (foldl addPoint r vs) !! p).
Proof.
  revert r; induction vs as [|[q ep] vs IH]; intros r Hr; simpl; [done|]. apply IH.
  unfold addPoint; simpl. destruct (rg_owner r !! q) eqn:Eq; [done|]. simpl. intros p.
  rewrite elem_of_app, list_elem_of_singleton, Hr. destruct (decide (q = p)) as [->|Hne].
  - rewrite lookup_insert_eq. split; [eauto|auto].
  - rewrite lookup_insert_ne by done. split; [intros [?|?]; [done|congruence]|auto].
Qed.

(** The owner of a point: the first endpoint with a virtual node there. *)
Definition owner_of (eps : list string) (p : Z) : option string :=
  snd <$> List.find (fun v => v.1 =? p) (eps ≫= virtualNodes).

Lemma NewRing_owner (eps : list string) (p : Z) : rg_owner (NewRing eps) !! p = owner_of eps p.
Proof.
  unfold NewRing. cbn [rg_owner]. rewrite addPoint_owner. cbn [rg_owner]. by rewrite lookup_empty.
Qed.

Lemma NewRing_points (eps : list string) (p : Z) :
  p ∈ rg_points (NewRing eps) <-> is_Some (owner_of eps p).
Proof.
  rewrite <- NewRing_owner. unfold NewRing. cbn [rg_owner rg_points]. rewrite merge_sort_Permutation.
  apply addPoint_points. intros q; simpl. rewrite lookup_empty, elem_of_nil. split; [done|by intros []].
Qed.

Lemma NewRing_sorted (eps : list string) : Sorted Z.le (rg_points (NewRing eps)).
Proof. apply (Sorted_merge_sort Z.le). Qed.

Lemma find_app {A} (f : A -> bool) (l1 l2 : list A) :
  List.find f (l1 ++ l2) = match List.find f l1 with Some x => Some x | None => List.find f l2 end.
Proof. induction l1 as [|x l1 IH]; simpl; [done|]. by destruct (f x). Qed.

(** The endpoint of a virtual node is its second component. *)
Lemma find_virtualNodes (ep : string) (p : Z) (v : Z * string) :
  List.find (fun v => v.1 =? p) (virtualNodes ep) = Some v -> v.2 = ep.
Proof.
  intros [Hin _]%find_some. unfold virtualNodes in Hin. apply in_map_iff in Hin as (i & <- & _). done.
Qed.

Lemma owner_of_elem (eps : list string) (p : Z) (ep : string) : owner_of eps p = Some ep -> ep ∈ eps.
Proof.
  unfold owner_of. induction eps as [|e eps IH]; [done|]. rewrite bind_cons, find_app.
  destruct (List.find _ (virtualNodes e)) as [v|] eqn:E; simpl.
  - intros [= <-]. apply find_virtualNodes in E. rewrite E. by left.
  - intros H. right. by apply IH.
Qed.

(** Dropping endpoints keeps the points of the ones that stay. *)
Lemma owner_of_filter (keep : string -> bool) (eps : list string) (p : Z) (ep : string) :
  keep ep = true -> owner_of eps p = Some ep -> owner_of (List.filter keep eps) p = Some ep.
Proof.
  intros Hk. unfold owner_of. induction eps as [|e eps IH]; [done|]. rewrite bind_cons, find_app.
  cbn [List.filter]. destruct (List.find _ (virtualNodes e)) as [v|] eqn:E.
  - intros [= <-]. apply find_virtualNodes in E as E'. rewrite E' in Hk. rewrite Hk.
    by rewrite bind_cons, find_app, E.
  - intros H. destruct (keep e); [rewrite bind_cons, find_app, E|]; by apply IH.
Qed.

Lemma owner_of_filter_sub (keep : string -> bool) (eps : list string) (p : Z) :
  is_Some (owner_of (List.filter keep eps) p) -> is_Some (owner_of eps p).
Proof.
  unfold owner_of. rewrite !fmap_is_Some. induction eps as [|e eps IH]; [done|]. rewrite bind_cons, find_app.
  cbn [List.filter]. destruct (List.find _ (virtualNodes e)) as [v|] eqn:E; [by eauto|].
  destruct (keep e); [rewrite bind_cons, find_app, E|]; apply IH.
Qed.

Lemma virtualNodes_nonempty (ep : string) : exists v vs, virtualNodes ep = v :: vs.
Proof. unfold virtualNodes, VirtualNodes. cbn [seq map]. eauto. Qed.

Lemma NewRing_nonempty (eps : list string) : eps ≠ [] -> rg_points (NewRing eps) ≠ [].
Proof.
  destruct eps as [|ep eps]; [done|]. intros _ H.
  destruct (virtualNodes_nonempty ep) as (v & vs & E).
  assert (v.1 ∈ rg_points (NewRing (ep :: eps))) as Hin; [|by rewrite H in Hin; apply elem_of_nil in Hin].
  apply NewRing_points. unfold owner_of. rewrite bind_cons, E. cbn. rewrite Z.eqb_refl. by eexists.
Qed.

(** A key's home: the owner of the point its hash lands on. *)
Lemma Home_lands (eps : list string) (key : string) :
  eps ≠ [] ->
  exists p, lands_on (fun q => is_Some (owner_of eps q)) (hash64 key) p /\
       owner_of eps p = Some (Home (NewRing eps) key).
Proof.
  intros Hne. destruct (Ring_start_lands (NewRing eps) key) as (p & Hp & Hl).
  { apply NewRing_sorted. }
  { by apply NewRing_nonempty. }
  assert (lands_on (fun q => is_Some (owner_of eps q)) (hash64 key) p) as Hl'.
  { destruct Hl as [Hin Hor]. split; [by apply NewRing_points|].
    destruct Hor as [[H1 H2]|[H1 H2]]; [left; split; [done|]|right; split];
      intros q Hq; [intros|..]; [apply H2; [by apply NewRing_points|done]| |];
      [apply H1|apply H2]; by apply NewRing_points. }
  exists p. split; [done|]. unfold Home. rewrite Hp, NewRing_owner.
  destruct Hl' as [[ep Hep] _]. by rewrite Hep.
Qed.

(** ** Properties *)

(** [PickLeastLoaded] returns the endpoint of a candidate of least [Score],
    and among equal scores the first one met when the scan starts at the
    magnitude of [tieStart] modulo the number of candidates and wraps around, for
    every int [tieStart] (the most negative one included). *)
Lemma PickLeastLoaded_least_rotating (cands : list Candidate) (now tieStart : Z) :
  cands ≠ [] -> in_int64 tieStart ->
  let n := length cands in let start := Z.to_nat (Z.abs tieStart mod Z.of_nat n) in
  exists k c, (k < n)%nat /\ cands !! ((start + k) mod n)%nat = Some c /\
    PickLeastLoaded cands now tieStart = (ca_Endpoint c, LeastLoaded) /\
    Forall (fun c' => Score c now <= Score c' now) cands /\
    (forall i c', (i < k)%nat -> cands !! ((start + i) mod n)%nat = Some c' -> Score c now < Score c' now).
Proof.
  intros Hne Ht n start. assert (0 < n)%nat as Hn by (unfold n; destruct cands; simpl; [done|lia]).
  pose proof (tieIndex_eq tieStart n Ht Hn) as Hs. assert (start = tieIndex tieStart n) as Hs' by lia.
  destruct (pickIndex_spec cands now tieStart Hne) as (k & Hk & Hp & Hlt & Hle). fold n in Hk, Hp, Hlt, Hle.
  rewrite <- Hs' in *.
  destruct (lookup_lt_is_Some_2 cands ((start + k) mod n)%nat) as [c Hc].
  { apply Nat.mod_upper_bound. lia. }
  exists k, c. unfold scoreAt in Hlt, Hle. rewrite Hc in Hlt, Hle. split_and!; auto.
  - unfold PickLeastLoaded, endpointAt. destruct cands; [done|]. by rewrite Hp, Hc.
  - apply Forall_forall. intros c' Hc'. apply list_elem_of_lookup in Hc' as [j Hj].
    destruct (offset_exists n start j) as (i & Hi & Hij).
    + rewrite Hs'. by apply tieIndex_lt.
    + by eapply lookup_lt_Some.
    + specialize (Hle i Hi). by rewrite Hij, Hj in Hle.
  - intros i c' Hi Hc'. specialize (Hlt i Hi). by rewrite Hc' in Hlt.
Qed.

Definition sample_candidate (ep : string) (inflight : Z) : Candidate :=
  {| ca_Endpoint := ep; ca_InFlight := inflight; ca_Sample := None; ca_Prefill := 0 |}.

Definition sample_candidates : list Candidate :=
  [sample_candidate "a" 1; sample_candidate "b" 2; sample_candidate "c" 1].

(** Consistent hashing.  When endpoints leave the set, a key whose home stays
    keeps it: only the keys of the departed endpoints are remapped.  This holds
    with colliding virtual nodes, whose point the earlier endpoint owns. *)
Lemma Home_stable_on_removal (keep : string -> bool) (eps : list string) (key : string) :
  eps ≠ [] -> keep (Home (NewRing eps) key) = true ->
  Home (NewRing (List.filter keep eps)) key = Home (NewRing eps) key.
Proof.
  intros Hne Hk. destruct (Home_lands eps key Hne) as (p & Hl & Ho).
  pose proof (owner_of_filter keep eps p _ Hk Ho) as Ho'.
  assert (List.filter keep eps ≠ []) as Hne' by (intros E; rewrite E in Ho'; discriminate Ho').
  destruct (Home_lands (List.filter keep eps) key Hne') as (q & Hl' & Hq).
  assert (q = p) as ->.
  { eapply lands_on_unique; [exact Hl'|]. eapply lands_on_sub; [| |exact Hl].
    - intros x. apply owner_of_filter_sub.
    - simpl. rewrite Ho'. by eexists. }
  congruence.
Qed.

(** The ring's binary search is the linear specification.  On a non-empty
    endpoint set [Home] is one of the endpoints: the one that owns (by the first
    virtual node to claim it) the least point at or after the key's hash, or the
    least point of all when there is none. *)
Lemma Home_owns_successor (eps : list string) (key : string) :
  eps ≠ [] ->
  Home (NewRing eps) key ∈ eps /\
  exists p, lands_on (fun q => is_Some (owner_of eps q)) (hash64 key) p /\
       owner_of eps p = Some (Home (NewRing eps) key).
Proof.
  intros Hne. destruct (Home_lands eps key Hne) as (p & Hl & Ho).
  split; [by eapply owner_of_elem|eauto].
Qed.
