(* ===== verification/Sessions.v ===== *)
(** * Session affinity (internal/router/picker/sessions.go)

    The table that binds session keys to pods: placement of one request,
    pressure moves with a cooldown, expiry with the guarded full-table scan.
    Each operation runs under the table's lock and is a state transformer. *)

From stdpp Require Import base gmap strings list sorting.
From Stdlib Require Import ZArith Lia Bool.
From S2P Require Import Prelude GoStrings GoFloat Picker.

(** ** Data *)

Definition DefaultSessionIdleTimeout : Z := 30 * minute.
Definition MaxSessions : Z := 100000.
Definition SpillCooldown : Z := 60 * second.
Definition PressureMargin : Z := 4.
Definition PressureMarginNoSample : Z := 8.
Definition MinPodsForLoadMoves : nat := 3.

Record binding := {
  bn_endpoint : string;
  bn_lastSeen : Z;
  bn_movedAt : Z;
  bn_promptBytes : Z;
}.

Record Sessions := {
  se_bindings : gmap Z binding;
  se_idle : Z;
  se_capacity : Z;
  se_oldest : Z;
  se_scans : Z;
}.

Record placement := {
  pl_endpoint : string;
  pl_result : Result;
  pl_reason : Reason;
  pl_tokens : Z;
}.

(** ** Operations *)

Definition NewSessions (idle capacity : Z) : Sessions :=
  {| se_bindings := ∅;
     se_idle := if idle <=? 0 then DefaultSessionIdleTimeout else idle;
     se_capacity := capacity; se_oldest := 0; se_scans := 0 |}.

Definition set_bindings (s : Sessions) (m : gmap Z binding) : Sessions :=
  {| se_bindings := m; se_idle := se_idle s; se_capacity := se_capacity s;
     se_oldest := se_oldest s; se_scans := se_scans s |}.

Definition set_oldest (s : Sessions) (t : Z) : Sessions :=
  {| se_bindings := se_bindings s; se_idle := se_idle s; se_capacity := se_capacity s;
     se_oldest := t; se_scans := se_scans s |}.

Definition Len (s : Sessions) : Z := Z.of_nat (size (se_bindings s)).

Definition expired (s : Sessions) (b : binding) (now : Z) : bool :=
  se_idle s <? time_sub now (bn_lastSeen b).

(** The survivors of a scan. *)
Definition live (s : Sessions) (now : Z) : gmap Z binding :=
  filter (fun kb => expired s kb.2 now = false) (se_bindings s).

Definition minSeen (oldest : Z) (b : binding) : Z :=
  if time_is_zero oldest || (bn_lastSeen b <? oldest) then bn_lastSeen b else oldest.

Definition dropExpiredLocked (s : Sessions) (now : Z) : Sessions :=
  let m := live s now in
  {| se_bindings := m; se_idle := se_idle s; se_capacity := se_capacity s;
     se_oldest := foldl minSeen 0 (snd <$> map_to_list m);
     se_scans := wrap64 (se_scans s + 1) |}.

(** The pod a pressed session should move to, with the pressure that moves it. *)
Definition pressure (bound : Candidate) (cands : list Candidate) (now tieStart : Z) : string * Reason :=
  let others := List.filter (fun c => negb (bool_decide (ca_Endpoint c = ca_Endpoint bound)) && negb (kvFull c now))
                  (Eligible cands now) in
  let stay := (EmptyString, ReasonNone) in
  let leastEP := (PickLeastLoaded others now tieStart).1 in
  match List.find (fun c => bool_decide (ca_Endpoint c = leastEP)) others with
  | None => stay
  | Some least =>
      let gap := (Load bound now -64 Load least now)%go in
      let small := (length cands <? MinPodsForLoadMoves)%nat in
      match freshSample bound now with
      | None => if negb small && (PressureMarginNoSample <=? gap) then (leastEP, ReasonWaiting) else stay
      | Some bs =>
          if fle (sm_Waiting bs) fzero then stay
          else
            let full := fge (sm_KVUsage bs) KVFullThreshold in
            if small && negb full then stay
            else
              let reason := if full then ReasonKVFull else ReasonWaiting in
              let roomKnown := match freshSample least now with Some _ => true | None => false end in
              if full && roomKnown && (0 <=? gap) then (leastEP, reason)
              else if PressureMargin <=? gap then (leastEP, reason)
              else stay
      end
  end.

Definition bind_session (s : Sessions) (key : Z) (b : binding) : Sessions :=
  set_bindings s (<[key := b]> (se_bindings s)).

(** Placement of a key without a live binding, once the table was scanned. *)
Definition placeUnbound (s : Sessions) (key : Z) (cands : list Candidate) (now tieStart : Z)
    (ringHome : string) (bodyBytes : Z) : placement * Sessions :=
  let ep := (PickLeastLoaded (Eligible cands now) now tieStart).1 in
  if se_capacity s <=? Len s then
    let ep := if existsb (fun c => bool_decide (ca_Endpoint c = ringHome)) cands then ringHome else ep in
    ({| pl_endpoint := ep; pl_result := Fallback; pl_reason := ReasonNone; pl_tokens := EstimateTokens bodyBytes |}, s)
  else
    let s := if Len s =? 0 then set_oldest s now else s in
    ({| pl_endpoint := ep; pl_result := LeastLoaded; pl_reason := ReasonNone; pl_tokens := EstimateTokens bodyBytes |},
     bind_session s key {| bn_endpoint := ep; bn_lastSeen := now; bn_movedAt := 0; bn_promptBytes := bodyBytes |}).

(** The scan before an insertion, skipped when nothing can have expired. *)
Definition scanIfFull (s : Sessions) (now : Z) : Sessions :=
  if (se_capacity s <=? Len s) && (se_idle s <? time_sub now (se_oldest s))
  then dropExpiredLocked s now else s.

(** Placement of a key with a live binding [b]. *)
Definition placeBound (s : Sessions) (key : Z) (b : binding) (cands : list Candidate) (now tieStart : Z)
    (bodyBytes : Z) : placement * Sessions :=
  match List.find (fun c => bool_decide (ca_Endpoint c = bn_endpoint b)) cands with
  | None =>
      let ep := (PickLeastLoaded (Eligible cands now) now tieStart).1 in
      ({| pl_endpoint := ep; pl_result := Migrated; pl_reason := ReasonNotReady; pl_tokens := EstimateTokens bodyBytes |},
       bind_session s key {| bn_endpoint := ep; bn_lastSeen := now; bn_movedAt := now; bn_promptBytes := bodyBytes |})
  | Some bound =>
      let '(least, reason) := pressure bound cands now tieStart in
      if negb (bool_decide (reason = ReasonNone)) &&
         (time_is_zero (bn_movedAt b) || (SpillCooldown <=? time_sub now (bn_movedAt b)))
      then
        ({| pl_endpoint := least; pl_result := Spill; pl_reason := reason; pl_tokens := EstimateTokens bodyBytes |},
         bind_session s key {| bn_endpoint := least; bn_lastSeen := now; bn_movedAt := now; bn_promptBytes := bodyBytes |})
      else
        let uncached := if bn_promptBytes b <=? bodyBytes then (bodyBytes -64 bn_promptBytes b)%go else bodyBytes in
        ({| pl_endpoint := bn_endpoint b; pl_result := Sticky; pl_reason := ReasonNone; pl_tokens := EstimateTokens uncached |},
         bind_session s key {| bn_endpoint := bn_endpoint b; bn_lastSeen := now; bn_movedAt := bn_movedAt b;
                               bn_promptBytes := bodyBytes |})
  end.

(** The binding of a key, dropped when it expired. *)
Definition takeLive (s : Sessions) (key now : Z) : option binding * Sessions :=
  match se_bindings s !! key with
  | Some b => if expired s b now then (None, set_bindings s (delete key (se_bindings s))) else (Some b, s)
  | None => (None, s)
  end.

Definition nowhere : placement :=
  {| pl_endpoint := EmptyString; pl_result := NoResult; pl_reason := ReasonNone; pl_tokens := 0 |}.

Definition Place (s : Sessions) (key : Z) (cands : list Candidate) (now tieStart : Z)
    (ringHome : string) (bodyBytes : Z) : placement * Sessions :=
  match cands with
  | [] => (nowhere, s)
  | _ =>
      match takeLive s key now with
      | (Some b, s) => placeBound s key b cands now tieStart bodyBytes
      | (None, s) => placeUnbound (scanIfFull s now) key cands now tieStart ringHome bodyBytes
      end
  end.

Definition Sweep (s : Sessions) (now : Z) : Z * Sessions :=
  let s' := dropExpiredLocked s now in (Len s', s').

(** ** Specification *)

(** A call on the table. *)
Inductive call :=
| CPlace (key : Z) (cands : list Candidate) (now tieStart : Z) (ringHome : string) (bodyBytes : Z)
| CSweep (now : Z).

Definition call_time (c : call) : Z :=
  match c with CPlace _ _ now _ _ _ => now | CSweep now => now end.

(** What a call returns: a placement, or the size after a sweep. *)
Definition reply : Type := placement + Z.

Definition do_call (s : Sessions) (c : call) : reply * Sessions :=
  match c with
  | CPlace key cands now tie home bytes => let '(p, s) := Place s key cands now tie home bytes in (inl p, s)
  | CSweep now => let '(n, s) := Sweep s now in (inr n, s)
  end.

(** The reference table: a full one is scanned on every insertion. *)
Definition scanAlways (s : Sessions) (now : Z) : Sessions :=
  if se_capacity s <=? Len s then dropExpiredLocked s now else s.

Definition PlaceRef (s : Sessions) (key : Z) (cands : list Candidate) (now tieStart : Z)
    (ringHome : string) (bodyBytes : Z) : placement * Sessions :=
  match cands with
  | [] => (nowhere, s)
  | _ =>
      match takeLive s key now with
      | (Some b, s) => placeBound s key b cands now tieStart bodyBytes
      | (None, s) => placeUnbound (scanAlways s now) key cands now tieStart ringHome bodyBytes
      end
  end.

Definition do_call_ref (s : Sessions) (c : call) : reply * Sessions :=
  match c with
  | CPlace key cands now tie home bytes => let '(p, s) := PlaceRef s key cands now tie home bytes in (inl p, s)
  | CSweep now => let '(n, s) := Sweep s now in (inr n, s)
  end.

Fixpoint run_calls (step : Sessions -> call -> reply * Sessions) (s : Sessions) (cs : list call) : list reply * Sessions :=
  match cs with
  | [] => ([], s)
  | c :: cs => let '(r, s) := step s c in let '(rs, s) := run_calls step s cs in (r :: rs, s)
  end.

(** ** Lemmas: what placement returns *)

Lemma pressure_target (bound : Candidate) (cands : list Candidate) (now tie : Z) (ep : string) (reason : Reason) :
  pressure bound cands now tie = (ep, reason) -> reason ≠ ReasonNone ->
  exists c, c ∈ cands /\ ca_Endpoint c = ep /\ ep ≠ ca_Endpoint bound /\ kvFull c now = false.
Proof.
  unfold pressure. cbv zeta. set (others := List.filter _ (Eligible cands now)).
  destruct (List.find _ others) as [least|] eqn:E; [|intros [= <- <-]; done].
  apply find_some in E as [Hin Hep]. apply bool_decide_eq_true in Hep. intros Hp Hr.
  assert (ep = (PickLeastLoaded others now tie).1) as ->.
  { repeat case_match; simplify_eq; done. }
  clear Hp. unfold others in Hin. rewrite filter_In, andb_true_iff, !negb_true_iff, bool_decide_eq_false in Hin.
  destruct Hin as [Hin [Hne Hkv]]. exists least. rewrite <- Hep. split_and!; auto.
  eapply Eligible_sub, list_elem_of_In, Hin.
Qed.

Lemma placeUnbound_candidate (s : Sessions) (key : Z) (cands : list Candidate) (now tie : Z) (home : string) (bytes : Z) :
  cands ≠ [] ->
  exists c, c ∈ cands /\ pl_endpoint (placeUnbound s key cands now tie home bytes).1 = ca_Endpoint c.
Proof.
  intros Hne. destruct (pick_eligible cands now tie Hne) as (c & _ & Hp & Hc).
  unfold placeUnbound. case_if; simpl; [|eauto].
  destruct (existsb _ cands) eqn:E; [|eauto].
  apply existsb_exists in E as (c' & Hc' & Hh). apply bool_decide_eq_true in Hh.
  exists c'. split; [by apply list_elem_of_In|done].
Qed.

Lemma placeBound_candidate (s : Sessions) (key : Z) (b : binding) (cands : list Candidate) (now tie bytes : Z) :
  cands ≠ [] ->
  exists c, c ∈ cands /\ pl_endpoint (placeBound s key b cands now tie bytes).1 = ca_Endpoint c.
Proof.
  intros Hne. unfold placeBound. destruct (List.find _ cands) as [bound|] eqn:E.
  - apply find_some in E as [Hin Hb]. apply bool_decide_eq_true in Hb.
    destruct (pressure bound cands now tie) as [least reason] eqn:P. case_if; simpl.
    + to_prop. destruct (pressure_target _ _ _ _ _ _ P ltac:(done)) as (c & Hc & <- & _). eauto.
    + exists bound. split; [by apply list_elem_of_In|done].
  - destruct (pick_eligible cands now tie Hne) as (c & _ & Hp & Hc). simpl. eauto.
Qed.

Lemma Place_candidate (s : Sessions) (key : Z) (cands : list Candidate) (now tie : Z) (home : string) (bytes : Z) :
  cands ≠ [] ->
  exists c, c ∈ cands /\ pl_endpoint (Place s key cands now tie home bytes).1 = ca_Endpoint c.
Proof.
  intros Hne. unfold Place. destruct cands as [|c0 cands]; [done|].
  destruct (takeLive s key now) as [[b|] s']; [by apply placeBound_candidate|by apply placeUnbound_candidate].
Qed.

(** ** Lemmas: the capacity *)

Definition within (s : Sessions) : Prop := Len s <= se_capacity s.

Lemma within_sub (s : Sessions) (m : gmap Z binding) : m ⊆ se_bindings s -> within s -> within (set_bindings s m).
Proof. unfold within, Len; simpl. intros H ?. pose proof (map_subseteq_size _ _ H). lia. Qed.

Lemma live_subseteq (s : Sessions) (now : Z) : live s now ⊆ se_bindings s.
Proof. apply map_filter_subseteq. Qed.

Lemma within_drop (s : Sessions) (now : Z) : within s -> within (dropExpiredLocked s now).
Proof. apply (within_sub s (live s now)). apply live_subseteq. Qed.

Lemma within_scan (s : Sessions) (now : Z) : within s -> within (scanIfFull s now).
Proof. unfold scanIfFull. case_if; auto using within_drop. Qed.

Lemma Len_bind_known (s : Sessions) (key : Z) (b b' : binding) :
  se_bindings s !! key = Some b -> Len (bind_session s key b') = Len s.
Proof. intros H. unfold Len; simpl. by rewrite map_size_insert, H. Qed.

Lemma Len_bind_le (s : Sessions) (key : Z) (b : binding) : Len (bind_session s key b) <= Len s + 1.
Proof. unfold Len; simpl. rewrite map_size_insert. destruct (se_bindings s !! key); simpl; lia. Qed.

Lemma within_placeUnbound (s : Sessions) (key : Z) (cands : list Candidate) (now tie : Z) (home : string) (bytes : Z) :
  within s -> within (placeUnbound s key cands now tie home bytes).2.
Proof.
  intros Hs. unfold placeUnbound. destruct (se_capacity s <=? Len s) eqn:E; [done|]. to_prop.
  unfold within. cbn [snd]. etransitivity; [apply Len_bind_le|].
  destruct (Len s =? 0); unfold Len in *; simpl in *; lia.
Qed.

Lemma within_placeBound (s : Sessions) (key : Z) (b : binding) (cands : list Candidate) (now tie bytes : Z) :
  se_bindings s !! key = Some b -> within s -> within (placeBound s key b cands now tie bytes).2.
Proof.
  intros Hb Hs. assert (H : forall b', within (bind_session s key b')).
  { intros b'. unfold within. by rewrite (Len_bind_known _ _ _ _ Hb). }
  unfold placeBound. destruct (List.find _ cands); [|apply H].
  destruct (pressure _ _ _ _). case_if; apply H.
Qed.

(** The two outcomes of looking a key up. *)
Lemma takeLive_spec (s : Sessions) (key now : Z) :
  (exists b, se_bindings s !! key = Some b /\ expired s b now = false /\ takeLive s key now = (Some b, s)) \/
  ((forall b, se_bindings s !! key = Some b -> expired s b now = true) /\
   takeLive s key now = (None, set_bindings s (delete key (se_bindings s)))).
Proof.
  unfold takeLive. destruct (se_bindings s !! key) as [b|] eqn:E.
  - destruct (expired s b now) eqn:X; [right|left; by exists b]. split; [|done]. by intros b' [= <-].
  - right. split; [done|]. f_equal. destruct s. unfold set_bindings; simpl in *. by rewrite delete_id.
Qed.

Lemma within_Place (s : Sessions) (key : Z) (cands : list Candidate) (now tie : Z) (home : string) (bytes : Z) :
  within s -> within (Place s key cands now tie home bytes).2.
Proof.
  intros Hs. unfold Place. destruct cands as [|c0 cs]; [done|].
  destruct (takeLive_spec s key now) as [(b & Hb & _ & ->)|[_ ->]].
  - by apply within_placeBound.
  - apply within_placeUnbound, within_scan, within_sub; [apply delete_subseteq|done].
Qed.

(** ** Lemmas: the bound that skips scans *)

(** [se_oldest] is a lower bound of the live times, none later than [T]. *)
Definition oldest_inv (s : Sessions) (T : Z) : Prop :=
  forall k b, se_bindings s !! k = Some b -> 0 < bn_lastSeen b /\ se_oldest s <= bn_lastSeen b <= T.

Lemma minSeen_fold (bs : list binding) (o : Z) :
  0 <= o -> Forall (fun b => 0 < bn_lastSeen b) bs ->
  let o' := foldl minSeen o bs in
  0 <= o' /\ (0 < o -> 0 < o' <= o) /\ Forall (fun b => o' <= bn_lastSeen b) bs.
Proof.
  intros Ho Hb. revert o Ho; induction Hb as [|b bs Hb _ IH]; intros o Ho; simpl; [auto with lia|].
  assert (0 < minSeen o b /\ minSeen o b <= bn_lastSeen b /\ (0 < o -> minSeen o b <= o)) as (H1 & H2 & H3).
  { unfold minSeen, time_is_zero. destruct (o =? 0) eqn:E; to_prop; simpl; [lia|]. case_if; to_prop; lia. }
  destruct (IH (minSeen o b)) as (I1 & I2 & I3); [lia|]. specialize (I2 H1).
  split_and!; [lia|intros; specialize (H3 ltac:(lia)); lia|]. constructor; [lia|done].
Qed.

Lemma oldest_inv_mono (s : Sessions) (T T' : Z) : T <= T' -> oldest_inv s T -> oldest_inv s T'.
Proof. intros H Hi k b Hb. specialize (Hi k b Hb). lia. Qed.

Lemma oldest_inv_sub (s : Sessions) (m : gmap Z binding) (T : Z) :
  m ⊆ se_bindings s -> oldest_inv s T -> oldest_inv (set_bindings s m) T.
Proof. intros H Hi k b Hb. apply (Hi k b). by eapply lookup_weaken. Qed.

Lemma oldest_inv_drop (s : Sessions) (now T : Z) : oldest_inv s T -> oldest_inv (dropExpiredLocked s now) T.
Proof.
  intros Hi k b Hb. simpl in Hb.
  pose proof (Hi k b (lookup_weaken _ _ _ _ Hb (live_subseteq s now))) as H0.
  destruct (minSeen_fold (snd <$> map_to_list (live s now)) 0) as (_ & _ & Hf); [lia| |].
  - apply Forall_fmap, Forall_forall. intros [k' b'] Hkb. simpl. apply elem_of_map_to_list in Hkb.
    apply (Hi k' b'). eapply lookup_weaken; [exact Hkb|apply live_subseteq].
  - rewrite Forall_forall in Hf. specialize (Hf b). simpl in *. split; [lia|]. split; [|lia]. apply Hf.
    apply list_elem_of_fmap. exists (k, b). split; [done|]. by apply elem_of_map_to_list.
Qed.

Lemma oldest_inv_bind (s : Sessions) (key : Z) (b : binding) (T now : Z) :
  oldest_inv s T -> T <= now -> 0 < now -> bn_lastSeen b = now ->
  (se_bindings s = ∅ -> se_oldest s <= now) ->
  oldest_inv (bind_session s key b) now.
Proof.
  intros Hi HT Hnow Hb He k b' Hk. simpl in *. destruct (decide (key = k)) as [<-|Hne].
  - rewrite lookup_insert_eq in Hk. injection Hk as <-. split; [lia|]. split; [|lia].
    destruct (decide (se_bindings s = ∅)) as [E|E]; [specialize (He E); lia|].
    apply map_choose in E as (k0 & b0 & H0). specialize (Hi k0 b0 H0). lia.
  - rewrite lookup_insert_ne in Hk by done. specialize (Hi k b' Hk). lia.
Qed.

Lemma sat64_mono (a b : Z) : a <= b -> sat64 a <= sat64 b.
Proof. unfold sat64. lia. Qed.

(** When the guard skips the scan, the scan would have dropped nothing. *)
Lemma guard_sound (s : Sessions) (now T : Z) :
  oldest_inv s T -> (se_idle s <? time_sub now (se_oldest s)) = false -> live s now = se_bindings s.
Proof.
  intros Hi Hg. to_prop. apply map_eq. intros k. unfold live. apply option_eq. intros b.
  rewrite map_lookup_filter_Some. simpl. split; [by intros [? _]|]. intros Hb. split; [done|].
  specialize (Hi k b Hb). unfold expired. apply Z.ltb_ge. unfold time_sub in *.
  pose proof (sat64_mono (now - bn_lastSeen b) (now - se_oldest s)). lia.
Qed.

(** The table and the reference hold the same bindings. *)
Record sim (s r : Sessions) (T : Z) : Prop := {
  sim_bindings : se_bindings s = se_bindings r;
  sim_idle : se_idle s = se_idle r;
  sim_capacity : se_capacity s = se_capacity r;
  sim_oldest : oldest_inv s T;
}.

Lemma sim_live (s r : Sessions) (T now : Z) : sim s r T -> live s now = live r now.
Proof. intros [Hb Hi _ _]. unfold live, expired. by rewrite Hb, Hi. Qed.

Lemma sim_Len (s r : Sessions) (T : Z) : sim s r T -> Len s = Len r.
Proof. intros [Hb _ _ _]. unfold Len. by rewrite Hb. Qed.

Lemma sim_drop (s r : Sessions) (T now : Z) : sim s r T -> sim (dropExpiredLocked s now) (dropExpiredLocked r now) T.
Proof.
  intros H. split; simpl; [by eapply sim_live|by apply H|by apply H|]. apply oldest_inv_drop, H.
Qed.

Lemma sim_scan (s r : Sessions) (T now : Z) : sim s r T -> sim (scanIfFull s now) (scanAlways r now) T.
Proof.
  intros H. unfold scanIfFull, scanAlways. rewrite (sim_Len _ _ _ H), <- (sim_capacity _ _ _ H).
  destruct (se_capacity s <=? Len r); simpl; [|done].
  destruct (se_idle s <? time_sub now (se_oldest s)) eqn:E; [by apply sim_drop|].
  destruct H as [Hb Hi Hc Ho]. split; simpl; [|done|done|done].
  rewrite <- (guard_sound s now T Ho E). by eapply sim_live.
Qed.

Lemma sim_bind (s r : Sessions) (T now key : Z) (b : binding) :
  sim s r T -> T <= now -> 0 < now -> bn_lastSeen b = now -> (se_bindings s = ∅ -> se_oldest s <= now) ->
  sim (bind_session s key b) (bind_session r key b) now.
Proof.
  intros [Hb Hi Hc Ho] HT Hnow Hl He. split; simpl; [by rewrite Hb|done|done|]. by eapply oldest_inv_bind.
Qed.

Lemma sim_mono (s r : Sessions) (T T' : Z) : T <= T' -> sim s r T -> sim s r T'.
Proof. intros ? []. split; auto. by eapply oldest_inv_mono. Qed.

Lemma sim_placeUnbound (s r : Sessions) (T key : Z) (cands : list Candidate) (now tie : Z) (home : string) (bytes : Z) :
  sim s r T -> T <= now -> 0 < now ->
  (placeUnbound s key cands now tie home bytes).1 = (placeUnbound r key cands now tie home bytes).1 /\
  sim (placeUnbound s key cands now tie home bytes).2 (placeUnbound r key cands now tie home bytes).2 now.
Proof.
  intros H HT Hnow. unfold placeUnbound. rewrite (sim_Len _ _ _ H), (sim_capacity _ _ _ H).
  destruct (se_capacity r <=? Len r); simpl; [split; [done|by eapply sim_mono]|]. split; [done|].
  destruct H as [Hb Hi Hc Ho]. destruct (Len r =? 0) eqn:E; to_prop.
  - apply (sim_bind (set_oldest s now) (set_oldest r now) T now key); simpl; auto; [|lia].
    split; simpl; auto. intros k b Hk. unfold Len in E.
    assert (se_bindings s = ∅) as E' by (rewrite Hb; apply map_size_empty_inv; lia).
    simpl in Hk. rewrite E' in Hk. by rewrite lookup_empty in Hk.
  - apply (sim_bind s r T now key); auto; [by split|]. intros E'. rewrite Hb in E'. unfold Len in E.
    rewrite E', map_size_empty in E. lia.
Qed.

Lemma sim_placeBound (s r : Sessions) (T key : Z) (b : binding) (cands : list Candidate) (now tie bytes : Z) :
  sim s r T -> T <= now -> 0 < now -> se_bindings s !! key = Some b ->
  (placeBound s key b cands now tie bytes).1 = (placeBound r key b cands now tie bytes).1 /\
  sim (placeBound s key b cands now tie bytes).2 (placeBound r key b cands now tie bytes).2 now.
Proof.
  intros H HT Hnow Hb. assert (Hne : se_bindings s = ∅ -> se_oldest s <= now).
  { intros E. rewrite E, lookup_empty in Hb. done. }
  unfold placeBound. destruct (List.find _ cands).
  - destruct (pressure _ _ _ _). case_if; simpl; (split; [done|]); by apply (sim_bind s r T).
  - simpl. split; [done|]. by apply (sim_bind s r T).
Qed.

Lemma sim_Place (s r : Sessions) (T key : Z) (cands : list Candidate) (now tie : Z) (home : string) (bytes : Z) :
  sim s r T -> T <= now -> 0 < now ->
  (Place s key cands now tie home bytes).1 = (PlaceRef r key cands now tie home bytes).1 /\
  sim (Place s key cands now tie home bytes).2 (PlaceRef r key cands now tie home bytes).2 now.
Proof.
  intros H HT Hnow. unfold Place, PlaceRef. destruct cands as [|c0 cs]; [split; [done|by eapply sim_mono]|].
  assert (takeLive r key now = ((takeLive s key now).1,
            match (takeLive s key now).1 with Some _ => r | None => set_bindings r (delete key (se_bindings r)) end)) as Hr.
  { destruct H as [Hb Hi _ _]. unfold takeLive, expired. rewrite Hb, Hi.
    destruct (se_bindings r !! key) eqn:E; [by case_if|]. simpl. f_equal.
    destruct r. unfold set_bindings; simpl in *. by rewrite delete_id. }
  rewrite Hr. destruct (takeLive_spec s key now) as [(b & Hb & _ & ->)|[_ ->]]; cbn [fst].
  - by apply (sim_placeBound s r T).
  - apply (sim_placeUnbound _ _ T); auto. apply sim_scan. destruct H as [Hb Hi Hc Ho].
    split; simpl; auto; [by rewrite Hb|]. apply oldest_inv_sub; [apply delete_subseteq|done].
Qed.

Lemma sim_do_call (s r : Sessions) (T : Z) (c : call) :
  sim s r T -> T <= call_time c -> 0 < call_time c ->
  (do_call s c).1 = (do_call_ref r c).1 /\ sim (do_call s c).2 (do_call_ref r c).2 (call_time c).
Proof.
  intros H HT Hnow. destruct c as [key cands now tie home bytes|now]; simpl in *.
  - destruct (sim_Place s r T key cands now tie home bytes H HT Hnow) as [H1 H2].
    destruct (Place _ _ _ _ _ _ _), (PlaceRef _ _ _ _ _ _ _). simpl in *. split; [congruence|done].
  - pose proof (sim_drop s r T now H) as Hd. split; [|by eapply sim_mono].
    f_equal. apply (sim_Len _ _ _ Hd).
Qed.

Lemma sim_run (cs : list call) (s r : Sessions) (T : Z) :
  sim s r T -> Sorted Z.le (T :: map call_time cs) -> 0 <= T -> Forall (fun c => 0 < call_time c) cs ->
  (run_calls do_call s cs).1 = (run_calls do_call_ref r cs).1 /\
  se_bindings (run_calls do_call s cs).2 = se_bindings (run_calls do_call_ref r cs).2.
Proof.
  revert s r T; induction cs as [|c cs IH]; intros s r T H Hs HT Hp; simpl; [split; [done|apply H]|].
  apply Sorted_inv in Hs as [Hs Hhd]. apply HdRel_inv in Hhd. apply Forall_cons in Hp as [Hc Hp].
  destruct (sim_do_call s r T c H Hhd Hc) as [H1 H2].
  destruct (do_call s c) as [o s'], (do_call_ref r c) as [o' r']. simpl in *. subst o'.
  destruct (IH s' r' (call_time c) H2 Hs ltac:(lia) Hp) as [I1 I2].
  destruct (run_calls do_call s' cs), (run_calls do_call_ref r' cs). simpl in *. subst. done.
Qed.

Lemma within_do_call (s : Sessions) (c : call) : within s -> within (do_call s c).2.
Proof.
  intros H. destruct c as [key cands now tie home bytes|now]; simpl.
  - pose proof (within_Place s key cands now tie home bytes H). by destruct (Place _ _ _ _ _ _ _).
  - by apply within_drop.
Qed.

Lemma within_run (cs : list call) (s : Sessions) : within s -> within (run_calls do_call s cs).2.
Proof.
  revert s; induction cs as [|c cs IH]; intros s H; simpl; [done|].
  pose proof (within_do_call s c H) as H'. destruct (do_call s c) as [o s']. simpl in H'.
  specialize (IH s' H'). by destruct (run_calls do_call s' cs).
Qed.

(** ** Properties *)

(** A request with at least one dispatchable candidate is always served by one
    of them, whatever the table holds: bound, spilled, migrated, new or in
    fallback on a full table. *)
Lemma Place_serves_candidate (s : Sessions) (key : Z) (cands : list Candidate) (now tieStart : Z)
    (ringHome : string) (bodyBytes : Z) :
  cands ≠ [] ->
  exists c, c ∈ cands /\ pl_endpoint (Place s key cands now tieStart ringHome bodyBytes).1 = ca_Endpoint c.
Proof. apply Place_candidate. Qed.

(** What happens to a session with a live binding.  It stays on its pod
    (Sticky), unless the pod left the candidates (Migrated) or the pod is under
    pressure and the session has not moved in the last [SpillCooldown] (Spill, to
    another candidate that is not KV-full).  In every case exactly its own binding
    is rewritten, with the endpoint returned and the time of the last move. *)
Lemma Place_bound_session (s : Sessions) (key : Z) (b : binding) (cands : list Candidate) (now tieStart : Z)
    (ringHome : string) (bodyBytes : Z) :
  cands ≠ [] -> se_bindings s !! key = Some b -> expired s b now = false ->
  let '(p, s') := Place s key cands now tieStart ringHome bodyBytes in
  exists moved,
    s' = bind_session s key {| bn_endpoint := pl_endpoint p; bn_lastSeen := now; bn_movedAt := moved;
                               bn_promptBytes := bodyBytes |} /\
    ((pl_result p = Sticky /\ pl_endpoint p = bn_endpoint b /\ moved = bn_movedAt b) \/
     (pl_result p = Migrated /\ moved = now /\ Forall (fun c => ca_Endpoint c ≠ bn_endpoint b) cands) \/
     (pl_result p = Spill /\ moved = now /\ pl_endpoint p ≠ bn_endpoint b /\
      (bn_movedAt b = 0 \/ SpillCooldown <= time_sub now (bn_movedAt b)) /\
      exists c, c ∈ cands /\ ca_Endpoint c = pl_endpoint p /\ kvFull c now = false)).
Proof.
  intros Hne Hb Hx. unfold Place, takeLive. destruct cands as [|c0 cs]; [done|].
  rewrite Hb, Hx. generalize dependent (c0 :: cs). intros cands Hne.
  unfold placeBound. destruct (List.find _ cands) as [bound|] eqn:E.
  - apply find_some in E as [Hin He]. apply bool_decide_eq_true in He.
    destruct (pressure bound cands now tieStart) as [least reason] eqn:P.
    destruct (negb _ && _) eqn:G; (eexists; split; [reflexivity|]); simpl.
    + right; right. apply andb_true_iff in G as [G1 G2].
      apply negb_true_iff, bool_decide_eq_false in G1. apply orb_true_iff in G2.
      destruct (pressure_target _ _ _ _ _ _ P G1) as (c & Hc & Hep & Hd & Hkv). rewrite He in Hd.
      split_and!; auto; [|eauto]. destruct G2 as [G2|G2]; [left; by apply Z.eqb_eq|right; by apply Z.leb_le].
    + by left.
  - eexists; split; [reflexivity|]. right; left. simpl. split_and!; auto.
    apply find_None_iff in E. eapply Forall_impl; [exact E|]. intros c H. by apply bool_decide_eq_false in H.
Qed.

Definition sample_table : Sessions :=
  (Place (NewSessions 0 10) 7 sample_candidates second 0 EmptyString 400).2.

(** The table never outgrows its capacity: after any sequence of placements
    and sweeps from a new table it holds at most [capacity] bindings, and a
    placement that finds it full serves from the candidates without binding. *)
Lemma sessions_capacity_bound (idle capacity : Z) (cs : list call) :
  0 <= capacity -> Len (run_calls do_call (NewSessions idle capacity) cs).2 <= capacity.
Proof.
  intros Hc. assert (forall s, se_capacity (run_calls do_call s cs).2 = se_capacity s) as Hcap.
  { clear. induction cs as [|c cs IH]; intros s; simpl; [done|].
    assert (se_capacity (do_call s c).2 = se_capacity s) as Hd.
    { destruct c as [key cands now tie home bytes|now]; [|done]. simpl.
      assert (se_capacity (Place s key cands now tie home bytes).2 = se_capacity s) as H; [|by destruct (Place _ _ _ _ _ _ _)].
      unfold Place, takeLive, placeBound, placeUnbound, scanIfFull.
      repeat case_match; simplify_eq; simpl; repeat case_if; done. }
    destruct (do_call s c) as [o s']. simpl in Hd. specialize (IH s').
    destruct (run_calls do_call s' cs). simpl in *. congruence. }
  specialize (Hcap (NewSessions idle capacity)). simpl in Hcap. rewrite <- Hcap at 2.
  apply within_run. unfold within, Len; simpl. rewrite map_size_empty. lia.
Qed.

(** Skipping expiry scans is invisible.  For calls in non-decreasing time
    order from a new table, every reply and the final bindings are those of a
    reference table that scans on every insertion into a full table: the cached
    lower bound [oldest] only avoids scans that would drop nothing. *)
Lemma scan_guard_equivalent (idle capacity : Z) (cs : list call) :
  Sorted Z.le (map call_time cs) -> Forall (fun c => 0 < call_time c) cs ->
  (run_calls do_call (NewSessions idle capacity) cs).1 =
    (run_calls do_call_ref (NewSessions idle capacity) cs).1 /\
  se_bindings (run_calls do_call (NewSessions idle capacity) cs).2 =
    se_bindings (run_calls do_call_ref (NewSessions idle capacity) cs).2.
Proof.
  intros Hs Hp. apply (sim_run cs _ _ 0); [|destruct Hp; constructor; auto; constructor; lia|lia|done].
  split; [done|done|done|]. intros k b Hk. simpl in Hk. by rewrite lookup_empty in Hk.
Qed.

Definition sample_calls : list call :=
  [CPlace 7 sample_candidates second 0 "a" 10; CPlace 8 sample_candidates (2 * second) 0 "a" 10;
   CPlace 9 sample_candidates hour 1 "b" 10].
