(* ===== verification/Dispatcher.v ===== *)
(** * The dispatcher (internal/router/backend.go, endpoint_load.go, placement.go)

    Per-endpoint health with quarantine and half-open probes, live endpoint sets,
    load records shared by reference between the map and the requests in flight,
    the prefill ledger, endpoint placement, and the dispatch of one request to one
    backend.  Every entry point of the source is one atomic operation on the
    state; the clock, the environment variables and what the upstream answers are
    arguments. *)

From stdpp Require Import base gmap strings list sorting.
From Stdlib Require Import ZArith Lia Bool.
From S2P Require Import Prelude GoStrings GoFloat GoHttp GoJson RouterConfig BodyRewrite Picker Sessions.

(** ** Data *)

Definition defaultQuarantineDuration : Z := 15 * second.
Definition endpointFailuresToQuarantine : Z := 2.
Definition defaultResponseHeaderTimeout : Z := 120 * second.
Definition defaultStreamIdleTimeout : Z := 300 * second.

Record backendHealth := {
  bh_healthy : bool;
  bh_quarantineUntil : Z;
  bh_failures : Z;
}.

(** The address of a load record. *)
Abbreviation loc := positive.

Record endpointLoad := {
  el_inflight : Z;
  el_sample : option Sample;
  el_prefill : Z;
}.

(** An unreleased prefill count: the record its release closure captured. *)
Record prefillEntry := {
  pe_dispatchedAt : Z;
  pe_load : loc;
  pe_tokens : Z;
}.

Record ringCache := {
  rc_set : string;
  rc_ring : Ring;
}.

(** [d_heap] holds the load records, [d_loads] the reference the map has for a
    key, and [d_tracked] the in-flight counts not yet released, each with the
    record its release closure captured: a release that ran is gone from it, so
    that a second call does nothing. *)
Record Dispatcher := {
  d_health : gmap string backendHealth;
  d_endpoints : gmap string (list string);
  d_loads : gmap string loc;
  d_heap : gmap loc endpointLoad;
  d_tracked : gmap positive loc;
  d_prefillLedger : gmap Z prefillEntry;
  d_prefillSeq : Z;
  d_rings : gmap string ringCache;
  d_sessions : gmap string Sessions;
  d_cursors : gmap string Z;
  d_quarantineDuration : Z;
  d_responseHeaderTimeout : Z;
  d_streamIdleTimeout : Z;
}.

Definition with_health (d : Dispatcher) (m : gmap string backendHealth) : Dispatcher :=
  {| d_health := m; d_endpoints := d_endpoints d; d_loads := d_loads d; d_heap := d_heap d;
     d_tracked := d_tracked d; d_prefillLedger := d_prefillLedger d; d_prefillSeq := d_prefillSeq d;
     d_rings := d_rings d; d_sessions := d_sessions d; d_cursors := d_cursors d;
     d_quarantineDuration := d_quarantineDuration d; d_responseHeaderTimeout := d_responseHeaderTimeout d;
     d_streamIdleTimeout := d_streamIdleTimeout d |}.

Definition with_endpoints (d : Dispatcher) (m : gmap string (list string)) : Dispatcher :=
  {| d_health := d_health d; d_endpoints := m; d_loads := d_loads d; d_heap := d_heap d;
     d_tracked := d_tracked d; d_prefillLedger := d_prefillLedger d; d_prefillSeq := d_prefillSeq d;
     d_rings := d_rings d; d_sessions := d_sessions d; d_cursors := d_cursors d;
     d_quarantineDuration := d_quarantineDuration d; d_responseHeaderTimeout := d_responseHeaderTimeout d;
     d_streamIdleTimeout := d_streamIdleTimeout d |}.

Definition with_loads (d : Dispatcher) (m : gmap string loc) (h : gmap loc endpointLoad) : Dispatcher :=
  {| d_health := d_health d; d_endpoints := d_endpoints d; d_loads := m; d_heap := h;
     d_tracked := d_tracked d; d_prefillLedger := d_prefillLedger d; d_prefillSeq := d_prefillSeq d;
     d_rings := d_rings d; d_sessions := d_sessions d; d_cursors := d_cursors d;
     d_quarantineDuration := d_quarantineDuration d; d_responseHeaderTimeout := d_responseHeaderTimeout d;
     d_streamIdleTimeout := d_streamIdleTimeout d |}.

Definition with_tracked (d : Dispatcher) (m : gmap positive loc) : Dispatcher :=
  {| d_health := d_health d; d_endpoints := d_endpoints d; d_loads := d_loads d; d_heap := d_heap d;
     d_tracked := m; d_prefillLedger := d_prefillLedger d; d_prefillSeq := d_prefillSeq d;
     d_rings := d_rings d; d_sessions := d_sessions d; d_cursors := d_cursors d;
     d_quarantineDuration := d_quarantineDuration d; d_responseHeaderTimeout := d_responseHeaderTimeout d;
     d_streamIdleTimeout := d_streamIdleTimeout d |}.

Definition with_ledger (d : Dispatcher) (m : gmap Z prefillEntry) (seq : Z) : Dispatcher :=
  {| d_health := d_health d; d_endpoints := d_endpoints d; d_loads := d_loads d; d_heap := d_heap d;
     d_tracked := d_tracked d; d_prefillLedger := m; d_prefillSeq := seq;
     d_rings := d_rings d; d_sessions := d_sessions d; d_cursors := d_cursors d;
     d_quarantineDuration := d_quarantineDuration d; d_responseHeaderTimeout := d_responseHeaderTimeout d;
     d_streamIdleTimeout := d_streamIdleTimeout d |}.

Definition with_placement (d : Dispatcher) (r : gmap string ringCache) (s : gmap string Sessions)
    (c : gmap string Z) : Dispatcher :=
  {| d_health := d_health d; d_endpoints := d_endpoints d; d_loads := d_loads d; d_heap := d_heap d;
     d_tracked := d_tracked d; d_prefillLedger := d_prefillLedger d; d_prefillSeq := d_prefillSeq d;
     d_rings := r; d_sessions := s; d_cursors := c;
     d_quarantineDuration := d_quarantineDuration d; d_responseHeaderTimeout := d_responseHeaderTimeout d;
     d_streamIdleTimeout := d_streamIdleTimeout d |}.

(** ** Health *)

(** Nanoseconds from Go's zero time to the Unix epoch. *)
Definition unix_epoch : Z := 62135596800 * second.
(** [t.UnixNano()]. *)
Definition UnixNano (t : Z) : Z := wrap64 (t - unix_epoch).

Definition freshHealth : backendHealth :=
  {| bh_healthy := true; bh_quarantineUntil := 0; bh_failures := 0 |}.

Definition healthKey (backendName endpoint : string) : string :=
  if is_empty endpoint then backendName else backendName +:+ "|" +:+ endpoint.

Definition healthFor (d : Dispatcher) (key : string) : backendHealth * Dispatcher :=
  match d_health d !! key with
  | Some h => (h, d)
  | None => (freshHealth, with_health d (<[key := freshHealth]> (d_health d)))
  end.

Definition dispatchable (d : Dispatcher) (now : Z) (key : string) : bool :=
  match d_health d !! key with
  | None => false
  | Some h =>
      if bh_healthy h then true
      else (0 <? bh_quarantineUntil h) && (bh_quarantineUntil h <=? UnixNano now)
  end.

Definition setHealth (d : Dispatcher) (key : string) (h : backendHealth) : Dispatcher :=
  with_health d (<[key := h]> (d_health d)).

Definition quarantine (d : Dispatcher) (now : Z) (key : string) (h : backendHealth) : Dispatcher :=
  setHealth d key {| bh_healthy := false;
                     bh_quarantineUntil := UnixNano (time_add now (d_quarantineDuration d));
                     bh_failures := bh_failures h |}.

Definition markUnhealthy (d : Dispatcher) (now : Z) (name endpoint : string) : Dispatcher :=
  let key := healthKey name endpoint in
  let '(h, d) := healthFor d key in
  if is_empty endpoint then quarantine d now key h
  else
    let failures := wrap32 (bh_failures h + 1) in
    let h := {| bh_healthy := bh_healthy h; bh_quarantineUntil := bh_quarantineUntil h; bh_failures := failures |} in
    if failures <? endpointFailuresToQuarantine then setHealth d key h else quarantine d now key h.

Definition markHealthy (d : Dispatcher) (name endpoint : string) : Dispatcher :=
  let key := healthKey name endpoint in
  let '(_, d) := healthFor d key in
  setHealth d key freshHealth.

Definition MarkHealthy (d : Dispatcher) (name : string) : Dispatcher :=
  match d_health d !! name with
  | Some h => setHealth d name {| bh_healthy := true; bh_quarantineUntil := 0; bh_failures := bh_failures h |}
  | None => d
  end.

Definition MarkUnhealthy (d : Dispatcher) (now : Z) (name : string) : Dispatcher :=
  match d_health d !! name with
  | Some h => quarantine d now name h
  | None => d
  end.

Definition IsHealthy (d : Dispatcher) (now : Z) (name : string) : bool :=
  match d_endpoints d !! name with
  | Some (ep :: eps) => existsb (fun ep => dispatchable d now (healthKey name ep)) (ep :: eps)
  | _ => dispatchable d now name
  end.

(** ** Endpoint sets *)

Definition SetEndpoints (d : Dispatcher) (name : string) (endpoints : list string) : Dispatcher :=
  let next := SortStrings endpoints in
  let prev := default [] (d_endpoints d !! name) in
  let d := foldl (fun d ep => (healthFor d (healthKey name ep)).2) d next in
  let gone := List.filter (fun ep => negb (bool_decide (ep ∈ (list_to_set next : gset string)))) prev in
  let d := foldl (fun d ep => with_loads (with_health d (delete (healthKey name ep) (d_health d)))
                                (delete (healthKey name ep) (d_loads d)) (d_heap d)) d gone in
  with_endpoints d (<[name := next]> (d_endpoints d)).

Definition liveEndpoints (d : Dispatcher) (b : Backend) : list string :=
  match d_endpoints d !! be_Name b with
  | Some l => l
  | None => match be_EndpointSource b with Some _ => [] | None => be_Endpoints b end
  end.

Definition EndpointsOf (d : Dispatcher) (name : string) : list string := default [] (d_endpoints d !! name).

Definition dispatchTarget (b : Backend) (endpoint : string) : string :=
  if is_empty endpoint then be_Address b else endpoint.

(** [NewDispatcher]: every backend, and every configured pod of a backend without
    an endpoint source, starts healthy. *)
Definition seedBackend (d : Dispatcher) (b : Backend) : Dispatcher :=
  let d := setHealth d (be_Name b) freshHealth in
  match be_Endpoints b, be_EndpointSource b with
  | _ :: _, None =>
      let d := with_endpoints d (<[be_Name b := be_Endpoints b]> (d_endpoints d)) in
      foldl (fun d ep => setHealth d (healthKey (be_Name b) ep) freshHealth) d (be_Endpoints b)
  | _, _ => d
  end.

Definition emptyDispatcher (quarantineDuration responseHeaderTimeout streamIdleTimeout : Z) : Dispatcher :=
  {| d_health := ∅; d_endpoints := ∅; d_loads := ∅; d_heap := ∅; d_tracked := ∅;
     d_prefillLedger := ∅; d_prefillSeq := 0; d_rings := ∅; d_sessions := ∅; d_cursors := ∅;
     d_quarantineDuration := quarantineDuration; d_responseHeaderTimeout := responseHeaderTimeout;
     d_streamIdleTimeout := streamIdleTimeout |}.

Definition NewDispatcher (cfg : Config) (quarantineDuration responseHeaderTimeout streamIdleTimeout : Z) : Dispatcher :=
  foldl seedBackend (emptyDispatcher quarantineDuration responseHeaderTimeout streamIdleTimeout) (cfg_Backends cfg).

(** ** Load records *)

Definition zeroLoad : endpointLoad := {| el_inflight := 0; el_sample := None; el_prefill := 0 |}.

(** The reference the map holds for an endpoint, allocated on first use. *)
Definition loadFor (d : Dispatcher) (backend endpoint : string) : loc * Dispatcher :=
  let key := healthKey backend endpoint in
  match d_loads d !! key with
  | Some l => (l, d)
  | None =>
      let l := fresh (dom (d_heap d)) in
      (l, with_loads d (<[key := l]> (d_loads d)) (<[l := zeroLoad]> (d_heap d)))
  end.

Definition loadAt (d : Dispatcher) (l : loc) : endpointLoad := default zeroLoad (d_heap d !! l).

Definition setLoad (d : Dispatcher) (l : loc) (e : endpointLoad) : Dispatcher :=
  with_loads d (d_loads d) (<[l := e]> (d_heap d)).

Definition addInflight (d : Dispatcher) (l : loc) (n : Z) : Dispatcher :=
  let e := loadAt d l in
  setLoad d l {| el_inflight := (el_inflight e +64 n)%go; el_sample := el_sample e; el_prefill := el_prefill e |}.

Definition addPrefill (d : Dispatcher) (l : loc) (n : Z) : Dispatcher :=
  let e := loadAt d l in
  setLoad d l {| el_inflight := el_inflight e; el_sample := el_sample e; el_prefill := (el_prefill e +64 n)%go |}.

Definition RecordSample (d : Dispatcher) (backend endpoint : string) (s : Sample) : Dispatcher :=
  let '(l, d) := loadFor d backend endpoint in
  let e := loadAt d l in
  setLoad d l {| el_inflight := el_inflight e;
                 el_sample := Some {| sm_Running := sm_Running s; sm_Waiting := sm_Waiting s;
                                      sm_KVUsage := sm_KVUsage s; sm_At := sm_At s;
                                      sm_InFlightAt := el_inflight e |};
                 el_prefill := el_prefill e |}.

(** [track] returns its release function, a token here; [None] is the function
    that does nothing. *)
Definition track (d : Dispatcher) (backend endpoint : string) : option positive * Dispatcher :=
  if is_empty endpoint then (None, d)
  else
    let '(l, d) := loadFor d backend endpoint in
    let d := addInflight d l 1 in
    let id := fresh (dom (d_tracked d)) in
    (Some id, with_tracked d (<[id := l]> (d_tracked d))).

Definition release (d : Dispatcher) (tok : option positive) : Dispatcher :=
  match tok with
  | None => d
  | Some id =>
      match d_tracked d !! id with
      | None => d
      | Some l => with_tracked (addInflight d l (-1)) (delete id (d_tracked d))
      end
  end.

Definition trackPrefill (d : Dispatcher) (now : Z) (backend endpoint : string) (tokens : Z) : option Z * Dispatcher :=
  if is_empty endpoint || (tokens <=? 0) then (None, d)
  else
    let '(l, d) := loadFor d backend endpoint in
    let d := addPrefill d l tokens in
    let id := uwrap64 (d_prefillSeq d + 1) in
    (Some id, with_ledger d (<[id := {| pe_dispatchedAt := now; pe_load := l; pe_tokens := tokens |}]>
                               (d_prefillLedger d)) id).

Definition releasePrefill (d : Dispatcher) (tok : option Z) : Dispatcher :=
  match tok with
  | None => d
  | Some id =>
      match d_prefillLedger d !! id with
      | None => d
      | Some e => with_ledger (addPrefill d (pe_load e) (wrap64 (- pe_tokens e)))
                    (delete id (d_prefillLedger d)) (d_prefillSeq d)
      end
  end.

Definition prefillTTL (d : Dispatcher) : Z :=
  let idle := if d_streamIdleTimeout d <=? 0 then defaultStreamIdleTimeout else d_streamIdleTimeout d in
  (d_responseHeaderTimeout d +64 idle)%go.

Definition expiredPrefills (d : Dispatcher) (now : Z) : list Z :=
  fst <$> List.filter (fun ie => prefillTTL d <? time_sub now (pe_dispatchedAt ie.2)) (map_to_list (d_prefillLedger d)).

Definition ExpirePrefill (d : Dispatcher) (now : Z) : Z * Dispatcher :=
  let ids := expiredPrefills d now in
  (Z.of_nat (length ids), foldl (fun d id => releasePrefill d (Some id)) d ids).

(** ** Placement *)

(** [endpointCursor(name).Add(1) - 1]: the previous value of the [uint64]. *)
Definition nextCursor (d : Dispatcher) (name : string) : Z * Dispatcher :=
  let c := default 0 (d_cursors d !! name) in
  (c, with_placement d (d_rings d) (d_sessions d) (<[name := uwrap64 (c + 1)]> (d_cursors d))).

(** The order in which [roundRobin] tries the endpoints from [start].  The
    conversion of the cursor to [int] is negative past 2^63 calls, where the source
    would index out of range; [Z.to_nat] clamps it there. *)
Definition rotation (eps : list string) (start : nat) : list string := drop start eps ++ take start eps.

Definition roundRobin (d : Dispatcher) (now : Z) (b : Backend) (eps : list string) : string * Dispatcher :=
  match eps with
  | [] => (EmptyString, d)
  | [ep] => (ep, d)
  | _ =>
      let '(c, d) := nextCursor d (be_Name b) in
      let start := Z.to_nat (Z.rem (wrap64 c) (Z.of_nat (length eps))) in
      let rot := rotation eps start in
      (match List.find (fun ep => dispatchable d now (healthKey (be_Name b) ep)) rot with
       | Some ep => ep
       | None => default EmptyString (head rot)
       end, d)
  end.

Definition ringFor (d : Dispatcher) (backend : string) (eps : list string) : Ring * Dispatcher :=
  let set := Join eps "," in
  let build :=
    let rc := {| rc_set := set; rc_ring := NewRing eps |} in
    (rc_ring rc, with_placement d (<[backend := rc]> (d_rings d)) (d_sessions d) (d_cursors d)) in
  match d_rings d !! backend with
  | Some rc => if bool_decide (rc_set rc = set) then (rc_ring rc, d) else build
  | None => build
  end.

Definition sessionsFor (d : Dispatcher) (backend : string) (bal : Balancing) : Sessions :=
  match d_sessions d !! backend with
  | Some s => s
  | None => NewSessions (bal_SessionIdleTimeout bal) MaxSessions
  end.

Definition setSessions (d : Dispatcher) (backend : string) (s : Sessions) : Dispatcher :=
  with_placement d (d_rings d) (<[backend := s]> (d_sessions d)) (d_cursors d).

(** [SweepSessions] over every table. *)
Definition SweepSessions (d : Dispatcher) (now : Z) : Dispatcher :=
  with_placement d (d_rings d) ((fun s => (Sweep s now).2) <$> d_sessions d) (d_cursors d).

(** The first configured header with a non-blank value; [None] headers are nil. *)
Definition sessionKey (h : option Header) (names : list string) : string :=
  match h with
  | None => EmptyString
  | Some h =>
      match List.find (fun n => negb (is_empty (TrimSpace (header_get h n)))) names with
      | Some n => TrimSpace (header_get h n)
      | None => EmptyString
      end
  end.

(** The dispatchable candidates of a balanced backend, reading each load record. *)
Fixpoint candidates (d : Dispatcher) (now : Z) (name : string) (eps : list string) : list Candidate * Dispatcher :=
  match eps with
  | [] => ([], d)
  | ep :: eps' =>
      if dispatchable d now (healthKey name ep) then
        let '(l, d) := loadFor d name ep in
        let e := loadAt d l in
        let c := {| ca_Endpoint := ep; ca_InFlight := el_inflight e; ca_Sample := el_sample e; ca_Prefill := el_prefill e |} in
        let '(cs, d) := candidates d now name eps' in (c :: cs, d)
      else candidates d now name eps'
  end.

Definition place (d : Dispatcher) (now : Z) (b : Backend) (headers : option Header) (bodyBytes : Z)
    : placement * Dispatcher :=
  let eps := liveEndpoints d b in
  let name := be_Name b in
  let plain res := let '(ep, d) := roundRobin d now b eps in
    ({| pl_endpoint := ep; pl_result := res; pl_reason := ReasonNone; pl_tokens := 0 |}, d) in
  match be_Balancing b with
  | Some bal =>
      if is_nil eps || negb (bool_decide (bal_Mode bal = BalancingLoadAware)) then plain NoResult
      else
        let '(cands, d') := candidates d now name eps in
        if is_nil cands then
          let '(ep, d) := roundRobin d' now b eps in
          ({| pl_endpoint := ep; pl_result := Fallback; pl_reason := ReasonNone; pl_tokens := 0 |}, d)
        else
          let '(c, d) := nextCursor d' name in
          let tie := wrap64 c in
          let key := sessionKey headers (bal_SessionHeaders bal) in
          if is_empty key then
            let '(ep, res) := PickLeastLoaded (Eligible cands now) now tie in
            ({| pl_endpoint := ep; pl_result := res; pl_reason := ReasonNone; pl_tokens := EstimateTokens bodyBytes |}, d)
          else
            let '(ring, d) := ringFor d name eps in
            let '(p, s) := Place (sessionsFor d name bal) (SessionHash key) cands now tie (Home ring key) bodyBytes in
            (p, setSessions d name s)
  | None => plain NoResult
  end.

(** ** One upstream request *)

Definition joinURL (base p : string) : string :=
  if is_empty base then p
  else if is_empty p then base
  else
    let slash := PathMatch.slash in
    let bs := HasSuffixByte base slash in
    let ps := HasPrefix p "/" in
    if bs && ps then base +:+ drop_bytes 1 p
    else if negb bs && negb ps then base +:+ "/" +:+ p
    else base +:+ p.

Definition outboundModel (b : Backend) : string :=
  if negb (is_empty (be_Model b)) then be_Model b
  else if negb (is_empty (be_ServedModel b)) then be_ServedModel b
  else be_InferenceService b.

Definition hopByHop : gset string :=
  {["connection"; "keep-alive"; "proxy-authenticate"; "proxy-authorization"; "te"; "trailer";
    "transfer-encoding"; "upgrade"; "authorization"; "content-length"; "host"]}.

(** The copy of one inbound field. *)
Definition copyField (out : Header) (k : string) (vals : list string) : Header :=
  if bool_decide (ToLower k ∈ hopByHop) then out
  else foldl (fun out v => header_add out k v) out vals.

Definition copyForwardedHeaders (inbound out : Header) : Header :=
  foldl (fun out kv => copyField out kv.1 kv.2) out (map_to_list inbound).

(** [EPanic] is a run-time panic, which unwinds the handler without the releases
    that follow. *)
Inductive dispatch_error :=
| EPanic
| EBuildRequest
| ECredentials (backend env : string)
| EUpstream (ctxErr : bool).

(** [os.Getenv] is an argument: the empty string when a variable is unset. *)
Definition applyCredentials (getenv : string -> string) (b : Backend) (h : Header) : result dispatch_error Header :=
  if is_empty (be_CredentialsEnv b) then Ok h
  else
    let val := getenv (be_CredentialsEnv b) in
    if is_empty val then Err (ECredentials (be_Name b) (be_CredentialsEnv b))
    else if bool_decide (ToLower (be_Provider b) = "anthropic")
    then Ok (header_set (header_set h "x-api-key" val) "anthropic-version" "2023-06-01")
    else Ok (header_set h "Authorization" ("Bearer " +:+ val)).

Record UpstreamRequest := {
  ur_url : string;
  ur_header : Header;
  ur_body : string;
  ur_close : bool;
}.

Record UpstreamResponse := {
  up_status : Z;
  up_header : Header;
  up_body : string;
}.

(** What sending a request gives: a response, or an error that says whether the
    connection was a reused one and whether a context ended it. *)
Inductive exchange :=
| XErr (reused ctxErr : bool)
| XResp (r : UpstreamResponse).

(** A response with the counts its body releases. *)
Record Response := {
  re_upstream : UpstreamResponse;
  re_endpoint : string;
  re_track : option positive;
  re_prefill : option Z;
}.

Definition isTokenCountPath (path : string) : bool := bool_decide (path = "/v1/messages/count_tokens").

Section Dispatch.
(** The environment variables, and whether [http.NewRequestWithContext] accepts a
    URL. *)
Context (getenv : string -> string) (urlOK : string -> bool).

Definition newUpstreamRequest (b : Backend) (url : string) (headers : Header) (body : string)
    : result dispatch_error UpstreamRequest :=
  if negb (urlOK url) then Err EBuildRequest
  else
    h ← applyCredentials getenv b (copyForwardedHeaders headers ∅);
    let cloud := bool_decide (ToLower (be_Tier b) = "cloud") in
    Ok {| ur_url := url; ur_header := if cloud then header_set h "Connection" "close" else h;
          ur_body := body; ur_close := cloud |}.

(** The attempts of [Dispatch]: one request, and a second on a fresh connection
    when a reused one failed without a context error.  [net] answers the n-th
    request; the requests sent are returned in order. *)
Definition attempts (net : nat -> UpstreamRequest -> exchange) (b : Backend) (url : string) (headers : Header)
    (body : string) : result dispatch_error exchange * list UpstreamRequest :=
  match newUpstreamRequest b url headers body with
  | Err e => (Err e, [])
  | Ok req =>
      match net 0%nat req with
      | XErr true false =>
          match newUpstreamRequest b url headers body with
          | Err e => (Err e, [req])
          | Ok req' => (Ok (net 1%nat req'), [req; req'])
          end
      | x => (Ok x, [req])
      end
  end.

(** The bookkeeping after the attempts. *)
Definition finish (d : Dispatcher) (now : Z) (name endpoint : string) (tok : option positive) (ptok : option Z)
    (x : result dispatch_error exchange) : result dispatch_error Response * Dispatcher :=
  match x with
  | Err e => (Err e, releasePrefill (release d tok) ptok)
  | Ok (XErr _ ctxErr) =>
      let d := if ctxErr then d else markUnhealthy d now name endpoint in
      (Err (EUpstream ctxErr), releasePrefill (release d tok) ptok)
  | Ok (XResp r) =>
      let d := if 500 <=? up_status r then markUnhealthy d now name endpoint else markHealthy d name endpoint in
      (Ok {| re_upstream := r; re_endpoint := endpoint; re_track := tok; re_prefill := ptok |}, d)
  end.

(** The part of [Dispatch] before the upstream is contacted: the placement and
    the counts taken on the chosen endpoint. *)
Definition beginDispatch (d : Dispatcher) (now : Z) (b : Backend) (path : string) (headers : Header) (body : string)
    : string * option positive * option Z * Dispatcher :=
  let tokenCount := isTokenCountPath path in
  let '(p, d) := place d now b (if tokenCount then None else Some headers)
                   (if tokenCount then 0 else Z.of_nat (String.length body)) in
  let '(tok, d) := track d (be_Name b) (pl_endpoint p) in
  let '(ptok, d) := trackPrefill d now (be_Name b) (pl_endpoint p) (pl_tokens p) in
  (pl_endpoint p, tok, ptok, d).

(** [Dispatcher.Dispatch]: [now] is the clock at placement and [later] when the
    upstream answered. *)
Definition Dispatch (d : Dispatcher) (now later : Z) (net : nat -> UpstreamRequest -> exchange) (b : Backend)
    (path : string) (headers : Header) (body : string)
    : result dispatch_error Response * list UpstreamRequest * Dispatcher :=
  let '(endpoint, tok, ptok, d) := beginDispatch d now b path headers body in
  let url := joinURL (dispatchTarget b endpoint) path in
  match applyModelOverride body (outboundModel b) with
  | None => (Err EPanic, [], d)
  | Some outboundBody =>
      let '(x, sent) := attempts net b url headers outboundBody in
      let '(r, d) := finish d later (be_Name b) endpoint tok ptok x in
      (r, sent, d)
  end.

End Dispatch.

(** What reading and closing the response body do to the counts. *)
Definition readFirstByte (d : Dispatcher) (r : Response) : Dispatcher := releasePrefill d (re_prefill r).
Definition closeBody (d : Dispatcher) (r : Response) : Dispatcher := release (releasePrefill d (re_prefill r)) (re_track r).

(** The idle guard's callback on a body that went silent. *)
Definition onStreamIdle (d : Dispatcher) (now : Z) (name endpoint : string) : Dispatcher :=
  let '(h, d) := healthFor d (healthKey name endpoint) in quarantine d now (healthKey name endpoint) h.
