(* ===== verification/DispatchLoad.v ===== *)
(** * In-flight and prefill accounting of the dispatcher

    The load records are shared by reference: the map holds one per endpoint, and
    each request in flight holds the one its endpoint had when it was placed, even
    after the endpoint left the set and came back with a new record.  The
    accounting invariant says that each record counts exactly the requests that
    hold it, under every interleaving of the dispatcher's operations. *)

From stdpp Require Import base gmap strings list sorting.
From Stdlib Require Import ZArith Lia Bool.
From S2P Require Import Prelude GoStrings GoFloat GoHttp RouterConfig BodyRewrite Picker Sessions Dispatcher.

(** ** Specification *)

Definition holds (l : loc) (_ : positive) (l' : loc) : Z := if decide (l' = l) then 1 else 0.
Definition owes (l : loc) (_ : Z) (e : prefillEntry) : Z := if decide (pe_load e = l) then pe_tokens e else 0.

(** The unreleased requests on a record, and their unreleased prefill tokens. *)
Definition held (d : Dispatcher) (l : loc) : Z := msum (holds l) (d_tracked d).
Definition owed (d : Dispatcher) (l : loc) : Z := msum (owes l) (d_prefillLedger d).

Record accounted (d : Dispatcher) : Prop := {
  ac_loads : forall k l, d_loads d !! k = Some l -> is_Some (d_heap d !! l);
  ac_tracked : forall id l, d_tracked d !! id = Some l -> is_Some (d_heap d !! l);
  ac_ledger : forall id e, d_prefillLedger d !! id = Some e -> is_Some (d_heap d !! pe_load e) /\ 0 < id <= d_prefillSeq d;
  ac_seq : 0 <= d_prefillSeq d;
  ac_inflight : forall l e, d_heap d !! l = Some e -> el_inflight e = wrap64 (held d l);
  ac_prefill : forall l e, d_heap d !! l = Some e -> el_prefill e = wrap64 (owed d l);
}.

(** One operation of the dispatcher.  The two halves of a dispatch are separate
    steps, so that other requests, the endpoint watcher, the scraper and the
    janitors interleave with the upstream exchange.  A release may be called at
    any time and any number of times. *)
Inductive dstep : Dispatcher -> Dispatcher -> Prop :=
| step_begin d now b path headers body :
    d_prefillSeq d + 1 < two64 ->
    dstep d (beginDispatch d now b path headers body).2
| step_finish d now name endpoint tok ptok x :
    dstep d (finish d now name endpoint tok ptok x).2
| step_first_byte d r : dstep d (readFirstByte d r)
| step_close d r : dstep d (closeBody d r)
| step_idle d now name endpoint : dstep d (onStreamIdle d now name endpoint)
| step_endpoints d name eps : dstep d (SetEndpoints d name eps)
| step_sample d backend endpoint s : dstep d (RecordSample d backend endpoint s)
| step_expire d now : dstep d (ExpirePrefill d now).2
| step_sweep d now : dstep d (SweepSessions d now)
| step_mark_healthy d name : dstep d (MarkHealthy d name)
| step_mark_unhealthy d now name : dstep d (MarkUnhealthy d now name).

(** ** Lemmas *)

(** The fields the accounting is about. *)
Definition books (d : Dispatcher) := (d_loads d, d_heap d, d_tracked d, d_prefillLedger d, d_prefillSeq d).

Lemma accounted_books (d d' : Dispatcher) : books d' = books d -> accounted d -> accounted d'.
Proof.
  unfold books. intros [= Hl Hh Ht Hp Hs] H. destruct d, d'; simpl in *; subst.
  destruct H; split; assumption.
Qed.

(** A map update of the load references that stays inside the heap. *)
Lemma accounted_with_loads (d : Dispatcher) (m : gmap string loc) :
  (forall k l, m !! k = Some l -> is_Some (d_heap d !! l)) ->
  accounted d -> accounted (with_loads d m (d_heap d)).
Proof. intros Hm H. destruct H; split; simpl; assumption. Qed.

Lemma held_fresh (d : Dispatcher) (l : loc) : accounted d -> d_heap d !! l = None -> held d l = 0.
Proof.
  intros H Hl. apply msum_zero. intros id l' Hid. unfold holds. destruct (decide (l' = l)) as [->|]; [|done].
  destruct (ac_tracked _ H _ _ Hid) as [e He]. congruence.
Qed.

Lemma owed_fresh (d : Dispatcher) (l : loc) : accounted d -> d_heap d !! l = None -> owed d l = 0.
Proof.
  intros H Hl. apply msum_zero. intros id e Hid. unfold owes. destruct (decide (pe_load e = l)) as [<-|]; [|done].
  destruct (ac_ledger _ H _ _ Hid) as [[e' He] _]. congruence.
Qed.

Lemma accounted_loadFor (d : Dispatcher) (backend endpoint : string) :
  accounted d ->
  accounted (loadFor d backend endpoint).2 /\
  is_Some (d_heap (loadFor d backend endpoint).2 !! (loadFor d backend endpoint).1).
Proof.
  intros H. unfold loadFor. destruct (d_loads d !! healthKey backend endpoint) as [l|] eqn:E.
  - split; [done|]. by eapply ac_loads.
  - cbn [fst snd]. set (l := fresh (dom (d_heap d))).
    assert (d_heap d !! l = None) as Hl by (apply not_elem_of_dom; apply is_fresh).
    split; [|simpl; rewrite lookup_insert_eq; by eexists].
    assert (Hs : forall l', is_Some (d_heap d !! l') -> is_Some (<[l := zeroLoad]> (d_heap d) !! l')).
    { intros l' [e He]. rewrite lookup_insert_ne; [by eexists|]. intros <-. congruence. }
    assert (He : forall l' e, <[l := zeroLoad]> (d_heap d) !! l' = Some e ->
              (l' = l /\ e = zeroLoad) \/ d_heap d !! l' = Some e).
    { intros l' e. rewrite lookup_insert_Some. intros [[<- <-]|[_ Hx]]; auto. }
    pose proof (held_fresh d l H Hl) as Hh. pose proof (owed_fresh d l H Hl) as Ho.
    destruct H as [H1 H2 H3 H4 H5 H6]. split; simpl.
    + intros k l' [[<- <-]|[_ Hk]]%lookup_insert_Some; [rewrite lookup_insert_eq; by eexists|eauto].
    + intros id l' Hid. eauto.
    + intros id e Hid. destruct (H3 id e Hid) as [? ?]. auto.
    + done.
    + intros l' e [[-> ->]|Hl']%He; [unfold held; simpl; fold (held d l); by rewrite Hh|by apply H5].
    + intros l' e [[-> ->]|Hl']%He; [unfold owed; simpl; fold (owed d l); by rewrite Ho|by apply H6].
Qed.

Lemma heap_setLoad (d : Dispatcher) (l l' : loc) (e : endpointLoad) :
  is_Some (d_heap d !! l') -> is_Some (<[l := e]> (d_heap d) !! l').
Proof. intros [x Hx]. destruct (decide (l = l')) as [<-|]; [rewrite lookup_insert_eq|rewrite lookup_insert_ne by done]; eauto. Qed.

(** Taking a count on a record that exists. *)
Lemma accounted_take (d : Dispatcher) (l : loc) (id : positive) :
  accounted d -> is_Some (d_heap d !! l) -> d_tracked d !! id = None ->
  accounted (with_tracked (addInflight d l 1) (<[id := l]> (d_tracked d))).
Proof.
  intros [H1 H2 H3 H4 H5 H6] [e0 He0] Hid.
  assert (Hh : forall l', held (with_tracked (addInflight d l 1) (<[id := l]> (d_tracked d))) l' = holds l' id l + held d l').
  { intros l'. unfold held; simpl. by rewrite msum_insert. }
  split; simpl.
  - intros k l' Hk. eapply heap_setLoad, H1; eauto.
  - intros id' l' [[<- <-]|[_ Hk]]%lookup_insert_Some; eapply heap_setLoad; [by eexists|eauto].
  - intros id' e Hk. destruct (H3 id' e Hk). split; [by apply heap_setLoad|done].
  - done.
  - intros l' e Hl. rewrite Hh. apply lookup_insert_Some in Hl as [[<- <-]|[Hne Hl]]; simpl.
    + unfold loadAt. rewrite He0. simpl. rewrite (H5 _ _ He0). unfold holds. rewrite decide_True by done.
      autorewrite with wrap. f_equal. lia.
    + unfold holds. rewrite decide_False by congruence. by apply H5.
  - intros l' e Hl. change (owed (with_tracked _ _) l') with (owed d l').
    apply lookup_insert_Some in Hl as [[<- <-]|[Hne Hl]]; simpl; [|by apply H6].
    unfold loadAt. rewrite He0. simpl. by apply H6.
Qed.

Lemma accounted_release (d : Dispatcher) (tok : option positive) : accounted d -> accounted (release d tok).
Proof.
  intros H. destruct tok as [id|]; simpl; [|done]. destruct (d_tracked d !! id) as [l|] eqn:Hid; [|done].
  destruct (ac_tracked _ H _ _ Hid) as [e0 He0]. destruct H as [H1 H2 H3 H4 H5 H6].
  assert (Hh : forall l', held d l' = holds l' id l + msum (holds l') (delete id (d_tracked d))).
  { intros l'. unfold held. by apply msum_delete. }
  split; simpl.
  - intros k l' Hk. eapply heap_setLoad, H1; eauto.
  - intros id' l' [_ Hk]%lookup_delete_Some. eapply heap_setLoad, H2; eauto.
  - intros id' e Hk. destruct (H3 id' e Hk). split; [by apply heap_setLoad|done].
  - done.
  - intros l' e Hl. unfold held; simpl. apply lookup_insert_Some in Hl as [[<- <-]|[Hne Hl]]; simpl.
    + unfold loadAt. rewrite He0. simpl. rewrite (H5 _ _ He0), Hh. unfold holds at 1. rewrite decide_True by done.
      autorewrite with wrap. f_equal. lia.
    + rewrite (H5 _ _ Hl), Hh. unfold holds at 1. rewrite decide_False by congruence. done.
  - intros l' e Hl. change (owed (with_tracked _ _) l') with (owed d l').
    apply lookup_insert_Some in Hl as [[<- <-]|[Hne Hl]]; simpl; [|by apply H6].
    unfold loadAt. rewrite He0. simpl. by apply H6.
Qed.

Lemma accounted_takePrefill (d : Dispatcher) (l : loc) (now tokens : Z) :
  accounted d -> is_Some (d_heap d !! l) -> d_prefillSeq d + 1 < two64 ->
  let id := uwrap64 (d_prefillSeq d + 1) in
  accounted (with_ledger (addPrefill d l tokens)
    (<[id := {| pe_dispatchedAt := now; pe_load := l; pe_tokens := tokens |}]> (d_prefillLedger d)) id).
Proof.
  intros [H1 H2 H3 H4 H5 H6] [e0 He0] Hseq id.
  assert (id = d_prefillSeq d + 1) as Hid by (unfold id, uwrap64; apply Z.mod_small; lia).
  assert (d_prefillLedger d !! id = None) as Hnone.
  { destruct (d_prefillLedger d !! id) as [e|] eqn:E; [|done]. destruct (H3 _ _ E). lia. }
  split; simpl.
  - intros k l' Hk. eapply heap_setLoad, H1; eauto.
  - intros id' l' Hk. eapply heap_setLoad; eauto.
  - intros id' e [[<- <-]|[_ Hk]]%lookup_insert_Some.
    + simpl. rewrite lookup_insert_eq. split; [by eexists|lia].
    + destruct (H3 id' e Hk). split; [by apply heap_setLoad|lia].
  - lia.
  - intros l' e Hl. change (held (with_ledger _ _ _) l') with (held d l').
    apply lookup_insert_Some in Hl as [[<- <-]|[Hne Hl]]; simpl; [|by apply H5].
    unfold loadAt. rewrite He0. simpl. by apply H5.
  - intros l' e Hl. unfold owed; simpl. rewrite msum_insert by done. unfold owes at 1. simpl. fold (owed d l').
    apply lookup_insert_Some in Hl as [[<- <-]|[Hne Hl]]; simpl.
    + unfold loadAt. rewrite He0. simpl. rewrite (H6 _ _ He0), decide_True by done.
      autorewrite with wrap. f_equal. lia.
    + rewrite decide_False by congruence. by apply H6.
Qed.

Lemma accounted_releasePrefill (d : Dispatcher) (tok : option Z) : accounted d -> accounted (releasePrefill d tok).
Proof.
  intros H. destruct tok as [id|]; simpl; [|done]. destruct (d_prefillLedger d !! id) as [e1|] eqn:Hid; [|done].
  destruct (ac_ledger _ H _ _ Hid) as [[e0 He0] _]. destruct H as [H1 H2 H3 H4 H5 H6].
  assert (Hh : forall l', owed d l' = owes l' id e1 + msum (owes l') (delete id (d_prefillLedger d))).
  { intros l'. unfold owed. by apply msum_delete. }
  split; simpl.
  - intros k l' Hk. eapply heap_setLoad, H1; eauto.
  - intros id' l' Hk. eapply heap_setLoad, H2; eauto.
  - intros id' e [_ Hk]%lookup_delete_Some. destruct (H3 id' e Hk). split; [by apply heap_setLoad|done].
  - done.
  - intros l' e Hl. change (held (with_ledger _ _ _) l') with (held d l').
    apply lookup_insert_Some in Hl as [[<- <-]|[Hne Hl]]; simpl; [|by apply H5].
    unfold loadAt. rewrite He0. simpl. by apply H5.
  - intros l' e Hl. unfold owed; simpl. apply lookup_insert_Some in Hl as [[<- <-]|[Hne Hl]]; simpl.
    + unfold loadAt. rewrite He0. simpl. rewrite (H6 _ _ He0), Hh. unfold owes at 1. rewrite decide_True by done.
      autorewrite with wrap. f_equal. lia.
    + rewrite (H6 _ _ Hl), Hh. unfold owes at 1. rewrite decide_False by congruence. done.
Qed.

Lemma accounted_track (d : Dispatcher) (backend endpoint : string) :
  accounted d -> accounted (track d backend endpoint).2.
Proof.
  intros H. unfold track. case_if; [done|].
  destruct (accounted_loadFor d backend endpoint H) as [Ha Hs].
  destruct (loadFor d backend endpoint) as [l d1]. cbn [fst snd] in *.
  apply (accounted_take d1 l (fresh (dom (d_tracked d1)))); [done|done|]. apply not_elem_of_dom, is_fresh.
Qed.

Lemma seq_loadFor (d : Dispatcher) (backend endpoint : string) :
  d_prefillSeq (loadFor d backend endpoint).2 = d_prefillSeq d.
Proof. unfold loadFor. by destruct (d_loads d !! _). Qed.

Lemma accounted_trackPrefill (d : Dispatcher) (now : Z) (backend endpoint : string) (tokens : Z) :
  accounted d -> d_prefillSeq d + 1 < two64 -> accounted (trackPrefill d now backend endpoint tokens).2.
Proof.
  intros H Hseq. unfold trackPrefill. case_if; [done|].
  destruct (accounted_loadFor d backend endpoint H) as [Ha Hs]. pose proof (seq_loadFor d backend endpoint) as Hq.
  destruct (loadFor d backend endpoint) as [l d1]. cbn [fst snd] in *.
  apply (accounted_takePrefill d1 l now tokens); [done|done|lia].
Qed.

Lemma accounted_RecordSample (d : Dispatcher) (backend endpoint : string) (s : Sample) :
  accounted d -> accounted (RecordSample d backend endpoint s).
Proof.
  intros H. unfold RecordSample. destruct (accounted_loadFor d backend endpoint H) as [Ha [e0 He0]].
  destruct (loadFor d backend endpoint) as [l d1]. cbn [fst snd] in *. destruct Ha as [H1 H2 H3 H4 H5 H6].
  unfold loadAt. rewrite He0. split; simpl.
  - intros k l' Hk. eapply heap_setLoad, H1; eauto.
  - intros id' l' Hk. eapply heap_setLoad, H2; eauto.
  - intros id' e Hk. destruct (H3 id' e Hk). split; [by apply heap_setLoad|done].
  - done.
  - intros l' e [[<- <-]|[Hne Hl]]%lookup_insert_Some; [exact (H5 _ _ He0)|by apply H5].
  - intros l' e [[<- <-]|[Hne Hl]]%lookup_insert_Some; [exact (H6 _ _ He0)|by apply H6].
Qed.

(** ** Operations that leave the books alone, or only look records up *)

Lemma books_healthFor (d : Dispatcher) (key : string) : books (healthFor d key).2 = books d.
Proof. unfold healthFor. by destruct (d_health d !! key). Qed.

Lemma books_markUnhealthy (d : Dispatcher) (now : Z) (name endpoint : string) :
  books (markUnhealthy d now name endpoint) = books d.
Proof.
  unfold markUnhealthy. pose proof (books_healthFor d (healthKey name endpoint)) as H.
  destruct (healthFor d (healthKey name endpoint)) as [h d']. cbn [snd] in H. by repeat case_if.
Qed.

Lemma books_markHealthy (d : Dispatcher) (name endpoint : string) : books (markHealthy d name endpoint) = books d.
Proof.
  unfold markHealthy. pose proof (books_healthFor d (healthKey name endpoint)) as H.
  destruct (healthFor d (healthKey name endpoint)) as [h d']. done.
Qed.

Lemma books_roundRobin (d : Dispatcher) (now : Z) (b : Backend) (eps : list string) :
  books (roundRobin d now b eps).2 = books d.
Proof. unfold roundRobin, nextCursor. by destruct eps as [|ep [|ep' eps]]. Qed.

Lemma books_ringFor (d : Dispatcher) (backend : string) (eps : list string) : books (ringFor d backend eps).2 = books d.
Proof. unfold ringFor. destruct (d_rings d !! backend); [case_if|]; done. Qed.

Lemma accounted_candidates (d : Dispatcher) (now : Z) (name : string) (eps : list string) :
  accounted d -> accounted (candidates d now name eps).2 /\
  d_prefillSeq (candidates d now name eps).2 = d_prefillSeq d.
Proof.
  revert d; induction eps as [|ep eps IH]; intros d H; simpl; [done|]. case_if; [|by apply IH].
  destruct (accounted_loadFor d name ep H) as [Ha _]. pose proof (seq_loadFor d name ep) as Hs.
  destruct (loadFor d name ep) as [l d1]. cbn [fst snd] in *. specialize (IH d1 Ha).
  destruct (candidates d1 now name eps) as [cs d2]. cbn [snd] in *. split; [apply IH|]. by rewrite <- Hs; apply IH.
Qed.

Lemma accounted_place (d : Dispatcher) (now : Z) (b : Backend) (h : option Header) (bytes : Z) :
  accounted d -> accounted (place d now b h bytes).2 /\ d_prefillSeq (place d now b h bytes).2 = d_prefillSeq d.
Proof.
  intros H. unfold place.
  assert (Hplain : forall d0 eps (f : string -> placement),
    accounted d0 -> let '(ep, d') := roundRobin d0 now b eps in accounted d' /\ d_prefillSeq d' = d_prefillSeq d0).
  { intros d0 eps f H0. pose proof (books_roundRobin d0 now b eps) as Hb. destruct (roundRobin d0 now b eps) as [ep d'].
    split; [by eapply accounted_books|]. by injection Hb. }
  destruct (be_Balancing b) as [bal|].
  2:{ specialize (Hplain d (liveEndpoints d b) (fun _ => nowhere) H).
      destruct (roundRobin d now b (liveEndpoints d b)). done. }
  case_if.
  { specialize (Hplain d (liveEndpoints d b) (fun _ => nowhere) H).
    destruct (roundRobin d now b (liveEndpoints d b)). done. }
  destruct (accounted_candidates d now (be_Name b) (liveEndpoints d b) H) as [Hc Hs].
  destruct (candidates d now (be_Name b) (liveEndpoints d b)) as [cands d1]. cbn [snd] in *. case_if.
  { specialize (Hplain d1 (liveEndpoints d b) (fun _ => nowhere) Hc).
    destruct (roundRobin d1 now b (liveEndpoints d b)). cbn [snd]. by rewrite <- Hs. }
  unfold nextCursor. cbv beta iota. case_if.
  - destruct (PickLeastLoaded _ _ _). cbn [snd]. split; [by apply (accounted_books d1)|exact Hs].
  - match goal with |- context [ringFor ?x ?n ?e] => pose proof (books_ringFor x n e) as Hb; destruct (ringFor x n e) as [ring d2] end.
    cbn [snd] in Hb. destruct (Place _ _ _ _ _ _ _) as [p s]. cbn [snd]. injection Hb as ?????.
    split; [|simpl; congruence]. eapply (accounted_books d1); [|done]. unfold books; simpl. congruence.
Qed.

Lemma accounted_begin (d : Dispatcher) (now : Z) (b : Backend) (path : string) (headers : Header) (body : string) :
  accounted d -> d_prefillSeq d + 1 < two64 -> accounted (beginDispatch d now b path headers body).2.
Proof.
  intros H Hseq. unfold beginDispatch.
  match goal with |- context [place d now b ?h ?n] =>
    destruct (accounted_place d now b h n H) as [Hp Hs]; destruct (place d now b h n) as [p d1] end.
  cbn [snd] in *. pose proof (accounted_track d1 (be_Name b) (pl_endpoint p) Hp) as Ht.
  assert (d_prefillSeq (track d1 (be_Name b) (pl_endpoint p)).2 = d_prefillSeq d1) as Hs'.
  { unfold track. case_if; [done|]. pose proof (seq_loadFor d1 (be_Name b) (pl_endpoint p)) as Hq.
    by destruct (loadFor d1 (be_Name b) (pl_endpoint p)). }
  destruct (track d1 (be_Name b) (pl_endpoint p)) as [tok d2]. cbn [snd] in *.
  pose proof (accounted_trackPrefill d2 now (be_Name b) (pl_endpoint p) (pl_tokens p) Ht ltac:(lia)) as Hf.
  by destruct (trackPrefill d2 now (be_Name b) (pl_endpoint p) (pl_tokens p)).
Qed.

Lemma accounted_finish (d : Dispatcher) (now : Z) (name endpoint : string) (tok : option positive) (ptok : option Z)
    (x : result dispatch_error exchange) :
  accounted d -> accounted (finish d now name endpoint tok ptok x).2.
Proof.
  intros H. assert (Hr : forall d', accounted d' -> accounted (releasePrefill (release d' tok) ptok)).
  { intros d' H'. by apply accounted_releasePrefill, accounted_release. }
  destruct x as [[reused ctx|r]|e]; simpl; [| |by apply Hr].
  - apply Hr. destruct ctx; [done|]. eapply accounted_books; [apply books_markUnhealthy|done].
  - case_if; (eapply accounted_books; [|exact H]); [apply books_markUnhealthy|apply books_markHealthy].
Qed.

Lemma accounted_SetEndpoints (d : Dispatcher) (name : string) (eps : list string) :
  accounted d -> accounted (SetEndpoints d name eps).
Proof.
  intros H. unfold SetEndpoints. cbv zeta.
  set (d1 := foldl (fun d ep => (healthFor d (healthKey name ep)).2) d (SortStrings eps)).
  assert (accounted d1) as H1.
  { subst d1. generalize dependent d. induction (SortStrings eps) as [|ep l IH]; intros d H; simpl; [done|].
    apply IH. eapply accounted_books; [apply books_healthFor|done]. }
  match goal with |- context [foldl ?f d1 ?l] => set (gone := l); set (g := f) end.
  assert (accounted (foldl g d1 gone)) as H2; [|by eapply accounted_books; [|exact H2]].
  clear H. revert H1. generalize d1. induction gone as [|ep l IH]; intros d2 H2; simpl; [done|].
  apply IH. unfold g. apply (accounted_with_loads (with_health d2 _)); [|by eapply accounted_books; [|exact H2]].
  intros k l' [_ Hk]%lookup_delete_Some. simpl. by eapply ac_loads.
Qed.

Lemma accounted_ExpirePrefill (d : Dispatcher) (now : Z) : accounted d -> accounted (ExpirePrefill d now).2.
Proof.
  unfold ExpirePrefill. cbn [snd]. generalize (expiredPrefills d now) as ids. intros ids; revert d.
  induction ids as [|id ids IH]; intros d H; simpl; [done|]. by apply IH, (accounted_releasePrefill d (Some id)).
Qed.

Lemma accounted_step (d d' : Dispatcher) : dstep d d' -> accounted d -> accounted d'.
Proof.
  intros Hs H. destruct Hs.
  - by apply accounted_begin.
  - by apply accounted_finish.
  - by apply accounted_releasePrefill.
  - by apply accounted_release, accounted_releasePrefill.
  - unfold onStreamIdle. pose proof (books_healthFor d (healthKey name endpoint)) as Hb.
    destruct (healthFor d (healthKey name endpoint)) as [h d']. by eapply accounted_books; [|exact H].
  - by apply accounted_SetEndpoints.
  - by apply accounted_RecordSample.
  - by apply accounted_ExpirePrefill.
  - by eapply accounted_books; [|exact H].
  - unfold MarkHealthy. destruct (d_health d !! name); [by eapply accounted_books; [|exact H]|done].
  - unfold MarkUnhealthy. destruct (d_health d !! name); [by eapply accounted_books; [|exact H]|done].
Qed.

Lemma accounted_New (cfg : Config) (q r i : Z) : accounted (NewDispatcher cfg q r i).
Proof.
  assert (H0 : accounted (emptyDispatcher q r i)).
  { split; simpl; try (intros ??; by rewrite lookup_empty); done. }
  unfold NewDispatcher. revert H0. generalize (emptyDispatcher q r i) as d.
  induction (cfg_Backends cfg) as [|b bs IH]; intros d H; simpl; [done|]. apply IH.
  eapply accounted_books; [|exact H]. unfold seedBackend.
  destruct (be_Endpoints b) as [|ep eps] eqn:E; [by destruct (be_EndpointSource b)|].
  destruct (be_EndpointSource b); [done|].
  assert (forall l d', books (foldl (fun d ep => setHealth d (healthKey (be_Name b) ep) freshHealth) d' l) = books d') as Hf.
  { induction l as [|x l IHl]; intros d'; simpl; [done|]. by rewrite IHl. }
  by rewrite Hf.
Qed.

(** ** Counts are given back *)

(** The unreleased counts. *)
Definition open_counts (d : Dispatcher) := (d_tracked d, d_prefillLedger d).

Lemma open_loadFor (d : Dispatcher) (backend endpoint : string) :
  open_counts (loadFor d backend endpoint).2 = open_counts d.
Proof. unfold loadFor. by destruct (d_loads d !! _). Qed.

Lemma open_candidates (d : Dispatcher) (now : Z) (name : string) (eps : list string) :
  open_counts (candidates d now name eps).2 = open_counts d.
Proof.
  revert d; induction eps as [|ep eps IH]; intros d; simpl; [done|]. case_if; [|by apply IH].
  pose proof (open_loadFor d name ep) as Ho. destruct (loadFor d name ep) as [l d1].
  specialize (IH d1). destruct (candidates d1 now name eps). cbn [snd] in *. congruence.
Qed.

Lemma open_books (d d' : Dispatcher) : books d' = books d -> open_counts d' = open_counts d.
Proof. unfold books, open_counts. by intros [= _ _ -> -> _]. Qed.

Lemma open_place (d : Dispatcher) (now : Z) (b : Backend) (h : option Header) (bytes : Z) :
  open_counts (place d now b h bytes).2 = open_counts d.
Proof.
  unfold place.
  assert (Hrr : forall d0 eps, open_counts (roundRobin d0 now b eps).2 = open_counts d0)
    by (intros; apply open_books, books_roundRobin).
  pose proof (Hrr d (liveEndpoints d b)) as Hd. destruct (roundRobin d now b (liveEndpoints d b)) as [ep d0].
  destruct (be_Balancing b) as [bal|]; [|done]. case_if; [done|].
  pose proof (open_candidates d now (be_Name b) (liveEndpoints d b)) as Hc.
  destruct (candidates d now (be_Name b) (liveEndpoints d b)) as [cands d1]. cbn [snd] in *. case_if.
  { specialize (Hrr d1 (liveEndpoints d b)). destruct (roundRobin d1 now b (liveEndpoints d b)). cbn [snd] in *. congruence. }
  unfold nextCursor. cbv beta iota. case_if; [by destruct (PickLeastLoaded _ _ _)|].
  match goal with |- context [ringFor ?x ?n ?e] => pose proof (open_books _ _ (books_ringFor x n e)) as Hb; destruct (ringFor x n e) as [ring d2] end.
  destruct (Place _ _ _ _ _ _ _) as [p s]. cbn [snd] in *. rewrite <- Hc. exact Hb.
Qed.

(** Releasing what [track] and [trackPrefill] took restores the open counts. *)
Lemma open_release_track (d d1 : Dispatcher) (backend endpoint : string) :
  let '(tok, d') := track d backend endpoint in
  d_tracked d1 = d_tracked d' -> d_tracked (release d1 tok) = d_tracked d.
Proof.
  unfold track. case_if; [done|]. pose proof (open_loadFor d backend endpoint) as Ho.
  destruct (loadFor d backend endpoint) as [l d2]. cbn [snd] in Ho. injection Ho as Ho _. simpl.
  set (id := fresh (dom (d_tracked d2))). assert (d_tracked d2 !! id = None) as Hid by (apply not_elem_of_dom, is_fresh).
  intros ->. rewrite lookup_insert_eq. simpl. rewrite delete_insert_id by done. done.
Qed.

Lemma open_release_prefill (d d1 : Dispatcher) (now : Z) (backend endpoint : string) (tokens : Z) :
  accounted d -> d_prefillSeq d + 1 < two64 ->
  let '(ptok, d') := trackPrefill d now backend endpoint tokens in
  d_prefillLedger d1 = d_prefillLedger d' -> d_prefillLedger (releasePrefill d1 ptok) = d_prefillLedger d.
Proof.
  intros Ha Hseq. unfold trackPrefill. case_if; [done|].
  destruct (accounted_loadFor d backend endpoint Ha) as [Ha2 _]. pose proof (seq_loadFor d backend endpoint) as Hs.
  pose proof (open_loadFor d backend endpoint) as Ho. destruct (loadFor d backend endpoint) as [l d2].
  cbn [snd] in *. injection Ho as _ Ho. simpl. intros ->. rewrite lookup_insert_eq. simpl.
  rewrite delete_insert_id; [done|].
  destruct (d_prefillLedger d2 !! _) as [e|] eqn:E; [|done]. destruct (ac_ledger _ Ha2 _ _ E) as [_ Hid].
  unfold uwrap64 in Hid. rewrite Z.mod_small in Hid; lia || (pose proof (ac_seq _ Ha2); lia).
Qed.

Lemma tracked_releasePrefill (d : Dispatcher) (ptok : option Z) : d_tracked (releasePrefill d ptok) = d_tracked d.
Proof. destruct ptok; simpl; [|done]. by destruct (d_prefillLedger d !! _). Qed.

Lemma ledger_release (d : Dispatcher) (tok : option positive) : d_prefillLedger (release d tok) = d_prefillLedger d.
Proof. destruct tok; simpl; [|done]. by destruct (d_tracked d !! _). Qed.

Lemma ledger_track (d : Dispatcher) (backend endpoint : string) :
  d_prefillLedger (track d backend endpoint).2 = d_prefillLedger d /\
  d_prefillSeq (track d backend endpoint).2 = d_prefillSeq d.
Proof.
  unfold track. case_if; [done|]. pose proof (open_loadFor d backend endpoint) as Ho.
  pose proof (seq_loadFor d backend endpoint) as Hs. destruct (loadFor d backend endpoint). cbn [snd] in *.
  by injection Ho.
Qed.

Lemma tracked_trackPrefill (d : Dispatcher) (now : Z) (backend endpoint : string) (tokens : Z) :
  d_tracked (trackPrefill d now backend endpoint tokens).2 = d_tracked d.
Proof.
  unfold trackPrefill. case_if; [done|]. pose proof (open_loadFor d backend endpoint) as Ho.
  destruct (loadFor d backend endpoint). cbn [snd] in *. by injection Ho.
Qed.

(** Whatever happened in between to the health state, giving both counts of a
    begun dispatch back restores the open counts. *)
Lemma begin_release (d d1 : Dispatcher) (now : Z) (b : Backend) (path : string) (headers : Header) (body : string) :
  accounted d -> d_prefillSeq d + 1 < two64 ->
  let '(_, tok, ptok, d') := beginDispatch d now b path headers body in
  open_counts d1 = open_counts d' ->
  open_counts (releasePrefill (release d1 tok) ptok) = open_counts d /\
  open_counts (release (releasePrefill d1 ptok) tok) = open_counts d.
Proof.
  intros Ha Hseq. unfold beginDispatch.
  match goal with |- context [place d now b ?h ?n] =>
    destruct (accounted_place d now b h n Ha) as [Hp Hs]; pose proof (open_place d now b h n) as Ho;
    destruct (place d now b h n) as [p d2] end.
  cbn [snd] in *. injection Ho as Ho1 Ho2.
  assert (Ht : forall d1, let '(tok, d') := track d2 (be_Name b) (pl_endpoint p) in
    d_tracked d1 = d_tracked d' -> d_tracked (release d1 tok) = d_tracked d2) by (intros; apply open_release_track).
  pose proof (accounted_track d2 (be_Name b) (pl_endpoint p) Hp) as Ha2.
  destruct (ledger_track d2 (be_Name b) (pl_endpoint p)) as [Hl Hs2].
  destruct (track d2 (be_Name b) (pl_endpoint p)) as [tok d3]. cbn [snd] in *.
  pose proof (tracked_trackPrefill d3 now (be_Name b) (pl_endpoint p) (pl_tokens p)) as Htp.
  assert (Hf : forall d1, let '(ptok, d') := trackPrefill d3 now (be_Name b) (pl_endpoint p) (pl_tokens p) in
    d_prefillLedger d1 = d_prefillLedger d' -> d_prefillLedger (releasePrefill d1 ptok) = d_prefillLedger d3)
    by (intros; apply open_release_prefill; [done|lia]).
  destruct (trackPrefill d3 now (be_Name b) (pl_endpoint p) (pl_tokens p)) as [ptok d4]. cbn [snd] in *.
  intros Hd1. injection Hd1 as Hd1 Hd2. unfold open_counts.
  rewrite !tracked_releasePrefill, !ledger_release, (Ht d1), (Ht (releasePrefill d1 ptok)), (Hf d1), (Hf (release d1 tok));
    rewrite ?ledger_release, ?tracked_releasePrefill; split || idtac; congruence.
Qed.

Lemma open_markUnhealthy (d : Dispatcher) (now : Z) (name endpoint : string) :
  open_counts (markUnhealthy d now name endpoint) = open_counts d.
Proof. apply open_books, books_markUnhealthy. Qed.

Lemma open_markHealthy (d : Dispatcher) (name endpoint : string) :
  open_counts (markHealthy d name endpoint) = open_counts d.
Proof. apply open_books, books_markHealthy. Qed.

(** ** Properties *)

(** C3: accounting with aliasing.  In every state reachable by any interleaving
    of placements, upstream answers, releases, endpoint updates, samples and
    expiries, the in-flight count of a load record is exactly the number of
    unreleased requests that hold that record (never negative), and its prefill
    count is the sum of their unreleased tokens, also for a record whose endpoint
    left the set and was replaced. *)
Theorem load_records_exact (cfg : Config) (q r i : Z) (d : Dispatcher) (l : loc) (e : endpointLoad) :
  rtc dstep (NewDispatcher cfg q r i) d -> Z.of_nat (size (d_tracked d)) < two63 ->
  d_heap d !! l = Some e ->
  el_inflight e = held d l /\ 0 <= el_inflight e /\ el_prefill e = wrap64 (owed d l).
Proof.
  intros Hr Hsz He. assert (accounted d) as Ha.
  { pose proof (accounted_New cfg q r i) as H0. induction Hr as [|x y z Hs _ IH]; [done|].
    apply IH; [done|done|]. by eapply accounted_step. }
  assert (0 <= held d l <= Z.of_nat (size (d_tracked d))) as Hb.
  { apply msum_bounds. intros id l' _. unfold holds. case_decide; lia. }
  rewrite (ac_inflight _ Ha _ _ He), (ac_prefill _ Ha _ _ He), wrap64_small;
    [auto with lia|unfold in_int64, min_int64, max_int64, two63 in *; lia].
Qed.

(** One backend with one pod, and a request placed on it. *)
Definition sample_backend : Backend :=
  {| be_Name := "llama"; be_DisplayName := EmptyString; be_Tier := "local"; be_Address := "http://svc";
     be_Endpoints := ["http://10.0.0.1:80"; "http://10.0.0.2:80"]; be_EndpointSource := None;
     be_Balancing := Some {| bal_Mode := BalancingLoadAware; bal_SessionHeaders := ["X-Session"];
                             bal_SessionIdleTimeout := 0 |};
     be_Metrics := None; be_Provider := EmptyString; be_Model := EmptyString; be_ServedModel := EmptyString;
     be_InferenceService := "llama"; be_Capabilities := []; be_Weight := 0; be_CredentialsEnv := EmptyString;
     be_Timeout := 0; be_Pool := None; be_CostPerMillionTokens := None |}.

Definition sample_config : Config :=
  {| cfg_Backends := [sample_backend]; cfg_Rules := []; cfg_DefaultRoute := "llama";
     cfg_DefaultRouteStrategy := EmptyString; cfg_Policy := Sample.policy [] [] |}.

Definition sample_start : Dispatcher := NewDispatcher sample_config (15 * second) (120 * second) (300 * second).

Definition sample_begun : Dispatcher :=
  (beginDispatch sample_start (unix_epoch + hour) sample_backend "/v1/chat/completions" ∅ "{a-prompt}").2.

Lemma load_records_exact_witness :
  exists l e, d_loads sample_begun !! healthKey "llama" "http://10.0.0.1:80" = Some l /\
    d_heap sample_begun !! l = Some e /\ el_inflight e = 1 /\ 0 <= el_inflight e.
Proof.
  exists 1%positive, {| el_inflight := 1; el_sample := None; el_prefill := 2 |}.
  split; [reflexivity|]. split; [reflexivity|]. split; [reflexivity|].
  apply (load_records_exact sample_config (15 * second) (120 * second) (300 * second) sample_begun 1%positive).
  - eapply rtc_l; [|apply rtc_refl]. apply step_begin. reflexivity.
  - reflexivity.
  - reflexivity.
Defined.

(** No count leaks.  Unless the body rewrite panics, a dispatch that fails
    gives back the in-flight and the prefill count it took before it returns; one
    that succeeds gives both back when its body is closed: the open counts are
    those before the dispatch. *)
Lemma Dispatch_releases_counts (getenv : string -> string) (urlOK : string -> bool)
    (d : Dispatcher) (now later : Z)
    (net : nat -> UpstreamRequest -> exchange) (b : Backend) (path : string) (headers : Header) (body : string) :
  accounted d -> d_prefillSeq d + 1 < two64 -> applyModelOverride body (outboundModel b) ≠ None ->
  let '(r, _, d') := Dispatch getenv urlOK d now later net b path headers body in
  match r with
  | Err _ => open_counts d' = open_counts d
  | Ok resp => open_counts (closeBody d' resp) = open_counts d
  end.
Proof.
  intros Ha Hseq Hm. unfold Dispatch.
  assert (Hb : forall d1, let '(_, tok, ptok, d') := beginDispatch d now b path headers body in
    open_counts d1 = open_counts d' ->
    open_counts (releasePrefill (release d1 tok) ptok) = open_counts d /\
    open_counts (release (releasePrefill d1 ptok) tok) = open_counts d) by (intros; by apply begin_release).
  destruct (beginDispatch d now b path headers body) as [[[ep tok] ptok] d1].
  destruct (applyModelOverride body (outboundModel b)) as [out|]; [|done].
  destruct (attempts _ _ _ _ _ _ _) as [x sent].
  destruct x as [[reused ctx|resp]|e]; cbn [finish]; cbv beta iota zeta.
  - apply Hb. destruct ctx; [done|apply open_markUnhealthy].
  - unfold closeBody. cbn [re_prefill re_track]. apply Hb. case_if; [apply open_markUnhealthy|apply open_markHealthy].
  - by apply Hb.
Qed.
