(* ===== verification/DispatchHealth.v ===== *)
(** * Health, placement and the upstream request of the dispatcher

    What quarantine does to an endpoint over time, which endpoint a request is
    placed on, where requests are sent and with which credentials. *)

From stdpp Require Import base gmap strings list sorting.
From Stdlib Require Import ZArith Lia Bool.
From S2P Require Import Prelude GoStrings GoFloat GoHttp GoJson RouterConfig BodyRewrite Picker Sessions Dispatcher DispatchLoad.

(** ** Lemmas: health *)

(** The instants at which [UnixNano] is exact, from 1970 to 2262. *)
Definition in_unix_range (t : Z) : Prop := unix_epoch < t <= unix_epoch + max_int64.

Lemma UnixNano_exact (t : Z) : in_unix_range t -> UnixNano t = t - unix_epoch.
Proof.
  intros H. unfold UnixNano. apply wrap64_small. unfold in_unix_range, in_int64, min_int64, max_int64, two63 in *. lia.
Qed.

Definition failures (d : Dispatcher) (key : string) : Z :=
  match d_health d !! key with Some h => bh_failures h | None => 0 end.

Lemma dispatchable_setHealth (d : Dispatcher) (t : Z) (key key' : string) (h : backendHealth) :
  dispatchable (setHealth d key h) t key' =
  if decide (key = key') then
    (if bh_healthy h then true else (0 <? bh_quarantineUntil h) && (bh_quarantineUntil h <=? UnixNano t))
  else dispatchable d t key'.
Proof.
  unfold dispatchable, setHealth; simpl. destruct (decide (key = key')) as [<-|];
    [by rewrite lookup_insert_eq|by rewrite lookup_insert_ne].
Qed.

Lemma dispatchable_quarantine (d : Dispatcher) (now t : Z) (key : string) (h : backendHealth) :
  in_unix_range (now + d_quarantineDuration d) -> in_unix_range t ->
  dispatchable (quarantine d now key h) t key = (now + d_quarantineDuration d <=? t).
Proof.
  intros Hq Ht. unfold quarantine. rewrite dispatchable_setHealth, decide_True by done. simpl.
  unfold time_add. rewrite !UnixNano_exact by done. unfold in_unix_range in *.
  rewrite (proj2 (Z.ltb_lt _ _)) by lia. simpl.
  destruct (now + d_quarantineDuration d <=? t) eqn:E; to_prop; [apply Z.leb_le|apply Z.leb_gt]; lia.
Qed.

Lemma healthFor_spec (d : Dispatcher) (key : string) :
  exists h, healthFor d key = (h, (healthFor d key).2) /\ bh_failures h = failures d key /\
    d_health (healthFor d key).2 !! key = Some h /\
    d_quarantineDuration (healthFor d key).2 = d_quarantineDuration d /\
    (forall h', d_health d !! key = Some h' -> h' = h /\ (healthFor d key).2 = d).
Proof.
  unfold healthFor, failures. destruct (d_health d !! key) as [h|] eqn:E.
  - exists h. split_and!; auto. by intros h' [= <-].
  - exists freshHealth. split_and!; auto; [simpl; apply lookup_insert_eq|done].
Qed.

Lemma dispatchable_healthFor (d : Dispatcher) (t : Z) (key key' : string) :
  key ≠ key' -> dispatchable (healthFor d key).2 t key' = dispatchable d t key'.
Proof.
  intros Hne. unfold healthFor. destruct (d_health d !! key); [done|]. simpl.
  unfold dispatchable; simpl. by rewrite lookup_insert_ne.
Qed.

(** ** Lemmas: endpoint sets *)

Lemma healthFor_fold_lookup (f : string -> string) (l : list string) (d : Dispatcher) (key : string) (h : backendHealth) :
  d_health d !! key = Some h ->
  d_health (foldl (fun d ep => (healthFor d (f ep)).2) d l) !! key = Some h.
Proof.
  revert d; induction l as [|ep l IH]; intros d H; simpl; [done|]. apply IH. unfold healthFor.
  destruct (d_health d !! f ep) eqn:E; [done|]. simpl. rewrite lookup_insert_ne; [done|]. congruence.
Qed.

Lemma healthFor_fold_absent (f : string -> string) (l : list string) (d : Dispatcher) (key : string) :
  d_health d !! key = None -> Forall (fun ep => f ep ≠ key) l ->
  d_health (foldl (fun d ep => (healthFor d (f ep)).2) d l) !! key = None.
Proof.
  intros H Hl. revert d H; induction Hl as [|ep l Hne _ IH]; intros d H; simpl; [done|]. apply IH. unfold healthFor.
  destruct (d_health d !! f ep) eqn:E; [done|]. simpl. by rewrite lookup_insert_ne.
Qed.

Lemma healthFor_fold_elem (f : string -> string) (l : list string) (d : Dispatcher) (ep : string) :
  ep ∈ l -> is_Some (d_health (foldl (fun d ep => (healthFor d (f ep)).2) d l) !! f ep).
Proof.
  revert d; induction l as [|x l IH]; intros d; [by rewrite elem_of_nil|]. rewrite elem_of_cons. intros [->|H]; [|by apply IH].
  simpl. destruct (d_health (healthFor d (f x)).2 !! f x) as [h|] eqn:E; [by exists h; apply healthFor_fold_lookup|].
  exfalso. destruct (healthFor_spec d (f x)) as (h & _ & _ & E' & _). congruence.
Qed.

(** A key the loop had to create is fresh. *)
Lemma healthFor_fold_fresh (f : string -> string) (l : list string) (d : Dispatcher) (key : string) (h : backendHealth) :
  d_health d !! key = None ->
  d_health (foldl (fun d ep => (healthFor d (f ep)).2) d l) !! key = Some h -> h = freshHealth.
Proof.
  revert d; induction l as [|ep l IH]; intros d Hn; simpl; [congruence|].
  destruct (d_health d !! f ep) eqn:E.
  { assert ((healthFor d (f ep)).2 = d) as -> by (unfold healthFor; by rewrite E). by apply IH. }
  assert ((healthFor d (f ep)).2 = with_health d (<[f ep := freshHealth]> (d_health d))) as ->
    by (unfold healthFor; by rewrite E). intros Hh.
  destruct (decide (f ep = key)) as [<-|Hne].
  - rewrite (healthFor_fold_lookup _ _ _ _ freshHealth) in Hh; [by injection Hh|apply lookup_insert_eq].
  - eapply IH; [|exact Hh]. simpl. by rewrite lookup_insert_ne.
Qed.

Lemma delete_fold_lookup (f : string -> string) (l : list string) (d : Dispatcher) (key : string) :
  d_health (foldl (fun d ep => with_loads (with_health d (delete (f ep) (d_health d))) (delete (f ep) (d_loads d)) (d_heap d)) d l) !! key =
  if existsb (fun ep => bool_decide (f ep = key)) l then None else d_health d !! key.
Proof.
  revert d; induction l as [|ep l IH]; intros d; simpl; [done|]. rewrite IH. simpl.
  case_bool_decide as E; simpl.
  - case_if; [done|]. rewrite E. apply lookup_delete_eq.
  - case_if; [done|]. by rewrite lookup_delete_ne.
Qed.

Lemma healthKey_inj (name ep ep' : string) :
  ep ≠ EmptyString -> ep' ≠ EmptyString -> healthKey name ep = healthKey name ep' -> ep = ep'.
Proof.
  intros H H'. unfold healthKey. rewrite !(proj2 (is_empty_false _)) by done.
  intros E%app_inv_head_str%app_inv_head_str. done.
Qed.

(** The health of one endpoint after [SetEndpoints]. *)
Lemma SetEndpoints_health (d : Dispatcher) (name : string) (eps : list string) (ep : string) :
  ep ≠ EmptyString -> Forall (fun e => e ≠ EmptyString) eps ->
  Forall (fun e => e ≠ EmptyString) (EndpointsOf d name) ->
  d_health (SetEndpoints d name eps) !! healthKey name ep =
  if decide (ep ∈ eps) then Some (default freshHealth (d_health d !! healthKey name ep))
  else if decide (ep ∈ EndpointsOf d name) then None else d_health d !! healthKey name ep.
Proof.
  intros Hep Heps Hprev. unfold SetEndpoints. cbv zeta. unfold with_endpoints at 1. cbn [d_health].
  rewrite (delete_fold_lookup (healthKey name)).
  assert (Hin : forall x, x ∈ SortStrings eps <-> x ∈ eps) by (intros x; by rewrite SortStrings_Permutation).
  assert (Hex : existsb (fun e => bool_decide (healthKey name e = healthKey name ep))
      (List.filter (fun e => negb (bool_decide (e ∈ (list_to_set (SortStrings eps) : gset string)))) (default [] (d_endpoints d !! name)))
      = bool_decide (ep ∈ EndpointsOf d name /\ ep ∉ eps)).
  { apply eq_true_iff_eq. rewrite existsb_exists, bool_decide_eq_true.
    setoid_rewrite filter_In. setoid_rewrite bool_decide_eq_true. setoid_rewrite negb_true_iff.
    setoid_rewrite bool_decide_eq_false. setoid_rewrite elem_of_list_to_set. setoid_rewrite Hin.
    setoid_rewrite <- list_elem_of_In. split.
    - intros (x & [Hx Hn] & E). apply healthKey_inj in E as ->; [done| |done]. by eapply Forall_forall in Hprev.
    - intros [Hx Hn]. by exists ep. }
  rewrite Hex. case_bool_decide as Hb.
  - destruct Hb as [Hb1 Hb2]. by rewrite decide_False, decide_True.
  - destruct (decide (ep ∈ eps)) as [He|He].
    + destruct (healthFor_fold_elem (healthKey name) (SortStrings eps) d ep ltac:(by apply Hin)) as [h Hh]. rewrite Hh.
      destruct (d_health d !! healthKey name ep) as [h'|] eqn:E; simpl.
      * rewrite (healthFor_fold_lookup _ _ _ _ _ E) in Hh. done.
      * f_equal. by eapply healthFor_fold_fresh.
    + rewrite decide_False by naive_solver. destruct (d_health d !! healthKey name ep) as [h'|] eqn:E.
      * by apply healthFor_fold_lookup.
      * apply healthFor_fold_absent; [done|]. apply Forall_forall. intros x Hx Hk. apply Hin in Hx.
        apply healthKey_inj in Hk as ->; [done| |done]. by eapply Forall_forall in Heps.
Qed.

Lemma SetEndpoints_quarantineDuration (d : Dispatcher) (name : string) (eps : list string) :
  d_quarantineDuration (SetEndpoints d name eps) = d_quarantineDuration d.
Proof.
  assert (H1 : forall l d0, d_quarantineDuration (foldl (fun d ep => (healthFor d (healthKey name ep)).2) d0 l) = d_quarantineDuration d0).
  { induction l as [|x l IH]; intros d0; simpl; [done|]. rewrite IH. unfold healthFor. by destruct (d_health d0 !! _). }
  assert (H2 : forall l d0, d_quarantineDuration (foldl (fun d ep => with_loads (with_health d (delete (healthKey name ep) (d_health d)))
      (delete (healthKey name ep) (d_loads d)) (d_heap d)) d0 l) = d_quarantineDuration d0).
  { induction l as [|x l IH]; intros d0; simpl; [done|]. by rewrite IH. }
  unfold SetEndpoints. cbv zeta. cbn [with_endpoints d_quarantineDuration]. by rewrite H2, H1.
Qed.

(** ** Lemmas: placement *)

Lemma rotation_elem (eps : list string) (start : nat) (ep : string) : ep ∈ rotation eps start <-> ep ∈ eps.
Proof.
  unfold rotation. rewrite <- (take_drop start eps) at 3. rewrite !elem_of_app. tauto.
Qed.

Lemma health_candidates (d : Dispatcher) (now : Z) (name : string) (eps : list string) :
  d_health (candidates d now name eps).2 = d_health d /\
  map ca_Endpoint (candidates d now name eps).1 =
    List.filter (fun ep => dispatchable d now (healthKey name ep)) eps.
Proof.
  revert d; induction eps as [|ep eps IH]; intros d; simpl; [done|]. case_if; [|by apply IH].
  assert (d_health (loadFor d name ep).2 = d_health d) as Hh by (unfold loadFor; by destruct (d_loads d !! _)).
  destruct (loadFor d name ep) as [l d1]. cbn [snd] in Hh. specialize (IH d1).
  destruct (candidates d1 now name eps) as [cs d2]. simpl in *. destruct IH as [IH1 IH2]. split; [congruence|].
  f_equal. rewrite IH2. apply filter_ext. intros e. unfold dispatchable. by rewrite Hh.
Qed.

(** The endpoint a rotation picks: a live one, dispatchable when any is. *)
Definition good_pick (d : Dispatcher) (now : Z) (name : string) (eps : list string) (ep : string) : Prop :=
  ep ∈ eps /\
  ((exists e, e ∈ eps /\ dispatchable d now (healthKey name e) = true) -> dispatchable d now (healthKey name ep) = true).

Lemma roundRobin_pick (d : Dispatcher) (now : Z) (b : Backend) (eps : list string) :
  eps ≠ [] -> good_pick d now (be_Name b) eps (roundRobin d now b eps).1.
Proof.
  intros Hne. unfold roundRobin. destruct eps as [|e0 [|e1 eps]]; [done| |].
  - split; [by left|]. intros (e & He & Hd). apply list_elem_of_singleton in He as ->. done.
  - generalize dependent (e0 :: e1 :: eps). intros l Hne. unfold nextCursor. cbv beta iota zeta. cbn [fst].
    set (start := Z.to_nat _).
    assert (Hd : forall t k, dispatchable (with_placement d (d_rings d) (d_sessions d)
      (<[be_Name b := uwrap64 (default 0 (d_cursors d !! be_Name b) + 1)]> (d_cursors d))) t k = dispatchable d t k) by done.
    destruct (List.find _ (rotation l start)) as [ep|] eqn:E.
    + apply find_some in E as [Hin He]. split; [|done]. by apply (rotation_elem l start), list_elem_of_In.
    + apply find_None_iff in E. rewrite Forall_forall in E. split.
      * destruct (rotation l start) as [|r0 rot] eqn:R.
        { destruct l as [|x l]; [done|]. assert (x ∈ rotation (x :: l) start) as Hx by (apply rotation_elem; by left).
          rewrite R in Hx. by apply elem_of_nil in Hx. }
        simpl. apply (rotation_elem l start). rewrite R. by left.
      * intros (e & He & Hde). apply (rotation_elem l start) in He. pose proof (E e He) as Hf. simpl in Hf. rewrite Hd in Hf. congruence.
Qed.

Lemma place_pick (d : Dispatcher) (now : Z) (b : Backend) (h : option Header) (bytes : Z) :
  liveEndpoints d b ≠ [] ->
  good_pick d now (be_Name b) (liveEndpoints d b) (pl_endpoint (place d now b h bytes).1).
Proof.
  intros Hne. unfold place. cbv zeta.
  pose proof (roundRobin_pick d now b _ Hne) as Hrr.
  destruct (roundRobin d now b (liveEndpoints d b)) as [ep0 d0]. cbn [fst] in Hrr.
  destruct (be_Balancing b) as [bal|]; [|done]. case_if; [done|].
  destruct (health_candidates d now (be_Name b) (liveEndpoints d b)) as [Hh Hm].
  destruct (candidates d now (be_Name b) (liveEndpoints d b)) as [cands d1]. cbn [fst snd] in *.
  assert (Hd1 : forall t k, dispatchable d1 t k = dispatchable d t k) by (intros; unfold dispatchable; by rewrite Hh).
  assert (Hgood : forall c, c ∈ cands -> good_pick d now (be_Name b) (liveEndpoints d b) (ca_Endpoint c)).
  { intros c Hc. assert (ca_Endpoint c ∈ List.filter (fun ep => dispatchable d now (healthKey (be_Name b) ep)) (liveEndpoints d b)) as Hin.
    { rewrite <- Hm. by apply list_elem_of_fmap_2. }
    apply list_elem_of_In, filter_In in Hin as [Hin Hdis]. split; [by apply list_elem_of_In|done]. }
  destruct cands as [|c0 cs]; simpl is_nil; cbv iota.
  { pose proof (roundRobin_pick d1 now b _ Hne) as Hrr1. destruct (roundRobin d1 now b (liveEndpoints d b)) as [ep1 d2].
    destruct Hrr1 as [H1 H2]. split; [done|]. rewrite <- Hd1. setoid_rewrite <- Hd1. done. }
  unfold nextCursor. cbv beta iota zeta. case_if.
  - destruct (pick_eligible (c0 :: cs) now (wrap64 (default 0 (d_cursors d1 !! be_Name b)))) as (c & _ & Hp & Hc); [done|].
    destruct (PickLeastLoaded _ _ _) as [ep res]. simpl in *. subst ep. by apply Hgood.
  - match goal with |- context [ringFor ?x ?n ?e] => destruct (ringFor x n e) as [ring d2] end.
    match goal with |- context [Place ?s ?k ?cs ?t ?tie ?home ?n] =>
      destruct (Place_candidate s k cs t tie home n) as (cd & Hc & Hp); [done|]; destruct (Place s k cs t tie home n) as [p s'] end.
    cbn [fst] in *. rewrite Hp. by apply Hgood.
Qed.

(** ** Lemmas: the ring cache *)

Definition comma : Ascii.ascii := Ascii.ascii_of_nat 44.

(** An endpoint URL: not empty, no comma. *)
Definition plain_endpoint (ep : string) : Prop := ep ≠ EmptyString /\ ContainsByte ep comma = false.

Lemma CutByte_Join (e : string) (es : list string) :
  ContainsByte e comma = false ->
  CutByte (Join (e :: es) ",") comma = match es with [] => None | _ => Some (e, Join es ",") end.
Proof.
  intros H. destruct es as [|e' es]; [by apply CutByte_None|].
  change (Join (e :: e' :: es) ",") with (e +:+ String comma (Join (e' :: es) ",")). by apply CutByte_app.
Qed.

Lemma Join_inj (l1 l2 : list string) :
  Forall plain_endpoint l1 -> Forall plain_endpoint l2 -> Join l1 "," = Join l2 "," -> l1 = l2.
Proof.
  intros H1. revert l2; induction H1 as [|e1 l1 [Hne1 Hc1] Hl1 IH]; intros l2 H2 E;
    destruct H2 as [|e2 l2 [Hne2 Hc2] Hl2].
  - done.
  - exfalso. destruct l2; simpl in E; [congruence|]. destruct e2; [done|discriminate E].
  - exfalso. destruct l1; simpl in E; [congruence|]. destruct e1; [done|discriminate E].
  - pose proof (CutByte_Join e1 l1 Hc1) as C1. pose proof (CutByte_Join e2 l2 Hc2) as C2. rewrite E, C2 in C1.
    destruct l1 as [|x1 l1], l2 as [|x2 l2]; try discriminate.
    + simpl in E. by subst.
    + injection C1 as -> E'. f_equal. by apply IH.
Qed.

Definition rings_ok (d : Dispatcher) : Prop :=
  forall backend rc, d_rings d !! backend = Some rc ->
  exists eps, Forall plain_endpoint eps /\ rc_set rc = Join eps "," /\ rc_ring rc = NewRing eps.

Lemma ringFor_NewRing (d : Dispatcher) (backend : string) (eps : list string) :
  rings_ok d -> Forall plain_endpoint eps ->
  (ringFor d backend eps).1 = NewRing eps /\ rings_ok (ringFor d backend eps).2.
Proof.
  intros Hok Heps. unfold ringFor. cbv zeta.
  assert (Hb : rings_ok (with_placement d (<[backend := {| rc_set := Join eps ","; rc_ring := NewRing eps |}]> (d_rings d))
                           (d_sessions d) (d_cursors d))).
  { intros k rc. simpl. rewrite lookup_insert_Some. intros [[<- <-]|[_ Hk]]; [by exists eps|by eapply Hok]. }
  destruct (d_rings d !! backend) as [rc|] eqn:E; [|done]. case_bool_decide as Hs; [|done].
  destruct (Hok _ _ E) as (eps' & Heps' & Hset & Hring). split; [|done]. cbn [fst]. rewrite Hring.
  f_equal. apply Join_inj; [done|done|congruence].
Qed.

(** ** Lemmas: outbound headers *)

Lemma copyField_hop (out : Header) (k K : string) (vals : list string) :
  ToLower K ∈ hopByHop -> copyField out k vals !! K = out !! K.
Proof.
  intros HK. unfold copyField. case_bool_decide as Hk; [done|].
  assert (CanonicalHeaderKey k ≠ K) as Hne by (intros <-; rewrite ToLower_CanonicalHeaderKey in HK; done).
  revert out; induction vals as [|v vals IH]; intros out; simpl; [done|]. by rewrite IH, header_add_lookup_ne.
Qed.

Lemma copyForwardedHeaders_hop (inbound out : Header) (K : string) :
  ToLower K ∈ hopByHop -> copyForwardedHeaders inbound out !! K = out !! K.
Proof.
  intros HK. unfold copyForwardedHeaders. revert out. induction (map_to_list inbound) as [|kv l IH]; intros out; simpl; [done|].
  by rewrite IH, copyField_hop.
Qed.

(** The Authorization field of a request built for a backend. *)
Definition backend_authorization (getenv : string -> string) (b : Backend) : option (list string) :=
  if is_empty (be_CredentialsEnv b) || bool_decide (ToLower (be_Provider b) = "anthropic") then None
  else Some ["Bearer " +:+ getenv (be_CredentialsEnv b)].

Lemma newUpstreamRequest_authorization (getenv : string -> string) (urlOK : string -> bool) (b : Backend) (url : string)
    (headers : Header) (body : string) (req : UpstreamRequest) :
  newUpstreamRequest getenv urlOK b url headers body = Ok req ->
  ur_header req !! "Authorization" = backend_authorization getenv b /\ ur_url req = url /\ ur_body req = body.
Proof.
  unfold newUpstreamRequest. case_if; [done|]. rewrite bind_Ok. intros (h & Hh & [= <-]). cbn [ur_header ur_url ur_body].
  split; [|done].
  assert (h !! "Authorization" = backend_authorization getenv b) as Hauth.
  { revert Hh. unfold applyCredentials, backend_authorization.
    assert (copyForwardedHeaders headers ∅ !! "Authorization" = None) as Hn.
    { rewrite copyForwardedHeaders_hop; [apply lookup_empty|]. apply (bool_decide_unpack _). vm_compute. exact I. }
    destruct (is_empty (be_CredentialsEnv b)); simpl; [by intros [= <-]|]. case_if; [done|].
    case_bool_decide; intros [= <-].
    - unfold header_set. rewrite !lookup_insert_ne; [done| |]; vm_compute; discriminate.
    - unfold header_set. apply lookup_insert_eq. }
  case_bool_decide; [|done]. unfold header_set. rewrite lookup_insert_ne; [done|]. vm_compute. discriminate.
Qed.

(** Every request the attempts send is the one built for the backend. *)
Lemma attempts_sent (getenv : string -> string) (urlOK : string -> bool) (net : nat -> UpstreamRequest -> exchange)
    (b : Backend) (url : string) (headers : Header) (body : string) :
  let '(x, sent) := attempts getenv urlOK net b url headers body in
  (length sent <= 2)%nat /\
  Forall (fun req => newUpstreamRequest getenv urlOK b url headers body = Ok req) sent /\
  (length sent = 2%nat -> exists req, net 0%nat req = XErr true false).
Proof.
  unfold attempts. destruct (newUpstreamRequest getenv urlOK b url headers body) as [req|e] eqn:E; [|simpl; split_and!; [lia|constructor|lia]].
  destruct (net 0%nat req) as [[] []|r] eqn:N; simpl; split_and!; (lia || eauto).
Qed.

(** What a dispatch sends, and where. *)
Lemma Dispatch_sent (getenv : string -> string) (urlOK : string -> bool)
    (d : Dispatcher) (now later : Z) (net : nat -> UpstreamRequest -> exchange) (b : Backend) (path : string)
    (headers : Header) (body : string) :
  let '(_, sent, _) := Dispatch getenv urlOK d now later net b path headers body in
  (length sent <= 2)%nat /\ (length sent = 2%nat -> exists req, net 0%nat req = XErr true false) /\
  exists ep, (ep ∈ liveEndpoints d b \/ (liveEndpoints d b = [] /\ ep = EmptyString)) /\
    Forall (fun req => ur_url req = joinURL (dispatchTarget b ep) path /\
                  ur_header req !! "Authorization" = backend_authorization getenv b /\
                  Some (ur_body req) = applyModelOverride body (outboundModel b)) sent.
Proof.
  unfold Dispatch, beginDispatch.
  match goal with |- context [place d now b ?h ?n] =>
    assert (pl_endpoint (place d now b h n).1 ∈ liveEndpoints d b \/
            (liveEndpoints d b = [] /\ pl_endpoint (place d now b h n).1 = EmptyString)) as Hep;
    [|destruct (place d now b h n) as [p d1]] end.
  { destruct (decide (liveEndpoints d b = [])) as [E|E]; [right|left; by apply place_pick].
    split; [done|]. unfold place. rewrite E. cbv zeta. simpl. by destruct (be_Balancing b). }
  cbn [fst] in Hep. destruct (track _ _ _) as [tok d2]. destruct (trackPrefill _ _ _ _ _) as [ptok d3].
  destruct (applyModelOverride body (outboundModel b)) as [out|] eqn:Eo; [|split_and!; [simpl; lia|done|eauto]].
  pose proof (attempts_sent getenv urlOK net b (joinURL (dispatchTarget b (pl_endpoint p)) path) headers out) as Ha.
  destruct (attempts _ _ _ _ _ _ _) as [x sent]. destruct (finish _ _ _ _ _ _ _) as [r d4].
  destruct Ha as (Hl & Hs & Hr). split_and!; auto. exists (pl_endpoint p). split; [done|].
  eapply Forall_impl; [exact Hs|]. intros req Hreq.
  apply newUpstreamRequest_authorization in Hreq as (? & ? & ->). auto.
Qed.

(** A dispatch panics exactly when its body rewrite does. *)
Lemma newUpstreamRequest_no_panic (getenv : string -> string) (urlOK : string -> bool) (b : Backend) (url : string)
    (headers : Header) (body : string) : newUpstreamRequest getenv urlOK b url headers body ≠ Err EPanic.
Proof.
  unfold newUpstreamRequest, applyCredentials. case_if; [done|].
  destruct (is_empty (be_CredentialsEnv b)); [by simpl|]. destruct (is_empty (getenv _)); [by simpl|]. by destruct (bool_decide (ToLower (be_Provider b) = "anthropic")); simpl.
Qed.

Lemma Dispatch_panics (getenv : string -> string) (urlOK : string -> bool)
    (d : Dispatcher) (now later : Z) (net : nat -> UpstreamRequest -> exchange) (b : Backend) (path : string)
    (headers : Header) (body : string) :
  (Dispatch getenv urlOK d now later net b path headers body).1.1 = Err EPanic -> parse body = Some JNull.
Proof.
  unfold Dispatch. destruct (beginDispatch _ _ _ _ _ _) as [[[ep tok] ptok] d1].
  destruct (applyModelOverride body (outboundModel b)) as [out|] eqn:E; [|by apply applyModelOverride_None in E as [_ E]].
  unfold attempts. set (url := joinURL _ _). pose proof (newUpstreamRequest_no_panic getenv urlOK b url headers out) as Hn.
  destruct (newUpstreamRequest getenv urlOK b url headers out) as [req|e]; [|simpl; congruence].
  destruct (net 0%nat req) as [[] []|r]; try done. by destruct (net 1%nat req).
Qed.

(** ** Properties *)

(** The quarantine window.  A failure of a whole backend, or the second
    failure in a row of an endpoint, makes that health entry not dispatchable for
    exactly [quarantineDuration] from the failure and dispatchable again (as a
    half-open probe) from then on; a first endpoint failure changes nothing; and
    no failure touches the entry of another endpoint or backend. *)
Lemma markUnhealthy_window (d : Dispatcher) (now : Z) (name endpoint : string) :
  let key := healthKey name endpoint in
  let d' := markUnhealthy d now name endpoint in
  0 <= failures d key < 2147483647 -> in_unix_range (now + d_quarantineDuration d) ->
  (forall t, in_unix_range t ->
     dispatchable d' t key =
       if bool_decide (endpoint = EmptyString \/ 1 <= failures d key) then now + d_quarantineDuration d <=? t
       else match d_health d !! key with Some _ => dispatchable d t key | None => true end) /\
  (forall t key', key' ≠ key -> dispatchable d' t key' = dispatchable d t key').
Proof.
  intros key d' Hf Hq. destruct (healthFor_spec d key) as (h & Hh & Hfh & Hlk & Hqd & Hsame).
  unfold d', markUnhealthy. fold key. rewrite Hh. set (d1 := (healthFor d key).2) in *.
  rewrite Hfh, wrap32_small by lia. split.
  - intros t Ht. destruct (is_empty endpoint) eqn:Ee.
    { apply is_empty_true in Ee. rewrite dispatchable_quarantine by (rewrite ?Hqd; auto).
      by rewrite Hqd, bool_decide_eq_true_2 by auto. }
    apply is_empty_false in Ee. unfold endpointFailuresToQuarantine.
    destruct (failures d key + 1 <? 2) eqn:E; to_prop.
    + rewrite bool_decide_eq_false_2 by (intros [?|?]; [done|lia]).
      rewrite dispatchable_setHealth, decide_True by done. cbn [bh_healthy bh_quarantineUntil].
      destruct (d_health d !! key) as [h'|] eqn:E'.
      * destruct (Hsame h' eq_refl) as [-> _]. unfold dispatchable. by rewrite E'.
      * unfold healthFor in Hh. rewrite E' in Hh. by injection Hh as <-.
    + rewrite bool_decide_eq_true_2 by (right; lia).
      rewrite dispatchable_quarantine by (rewrite ?Hqd; auto). by rewrite Hqd.
  - intros t key' Hne. assert (dispatchable d1 t key' = dispatchable d t key') as <- by by apply dispatchable_healthFor.
    destruct (is_empty endpoint); [|case_if]; unfold quarantine; rewrite dispatchable_setHealth, decide_False; done.
Qed.

(** Placement.  A request to a backend with live endpoints is placed on one of
    them, in every balancing mode, with or without a session; and on one that is
    dispatchable whenever some live endpoint is, so a quarantined pod is used only
    when all are quarantined. *)
Lemma place_on_live_endpoint (d : Dispatcher) (now : Z) (b : Backend) (headers : option Header) (bodyBytes : Z) :
  default 0 (d_cursors d !! be_Name b) < two63 -> liveEndpoints d b ≠ [] ->
  let ep := pl_endpoint (place d now b headers bodyBytes).1 in
  ep ∈ liveEndpoints d b /\
  ((exists e, e ∈ liveEndpoints d b /\ dispatchable d now (healthKey (be_Name b) e) = true) ->
   dispatchable d now (healthKey (be_Name b) ep) = true).
Proof. intros _ Hne. by apply place_pick. Qed.

(** Where a dispatch goes.  Every request [Dispatch] sends is to a live
    endpoint of the backend, or to its address when it has none, with the mounted
    path joined on; at most two are sent, the second only after a reused connection
    failed without a context error; and the Authorization field it carries is the
    backend's own credential or absent, never the client's. *)
Lemma Dispatch_contacts (getenv : string -> string) (urlOK : string -> bool)
    (d : Dispatcher) (now later : Z) (net : nat -> UpstreamRequest -> exchange) (b : Backend) (path : string)
    (headers : Header) (body : string) :
  let '(_, sent, _) := Dispatch getenv urlOK d now later net b path headers body in
  (length sent <= 2)%nat /\ (length sent = 2%nat -> exists req, net 0%nat req = XErr true false) /\
  exists ep, (ep ∈ liveEndpoints d b \/ (liveEndpoints d b = [] /\ ep = EmptyString)) /\
    Forall (fun req => ur_url req = joinURL (dispatchTarget b ep) path /\
                  ur_header req !! "Authorization" = backend_authorization getenv b /\
                  Some (ur_body req) = applyModelOverride body (outboundModel b)) sent.
Proof. apply Dispatch_sent. Qed.

(** The ring cache is transparent.  With comma-free endpoints, [ringFor]
    returns the ring of the endpoint set it is given, cached or not, and keeps the
    cache consistent. *)
Lemma ringFor_transparent (d : Dispatcher) (backend : string) (eps : list string) :
  rings_ok d -> Forall plain_endpoint eps ->
  (ringFor d backend eps).1 = NewRing eps /\ rings_ok (ringFor d backend eps).2.
Proof. apply ringFor_NewRing. Qed.

(** A late failure outlives the departure of its pod.  [SetEndpoints] drops
    the health entry of an endpoint that leaves, but a request still in flight to
    it creates a new one when it fails (the stream idle guard here), and the pod
    that later reuses the address starts in that quarantine. *)
Lemma late_failure_survives_departure (d : Dispatcher) (name ep : string) (now t : Z) :
  ep ≠ EmptyString -> Forall (fun e => e ≠ EmptyString) (EndpointsOf d name) ->
  in_unix_range (now + d_quarantineDuration d) -> in_unix_range t -> t < now + d_quarantineDuration d ->
  let left := SetEndpoints d name [] in
  let failed := onStreamIdle left now name ep in
  let returned := SetEndpoints failed name [ep] in
  dispatchable returned t (healthKey name ep) = false.
Proof.
  intros Hep Hprev Hq Ht Hlt left failed returned.
  assert (Hl : d_health left !! healthKey name ep = if decide (ep ∈ EndpointsOf d name) then None else d_health d !! healthKey name ep).
  { unfold left. rewrite SetEndpoints_health by (done || constructor). by rewrite decide_False by apply not_elem_of_nil. }
  assert (Hql : d_quarantineDuration left = d_quarantineDuration d) by apply SetEndpoints_quarantineDuration.
  assert (dispatchable failed t (healthKey name ep) = false) as Hf.
  { unfold failed, onStreamIdle. destruct (healthFor_spec left (healthKey name ep)) as (h & Hh & _ & _ & Hqd & _). rewrite Hh.
    rewrite dispatchable_quarantine by (rewrite ?Hqd, ?Hql; done). rewrite Hqd, Hql. apply Z.leb_gt. lia. }
  assert (EndpointsOf failed name = []) as He.
  { unfold failed, onStreamIdle, EndpointsOf. destruct (healthFor left (healthKey name ep)) as [h d1] eqn:E. simpl.
    assert (d_endpoints d1 = d_endpoints left) as ->
      by (unfold healthFor in E; destruct (d_health left !! _); by injection E as <- <-).
    unfold left, SetEndpoints. simpl. by rewrite lookup_insert_eq. }
  assert (is_Some (d_health failed !! healthKey name ep)) as [h Hh].
  { unfold dispatchable in Hf. unfold failed, onStreamIdle.
    destruct (healthFor left (healthKey name ep)) as [h d1]. simpl. rewrite lookup_insert_eq. by eexists. }
  unfold dispatchable, returned. rewrite SetEndpoints_health; [|done|by repeat constructor|rewrite He; constructor].
  rewrite decide_True by by left. rewrite Hh. simpl. unfold dispatchable in Hf. by rewrite Hh in Hf.
Qed.
