(* ===== verification/Activator.v ===== *)
(** * ModelPool activation (internal/router/activator.go)

    The swap policy of one pool as a transition system.  Every critical section
    under [Activator.mu] is one atomic step; callers blocked on the change channel,
    swap goroutines, asynchronous scale-downs and releases interleave freely.  The
    change channel is a counter that [notify] bumps: a waiter that captured the
    current value is asleep, one that captured an older value can run.  What the
    Kubernetes API answers (member phases, swap outcomes) is an argument of the
    steps.  The [uint64] generation is an unbounded integer: a pool would need
    2^64 swaps to wrap it. *)

From stdpp Require Import base gmap strings list relations.
From Stdlib Require Import ZArith Lia Bool.
From S2P Require Import Prelude GoStrings RouterConfig.

(** ** Data *)

Inductive swap_error :=
| ErrSwapDeadlineExceeded (target : string)
| ErrSwapFailed (target msg : string).

Inductive acquire_error :=
| ErrHoldBudgetExceeded
| ErrIncumbentBusy
| ErrContext
| ErrSwap (e : swap_error).

Record swapFailure := {
  sf_gen : Z;
  sf_err : swap_error;
}.

Record poolRuntime := {
  pr_resident : string;
  pr_residentCheckedAt : Z;
  pr_swapping : bool;
  pr_swapTarget : string;
  pr_swapGen : Z;
  pr_swapErr : gmap string swapFailure;
  pr_inflight : gmap string Z;
  pr_waiting : gmap string Z;
  pr_change : nat;
}.

Definition residentResyncInterval : Z := 5 * second.
Definition modelReadyPhase : string := "Ready".
Definition defaultSwapDeadline : Z := 2 * (120 * second).

Definition resolveSwapDeadline (budget : Z) : Z := if 0 <? budget then budget else defaultSwapDeadline.

(** [runtime]: a pool seen for the first time. *)
Definition newPool : poolRuntime :=
  {| pr_resident := EmptyString; pr_residentCheckedAt := 0; pr_swapping := false; pr_swapTarget := EmptyString;
     pr_swapGen := 0; pr_swapErr := ∅; pr_inflight := ∅; pr_waiting := ∅; pr_change := 0 |}.

Definition count (m : gmap string Z) (k : string) : Z := default 0 (m !! k).
Definition bump (m : gmap string Z) (k : string) (n : Z) : gmap string Z := <[k := count m k + n]> m.

(** ** Updates *)

Definition notify (p : poolRuntime) : poolRuntime :=
  {| pr_resident := pr_resident p; pr_residentCheckedAt := pr_residentCheckedAt p; pr_swapping := pr_swapping p;
     pr_swapTarget := pr_swapTarget p; pr_swapGen := pr_swapGen p; pr_swapErr := pr_swapErr p;
     pr_inflight := pr_inflight p; pr_waiting := pr_waiting p; pr_change := S (pr_change p) |}.

Definition set_resident (p : poolRuntime) (m : string) (checkedAt : Z) : poolRuntime :=
  {| pr_resident := m; pr_residentCheckedAt := checkedAt; pr_swapping := pr_swapping p;
     pr_swapTarget := pr_swapTarget p; pr_swapGen := pr_swapGen p; pr_swapErr := pr_swapErr p;
     pr_inflight := pr_inflight p; pr_waiting := pr_waiting p; pr_change := pr_change p |}.

Definition set_swap (p : poolRuntime) (swapping : bool) (target : string) (gen : Z) : poolRuntime :=
  {| pr_resident := pr_resident p; pr_residentCheckedAt := pr_residentCheckedAt p; pr_swapping := swapping;
     pr_swapTarget := target; pr_swapGen := gen; pr_swapErr := pr_swapErr p;
     pr_inflight := pr_inflight p; pr_waiting := pr_waiting p; pr_change := pr_change p |}.

Definition record_failure (p : poolRuntime) (target : string) (f : swapFailure) : poolRuntime :=
  {| pr_resident := pr_resident p; pr_residentCheckedAt := pr_residentCheckedAt p; pr_swapping := pr_swapping p;
     pr_swapTarget := pr_swapTarget p; pr_swapGen := pr_swapGen p; pr_swapErr := <[target := f]> (pr_swapErr p);
     pr_inflight := pr_inflight p; pr_waiting := pr_waiting p; pr_change := pr_change p |}.

Definition set_counts (p : poolRuntime) (inflight waiting : gmap string Z) : poolRuntime :=
  {| pr_resident := pr_resident p; pr_residentCheckedAt := pr_residentCheckedAt p; pr_swapping := pr_swapping p;
     pr_swapTarget := pr_swapTarget p; pr_swapGen := pr_swapGen p; pr_swapErr := pr_swapErr p;
     pr_inflight := inflight; pr_waiting := waiting; pr_change := pr_change p |}.

(** ** Critical sections *)

(** [reconcileResident]: [phase] answers a member's phase, [None] on an API
    error, which ends the check with the belief reached so far. *)
Fixpoint adoptReady (phase : string -> option string) (members : list string) : option string :=
  match members with
  | [] => None
  | m :: ms =>
      match phase m with
      | None => None
      | Some ph => if bool_decide (ph = modelReadyPhase) then Some m else adoptReady phase ms
      end
  end.

Definition reconcileResident (phase : string -> option string) (now : Z) (members : list string) (p : poolRuntime)
    : poolRuntime :=
  if pr_swapping p then p
  else if negb (time_is_zero (pr_residentCheckedAt p)) &&
          (time_sub now (pr_residentCheckedAt p) <? residentResyncInterval) then p
  else
    let adopt := match adoptReady phase members with Some m => m | None => EmptyString end in
    if is_empty (pr_resident p) then set_resident p adopt now
    else
      match phase (pr_resident p) with
      | None => set_resident p (pr_resident p) now
      | Some ph =>
          if bool_decide (ph = modelReadyPhase) then set_resident p (pr_resident p) now
          else set_resident p adopt now
      end.

Definition InvalidateResident (p : poolRuntime) : poolRuntime :=
  if pr_swapping p then p else set_resident p (pr_resident p) 0.

(** What one pass of the loop in [AcquireWithMode] decides. *)
Inductive verdict :=
| Refuse (e : acquire_error)
| Serve
| Block.

Definition startSwap (p : poolRuntime) (target : string) : poolRuntime :=
  notify (set_swap p true target (pr_swapGen p + 1)).

(** One pass of the loop; the flag says whether it started a swap to [member]. *)
Definition acquirePass (p : poolRuntime) (member mode : string) (arrivalGen : Z) : verdict * bool * poolRuntime :=
  let failed := match pr_swapErr p !! member with
                | Some f => if arrivalGen <=? sf_gen f then Some (sf_err f) else None
                | None => None
                end in
  match failed with
  | Some e => (Refuse (ErrSwap e), false, p)
  | None =>
      if pr_swapping p then (Block, false, p)
      else if bool_decide (pr_resident p = member) then
        (Serve, false, set_counts p (bump (pr_inflight p) member 1) (pr_waiting p))
      else
        let incumbent := pr_resident p in
        if is_empty incumbent || (count (pr_inflight p) incumbent =? 0) then (Block, true, startSwap p member)
        else if bool_decide (mode = PoolActivationIfIdle) then (Refuse ErrIncumbentBusy, false, p)
        else (Block, false, p)
  end.

Definition arrivalGen (p : poolRuntime) : Z := if pr_swapping p then pr_swapGen p else pr_swapGen p + 1.

(** The start of [AcquireWithMode], up to the first unlock. *)
Definition acquireEnter (phase : string -> option string) (now : Z) (members : list string) (member mode : string)
    (p : poolRuntime) : verdict * bool * Z * poolRuntime :=
  let p := reconcileResident phase now members p in
  let p := set_counts p (pr_inflight p) (bump (pr_waiting p) member 1) in
  let gen := arrivalGen p in
  let '(v, started, p) := acquirePass p member mode gen in
  (v, started, gen, p).

(** The deferred function; the flag says whether a scale-down is spawned. *)
Definition acquireLeave (member : string) (p : poolRuntime) : bool * poolRuntime :=
  let p := set_counts p (pr_inflight p) (bump (pr_waiting p) member (-1)) in
  ((count (pr_waiting p) member =? 0) && negb (bool_decide (pr_resident p = member)), p).

Definition releaseSlot (member : string) (p : poolRuntime) : poolRuntime :=
  let p := if 0 <? count (pr_inflight p) member
           then set_counts p (bump (pr_inflight p) member (-1)) (pr_waiting p) else p in
  if count (pr_inflight p) member =? 0 then notify p else p.

(** How the activate and wait-ready calls of a swap goroutine ended. *)
Inductive swap_outcome :=
| SwapReady
| SwapCancelled
| SwapDeadline
| SwapError (msg : string).

(** The end of the goroutine of [startSwap]; the flag says whether it scales the
    target back down. *)
Definition finishSwap (gen : Z) (target : string) (now : Z) (o : swap_outcome) (p : poolRuntime) : bool * poolRuntime :=
  if negb (pr_swapGen p =? gen) then (false, notify p)
  else
    let p := set_swap p false EmptyString (pr_swapGen p) in
    match o with
    | SwapReady => (false, notify (set_resident p target now))
    | SwapCancelled => (false, notify p)
    | SwapDeadline => (true, notify (record_failure p target {| sf_gen := gen; sf_err := ErrSwapDeadlineExceeded target |}))
    | SwapError msg => (true, notify (record_failure p target {| sf_gen := gen; sf_err := ErrSwapFailed target msg |}))
    end.

(** The re-check of [deactivateIfUnwanted]. *)
Definition unwanted (p : poolRuntime) (member : string) : bool :=
  negb ((0 <? count (pr_waiting p) member) || bool_decide (pr_resident p = member) ||
        (pr_swapping p && bool_decide (pr_swapTarget p = member))).

(** ** The transition system *)

(** A caller of [AcquireWithMode]: asleep or runnable at the select, returned but
    before its deferred function ([None] is success), or holding a slot. *)
Inductive caller :=
| Waiting (member mode : string) (gen : Z) (ch : nat)
| Returning (member : string) (r : option acquire_error)
| Serving (member : string).

Record swap := {
  sw_gen : Z;
  sw_target : string;
}.

(** A call of the member controller that changes the cluster. *)
Inductive command :=
| ScaleUp (member : string)
| ScaleDown (member : string).

Record world := {
  w_pool : poolRuntime;
  w_callers : gmap positive caller;
  w_swaps : gmap positive swap;
  w_deactivations : list string;
  w_log : list command;
}.

Definition w_init : world :=
  {| w_pool := newPool; w_callers := ∅; w_swaps := ∅; w_deactivations := []; w_log := [] |}.

(** A caller after a pass of the loop. *)
Definition after_pass (v : verdict) (member mode : string) (gen : Z) (p : poolRuntime) : caller :=
  match v with
  | Refuse e => Returning member (Some e)
  | Serve => Returning member None
  | Block => Waiting member mode gen (pr_change p)
  end.

(** A started swap is a new goroutine. *)
Definition spawn (started : bool) (target : string) (p : poolRuntime) (s : gmap positive swap) : gmap positive swap :=
  if started then <[fresh (dom s) := {| sw_gen := pr_swapGen p; sw_target := target |}]> s else s.

Inductive step : world -> world -> Prop :=
| step_enter w id phase now members member mode v started gen p :
    w_callers w !! id = None -> member ≠ EmptyString ->
    acquireEnter phase now members member mode (w_pool w) = (v, started, gen, p) ->
    step w {| w_pool := p; w_callers := <[id := after_pass v member mode gen p]> (w_callers w);
              w_swaps := spawn started member p (w_swaps w);
              w_deactivations := w_deactivations w; w_log := w_log w |}
| step_wake w id member mode gen ch v started p :
    w_callers w !! id = Some (Waiting member mode gen ch) -> (ch < pr_change (w_pool w))%nat ->
    acquirePass (w_pool w) member mode gen = (v, started, p) ->
    step w {| w_pool := p; w_callers := <[id := after_pass v member mode gen p]> (w_callers w);
              w_swaps := spawn started member p (w_swaps w);
              w_deactivations := w_deactivations w; w_log := w_log w |}
| step_give_up w id member mode gen ch e :
    w_callers w !! id = Some (Waiting member mode gen ch) -> e = ErrHoldBudgetExceeded \/ e = ErrContext ->
    step w {| w_pool := w_pool w; w_callers := <[id := Returning member (Some e)]> (w_callers w);
              w_swaps := w_swaps w; w_deactivations := w_deactivations w; w_log := w_log w |}
| step_leave w id member r deact p :
    w_callers w !! id = Some (Returning member r) -> acquireLeave member (w_pool w) = (deact, p) ->
    step w {| w_pool := p;
              w_callers := match r with None => <[id := Serving member]> (w_callers w)
                                   | Some _ => delete id (w_callers w) end;
              w_swaps := w_swaps w;
              w_deactivations := if deact then member :: w_deactivations w else w_deactivations w;
              w_log := w_log w |}
| step_release w id member :
    w_callers w !! id = Some (Serving member) ->
    step w {| w_pool := releaseSlot member (w_pool w); w_callers := delete id (w_callers w);
              w_swaps := w_swaps w; w_deactivations := w_deactivations w; w_log := w_log w |}
| step_activate w id s :
    w_swaps w !! id = Some s ->
    step w {| w_pool := w_pool w; w_callers := w_callers w; w_swaps := w_swaps w;
              w_deactivations := w_deactivations w; w_log := ScaleUp (sw_target s) :: w_log w |}
| step_swap_done w id s now o down p :
    w_swaps w !! id = Some s -> finishSwap (sw_gen s) (sw_target s) now o (w_pool w) = (down, p) ->
    step w {| w_pool := p; w_callers := w_callers w; w_swaps := delete id (w_swaps w);
              w_deactivations := w_deactivations w;
              w_log := if down then ScaleDown (sw_target s) :: w_log w else w_log w |}
| step_deactivate w l1 member l2 :
    w_deactivations w = l1 ++ member :: l2 ->
    step w {| w_pool := w_pool w; w_callers := w_callers w; w_swaps := w_swaps w; w_deactivations := l1 ++ l2;
              w_log := if unwanted (w_pool w) member then ScaleDown member :: w_log w else w_log w |}
| step_invalidate w :
    step w {| w_pool := InvalidateResident (w_pool w); w_callers := w_callers w; w_swaps := w_swaps w;
              w_deactivations := w_deactivations w; w_log := w_log w |}.

(** ** Invariants *)

(** Whether a caller holds a slot of [m], and whether it is registered for [m]. *)
Definition slot (m : string) (_ : positive) (c : caller) : Z :=
  match c with
  | Serving m' | Returning m' None => if decide (m' = m) then 1 else 0
  | _ => 0
  end.

Definition registered (m : string) (_ : positive) (c : caller) : Z :=
  match c with
  | Waiting m' _ _ _ | Returning m' _ => if decide (m' = m) then 1 else 0
  | Serving _ => 0
  end.

Record inv (w : world) : Prop := {
  inv_owner : forall id s, w_swaps w !! id = Some s ->
    pr_swapping (w_pool w) = true /\ sw_gen s = pr_swapGen (w_pool w) /\ sw_target s = pr_swapTarget (w_pool w);
  inv_unique : forall id id' s s', w_swaps w !! id = Some s -> w_swaps w !! id' = Some s' -> id = id';
  inv_exists : pr_swapping (w_pool w) = true -> exists id s, w_swaps w !! id = Some s;
  inv_inflight : forall m, count (pr_inflight (w_pool w)) m = msum (slot m) (w_callers w);
  inv_waiting : forall m, count (pr_waiting (w_pool w)) m = msum (registered m) (w_callers w);
  inv_failures : forall m f, pr_swapErr (w_pool w) !! m = Some f ->
    sf_gen f <= pr_swapGen (w_pool w) /\ (pr_swapping (w_pool w) = true -> sf_gen f < pr_swapGen (w_pool w));
  inv_channel : forall id m md g ch, w_callers w !! id = Some (Waiting m md g ch) -> (ch <= pr_change (w_pool w))%nat;
}.

(** A sleeping waiter has something to wait for, and no answer it missed. *)
Definition waits_for_something (w : world) : Prop :=
  forall id m md g, w_callers w !! id = Some (Waiting m md g (pr_change (w_pool w))) ->
  (forall f, pr_swapErr (w_pool w) !! m = Some f -> sf_gen f < g) /\
  (pr_swapping (w_pool w) = true \/
   (pr_resident (w_pool w) ≠ EmptyString /\ pr_resident (w_pool w) ≠ m /\
    0 < count (pr_inflight (w_pool w)) (pr_resident (w_pool w)))).

(** The resident belief only changes together with a notification. *)
Definition announced (w w' : world) : Prop :=
  pr_resident (w_pool w') = pr_resident (w_pool w) \/ (pr_change (w_pool w) < pr_change (w_pool w'))%nat.

(** ** Lemmas *)

Lemma count_bump (m : gmap string Z) (k k' : string) (n : Z) :
  count (bump m k n) k' = count m k' + if decide (k = k') then n else 0.
Proof.
  unfold bump, count. destruct (decide (k = k')) as [<-|].
  - by rewrite lookup_insert_eq.
  - rewrite lookup_insert_ne by done. lia.
Qed.

Lemma slot_bounds (m : string) (cs : gmap positive caller) : 0 <= msum (slot m) cs.
Proof.
  apply (msum_bounds (slot m) cs). intros id c _. unfold slot.
  destruct c as [|m' [e|]|m']; try lia; case_decide; lia.
Qed.

(** Replacing a caller changes the sums by the difference. *)
Lemma msum_replace (f : positive -> caller -> Z) (cs : gmap positive caller) (id : positive) (c c' : caller) :
  cs !! id = Some c -> msum f (<[id := c']> cs) = msum f cs - f id c + f id c'.
Proof.
  intros H. rewrite <- insert_delete_eq, msum_insert by apply lookup_delete_eq.
  rewrite (msum_delete f cs id c) by done. lia.
Qed.

Lemma slot_pass (m member mode : string) (id : positive) (v : verdict) (gen : Z) (p : poolRuntime) :
  slot m id (after_pass v member mode gen p) =
  match v with Serve => if decide (member = m) then 1 else 0 | _ => 0 end.
Proof. by destruct v. Qed.

Lemma registered_pass (m member mode : string) (id : positive) (v : verdict) (gen : Z) (p : poolRuntime) :
  registered m id (after_pass v member mode gen p) = if decide (member = m) then 1 else 0.
Proof. by destruct v. Qed.

(** The cases of one pass, with what each does to the pool. *)
Lemma acquirePass_cases (p p' : poolRuntime) (member mode : string) (gen : Z) (v : verdict) (started : bool) :
  acquirePass p member mode gen = (v, started, p') ->
  (exists e, v = Refuse e /\ started = false /\ p' = p) \/
  (v = Serve /\ started = false /\ pr_swapping p = false /\ pr_resident p = member /\
   p' = set_counts p (bump (pr_inflight p) member 1) (pr_waiting p)) \/
  (v = Block /\ (forall f, pr_swapErr p !! member = Some f -> sf_gen f < gen) /\
   ((started = false /\ p' = p /\ (pr_swapping p = true \/
       (pr_resident p ≠ EmptyString /\ pr_resident p ≠ member /\ count (pr_inflight p) (pr_resident p) ≠ 0))) \/
    (started = true /\ p' = startSwap p member /\ pr_swapping p = false /\
       (pr_resident p = EmptyString \/ count (pr_inflight p) (pr_resident p) = 0)))).
Proof.
  unfold acquirePass. destruct (match pr_swapErr p !! member with Some f => _ | None => None end) as [e|] eqn:F.
  { intros [= <- <- <-]. left. eauto. }
  assert (Hf : forall f, pr_swapErr p !! member = Some f -> sf_gen f < gen).
  { intros f Hf. rewrite Hf in F. case_if; [done|]. by to_prop. }
  destruct (pr_swapping p) eqn:Hs.
  { intros [= <- <- <-]. right; right. split_and!; auto. }
  case_bool_decide as Hr.
  { intros [= <- <- <-]. right; left. auto. }
  destruct (is_empty (pr_resident p) || (count (pr_inflight p) (pr_resident p) =? 0)) eqn:Hi.
  { intros [= <- <- <-]. right; right. split_and!; auto. right. split_and!; auto.
    apply orb_true_iff in Hi as [Hi|Hi]; [left; by apply is_empty_true|right; by apply Z.eqb_eq]. }
  apply orb_false_iff in Hi as [Hi1 Hi2]. apply is_empty_false in Hi1. to_prop.
  case_bool_decide; intros [= <- <- <-]; [left; eauto|]. right; right. split_and!; auto 10.
Qed.

(** A pass by a registered waiter keeps the invariant. *)
Lemma inv_pass (w : world) (id : positive) (member mode : string) (gen : Z) (ch : nat) (v : verdict) (started : bool) (p : poolRuntime) :
  inv w -> w_callers w !! id = Some (Waiting member mode gen ch) ->
  acquirePass (w_pool w) member mode gen = (v, started, p) ->
  inv {| w_pool := p; w_callers := <[id := after_pass v member mode gen p]> (w_callers w);
         w_swaps := spawn started member p (w_swaps w);
         w_deactivations := w_deactivations w; w_log := w_log w |}.
Proof.
  intros [H1 H2 H3 H4 H5 H6 H7] Hid Hp.
  assert (Hslot : forall m, msum (slot m) (<[id := after_pass v member mode gen p]> (w_callers w)) =
    msum (slot m) (w_callers w) + match v with Serve => if decide (member = m) then 1 else 0 | _ => 0 end).
  { intros m. rewrite (msum_replace _ _ _ _ _ Hid), slot_pass. simpl. lia. }
  assert (Hreg : forall m, msum (registered m) (<[id := after_pass v member mode gen p]> (w_callers w)) =
    msum (registered m) (w_callers w)).
  { intros m. rewrite (msum_replace _ _ _ _ _ Hid), registered_pass. simpl. lia. }
  assert (Hch : forall p', (pr_change (w_pool w) <= pr_change p')%nat -> forall id' m md g c,
    <[id := after_pass v member mode gen p']> (w_callers w) !! id' = Some (Waiting m md g c) -> (c <= pr_change p')%nat).
  { intros p' Hle id' m md g c [[<- Hc]|[_ Hc]]%lookup_insert_Some.
    - destruct v; simpl in Hc; simplify_eq; lia.
    - specialize (H7 _ _ _ _ _ Hc). lia. }
  apply acquirePass_cases in Hp as [(e & -> & -> & ->)|[(-> & -> & Hs & Hr & ->)|
    (-> & _ & [(-> & -> & _)|(-> & -> & Hs & _)])]].
  - split; simpl; auto; [by intros m; rewrite Hslot, H4; lia|by intros m; rewrite Hreg, H5|by apply Hch].
  - split; simpl; auto; [|by intros m; rewrite Hreg, H5|by apply Hch].
    intros m. by rewrite Hslot, count_bump, H4.
  - split; simpl; auto; [by intros m; rewrite Hslot, H4; lia|by intros m; rewrite Hreg, H5|by apply Hch].
  - assert (w_swaps w = ∅) as Hnone.
    { apply map_empty. intros i. destruct (w_swaps w !! i) eqn:E; [|done]. destruct (H1 _ _ E). congruence. }
    split; simpl; rewrite ?Hnone.
    + intros i s [[_ <-]|[_ Hi]]%lookup_insert_Some; [done|by rewrite lookup_empty in Hi].
    + intros i i' s s' [[<- _]|[_ Hi]]%lookup_insert_Some [[<- _]|[_ Hi']]%lookup_insert_Some;
        [done|by rewrite lookup_empty in Hi'|by rewrite lookup_empty in Hi..].
    + intros _. eexists _, _. apply lookup_insert_eq.
    + intros m. rewrite Hslot, H4. lia.
    + intros m. by rewrite Hreg, H5.
    + intros m f Hf. destruct (H6 m f Hf). split; [lia|intros _; lia].
    + apply (Hch (startSwap (w_pool w) member)). simpl. lia.
Qed.

(** What does not depend on the resident belief. *)
Lemma inv_set_resident (w : world) (m : string) (t : Z) :
  inv w ->
  inv {| w_pool := set_resident (w_pool w) m t; w_callers := w_callers w; w_swaps := w_swaps w;
         w_deactivations := w_deactivations w; w_log := w_log w |}.
Proof. intros []; split; assumption. Qed.

Lemma reconcileResident_set (phase : string -> option string) (now : Z) (members : list string) (p : poolRuntime) :
  exists m t, reconcileResident phase now members p = set_resident p m t.
Proof.
  assert (p = set_resident p (pr_resident p) (pr_residentCheckedAt p)) as Hp by by destruct p.
  unfold reconcileResident. repeat case_if; eauto. destruct (phase _); [case_if|]; eauto.
Qed.

(** Registering a new caller, before its first pass. *)
Lemma inv_register (w : world) (id : positive) (member mode : string) (gen : Z) :
  inv w -> w_callers w !! id = None ->
  inv {| w_pool := set_counts (w_pool w) (pr_inflight (w_pool w)) (bump (pr_waiting (w_pool w)) member 1);
         w_callers := <[id := Waiting member mode gen 0]> (w_callers w);
         w_swaps := w_swaps w; w_deactivations := w_deactivations w; w_log := w_log w |}.
Proof.
  intros [H1 H2 H3 H4 H5 H6 H7] Hid. split; simpl; auto.
  - intros m. rewrite msum_insert, H4 by done. done.
  - intros m. rewrite msum_insert, count_bump, H5 by done. simpl. lia.
  - intros id' m md g ch [[<- [= <- <- <- <-]]|[_ Hc]]%lookup_insert_Some; [lia|eauto].
Qed.

Lemma inv_enter (w : world) (id : positive) (phase : string -> option string) (now : Z) (members : list string)
    (member mode : string) (v : verdict) (started : bool) (gen : Z) (p : poolRuntime) :
  inv w -> w_callers w !! id = None ->
  acquireEnter phase now members member mode (w_pool w) = (v, started, gen, p) ->
  inv {| w_pool := p; w_callers := <[id := after_pass v member mode gen p]> (w_callers w);
         w_swaps := spawn started member p (w_swaps w);
         w_deactivations := w_deactivations w; w_log := w_log w |}.
Proof.
  intros Hw Hid. unfold acquireEnter.
  destruct (reconcileResident_set phase now members (w_pool w)) as (m & t & ->).
  destruct (acquirePass _ _ _ _) as [[v' started'] p'] eqn:Hp. intros [= <- <- <- <-].
  pose proof (inv_register _ id member mode (arrivalGen (set_counts (set_resident (w_pool w) m t)
    (pr_inflight (set_resident (w_pool w) m t)) (bump (pr_waiting (set_resident (w_pool w) m t)) member 1)))
    (inv_set_resident w m t Hw) Hid) as Hr.
  eapply inv_pass in Hr; [|simpl; apply lookup_insert_eq|exact Hp]. simpl in Hr. by rewrite insert_insert_eq in Hr.
Qed.

Lemma count_waiting_pos (w : world) (id : positive) (m : string) (c : caller) :
  inv w -> w_callers w !! id = Some c -> slot m id c = 1 -> 0 < count (pr_inflight (w_pool w)) m.
Proof.
  intros Hw Hc Hs. rewrite (inv_inflight _ Hw), (msum_delete _ _ _ _ Hc), Hs.
  pose proof (slot_bounds m (delete id (w_callers w))). lia.
Qed.

Lemma releaseSlot_eq (w : world) (id : positive) (m : string) :
  inv w -> w_callers w !! id = Some (Serving m) ->
  releaseSlot m (w_pool w) =
  let p := set_counts (w_pool w) (bump (pr_inflight (w_pool w)) m (-1)) (pr_waiting (w_pool w)) in
  if count (pr_inflight (w_pool w)) m =? 1 then notify p else p.
Proof.
  intros Hw Hc. unfold releaseSlot.
  rewrite (proj2 (Z.ltb_lt _ _)) by (eapply count_waiting_pos; [done|exact Hc|simpl; by rewrite decide_True]).
  simpl. rewrite count_bump, decide_True by done.
  replace (count (pr_inflight (w_pool w)) m + -1 =? 0) with (count (pr_inflight (w_pool w)) m =? 1); [done|].
  destruct (count (pr_inflight (w_pool w)) m =? 1) eqn:E; to_prop; symmetry; [apply Z.eqb_eq|apply Z.eqb_neq]; lia.
Qed.

Lemma inv_callers (w : world) (p : poolRuntime) (cs : gmap positive caller) (ds : list string) (lg : list command) :
  inv w -> pr_swapping p = pr_swapping (w_pool w) -> pr_swapGen p = pr_swapGen (w_pool w) ->
  pr_swapTarget p = pr_swapTarget (w_pool w) -> pr_swapErr p = pr_swapErr (w_pool w) ->
  (forall m, count (pr_inflight p) m = msum (slot m) cs) -> (forall m, count (pr_waiting p) m = msum (registered m) cs) ->
  (forall id m md g ch, cs !! id = Some (Waiting m md g ch) -> (ch <= pr_change p)%nat) ->
  inv {| w_pool := p; w_callers := cs; w_swaps := w_swaps w; w_deactivations := ds; w_log := lg |}.
Proof. intros [H1 H2 H3 H4 H5 H6 H7] E1 E2 E3 E4 Hc1 Hc2 Hch. split; simpl; rewrite ?E1, ?E2, ?E3, ?E4; auto. Qed.

(** The end of the running swap. *)
Lemma inv_swap_done (w : world) (id : positive) (s : swap) (now : Z) (o : swap_outcome) (down : bool) (p : poolRuntime)
    (ds : list string) (lg : list command) :
  inv w -> w_swaps w !! id = Some s -> finishSwap (sw_gen s) (sw_target s) now o (w_pool w) = (down, p) ->
  inv {| w_pool := p; w_callers := w_callers w; w_swaps := delete id (w_swaps w); w_deactivations := ds; w_log := lg |} /\
  pr_change p = S (pr_change (w_pool w)) /\ pr_swapping p = false.
Proof.
  intros [H1 H2 H3 H4 H5 H6 H7] Hs Hf. destruct (H1 _ _ Hs) as (Hsw & Hg & Ht).
  assert (delete id (w_swaps w) = ∅) as Hnone.
  { apply map_empty. intros i. destruct (decide (id = i)) as [<-|]; [apply lookup_delete_eq|].
    rewrite lookup_delete_ne by done. destruct (w_swaps w !! i) eqn:E; [|done]. exfalso. by eapply n, H2. }
  assert (Hch : forall id m md g ch, w_callers w !! id = Some (Waiting m md g ch) -> (ch <= S (pr_change (w_pool w)))%nat).
  { intros. specialize (H7 _ _ _ _ _ H). lia. }
  unfold finishSwap in Hf. rewrite Hg, Z.eqb_refl in Hf. simpl in Hf.
  destruct o; injection Hf as <- <-; (split; [|done]); (split; simpl; rewrite ?Hnone; [by intros ??; rewrite lookup_empty
    |by intros ????; rewrite lookup_empty|done|auto|auto| |auto]).
  1,2: intros m f Hmf; destruct (H6 m f Hmf); by split.
  all: intros m f [[<- <-]|[_ Hmf]]%lookup_insert_Some; [simpl; split; [lia|done]|destruct (H6 m f Hmf); by split].
Qed.

Lemma inv_step (w w' : world) : step w w' -> inv w -> inv w'.
Proof.
  intros Hs Hw. destruct Hs as [w id phase now members member mode v started gen p Hid Hne Hp|
    w id member mode gen ch v started p Hid Hch Hp|w id member mode gen ch e Hid He|w id member r deact p Hid Hl|
    w id member Hid|w id s Hid|w id s now o down p Hid Hf|w l1 member l2 Hl|w].
  - by eapply inv_enter.
  - by eapply inv_pass.
  - apply inv_callers; auto; try (intros m; rewrite (msum_replace _ _ _ _ _ Hid); simpl;
      rewrite ?(inv_inflight _ Hw), ?(inv_waiting _ Hw); lia).
    intros id' m md g c [[_ Hc]|[_ Hc]]%lookup_insert_Some; [done|by eapply inv_channel].
  - injection Hl as <- <-. apply inv_callers; auto; simpl.
    + intros m. rewrite (inv_inflight _ Hw). destruct r.
      * by rewrite (msum_delete _ _ _ _ Hid).
      * rewrite (msum_replace _ _ _ _ _ Hid). simpl. lia.
    + intros m. rewrite count_bump, (inv_waiting _ Hw). destruct r.
      * rewrite (msum_delete _ _ _ _ Hid). simpl. case_decide; lia.
      * rewrite (msum_replace _ _ _ _ _ Hid). simpl. case_decide; lia.
    + intros id' m md g c Hc. eapply (inv_channel _ Hw id'). destruct r.
      * apply lookup_delete_Some in Hc as [_ Hc]. exact Hc.
      * apply lookup_insert_Some in Hc as [[_ Hc]|[_ Hc]]; [done|exact Hc].
  - rewrite (releaseSlot_eq _ _ _ Hw Hid). cbv zeta.
    assert (Hc1 : forall m, count (bump (pr_inflight (w_pool w)) member (-1)) m = msum (slot m) (delete id (w_callers w))).
    { intros m. rewrite count_bump, (inv_inflight _ Hw), (msum_delete _ _ _ _ Hid). simpl. case_decide; lia. }
    assert (Hc2 : forall m, count (pr_waiting (w_pool w)) m = msum (registered m) (delete id (w_callers w))).
    { intros m. by rewrite (inv_waiting _ Hw), (msum_delete _ _ _ _ Hid). }
    assert (Hch : forall n, (pr_change (w_pool w) <= n)%nat -> forall id' m md g c,
      delete id (w_callers w) !! id' = Some (Waiting m md g c) -> (c <= n)%nat).
    { intros n Hn id' m md g c [_ Hc]%lookup_delete_Some. pose proof (inv_channel _ Hw _ _ _ _ _ Hc). lia. }
    case_if; apply inv_callers; auto; simpl; apply Hch; lia.
  - by apply inv_callers; try apply Hw.
  - by eapply inv_swap_done.
  - by apply inv_callers; try apply Hw.
  - unfold InvalidateResident. case_if; [by apply inv_callers; try apply Hw|by apply inv_set_resident].
Qed.

Lemma inv_init : inv w_init.
Proof. split; simpl; try (intros; by rewrite ?lookup_empty in * ); done. Qed.

Lemma inv_reachable (w : world) : rtc step w_init w -> inv w.
Proof.
  intros H. pose proof inv_init as Hi. induction H as [|x y z Hs _ IH]; [done|]. by apply IH, (inv_step x).
Qed.

(** A waiter that still sleeps keeps its reason while nothing was announced. *)
Lemma still_waits (w : world) (p : poolRuntime) (id : positive) (m md : string) (g : Z) :
  inv w -> waits_for_something w -> w_callers w !! id = Some (Waiting m md g (pr_change p)) ->
  (pr_change (w_pool w) <= pr_change p)%nat ->
  (pr_change p = pr_change (w_pool w) ->
     pr_swapErr p = pr_swapErr (w_pool w) /\ pr_swapping p = pr_swapping (w_pool w) /\
     pr_resident p = pr_resident (w_pool w) /\
     (0 < count (pr_inflight (w_pool w)) (pr_resident (w_pool w)) -> 0 < count (pr_inflight p) (pr_resident p))) ->
  (forall f, pr_swapErr p !! m = Some f -> sf_gen f < g) /\
  (pr_swapping p = true \/
   (pr_resident p ≠ EmptyString /\ pr_resident p ≠ m /\ 0 < count (pr_inflight p) (pr_resident p))).
Proof.
  intros Hi Hw Hc Hle Heq. pose proof (inv_channel _ Hi _ _ _ _ _ Hc) as Hch.
  assert (pr_change p = pr_change (w_pool w)) as E by lia. specialize (Heq E) as (E1 & E2 & E3 & E4).
  rewrite E in Hc. destruct (Hw _ _ _ _ Hc) as [H1 H2]. rewrite E1, E2, E3. split; [done|].
  destruct H2 as [H2|(H2 & H3 & H4)]; [by left|right]. rewrite E3 in E4. auto.
Qed.

Lemma pass_change (p p' : poolRuntime) (member mode : string) (gen : Z) (v : verdict) (started : bool) :
  acquirePass p member mode gen = (v, started, p') ->
  (pr_change p <= pr_change p')%nat /\
  (pr_change p' = pr_change p ->
     pr_swapErr p' = pr_swapErr p /\ pr_swapping p' = pr_swapping p /\ pr_resident p' = pr_resident p /\
     (forall k, count (pr_inflight p) k <= count (pr_inflight p') k)).
Proof.
  intros [(e & -> & -> & ->)|[(-> & -> & Hs & Hr & ->)|(-> & _ & [(-> & -> & _)|(-> & -> & Hs & _)])]]%acquirePass_cases.
  - auto with lia.
  - simpl. split_and!; auto. intros _. split_and!; auto. intros k. rewrite count_bump. case_decide; lia.
  - auto with lia.
  - simpl. split; [lia|]. intros E. lia.
Qed.

(** The caller that just passed and sleeps has its reason from the pass. *)
Lemma pass_waits (w : world) (p0 p : poolRuntime) (id : positive) (member mode : string) (gen : Z) (v : verdict) (started : bool)
    (m md : string) (g : Z) :
  inv w -> pr_inflight p0 = pr_inflight (w_pool w) -> acquirePass p0 member mode gen = (v, started, p) ->
  after_pass v member mode gen p = Waiting m md g (pr_change p) ->
  (forall f, pr_swapErr p !! m = Some f -> sf_gen f < g) /\
  (pr_swapping p = true \/
   (pr_resident p ≠ EmptyString /\ pr_resident p ≠ m /\ 0 < count (pr_inflight p) (pr_resident p))).
Proof.
  intros Hi Hin Hp Ha.
  apply acquirePass_cases in Hp as [(e & -> & -> & ->)|[(-> & -> & Hs & Hr & ->)|(-> & Hf & Hb)]]; try discriminate Ha.
  injection Ha as -> -> ->. destruct Hb as [(-> & -> & [Hb|(Hb1 & Hb2 & Hb3)])|(-> & -> & Hs & _)].
  - auto.
  - split; [done|right]. split_and!; auto. rewrite Hin in *.
    pose proof (slot_bounds (pr_resident p0) (w_callers w)) as Hb. rewrite <- (inv_inflight _ Hi) in Hb. lia.
  - split; [done|]. by left.
Qed.

Lemma waits_step (w w' : world) :
  inv w -> waits_for_something w -> step w w' -> announced w w' -> waits_for_something w'.
Proof.
  intros Hi Hw Hs Ha. destruct Hs as [w id phase now members member mode v started gen p Hid Hne Hp|
    w id member mode gen ch v started p Hid Hch Hp|w id member mode gen ch e Hid He|w id member r deact p Hid Hl|
    w id member Hid|w id s Hid|w id s now o down p Hid Hf|w l1 member l2 Hl|w]; intros id' m md g Hc; simpl in *.
  - unfold acquireEnter in Hp. destruct (reconcileResident_set phase now members (w_pool w)) as (r & t & Hr). rewrite Hr in Hp.
    destruct (acquirePass _ _ _ _) as [[v' started'] p'] eqn:Hpass. injection Hp as <- <- <- <-.
    apply lookup_insert_Some in Hc as [[<- Hc]|[_ Hc]].
    + by eapply pass_waits in Hpass.
    + destruct (pass_change _ _ _ _ _ _ _ Hpass) as [Hle Heq]. simpl in Hle.
      apply (still_waits w p' id' m md g Hi Hw Hc Hle). intros E. destruct (Heq E) as (E1 & E2 & E3 & E4).
      split_and!; auto.
      * destruct Ha as [Ha|Ha]; [done|simpl in Ha; lia].
      * destruct Ha as [Ha|Ha]; [|simpl in Ha; lia]. simpl in Ha. rewrite Ha. intros Hpos.
        specialize (E4 (pr_resident (w_pool w))). simpl in E4. lia.
  - apply lookup_insert_Some in Hc as [[<- Hc]|[_ Hc]].
    + by eapply pass_waits in Hp.
    + destruct (pass_change _ _ _ _ _ _ _ Hp) as [Hle Heq].
      apply (still_waits w p id' m md g Hi Hw Hc Hle). intros E. destruct (Heq E) as (E1 & E2 & E3 & E4).
      split_and!; auto. rewrite E3. intros Hpos. specialize (E4 (pr_resident (w_pool w))). lia.
  - apply lookup_insert_Some in Hc as [[_ Hc]|[_ Hc]]; [done|]. by apply (Hw id' m md g).
  - injection Hl as <- <-. simpl in *. apply (Hw id' m md g). destruct r.
    + by apply lookup_delete_Some in Hc as [_ Hc].
    + by apply lookup_insert_Some in Hc as [[_ Hc]|[_ Hc]].
  - rewrite (releaseSlot_eq _ _ _ Hi Hid) in *. cbv zeta in *. apply lookup_delete_Some in Hc as [_ Hc].
    eapply still_waits; eauto; [case_if; simpl; lia|]. case_if; simpl; [lia|]. to_prop. intros _. split_and!; auto.
    rewrite count_bump. case_decide as E; [|lia]. subst member.
    pose proof (count_waiting_pos w id (pr_resident (w_pool w)) _ Hi Hid) as Hpos. simpl in Hpos.
    rewrite decide_True in Hpos by done. specialize (Hpos eq_refl). lia.
  - by apply (Hw id' m md g).
  - destruct (inv_swap_done w id s now o down p [] [] Hi Hid Hf) as (_ & Hch & _).
    pose proof (inv_channel _ Hi _ _ _ _ _ Hc). lia.
  - by apply (Hw id' m md g).
  - unfold InvalidateResident in *. destruct (pr_swapping (w_pool w)) eqn:E; [by apply (Hw id' m md g)|].
    simpl in *. destruct (Hw id' m md g Hc) as [H1 [H2|H2]]; [congruence|]. auto.
Qed.

(** While a swap runs its incumbent holds no request. *)
Definition drained (w : world) : Prop :=
  pr_swapping (w_pool w) = true ->
  pr_resident (w_pool w) = EmptyString \/ count (pr_inflight (w_pool w)) (pr_resident (w_pool w)) = 0.

Lemma drained_pass (p p' : poolRuntime) (member mode : string) (gen : Z) (v : verdict) (started : bool) :
  (pr_swapping p = true -> pr_resident p = EmptyString \/ count (pr_inflight p) (pr_resident p) = 0) ->
  acquirePass p member mode gen = (v, started, p') ->
  pr_swapping p' = true -> pr_resident p' = EmptyString \/ count (pr_inflight p') (pr_resident p') = 0.
Proof.
  intros Hd [(e & -> & -> & ->)|[(-> & -> & Hs & Hr & ->)|(-> & _ & [(-> & -> & _)|(-> & -> & Hs & Hi)])]]%acquirePass_cases; auto.
  simpl. congruence.
Qed.

Lemma drained_step (w w' : world) : inv w -> drained w -> step w w' -> drained w'.
Proof.
  intros Hi Hd Hs. destruct Hs as [w id phase now members member mode v started gen p Hid Hne Hp|
    w id member mode gen ch v started p Hid Hch Hp|w id member mode gen ch e Hid He|w id member r deact p Hid Hl|
    w id member Hid|w id s Hid|w id s now o down p Hid Hf|w l1 member l2 Hl|w]; unfold drained in *; simpl in *; auto.
  - unfold acquireEnter in Hp. destruct (acquirePass _ _ _ _) as [[v' started'] p'] eqn:Hpass. injection Hp as <- <- <- <-.
    eapply drained_pass; [|exact Hpass]. simpl. unfold reconcileResident. destruct (pr_swapping (w_pool w)) eqn:E; [by rewrite E|].
    intros Hsw. exfalso. revert Hsw. repeat case_if; simpl; try congruence. destruct (phase _); [case_if|]; simpl; congruence.
  - by eapply drained_pass.
  - by injection Hl as <- <-.
  - rewrite (releaseSlot_eq _ _ _ Hi Hid). cbv zeta.
    assert (forall p', pr_swapping p' = pr_swapping (w_pool w) -> pr_resident p' = pr_resident (w_pool w) ->
      pr_inflight p' = bump (pr_inflight (w_pool w)) member (-1) ->
      pr_swapping p' = true -> pr_resident p' = EmptyString \/ count (pr_inflight p') (pr_resident p') = 0) as H.
    { intros p' -> -> -> Hsw. destruct (Hd Hsw) as [?|Hz]; [by left|]. right. rewrite count_bump.
      case_decide as E; [|lia]. subst member. exfalso.
      pose proof (count_waiting_pos w id (pr_resident (w_pool w)) _ Hi Hid) as Hpos. simpl in Hpos.
      rewrite decide_True in Hpos by done. specialize (Hpos eq_refl). lia. }
    case_if; by apply H.
  - destruct (inv_swap_done w id s now o down p [] [] Hi Hid Hf) as (_ & _ & Hsw). congruence.
  - unfold InvalidateResident. destruct (pr_swapping (w_pool w)) eqn:E; [by rewrite E|]. simpl. congruence.
Qed.

Lemma drained_reachable (w : world) : rtc step w_init w -> drained w.
Proof.
  intros H. assert (inv w_init /\ drained w_init) as Hi by (split; [apply inv_init|done]).
  induction H as [|x y z Hs _ IH]; [apply Hi|]. destruct Hi as [Hi Hd]. apply IH. split; [by apply (inv_step x)|by apply (drained_step x)].
Qed.

Lemma no_slot (w : world) (id : positive) (m : string) (c : caller) :
  inv w -> count (pr_inflight (w_pool w)) m = 0 -> w_callers w !! id = Some c -> slot m id c = 0.
Proof.
  intros Hi Hz Hc. destruct (decide (slot m id c = 1)) as [E|E].
  - pose proof (count_waiting_pos w id m c Hi Hc E). lia.
  - unfold slot in *. destruct c as [|m' [e|]|m']; try done; case_decide; done.
Qed.

(** ** Properties *)

(** C35: swaps of a pool are serialized.  In every reachable state there is at most
    one swap goroutine, one runs exactly while the pool's swapping flag is set, and
    it owns the current generation and target: no swap is ever superseded by
    another, so its outcome is always the one published. *)
Theorem swaps_serialized (w : world) :
  rtc step w_init w ->
  (forall id id' s s', w_swaps w !! id = Some s -> w_swaps w !! id' = Some s' -> id = id') /\
  (pr_swapping (w_pool w) = true <-> exists id s, w_swaps w !! id = Some s) /\
  (forall id s, w_swaps w !! id = Some s ->
     sw_gen s = pr_swapGen (w_pool w) /\ sw_target s = pr_swapTarget (w_pool w)).
Proof.
  intros [H1 H2 H3 _ _ _ _]%inv_reachable. split_and!; auto.
  - split; [auto|]. intros (id & s & Hs). by apply (H1 id s).
  - intros id s Hs. by apply (H1 id s).
Qed.

(** A caller for [b] starts a swap in a cold pool. *)
Definition cold_phase (m : string) : option string := Some "Pending".

Definition sample_swap_world : world :=
  let '(v, started, gen, p) := acquireEnter cold_phase second ["a"; "b"] "b" PoolActivationWait newPool in
  {| w_pool := p; w_callers := <[1%positive := after_pass v "b" PoolActivationWait gen p]> ∅;
     w_swaps := spawn started "b" p ∅; w_deactivations := []; w_log := [] |}.

Lemma sample_swap_reachable : rtc step w_init sample_swap_world.
Proof.
  eapply rtc_l; [|apply rtc_refl].
  exact (step_enter w_init 1%positive cold_phase second ["a"; "b"] "b" PoolActivationWait _ _ _ _ eq_refl ltac:(discriminate) eq_refl).
Defined.

Lemma swaps_serialized_witness :
  pr_swapping (w_pool sample_swap_world) = true /\
  exists id s, w_swaps sample_swap_world !! id = Some s /\ sw_target s = "b".
Proof.
  split; [reflexivity|].
  destruct (swaps_serialized sample_swap_world sample_swap_reachable) as (_ & Hiff & Hown).
  destruct (proj1 Hiff eq_refl) as (id & s & Hs). exists id, s. split; [exact Hs|].
  rewrite (proj2 (Hown id s Hs)). reflexivity.
Defined.

(** The counters are exact.  In every reachable state the in-flight count of a
    member is the number of callers that hold a slot of it (from the grant to the
    release) and the waiting count the number of callers registered for it (from
    their registration to their deferred function); neither is ever negative. *)
Lemma slot_counts_exact (w : world) (m : string) :
  rtc step w_init w ->
  count (pr_inflight (w_pool w)) m = msum (slot m) (w_callers w) /\
  count (pr_waiting (w_pool w)) m = msum (registered m) (w_callers w) /\
  0 <= count (pr_inflight (w_pool w)) m /\ 0 <= count (pr_waiting (w_pool w)) m.
Proof.
  intros Hi%inv_reachable. rewrite (inv_inflight _ Hi), (inv_waiting _ Hi). split_and!; auto; [apply slot_bounds|].
  apply (msum_bounds (registered m)). intros id c _. unfold registered. destruct c; try lia; case_decide; lia.
Qed.

(** C9: drain before swap.  Whenever a swap is running, the member that owned the
    slot when it started (still recorded as resident) has no in-flight request and
    no caller holds a slot of it: a busy incumbent is never preempted and no request
    is admitted to it while it is being torn down. *)
Theorem incumbent_drained (w : world) :
  rtc step w_init w -> pr_swapping (w_pool w) = true -> pr_resident (w_pool w) ≠ EmptyString ->
  count (pr_inflight (w_pool w)) (pr_resident (w_pool w)) = 0 /\
  forall id c, w_callers w !! id = Some c -> slot (pr_resident (w_pool w)) id c = 0.
Proof.
  intros Hr Hs Hne. destruct (drained_reachable w Hr Hs) as [?|Hz]; [done|]. split; [done|].
  intros id c Hc. eapply no_slot; eauto. by apply inv_reachable.
Qed.

(** [a] is adopted as resident without a request, then [b] takes the slot. *)
Definition warm_phase (m : string) : option string := Some (if String.eqb m "a" then "Ready" else "Pending").

Definition sample_warm_world : world :=
  let '(v, started, gen, p) := acquireEnter warm_phase second ["a"; "b"] "b" PoolActivationWait newPool in
  {| w_pool := p; w_callers := <[1%positive := after_pass v "b" PoolActivationWait gen p]> ∅;
     w_swaps := spawn started "b" p ∅; w_deactivations := []; w_log := [] |}.

Lemma incumbent_drained_witness :
  pr_resident (w_pool sample_warm_world) = "a" /\ count (pr_inflight (w_pool sample_warm_world)) "a" = 0.
Proof.
  split; [reflexivity|].
  apply (incumbent_drained sample_warm_world).
  - eapply rtc_l; [|apply rtc_refl].
    exact (step_enter w_init 1%positive warm_phase second ["a"; "b"] "b" PoolActivationWait _ _ _ _ eq_refl ltac:(discriminate) eq_refl).
  - reflexivity.
  - discriminate.
Defined.

(** C36: no lost wake-up while residency changes are announced.  If every change of
    the resident belief so far came with a notification, each sleeping waiter has a
    running swap or a busy incumbent to wait for (both end with a notification) and
    has missed no failure addressed to it. *)
Theorem no_lost_wakeup (w : world) :
  rtc (fun w w' => step w w' /\ announced w w') w_init w -> waits_for_something w.
Proof.
  intros H. assert (inv w_init /\ waits_for_something w_init) as Hi.
  { split; [apply inv_init|]. intros id m md g Hc. simpl in Hc. by rewrite lookup_empty in Hc. }
  induction H as [|x y z [Hs Ha] _ IH]; [apply Hi|]. destruct Hi as [Hi Hw]. apply IH.
  split; [by apply (inv_step x)|by apply (waits_step x)].
Qed.

Lemma no_lost_wakeup_witness : waits_for_something sample_swap_world.
Proof.
  apply (no_lost_wakeup sample_swap_world). eapply rtc_l; [|apply rtc_refl]. split.
  - exact (step_enter w_init 1%positive cold_phase second ["a"; "b"] "b" PoolActivationWait _ _ _ _ eq_refl ltac:(discriminate) eq_refl).
  - left. reflexivity.
Defined.

(** The states of a lost wake-up: [a] serves a request, a request for [b] waits
    for it, and after the resync interval a second request for [b] finds [b] Ready
    and adopts it. *)
Definition after_enter (w : world) (id : positive) (phase : string -> option string) (now : Z) (member : string) : world :=
  let '(v, started, gen, p) := acquireEnter phase now ["a"; "b"] member PoolActivationWait (w_pool w) in
  {| w_pool := p; w_callers := <[id := after_pass v member PoolActivationWait gen p]> (w_callers w);
     w_swaps := spawn started member p (w_swaps w); w_deactivations := w_deactivations w; w_log := w_log w |}.

Definition fallback_phase (m : string) : option string := Some (if String.eqb m "b" then "Ready" else "Pending").

Definition lost_world : world :=
  after_enter (after_enter (after_enter w_init 1 warm_phase second "a") 2 warm_phase (2 * second) "b")
    3 fallback_phase (10 * second) "b".

(** A residency change found by the periodic re-check wakes nobody.  A state is
    reachable in which a caller sleeps waiting for a member that is resident with
    no swap running: it would be served at once if it ran, but [reconcileResident]
    changed the belief without a notification. *)
Lemma lost_wakeup_reachable :
  rtc step w_init lost_world /\
  pr_swapping (w_pool lost_world) = false /\ pr_resident (w_pool lost_world) = "b" /\
  exists gen, w_callers lost_world !! 2%positive = Some (Waiting "b" PoolActivationWait gen (pr_change (w_pool lost_world))).
Proof.
  split; [|split; [reflexivity|split; [reflexivity|eexists; reflexivity]]].
  assert (Hstep : forall w id phase now member, w_callers w !! id = None -> member ≠ EmptyString ->
    step w (after_enter w id phase now member)).
  { intros w id phase now member Hid Hne. unfold after_enter.
    destruct (acquireEnter phase now ["a"; "b"] member PoolActivationWait (w_pool w)) as [[[v st] g] p] eqn:E.
    by eapply step_enter. }
  unfold lost_world.
  eapply rtc_l; [apply (Hstep w_init 1%positive warm_phase second "a"); [reflexivity|discriminate]|].
  eapply rtc_l; [apply (Hstep _ 2%positive warm_phase (2 * second) "b"); [reflexivity|discriminate]|].
  eapply rtc_l; [apply (Hstep _ 3%positive fallback_phase (10 * second) "b"); [reflexivity|discriminate]|].
  apply rtc_refl.
Qed.
