(* ===== verification/Usage.v ===== *)
(** * Token usage (internal/router/usage.go, and the capture buffer of proxy.go)

    Reading the token counts an upstream reports, from a JSON body or from the
    [data:] lines of an event stream, pricing them, and the bounded buffer that
    keeps the tail of a streamed body for it. *)

From stdpp Require Import base gmap strings list.
From Stdlib Require Import ZArith Lia Bool.
From S2P Require Import Prelude GoStrings GoFloat GoJson RouterConfig.

(** ** Data *)

(** The usage object of an OpenAI-compatible response. *)
Record usage := {
  ug_prompt : option Z;
  ug_completion : option Z;
  ug_total : option Z;
}.

(** [usageEnvelope]: the usage object, when present. *)
Definition usageEnvelope : Type := option usage.

Record anthropicUsage := {
  an_input : option Z;
  an_output : option Z;
  an_cacheRead : option Z;
  an_cacheCreation : option Z;
}.

(** An event of an Anthropic stream: its own usage, and its message's. *)
Record anthropicEvent := {
  ae_usage : option anthropicUsage;
  ae_message : option (option anthropicUsage);
}.

(** ** Counts *)

Definition clamp0 (z : Z) : Z := if z <? 0 then 0 else z.

(** [usageCounts]: the prompt and completion tokens, [None] when no field was
    present. *)
Definition usageCounts (p c t : option Z) : option (Z * Z) :=
  match p, c, t with
  | None, None, None => None
  | None, None, Some total => Some (0, clamp0 total)
  | _, _, _ => Some (clamp0 (default 0 p), clamp0 (default 0 c))
  end.

Definition addPositive (acc : Z) (p : option Z) : Z :=
  match p with Some n => if 0 <? n then (acc +64 n)%go else acc | None => acc end.

(** [anthropicUsage.counts], on a possibly nil receiver. *)
Definition anthropicCounts (u : option anthropicUsage) : option (Z * Z) :=
  match u with
  | None => None
  | Some u =>
      match an_input u, an_output u with
      | None, None => None
      | _, _ =>
          Some (foldl addPositive 0 [an_input u; an_cacheRead u; an_cacheCreation u],
                match an_output u with Some n => if 0 <? n then n else 0 | None => 0 end)
      end
  end.

Definition float_1e6 : float64 := float_of_int 1000000.

Definition CostUSD (prompt completion : Z) (cost : option TokenCost) : float64 :=
  match cost with
  | None => fzero
  | Some c => fadd (fmul (fdiv (float_of_int prompt) float_1e6) (tc_PromptUSD c))
                   (fmul (fdiv (float_of_int completion) float_1e6) (tc_CompletionUSD c))
  end.

(** ** Event streams *)

Definition newline : Ascii.ascii := Ascii.ascii_of_nat 10.

(** The payload of a [data:] line. *)
Definition dataPayload (line : string) : option string := TrimSpace <$> CutPrefix (TrimSpace line) "data:".

(** ** Decoding *)

(** A decoder of one field of a record, from its decoder and the record's getter and
    update. *)
Definition on_field {A B} (d : decoder B) (get : A -> B) (put : A -> B -> A) : decoder A :=
  fun v a => put a <$> d v (get a).

Definition int64_ptr : decoder (option Z) := dec_ptr 0 dec_int64.

Definition zero_usage : usage := {| ug_prompt := None; ug_completion := None; ug_total := None |}.

Definition dec_usage : decoder usage := dec_struct
  [("prompt_tokens", on_field int64_ptr ug_prompt
      (fun u p => {| ug_prompt := p; ug_completion := ug_completion u; ug_total := ug_total u |}));
   ("completion_tokens", on_field int64_ptr ug_completion
      (fun u c => {| ug_prompt := ug_prompt u; ug_completion := c; ug_total := ug_total u |}));
   ("total_tokens", on_field int64_ptr ug_total
      (fun u t => {| ug_prompt := ug_prompt u; ug_completion := ug_completion u; ug_total := t |}))].

(** [json.Unmarshal] into a [usageEnvelope]. *)
Definition decodeUsage (s : string) : option usageEnvelope :=
  unmarshal (dec_struct [("usage", dec_ptr zero_usage dec_usage)]) None s.

Definition zero_anthropic : anthropicUsage :=
  {| an_input := None; an_output := None; an_cacheRead := None; an_cacheCreation := None |}.

Definition dec_anthropic : decoder anthropicUsage := dec_struct
  [("input_tokens", on_field int64_ptr an_input
      (fun u x => {| an_input := x; an_output := an_output u; an_cacheRead := an_cacheRead u; an_cacheCreation := an_cacheCreation u |}));
   ("output_tokens", on_field int64_ptr an_output
      (fun u x => {| an_input := an_input u; an_output := x; an_cacheRead := an_cacheRead u; an_cacheCreation := an_cacheCreation u |}));
   ("cache_read_input_tokens", on_field int64_ptr an_cacheRead
      (fun u x => {| an_input := an_input u; an_output := an_output u; an_cacheRead := x; an_cacheCreation := an_cacheCreation u |}));
   ("cache_creation_input_tokens", on_field int64_ptr an_cacheCreation
      (fun u x => {| an_input := an_input u; an_output := an_output u; an_cacheRead := an_cacheRead u; an_cacheCreation := x |}))].

Definition dec_anthropic_body : decoder (option anthropicUsage) :=
  dec_struct [("usage", dec_ptr zero_anthropic dec_anthropic)].

Definition decodeAnthropicBody (s : string) : option (option anthropicUsage) := unmarshal dec_anthropic_body None s.

Definition decodeAnthropicEvent (s : string) : option anthropicEvent :=
  unmarshal (dec_struct
    [("usage", on_field (dec_ptr zero_anthropic dec_anthropic) ae_usage (fun e u => {| ae_usage := u; ae_message := ae_message e |}));
     ("message", on_field (dec_ptr None dec_anthropic_body) ae_message (fun e m => {| ae_usage := ae_usage e; ae_message := m |}))])
    {| ae_usage := None; ae_message := None |} s.

(** ** The counts of a body *)

Definition countsOf (env : option usageEnvelope) : option (Z * Z) :=
  match env with
  | Some (Some u) => usageCounts (ug_prompt u) (ug_completion u) (ug_total u)
  | _ => None
  end.

Definition UsageTokens (body : string) : option (Z * Z) :=
  if is_empty body then None else countsOf (decodeUsage body).

(** One line of the scan of [UsageTokensFromSSE]. *)
Definition sseStep (acc : option (Z * Z)) (line : string) : option (Z * Z) :=
  match dataPayload line with
  | None => acc
  | Some payload =>
      if is_empty payload || bool_decide (payload = "[DONE]") then acc
      else match countsOf (decodeUsage payload) with Some pc => Some pc | None => acc end
  end.

Definition UsageTokensFromSSE (body : string) : option (Z * Z) := foldl sseStep None (SplitByte body newline).

Definition AnthropicUsageTokens (body : string) : option (Z * Z) :=
  match decodeAnthropicBody body with None => None | Some u => anthropicCounts u end.

(** Keep the larger count of each side. *)
Definition maxCounts (acc : option (Z * Z)) (u : option anthropicUsage) : option (Z * Z) :=
  match anthropicCounts u with
  | None => acc
  | Some (p, c) => let '(p0, c0) := default (0, 0) acc in Some (Z.max p0 p, Z.max c0 c)
  end.

Definition anthropicStep (acc : option (Z * Z)) (line : string) : option (Z * Z) :=
  match dataPayload line with
  | None => acc
  | Some payload =>
      match decodeAnthropicEvent payload with
      | None => acc
      | Some e => foldl maxCounts acc (ae_usage e :: match ae_message e with Some u => [u] | None => [] end)
      end
  end.

Definition AnthropicUsageTokensFromSSE (body : string) : option (Z * Z) :=
  foldl anthropicStep None (SplitByte body newline).

Definition looksLikeSSE (body : string) : bool :=
  existsb (fun line => HasPrefix (TrimSpace line) "data:") (SplitByte body newline).

Definition parseUsageFor (anthropic : bool) (body : string) (streamed : bool) : option (Z * Z) :=
  if is_empty body then None
  else if anthropic then
    if streamed || looksLikeSSE body then AnthropicUsageTokensFromSSE body else AnthropicUsageTokens body
  else if streamed || looksLikeSSE body then UsageTokensFromSSE body else UsageTokens body.

(** ** The capture buffer *)

Definition maxUsageCaptureBytes : Z := Z.shiftl 4 20.

(** [capturedBody.Read]: append a chunk and keep the last [limit] bytes. *)
Definition capture (limit : Z) (buf chunk : list Ascii.ascii) : list Ascii.ascii :=
  match chunk with
  | [] => buf
  | _ => let buf := buf ++ chunk in
         if limit <? Z.of_nat (length buf) then drop (Z.to_nat (Z.of_nat (length buf) - limit)) buf else buf
  end.

(** What the buffer holds after a body read in one chunk. *)
Definition capturedTail (body : string) : string :=
  String.string_of_list_ascii (capture maxUsageCaptureBytes [] (String.list_ascii_of_string body)).

(** ** Lemmas *)

Lemma clamp0_nonneg (z : Z) : 0 <= clamp0 z.
Proof. unfold clamp0. case_if; to_prop; lia. Qed.

Lemma usageCounts_nonneg (p c t : option Z) (x y : Z) : usageCounts p c t = Some (x, y) -> 0 <= x /\ 0 <= y.
Proof.
  unfold usageCounts. destruct p, c, t; intros [= <- <-]; simpl; split; auto using clamp0_nonneg; lia.
Qed.

(** The last [limit] bytes. *)
Definition tail_bytes (limit : Z) (l : list Ascii.ascii) : list Ascii.ascii :=
  drop (Z.to_nat (Z.of_nat (length l) - limit)) l.

Lemma capture_tail (limit : Z) (all chunk : list Ascii.ascii) :
  0 <= limit -> capture limit (tail_bytes limit all) chunk = tail_bytes limit (all ++ chunk).
Proof.
  intros Hl. unfold capture. destruct chunk as [|x chunk]; [by rewrite app_nil_r|].
  generalize (x :: chunk) as ch. intros ch. unfold tail_bytes. rewrite !length_app, length_drop.
  set (n := Z.to_nat (Z.of_nat (length all) - limit)).
  assert (n <= length all)%nat as Hn by lia.
  rewrite <- (drop_app_le all ch n) by done. rewrite drop_drop.
  destruct (limit <? _) eqn:E; to_prop; f_equal; lia.
Qed.

Lemma capture_run (limit : Z) (chunks : list (list Ascii.ascii)) (all : list Ascii.ascii) :
  0 <= limit -> foldl (capture limit) (tail_bytes limit all) chunks = tail_bytes limit (all ++ concat chunks).
Proof.
  intros Hl. revert all; induction chunks as [|ch chunks IH]; intros all; simpl; [by rewrite app_nil_r|].
  rewrite capture_tail, IH, <- app_assoc by done. done.
Qed.

(** ** Properties *)

(** The capture buffer is the tail of the stream.  However the body is split
    into reads, the buffer holds exactly its last [limit] bytes, never more: the
    usage chunk at the end of an event stream is always in it. *)
Lemma capture_keeps_tail (limit : Z) (chunks : list (list Ascii.ascii)) :
  0 <= limit ->
  foldl (capture limit) [] chunks = tail_bytes limit (concat chunks) /\
  Z.of_nat (length (foldl (capture limit) [] chunks)) <= limit.
Proof.
  intros Hl. assert (foldl (capture limit) [] chunks = tail_bytes limit (concat chunks)) as E.
  { pose proof (capture_run limit chunks [] Hl) as R. unfold tail_bytes at 1 in R. by rewrite drop_nil in R. }
  split; [done|]. rewrite E. unfold tail_bytes. rewrite length_drop. lia.
Qed.

(** The last usage wins in an event stream.  [UsageTokensFromSSE] returns the
    counts of the last [data:] line whose payload carries a usable usage object,
    and nothing when no line does. *)
Lemma UsageTokensFromSSE_last (body : string) :
  let usable line := match dataPayload line with
                     | Some payload => if is_empty payload || bool_decide (payload = "[DONE]") then None
                                       else countsOf (decodeUsage payload)
                     | None => None
                     end in
  UsageTokensFromSSE body = last (omap usable (SplitByte body newline)).
Proof.
  intros usable. unfold UsageTokensFromSSE.
  assert (forall ls acc, foldl sseStep acc ls =
    match last (omap usable ls) with Some pc => Some pc | None => acc end) as H.
  { induction ls as [|l ls IH]; intros acc; [done|]. cbn [foldl omap list_omap]. rewrite IH.
    assert (sseStep acc l = match usable l with Some pc => Some pc | None => acc end) as ->.
    { unfold sseStep, usable. destruct (dataPayload l); [|done]. case_if; [done|]. done. }
    destruct (usable l) as [pc|]; [|done]. rewrite last_cons.
    change (list_omap _ _ usable ls) with (omap usable ls). by destruct (last (omap usable ls)). }
  rewrite H. by destruct (last _).
Qed.
