(* ===== verification/Proxy.v ===== *)
(** * The proxy (internal/router/proxy.go)

    One request from its headers and decoded body to the reply: feature
    extraction, the match, the fail-closed gate, budget admission, dispatch with
    fallback over the matched backends, the mapping of failures to statuses, and
    the charge.  The dispatcher is reached through the interface [Dispatching]
    that states what it promises; the clock, the upstream and the activator's answers
    are arguments.  A run-time panic unwinds the handler: it is an outcome of its
    own, with the pool slot it leaves behind. *)

From stdpp Require Import base gmap strings list.
From Stdlib Require Import ZArith Lia Bool.
From S2P Require Import Prelude GoStrings GoFloat GoHttp GoJson GoJsonFacts GoJsonText RouterConfig RouterMatch RouterBudget BodyRewrite.
From S2P Require Import Picker Sessions Dispatcher DispatchLoad DispatchHealth Activator Usage.

(** ** The dispatcher's interface *)

(** What happens around one attempt: the clock, the upstream's answers, whether the
    header deadline fired, and what the activator answered ([None] is a slot). *)
Record attempt_env := {
  ae_now : Z;
  ae_later : Z;
  ae_net : nat -> UpstreamRequest -> exchange;
  ae_headerTimedOut : bool;
  ae_acquire : option acquire_error;
}.

(** A dispatcher says which backends to consider, forwards a request to one of
    them, and gives a response's counts back; it promises to send requests only to
    the addresses of the backend it was given, and to panic on no body but [null]. *)
Class Dispatching (D : Type) := {
  dp_IsHealthy : D -> Z -> string -> bool;
  dp_Dispatch : D -> attempt_env -> Backend -> string -> Header -> string ->
                result dispatch_error Response * list UpstreamRequest * D;
  dp_Close : D -> Response -> D;
  dp_addresses : D -> Backend -> list string;
  dp_sends_to_backend : forall d env b path h body,
    Forall (fun req => exists a, a ∈ dp_addresses d b /\ ur_url req = joinURL a path)
           (dp_Dispatch d env b path h body).1.2;
  dp_panics_on_null : forall d env b path h body,
    (dp_Dispatch d env b path h body).1.1 = Err EPanic -> parse body = Some JNull;
}.

(** ** Data *)

(** Why an attempt on a backend gave no response. *)
Inductive attempt_error :=
| ENotConfigured (name : string)
| EUnhealthy (name : string)
| EAcquire (e : acquire_error)
| EDispatch (e : dispatch_error)
| EHeaderTimeout (name : string)
| EServerError (name : string) (status : Z).

(** [Unwound] is a panic that unwound the handler. *)
Inductive dispatch_failure :=
| Unwound
| NoBackendsAttempted
| IncumbentBusy
| LastError (e : attempt_error).

(** The pool-slot events of a dispatch, by attempt. *)
Inductive slot_event :=
| Acquired (i : nat)
| Released (i : nat)
| Invalidated (i : nat).

(** A request sent upstream, with the dispatcher state it was sent from. *)
Record contact (D : Type) := {
  ct_state : D;
  ct_backend : Backend;
  ct_request : UpstreamRequest;
}.
Arguments ct_state {D} _.
Arguments ct_backend {D} _.
Arguments ct_request {D} _.
Arguments Build_contact {D} _ _ _.

(** A response that was chosen, with the attempt that holds its pool slot. *)
Record chosen := {
  ch_backend : Backend;
  ch_attempt : nat;
  ch_pooled : bool;
  ch_response : Response;
}.

Inductive attempt_outcome :=
| Failed (e : attempt_error)
| Served (c : chosen)
| Panicked.

(** ** Timeouts *)

Definition resolveDispatchTimeout (dec : MatchResult) (b : option Backend) (proxyDefault : Z) : Z :=
  match mr_Rule dec with
  | Some r => if 0 <? ru_Timeout r then ru_Timeout r
              else match b with Some b => if 0 <? be_Timeout b then be_Timeout b else proxyDefault | None => proxyDefault end
  | None => match b with Some b => if 0 <? be_Timeout b then be_Timeout b else proxyDefault | None => proxyDefault end
  end.

Definition resolveSwapBudget (pool : option BackendPool) (proxyDefault : Z) : Z :=
  match pool with
  | Some p => if 0 <? bp_SwapBudget p then bp_SwapBudget p else proxyDefault
  | None => proxyDefault
  end.

(** ** Request features *)

Definition lowerHeaders (h : Header) : gmap string string :=
  foldl (fun m kv => match kv.2 with v :: _ => <[ToLower kv.1 := v]> m | [] => m end) ∅ (map_to_list h).

(** The model and the stream flag of a body. *)
Definition dec_partial : decoder (string * bool) := dec_struct
  [("model", on_field dec_string fst (fun p m => (m, p.2)));
   ("stream", on_field dec_bool snd (fun p st => (p.1, st)))].

(** [extractFeatures]: [None] when the body does not parse. *)
Definition extractFeatures (body : string) (h : Header) (classHeader : string)
    : option (RequestFeatures * bool) :=
  match unmarshal dec_partial (EmptyString, false) body with
  | None => None
  | Some (model, stream) =>
      let headers := lowerHeaders h in
      Some ({| rf_Model := model;
               rf_Classification := ToLower (default EmptyString (headers !! ToLower classHeader));
               rf_TaskComplexity := ToLower (default EmptyString (headers !! "x-llmkube-task-complexity"));
               rf_Headers := headers |}, stream)
  end.

Inductive gate_error :=
| GateNotConfigured (name : string)
| GateTier (class tier name : string).

Fixpoint checkLocal (m : Matcher) (class : string) (names : list string) : result gate_error unit :=
  match names with
  | [] => Ok tt
  | name :: names' =>
      match Matcher_BackendByName m name with
      | None => Err (GateNotConfigured name)
      | Some b => if bool_decide (be_Tier b = "local") then checkLocal m class names'
                  else Err (GateTier class (be_Tier b) name)
      end
  end.

Definition enforceFailClosed (cfg : Config) (m : Matcher) (f : RequestFeatures) (dec : MatchResult) : result gate_error unit :=
  if negb (mr_FailClosed dec) then Ok tt
  else if negb (bool_decide (rf_Classification f ∈ SensitiveSet cfg)) then Ok tt
  else checkLocal m (rf_Classification f) (mr_Backends dec).

(** ** Dispatch with fallback *)

Section Proxy.
Context {D : Type} `{Dispatching D}.

(** The outcome of the loop: a chosen response or a failure, what was sent, and the
    pool-slot events in order. *)
Record loop_result := {
  lr_result : dispatch_failure + chosen;
  lr_contacts : list (contact D);
  lr_slots : list slot_event;
  lr_state : D;
}.

Definition fail_all (lastErr : option attempt_error) (allBusy : bool) (d : D) : loop_result :=
  {| lr_result := inl match lastErr with
                      | None => NoBackendsAttempted
                      | Some e => if allBusy then IncumbentBusy else LastError e
                      end;
     lr_contacts := []; lr_slots := []; lr_state := d |}.

(** Prepend what an attempt sent and did to the rest of the loop. *)
Definition after_attempt (cs : list (contact D)) (evs : list slot_event) (r : loop_result) : loop_result :=
  {| lr_result := lr_result r; lr_contacts := cs ++ lr_contacts r; lr_slots := evs ++ lr_slots r; lr_state := lr_state r |}.

(** One iteration of [dispatchWithFallback]: the attempt [i] on the backend [name],
    with what it sent and its pool-slot events. *)
Definition attempt (m : Matcher) (activator : bool) (env : nat -> attempt_env) (path : string) (headers : Header)
    (body : string) (i : nat) (name : string) (d : D) : attempt_outcome * list (contact D) * list slot_event * D :=
  match Matcher_BackendByName m name with
  | None => (Failed (ENotConfigured name), [], [], d)
  | Some b =>
      if negb (dp_IsHealthy d (ae_now (env i)) name) then (Failed (EUnhealthy name), [], [], d)
      else
        let pooled := activator && match be_Pool b with Some _ => true | None => false end in
        match (if pooled then ae_acquire (env i) else None) with
        | Some e => (Failed (EAcquire e), [], [], d)
        | None =>
            let '(r, sent, d') := dp_Dispatch d (env i) b path headers body in
            let cs := map (Build_contact d b) sent in
            let dropped := if pooled then [Acquired i; Invalidated i; Released i] else [] in
            match r with
            | Err EPanic => (Panicked, cs, if pooled then [Acquired i] else [], d')
            | Err e => (Failed (if ae_headerTimedOut (env i) then EHeaderTimeout name else EDispatch e), cs, dropped, d')
            | Ok resp =>
                let status := up_status (re_upstream resp) in
                if ae_headerTimedOut (env i) then (Failed (EHeaderTimeout name), cs, dropped, dp_Close d' resp)
                else if 500 <=? status then
                  (Failed (EServerError name status), cs, if pooled then [Acquired i; Released i] else [], dp_Close d' resp)
                else (Served {| ch_backend := b; ch_attempt := i; ch_pooled := pooled; ch_response := resp |}, cs,
                      if pooled then [Acquired i] else [], d')
            end
        end
  end.

(** An attempt skipped because its pool's incumbent was busy. *)
Definition skipped_busy (e : attempt_error) : bool :=
  match e with EAcquire ErrIncumbentBusy => true | _ => false end.

(** The loop of [dispatchWithFallback] from attempt [i] on. *)
Fixpoint fallbackLoop (m : Matcher) (activator : bool) (env : nat -> attempt_env)
    (path : string) (headers : Header) (body : string)
    (i : nat) (names : list string) (lastErr : option attempt_error) (allBusy : bool) (d : D) : loop_result :=
  match names with
  | [] => fail_all lastErr allBusy d
  | name :: names' =>
      let '(r, cs, evs, d) := attempt m activator env path headers body i name d in
      match r with
      | Served c => {| lr_result := inr c; lr_contacts := cs; lr_slots := evs; lr_state := d |}
      | Panicked => {| lr_result := inl Unwound; lr_contacts := cs; lr_slots := evs; lr_state := d |}
      | Failed e => after_attempt cs evs
                   (fallbackLoop m activator env path headers body (S i) names' (Some e) (allBusy && skipped_busy e) d)
      end
  end.

Definition dispatchWithFallback (m : Matcher) (dec : MatchResult) (activator : bool) (env : nat -> attempt_env)
    (path : string) (headers : Header) (body : string) (d : D) : loop_result :=
  fallbackLoop m activator env path headers body 0 (mr_Backends dec) None true d.

End Proxy.
Arguments loop_result D : clear implicits.

(** ** The handler *)

(** No status: the server aborts the connection of a handler that panicked. *)
Definition StatusAborted : Z := 0.
Definition StatusBadRequest : Z := 400.
Definition StatusTooManyRequests : Z := 429.
Definition StatusBadGateway : Z := 502.
Definition StatusServiceUnavailable : Z := 503.
Definition modelPoolRetryAfterSeconds : string := "5".

(** [Duration.Seconds], rounded up to an [int]. *)
Definition seconds_ceil (d : Z) : Z :=
  int64_ceil (fadd (float_of_int (Z.quot d second)) (fdiv (float_of_int (Z.rem d second)) (float_of_int second))).

Definition retryAfterSeconds (retryAfter : Z) : Z :=
  let secs := seconds_ceil retryAfter in if secs <? 1 then 1 else secs.

Definition isAnthropicPath (path : string) : bool :=
  bool_decide (path = "/v1/messages") || HasPrefix path "/v1/messages/".

(** [errors.Is] on the error of a dispatch. *)
Definition is_hold_timeout (e : dispatch_failure) : bool :=
  match e with
  | LastError (EAcquire ErrHoldBudgetExceeded) => true
  | LastError (EAcquire (ErrSwap (ErrSwapDeadlineExceeded _))) => true
  | _ => false
  end.

Definition is_incumbent_busy (e : dispatch_failure) : bool :=
  match e with
  | IncumbentBusy => true
  | LastError (EAcquire ErrIncumbentBusy) => true
  | _ => false
  end.

(** Status, Retry-After and audit reason of a failed dispatch. *)
Definition failure_reply (failClosed : bool) (e : dispatch_failure) : Z * option string * string :=
  if match e with Unwound => true | _ => false end then (StatusAborted, None, EmptyString)
  else if is_hold_timeout e then (StatusServiceUnavailable, Some modelPoolRetryAfterSeconds, "pool_activation_timeout")
  else if is_incumbent_busy e then (StatusServiceUnavailable, Some modelPoolRetryAfterSeconds, "pool_incumbent_busy")
  else if failClosed then (StatusServiceUnavailable, None, "fail_closed_runtime")
  else (StatusBadGateway, None, "all_backends_failed").

(** An inbound request: its headers and its body, [None] when reading it failed or
    it is longer than [maxRequestBodyBytes]. *)
Record inbound := {
  ib_header : Header;
  ib_body : option string;
}.

Record reply (D : Type) := {
  rp_status : Z;
  rp_retryAfter : option string;
  rp_outcome : string;
  rp_backend : option Backend;
  rp_contacts : list (contact D);
  rp_slots : list slot_event;
  rp_charge : option charge_call;
  rp_budgets : BudgetStore;
  rp_disp : D;
}.
Arguments rp_status {D} _.
Arguments rp_retryAfter {D} _.
Arguments rp_outcome {D} _.
Arguments rp_backend {D} _.
Arguments rp_contacts {D} _.
Arguments rp_slots {D} _.
Arguments rp_charge {D} _.
Arguments rp_budgets {D} _.
Arguments rp_disp {D} _.

Section Handler.
Context {D : Type} `{Dispatching D}.

(** The proxy's fixed parts. *)
Context (cfg : Config) (activator : bool) (upstreamPath : string).

Definition reject (status : Z) (retryAfter : option string) (outcome : string) (budgets : BudgetStore) (d : D) : reply D :=
  {| rp_status := status; rp_retryAfter := retryAfter; rp_outcome := outcome; rp_backend := None;
     rp_contacts := []; rp_slots := []; rp_charge := None; rp_budgets := budgets; rp_disp := d |}.

(** The body sent upstream: a budgeted OpenAI stream asks for usage. *)
Definition outboundBody (body : string) (isStream : bool) (scopeKeys : list string) : string :=
  if isStream && negb (is_nil scopeKeys) && negb (isAnthropicPath upstreamPath)
  then default body (InjectStreamUsage body) else body.

(** [streamResponse]'s answer: the request asked for a stream or the upstream sent
    one. *)
Definition streamedResponse (r : UpstreamResponse) (requested : bool) : bool :=
  requested || HasPrefix (header_get (up_header r) "Content-Type") "text/event-stream".

(** The charge of a served request: none when no budget applies or the upstream
    reported no usage. *)
Definition chargeOf (chargeTime : Z) (scopeKeys : list string) (b : Backend) (r : UpstreamResponse) (streamed : bool)
    : option charge_call :=
  if is_nil scopeKeys then None
  else match parseUsageFor (isAnthropicPath upstreamPath) (capturedTail (up_body r)) streamed with
       | Some (prompt, completion) =>
           Some {| cc_time := chargeTime; cc_keys := scopeKeys; cc_tokens := (prompt +64 completion)%go;
                   cc_usd := CostUSD prompt completion (be_CostPerMillionTokens b) |}
       | None => None
       end.

Definition applyCharge (budgets : BudgetStore) (c : option charge_call) : BudgetStore :=
  match c with
  | Some c => Charge budgets (cc_time c) (cc_keys c) (cc_tokens c) (cc_usd c)
  | None => budgets
  end.

(** Dispatch and answer, once admitted. *)
Definition serve (env : nat -> attempt_env) (chargeTime : Z) (dec : MatchResult) (scopeKeys : list string)
    (headers : Header) (body : string) (isStream : bool) (budgets : BudgetStore) (d : D) : reply D :=
  let lr := dispatchWithFallback (NewMatcher cfg) dec activator env upstreamPath headers
              (outboundBody body isStream scopeKeys) d in
  match lr_result lr with
  | inl e =>
      let '(status, ra, outcome) := failure_reply (mr_FailClosed dec) e in
      {| rp_status := status; rp_retryAfter := ra; rp_outcome := outcome; rp_backend := None;
         rp_contacts := lr_contacts lr; rp_slots := lr_slots lr; rp_charge := None; rp_budgets := budgets; rp_disp := lr_state lr |}
  | inr c =>
      let r := re_upstream (ch_response c) in
      let streamed := streamedResponse r isStream in
      let charge := chargeOf chargeTime scopeKeys (ch_backend c) r streamed in
      {| rp_status := up_status r; rp_retryAfter := None; rp_outcome := if streamed then "ok_stream" else "ok";
         rp_backend := Some (ch_backend c); rp_contacts := lr_contacts lr;
         rp_slots := lr_slots lr ++ (if ch_pooled c then [Released (ch_attempt c)] else []);
         rp_charge := charge; rp_budgets := applyCharge budgets charge;
         rp_disp := dp_Close (lr_state lr) (ch_response c) |}
  end.

(** [handleCompletion]: [now] is the clock of the budget admission and
    [chargeTime] that of the charge. *)
Definition handleCompletion (env : nat -> attempt_env) (now chargeTime : Z) (req : inbound)
    (budgets : BudgetStore) (d : D) : reply D :=
  match ib_body req with
  | None => reject StatusBadRequest None EmptyString budgets d
  | Some body =>
      match extractFeatures body (ib_header req) (ClassificationHeader cfg) with
      | None => reject StatusBadRequest None EmptyString budgets d
      | Some (features, isStream) =>
          let decision := Match (NewMatcher cfg) features in
          if is_nil (mr_Backends decision) then reject StatusServiceUnavailable None "no_route" budgets d
          else
            match enforceFailClosed cfg (NewMatcher cfg) features decision with
            | Err _ => reject StatusServiceUnavailable None "fail_closed" budgets d
            | Ok _ =>
                let scopeKeys := budgetScopeKeys cfg features decision in
                match (if is_nil scopeKeys then AllowedOk else Allowed budgets now scopeKeys) with
                | Exhausted retryAfter _ =>
                    reject StatusTooManyRequests (Some (Itoa (retryAfterSeconds retryAfter))) "budget_exceeded" budgets d
                | AllowedOk => serve env chargeTime decision scopeKeys (ib_header req) body isStream budgets d
                end
            end
      end
  end.

End Handler.

(** ** The model list *)

(** The id [handleModels] publishes for a backend. *)
Definition modelID (b : Backend) : string :=
  if negb (is_empty (be_DisplayName b)) then be_DisplayName b
  else if negb (is_empty (be_Model b)) then be_Model b
  else be_Name b.

Definition ownedBy (b : Backend) : string := if is_empty (be_Provider b) then "llmkube" else be_Provider b.

Definition handleModels (cfg : Config) : list (string * string) := map (fun b => (modelID b, ownedBy b)) (cfg_Backends cfg).

(** ** The dispatcher implements the interface *)

Section Instance.
Context (getenv : string -> string) (urlOK : string -> bool).

Definition backend_addresses (d : Dispatcher) (b : Backend) : list string :=
  match liveEndpoints d b with
  | [] => [be_Address b]
  | eps => map (dispatchTarget b) eps
  end.

#[local, refine] Instance dispatcher_dispatching : Dispatching Dispatcher := {|
  dp_IsHealthy := IsHealthy;
  dp_Dispatch d env b path h body :=
    Dispatch getenv urlOK d (ae_now env) (ae_later env) (ae_net env) b path h body;
  dp_Close := closeBody;
  dp_addresses := backend_addresses;
|}.
Proof.
  - intros d env b path h body.
    pose proof (Dispatch_sent getenv urlOK d (ae_now env) (ae_later env) (ae_net env) b path h body) as Hs.
    destruct (Dispatch _ _ _ _ _ _ _ _ _ _) as [[r sent] d']. cbn [fst snd].
    destruct Hs as (_ & _ & ep & Hep & Hs). eapply Forall_impl; [exact Hs|]. intros req (Hu & _ & _).
    exists (dispatchTarget b ep). split; [|done]. unfold backend_addresses. destruct Hep as [Hep|[He ->]].
    + destruct (liveEndpoints d b) as [|e0 eps]; [by apply elem_of_nil in Hep|]. by apply list_elem_of_fmap_2.
    + rewrite He. by left.
  - intros d env b path h body. apply Dispatch_panics.
Defined.

End Instance.
