(* ===== verification/ProxyFacts.v ===== *)
(** * Properties of the proxy

    What a request may reach (the fail-closed gate, the fallback order), how it is
    refused, what a failure reports, that pool slots are given back, and that the
    budgets bound what is served. *)

From stdpp Require Import base gmap strings list sorting.
From Stdlib Require Import ZArith Lia Bool.
From S2P Require Import Prelude GoStrings GoFloat GoHttp GoJson GoJsonFacts GoJsonText RouterConfig RouterMatch RouterBudget BodyRewrite.
From S2P Require Import Picker Sessions Dispatcher DispatchLoad DispatchHealth Activator Usage.
From S2P Require Import Proxy.

(** ** Lemmas: the fallback loop *)

Section LoopFacts.
Context {D : Type} `{Dispatching D}.
Context (m : Matcher) (activator : bool) (env : nat -> attempt_env) (path : string) (headers : Header) (body : string).

(** The contacts of an attempt go to the backend of that name. *)
Definition contact_ok (names : list string) (ct : contact D) : Prop :=
  (exists name, name ∈ names /\ Matcher_BackendByName m name = Some (ct_backend ct)) /\
  exists a, a ∈ dp_addresses (ct_state ct) (ct_backend ct) /\ ur_url (ct_request ct) = joinURL a path.

Lemma attempt_contacts (i : nat) (name : string) (d : D) :
  Forall (contact_ok [name]) (attempt m activator env path headers body i name d).1.1.2.
Proof.
  unfold attempt. destruct (Matcher_BackendByName m name) as [b|] eqn:Eb; [|constructor].
  case_if; [constructor|].
  destruct (if activator && _ then ae_acquire (env i) else None) as [e|]; [constructor|].
  pose proof (dp_sends_to_backend d (env i) b path headers body) as Hs.
  destruct (dp_Dispatch d (env i) b path headers body) as [[r sent] d']. cbn [fst snd] in Hs.
  assert (Forall (contact_ok [name]) (map (Build_contact d b) sent)) as Hc.
  { apply Forall_fmap. eapply Forall_impl; [exact Hs|]. intros req Hreq. split; simpl; [|done].
    exists name. split; [by left|done]. }
  destruct r as [resp|e]; [|by destruct e]. repeat case_if; done.
Qed.

Lemma fallbackLoop_contacts (names : list string) (i : nat) (lastErr : option attempt_error) (busy : bool) (d : D) :
  Forall (contact_ok names) (lr_contacts (fallbackLoop m activator env path headers body i names lastErr busy d)).
Proof.
  revert i lastErr busy d; induction names as [|name names IH]; intros i lastErr busy d; simpl; [constructor|].
  pose proof (attempt_contacts i name d) as Ha.
  destruct (attempt m activator env path headers body i name d) as [[[r cs] evs] d']. cbn [fst snd] in Ha.
  assert (forall l ct, (forall n, n ∈ l -> n ∈ name :: names) -> contact_ok l ct -> contact_ok (name :: names) ct) as Hmono.
  { intros l ct Hl [(n & Hn & Hb) Ha']. split; [|done]. exists n. auto. }
  assert (Forall (contact_ok (name :: names)) cs) as Hcs.
  { eapply Forall_impl; [exact Ha|]. intros ct. apply Hmono. intros n ->%list_elem_of_singleton. by left. }
  destruct r as [e|c|]; simpl; [|done|done]. apply Forall_app. split; [done|].
  eapply Forall_impl; [apply IH|]. intros ct. apply Hmono. intros n Hn. by right.
Qed.

(** The state after attempts on [names] that all fail, from attempt [i] on. *)
Fixpoint all_fail (i : nat) (names : list string) (d : D) : option (list attempt_error * D) :=
  match names with
  | [] => Some ([], d)
  | name :: names' =>
      let '(r, _, _, d) := attempt m activator env path headers body i name d in
      match r with
      | Served _ | Panicked => None
      | Failed e => match all_fail (S i) names' d with Some (es, d) => Some (e :: es, d) | None => None end
      end
  end.

Lemma fallbackLoop_success (names : list string) (i : nat) (lastErr : option attempt_error) (busy : bool) (d : D) (c : chosen) :
  lr_result (fallbackLoop m activator env path headers body i names lastErr busy d) = inr c ->
  exists pre name post es d1, names = pre ++ name :: post /\ all_fail i pre d = Some (es, d1) /\
    (attempt m activator env path headers body (i + length pre) name d1).1.1.1 = Served c.
Proof.
  revert i lastErr busy d; induction names as [|name names IH]; intros i lastErr busy d; simpl; [done|].
  destruct (attempt m activator env path headers body i name d) as [[[r cs] evs] d'] eqn:E.
  destruct r as [e|c'|]; simpl; [| |done].
  - intros H1. destruct (IH _ _ _ _ H1) as (pre & n & post & es & d1 & -> & Hf & Ha).
    exists (name :: pre), n, post, (e :: es), d1. split; [done|]. simpl. rewrite E, Hf. split; [done|].
    by rewrite <- plus_n_Sm.
  - intros [= ->]. exists [], name, names, [], d. split; [done|]. split; [done|]. simpl. rewrite Nat.add_0_r, E. done.
Qed.

Lemma fallbackLoop_failure (names : list string) (i : nat) (lastErr : option attempt_error) (busy : bool) (d : D) (f : dispatch_failure) :
  lr_result (fallbackLoop m activator env path headers body i names lastErr busy d) = inl f -> f ≠ Unwound ->
  exists es d1, all_fail i names d = Some (es, d1) /\
    f = match last (match lastErr with Some e => e :: es | None => es end) with
        | None => NoBackendsAttempted
        | Some e => if busy && forallb skipped_busy es then IncumbentBusy else LastError e
        end.
Proof.
  revert i lastErr busy d; induction names as [|name names IH]; intros i lastErr busy d; simpl.
  - intros [= <-] _. exists [], d. split; [done|]. rewrite andb_true_r. by destruct lastErr.
  - destruct (attempt m activator env path headers body i name d) as [[[r cs] evs] d'] eqn:E.
    destruct r as [e|c'|]; simpl; [|done|by intros [= <-]]. intros H1 H2. destruct (IH _ _ _ _ H1 H2) as (es & d1 & Hf & ->).
    exists (e :: es), d1. rewrite Hf. split; [done|]. cbn [forallb]. rewrite andb_assoc.
    destruct lastErr as [e0|]; [|done]. by rewrite (last_cons_cons e0).
Qed.

End LoopFacts.

(** ** Lemmas: pool slots *)

#[export] Instance slot_event_eq_dec : EqDecision slot_event.
Proof. solve_decision. Defined.

(** Each attempt's slot is released as often as it was acquired. *)
Definition balanced (evs : list slot_event) : Prop :=
  forall i, length (filter (.= Acquired i) evs) = length (filter (.= Released i) evs).

Lemma balanced_app (e1 e2 : list slot_event) : balanced e1 -> balanced e2 -> balanced (e1 ++ e2).
Proof. intros H1 H2 i. rewrite !filter_app, !length_app. by rewrite H1, H2. Qed.

Lemma balanced_nil : balanced [].
Proof. done. Qed.

Lemma balanced_slot (i : nat) (mid : list slot_event) :
  balanced mid -> balanced (Acquired i :: mid ++ [Released i]).
Proof.
  intros Hm j. specialize (Hm j). rewrite !filter_cons, !filter_app, !filter_cons, !filter_nil.
  destruct (decide (Acquired i = Acquired j)) as [E|E].
  - injection E as ->. rewrite (decide_False (P := Released j = Acquired j)), (decide_False (P := Acquired j = Released j)),
      (decide_True (P := Released j = Released j)) by done. rewrite app_nil_r, length_app. simpl. lia.
  - rewrite (decide_False (P := Released i = Acquired j)), (decide_False (P := Acquired i = Released j)),
      (decide_False (P := Released i = Released j)) by congruence. by rewrite !app_nil_r.
Qed.

#[export] Hint Resolve balanced_app balanced_nil : llm.

Section SlotFacts.
Context {D : Type} `{Dispatching D}.
Context (m : Matcher) (activator : bool) (env : nat -> attempt_env) (path : string) (headers : Header) (body : string).

(** The slot events once the chosen response, if any, is closed. *)
Definition closed_slots (r : dispatch_failure + chosen) (evs : list slot_event) : list slot_event :=
  match r with
  | inl _ => evs
  | inr c => evs ++ (if ch_pooled c then [Released (ch_attempt c)] else [])
  end.

Lemma attempt_slots (i : nat) (name : string) (d : D) :
  let '(r, _, evs, _) := attempt m activator env path headers body i name d in
  match r with
  | Failed _ => balanced evs
  | Served c => balanced (evs ++ (if ch_pooled c then [Released (ch_attempt c)] else []))
  | Panicked => parse body = Some JNull
  end.
Proof.
  assert (Hdrop : forall b : bool, balanced (if b then [Acquired i; Invalidated i; Released i] else [])).
  { intros []; [|done]. apply (balanced_slot i [Invalidated i]). by intros j. }
  assert (Hpair : forall b : bool, balanced (if b then [Acquired i; Released i] else [])).
  { intros []; [|done]. apply (balanced_slot i []). apply balanced_nil. }
  unfold attempt. destruct (Matcher_BackendByName m name) as [b|]; [|apply balanced_nil].
  destruct (negb _); [apply balanced_nil|].
  destruct (if activator && _ then ae_acquire (env i) else None) as [e|]; [apply balanced_nil|].
  pose proof (dp_panics_on_null d (env i) b path headers body) as Hp.
  destruct (dp_Dispatch d (env i) b path headers body) as [[r sent] d'].
  destruct r as [resp|e]; [|destruct e; [by apply Hp|apply Hdrop..]]. destruct (ae_headerTimedOut (env i)); [apply Hdrop|].
  destruct (500 <=? _); [apply Hpair|]. cbn [ch_pooled ch_attempt].
  specialize (Hpair (activator && match be_Pool b with Some _ => true | None => false end)).
  by destruct (activator && _).
Qed.

Lemma fallbackLoop_slots (names : list string) (i : nat) (lastErr : option attempt_error) (busy : bool) (d : D) :
  parse body ≠ Some JNull ->
  let lr := fallbackLoop m activator env path headers body i names lastErr busy d in
  balanced (closed_slots (lr_result lr) (lr_slots lr)) /\ lr_result lr ≠ inl Unwound.
Proof.
  intros Hb. revert i lastErr busy d; induction names as [|name names IH]; intros i lastErr busy d; simpl.
  { split; [apply balanced_nil|]. destruct lastErr; [by destruct busy|done]. }
  pose proof (attempt_slots i name d) as Ha.
  destruct (attempt m activator env path headers body i name d) as [[[r cs] evs] d'].
  destruct r as [e|c|]; [|done|done]. specialize (IH (S i) (Some e) (busy && skipped_busy e) d').
  destruct IH as [IH Hu]. split; [|exact Hu]. cbn [after_attempt lr_result lr_slots]. unfold closed_slots in *.
  destruct (lr_result _); [by apply balanced_app|]. rewrite <- app_assoc. by apply balanced_app.
Qed.

End SlotFacts.

(** ** Lemmas: the gate *)

Lemma checkLocal_Ok (m : Matcher) (class : string) (names : list string) :
  checkLocal m class names = Ok tt <->
  Forall (fun n => exists b, Matcher_BackendByName m n = Some b /\ be_Tier b = "local") names.
Proof.
  induction names as [|n names IH]; simpl; [by rewrite Forall_nil|]. rewrite Forall_cons.
  destruct (Matcher_BackendByName m n) as [b|] eqn:E; [|naive_solver]. case_bool_decide; [|naive_solver].
  rewrite IH. naive_solver.
Qed.

Lemma retryAfterSeconds_pos (ra : Z) : 1 <= retryAfterSeconds ra.
Proof. unfold retryAfterSeconds. case_if; to_prop; lia. Qed.

Section Properties.
Context {D : Type} `{Dispatching D}.
Context (cfg : Config) (activator : bool) (upstreamPath : string).

Let handle := handleCompletion (D := D) cfg activator upstreamPath.

(** Every request a reply sent went to a backend of the matched route, past the
    gate. *)
Lemma handle_contacts (env : nat -> attempt_env) (now chargeTime : Z) (req : inbound) (budgets : BudgetStore) (d : D) (ct : contact D) :
  ct ∈ rp_contacts (handle env now chargeTime req budgets d) ->
  exists body f st, ib_body req = Some body /\ extractFeatures body (ib_header req) (ClassificationHeader cfg) = Some (f, st) /\
    enforceFailClosed cfg (NewMatcher cfg) f (Match (NewMatcher cfg) f) = Ok tt /\
    contact_ok (NewMatcher cfg) upstreamPath (mr_Backends (Match (NewMatcher cfg) f)) ct.
Proof.
  unfold handle, handleCompletion. destruct (ib_body req) as [body|]; [|by rewrite elem_of_nil].
  destruct (extractFeatures _ _ _) as [[f st]|] eqn:Ef; [|by rewrite elem_of_nil].
  case_if; [by rewrite elem_of_nil|].
  destruct (enforceFailClosed _ _ _ _) as [[]|e] eqn:G; [|by rewrite elem_of_nil].
  destruct (if is_nil _ then AllowedOk else _); [|by rewrite elem_of_nil].
  intros Hct. exists body, f, st. split; [done|]. split; [done|]. split; [done|].
  set (keys := budgetScopeKeys cfg f (Match (NewMatcher cfg) f)) in *.
  pose proof (fallbackLoop_contacts (D := D) (NewMatcher cfg) activator env upstreamPath (ib_header req)
    (outboundBody upstreamPath body st keys) (mr_Backends (Match (NewMatcher cfg) f)) 0 None true d) as Hf.
  rewrite Forall_forall in Hf. apply Hf. revert Hct. unfold serve, dispatchWithFallback. cbv zeta.
  destruct (lr_result _); [|done]. by destruct (failure_reply _ _) as [[??]?].
Qed.

(** A body that is not [null] is not sent as [null]. *)
Lemma outboundBody_not_null (body : string) (st : bool) (keys : list string) :
  parse body ≠ Some JNull -> parse (outboundBody upstreamPath body st keys) ≠ Some JNull.
Proof.
  intros Hb. unfold outboundBody. case_if; [|done]. destruct (InjectStreamUsage body) as [out|] eqn:E; [|done]. simpl.
  destruct (InjectStreamUsage_reads _ _ E) as (req & req' & _ & Hr & _). intros Hn. by rewrite Hn in Hr.
Qed.

(** What a request that reached dispatch replies. *)
Lemma handle_cases (env : nat -> attempt_env) (now chargeTime : Z) (req : inbound) (budgets : BudgetStore) (d : D) :
  let rp := handle env now chargeTime req budgets d in
  (rp_contacts rp = [] /\ rp_slots rp = [] /\ rp_charge rp = None /\ rp_budgets rp = budgets /\ rp_backend rp = None /\ rp_disp rp = d) \/
  exists body f st, ib_body req = Some body /\ extractFeatures body (ib_header req) (ClassificationHeader cfg) = Some (f, st) /\
    let dec := Match (NewMatcher cfg) f in
    mr_Backends dec ≠ [] /\ enforceFailClosed cfg (NewMatcher cfg) f dec = Ok tt /\
    (budgetScopeKeys cfg f dec = [] \/ Allowed budgets now (budgetScopeKeys cfg f dec) = AllowedOk) /\
    rp = serve cfg activator upstreamPath env chargeTime dec (budgetScopeKeys cfg f dec) (ib_header req) body st budgets d.
Proof.
  unfold handle, handleCompletion. destruct (ib_body req) as [body|]; [|by left].
  destruct (extractFeatures _ _ _) as [[f st]|] eqn:Ef; [|by left]. destruct (is_nil (mr_Backends _)) eqn:En; [by left|].
  destruct (enforceFailClosed _ _ _ _) as [[]|e] eqn:G; [|by left].
  destruct (is_nil (budgetScopeKeys cfg f (Match (NewMatcher cfg) f))) eqn:Ek.
  - right. exists body, f, st. split; [done|]. split; [done|]. cbv zeta. apply is_nil_false in En. apply is_nil_true in Ek. auto.
  - destruct (Allowed _ _ _) eqn:Ea; [|by left]. right. exists body, f, st. split; [done|]. split; [done|]. cbv zeta.
    apply is_nil_false in En. auto 6.
Qed.

End Properties.

Section Claims.
Context {D : Type} `{Dispatching D}.
Context (m : Matcher) (activator : bool) (env : nat -> attempt_env) (path : string) (headers : Header) (body : string).

(** When every attempt fails, the last error decides, or the busy sentinel when all
    were skipped. *)
Lemma fallbackLoop_all_fail (names : list string) (i : nat) (lastErr : option attempt_error) (busy : bool) (d : D) es d1 :
  all_fail m activator env path headers body i names d = Some (es, d1) ->
  lr_result (fallbackLoop m activator env path headers body i names lastErr busy d) =
  inl match last (match lastErr with Some e => e :: es | None => es end) with
      | None => NoBackendsAttempted
      | Some e => if busy && forallb skipped_busy es then IncumbentBusy else LastError e
      end.
Proof.
  revert i lastErr busy d es; induction names as [|name names IH]; intros i lastErr busy d es; simpl.
  - intros [= <- <-]. rewrite andb_true_r. by destruct lastErr.
  - destruct (attempt m activator env path headers body i name d) as [[[r cs] evs] d'].
    destruct r as [e|c|]; [|done|done]. destruct (all_fail _ _ _ _ _ _ _ _ _) as [[es' d2]|] eqn:E; [|done].
    intros [= <- ->]. cbn [after_attempt lr_result]. rewrite (IH _ _ _ _ _ E). cbn [forallb]. rewrite andb_assoc.
    destruct lastErr as [e0|]; [|done]. by rewrite (last_cons_cons e0).
Qed.

(** The busy sentinel is reported as a busy last error is. *)
Lemma failure_reply_busy (failClosed : bool) (es : list attempt_error) (e : attempt_error) :
  last es = Some e ->
  failure_reply failClosed (if forallb skipped_busy es then IncumbentBusy else LastError e) = failure_reply failClosed (LastError e).
Proof.
  intros He. destruct (forallb skipped_busy es) eqn:E; [|done].
  assert (skipped_busy e = true) as Hb.
  { rewrite forallb_forall in E. apply E. apply list_elem_of_In. by apply last_Some_elem_of. }
  destruct e as [| |[]| | |]; try done.
Qed.

End Claims.

(** ** A sample proxy *)

Module ProxySample.

Definition pool : BackendPool :=
  {| bp_Name := "pool"; bp_Namespace := "ns"; bp_Member := "llama"; bp_Members := ["llama"; "qwen"]; bp_SwapBudget := 0 |}.

Definition backend (name tier : string) (p : option BackendPool) : Backend :=
  {| be_Name := name; be_DisplayName := EmptyString; be_Tier := tier; be_Address := "http://" +:+ name;
     be_Endpoints := []; be_EndpointSource := None; be_Balancing := None; be_Metrics := None;
     be_Provider := EmptyString; be_Model := EmptyString; be_ServedModel := EmptyString; be_InferenceService := name;
     be_Capabilities := []; be_Weight := 0; be_CredentialsEnv := EmptyString; be_Timeout := 0; be_Pool := p;
     be_CostPerMillionTokens := None |}.

Definition config (sensitive : list string) : Config :=
  {| cfg_Backends := [backend "spare" "local" None; backend "llama" "local" (Some pool); backend "gpt" "cloud" None];
     cfg_Rules := [Sample.rule "phi" ["phi"] [] ["spare"; "llama"] true];
     cfg_DefaultRoute := "llama"; cfg_DefaultRouteStrategy := EmptyString;
     cfg_Policy := Sample.policy sensitive [Sample.budget "hourly" BudgetScopeRouter hour 1000] |}.

Definition clock : Z := unix_epoch + hour.

(** An upstream that answers with a status and 30 tokens of usage, and an activator
    that answers [acquire]. *)
Definition answer (status : Z) (acquire : option acquire_error) : attempt_env :=
  {| ae_now := clock; ae_later := clock;
     ae_net := fun _ _ => XResp {| up_status := status; up_header := ∅;
                                   up_body := text "{'usage':{'prompt_tokens':10,'completion_tokens':20}}" |};
     ae_headerTimedOut := false; ae_acquire := acquire |}.

Definition request (class body : string) : inbound :=
  {| ib_header := {["X-Llmkube-Classification" := [class]]}; ib_body := Some (text body) |}.

Definition start (sensitive : list string) : Dispatcher :=
  NewDispatcher (config sensitive) (15 * second) (120 * second) (300 * second).

Definition store (used : Z) : BudgetStore :=
  Charge (NewBudgetStore [{| br_Name := "hourly"; br_ScopeKey := "router"; br_MaxTokens := 1000; br_MaxUSD := fzero; br_Window := hour |}])
    clock ["router"] used fzero.

#[global] Instance disp : Dispatching Dispatcher := dispatcher_dispatching (fun _ => EmptyString) (fun _ => true).

Definition handle (sensitive : list string) (env : nat -> attempt_env) (used : Z) (req : inbound) : reply Dispatcher :=
  handleCompletion (config sensitive) true "/v1/chat/completions" env clock clock req (store used) (start sensitive).

End ProxySample.

(** ** Properties *)



(** An exhausted budget is refused up front.  A routable request past the gate
    that finds one of its budgets exhausted is answered 429 with a Retry-After of
    at least one second; no upstream is contacted, no pool slot taken, nothing
    charged and the dispatcher is untouched. *)
Lemma budget_exhausted_rejected {D : Type} `{Dispatching D} (cfg : Config) (activator : bool) (upstreamPath : string)
    (env : nat -> attempt_env) (now chargeTime : Z) (req : inbound) (budgets : BudgetStore) (d : D)
    (body : string) (f : RequestFeatures) (st : bool) (ra : Z) (n : string) :
  let dec := Match (NewMatcher cfg) f in
  let rp := handleCompletion cfg activator upstreamPath env now chargeTime req budgets d in
  ib_body req = Some body -> extractFeatures body (ib_header req) (ClassificationHeader cfg) = Some (f, st) ->
  mr_Backends dec ≠ [] -> enforceFailClosed cfg (NewMatcher cfg) f dec = Ok tt ->
  Allowed budgets now (budgetScopeKeys cfg f dec) = Exhausted ra n ->
  rp_status rp = StatusTooManyRequests /\ (exists s, rp_retryAfter rp = Some (Itoa s) /\ 1 <= s) /\
  rp_contacts rp = [] /\ rp_slots rp = [] /\ rp_budgets rp = budgets /\ rp_disp rp = d.
Proof.
  intros dec rp Hb Hf Hn Hg Ha. unfold rp, handleCompletion. rewrite Hb, Hf. fold dec. rewrite (proj2 (is_nil_false _) Hn), Hg.
  assert (budgetScopeKeys cfg f dec ≠ []) as Hk by (intros E; by rewrite E in Ha).
  rewrite (proj2 (is_nil_false _) Hk), Ha. split; [done|]. split; [|done].
  exists (retryAfterSeconds ra). split; [done|]. apply retryAfterSeconds_pos.
Qed.

(** Fallback order.  A served request was served by the first backend of the
    route, in declared order, whose attempt did not fail: every backend before it
    was tried and failed, and the response it relays is below 500. *)
Lemma first_success_serves {D : Type} `{Dispatching D} (cfg : Config) (activator : bool) (upstreamPath : string)
    (env : nat -> attempt_env) (now chargeTime : Z) (req : inbound) (budgets : BudgetStore) (d : D) (b : Backend) :
  let rp := handleCompletion cfg activator upstreamPath env now chargeTime req budgets d in
  rp_backend rp = Some b ->
  exists f out pre name post es d1,
    mr_Backends (Match (NewMatcher cfg) f) = pre ++ name :: post /\ Matcher_BackendByName (NewMatcher cfg) name = Some b /\
    all_fail (NewMatcher cfg) activator env upstreamPath (ib_header req) out 0 pre d = Some (es, d1) /\
    rp_status rp < 500 /\ dp_IsHealthy d1 (ae_now (env (length pre))) name = true.
Proof.
  intros rp Hrp. unfold rp in *.
  destruct (handle_cases cfg activator upstreamPath env now chargeTime req budgets d) as [(_&_&_&_&E&_)|(body & f & st & _ & _ & _ & _ & _ & E)];
    [congruence|]. rewrite E in Hrp |- *. unfold serve, dispatchWithFallback in *. cbv zeta in *.
  set (out := outboundBody _ _ _ _) in *. destruct (lr_result _) as [e|c] eqn:Er.
  { exfalso. revert Hrp. by destruct (failure_reply _ _) as [[??]?]. }
  cbn [rp_backend] in Hrp. injection Hrp as Hrp. destruct (fallbackLoop_success _ _ _ _ _ _ _ _ _ _ _ _ Er) as (pre & name & post & es & d1 & Hn & Hf & Ha).
  exists f, out, pre, name, post, es, d1. split; [exact Hn|].
  unfold attempt in Ha. destruct (Matcher_BackendByName (NewMatcher cfg) name) as [b'|] eqn:Eb; [|done].
  rewrite Nat.add_0_l in Ha. destruct (dp_IsHealthy d1 _ name) eqn:Eh; [|done]. simpl in Ha.
  destruct (if activator && _ then _ else _); [done|]. destruct (dp_Dispatch _ _ _ _ _ _) as [[[resp|[]] sent] d']; try done.
  destruct (ae_headerTimedOut _); [done|]. destruct (500 <=? _) eqn:E5; [done|]. simpl in Ha. injection Ha as <-. simpl in *. subst b'.
  to_prop. auto.
Qed.

(** What a failed dispatch reports.  When every backend of the route fails, the
    status, the Retry-After and the audit reason depend on the error of the last
    attempt only: the flag that tells whether all of them were skipped as busy
    never changes the reply. *)
Lemma failure_reported_by_last_error {D : Type} `{Dispatching D} (cfg : Config) (activator : bool) (upstreamPath : string)
    (env : nat -> attempt_env) (chargeTime : Z) (dec : MatchResult) (keys : list string) (headers : Header) (body : string)
    (st : bool) (budgets : BudgetStore) (d d1 : D) (es : list attempt_error) (e : attempt_error) :
  all_fail (NewMatcher cfg) activator env upstreamPath headers (outboundBody upstreamPath body st keys) 0 (mr_Backends dec) d = Some (es, d1) ->
  last es = Some e ->
  let rp := serve cfg activator upstreamPath env chargeTime dec keys headers body st budgets d in
  (rp_status rp, rp_retryAfter rp, rp_outcome rp) = failure_reply (mr_FailClosed dec) (LastError e) /\ rp_budgets rp = budgets.
Proof.
  intros Hf He rp. unfold rp, serve, dispatchWithFallback. cbv zeta. rewrite (fallbackLoop_all_fail _ _ _ _ _ _ _ _ _ _ _ _ _ Hf), He.
  pose proof (failure_reply_busy (mr_FailClosed dec) es e He) as Hr. cbn [andb].
  destruct (failure_reply _ (if forallb _ _ then _ else _)) as [[s ra] o]. by rewrite <- Hr.
Qed.

(** C34: pool slots balance.  For every request whose body is not the JSON value
    null, every pool slot the handler acquires it releases, once, by the time it
    returns, on every path: failed and timed-out attempts, server errors and the
    served response. *)
Theorem pool_slots_balanced {D : Type} `{Dispatching D} (cfg : Config) (activator : bool) (upstreamPath : string)
    (env : nat -> attempt_env) (now chargeTime : Z) (req : inbound) (budgets : BudgetStore) (d : D) :
  (forall body, ib_body req = Some body -> parse body ≠ Some JNull) ->
  balanced (rp_slots (handleCompletion cfg activator upstreamPath env now chargeTime req budgets d)).
Proof.
  intros Hb. destruct (handle_cases cfg activator upstreamPath env now chargeTime req budgets d)
    as [(_ & -> & _)|(body & f & st & Hbody & _ & _ & _ & _ & ->)]; [apply balanced_nil|].
  unfold serve, dispatchWithFallback. cbv zeta. set (keys := budgetScopeKeys _ _ _).
  pose proof (fallbackLoop_slots (D := D) (NewMatcher cfg) activator env upstreamPath (ib_header req) (outboundBody upstreamPath body st keys)
    (mr_Backends (Match (NewMatcher cfg) f)) 0 None true d (outboundBody_not_null _ _ _ _ (Hb _ Hbody))) as [Hs Hu].
  destruct (lr_result _) as [e|c]; [|exact Hs]. destruct (failure_reply _ _) as [[??]?]. exact Hs.
Qed.

Lemma pool_slots_balanced_witness :
  balanced (rp_slots (ProxySample.handle [] (fun i => ProxySample.answer (match i with O => 500 | _ => 200 end) None) 0
    (ProxySample.request "phi" "{'model':'x'}"))).
Proof.
  apply (pool_slots_balanced (ProxySample.config []) true "/v1/chat/completions"
    (fun i => ProxySample.answer (match i with O => 500 | _ => 200 end) None) ProxySample.clock ProxySample.clock).
  intros body [= <-]. vm_compute. discriminate.
Defined.

(** A null body leaks its slot.  When the first backend of the route is pooled,
    serves a named model and is healthy, a request whose body is the JSON value
    null panics in the body rewrite after the slot was acquired: the slot is never
    released, and the connection is aborted without a status. *)
Lemma null_body_leaks_slot (getenv : string -> string) (urlOK : string -> bool) (cfg : Config) (upstreamPath : string)
    (env : nat -> attempt_env) (chargeTime : Z) (dec : MatchResult) (headers : Header) (body : string) (st : bool)
    (budgets : BudgetStore) (d : Dispatcher) (name : string) (names : list string) (b : Backend) :
  parse body = Some JNull -> mr_Backends dec = name :: names -> Matcher_BackendByName (NewMatcher cfg) name = Some b ->
  be_Pool b ≠ None -> outboundModel b ≠ EmptyString -> IsHealthy d (ae_now (env 0%nat)) name = true -> ae_acquire (env 0%nat) = None ->
  let rp := @serve Dispatcher (dispatcher_dispatching getenv urlOK) cfg true upstreamPath env chargeTime dec [] headers body st budgets d in
  rp_status rp = StatusAborted /\ rp_slots rp = [Acquired 0%nat] /\ ~ balanced (rp_slots rp).
Proof.
  intros Hb Hn Hname Hp Hm Hh Ha rp.
  assert (rp_status rp = StatusAborted /\ rp_slots rp = [Acquired 0%nat]) as [Hs He].
  { unfold rp, serve, dispatchWithFallback, outboundBody. cbv zeta. rewrite andb_false_r. cbn [andb]. rewrite Hn. cbn [fallbackLoop].
    unfold attempt. rewrite Hname. cbn [dp_IsHealthy dispatcher_dispatching dp_Dispatch]. rewrite Hh. destruct (be_Pool b); [|done].
    cbn [negb andb]. rewrite Ha. unfold Dispatch. destruct (beginDispatch _ _ _ _ _ _) as [[[ep tok] ptok] d'].
    rewrite (proj2 (applyModelOverride_None body (outboundModel b))) by (split; [by apply is_empty_false|done]). done. }
  split; [done|]. split; [done|]. rewrite He. intros Hbal. specialize (Hbal 0%nat). vm_compute in Hbal. discriminate.
Qed.

(** ** Histories *)

(** The charges made and the store after any sequence of handled requests, each at
    its own times and with its own upstreams; what else happens to the dispatcher
    in between is left open. *)
Inductive history {D : Type} `{Dispatching D} (cfg : Config) (activator : bool) : list charge_call -> BudgetStore -> D -> Prop :=
| history_start (d : D) : history cfg activator [] (NewBudgetStore (compileBudgetRules (po_Budgets (cfg_Policy cfg)))) d
| history_request (cs : list charge_call) (s : BudgetStore) (d d' : D) (upstreamPath : string) (env : nat -> attempt_env)
    (now chargeTime : Z) (req : inbound) (rp : reply D) :
    history cfg activator cs s d -> rp = handleCompletion cfg activator upstreamPath env now chargeTime req s d ->
    history cfg activator (cs ++ option_list (rp_charge rp)) (rp_budgets rp) d'.

Lemma handle_budgets {D : Type} `{Dispatching D} (cfg : Config) (activator : bool) (upstreamPath : string)
    (env : nat -> attempt_env) (now chargeTime : Z) (req : inbound) (budgets : BudgetStore) (d : D) :
  let rp := handleCompletion cfg activator upstreamPath env now chargeTime req budgets d in
  rp_budgets rp = applyCharge budgets (rp_charge rp).
Proof.
  cbv zeta. destruct (handle_cases cfg activator upstreamPath env now chargeTime req budgets d)
    as [(_ & _ & -> & -> & _)|(body & f & st & _ & _ & _ & _ & _ & ->)]; [done|].
  unfold serve. cbv zeta. destruct (lr_result _); [|done]. by destruct (failure_reply _ _) as [[??]?].
Qed.

(** The store is the result of the charges made. *)
Lemma history_store {D : Type} `{Dispatching D} (cfg : Config) (activator : bool) cs s d :
  history cfg activator cs s d -> s = run_charges (NewBudgetStore (compileBudgetRules (po_Budgets (cfg_Policy cfg)))) cs.
Proof.
  induction 1 as [|cs s d d' path env now ct req rp _ IH ->]; [done|]. rewrite handle_budgets.
  unfold run_charges in *. rewrite foldl_app, <- IH. by destruct (rp_charge _).
Qed.



(** The gate compares lower case with the configured spelling.  A request's
    classification is lower-cased and the policy's sensitive values are not, so a
    policy whose sensitive values all hold an upper-case letter gates nothing: every
    route is let through for every request. *)
Lemma uppercase_sensitive_never_gates (cfg : Config) (body : string) (h : Header) (f : RequestFeatures) (st : bool)
    (m : Matcher) (dec : MatchResult) :
  (forall v, v ∈ SensitiveSet cfg -> ToLower v ≠ v) ->
  extractFeatures body h (ClassificationHeader cfg) = Some (f, st) -> enforceFailClosed cfg m f dec = Ok tt.
Proof.
  intros Hs Hf. unfold enforceFailClosed. destruct (negb (mr_FailClosed dec)); [done|].
  case_bool_decide as Hin; [|done]. exfalso. apply (Hs _ Hin). revert Hf. unfold extractFeatures.
  destruct (unmarshal _ _ _) as [[model stream]|]; [|done]. intros [= <- <-]. apply ToLower_idem.
Qed.

(** The ids [handleModels] lists and the ids [Match] resolves differ for a backend
    with a model and no display name: such a listed id is not routable by name. *)
Lemma listed_id_not_published (b : Backend) :
  be_DisplayName b = EmptyString -> be_Model b ≠ EmptyString -> be_Model b ≠ be_Name b -> modelID b ≠ publishedID b.
Proof.
  intros Hd Hm Hn. unfold modelID, publishedID. rewrite Hd, (proj2 (is_empty_false _) Hm). simpl. done.
Qed.
