(* ===== verification/RouterCompileFacts.v ===== *)
(** * Properties of the compilation of a ModelRouter

    When a specification that the schema and [validateModelRouter] accept compiles,
    and what the static gate on sensitive data means for the compiled proxy. *)

From stdpp Require Import base gmap strings list.
From Stdlib Require Import ZArith Lia Bool.
From S2P Require Import Prelude GoStrings GoFloat GoStrconv GoHttp RouterConfig RouterMatch RouterBudget RouterSpec RouterCompile BodyRewrite Dispatcher Proxy ProxyFacts.

(** ** Prices *)

Lemma ParseFloat_empty : ParseFloat EmptyString = None.
Proof. reflexivity. Qed.

Lemma parseUSD_positive (s : string) : fgt (parseUSD s) fzero = positiveUSD s.
Proof.
  unfold parseUSD, positiveUSD, is_empty. case_bool_decide as E; [by rewrite E|].
  destruct (ParseFloat (TrimSpace s)) as [f|]; [|done].
  destruct (flt f fzero) eqn:Ef; [|done]. by rewrite (flt_not_fgt _ _ Ef).
Qed.

Lemma wire_pricesTokens (b : Backend) (c : option RouterSpec.TokenCost) :
  be_CostPerMillionTokens b = translateTokenCost c -> RouterConfig.pricesTokens b = RouterSpec.pricesTokens c.
Proof.
  intros H. unfold RouterConfig.pricesTokens. rewrite H. destruct c as [c|]; [|done]. simpl. by rewrite !parseUSD_positive.
Qed.

(** ** Backends *)

Definition compiledTier (b : RouterBackend) : string :=
  match rb_InferenceServiceRef b, rb_External b with
  | Some _, _ => or_default (rb_Tier b) backendTierLocal
  | None, Some _ => or_default (rb_Tier b) backendTierCloud
  | None, None => rb_Tier b
  end.

Lemma compiledTier_known (b : RouterBackend) :
  rb_Tier b ∈ [EmptyString; backendTierLocal; backendTierCloud] ->
  is_set (rb_InferenceServiceRef b) = negb (is_set (rb_External b)) ->
  compiledTier b = "local" \/ compiledTier b = "cloud".
Proof.
  intros Ht Hk. rewrite !elem_of_cons, elem_of_nil in Ht. unfold compiledTier.
  destruct (rb_InferenceServiceRef b), (rb_External b); try done; destruct Ht as [->|[->|[->|[]]]]; auto.
Qed.

Section Facts.
Context (C : Cluster) (url : string) (v : string -> bool) (ns : string).

(** The address a backend resolves to. *)
Definition resolvedAddress (b : RouterBackend) : string :=
  match rb_InferenceServiceRef b, rb_External b with
  | Some name, _ => match getInferenceService C ns name with Found isvc => serviceURL isvc | _ => EmptyString end
  | None, Some p => (resolveExternalURL url p).1
  | None, None => EmptyString
  end.

(** What the compiled form of a backend has to do with its specification. *)
Record compiled_from (b : RouterBackend) (w : Backend) : Prop := {
  cf_name : be_Name w = rb_Name b;
  cf_tier : be_Tier w = compiledTier b;
  cf_address : be_Address w = resolvedAddress b;
  cf_endpoints : be_Endpoints w = [];
  cf_service : be_InferenceService w = default EmptyString (rb_InferenceServiceRef b);
  cf_cost : be_CostPerMillionTokens w = translateTokenCost (rb_CostPerMillionTokens b);
  cf_source : match be_EndpointSource w with
              | None => True
              | Some s => exists name isvc, rb_InferenceServiceRef b = Some name /\ getInferenceService C ns name = Found isvc /\
                  es_Namespace s = is_Namespace isvc /\ es_Service s = sanitizeDNSName (is_Name isvc) /\ es_Port s = servicePort isvc
              end;
  cf_balancing : be_Balancing w = None \/
      exists name m, rb_InferenceServiceRef b = Some name /\ compileBalancing C ns name (rb_Balancing b) = Ok (be_Balancing w, m);
  cf_metrics : be_Metrics w = None \/ be_Metrics w = Some vllmMetricsProfile;
}.

Lemma compileBalancing_metrics (name : string) (b : option BackendBalancing) bal m :
  compileBalancing C ns name b = Ok (bal, m) -> m = None \/ m = Some vllmMetricsProfile.
Proof. unfold compileBalancing. repeat case_match; intros [= <- <-]; auto. Qed.

Lemma resolveLocal_from (b : RouterBackend) (name : string) (w : Backend) (s : BackendStatus) :
  rb_InferenceServiceRef b = Some name -> resolveLocal C ns b name = Ok (w, s) -> compiled_from b w /\ bs_Name s = rb_Name b.
Proof.
  intros Hn. unfold resolveLocal. rewrite bind_Ok. intros ([[[[[addr source] bal] metrics] healthy] msg] & H1 & H2).
  destruct (match resolveBackendPool C ns name with None => _ | Some p => _ end) as [pool poolMsg].
  injection H2 as <- <-. split; [|done].
  assert (Hn' : resolvedAddress b = match getInferenceService C ns name with Found isvc => serviceURL isvc | _ => EmptyString end)
    by (unfold resolvedAddress; by rewrite Hn).
  assert (Ht : compiledTier b = or_default (rb_Tier b) backendTierLocal) by (unfold compiledTier; by rewrite Hn).
  revert H1. case_bool_decide.
  - destruct (resolveInferenceServiceEndpoints C ns name) as [[[endpoints source'] svcAddr] msg'] eqn:E.
    rewrite bind_Ok. intros ([bal' metrics'] & Hb & [= <- <- <- <- <- <-]). unfold resolveInferenceServiceEndpoints in E.
    apply compileBalancing_metrics in Hb as Hm. revert E.
    repeat case_match; intros [= <- <- <- <-]; split; simpl; rewrite ?Ht, ?Hn', ?Hn; eauto 10.
  - unfold resolveInferenceServiceAddress.
    repeat case_match; intros [= <- <- <- <- <- <-]; split; simpl; rewrite ?Ht, ?Hn', ?Hn; simplify_eq; auto.
Qed.

Lemma resolveBackend_from (b : RouterBackend) (w : Backend) (s : BackendStatus) :
  resolveBackend C url ns b = Ok (w, s) -> compiled_from b w /\ bs_Name s = rb_Name b.
Proof.
  unfold resolveBackend. destruct (rb_InferenceServiceRef b) as [name|] eqn:En; [by apply resolveLocal_from|].
  destruct (rb_External b) as [p|] eqn:Ep.
  - unfold resolveExternal. destruct (resolveExternalURL url p) as [addr msg] eqn:Eu.
    repeat case_match; intros [= <- <-]; (split; [|done]); split; simpl; auto;
      unfold compiledTier, resolvedAddress; by rewrite En, ?Ep, ?Eu.
  - intros [= <- <-]. split; [|done]. split; simpl; auto; unfold compiledTier, resolvedAddress; by rewrite En, ?Ep.
Qed.

Lemma compileBackend_from (keyed : list string) (b : RouterBackend) (w : Backend) (s : BackendStatus) (pk : bool) :
  compileBackend C url ns keyed b = Ok (w, s, pk) -> compiled_from b w /\ bs_Name s = rb_Name b.
Proof.
  unfold compileBackend. rewrite bind_Ok. intros ([w' s'] & Hr & H). apply resolveBackend_from in Hr as [Hf Hs].
  revert H. case_bool_decide; [by intros [= <- <- _]|].
  destruct (be_Pool w') as [pool|], (rb_InferenceServiceRef b) as [name|]; try by intros [= <- <- _].
  rewrite bind_Ok. intros (sib & _ & H'). revert H'. case_match; by intros [= <- <- _].
Qed.

Lemma compileBackends_from (keyed : list string) (bs : list RouterBackend) rs :
  compileBackends C url ns keyed bs = Ok rs -> Forall2 compiled_from bs (map (fun r => r.1.1) rs).
Proof.
  revert rs. induction bs as [|b bs IH]; intros rs; simpl; [by intros [= <-]; constructor|].
  rewrite bind_Ok. intros ([[w s] pk] & Hb & H). rewrite bind_Ok in H. destruct H as (rs' & Hrs & [= <-]).
  constructor; [by eapply compileBackend_from|auto].
Qed.

(** The parts of a compiled configuration. *)
Lemma compileRouterConfig_Ok (spec : ModelRouterSpec) (cc : compiledConfig) :
  compileRouterConfig C url v ns spec = Ok cc ->
  ValidConfig v (cc_Config cc) /\ Forall2 compiled_from (spec_Backends spec) (cfg_Backends (cc_Config cc)) /\
  cfg_Rules (cc_Config cc) = map translateRule (spec_Rules spec) /\
  cfg_Policy (cc_Config cc) = translatePolicy (spec_Policy spec).
Proof.
  unfold compileRouterConfig. rewrite bind_Ok. intros (keyed & _ & H). rewrite bind_Ok in H. destruct H as (rs & Hrs & H).
  apply compileBackends_from in Hrs. cbv zeta in H. destruct (Validate v _) as [[]|] eqn:E; [|done].
  apply Validate_Ok in E. by injection H as <-.
Qed.

(** ** Totality without lookup failures *)

Section Total.
Context (Hlook : forall name, getInferenceService C ns name ≠ LookupFailed).

Lemma requiresKey_total (name : string) : exists k, requiresKey C ns name = Ok k.
Proof. unfold requiresKey. specialize (Hlook name). case_match; eauto. done. Qed.

Lemma keyedBackendNames_total (bs : list RouterBackend) : exists l, keyedBackendNames C ns bs = Ok l.
Proof.
  induction bs as [|b bs [l IH]]; simpl; [eauto|]. destruct (rb_InferenceServiceRef b) as [name|]; [|eauto].
  destruct (requiresKey_total name) as [k ->]. simpl. rewrite IH. simpl. eauto.
Qed.

Lemma keyedMemberNames_total (self : string) (ms : list string) : exists l, keyedMemberNames C ns self ms = Ok l.
Proof.
  induction ms as [|m ms [l IH]]; simpl; [eauto|]. case_bool_decide; [eauto|].
  destruct (requiresKey_total m) as [k ->]. simpl. rewrite IH. simpl. eauto.
Qed.

Lemma compileBalancing_total (name : string) (b : option BackendBalancing) : exists r, compileBalancing C ns name b = Ok r.
Proof. unfold compileBalancing. specialize (Hlook name). repeat case_match; eauto. done. Qed.

Lemma resolveBackend_total (b : RouterBackend) : exists r, resolveBackend C url ns b = Ok r.
Proof.
  unfold resolveBackend. repeat case_match; eauto. unfold resolveLocal.
  match goal with |- context [?x ≫= _] => assert (exists r, x = Ok r) as [r ->] end.
  { case_bool_decide.
    - destruct (resolveInferenceServiceEndpoints _ _ _) as [[[? ?] ?] ?].
      destruct (compileBalancing_total s (rb_Balancing b)) as [[bal m] ->]. simpl. eauto.
    - destruct (resolveInferenceServiceAddress _ _ _). eauto. }
  simpl. destruct r as [[[[[? ?] ?] ?] ?] ?]. case_match. eauto.
Qed.

Lemma compileBackends_total (keyed : list string) (bs : list RouterBackend) : exists rs, compileBackends C url ns keyed bs = Ok rs.
Proof.
  induction bs as [|b bs [rs IH]]; simpl; [eauto|].
  assert (exists r, compileBackend C url ns keyed b = Ok r) as [r ->].
  { unfold compileBackend. destruct (resolveBackend_total b) as [[w s] ->]. simpl. repeat case_match; eauto.
    unfold keyedPoolMembers. destruct (keyedMemberNames_total s0 (bp_Members b0)) as [l ->]. simpl. case_match; eauto. }
  simpl. rewrite IH. simpl. eauto.
Qed.

(** The compilation then fails only by [Validate]. *)
Lemma compileRouterConfig_total (spec : ModelRouterSpec) : exists wires,
  Forall2 compiled_from (spec_Backends spec) wires /\
  let out := {| cfg_Backends := wires; cfg_Rules := map translateRule (spec_Rules spec);
                cfg_DefaultRoute := spec_DefaultRoute spec; cfg_DefaultRouteStrategy := spec_DefaultRouteStrategy spec;
                cfg_Policy := translatePolicy (spec_Policy spec) |} in
  (ValidConfig v out <-> exists cc, compileRouterConfig C url v ns spec = Ok cc).
Proof.
  unfold compileRouterConfig, keyedBackends. destruct (keyedBackendNames_total (spec_Backends spec)) as [k ->]. simpl.
  destruct (compileBackends_total (SortStrings k) (spec_Backends spec)) as [rs Hrs]. rewrite Hrs. simpl.
  apply compileBackends_from in Hrs. eexists. split; [exact Hrs|]. rewrite <- Validate_Ok.
  destruct (Validate v _) as [[]|]; split; try done; eauto. by intros [? [=]].
Qed.

End Total.

(** ** Validity of the compiled configuration *)

Section Valid.
Context `{!ClusterLaws C}.
(** Header names that match the token pattern of the schema are valid. *)
Context (Htoken : forall h, h ≠ EmptyString -> all_token_bytes h = true -> v h = true).

Lemma servicePort_pos (isvc : InferenceService) : 0 < servicePort isvc.
Proof. unfold servicePort. case_if; to_prop; lia. Qed.

Lemma schema_balancing_ok (name : string) (b : BackendBalancing) (bal : Balancing) m :
  schema_balancing b = true -> compileBalancing C ns name (Some b) = Ok (Some bal, m) -> balancing_ok v bal.
Proof.
  unfold schema_balancing, one_of. intros Hs H. to_prop.
  assert (Hh : forall sa, bb_SessionAffinity b = Some sa ->
    (default 0 (sa_IdleTimeout sa) = 0 \/ minSessionIdleTimeout <= default 0 (sa_IdleTimeout sa) <= maxSessionIdleTimeout) /\
    Forall (fun h => (String.length h <= maxSessionHeaderNameLen)%nat /\ v h = true) (sa_Headers sa)).
  { intros sa E. rewrite E in *. unfold schema_affinity in *. to_prop. split.
    - destruct (sa_IdleTimeout sa); simpl; [|auto]. to_prop. right. unfold minSessionIdleTimeout, maxSessionIdleTimeout. lia.
    - rewrite Forall_forall. intros h Hin. apply list_elem_of_In in Hin.
      match goal with F : forallb _ _ = true |- _ => rewrite forallb_forall in F; specialize (F h Hin); unfold schema_header in F end.
      to_prop. split; [by apply Nat.leb_le|auto]. }
  assert (bal_Mode bal = bb_Mode b /\
    (bal_SessionHeaders bal = [] /\ bal_SessionIdleTimeout bal = 0 \/
     exists sa, bb_SessionAffinity b = Some sa /\ bal_SessionHeaders bal = sa_Headers sa /\
       bal_SessionIdleTimeout bal = default 0 (sa_IdleTimeout sa))) as [Hm Hc].
  { revert H. unfold compileBalancing. repeat case_match; intros [= <- _]; simpl; eauto 10. }
  split; [by rewrite Hm|]. destruct Hc as [[-> ->]|(sa & E & -> & ->)]; [auto|]. by apply Hh.
Qed.

Lemma wire_backend_ok (b : RouterBackend) (w : Backend) :
  schema_backend b = true -> spec_backend_ok b -> compiled_from b w ->
  backend_ok v w <-> resolvedAddress b ≠ EmptyString.
Proof.
  intros Hs [Hk Ht Hn _] [Fn Ft Fa Fe _ _ Fs Fb Fm]. unfold schema_backend, one_of in Hs. to_prop. split.
  - intros [_ _ [?|?] _ _ _]; [congruence|done].
  - intros Ha. split; [congruence| |left; congruence| | |].
    + rewrite Ft. by apply compiledTier_known.
    + destruct (be_EndpointSource w) as [s|]; [|done]. destruct Fs as (name & isvc & _ & Hg & E1 & E2 & E3).
      apply cl_found in Hg as (<- & <- & Hname & Hns). simpl. unfold source_ok. rewrite E1, E2, E3. split_and!; auto.
      * unfold sanitizeDNSName. by rewrite ReplaceByte_empty.
      * apply servicePort_pos.
    + destruct Fb as [->|(name & m & _ & Hb)]; [done|]. destruct (be_Balancing w) as [bal|]; [|done].
      destruct (rb_Balancing b) as [bb|]; [|done]. to_prop. by apply (schema_balancing_ok name bb bal m).
    + destruct Fm as [->| ->]; done.
Qed.

Lemma wire_rule_ok (spec : ModelRouterSpec) (r : RouterRule) :
  schema_rule r = true -> spec_rule_ok spec r -> rule_ok (rb_Name <$> spec_Backends spec) (translateRule r).
Proof.
  unfold schema_rule, one_of. intros Hs [H1 H2 _ _]. to_prop. split; simpl; auto.
  intros E. match goal with L : is_label (rl_Name r) = true |- _ => by rewrite E in L end.
Qed.

(** A budget with a cap that can be reached. *)
Definition effective_cap (b : BudgetSpec) : Prop :=
  bg_MaxTokens b ≠ None \/ fle (parseUSD (bg_MaxUSD b)) fzero = false.

Lemma wire_budget_ok (spec : ModelRouterSpec) (wires : list Backend) (b : BudgetSpec) :
  schema_budget b = true -> spec_budget_ok spec b -> Forall2 compiled_from (spec_Backends spec) wires ->
  budget_ok wires (rl_Name <$> spec_Rules spec) (translateBudget b) <-> effective_cap b.
Proof.
  unfold schema_budget, one_of. intros Hs [Hr Hc Hp] Hw. to_prop.
  assert (Ht : bg_MaxTokens b ≠ None <-> 0 < default 0 (bg_MaxTokens b)).
  { destruct (bg_MaxTokens b); simpl; to_prop; [split; [lia|done]|split; [done|lia]]. }
  unfold effective_cap. rewrite Ht. split; [by intros []|]. intros Hcap. split; simpl; auto.
  - intros E. match goal with L : is_label (bg_Name b) = true |- _ => by rewrite E in L end.
  - match goal with S : bg_Scope b ∈ _ |- _ => rewrite !elem_of_cons, elem_of_nil in S;
      destruct S as [S|[S|[S|[]]]]; rewrite S; auto end.
  - case_if; to_prop; [unfold hour, minute, second; lia|done].
  - intros Hu. assert (capsUSD b = true) as Hcu.
    { unfold capsUSD. apply negb_true_iff, bool_decide_eq_false. intros E. unfold parseUSD in Hu. by rewrite E in Hu. }
    specialize (Hp Hcu). clear -Hp Hw. induction Hw as [|sb w sbs ws Hf Hw IH]; [constructor|].
    apply Forall_cons in Hp as [? ?]. constructor; [|auto]. by rewrite (wire_pricesTokens _ _ (cf_cost _ _ Hf)).
Qed.

Lemma Forall2_names (spec : ModelRouterSpec) (wires : list Backend) :
  Forall2 compiled_from (spec_Backends spec) wires -> be_Name <$> wires = rb_Name <$> spec_Backends spec.
Proof. induction 1 as [|b w bs ws Hf _ IH]; [done|]. simpl. f_equal; [apply (cf_name _ _ Hf)|done]. Qed.

Lemma translatePolicy_budgets (spec : ModelRouterSpec) :
  po_Budgets (translatePolicy (spec_Policy spec)) = map translateBudget (spec_Budgets spec).
Proof. unfold translatePolicy, spec_Budgets. by destruct (spec_Policy spec). Qed.

Lemma schema_parts (spec : ModelRouterSpec) : schema_ok spec = true ->
  spec_Backends spec ≠ [] /\ Forall (fun b => schema_backend b = true) (spec_Backends spec) /\
  Forall (fun r => schema_rule r = true) (spec_Rules spec) /\
  spec_DefaultRouteStrategy spec ∈ [EmptyString; DefaultRouteStrategyStatic; DefaultRouteStrategyBackendNameMatch] /\
  Forall (fun b => schema_budget b = true) (spec_Budgets spec).
Proof.
  unfold schema_ok, one_of, spec_Budgets. intros H. to_prop.
  repeat match goal with F : forallb _ _ = true |- _ => rewrite forallb_forall in F end.
  split_and!; auto; try (rewrite Forall_forall; setoid_rewrite list_elem_of_In; done).
  destruct (spec_Policy spec) as [p|]; [|done]. unfold schema_policy in *. to_prop.
  rewrite Forall_forall. setoid_rewrite list_elem_of_In. by apply forallb_forall.
Qed.

Lemma wire_config_valid (spec : ModelRouterSpec) (wires : list Backend) :
  schema_ok spec = true -> SpecValid spec -> Forall2 compiled_from (spec_Backends spec) wires ->
  ValidConfig v {| cfg_Backends := wires; cfg_Rules := map translateRule (spec_Rules spec);
                   cfg_DefaultRoute := spec_DefaultRoute spec; cfg_DefaultRouteStrategy := spec_DefaultRouteStrategy spec;
                   cfg_Policy := translatePolicy (spec_Policy spec) |} <->
  Forall (fun b => resolvedAddress b ≠ EmptyString) (spec_Backends spec) /\
  Forall effective_cap (spec_Budgets spec) /\ NoDup (bg_Name <$> spec_Budgets spec).
Proof.
  intros (Hne & Hsb & Hsr & Hst & Hsu)%schema_parts [Hb Hnd Hd Hr Hu] Hw.
  pose proof (Forall2_names _ _ Hw) as Hnames.
  assert (HB : Forall (backend_ok v) wires <-> Forall (fun b => resolvedAddress b ≠ EmptyString) (spec_Backends spec)).
  { clear -Hsb Hb Hw Htoken ClusterLaws0. induction Hw as [|b w bs ws Hf Hw IH]; [by rewrite !Forall_nil|].
    apply Forall_cons in Hsb as [? ?], Hb as [? ?]. rewrite !Forall_cons, IH by done.
    by rewrite (wire_backend_ok b w). }
  assert (Hrn : ru_Name <$> map translateRule (spec_Rules spec) = rl_Name <$> spec_Rules spec).
  { rewrite <- list_fmap_compose. done. }
  assert (HU : Forall (budget_ok wires (rl_Name <$> spec_Rules spec)) (map translateBudget (spec_Budgets spec)) <->
               Forall effective_cap (spec_Budgets spec)).
  { rewrite !Forall_forall. setoid_rewrite list_elem_of_In. setoid_rewrite in_map_iff. setoid_rewrite <- list_elem_of_In.
    rewrite Forall_forall in Hsu, Hu. split.
    - intros H b Hin. apply (wire_budget_ok spec wires b); eauto.
    - intros H ? (b & <- & Hin). apply (wire_budget_ok spec wires b); eauto. }
  assert (Hbn : bu_Name <$> map translateBudget (spec_Budgets spec) = bg_Name <$> spec_Budgets spec).
  { rewrite <- list_fmap_compose. done. }
  split.
  - intros [_ H2 _ _ _ _ H7 H8]; simpl in *. rewrite translatePolicy_budgets in H7, H8.
    rewrite Hrn in H7. rewrite Hbn in H8. split_and!; tauto.
  - intros (H1 & H2 & H3). split; simpl; rewrite ?Hnames, ?translatePolicy_budgets, ?Hrn, ?Hbn; try tauto.
    + intros ->. by inversion Hw.
    + apply (Forall_fmap translateRule). pose proof (proj2 (Forall_and _ _) (conj Hsr Hr)) as HR. eapply Forall_impl; [exact HR|].
      intros r [? ?]. by apply wire_rule_ok.
Qed.

Lemma compile_Ok_iff (spec : ModelRouterSpec) :
  (forall name, getInferenceService C ns name ≠ LookupFailed) ->
  schema_ok spec = true -> validateModelRouter spec = [] ->
  (exists cc, compileRouterConfig C url v ns spec = Ok cc) <->
  Forall (fun b => resolvedAddress b ≠ EmptyString) (spec_Backends spec) /\
  Forall effective_cap (spec_Budgets spec) /\ NoDup (bg_Name <$> spec_Budgets spec).
Proof.
  intros Hl Hs Hv%validateModelRouter_nil. destruct (compileRouterConfig_total Hl spec) as (wires & Hw & <-).
  by apply wire_config_valid.
Qed.

End Valid.

(** ** The gates on sensitive data *)

Lemma compiled_SensitiveSet (spec : ModelRouterSpec) (cc : compiledConfig) :
  compileRouterConfig C url v ns spec = Ok cc -> SensitiveSet (cc_Config cc) = sensitiveClassificationSet (spec_Policy spec).
Proof.
  intros (_ & _ & _ & Hp)%compileRouterConfig_Ok. unfold SensitiveSet. rewrite Hp. unfold sensitiveClassificationSet.
  destruct (spec_Policy spec) as [[? [c|] ?]|]; done.
Qed.

Lemma compiled_backend (spec : ModelRouterSpec) (cc : compiledConfig) (b : RouterBackend) :
  compileRouterConfig C url v ns spec = Ok cc -> b ∈ spec_Backends spec ->
  exists w, Matcher_BackendByName (NewMatcher (cc_Config cc)) (rb_Name b) = Some w /\ compiled_from b w.
Proof.
  intros (Hval & Hw & _)%compileRouterConfig_Ok Hb.
  apply list_elem_of_lookup in Hb as [i Hi]. destruct (Forall2_lookup_l _ _ _ _ _ Hw Hi) as (w & Hwi & Hf).
  exists w. split; [|done]. rewrite <- (cf_name _ _ Hf), Matcher_BackendByName_scan by apply (vc_unique _ _ Hval).
  apply BackendByName_elem; [apply (vc_unique _ _ Hval)|]. by apply list_elem_of_lookup_2 in Hwi.
Qed.

End Facts.

(** ** A concrete router

    One in-cluster model and one external provider, with a rule for health data. *)
Module RouterSample.

Definition cluster : Cluster :=
  {| getInferenceService := fun ns n =>
       if bool_decide (ns = "prod") && bool_decide (n = "llama.v3") then
         Found {| is_Name := n; is_Namespace := ns; is_Runtime := "vllm"; is_ModelRef := "m"; is_EndpointPort := 0;
                  is_APIKeySecretRef := None; is_ExtraArgs := []; is_Command := []; is_Args := []; is_Env := [] |}
       else NotFound;
     getModel := fun _ _ => NotFound;
     getSecret := fun _ _ => NotFound;
     listEndpointSlices := fun _ _ => Some [[{| ept_Ready := None; ept_Addresses := ["10.0.0.1"] |}]];
     listModelPools := fun _ => Some [] |}.

#[global] Instance cluster_laws : ClusterLaws cluster.
Proof.
  split. intros ns n isvc. simpl. case_if; [|done]. to_prop. subst. intros [= <-]. done.
Qed.

Definition token (h : string) : bool := negb (is_empty h) && all_token_bytes h.

Lemma token_ok (h : string) : h ≠ EmptyString -> all_token_bytes h = true -> token h = true.
Proof. intros H1 H2. unfold token. rewrite H2. by rewrite (proj2 (is_empty_false h) H1). Qed.

Definition local : RouterBackend :=
  {| rb_Name := "llama"; rb_DisplayName := EmptyString; rb_InferenceServiceRef := Some "llama.v3"; rb_External := None;
     rb_Tier := "local"; rb_Resolution := "endpoint";
     rb_Balancing := Some {| bb_Mode := "LoadAware";
                             bb_SessionAffinity := Some {| sa_Headers := ["x-session-id"]; sa_IdleTimeout := None |} |};
     rb_Capabilities := []; rb_Weight := None; rb_Timeout := None;
     rb_CostPerMillionTokens := Some {| st_PromptUSD := "0.1"; st_CompletionUSD := EmptyString |} |}.

(** A provider with no address of its own, priced, with the tier given. *)
Definition external (tier : string) : RouterBackend :=
  {| rb_Name := "claude"; rb_DisplayName := EmptyString; rb_InferenceServiceRef := None;
     rb_External := Some {| ex_Provider := "anthropic"; ex_URL := EmptyString; ex_Model := "claude-opus-4";
                            ex_CredentialsSecretRef := None |};
     rb_Tier := tier; rb_Resolution := "service"; rb_Balancing := None; rb_Capabilities := []; rb_Weight := None;
     rb_CostPerMillionTokens := Some {| st_PromptUSD := "15"; st_CompletionUSD := "75.0" |}; rb_Timeout := None |}.

(** A fail-closed rule for health data that routes to [backends]. *)
Definition rule (backends : list string) : RouterRule :=
  {| rl_Name := "phi";
     rl_Match := Some {| sm_DataClassification := ["phi"]; sm_TaskComplexity := EmptyString; sm_RequiredCapabilities := [];
                         sm_Headers := ∅; sm_Models := [] |};
     rl_Route := {| sr_Backends := backends; sr_Strategy := EmptyString; sr_PoolActivation := EmptyString |};
     rl_FailClosed := true; rl_Timeout := Some (30 * second) |}.

Definition spec (tier : string) (backends : list string) : ModelRouterSpec :=
  {| spec_Backends := [local; external tier]; spec_Rules := [rule backends]; spec_DefaultRoute := "llama";
     spec_DefaultRouteStrategy := EmptyString;
     spec_Policy := Some {| pol_Budgets := [{| bg_Name := "daily"; bg_Scope := "router"; bg_RuleName := EmptyString;
                                               bg_HeaderKey := EmptyString; bg_WindowSeconds := 86400;
                                               bg_MaxTokens := None; bg_MaxUSD := "2.50" |}];
                            pol_Classification := None; pol_AuditLog := None |} |}.

(** A cluster whose router has no such InferenceService fails to compile. *)
Example missing_service_fails :
  compileRouterConfig cluster EmptyString token "staging" (spec "cloud" ["llama"]) = Err (ErrInvalidConfig (ErrBackendAddress 0 "llama")).
Proof. vm_compute. reflexivity. Qed.

End RouterSample.

Lemma lookup_never_fails (ns name : string) : getInferenceService RouterSample.cluster ns name ≠ LookupFailed.
Proof. simpl. by case_if. Qed.

(** ** Properties *)



(** A backend that is neither external nor cloud is compiled to a Service of the
    cluster. *)
Lemma local_backend_in_cluster (C : Cluster) (url : string) (v : string -> bool) (ns : string) (spec : ModelRouterSpec)
    (cc : compiledConfig) (b : RouterBackend) :
  SpecValid spec -> compileRouterConfig C url v ns spec = Ok cc -> b ∈ spec_Backends spec ->
  rb_Tier b ≠ backendTierCloud -> (rb_External b ≠ None -> rb_Tier b = backendTierCloud) ->
  exists w name isvc, Matcher_BackendByName (NewMatcher (cc_Config cc)) (rb_Name b) = Some w /\
    getInferenceService C ns name = Found isvc /\ be_InferenceService w = name /\ be_Tier w = "local" /\
    be_Address w = serviceURL isvc.
Proof.
  intros Hv Hc Hb Ht He. destruct (compiled_backend _ _ _ _ _ _ _ Hc Hb) as (w & Hw & [_ Ft Fa Fe Fs _ _ _ _]).
  pose proof (compileRouterConfig_Ok _ _ _ _ _ _ Hc) as (Hval & _ & _ & _).
  assert (Hok : backend_ok v w).
  { rewrite Matcher_BackendByName_scan in Hw by apply (vc_unique _ _ Hval).
    apply BackendByName_Some in Hw as [Hw _]. apply (proj1 (Forall_forall _ _) (vc_backends _ _ Hval) w Hw). }
  pose proof (proj1 (Forall_forall _ _) (sv_backends _ Hv) b Hb) as [Hk _ _ _].
  destruct (rb_External b) as [p|] eqn:Ex; [destruct Ht; auto|].
  destruct (rb_InferenceServiceRef b) as [name|] eqn:Er; [|done].
  unfold compiledTier, resolvedAddress in *. rewrite Er in *. simpl in Fs.
  destruct (bo_addr _ _ Hok) as [Ha|Ha]; [|done].
  destruct (getInferenceService C ns name) as [isvc| |] eqn:Eg; [|congruence..].
  exists w, name, isvc. split_and!; auto. destruct (bo_tier _ _ Hok) as [->|E]; [done|].
  rewrite Ft in E. unfold or_default in E. case_bool_decide; done.
Qed.

(** A decision made by a rule: the rule is one of the configuration's and accepts the
    request. *)
Lemma Match_rule (c : Config) (f : RequestFeatures) (r : Rule) :
  NoDup (be_Name <$> cfg_Backends c) -> mr_Rule (Match (NewMatcher c) f) = Some r ->
  r ∈ cfg_Rules c /\ rule_accepts c r f /\ Match (NewMatcher c) f = rule_result r.
Proof.
  intros Hnd Hr. destruct (proj1 (Match_first c f _ Hnd) eq_refl) as [(pre & r' & post & Heq & Ha & _ & Hd)|[_ Hd]].
  - rewrite Hd in Hr |- *. injection Hr as ->. rewrite Heq. split_and!; [set_solver|done|done].
  - rewrite Hd in Hr. unfold matchDefault in Hr. by repeat case_match.
Qed.

(** The specification's rule behind a compiled rule that accepts a sensitive class. *)
Lemma sensitive_rule_source (C : Cluster) (url : string) (v : string -> bool) (ns : string) (spec : ModelRouterSpec)
    (cc : compiledConfig) (f : RequestFeatures) (r : Rule) :
  SpecValid spec -> compileRouterConfig C url v ns spec = Ok cc -> r ∈ cfg_Rules (cc_Config cc) ->
  rule_accepts (cc_Config cc) r f -> rm_DataClassification (ru_Match r) ≠ [] ->
  rf_Classification f ∈ SensitiveSet (cc_Config cc) ->
  exists r', r = translateRule r' /\ spec_rule_ok spec r' /\ rl_FailClosed r' = true /\
    forall b, b ∈ spec_Backends spec -> rb_Name b ∈ sr_Backends (rl_Route r') -> rb_Tier b ≠ backendTierCloud.
Proof.
  intros Hv Hc Hr Ha Hne Hs. rewrite (compiled_SensitiveSet _ _ _ _ _ _ Hc) in Hs.
  apply compileRouterConfig_Ok in Hc as (_ & _ & Hrules & _). rewrite Hrules in Hr.
  apply list_elem_of_In, in_map_iff in Hr as (r' & <- & Hin). apply list_elem_of_In in Hin.
  pose proof (proj1 (Forall_forall _ _) (sv_rules _ Hv) r' Hin) as Hok.
  destruct (ra_class _ _ _ Ha) as [E|Hcl]; [done|]. simpl in *.
  destruct (rl_Match r') as [m|] eqn:Em; [|done].
  destruct (sro_sensitive _ _ Hok m _ Em Hcl Hs) as [Hf Hb]. eauto 10.
Qed.


(** What a request of class [class] for [model] looks like to the matcher. *)
Definition class_request (class model : string) : RequestFeatures :=
  {| rf_Model := model; rf_Classification := class; rf_TaskComplexity := EmptyString; rf_Headers := ∅ |}.


(** An external backend declared without a tier passes both gates on sensitive
    data.  The API server's default makes it [local], so validation accepts it under
    a fail-closed rule for sensitive classes, and it is compiled as [local] at its
    provider's address: a fail-closed decision that names it alone is let through by
    the proxy's gate whatever the request's class. *)
Lemma omitted_tier_passes_gate (C : Cluster) (url : string) (v : string -> bool) (ns : string) (spec : ModelRouterSpec)
    (cc : compiledConfig) (b : RouterBackend) (p : ExternalProvider) (f : RequestFeatures) (dec : MatchResult) :
  let m := NewMatcher (cc_Config cc) in
  b ∈ spec_Backends spec -> rb_External b = Some p -> rb_InferenceServiceRef b = None -> rb_Tier b = EmptyString ->
  compileRouterConfig C url v ns (default_spec spec) = Ok cc ->
  mr_Backends dec = [rb_Name b] ->
  enforceFailClosed (cc_Config cc) m f dec = Ok tt /\
  exists w, Matcher_BackendByName m (rb_Name b) = Some w /\ be_Tier w = "local" /\
    be_Address w = (resolveExternalURL url p).1.
Proof.
  intros m Hb He Hr Ht Hc Hd.
  destruct (compiled_backend C url v ns (default_spec spec) cc (default_backend b) Hc) as (w & Hw & [_ Ft Fa _ _ _ _ _ _]).
  { simpl. by apply list_elem_of_fmap_2. }
  unfold compiledTier, resolvedAddress in Ft, Fa. simpl in *. rewrite Hr, He in Ft, Fa.
  assert (Htier : be_Tier w = "local") by (rewrite Ft, Ht; done).
  split; [|exists w; by rewrite <- Fa]. unfold enforceFailClosed. repeat case_match; try done.
  rewrite Hd. apply checkLocal_Ok. repeat constructor. by exists w.
Qed.
