(* ===== verification/Gguf.v ===== *)
(** * The GGUF metadata reader (pkg/gguf/parser.go)

    The header, metadata and tensor descriptions at the start of a model file.  The
    parser runs over any [Reader], the interface of an [io.Reader] through
    [io.ReadFull]: it gives exactly the bytes asked for or an error.  A parser state
    is a reader and the number of slots and bytes that were allocated up front from
    counts and lengths in the file, which is what the limits of the source are
    about.  A float is kept as its bits.  Errors keep the sentinel and its numbers;
    the wrapping texts are left out.

    Values nest, so [readValueData] takes fuel; [Parse] gives it one more than the
    bytes that are left, and running out is an error of its own. *)

From stdpp Require Import base strings list gmap.
From Stdlib Require Import ZArith Lia Bool Ascii.
From S2P Require Import Prelude GoStrings.

(** ** Bytes *)

(** The first [n] bytes and the rest. *)
Fixpoint split_bytes (n : nat) (s : string) : option (string * string) :=
  match n, s with
  | O, _ => Some (EmptyString, s)
  | S n', String c s' => match split_bytes n' s' with
                         | Some (a, b) => Some (String c a, b)
                         | None => None
                         end
  | S _, EmptyString => None
  end.

(** [binary.LittleEndian]. *)
Fixpoint le_decode (s : string) : Z :=
  match s with
  | EmptyString => 0
  | String c s' => byte_of c + 256 * le_decode s'
  end.

Fixpoint le_encode (n : nat) (z : Z) : string :=
  match n with
  | O => EmptyString
  | S n' => String (ascii_of_N (Z.to_N (z mod 256))) (le_encode n' (z / 256))
  end.

(** The two's complement value of [w] bits. *)
Definition signed (w z : Z) : Z := if z <? 2 ^ (w - 1) then z else z - 2 ^ w.

(** ** Readers *)

(** [readFull n r] is [io.ReadFull] into a buffer of [n] bytes; [rd_left] bounds
    what is still to be read. *)
Class Reader (R : Type) := {
  readFull : nat -> R -> option string * R;
  rd_left : R -> nat;
  rd_length : forall n r b r', readFull n r = (Some b, r') -> String.length b = n;
  rd_spent : forall n r b r', readFull n r = (Some b, r') -> (n + rd_left r' = rd_left r)%nat;
}.

(** A buffer. *)
Definition buffer_read (n : nat) (s : string) : option string * string :=
  match split_bytes n s with
  | Some (a, b) => (Some a, b)
  | None => (None, EmptyString)
  end.

(** ** Data *)

Definition ggufMagic : Z := 1179993927.
Definition maxStringLength : Z := 10 * 1024 * 1024.
Definition maxArrayCount : Z := 10000000.
Definition maxDimensions : Z := 16.
Definition maxPreallocCount : Z := 65536.

Inductive gguf_error :=
| ErrRead
| ErrInvalidMagic (magic : Z)
| ErrUnsupportedVersion (version : Z)
| ErrUnknownValueType (ty : Z)
| ErrSizeLimitExceeded (n limit : Z)
| OutOfFuel.

Inductive GGUFValue :=
| Uint8Val (z : Z)
| Int8Val (z : Z)
| Uint16Val (z : Z)
| Int16Val (z : Z)
| Uint32Val (z : Z)
| Int32Val (z : Z)
| Float32Val (bits : Z)
| BoolVal (b : bool)
| StringVal (s : string)
| ArrayVal (values : list GGUFValue)
| Uint64Val (z : Z)
| Int64Val (z : Z)
| Float64Val (bits : Z).

Definition valueTypeUint8 : Z := 0.
Definition valueTypeInt8 : Z := 1.
Definition valueTypeUint16 : Z := 2.
Definition valueTypeInt16 : Z := 3.
Definition valueTypeUint32 : Z := 4.
Definition valueTypeInt32 : Z := 5.
Definition valueTypeFloat32 : Z := 6.
Definition valueTypeBool : Z := 7.
Definition valueTypeString : Z := 8.
Definition valueTypeArray : Z := 9.
Definition valueTypeUint64 : Z := 10.
Definition valueTypeInt64 : Z := 11.
Definition valueTypeFloat64 : Z := 12.

Record GGUFHeader := {
  gh_Version : Z;
  gh_TensorCount : Z;
  gh_MetadataKVCount : Z;
}.

Record MetadataKV := {
  kv_Key : string;
  kv_Value : GGUFValue;
}.

Record TensorInfo := {
  ti_Name : string;
  ti_Dimensions : list Z;
  ti_Type : Z;
  ti_Offset : Z;
}.

Record GGUFFile := {
  gf_Header : GGUFHeader;
  gf_Metadata : list MetadataKV;
  gf_TensorInfo : list TensorInfo;
}.

(** A tensor's type is its number. *)
Definition ggmlTypeNames : list (Z * string) :=
  [(0, "F32"); (1, "F16"); (2, "Q4_0"); (3, "Q4_1"); (6, "Q5_0"); (7, "Q5_1"); (8, "Q8_0"); (9, "Q8_1");
   (10, "Q2_K"); (11, "Q3_K"); (12, "Q4_K"); (13, "Q5_K"); (14, "Q6_K"); (15, "Q8_K"); (16, "IQ2_XXS"); (17, "IQ2_XS");
   (18, "IQ3_XXS"); (19, "IQ1_S"); (20, "IQ4_NL"); (21, "IQ3_S"); (22, "IQ2_S"); (23, "IQ4_XS"); (24, "I8"); (25, "I16");
   (26, "I32"); (27, "I64"); (28, "F64"); (29, "IQ1_M"); (30, "BF16")].

Definition GGMLType_String (t : Z) : string :=
  match List.find (fun p => p.1 =? t) ggmlTypeNames with
  | Some (_, name) => name
  | None => "Unknown(" +:+ Itoa t +:+ ")"
  end.

(** ** The parser monad *)

Record pstate (R : Type) := {
  ps_reader : R;
  ps_alloc : Z;
}.
Arguments ps_reader {R} _.
Arguments ps_alloc {R} _.
Arguments Build_pstate {R} _ _.

Definition parser (R A : Type) : Type := pstate R -> result gguf_error A * pstate R.

#[export] Instance parser_ret (R : Type) : MRet (parser R) := fun A a st => (Ok a, st).
#[export] Instance parser_bind (R : Type) : MBind (parser R) := fun A B f p st =>
  match p st with
  | (Ok a, st') => f a st'
  | (Err e, st') => (Err e, st')
  end.

Definition fail {R A : Type} (e : gguf_error) : parser R A := fun st => (Err e, st).

(** Memory set aside before it is filled. *)
Definition alloc {R : Type} (n : Z) : parser R unit := fun st => (Ok tt, Build_pstate (ps_reader st) (ps_alloc st + n)).

Section Parser.
Context {R : Type} `{Reader R}.

Definition read_bytes (n : nat) : parser R string := fun st =>
  match readFull n (ps_reader st) with
  | (Some b, r) => (Ok b, Build_pstate r (ps_alloc st))
  | (None, r) => (Err ErrRead, Build_pstate r (ps_alloc st))
  end.

(** [binary.Read] of an unsigned integer of [n] bytes. *)
Definition read_uint (n : nat) : parser R Z := b ← read_bytes n; mret (le_decode b).

(** A loop that runs [p] while [count] lasts. *)
Fixpoint repeat_read {A} (fuel : nat) (p : parser R A) (count : Z) : parser R (list A) :=
  if count <=? 0 then mret []
  else match fuel with
       | O => fail OutOfFuel
       | S fuel' =>
           x ← p;
           xs ← repeat_read fuel' p (count - 1);
           mret (x :: xs)
       end.

Definition readString : parser R string :=
  len ← read_uint 8;
  if maxStringLength <? len then fail (ErrSizeLimitExceeded len maxStringLength)
  else
    _ ← alloc len;
    read_bytes (Z.to_nat len).

Definition parseHeader : parser R GGUFHeader :=
  magic ← read_uint 4;
  if negb (magic =? ggufMagic) then fail (ErrInvalidMagic magic)
  else
    version ← read_uint 4;
    if (version <? 2) || (3 <? version) then fail (ErrUnsupportedVersion version)
    else
      tensorCount ← read_uint 8;
      metadataKVCount ← read_uint 8;
      mret {| gh_Version := version; gh_TensorCount := tensorCount; gh_MetadataKVCount := metadataKVCount |}.

Fixpoint readValueData (fuel : nat) (valueType : Z) : parser R GGUFValue :=
  match fuel with
  | O => fail OutOfFuel
  | S fuel' =>
      if valueType =? valueTypeUint8 then v ← read_uint 1; mret (Uint8Val v)
      else if valueType =? valueTypeInt8 then v ← read_uint 1; mret (Int8Val (signed 8 v))
      else if valueType =? valueTypeUint16 then v ← read_uint 2; mret (Uint16Val v)
      else if valueType =? valueTypeInt16 then v ← read_uint 2; mret (Int16Val (signed 16 v))
      else if valueType =? valueTypeUint32 then v ← read_uint 4; mret (Uint32Val v)
      else if valueType =? valueTypeInt32 then v ← read_uint 4; mret (Int32Val (signed 32 v))
      else if valueType =? valueTypeFloat32 then v ← read_uint 4; mret (Float32Val v)
      else if valueType =? valueTypeBool then v ← read_uint 1; mret (BoolVal (negb (v =? 0)))
      else if valueType =? valueTypeString then s ← readString; mret (StringVal s)
      else if valueType =? valueTypeArray then
        elemType ← read_uint 4;
        count ← read_uint 8;
        if maxArrayCount <? count then fail (ErrSizeLimitExceeded count maxArrayCount)
        else
          _ ← alloc count;
          values ← repeat_read fuel' (readValueData fuel' elemType) count;
          mret (ArrayVal values)
      else if valueType =? valueTypeUint64 then v ← read_uint 8; mret (Uint64Val v)
      else if valueType =? valueTypeInt64 then v ← read_uint 8; mret (Int64Val (signed 64 v))
      else if valueType =? valueTypeFloat64 then v ← read_uint 8; mret (Float64Val v)
      else fail (ErrUnknownValueType valueType)
  end.

Definition readValue (fuel : nat) : parser R GGUFValue :=
  valueType ← read_uint 4;
  readValueData fuel valueType.

Definition parseMetadataKV (fuel : nat) : parser R MetadataKV :=
  key ← readString;
  value ← readValue fuel;
  mret {| kv_Key := key; kv_Value := value |}.

Definition parseTensorInfo (fuel : nat) : parser R TensorInfo :=
  name ← readString;
  nDimensions ← read_uint 4;
  if maxDimensions <? nDimensions then fail (ErrSizeLimitExceeded nDimensions maxDimensions)
  else
    _ ← alloc nDimensions;
    dimensions ← repeat_read fuel (read_uint 8) nDimensions;
    typeID ← read_uint 4;
    offset ← read_uint 8;
    mret {| ti_Name := name; ti_Dimensions := dimensions; ti_Type := typeID; ti_Offset := offset |}.

(** [Parse], with the fuel left open. *)
Definition parseFile (fuel : nat) : parser R GGUFFile :=
  header ← parseHeader;
  _ ← alloc (Z.min (gh_MetadataKVCount header) maxPreallocCount);
  metadata ← repeat_read fuel (parseMetadataKV fuel) (gh_MetadataKVCount header);
  _ ← alloc (Z.min (gh_TensorCount header) maxPreallocCount);
  tensorInfo ← repeat_read fuel (parseTensorInfo fuel) (gh_TensorCount header);
  mret {| gf_Header := header; gf_Metadata := metadata; gf_TensorInfo := tensorInfo |}.

Definition Parse (r : R) : result gguf_error GGUFFile * pstate R :=
  parseFile (S (rd_left r)) (Build_pstate r 0).

End Parser.

(** ** Accessors *)

Definition AsStr (v : GGUFValue) : option string := match v with StringVal s => Some s | _ => None end.

Definition AsU64 (v : GGUFValue) : option Z :=
  match v with
  | Uint64Val n | Uint32Val n | Uint16Val n | Uint8Val n => Some n
  | _ => None
  end.

Definition AsU32 (v : GGUFValue) : option Z := match v with Uint32Val n => Some n | _ => None end.
Definition AsBool (v : GGUFValue) : option bool := match v with BoolVal b => Some b | _ => None end.
Definition AsArray (v : GGUFValue) : option (list GGUFValue) := match v with ArrayVal l => Some l | _ => None end.

(** The first value with the key. *)
Definition GetMetadata (f : GGUFFile) (key : string) : option GGUFValue :=
  kv_Value <$> List.find (fun kv => bool_decide (kv_Key kv = key)) (gf_Metadata f).

(** A string under a fixed key, empty when it is absent or of another type. *)
Definition text_of (f : GGUFFile) (key : string) : string :=
  default EmptyString (GetMetadata f key ≫= AsStr).

Definition Architecture (f : GGUFFile) : string := text_of f "general.architecture".
Definition Name (f : GGUFFile) : string := text_of f "general.name".
Definition License (f : GGUFFile) : string := text_of f "general.license".

(** An unsigned integer under a key of the architecture, 0 when unknown. *)
Definition scalar_of (f : GGUFFile) (suffix : string) : Z :=
  if bool_decide (Architecture f = EmptyString) then 0
  else default 0 (GetMetadata f (Architecture f +:+ suffix) ≫= AsU64).

Definition ContextLength (f : GGUFFile) : Z := scalar_of f ".context_length".
Definition EmbeddingLength (f : GGUFFile) : Z := scalar_of f ".embedding_length".
Definition BlockCount (f : GGUFFile) : Z := scalar_of f ".block_count".
Definition HeadCount (f : GGUFFile) : Z := scalar_of f ".attention.head_count".
Definition attentionScalar (f : GGUFFile) (name : string) : Z := scalar_of f (".attention." +:+ name).
Definition HeadCountKV (f : GGUFFile) : Z := attentionScalar f "head_count_kv".
Definition KeyLength (f : GGUFFile) : Z := attentionScalar f "key_length".
Definition ValueLength (f : GGUFFile) : Z := attentionScalar f "value_length".

Definition fileTypeNames : list (Z * string) :=
  [(0, "F32"); (1, "F16"); (2, "Q4_0"); (3, "Q4_1"); (7, "Q8_0"); (8, "Q5_0"); (9, "Q5_1");
   (10, "Q2_K"); (11, "Q3_K_S"); (12, "Q3_K_M"); (13, "Q3_K_L"); (14, "Q4_K_S"); (15, "Q4_K_M");
   (16, "Q5_K_S"); (17, "Q5_K_M"); (18, "Q6_K"); (19, "IQ2_XXS"); (20, "IQ2_XS"); (21, "IQ3_XXS");
   (22, "IQ1_S"); (23, "IQ4_NL"); (24, "IQ3_S"); (25, "IQ2_S"); (26, "IQ4_XS"); (27, "IQ3_M");
   (28, "IQ1_M"); (29, "BF16"); (30, "Q4_0_4_4"); (31, "Q4_0_4_8"); (32, "Q4_0_8_8")].

Definition FileTypeName (fileType : Z) : string :=
  default "Unknown" (snd <$> List.find (fun p => p.1 =? fileType) fileTypeNames).

Definition Quantization (f : GGUFFile) : string :=
  match GetMetadata f "general.file_type" ≫= AsU32 with
  | Some ft => FileTypeName ft
  | None => EmptyString
  end.
