(* ===== verification/GgufFacts.v ===== *)
(** * Properties of the GGUF reader

    The encoding a GGUF file has, that the parser reads it back and accepts nothing
    of another size, that it terminates on every input, and what its limits do and
    do not bound. *)

From stdpp Require Import base strings list gmap.
From Stdlib Require Import ZArith Lia Bool Ascii.
From S2P Require Import Prelude GoStrings Gguf.

(** ** Bytes *)

Lemma split_bytes_app (a b : string) : split_bytes (String.length a) (a +:+ b) = Some (a, b).
Proof. induction a as [|c a IH]; [done|]. rewrite app_cons. simpl. by rewrite IH. Qed.

Lemma split_bytes_Some (n : nat) (s a b : string) : split_bytes n s = Some (a, b) -> s = a +:+ b /\ String.length a = n.
Proof.
  revert s a. induction n as [|n IH]; intros s a; simpl.
  - intros [= <- <-]. done.
  - destruct s as [|c s]; [done|]. destruct (split_bytes n s) as [[a' b']|] eqn:E; [|done]. intros [= <- <-].
    apply IH in E as [-> <-]. by rewrite app_cons.
Qed.

Lemma byte_of_ascii (z : Z) : byte_of (ascii_of_N (Z.to_N (z mod 256))) = z mod 256.
Proof.
  pose proof (Z.mod_pos_bound z 256). unfold byte_of. rewrite N_ascii_embedding by lia. rewrite Z2N.id; lia.
Qed.

Lemma le_encode_length (n : nat) (z : Z) : String.length (le_encode n z) = n.
Proof. revert z. induction n as [|n IH]; intros z; simpl; auto. Qed.

Lemma le_decode_encode (n : nat) (z : Z) : le_decode (le_encode n z) = z mod 256 ^ Z.of_nat n.
Proof.
  revert z. induction n as [|n IH]; intros z; cbn [le_encode le_decode]; [by rewrite Z.mod_1_r|].
  rewrite byte_of_ascii, IH, Nat2Z.inj_succ, Z.pow_succ_r by lia.
  rewrite Z.rem_mul_r by lia. done.
Qed.

Lemma le_decode_range (s : string) : 0 <= le_decode s < 256 ^ Z.of_nat (String.length s).
Proof.
  induction s as [|c s IH]; [simpl; lia|]. cbn [le_decode String.length].
  rewrite Nat2Z.inj_succ, Z.pow_succ_r by lia. pose proof (byte_of_range c). lia.
Qed.

#[global] Arguments le_encode : simpl never.

(** ** The buffer *)

#[global] Instance buffer_reader : Reader string.
Proof.
  refine {| readFull := buffer_read; rd_left := String.length |}; unfold buffer_read;
    intros n r b r'; destruct (split_bytes n r) as [[x y]|] eqn:E; try done; intros [= <- <-];
    apply split_bytes_Some in E as [-> E]; rewrite ?length_app_str; lia.
Defined.

(** ** The encoding *)

Definition type_of (v : GGUFValue) : Z :=
  match v with
  | Uint8Val _ => valueTypeUint8 | Int8Val _ => valueTypeInt8 | Uint16Val _ => valueTypeUint16
  | Int16Val _ => valueTypeInt16 | Uint32Val _ => valueTypeUint32 | Int32Val _ => valueTypeInt32
  | Float32Val _ => valueTypeFloat32 | BoolVal _ => valueTypeBool | StringVal _ => valueTypeString
  | ArrayVal _ => valueTypeArray | Uint64Val _ => valueTypeUint64 | Int64Val _ => valueTypeInt64
  | Float64Val _ => valueTypeFloat64
  end.

(** The element type an array is written with. *)
Definition elem_type (l : list GGUFValue) : Z := match l with v :: _ => type_of v | [] => valueTypeUint8 end.

Definition concat_bytes {A} (f : A -> string) (l : list A) : string := foldr (fun x acc => f x +:+ acc) EmptyString l.

Definition enc_string (s : string) : string := le_encode 8 (Z.of_nat (String.length s)) +:+ s.

Fixpoint enc_data (v : GGUFValue) : string :=
  match v with
  | Uint8Val z | Int8Val z => le_encode 1 z
  | Uint16Val z | Int16Val z => le_encode 2 z
  | Uint32Val z | Int32Val z | Float32Val z => le_encode 4 z
  | Uint64Val z | Int64Val z | Float64Val z => le_encode 8 z
  | BoolVal b => le_encode 1 (if b then 1 else 0)
  | StringVal s => enc_string s
  | ArrayVal l => le_encode 4 (elem_type l) +:+ le_encode 8 (Z.of_nat (length l)) +:+ concat_bytes enc_data l
  end.

Definition enc_kv (kv : MetadataKV) : string :=
  enc_string (kv_Key kv) +:+ le_encode 4 (type_of (kv_Value kv)) +:+ enc_data (kv_Value kv).

Definition enc_tensor (t : TensorInfo) : string :=
  enc_string (ti_Name t) +:+ le_encode 4 (Z.of_nat (length (ti_Dimensions t))) +:+
  concat_bytes (le_encode 8) (ti_Dimensions t) +:+ le_encode 4 (ti_Type t) +:+ le_encode 8 (ti_Offset t).

Definition enc_header (h : GGUFHeader) : string :=
  le_encode 4 ggufMagic +:+ le_encode 4 (gh_Version h) +:+ le_encode 8 (gh_TensorCount h) +:+
  le_encode 8 (gh_MetadataKVCount h).

Definition encode (f : GGUFFile) : string :=
  enc_header (gf_Header f) +:+ concat_bytes enc_kv (gf_Metadata f) +:+ concat_bytes enc_tensor (gf_TensorInfo f).

(** ** Well-formed files: ranges, limits, one type per array, honest counts *)

Definition uint_ok (n z : Z) : bool := (0 <=? z) && (z <? 2 ^ n).
Definition int_ok (n z : Z) : bool := (- 2 ^ (n - 1) <=? z) && (z <? 2 ^ (n - 1)).
Definition string_ok (s : string) : bool := Z.of_nat (String.length s) <=? maxStringLength.

Fixpoint value_ok (v : GGUFValue) : bool :=
  match v with
  | Uint8Val z => uint_ok 8 z | Uint16Val z => uint_ok 16 z
  | Uint32Val z | Float32Val z => uint_ok 32 z | Uint64Val z | Float64Val z => uint_ok 64 z
  | Int8Val z => int_ok 8 z | Int16Val z => int_ok 16 z | Int32Val z => int_ok 32 z | Int64Val z => int_ok 64 z
  | BoolVal _ => true
  | StringVal s => string_ok s
  | ArrayVal l => (Z.of_nat (length l) <=? maxArrayCount) && forallb (fun v => type_of v =? elem_type l) l && forallb value_ok l
  end.

Definition kv_ok (kv : MetadataKV) : bool := string_ok (kv_Key kv) && value_ok (kv_Value kv).

Definition tensor_ok (t : TensorInfo) : bool :=
  string_ok (ti_Name t) && (Z.of_nat (length (ti_Dimensions t)) <=? maxDimensions) &&
  forallb (uint_ok 64) (ti_Dimensions t) && uint_ok 32 (ti_Type t) && uint_ok 64 (ti_Offset t).

Definition file_ok (f : GGUFFile) : bool :=
  let h := gf_Header f in
  ((gh_Version h =? 2) || (gh_Version h =? 3)) &&
  (gh_MetadataKVCount h =? Z.of_nat (length (gf_Metadata f))) && uint_ok 64 (gh_MetadataKVCount h) &&
  (gh_TensorCount h =? Z.of_nat (length (gf_TensorInfo f))) && uint_ok 64 (gh_TensorCount h) &&
  forallb kv_ok (gf_Metadata f) && forallb tensor_ok (gf_TensorInfo f).

Lemma uint_ok_spec (n z : Z) : uint_ok n z = true <-> 0 <= z < 2 ^ n.
Proof. unfold uint_ok. rewrite andb_true_iff, Z.leb_le, Z.ltb_lt. done. Qed.

Lemma int_ok_spec (n z : Z) : int_ok n z = true <-> - 2 ^ (n - 1) <= z < 2 ^ (n - 1).
Proof. unfold int_ok. rewrite andb_true_iff, Z.leb_le, Z.ltb_lt. done. Qed.

Lemma signed_mod (n z : Z) : 0 < n -> int_ok n z = true -> signed n (z mod 2 ^ n) = z.
Proof.
  rewrite int_ok_spec. intros Hn Hz. unfold signed.
  assert (E : 2 ^ n = 2 * 2 ^ (n - 1)) by (rewrite <- Z.pow_succ_r by lia; f_equal; lia).
  destruct (Z_lt_ge_dec z 0).
  - rewrite <- (Z.mod_add z 1 (2 ^ n)), Z.mod_small by lia. case_if; to_prop; lia.
  - rewrite Z.mod_small by lia. case_if; to_prop; lia.
Qed.

Lemma signed_ok (n z : Z) : 0 < n -> 0 <= z < 2 ^ n -> int_ok n (signed n z) = true.
Proof.
  intros Hn Hz. rewrite int_ok_spec. unfold signed.
  assert (E : 2 ^ n = 2 * 2 ^ (n - 1)) by (rewrite <- Z.pow_succ_r by lia; f_equal; lia).
  case_if; to_prop; lia.
Qed.

(** ** Induction on values *)

Lemma GGUFValue_ind' (P : GGUFValue -> Prop) :
  (forall v, (forall l, v ≠ ArrayVal l) -> P v) -> (forall l, Forall P l -> P (ArrayVal l)) -> forall v, P v.
Proof.
  intros Hs Ha. fix IH 1. intros v. destruct v as [| | | | | | | | |l| | |]; try (apply Hs; done).
  apply Ha. induction l as [|v l IHl]; constructor; [apply IH|exact IHl].
Qed.

(** ** Reading back *)

(** [p] reads the bytes [b] as [a], setting aside [k]. *)
Definition reads {A} (p : parser string A) (b : string) (a : A) (k : Z) : Prop :=
  forall rest n, p (Build_pstate (b +:+ rest) n) = (Ok a, Build_pstate rest (n + k)).

Lemma reads_cost {A} (p : parser string A) b a k k' : reads p b a k -> k = k' -> reads p b a k'.
Proof. by intros ? <-. Qed.

Lemma reads_ret {A} (a : A) : reads (mret a) EmptyString a 0.
Proof. intros rest n. rewrite app_nil, Z.add_0_r. done. Qed.

Lemma reads_bind {A B} (p : parser string A) (f : A -> parser string B) b1 b2 a b k1 k2 :
  reads p b1 a k1 -> reads (f a) b2 b k2 -> reads (p ≫= f) (b1 +:+ b2) b (k1 + k2).
Proof.
  intros H1 H2 rest n. unfold mbind, parser_bind. rewrite app_assoc_str, H1, H2, Z.add_assoc. done.
Qed.

Lemma reads_map {A B} (p : parser string A) (f : A -> B) b a k : reads p b a k -> reads (x ← p; mret (f x)) b (f a) k.
Proof.
  intros H. rewrite <- (app_empty_r b), <- (Z.add_0_r k). apply (reads_bind p _ b EmptyString a); [done|apply reads_ret].
Qed.

Lemma reads_alloc {A} (k1 k2 : Z) (p : parser string A) b a : reads p b a k2 -> reads (_ ← alloc k1; p) b a (k1 + k2).
Proof.
  intros H. rewrite <- (app_nil b). apply (reads_bind (alloc k1) (fun _ => p) EmptyString b tt); [|done].
  intros rest n. by rewrite app_nil.
Qed.

Lemma reads_bytes (b : string) : reads (read_bytes (String.length b)) b b 0.
Proof.
  intros rest n. unfold read_bytes. simpl. unfold buffer_read. rewrite split_bytes_app. by rewrite Z.add_0_r.
Qed.

Lemma reads_uint (n : nat) (z : Z) : reads (read_uint n) (le_encode n z) (z mod 256 ^ Z.of_nat n) 0.
Proof.
  rewrite <- le_decode_encode. apply reads_map. rewrite <- (le_encode_length n z) at 1. apply reads_bytes.
Qed.

Lemma reads_uint_small (n : nat) (w z : Z) :
  256 ^ Z.of_nat n = 2 ^ w -> uint_ok w z = true -> reads (read_uint n) (le_encode n z) z 0.
Proof.
  intros E Hz%uint_ok_spec. pose proof (reads_uint n z) as Hr. rewrite Z.mod_small in Hr by lia. exact Hr.
Qed.

Lemma reads_string (s : string) : string_ok s = true -> reads readString (enc_string s) s (Z.of_nat (String.length s)).
Proof.
  unfold string_ok. intros Hs. to_prop. unfold readString, enc_string.
  apply (reads_bind _ _ _ _ (Z.of_nat (String.length s)) _ 0 _).
  - apply (reads_uint_small 8 64); [done|]. apply uint_ok_spec. unfold maxStringLength in Hs. lia.
  - rewrite (proj2 (Z.ltb_ge _ _)) by lia. eapply reads_cost; [|apply Z.add_0_r]. apply reads_alloc.
    rewrite Nat2Z.id. apply reads_bytes.
Qed.

Lemma reads_repeat {A} (p : parser string A) (enc : A -> string) (l : list A) (fuel : nat) :
  (length l <= fuel)%nat -> Forall (fun a => exists k, reads p (enc a) a k) l ->
  exists k, reads (repeat_read fuel p (Z.of_nat (length l))) (concat_bytes enc l) l k.
Proof.
  revert fuel. induction l as [|a l IH]; intros fuel Hf Hl.
  - exists 0. destruct fuel; apply reads_ret.
  - destruct fuel as [|fuel]; [simpl in Hf; lia|]. apply Forall_cons in Hl as [[ka Ha] Hl]. simpl in Hf.
    destruct (IH fuel) as [k Hk]; [lia|done|]. exists (ka + k).
    cbn [repeat_read length]. rewrite (proj2 (Z.leb_gt _ _)) by lia.
    apply (reads_bind _ _ _ _ a); [done|].
    replace (Z.of_nat (S (length l)) - 1) with (Z.of_nat (length l)) by lia. by apply reads_map.
Qed.

Lemma concat_bytes_cons {A} (enc : A -> string) (a : A) (l : list A) : concat_bytes enc (a :: l) = enc a +:+ concat_bytes enc l.
Proof. done. Qed.

Lemma concat_bytes_length {A} (enc : A -> string) (l : list A) :
  Forall (fun a => (1 <= String.length (enc a))%nat) l -> (length l <= String.length (concat_bytes enc l))%nat.
Proof. induction 1 as [|a l Ha _ IH]; [simpl; lia|]. rewrite concat_bytes_cons, length_app_str. simpl. lia. Qed.

Lemma concat_bytes_elem {A} (enc : A -> string) (l : list A) (a : A) :
  a ∈ l -> (String.length (enc a) <= String.length (concat_bytes enc l))%nat.
Proof.
  induction l as [|x l IH]; [by intros ?%not_elem_of_nil|]. intros [->|Hin]%elem_of_cons; rewrite concat_bytes_cons, length_app_str; [lia|].
  specialize (IH Hin). lia.
Qed.

Lemma enc_data_pos (v : GGUFValue) : (1 <= String.length (enc_data v))%nat.
Proof. destruct v; simpl; unfold enc_string; rewrite ?length_app_str, ?le_encode_length; lia. Qed.

Lemma type_of_range (v : GGUFValue) : uint_ok 32 (type_of v) = true.
Proof. by destruct v. Qed.

Lemma reads_signed (n : nat) (w z : Z) (c : Z -> GGUFValue) : 0 < w -> 256 ^ Z.of_nat n = 2 ^ w -> int_ok w z = true ->
  exists k, reads (v ← read_uint n; mret (c (signed w v))) (le_encode n z) (c z) k.
Proof.
  intros Hw E Hz. exists 0. pose proof (reads_map _ (fun v => c (signed w v)) _ _ _ (reads_uint n z)) as Hr.
  cbn beta in Hr. rewrite E, signed_mod in Hr by done. exact Hr.
Qed.

Lemma reads_unsigned (n : nat) (w z : Z) (c : Z -> GGUFValue) : 256 ^ Z.of_nat n = 2 ^ w -> uint_ok w z = true ->
  exists k, reads (v ← read_uint n; mret (c v)) (le_encode n z) (c z) k.
Proof. intros E Hz. exists 0. apply reads_map. by apply (reads_uint_small n w). Qed.

Lemma reads_value (v : GGUFValue) (fuel : nat) : value_ok v = true -> (String.length (enc_data v) < fuel)%nat ->
  exists k, reads (readValueData fuel (type_of v)) (enc_data v) v k.
Proof.
  revert fuel. induction v as [v Hv|l IH] using GGUFValue_ind'; intros [|fuel] Hok Hf; try lia.
  - destruct v; cbn in Hok; cbn [readValueData type_of enc_data] in *; try by destruct (Hv values).
    all: try (by eapply reads_unsigned; try exact Hok). all: try (by eapply reads_signed; try exact Hok).
    + exists 0. destruct b; [exact (reads_map _ (fun v => BoolVal (negb (v =? 0))) _ _ _ (reads_uint 1 1))
                            |exact (reads_map _ (fun v => BoolVal (negb (v =? 0))) _ _ _ (reads_uint 1 0))].
    + eexists. apply reads_map. by apply reads_string.
  - cbn [value_ok] in Hok. to_prop. cbn [enc_data] in Hf. rewrite !length_app_str, !le_encode_length in Hf.
    destruct (reads_repeat (readValueData fuel (elem_type l)) enc_data l fuel) as [k Hk].
    + pose proof (concat_bytes_length enc_data l). rewrite Forall_forall in *. specialize (H2 (fun x _ => enc_data_pos x)). lia.
    + rewrite Forall_forall in IH |- *. intros v Hv. rewrite !forallb_forall in *. apply list_elem_of_In in Hv as Hv'.
      replace (elem_type l) with (type_of v) by (apply Z.eqb_eq; auto). apply IH; auto.
      pose proof (concat_bytes_elem enc_data l v Hv). lia.
    + eexists. cbn [readValueData type_of enc_data].
      apply (reads_bind _ _ _ _ (elem_type l)); [apply (reads_uint_small 4 32); [done|by destruct l as [|v l]; [|apply type_of_range]]|].
      apply (reads_bind _ _ _ _ (Z.of_nat (length l))).
      { apply (reads_uint_small 8 64); [done|]. apply uint_ok_spec. unfold maxArrayCount in *. lia. }
      rewrite (proj2 (Z.ltb_ge _ _)) by lia. apply reads_alloc, reads_map. exact Hk.
Qed.

Lemma reads_kv (kv : MetadataKV) (fuel : nat) : kv_ok kv = true -> (String.length (enc_kv kv) < fuel)%nat ->
  exists k, reads (parseMetadataKV fuel) (enc_kv kv) kv k.
Proof.
  unfold kv_ok, enc_kv. intros Hok. rewrite !length_app_str, !le_encode_length. intros Hf. to_prop.
  destruct (reads_value (kv_Value kv) fuel) as [k Hk]; [done|lia|]. destruct kv as [key v]; simpl in *. eexists.
  apply (reads_bind _ _ _ _ key); [by apply reads_string|].
  apply (reads_map _ (fun v => {| kv_Key := key; kv_Value := v |})).
  apply (reads_bind _ _ _ _ (type_of v)); [|done]. apply (reads_uint_small 4 32); [done|apply type_of_range].
Qed.

Lemma reads_tensor (t : TensorInfo) (fuel : nat) : tensor_ok t = true -> (String.length (enc_tensor t) < fuel)%nat ->
  exists k, reads (parseTensorInfo fuel) (enc_tensor t) t k.
Proof.
  unfold tensor_ok, enc_tensor. intros Hok. rewrite !length_app_str, !le_encode_length. intros Hf. to_prop.
  destruct (reads_repeat (read_uint 8) (le_encode 8) (ti_Dimensions t) fuel) as [k Hk].
  - pose proof (concat_bytes_length (le_encode 8) (ti_Dimensions t)) as Hl.
    rewrite Forall_forall in Hl. specialize (Hl (fun x _ => ltac:(rewrite le_encode_length; lia))). lia.
  - rewrite Forall_forall. intros z Hz%list_elem_of_In. exists 0. apply (reads_uint_small 8 64); [done|].
    rewrite forallb_forall in *. auto.
  - destruct t as [name dims ty off]; simpl in *. eexists.
    apply (reads_bind _ _ _ _ name); [by apply reads_string|].
    apply (reads_bind _ _ _ _ (Z.of_nat (length dims))).
    { apply (reads_uint_small 4 32); [done|]. apply uint_ok_spec. unfold maxDimensions in *. lia. }
    rewrite (proj2 (Z.ltb_ge _ _)) by lia. apply reads_alloc, (reads_bind _ _ _ _ dims); [exact Hk|].
    apply (reads_bind _ _ _ _ ty); [by apply (reads_uint_small 4 32)|].
    apply (reads_map _ (fun off => {| ti_Name := name; ti_Dimensions := dims; ti_Type := ty; ti_Offset := off |})).
    by apply (reads_uint_small 8 64).
Qed.

Lemma reads_header (h : GGUFHeader) : (gh_Version h =? 2) || (gh_Version h =? 3) = true ->
  uint_ok 64 (gh_TensorCount h) = true -> uint_ok 64 (gh_MetadataKVCount h) = true ->
  reads parseHeader (enc_header h) h 0.
Proof.
  intros Hv Ht Hm. destruct h as [v t m]; simpl in *. unfold enc_header; simpl. eapply (reads_cost _ _ _ (0 + (0 + (0 + 0)))); [|done].
  apply (reads_bind _ _ _ _ ggufMagic); [by apply (reads_uint_small 4 32)|]. rewrite Z.eqb_refl. cbn [negb].
  apply orb_true_iff in Hv. rewrite !Z.eqb_eq in Hv.
  apply (reads_bind _ _ _ _ v); [apply (reads_uint_small 4 32); [done|]; apply uint_ok_spec; lia|].
  rewrite (proj2 (Z.ltb_ge v 2)), (proj2 (Z.ltb_ge 3 v)) by lia. cbn [orb].
  apply (reads_bind _ _ _ _ t); [by apply (reads_uint_small 8 64)|].
  apply (reads_map _ (fun m => {| gh_Version := v; gh_TensorCount := t; gh_MetadataKVCount := m |})).
  by apply (reads_uint_small 8 64).
Qed.

Lemma reads_list {A} (p : parser string A) (enc : A -> string) (ok : A -> bool) (l : list A) (fuel : nat) :
  (forall a, ok a = true -> (String.length (enc a) < fuel)%nat -> exists k, reads p (enc a) a k) ->
  (forall a, (1 <= String.length (enc a))%nat) ->
  forallb ok l = true -> (String.length (concat_bytes enc l) < fuel)%nat ->
  exists k, reads (repeat_read fuel p (Z.of_nat (length l))) (concat_bytes enc l) l k.
Proof.
  intros Hp Hpos Hok Hf. apply reads_repeat.
  - pose proof (concat_bytes_length enc l (proj2 (Forall_forall _ _) (fun a _ => Hpos a))). lia.
  - rewrite Forall_forall. intros a Ha. pose proof (concat_bytes_elem enc l a Ha).
    rewrite forallb_forall in Hok. apply list_elem_of_In in Ha. apply Hp; [auto|lia].
Qed.

Lemma reads_file (f : GGUFFile) (fuel : nat) : file_ok f = true -> (String.length (encode f) < fuel)%nat ->
  exists k, reads (parseFile fuel) (encode f) f k.
Proof.
  unfold file_ok, encode. rewrite !length_app_str. intros Hok Hf. to_prop. destruct f as [h md ti]; simpl in *.
  pose proof (reads_header h ltac:(done) ltac:(done) ltac:(done)) as Hh.
  destruct (reads_list (parseMetadataKV fuel) enc_kv kv_ok md fuel) as [km Hm];
    [intros; by apply reads_kv|intros; unfold enc_kv; rewrite !length_app_str, le_encode_length; lia|done|lia|].
  destruct (reads_list (parseTensorInfo fuel) enc_tensor tensor_ok ti fuel) as [kt Ht];
    [intros; by apply reads_tensor|intros; unfold enc_tensor; rewrite !length_app_str, le_encode_length; lia|done|lia|].
  eexists. apply (reads_bind _ _ _ _ h); [exact Hh|].
  repeat match goal with E : gh_MetadataKVCount _ = _ |- _ => rewrite E | E : gh_TensorCount _ = _ |- _ => rewrite E end.
  apply reads_alloc, (reads_bind _ _ _ _ md); [exact Hm|].
  apply reads_alloc. apply (reads_map _ (fun ti => {| gf_Header := h; gf_Metadata := md; gf_TensorInfo := ti |})). exact Ht.
Qed.

(** ** Totality and exactness over any reader *)

Section Generic.
Context {R : Type} `{Reader R}.

Definition left_of (st : pstate R) : nat := rd_left (ps_reader st).

(** With less than [f] bytes left, [p] does not run out of fuel, and what it accepts
    has taken [size a] bytes, at least [k] of them, and satisfies [P]. *)
Definition parses {A} (f k : nat) (p : parser R A) (size : A -> nat) (P : A -> Prop) : Prop :=
  forall st, (left_of st < f)%nat ->
    match p st with
    | (Ok a, st') => left_of st = (size a + left_of st')%nat /\ (k <= size a)%nat /\ P a
    | (Err e, _) => e ≠ OutOfFuel
    end.

Lemma parses_bind {A B} (f k1 k2 : nat) (p : parser R A) (g : A -> parser R B) size1 (size2 : A -> B -> nat) size P (Q : A -> B -> Prop) S :
  parses f k1 p size1 P -> (forall a, P a -> parses (f - k1) k2 (g a) (size2 a) (Q a)) ->
  (forall a b, P a -> Q a b -> size b = (size1 a + size2 a b)%nat /\ S b) ->
  parses f (k1 + k2) (p ≫= g) size S.
Proof.
  intros Hp Hg Hs st Hf. unfold mbind, parser_bind. specialize (Hp st Hf). destruct (p st) as [[a|e] st1]; [|done].
  destruct Hp as (Hl & Hk & Ha). specialize (Hg a Ha st1 ltac:(lia)). destruct (g a st1) as [[b|e] st2]; [|done].
  destruct Hg as (Hl2 & Hk2 & Hb). destruct (Hs a b Ha Hb) as [-> ?]. split_and!; [lia..|done].
Qed.

(** The same after a step whose result fixes its size. *)
Lemma parses_then {A B} (f k1 k2 n : nat) (p : parser R A) (g : A -> parser R B) size2 size P (S : B -> Prop) :
  parses f k1 p (fun _ => n) P -> (forall a, P a -> parses (f - k1) k2 (g a) size2 S) ->
  (forall b, size b = (n + size2 b)%nat) -> parses f (k1 + k2) (p ≫= g) size S.
Proof. intros Hp Hg Hs. eapply parses_bind; [exact Hp|exact Hg|]. intros a b _ Hb. split; [apply Hs|exact Hb]. Qed.

Lemma parses_ret {A} (f : nat) (a : A) (size : A -> nat) (P : A -> Prop) : size a = 0%nat -> P a -> parses f 0 (mret a) size P.
Proof. intros Hs HP st _. simpl. rewrite Hs. split_and!; [lia..|done]. Qed.

Lemma parses_fail {A} (f k : nat) (e : gguf_error) (size : A -> nat) P : e ≠ OutOfFuel -> parses f k (fail e) size P.
Proof. intros He st _. exact He. Qed.

Lemma parses_alloc (f : nat) (n : Z) : parses f 0 (alloc n) (fun _ => 0%nat) (fun _ => True).
Proof. intros st _. simpl. split_and!; [done|lia|done]. Qed.

Lemma parses_weaken {A} (f f' k k' : nat) (p : parser R A) (size size' : A -> nat) (P Q : A -> Prop) :
  parses f k p size P -> (f' <= f)%nat -> (k' <= k)%nat -> (forall a, P a -> size a = size' a /\ Q a) -> parses f' k' p size' Q.
Proof.
  intros Hp Hf Hk Hs st Hl. specialize (Hp st ltac:(lia)). destruct (p st) as [[a|e] st']; [|done].
  destruct Hp as (? & ? & HP). destruct (Hs a HP) as [E ?]. split_and!; [lia..|done].
Qed.

Lemma parses_bytes (f n : nat) : parses f n (read_bytes n) (fun _ => n) (fun b => String.length b = n).
Proof.
  intros st _. unfold read_bytes, left_of. destruct (readFull n (ps_reader st)) as [[b|] r] eqn:E; [|done]. simpl.
  pose proof (rd_length _ _ _ _ E). pose proof (rd_spent _ _ _ _ E). split_and!; [lia..|done].
Qed.

Lemma parses_uint (f n : nat) (w : Z) : 256 ^ Z.of_nat n = 2 ^ w ->
  parses f n (read_uint n) (fun _ => n) (fun z => 0 <= z < 2 ^ w).
Proof.
  intros Hw. rewrite <- (Nat.add_0_r n) at 1. eapply parses_bind; [apply parses_bytes| |].
  - intros b Hb. apply (parses_ret _ _ (fun _ => 0%nat) (fun z => 0 <= z < 2 ^ w)); [done|].
    pose proof (le_decode_range b) as Hr. rewrite Hb in Hr. lia.
  - intros b z _ Hz. split; [lia|done].
Qed.

Lemma parses_map {A B} (f k : nat) (p : parser R A) (g : A -> B) (size : A -> nat) (size' : B -> nat) (P : A -> Prop) (Q : B -> Prop) :
  parses f k p size P -> (forall a, P a -> size' (g a) = size a /\ Q (g a)) -> parses f k (x ← p; mret (g x)) size' Q.
Proof.
  intros Hp Hs. rewrite <- (Nat.add_0_r k). eapply (parses_bind _ _ _ _ _ size (fun _ _ => 0%nat) size' P (fun a b => b = g a)); [done| |].
  - intros a Ha. by apply parses_ret.
  - intros a b Ha ->. destruct (Hs a Ha). split; [lia|done].
Qed.

Definition size_string (s : string) : nat := (8 + String.length s)%nat.

Lemma parses_string (f : nat) : parses f 8 readString size_string (fun s => string_ok s = true).
Proof.
  unfold readString. change 8%nat with (8 + 0)%nat at 1.
  eapply (parses_bind _ _ _ _ _ (fun _ => 8%nat) (fun _ s => String.length s)
    _ (fun z => 0 <= z < 2 ^ 64) (fun len s => len <= maxStringLength /\ String.length s = Z.to_nat len));
    [by apply parses_uint| |].
  - intros len Hlen. case_if; [by apply parses_fail|]. to_prop. change 0%nat with (0 + 0)%nat.
    eapply (parses_then _ _ _ 0); [apply parses_alloc| |done]. intros _ _.
    eapply parses_weaken; [apply (parses_bytes _ (Z.to_nat len))|reflexivity|lia|]. intros b Hb. split; [done|]. split; [lia|done].
  - intros len s Hlen [Hm Hs]. split; [done|]. unfold string_ok. apply Z.leb_le. lia.
Qed.

Lemma parses_repeat {A} (f k fuel : nat) (p : parser R A) (size : A -> nat) (P : A -> Prop) (count : Z) :
  parses f k p size P -> (1 <= k)%nat -> (f <= fuel)%nat -> 0 <= count ->
  parses f 0 (repeat_read fuel p count) (fun l => foldr (fun a n => (size a + n)%nat) 0%nat l)
    (fun l => Z.of_nat (length l) = count /\ Forall P l).
Proof.
  intros Hp Hk. revert f Hp count. induction fuel as [|fuel IH]; intros f Hp count Hf Hc st Hst; [lia|].
  cbn [repeat_read]. destruct (Z.leb_spec count 0).
  - simpl. split_and!; [done|done|lia|constructor].
  - revert st Hst. change (parses f 0 (x ← p; xs ← repeat_read fuel p (count - 1); mret (x :: xs))
      (fun l => foldr (fun a n => (size a + n)%nat) 0%nat l) (fun l => Z.of_nat (length l) = count /\ Forall P l)).
    eapply (parses_weaken f f (k + 0) 0); [|done|lia|intros l Hl; split; [done|exact Hl]].
    eapply (parses_bind _ _ _ _ _ size (fun a l => foldr (fun a n => (size a + n)%nat) 0%nat (tail l))
      _ P (fun a l => exists l', l = a :: l' /\ Z.of_nat (length l') = count - 1 /\ Forall P l')); [done| |].
    + intros a Ha. eapply parses_map; [apply (IH (f - k)%nat)|].
      * eapply parses_weaken; [exact Hp|lia|done|]. done.
      * lia.
      * lia.
      * intros l [Hl HP]. simpl. split; [done|]. exists l. done.
    + intros a l Ha (l' & -> & Hl & HP). simpl. split; [done|]. split; [lia|by constructor].
Qed.

Lemma concat_bytes_size {A} (enc : A -> string) (l : list A) :
  foldr (fun a n => (String.length (enc a) + n)%nat) 0%nat l = String.length (concat_bytes enc l).
Proof. induction l as [|a l IH]; [done|]. rewrite concat_bytes_cons, length_app_str. simpl. lia. Qed.

Definition size_value (v : GGUFValue) : nat := String.length (enc_data v).

Lemma parses_at_least {A} (f k k' : nat) (p : parser R A) size P : (k' <= k)%nat -> parses f k p size P -> parses f k' p size P.
Proof. intros Hk Hp. by eapply parses_weaken; [exact Hp|..]. Qed.

Lemma parses_scalar (f n : nat) (w : Z) (c : Z -> GGUFValue) (ty : Z) : 256 ^ Z.of_nat n = 2 ^ w -> (1 <= n)%nat ->
  (forall z, 0 <= z < 2 ^ w -> size_value (c z) = n /\ value_ok (c z) = true /\ type_of (c z) = ty) ->
  parses f 1 (v ← read_uint n; mret (c v)) size_value (fun v => value_ok v = true /\ type_of v = ty).
Proof.
  intros Hw Hn Hc. eapply parses_map; [|exact Hc].
  eapply parses_weaken; [by apply (parses_uint f n w)|done|done|done].
Qed.

Lemma array_ok (l : list GGUFValue) (ty : Z) : Z.of_nat (length l) <= maxArrayCount ->
  Forall (fun v => value_ok v = true /\ type_of v = ty) l -> value_ok (ArrayVal l) = true.
Proof.
  intros Hn Hl. cbn [value_ok]. rewrite !andb_true_iff, !forallb_forall. rewrite Forall_forall in Hl.
  split_and!; [by apply Z.leb_le| |]; intros v Hv%list_elem_of_In; destruct (Hl v Hv) as [Hok Ht]; [|done].
  apply Z.eqb_eq. destruct l as [|v' l]; [by apply not_elem_of_nil in Hv|]. cbn [elem_type].
  destruct (Hl v' ltac:(left)). congruence.
Qed.

(** The bytes of an array's elements. *)
Definition size_elems (v : GGUFValue) : nat := match v with ArrayVal l => String.length (concat_bytes enc_data l) | _ => 0%nat end.

Definition array_of (ty : Z) (v : GGUFValue) : Prop :=
  exists l, v = ArrayVal l /\ Z.of_nat (length l) <= maxArrayCount /\ Forall (fun v => value_ok v = true /\ type_of v = ty) l.

Ltac scalar n w c ok :=
  eapply (parses_scalar _ n w c); [reflexivity|lia|];
  intros z Hz; split_and!; [apply le_encode_length|cbn [value_ok]; ok|done].
Ltac unsigned n w c := scalar n w c ltac:(by apply uint_ok_spec).
Ltac signed n w c := scalar n w (fun v => c (signed w v)) ltac:(apply signed_ok; lia).

Lemma parses_value (fuel : nat) (ty : Z) :
  parses fuel 1 (readValueData fuel ty) size_value (fun v => value_ok v = true /\ type_of v = ty).
Proof.
  revert ty. induction fuel as [|fuel IH]; intros ty; [intros st Hst; lia|]. cbn [readValueData].
  repeat match goal with |- context [if ?t =? ?c then _ else _] => destruct (Z.eqb_spec t c) as [->|_] end.
  1: unsigned 1%nat 8 Uint8Val.
  1: signed 1%nat 8 Int8Val.
  1: unsigned 2%nat 16 Uint16Val.
  1: signed 2%nat 16 Int16Val.
  1: unsigned 4%nat 32 Uint32Val.
  1: signed 4%nat 32 Int32Val.
  1: unsigned 4%nat 32 Float32Val.
  1: eapply (parses_scalar _ 1 8 (fun v => BoolVal (negb (v =? 0)))); [done|done|done].
  3: unsigned 8%nat 64 Uint64Val.
  3: signed 8%nat 64 Int64Val.
  3: unsigned 8%nat 64 Float64Val.
  3: by apply parses_fail.
  - eapply parses_map; [apply (parses_at_least _ 8); [lia|apply parses_string]|].
    intros s Hs. unfold size_value. cbn [enc_data]. unfold enc_string. rewrite length_app_str, le_encode_length. done.
  - apply (parses_at_least _ (4 + (8 + 0))); [lia|]. eapply (parses_bind _ _ _ _ _ (fun _ => 4%nat) (fun _ v => 8 + size_elems v)%nat _
      (fun z => 0 <= z < 2 ^ 32) array_of); [by apply (parses_uint _ 4 32)| |].
    + intros et Het. eapply (parses_bind _ _ _ _ _ (fun _ => 8%nat) (fun _ v => size_elems v) _
        (fun z => 0 <= z < 2 ^ 64) (fun _ => array_of et)); [by apply (parses_uint _ 8 64)| |done].
      intros n Hn. case_if; [by apply parses_fail|]. to_prop. eapply (parses_then _ 0 0 0); [apply parses_alloc| |done]. intros _ _.
      eapply parses_map; [apply (parses_repeat (S fuel - 4 - 8 - 0) 1 fuel _ size_value); [|lia..]|].
      { eapply parses_weaken; [apply IH|lia|done|done]. }
      intros l [Hl HP]. cbn [size_elems]. rewrite <- concat_bytes_size. split; [done|]. exists l. split_and!; [done|lia|done].
    + intros et v _ (l & -> & Hm & HP). split; [|split; [by eapply array_ok|done]].
      unfold size_value. cbn [enc_data size_elems]. rewrite !length_app_str, !le_encode_length. lia.
Qed.

Lemma parses_kv (f fuel : nat) : (f <= fuel)%nat ->
  parses f 1 (parseMetadataKV fuel) (fun kv => String.length (enc_kv kv)) (fun kv => kv_ok kv = true).
Proof.
  intros Hf. apply (parses_at_least _ (8 + 5)); [lia|].
  eapply (parses_bind _ _ _ _ _ size_string (fun _ kv => 4 + size_value (kv_Value kv))%nat _ (fun s => string_ok s = true)
    (fun key kv => kv_Key kv = key /\ value_ok (kv_Value kv) = true)); [apply parses_string| |].
  - intros key Hkey. eapply (parses_map _ _ _ (fun v => {| kv_Key := key; kv_Value := v |}) (fun v => 4 + size_value v)%nat _
      (fun v => value_ok v = true)); [|done].
    eapply (parses_bind _ 4 1 _ _ (fun _ => 4%nat) (fun _ => size_value) _ (fun z => 0 <= z < 2 ^ 32) (fun ty v => value_ok v = true /\ type_of v = ty));
      [by apply (parses_uint _ 4 32)| |].
    + intros ty _. eapply parses_weaken; [apply (parses_value fuel ty)|lia|done|done].
    + intros ty v _ [Hv _]. done.
  - intros key kv Hkey [Ek Hv]. unfold enc_kv, enc_string, kv_ok. rewrite Ek, Hkey, Hv, !length_app_str, !le_encode_length.
    unfold size_string, size_value. split; [lia|done].
Qed.

Lemma foldr_le_encode (l : list Z) : foldr (fun (_ : Z) (n : nat) => (8 + n)%nat) 0%nat l = String.length (concat_bytes (le_encode 8) l).
Proof. induction l as [|z l IH]; [done|]. rewrite concat_bytes_cons, length_app_str, le_encode_length, <- IH. done. Qed.

(** What is left of a description after its dimensions. *)
Definition tensor_tail (name : string) (dims : list Z) (t : TensorInfo) : Prop :=
  ti_Name t = name /\ ti_Dimensions t = dims /\ uint_ok 32 (ti_Type t) = true /\ uint_ok 64 (ti_Offset t) = true.

Lemma parses_tensor_tail (f : nat) (name : string) (dims : list Z) :
  parses f 12 (typeID ← read_uint 4; offset ← read_uint 8;
               mret {| ti_Name := name; ti_Dimensions := dims; ti_Type := typeID; ti_Offset := offset |})
    (fun _ => 12%nat) (tensor_tail name dims).
Proof.
  change 12%nat with (4 + 8)%nat at 1.
  eapply (parses_then _ 4 8 4 _ _ (fun _ => 8%nat)); [by apply (parses_uint _ 4 32)| |done]. intros ty Hty.
  eapply (parses_map _ _ _ (fun off => {| ti_Name := name; ti_Dimensions := dims; ti_Type := ty; ti_Offset := off |}) (fun _ => 8%nat));
    [by apply (parses_uint _ 8 64)|]. intros off Hoff. split; [done|]. split_and!; simpl; [done|done|by apply uint_ok_spec..].
Qed.

Definition size_dims (t : TensorInfo) : nat := String.length (concat_bytes (le_encode 8) (ti_Dimensions t)).

Lemma parses_dims (f fuel : nat) (name : string) (n : Z) : (f <= fuel)%nat -> 0 <= n <= maxDimensions ->
  parses f 12 (dims ← repeat_read fuel (read_uint 8) n; typeID ← read_uint 4; offset ← read_uint 8;
               mret {| ti_Name := name; ti_Dimensions := dims; ti_Type := typeID; ti_Offset := offset |})
    (fun t => size_dims t + 12)%nat
    (fun t => exists dims, Z.of_nat (length dims) = n /\ Forall (fun z => 0 <= z < 2 ^ 64) dims /\ tensor_tail name dims t).
Proof.
  intros Hf Hn. change 12%nat with (0 + 12)%nat at 1.
  eapply (parses_bind _ 0 12 _ _ _ (fun _ _ => 12%nat) _ _ (tensor_tail name));
    [apply (parses_repeat _ 8 _ _ (fun _ => 8%nat)); [by apply (parses_uint _ 8 64)|lia|lia|lia]| |].
  - intros dims _. eapply parses_weaken; [apply parses_tensor_tail|reflexivity|lia|done].
  - intros dims t [Hl Hd] Ht. rewrite foldr_le_encode. unfold size_dims. rewrite (proj1 (proj2 Ht)). split; [done|]. exists dims. done.
Qed.

Lemma parses_tensor (f fuel : nat) : (f <= fuel)%nat ->
  parses f 1 (parseTensorInfo fuel) (fun t => String.length (enc_tensor t)) (fun t => tensor_ok t = true).
Proof.
  intros Hf. apply (parses_at_least _ (8 + (4 + (0 + 12)))); [lia|].
  eapply (parses_bind _ _ _ _ _ size_string (fun _ t => 4 + (size_dims t + 12))%nat _ (fun s => string_ok s = true)
    (fun name t => exists n dims, n <= maxDimensions /\ Z.of_nat (length dims) = n /\ Forall (fun z => 0 <= z < 2 ^ 64) dims /\ tensor_tail name dims t));
    [apply parses_string| |].
  - intros name Hname. eapply (parses_then _ _ _ 4 _ _ (fun t => size_dims t + 12)%nat); [by apply (parses_uint _ 4 32)| |done].
    intros n Hn. cbn beta in Hn. case_if; [by apply parses_fail|]. to_prop. eapply (parses_then _ 0 12 0 _ _ (fun t => size_dims t + 12)%nat); [apply parses_alloc| |done]. intros _ _.
    eapply parses_weaken; [exact (parses_dims fuel fuel name n ltac:(lia) ltac:(lia))|lia|done|]. intros t (dims & ? & ? & ?). split; [done|].
    exists n, dims. done.
  - intros name t Hname (n & dims & Hn & Hl & Hd & Ht). destruct Ht as (En & Ed & Hty & Hoff).
    unfold enc_tensor, enc_string, tensor_ok, size_string, size_dims. rewrite En, Ed, Hname, Hty, Hoff, !length_app_str, !le_encode_length.
    split; [lia|]. rewrite (proj2 (Z.leb_le _ _)) by lia. rewrite !andb_true_r. cbn [andb]. apply forallb_forall.
    intros z Hz%list_elem_of_In. rewrite Forall_forall in Hd. by apply uint_ok_spec, Hd.
Qed.

Definition header_ok (h : GGUFHeader) : bool :=
  ((gh_Version h =? 2) || (gh_Version h =? 3)) && uint_ok 64 (gh_MetadataKVCount h) && uint_ok 64 (gh_TensorCount h).

Lemma parses_header (f : nat) : parses f 24 parseHeader (fun _ => 24%nat) (fun h => header_ok h = true).
Proof.
  change 24%nat with (4 + (4 + (8 + 8)))%nat at 1.
  eapply (parses_then _ _ _ 4 _ _ (fun _ => 20%nat)); [by apply (parses_uint _ 4 32)| |done]. intros magic _. case_if; [by apply parses_fail|].
  eapply (parses_then _ _ _ 4 _ _ (fun _ => 16%nat)); [by apply (parses_uint _ 4 32)| |done]. intros version _. case_if; [by apply parses_fail|].
  eapply (parses_then _ _ _ 8 _ _ (fun _ => 8%nat)); [by apply (parses_uint _ 8 64)| |done]. intros tc Ht.
  eapply (parses_map _ _ _ (fun m => {| gh_Version := version; gh_TensorCount := tc; gh_MetadataKVCount := m |}) (fun _ => 8%nat));
    [by apply (parses_uint _ 8 64)|]. intros m Hm. cbn beta in Hm, Ht. split; [done|]. unfold header_ok; simpl. to_prop.
  rewrite !andb_true_iff, orb_true_iff, !Z.eqb_eq, !uint_ok_spec. split_and!; lia.
Qed.

Lemma parses_entries {A} (f fuel : nat) (p : parser R A) (enc : A -> string) (ok : A -> bool) (n : Z) :
  parses f 1 p (fun a => String.length (enc a)) (fun a => ok a = true) -> (f <= fuel)%nat -> 0 <= n ->
  parses f 0 (repeat_read fuel p n) (fun l => String.length (concat_bytes enc l))
    (fun l => Z.of_nat (length l) = n /\ forallb ok l = true).
Proof.
  intros Hp Hf Hn. eapply parses_weaken; [apply (parses_repeat f 1 fuel _ _ _ n Hp); lia|done|done|].
  intros l [Hl HP]. rewrite concat_bytes_size. split_and!; [done|done|]. apply forallb_forall.
  rewrite Forall_forall in HP. intros a Ha%list_elem_of_In. auto.
Qed.

(** What follows the header. *)
Definition body_of (h : GGUFHeader) (f : GGUFFile) : Prop :=
  gf_Header f = h /\ Z.of_nat (length (gf_Metadata f)) = gh_MetadataKVCount h /\ forallb kv_ok (gf_Metadata f) = true /\
  Z.of_nat (length (gf_TensorInfo f)) = gh_TensorCount h /\ forallb tensor_ok (gf_TensorInfo f) = true.

Definition size_tensors (f : GGUFFile) : nat := String.length (concat_bytes enc_tensor (gf_TensorInfo f)).
Definition size_body (f : GGUFFile) : nat := (String.length (concat_bytes enc_kv (gf_Metadata f)) + size_tensors f)%nat.

Lemma parses_body (f fuel : nat) (h : GGUFHeader) : (f <= fuel)%nat -> header_ok h = true ->
  parses f 0 (_ ← alloc (Z.min (gh_MetadataKVCount h) maxPreallocCount);
              metadata ← repeat_read fuel (parseMetadataKV fuel) (gh_MetadataKVCount h);
              _ ← alloc (Z.min (gh_TensorCount h) maxPreallocCount);
              tensorInfo ← repeat_read fuel (parseTensorInfo fuel) (gh_TensorCount h);
              mret {| gf_Header := h; gf_Metadata := metadata; gf_TensorInfo := tensorInfo |}) size_body (body_of h).
Proof.
  intros Hf Hh. unfold header_ok in Hh. rewrite !andb_true_iff, !uint_ok_spec in Hh. destruct Hh as [[_ Hm] Ht].
  eapply (parses_then _ 0 0 0 _ _ size_body); [apply parses_alloc| |done]. intros _ _.
  eapply (parses_bind _ 0 0 _ _ _ (fun _ => size_tensors) _ _
    (fun md file => body_of h file /\ gf_Metadata file = md));
    [apply (parses_entries _ fuel _ enc_kv kv_ok); [apply parses_kv; lia|lia|lia]| |].
  - intros md [Hl Hok]. eapply (parses_then _ 0 0 0 _ _ size_tensors); [apply parses_alloc| |done]. intros _ _.
    eapply (parses_map _ _ _ (fun ti => {| gf_Header := h; gf_Metadata := md; gf_TensorInfo := ti |}));
      [apply (parses_entries _ fuel _ enc_tensor tensor_ok); [apply parses_tensor; lia|lia|lia]|].
    intros ti [Hl' Hok']. done.
  - intros md file _ [Hb <-]. done.
Qed.

Lemma parses_file (f fuel : nat) : (f <= fuel)%nat ->
  parses f 24 (parseFile fuel) (fun g => String.length (encode g)) (fun g => file_ok g = true).
Proof.
  intros Hf. change 24%nat with (24 + 0)%nat at 1.
  eapply (parses_bind _ 24 0 _ _ (fun _ => 24%nat) (fun _ => size_body) _ _ body_of); [apply parses_header| |].
  - intros h Hh. apply parses_body; [lia|done].
  - intros h g Hh (Eh & Hm & Hmo & Ht & Hto). unfold encode, enc_header, file_ok. rewrite Eh.
    rewrite !length_app_str, !le_encode_length. split; [done|].
    unfold header_ok in Hh. rewrite !andb_true_iff in Hh. destruct Hh as [[Hv Hm'] Ht'].
    by rewrite Hv, Hm', Ht', Hmo, Hto, Hm, Ht, !Z.eqb_refl.
Qed.

End Generic.

(** ** Nested arrays *)

(** [n] array headers, each announcing as many arrays as the limit allows. *)
Fixpoint nested (n : nat) : string :=
  match n with
  | O => EmptyString
  | S n' => le_encode 4 valueTypeArray +:+ le_encode 8 maxArrayCount +:+ nested n'
  end.

Lemma nested_length (n : nat) : String.length (nested n) = (12 * n)%nat.
Proof. induction n as [|n IH]; [done|]. cbn [nested]. rewrite !length_app_str, !le_encode_length. lia. Qed.

Lemma reads_run {A B} (p : parser string A) (f : A -> parser string B) b a c rest n :
  reads p b a c -> (p ≫= f) (Build_pstate (b +:+ rest) n) = f a (Build_pstate rest (n + c)).
Proof. intros Hp. unfold mbind, parser_bind. by rewrite Hp. Qed.

Lemma alloc_run {B} (k : Z) (f : unit -> parser string B) (r : string) (n : Z) :
  (alloc k ≫= f) (Build_pstate r n) = f tt (Build_pstate r (n + k)).
Proof. done. Qed.

Lemma bind_err {A B} (p : parser string A) (f : A -> parser string B) st e st' : p st = (Err e, st') -> (p ≫= f) st = (Err e, st').
Proof. intros Hp. unfold mbind, parser_bind. by rewrite Hp. Qed.

Lemma readValueData_array (fuel : nat) :
  readValueData (R := string) (S fuel) valueTypeArray =
  (elemType ← read_uint 4; count ← read_uint 8;
   if maxArrayCount <? count then fail (ErrSizeLimitExceeded count maxArrayCount)
   else _ ← alloc count; values ← repeat_read fuel (readValueData fuel elemType) count; mret (ArrayVal values)).
Proof. reflexivity. Qed.

(** The parser sets aside one full array for each of them before it fails. *)
Lemma nested_alloc (n fuel : nat) (k : Z) : (12 * n < fuel)%nat -> exists k',
  k + Z.of_nat n * maxArrayCount <= k' /\
  readValueData fuel valueTypeArray (Build_pstate (nested n) k) = (Err ErrRead, Build_pstate EmptyString k').
Proof.
  revert fuel k. induction n as [|n IH]; intros [|fuel] k Hf; try lia.
  - exists k. split; [lia|]. reflexivity.
  - destruct (IH fuel (k + maxArrayCount)) as (k' & Hk & E); [lia|]. exists k'. split; [lia|].
    rewrite readValueData_array. cbn [nested].
    rewrite (reads_run _ _ _ _ _ _ _ (reads_uint_small 4 32 valueTypeArray eq_refl eq_refl)), Z.add_0_r.
    rewrite (reads_run _ _ _ _ _ _ _ (reads_uint_small 8 64 maxArrayCount eq_refl eq_refl)), Z.add_0_r.
    destruct fuel as [|fuel]; [lia|].
    change (maxArrayCount <? maxArrayCount) with false. cbv iota. rewrite alloc_run. apply bind_err. cbn [repeat_read].
    change (maxArrayCount <=? 0) with false. cbv iota. by apply bind_err.
Qed.

Definition bomb_header : GGUFHeader := {| gh_Version := 3; gh_TensorCount := 0; gh_MetadataKVCount := 1 |}.

(** A file with one metadata entry under the empty key, a nest of arrays. *)
Definition bomb (n : nat) : string :=
  enc_header bomb_header +:+
  enc_string EmptyString +:+ le_encode 4 valueTypeArray +:+ nested n.

Lemma bomb_length (n : nat) : String.length (bomb n) = (36 + 12 * n)%nat.
Proof. unfold bomb, enc_header, enc_string. rewrite !length_app_str, !le_encode_length, nested_length. simpl. lia. Qed.

Lemma bomb_alloc (n fuel : nat) (k : Z) : (12 * n < fuel)%nat -> exists k', k + Z.of_nat n * maxArrayCount <= k' /\
  parseFile fuel (Build_pstate (bomb n) k) = (Err ErrRead, Build_pstate EmptyString k').
Proof.
  intros Hf. destruct (nested_alloc n fuel (k + 1)) as (k' & Hk & E); [done|]. exists k'. split; [lia|].
  unfold bomb, parseFile. rewrite (reads_run _ _ _ _ _ _ _ (reads_header bomb_header eq_refl eq_refl eq_refl)), Z.add_0_r.
  rewrite alloc_run. cbn [bomb_header gh_MetadataKVCount]. destruct fuel as [|fuel]; [lia|].
  apply bind_err. cbn [repeat_read]. change (1 <=? 0) with false. cbv iota. apply bind_err. unfold parseMetadataKV.
  rewrite (reads_run _ _ _ _ _ _ _ (reads_string EmptyString eq_refl)). apply bind_err. unfold readValue.
  rewrite (reads_run _ _ _ _ _ _ _ (reads_uint_small 4 32 valueTypeArray eq_refl eq_refl)).
  replace (k + Z.min 1 maxPreallocCount + Z.of_nat (String.length EmptyString) + 0) with (k + 1) by (unfold maxPreallocCount; simpl; lia).
  exact E.
Qed.

(** ** Properties *)


(** C37: a file is read back from its encoding.  For every file within the limits,
    [Parse] on its encoding followed by anything returns it, and the bytes that
    follow (the tensor data) are left unread. *)
Theorem Parse_encode (f : GGUFFile) (rest : string) :
  file_ok f = true ->
  exists st, Parse (encode f +:+ rest) = (Ok f, st) /\ ps_reader st = rest.
Proof.
  intros Hok. destruct (reads_file f (S (rd_left (encode f +:+ rest)))) as [k Hk]; [done| |].
  - change (String.length (encode f) < S (String.length (encode f +:+ rest)))%nat. rewrite length_app_str. lia.
  - eexists. unfold Parse. rewrite Hk. done.
Qed.

Definition sample_file : GGUFFile :=
  {| gf_Header := {| gh_Version := 3; gh_TensorCount := 1; gh_MetadataKVCount := 3 |};
     gf_Metadata := [{| kv_Key := "general.architecture"; kv_Value := StringVal "llama" |};
                     {| kv_Key := "llama.context_length"; kv_Value := Uint32Val 8192 |};
                     {| kv_Key := "scores"; kv_Value := ArrayVal [ArrayVal [Int8Val (-1)]; ArrayVal []] |}];
     gf_TensorInfo := [{| ti_Name := "w"; ti_Dimensions := [4096; 32]; ti_Type := 12; ti_Offset := 0 |}] |}.

Lemma Parse_encode_witness : exists st, Parse (encode sample_file +:+ "tensors") = (Ok sample_file, st) /\ ps_reader st = "tensors".
Proof. apply Parse_encode. vm_compute. reflexivity. Defined.

Example sample_context : ContextLength sample_file = 8192.
Proof. vm_compute. reflexivity. Qed.

(** The limits do not bound the memory a small file can claim.  For every [n]
    there is an input of [36 + 12 n] bytes on which [Parse] fails, but only after
    setting aside [n] slices of the largest allowed length, because a nested array
    header costs 12 bytes and the length it announces is allocated before any
    element is read. *)
Lemma nested_arrays_defeat_limits (n : nat) :
  String.length (bomb n) = (36 + 12 * n)%nat /\
  exists st, Parse (bomb n) = (Err ErrRead, st) /\ Z.of_nat n * maxArrayCount <= ps_alloc st.
Proof.
  split; [apply bomb_length|]. unfold Parse. destruct (bomb_alloc n (S (rd_left (bomb n))) 0) as (k & Hk & E).
  - change (12 * n < S (String.length (bomb n)))%nat. rewrite bomb_length. lia.
  - eexists. split; [exact E|]. simpl. lia.
Qed.
