(* ===== verification/GgufRemote.v ===== *)
(** * Reading GGUF metadata over HTTP (pkg/gguf/remote.go)

    [rangeReaderAt] answers reads from one cached chunk and fetches the next with a
    Range request; [ParseFromURL] parses through it, or streams the body when the
    server does not support ranges or the first attempt fails.  The server is a
    function from the requested range to a reply and the context's state is asked
    at each offset; both are arguments.

    The section reader over a [rangeReaderAt] is an instance of [Reader], so the
    parser runs over it unchanged; a simulation with the buffer shows that with a
    server that holds the file, reading by ranges gives what reading the file
    does. *)

From stdpp Require Import base strings list gmap.
From Stdlib Require Import ZArith Lia Bool Ascii.
From S2P Require Import Prelude GoStrings GoStrconv GoHttp Gguf GgufFacts.

Definition rangeChunkSize : Z := 1048576.
Definition StatusOK : Z := 200.
Definition StatusPartialContent : Z := 206.

(** A reply: the request failed, or a status with a body, which is [None] when
    reading it failed. *)
Inductive http_reply :=
| HttpFailed
| HttpReply (status : Z) (body : option string).

Record rangeReaderAt := {
  ra_size : Z;
  ra_chunk : string;
  ra_chunkOff : Z;
  ra_haveData : bool;
}.

(** At most the first [n] bytes. *)
Fixpoint take_bytes (n : nat) (s : string) : string :=
  match n, s with
  | S n', String c s' => String c (take_bytes n' s')
  | _, _ => EmptyString
  end.

Inductive read_status := ReadDone | ReadFailed | ReadStuck.

Section Remote.
Context (serve : Z -> Z -> http_reply) (ctxErr : Z -> bool).

Definition cacheCovers (r : rangeReaderAt) (off : Z) : bool :=
  ra_haveData r && (ra_chunkOff r <=? off) && (off <? ra_chunkOff r + Z.of_nat (String.length (ra_chunk r))).

Definition fetchChunk (r : rangeReaderAt) (off : Z) : option rangeReaderAt :=
  let last := wrap64 (off + rangeChunkSize - 1) in
  let last := if ra_size r <=? last then ra_size r - 1 else last in
  match serve off last with
  | HttpReply status (Some body) =>
      if negb (status =? StatusPartialContent) then None
      else
        let buf := take_bytes (Z.to_nat (wrap64 (last - off + 1))) body in
        if bool_decide (buf = EmptyString) then None
        else Some {| ra_size := ra_size r; ra_chunk := buf; ra_chunkOff := off; ra_haveData := true |}
  | _ => None
  end.

(** The loop of [ReadAt]: [need] bytes from offset [cur] on. *)
Fixpoint readLoop (fuel need : nat) (cur : Z) (r : rangeReaderAt) : string * read_status * rangeReaderAt :=
  match need with
  | O => (EmptyString, ReadDone, r)
  | _ =>
      match fuel with
      | O => (EmptyString, ReadStuck, r)
      | S fuel' =>
          if ctxErr cur then (EmptyString, ReadFailed, r)
          else if ra_size r <=? cur then (EmptyString, ReadFailed, r)
          else match (if cacheCovers r cur then Some r else fetchChunk r cur) with
               | None => (EmptyString, ReadFailed, r)
               | Some r =>
                   let copied := take_bytes need (drop_bytes (Z.to_nat (cur - ra_chunkOff r)) (ra_chunk r)) in
                   let n := String.length copied in
                   let '(more, status, r) := readLoop fuel' (need - n) (cur + Z.of_nat n) r in
                   (copied +:+ more, status, r)
               end
      end
  end.

(** Each round copies at least one byte, so [n] rounds are enough for [n] bytes. *)
Definition ReadAt (r : rangeReaderAt) (n : nat) (off : Z) : string * read_status * rangeReaderAt :=
  if off <? 0 then (EmptyString, ReadFailed, r)
  else if ra_size r <=? off then (EmptyString, ReadFailed, r)
  else readLoop n n off r.

(** [io.NewSectionReader(r, 0, size)]. *)
Record section := {
  sr_reader : rangeReaderAt;
  sr_off : Z;
}.

(** [io.ReadFull] on it: a short section ends in EOF on the second read. *)
Definition section_read (n : nat) (s : section) : option string * section :=
  match n with
  | O => (Some EmptyString, s)
  | _ =>
      let left := ra_size (sr_reader s) - sr_off s in
      if left <=? 0 then (None, s)
      else
        let m := Nat.min n (Z.to_nat left) in
        let '(b, status, r) := ReadAt (sr_reader s) m (sr_off s) in
        let s' := {| sr_reader := r; sr_off := sr_off s + Z.of_nat (String.length b) |} in
        match status with
        | ReadDone => if (m =? n)%nat then (Some b, s') else (None, s')
        | _ => (None, s')
        end
  end.

Definition section_left (s : section) : nat := Z.to_nat (ra_size (sr_reader s) - sr_off s).

Lemma take_bytes_length (n : nat) (s : string) : (String.length (take_bytes n s) <= n)%nat.
Proof. revert s. induction n as [|n IH]; intros [|c s]; simpl; try lia. specialize (IH s). lia. Qed.

Lemma fetchChunk_size (r r' : rangeReaderAt) (off : Z) : fetchChunk r off = Some r' -> ra_size r' = ra_size r.
Proof. unfold fetchChunk. repeat case_match; intros [= <-]; done. Qed.

Lemma readLoop_spec (fuel need : nat) (cur : Z) (r : rangeReaderAt) b st r' :
  readLoop fuel need cur r = (b, st, r') -> ra_size r' = ra_size r /\ (st = ReadDone -> String.length b = need).
Proof.
  revert need cur r b st r'. induction fuel as [|fuel IH]; intros [|need] cur r b st r'; cbn [readLoop]; try (by intros [= <- <- <-]).
  destruct (ctxErr cur); [by intros [= <- <- <-]|]. destruct (ra_size r <=? cur); [by intros [= <- <- <-]|].
  destruct (if cacheCovers r cur then Some r else fetchChunk r cur) as [r1|] eqn:E; [|by intros [= <- <- <-]].
  assert (Hs : ra_size r1 = ra_size r) by (destruct (cacheCovers r cur); [by injection E as <-|by apply fetchChunk_size in E]).
  set (copied := take_bytes (S need) (drop_bytes _ _)). pose proof (take_bytes_length (S need) (drop_bytes (Z.to_nat (cur - ra_chunkOff r1)) (ra_chunk r1))) as Hl.
  destruct (readLoop fuel (S need - String.length copied) _ r1) as [[more st'] r2] eqn:E2. intros [= <- <- <-].
  apply IH in E2 as [Hs2 Hd]. split; [congruence|]. intros Hst. rewrite length_app_str, (Hd Hst). fold copied in Hl. lia.
Qed.

Lemma ReadAt_spec (r : rangeReaderAt) (n : nat) (off : Z) b st r' :
  ReadAt r n off = (b, st, r') -> ra_size r' = ra_size r /\ (st = ReadDone -> String.length b = n).
Proof.
  unfold ReadAt. destruct (off <? 0); [by intros [= <- <- <-]|]. destruct (ra_size r <=? off); [by intros [= <- <- <-]|].
  apply readLoop_spec.
Qed.

Lemma section_read_Some (n : nat) (s s' : section) (b : string) :
  section_read n s = (Some b, s') -> String.length b = n /\ (n + section_left s' = section_left s)%nat.
Proof.
  unfold section_read, section_left. destruct n as [|n]; [by intros [= <- <-]|]. destruct (Z.leb_spec (ra_size (sr_reader s) - sr_off s) 0); [done|].
  destruct (ReadAt _ _ _) as [[b' st] r] eqn:E. apply ReadAt_spec in E as [Hs Hd].
  destruct st; try done. destruct (Nat.eqb_spec (Nat.min (S n) (Z.to_nat (ra_size (sr_reader s) - sr_off s))) (S n)); [|done].
  intros [= <- <-]. specialize (Hd eq_refl). simpl. rewrite Hs, Hd. lia.
Qed.

#[local] Instance section_reader : Reader section.
Proof.
  refine {| readFull := section_read; rd_left := section_left |}; intros n r b r' Hr;
    by destruct (section_read_Some _ _ _ _ Hr).
Defined.

(** [ParseReaderAt]. *)
Definition ParseReaderAt (r : rangeReaderAt) : result gguf_error GGUFFile :=
  (Parse {| sr_reader := r; sr_off := 0 |}).1.

(** The answer to the HEAD request is a status with headers, or nothing when it
    failed. *)
Definition probeURL (head : option (Z * Header)) : option (Z * bool) :=
  '(status, h) ← head;
  if negb (status =? StatusOK) then Some (0, false)
  else
    let rangeOK := Contains (ToLower (header_get h "Accept-Ranges")) "bytes" in
    let cl := header_get h "Content-Length" in
    let size := if bool_decide (cl = EmptyString) then 0 else default 0 (ParseInt 64 cl) in
    Some (size, rangeOK).

(** [None] is a request that failed or an unexpected status.  A body that cannot be
    read is one without bytes. *)
Definition parseFromURLStreaming (get : http_reply) : option (result gguf_error GGUFFile) :=
  match get with
  | HttpFailed => None
  | HttpReply status body =>
      if negb (status =? StatusOK) && negb (status =? StatusPartialContent) then None
      else Some (Parse (default EmptyString body)).1
  end.

Definition new_rangeReaderAt (size : Z) : rangeReaderAt :=
  {| ra_size := size; ra_chunk := EmptyString; ra_chunkOff := 0; ra_haveData := false |}.

Definition parseFromURL (head : option (Z * Header)) (get : http_reply) : option (result gguf_error GGUFFile) :=
  '(size, rangeOK) ← probeURL head;
  match (if rangeOK && (0 <? size) then ParseReaderAt (new_rangeReaderAt size) else Err ErrRead) with
  | Ok f => Some (Ok f)
  | Err _ => parseFromURLStreaming get
  end.

(** ** Bytes at an offset *)

Lemma drop_bytes_app (n : nat) (s : string) : s = take_bytes n s +:+ drop_bytes n s.
Proof. revert s. induction n as [|n IH]; intros [|c s]; [done..|]. cbn [take_bytes drop_bytes]. rewrite app_cons. by rewrite <- IH. Qed.

Lemma drop_bytes_drop (n m : nat) (s : string) : drop_bytes n (drop_bytes m s) = drop_bytes (m + n) s.
Proof.
  revert s. induction m as [|m IH]; intros s; [done|]. destruct s as [|c s]; [by destruct n|]. apply IH.
Qed.

Lemma drop_bytes_length (n : nat) (s : string) : String.length (drop_bytes n s) = (String.length s - n)%nat.
Proof. revert s. induction n as [|n IH]; intros [|c s]; simpl; auto with lia. Qed.

Lemma take_bytes_prefix (n : nat) (a b : string) : (n <= String.length a)%nat -> take_bytes n (a +:+ b) = take_bytes n a.
Proof.
  revert a. induction n as [|n IH]; intros [|c a] Hn; cbn [String.length] in Hn; [done|done|lia|]. rewrite app_cons. cbn [take_bytes]. by rewrite IH by lia.
Qed.

Lemma take_bytes_all (n : nat) (s : string) : (String.length s <= n)%nat -> take_bytes n s = s.
Proof. revert n. induction s as [|c s IH]; intros [|n] Hn; simpl in *; try done; try lia. by rewrite IH by lia. Qed.

Lemma take_bytes_length_eq (n : nat) (s : string) : String.length (take_bytes n s) = Nat.min n (String.length s).
Proof. revert s. induction n as [|n IH]; intros [|c s]; simpl; auto. Qed.

Lemma drop_bytes_prefix (n : nat) (a b : string) : (n <= String.length a)%nat -> drop_bytes n (a +:+ b) = drop_bytes n a +:+ b.
Proof. revert a. induction n as [|n IH]; intros [|c a] Hn; cbn [String.length] in Hn; [done|done|lia|]. rewrite app_cons. cbn [drop_bytes]. apply IH. lia. Qed.

Lemma split_bytes_take (n : nat) (s : string) :
  split_bytes n s = if (n <=? String.length s)%nat then Some (take_bytes n s, drop_bytes n s) else None.
Proof.
  revert s. induction n as [|n IH]; intros [|c s]; [done..|]. cbn [split_bytes]. rewrite IH.
  simpl. destruct (_ <=? _)%nat; done.
Qed.

(** ** A server that holds the file *)

Section Honest.
Context (content : string).
Let size : Z := Z.of_nat (String.length content).
Context (Hsmall : size + rangeChunkSize <= max_int64) (Hctx : forall off, ctxErr off = false).
(** Every range is answered with some bytes of the file from its start on. *)
Context (Hserve : forall off last, 0 <= off <= last -> last < size -> exists b more,
  serve off last = HttpReply StatusPartialContent (Some b) /\ b ≠ EmptyString /\ drop_bytes (Z.to_nat off) content = b +:+ more).

Definition cache_ok (r : rangeReaderAt) : Prop :=
  ra_size r = size /\
  (ra_haveData r = true -> 0 <= ra_chunkOff r /\ exists more, drop_bytes (Z.to_nat (ra_chunkOff r)) content = ra_chunk r +:+ more).

Lemma app_empty_inv (a b : string) : a +:+ b = EmptyString -> a = EmptyString.
Proof. destruct a; [done|]. by rewrite app_cons. Qed.

Lemma fetchChunk_honest (r : rangeReaderAt) (cur : Z) : cache_ok r -> 0 <= cur < size ->
  exists r', fetchChunk r cur = Some r' /\ cache_ok r' /\ cacheCovers r' cur = true.
Proof.
  intros [Hs _] Hc. unfold fetchChunk. rewrite Hs. unfold rangeChunkSize, max_int64, two63 in *.
  rewrite (wrap64_small (cur + 1048576 - 1)) by (unfold in_int64, min_int64, max_int64, two63; lia).
  set (last := if size <=? _ then _ else _).
  assert (Hl : cur <= last < size /\ last - cur < 1048576) by (unfold last; case_if; to_prop; lia).
  destruct (Hserve cur last) as (b & more & -> & Hb & Hd); [lia|lia|].
  rewrite (wrap64_small (last - cur + 1)) by (unfold in_int64, min_int64, max_int64, two63; lia). simpl.
  destruct (Z.to_nat (last - cur + 1)) as [|n] eqn:En; [lia|]. destruct b as [|c b]; [done|].
  rewrite bool_decide_eq_false_2 by done. eexists. split; [done|]. split.
  - split; [done|]. intros _. simpl. split; [lia|]. exists (drop_bytes n b +:+ more).
    rewrite Hd, !app_cons, <- app_assoc_str, <- drop_bytes_app. done.
  - unfold cacheCovers. simpl. rewrite Z.leb_refl. simpl. apply Z.ltb_lt. lia.
Qed.

(** The cached bytes from a covered offset on. *)
Lemma covered (r : rangeReaderAt) (cur : Z) : cache_ok r -> cacheCovers r cur = true ->
  exists d more, drop_bytes (Z.to_nat (cur - ra_chunkOff r)) (ra_chunk r) = d /\ (1 <= String.length d)%nat /\
    drop_bytes (Z.to_nat cur) content = d +:+ more.
Proof.
  intros [_ Hc]. unfold cacheCovers. intros H. to_prop. destruct Hc as (Hpos & more & Hd); [done|].
  eexists _, more. split; [done|]. split; [rewrite drop_bytes_length; lia|].
  replace (Z.to_nat cur) with (Z.to_nat (ra_chunkOff r) + Z.to_nat (cur - ra_chunkOff r))%nat by lia.
  rewrite <- drop_bytes_drop, Hd, drop_bytes_prefix by lia. done.
Qed.

Lemma take_bytes_split (n m : nat) (s : string) : (n <= m)%nat -> take_bytes m s = take_bytes n s +:+ take_bytes (m - n) (drop_bytes n s).
Proof.
  revert m s. induction n as [|n IH]; intros m s Hn; [cbn; by rewrite Nat.sub_0_r|].
  destruct m as [|m]; [lia|]. destruct s as [|c s]; [by destruct (S m - S n)%nat|].
  cbn [take_bytes drop_bytes]. rewrite app_cons, (IH m s) by lia. done.
Qed.

Lemma readLoop_honest (fuel need : nat) (cur : Z) (r : rangeReaderAt) :
  cache_ok r -> 0 <= cur -> cur + Z.of_nat need <= size -> (need <= fuel)%nat ->
  exists r', readLoop fuel need cur r = (take_bytes need (drop_bytes (Z.to_nat cur) content), ReadDone, r') /\ cache_ok r'.
Proof.
  revert need cur r. induction fuel as [|fuel IH]; intros [|need] cur r Hr Hc Hn Hf; try lia; cbn [readLoop]; [by eauto..|].
  rewrite Hctx. destruct Hr as [Hs Hr]. rewrite (proj2 (Z.leb_gt _ _)) by (rewrite Hs; lia).
  assert (exists r1, (if cacheCovers r cur then Some r else fetchChunk r cur) = Some r1 /\ cache_ok r1 /\ cacheCovers r1 cur = true)
    as (r1 & -> & Hr1 & Hc1).
  { destruct (cacheCovers r cur) eqn:E; [by exists r|]. apply fetchChunk_honest; [done|lia]. }
  destruct (covered r1 cur Hr1 Hc1) as (d & more & -> & Hd & Hcont).
  set (n := Nat.min (S need) (String.length d)). assert (En : String.length (take_bytes (S need) d) = n) by apply take_bytes_length_eq.
  rewrite En. destruct (IH (S need - n)%nat (cur + Z.of_nat n) r1) as (r2 & -> & Hr2); [done|lia..|].
  exists r2. split; [|done]. do 2 f_equal.
  replace (Z.to_nat (cur + Z.of_nat n)) with (Z.to_nat cur + n)%nat by lia. rewrite <- drop_bytes_drop, Hcont.
  rewrite (take_bytes_split n (S need) (d +:+ more)) by lia. f_equal. rewrite take_bytes_prefix by lia.
  destruct (Nat.le_gt_cases (S need) (String.length d)); [f_equal; lia|]. rewrite !take_bytes_all by lia. done.
Qed.

(** ** The parser over ranges and over the file *)

(** Both readers stand at the same byte. *)
Definition sim (st : pstate section) (st' : pstate string) : Prop :=
  ps_alloc st = ps_alloc st' /\ cache_ok (sr_reader (ps_reader st)) /\ 0 <= sr_off (ps_reader st) <= size /\
  drop_bytes (Z.to_nat (sr_off (ps_reader st))) content = ps_reader st'.

Definition same_answer {A : Type} (x : result gguf_error A * pstate section) (y : result gguf_error A * pstate string) : Prop :=
  x.1 = y.1 /\ (forall a, x.1 = Ok a -> sim x.2 y.2).

Definition agree {A : Type} (p : parser section A) (q : parser string A) : Prop :=
  forall st st', sim st st' -> same_answer (p st) (q st').

Lemma agree_ret {A : Type} (a : A) : agree (mret a) (mret a).
Proof. by intros st st' H. Qed.

Lemma agree_fail {A : Type} (e : gguf_error) : agree (fail (A:=A) e) (fail e).
Proof. intros st st' H. split; [done|]. done. Qed.

Lemma agree_alloc (n : Z) : agree (alloc n) (alloc n).
Proof. intros st st' (Ha & H). split; [done|]. intros _ _. unfold sim. simpl. rewrite Ha. done. Qed.

Lemma agree_bind {A B : Type} (p : parser section A) q (f : A -> parser section B) g :
  agree p q -> (forall a, agree (f a) (g a)) -> agree (p ≫= f) (q ≫= g).
Proof.
  intros Hp Hf st st' H. destruct (Hp st st' H) as [He Hs]. unfold mbind, parser_bind.
  destruct (p st) as [[a|e] s1], (q st') as [[b|e'] s2]; simpl in *; simplify_eq.
  - apply Hf. by eapply Hs.
  - split; [done|]. done.
Qed.

Lemma agree_if {A : Type} (c : bool) (p p' : parser section A) q q' : agree p q -> agree p' q' -> agree (if c then p else p') (if c then q else q').
Proof. by destruct c. Qed.

Lemma agree_read_bytes (n : nat) : agree (read_bytes n) (read_bytes n).
Proof.
  intros [[r off] al] [rest al'] (Ha & Hr & Hoff & Hd). unfold read_bytes. simpl in *. subst al' rest.
  unfold buffer_read. rewrite split_bytes_take, drop_bytes_length. unfold section_read.
  destruct n as [|n]; [by repeat split; try apply Hr; simpl; try lia|]. simpl sr_reader. simpl sr_off.
  rewrite (proj1 Hr). destruct (Z.leb_spec (size - off) 0).
  { rewrite (proj2 (Nat.leb_gt _ _)) by (unfold size in *; lia). split; [done|]. done. }
  set (m := Nat.min (S n) _). unfold ReadAt. rewrite (proj2 (Z.ltb_ge _ _)), (proj1 Hr), (proj2 (Z.leb_gt _ _)) by lia.
  destruct (readLoop_honest m m off r) as (r' & -> & Hr'); [done|lia|unfold m; lia|lia|].
  destruct (Nat.eqb_spec m (S n)) as [Hm|Hm].
  - assert (Hle : (S n <= String.length content - Z.to_nat off)%nat) by (unfold m, size in *; lia).
    rewrite (proj2 (Nat.leb_le _ _)) by done. rewrite <- Hm. split; [done|]. intros _ _.
    assert (Hl : String.length (take_bytes m (drop_bytes (Z.to_nat off) content)) = m) by (rewrite take_bytes_length_eq, drop_bytes_length; lia).
    unfold sim. cbn [ps_alloc ps_reader sr_reader sr_off snd]. rewrite Hl. split; [done|]. split; [done|].
    split; [unfold m, size in *; lia|]. rewrite drop_bytes_drop. f_equal. lia.
  - rewrite (proj2 (Nat.leb_gt _ _)) by (unfold m, size in *; lia). split; [done|]. done.
Qed.

Ltac agreeing := repeat first
  [ assumption | apply agree_ret | apply agree_fail | apply agree_alloc | apply agree_read_bytes | apply agree_if
  | apply agree_bind; [|intros ?] ].

Lemma agree_uint (n : nat) : agree (read_uint n) (read_uint n).
Proof. unfold read_uint. agreeing. Qed.

Lemma agree_repeat {A : Type} (fuel : nat) (p : parser section A) q (count : Z) :
  agree p q -> agree (repeat_read fuel p count) (repeat_read fuel q count).
Proof. intros Hp. revert count. induction fuel as [|fuel IH]; intros count; cbn [repeat_read]; agreeing. apply IH. Qed.

Lemma agree_string : agree readString readString.
Proof. unfold readString. agreeing; apply agree_uint. Qed.

Lemma agree_value (fuel : nat) (ty : Z) : agree (readValueData fuel ty) (readValueData fuel ty).
Proof.
  revert ty. induction fuel as [|fuel IH]; intros ty; [apply agree_fail|]. cbn [readValueData]. agreeing;
    first [apply agree_uint | apply agree_string | apply agree_repeat, IH].
Qed.

Lemma agree_file (fuel : nat) : agree (parseFile fuel) (parseFile fuel).
Proof.
  unfold parseFile, parseHeader, parseMetadataKV, parseTensorInfo, readValue.
  agreeing; try apply agree_uint; apply agree_repeat; agreeing;
    first [apply agree_uint | apply agree_string | apply agree_value | apply agree_repeat, agree_uint].
Qed.

Lemma ParseReaderAt_honest : ParseReaderAt (new_rangeReaderAt size) = (Parse content).1.
Proof.
  unfold ParseReaderAt, Parse. simpl rd_left. unfold section_left. simpl. rewrite Z.sub_0_r. unfold size at 1. rewrite Nat2Z.id.
  apply agree_file. repeat split; simpl; unfold size; try lia. done.
Qed.

Lemma parseFromURL_honest (head : option (Z * Header)) (get : http_reply) (len : Z) (rangeOK : bool) :
  probeURL head = Some (len, rangeOK) -> (rangeOK = true -> 0 < len -> len = size) ->
  parseFromURLStreaming get = Some (Parse content).1 ->
  parseFromURL head get = Some (Parse content).1.
Proof.
  intros Hp Hl Hg. unfold parseFromURL. rewrite Hp. simpl. destruct (rangeOK && (0 <? len)) eqn:E; [|done].
  to_prop. rewrite Hl, ParseReaderAt_honest by done. destruct (Parse content).1; done.
Qed.

End Honest.
End Remote.

(** C39: a GGUF file is read the same over HTTP as from disk: when the server holds
    the file, states its length if it offers ranges, and answers every range with
    some bytes of the file from the start of the range on, however few or many,
    then parsing through the ranges returns exactly what parsing the file returns
    (the chunk cache and the loop of [ReadAt] lose, repeat or invent no byte), and
    so does [ParseFromURL], whether it read by ranges or streamed the body. *)
Theorem parseFromURL_is_Parse (serve : Z -> Z -> http_reply) (ctxErr : Z -> bool) (content : string)
    (head : option (Z * Header)) (len status : Z) (rangeOK : bool) :
  Z.of_nat (String.length content) + rangeChunkSize <= max_int64 ->
  (forall off, ctxErr off = false) ->
  (forall off last, 0 <= off <= last -> last < Z.of_nat (String.length content) -> exists b more,
     serve off last = HttpReply StatusPartialContent (Some b) /\ b ≠ EmptyString /\
     drop_bytes (Z.to_nat off) content = b +:+ more) ->
  probeURL head = Some (len, rangeOK) ->
  (rangeOK = true -> 0 < len -> len = Z.of_nat (String.length content)) ->
  status ∈ [StatusOK; StatusPartialContent] ->
  ParseReaderAt serve ctxErr (new_rangeReaderAt (Z.of_nat (String.length content))) = (Parse content).1 /\
  parseFromURL serve ctxErr head (HttpReply status (Some content)) = Some (Parse content).1.
Proof.
  intros Hs Hc Hv Hp Hl Hst. split; [by apply ParseReaderAt_honest|]. eapply parseFromURL_honest; eauto. set_unfold.
  by destruct Hst as [->|[->|[]]].
Qed.

(** A server that sends a byte at a time. *)
Definition slow_server (content : string) (off last : Z) : http_reply :=
  HttpReply StatusPartialContent (Some (take_bytes 1 (drop_bytes (Z.to_nat off) content))).

Lemma slow_server_honest (content : string) (off last : Z) : 0 <= off <= last -> last < Z.of_nat (String.length content) -> exists b more,
  slow_server content off last = HttpReply StatusPartialContent (Some b) /\ b ≠ EmptyString /\ drop_bytes (Z.to_nat off) content = b +:+ more.
Proof.
  intros H1 H2. eexists _, (drop_bytes 1 (drop_bytes (Z.to_nat off) content)). split; [done|]. split; [|apply drop_bytes_app].
  pose proof (drop_bytes_length (Z.to_nat off) content) as Hl. destruct (drop_bytes (Z.to_nat off) content); [|done].
  simpl in Hl. lia.
Qed.

Lemma parseFromURL_is_Parse_witness :
  let content := encode sample_file in
  let h : Header := header_set (header_set ∅ "Content-Length" (Itoa (Z.of_nat (String.length content)))) "Accept-Ranges" "bytes" in
  parseFromURL (slow_server content) (fun _ => false) (Some (200, h)) (HttpReply 200 (Some content)) = Some (Ok sample_file) /\
  probeURL (Some (200, h)) = Some (Z.of_nat (String.length content), true).
Proof.
  intros content h. assert (Hp : probeURL (Some (200, h)) = Some (Z.of_nat (String.length content), true)) by (by vm_compute).
  split; [|done]. transitivity (Some (Parse content).1); [|by vm_compute].
  apply (parseFromURL_is_Parse (slow_server content) (fun _ => false) content (Some (200, h)) (Z.of_nat (String.length content)) 200 true);
    [by vm_compute|done|apply slow_server_honest|done|done|by left].
Defined.
