(* ===== verification/GpuSharing.v ===== *)
(** * GPU sharing and parallelism (pkg/apiutil, gpu_sharing.go, gpu_sharding.go)

    What one InferenceService with its Model asks of a device: how many GPUs, under
    which extended resource, how much device memory, and whether the parallelism it
    declares fits.  The resources are records of the fields these functions read.
    A fallible function returns the sentinel of its message with the values in it.
    [strings.ToLower] and [strings.EqualFold] are exact on ASCII text. *)

From stdpp Require Import base strings list gmap.
From Stdlib Require Import ZArith Lia Bool Ascii.
From S2P Require Import Prelude GoStrings GoStrconv.

(** ** Resources *)

Record GPUSharingSpec := {
  gs_Mode : string;
  gs_Profile : string;
  gs_MemoryLimitGiB : option Z;
}.

Record InferenceResourceRequirements := {
  rq_GPU : Z;
  rq_GPUSharing : option GPUSharingSpec;
}.

Record AutoscalingSpec := {
  as_MaxReplicas : Z;
}.

Record VLLMConfig := {
  vl_TensorParallelSize : option Z;
  vl_PipelineParallelSize : option Z;
}.

Record SGLangConfig := {
  sg_TensorParallelSize : option Z;
  sg_ExpertParallelSize : option Z;
  sg_DataParallelSize : option Z;
}.

(** The members by the node each is pinned to. *)
Record MultiNodeSpec := {
  mn_Members : list string;
}.

Record InferenceService := {
  is_Name : string;
  is_Namespace : string;
  is_Labels : gmap string string;
  is_ModelRef : string;
  is_Runtime : string;
  is_Replicas : option Z;
  is_Autoscaling : option AutoscalingSpec;
  is_Priority : string;
  is_Resources : option InferenceResourceRequirements;
  is_VLLMConfig : option VLLMConfig;
  is_SGLangConfig : option SGLangConfig;
  is_MultiNode : option MultiNodeSpec;
}.

Record GPUSpec := {
  gpu_Count : Z;
  gpu_Memory : string;
  gpu_Vendor : string;
  gpu_ResourceName : string;
  gpu_TolerationKey : string;
  gpu_Runtime : string;
  gpu_ResourceClaims : list string;
}.

Record HardwareSpec := {
  hw_Accelerator : string;
  hw_GPU : option GPUSpec;
}.

Record Model := {
  mo_Name : string;
  mo_Hardware : option HardwareSpec;
}.

Record GPUShardingSpec := {
  sh_Strategy : string;
  sh_LayerSplit : list string;
}.

Definition GPUSharingModeExclusive : string := "exclusive".
Definition GPUSharingModeShared : string := "shared".
Definition GPUSharingModePartitioned : string := "partitioned".

(** ** pkg/apiutil *)

Definition nvidiaGPUResourceName : string := "nvidia.com/gpu".
Definition amdGPUResourceName : string := "amd.com/gpu".
Definition intelGPUResourceNameI915 : string := "gpu.intel.com/i915".
Definition vulkanDRIResourceName : string := "devic.es/dri-render".

Definition isRuntime (runtime want : string) : bool := EqualFold (TrimSpace runtime) want.

(** [model.Spec.Hardware.GPU] through its nil checks. *)
Definition model_gpu (model : option Model) : option GPUSpec :=
  m ← model; h ← mo_Hardware m; hw_GPU h.

Definition GPUResourceName (model : option Model) : string :=
  match model_gpu model with
  | None => nvidiaGPUResourceName
  | Some g =>
      let override := TrimSpace (gpu_ResourceName g) in
      if negb (bool_decide (override = EmptyString)) then override
      else
        let vendor := ToLower (TrimSpace (gpu_Vendor g)) in
        if bool_decide (vendor = "amd") then
          if isRuntime (gpu_Runtime g) "vulkan" || isRuntime (gpu_Runtime g) "rocm" then vulkanDRIResourceName
          else amdGPUResourceName
        else if bool_decide (vendor = "intel") then intelGPUResourceNameI915
        else nvidiaGPUResourceName
  end.

Definition GPUCount (isvc : InferenceService) (model : option Model) : Z :=
  let fallback :=
    match is_Resources isvc with
    | Some r => if 0 <? rq_GPU r then rq_GPU r else 0
    | None => 0
    end in
  match model_gpu model with
  | Some g => if 0 <? gpu_Count g then gpu_Count g else fallback
  | None => fallback
  end.

Definition UsesDRAClaims (model : option Model) : bool :=
  match model_gpu model with
  | Some g => negb (bool_decide (gpu_ResourceClaims g = []))
  | None => false
  end.

(** ** Sharing modes *)

Inductive sharing_error :=
| SharingNeedsOneGPU (mode : string) (count : Z)
| SharingWithClaims (mode : string)
| SharingUnknownMode (mode : string)
| PartitionedVendor (vendor : string)
| PartitionedOverride (override : string)
| PartitionedProfile (profile : string)
| SharedNoPool
| SharingVLLMParallelism (mode : string)
| SharingSGLangParallelism (mode : string)
| MultiNodeWorldSize (tp pp expected members count : Z)
| VLLMTensorExceeds (tp count : Z)
| VLLMWorldExceeds (tp pp count : Z)
| SGLangWorldExceeds (tp dp count : Z)
| SGLangExpertExceeds (ep count : Z)
| RuntimePlacement (runtime name : string)
| MultiNodeClaims.

(** The digits at the start of a string, and the rest. *)
Fixpoint span_digits (s : string) : string * string :=
  match s with
  | String c s' => if is_digit c then let '(a, b) := span_digits s' in (String c a, b) else (EmptyString, s)
  | EmptyString => (EmptyString, EmptyString)
  end.

(** The regular expression [^[0-9]+g\.([0-9]+)gb$]; the result is its group. *)
Definition migProfileVRAMPattern (profile : string) : option string :=
  let '(slices, rest) := span_digits profile in
  if bool_decide (slices = EmptyString) then None
  else rest ← CutPrefix rest "g.";
       let '(gib, rest) := span_digits rest in
       if bool_decide (gib = EmptyString) then None
       else if bool_decide (rest = "gb") then Some gib else None.

Definition migProfilePattern (profile : string) : bool := bool_decide (is_Some (migProfileVRAMPattern profile)).

Definition migResourcePrefix : string := "nvidia.com/mig-".

Record gpuSharingResolution := {
  rs_resourceName : string;
  rs_tolerationKey : string;
  rs_nodeSelector : gmap string string;
}.

Definition sharing_of (isvc : InferenceService) : option GPUSharingSpec := r ← is_Resources isvc; rq_GPUSharing r.

Definition gpuSharingMode (isvc : InferenceService) : string :=
  match sharing_of isvc with
  | None => GPUSharingModeExclusive
  | Some g => if bool_decide (gs_Mode g = EmptyString) then GPUSharingModeExclusive else gs_Mode g
  end.

Definition gpuResourceNameForSpec (model : option Model) : string := GPUResourceName model.

(** The trimmed toleration key of the Model, empty when there is none. *)
Definition toleration_override (model : option Model) : string :=
  match model_gpu model with Some g => TrimSpace (gpu_TolerationKey g) | None => EmptyString end.

Definition gpuTolerationKeyForSpec (model : option Model) : string :=
  if negb (bool_decide (toleration_override model = EmptyString)) then toleration_override model
  else gpuResourceNameForSpec model.

Definition resolveGPUCount (isvc : InferenceService) (model : option Model) : Z := GPUCount isvc model.

(** The nil-safe count of the sharing checks: with no Model, the declared number as
    it stands. *)
Definition nil_safe_count (isvc : InferenceService) (model : option Model) : Z :=
  match model with
  | Some _ => resolveGPUCount isvc model
  | None => match is_Resources isvc with Some r => rq_GPU r | None => 0 end
  end.

Definition modelResourceClaims (model : option Model) : list string :=
  match model_gpu model with Some g => gpu_ResourceClaims g | None => [] end.

Definition resolvePartitioned (isvc : InferenceService) (model : option Model) : result sharing_error gpuSharingResolution :=
  _ ← match model_gpu model with
      | Some g =>
          let vendor := ToLower (TrimSpace (gpu_Vendor g)) in
          let override := TrimSpace (gpu_ResourceName g) in
          _ ← when (negb (bool_decide (vendor = EmptyString)) && negb (bool_decide (vendor = "nvidia"))) (PartitionedVendor vendor);
          when (negb (bool_decide (override = EmptyString))) (PartitionedOverride override)
      | None => Ok tt
      end;
  let profile := TrimSpace (match sharing_of isvc with Some g => gs_Profile g | None => EmptyString end) in
  _ ← when (negb (migProfilePattern profile)) (PartitionedProfile profile);
  let resourceName := migResourcePrefix +:+ profile in
  let key := toleration_override model in
  Ok {| rs_resourceName := resourceName;
        rs_tolerationKey := if negb (bool_decide (key = EmptyString)) then key else resourceName;
        rs_nodeSelector := ∅ |}.

Definition resolveShared (model : option Model) (exclusive : gpuSharingResolution) (sharedPoolSelector : gmap string string)
    : result sharing_error gpuSharingResolution :=
  let amd := match model_gpu model with Some g => EqualFold (TrimSpace (gpu_Vendor g)) "amd" | None => false end in
  if amd then Ok exclusive
  else
    _ ← when (bool_decide (sharedPoolSelector = ∅)) SharedNoPool;
    Ok {| rs_resourceName := rs_resourceName exclusive;
          rs_tolerationKey := rs_tolerationKey exclusive;
          rs_nodeSelector := sharedPoolSelector |}.

Definition resolveGPUSharing (isvc : InferenceService) (model : option Model) (sharedPoolSelector : gmap string string)
    : result sharing_error gpuSharingResolution :=
  let exclusive := {| rs_resourceName := gpuResourceNameForSpec model;
                      rs_tolerationKey := gpuTolerationKeyForSpec model;
                      rs_nodeSelector := ∅ |} in
  let mode := gpuSharingMode isvc in
  if bool_decide (mode = GPUSharingModeExclusive) then Ok exclusive
  else
    let count := nil_safe_count isvc model in
    _ ← when (negb (count =? 1)) (SharingNeedsOneGPU mode count);
    _ ← when (negb (bool_decide (modelResourceClaims model = []))) (SharingWithClaims mode);
    if bool_decide (mode = GPUSharingModePartitioned) then resolvePartitioned isvc model
    else if bool_decide (mode = GPUSharingModeShared) then resolveShared model exclusive sharedPoolSelector
    else Err (SharingUnknownMode mode).

(** ** Device memory *)

Definition bytesPerGiB : Z := 1073741824.

(** [parseQuantity] is [resource.ParseQuantity] of the Kubernetes API machinery
    followed by [Value]. *)
Definition podVRAMBytes (parseQuantity : string -> option Z) (isvc : InferenceService) (model : option Model) (vramPerDeviceGiB : Z)
    : option Z :=
  let mode := gpuSharingMode isvc in
  if bool_decide (mode = GPUSharingModePartitioned) then
    let profile := TrimSpace (match sharing_of isvc with Some g => gs_Profile g | None => EmptyString end) in
    m ← migProfileVRAMPattern profile;
    gib ← ParseInt 32 m;
    if 0 <? gib then Some (wrap64 (gib * bytesPerGiB)) else None
  else if bool_decide (mode = GPUSharingModeShared) then
    match (g ← sharing_of isvc; limit ← gs_MemoryLimitGiB g; if 0 <? limit then Some limit else None) with
    | Some limit => Some (wrap64 (limit * bytesPerGiB))
    | None =>
        g ← model_gpu model;
        let mem := TrimSpace (gpu_Memory g) in
        if bool_decide (mem = EmptyString) then None
        else q ← parseQuantity mem; if 0 <? q then Some q else None
    end
  else
    if vramPerDeviceGiB <=? 0 then None
    else
      let count := nil_safe_count isvc model in
      if count <=? 0 then Some 0
      else Some (wrap64 (wrap64 (count * vramPerDeviceGiB) * bytesPerGiB)).

(** ** Parallelism *)

Definition over (v : option Z) : bool := match v with Some n => 1 <? n | None => false end.

Definition gpuSharingParallelismConflict (isvc : InferenceService) : result sharing_error unit :=
  let mode := gpuSharingMode isvc in
  if bool_decide (mode = GPUSharingModeExclusive) then Ok tt
  else
    _ ← when (match is_VLLMConfig isvc with Some cfg => over (vl_TensorParallelSize cfg) | None => false end) (SharingVLLMParallelism mode);
    when (match is_SGLangConfig isvc with
          | Some cfg => over (sg_TensorParallelSize cfg) || over (sg_ExpertParallelSize cfg) || over (sg_DataParallelSize cfg)
          | None => false
          end) (SharingSGLangParallelism mode).

(** The tensor and pipeline sizes, the world size and whether a size was given. *)
Definition multiNodeParallelism (cfg : option VLLMConfig) (members gpuPerMember : Z) : Z * Z * Z * bool :=
  let expected := wrap32 (members * gpuPerMember) in
  let ppo := cfg ≫= vl_PipelineParallelSize in
  let tpo := cfg ≫= vl_TensorParallelSize in
  let pp := default 1 ppo in
  let tp := if (0 <? pp) && (Z.rem expected pp =? 0) then Z.quot expected pp else expected in
  (default tp tpo, pp, expected, bool_decide (is_Some ppo) || bool_decide (is_Some tpo)).

Definition vllm_exceeds (cfg : VLLMConfig) (count : Z) : result sharing_error unit :=
  match vl_TensorParallelSize cfg, vl_PipelineParallelSize cfg with
  | None, None => Ok tt
  | tpo, ppo =>
      let tp := default count tpo in
      let pp := default 1 ppo in
      _ ← when (negb (bool_decide (is_Some ppo)) && (count <? tp)) (VLLMTensorExceeds tp count);
      when (count <? wrap32 (tp * pp)) (VLLMWorldExceeds tp pp count)
  end.

Definition sglang_exceeds (cfg : SGLangConfig) (count : Z) : result sharing_error unit :=
  let tpo := sg_TensorParallelSize cfg in
  let dpo := sg_DataParallelSize cfg in
  let tp := default 1 tpo in
  let dp := default 1 dpo in
  _ ← when ((bool_decide (is_Some tpo) || bool_decide (is_Some dpo)) && (count <? wrap32 (tp * dp))) (SGLangWorldExceeds tp dp count);
  match sg_ExpertParallelSize cfg with
  | Some ep => when (count <? ep) (SGLangExpertExceeds ep count)
  | None => Ok tt
  end.

Definition parallelismExceedsGPUCount (isvc : InferenceService) (model : option Model) : result sharing_error unit :=
  let count := nil_safe_count isvc model in
  if count =? 0 then Ok tt
  else
    match is_MultiNode isvc with
    | Some mn =>
        let members := wrap32 (Z.of_nat (length (mn_Members mn))) in
        let '(tp, pp, expected, explicit) := multiNodeParallelism (is_VLLMConfig isvc) members count in
        when (explicit && negb (wrap32 (tp * pp) =? expected)) (MultiNodeWorldSize tp pp expected members count)
    | None =>
        _ ← match is_VLLMConfig isvc with Some cfg => vllm_exceeds cfg count | None => Ok tt end;
        match is_SGLangConfig isvc with Some cfg => sglang_exceeds cfg count | None => Ok tt end
    end.

(** ** Placement of the runtime (runtime.go, multinode.go) *)

Definition IsMetalOnlyRuntime (runtime : string) : bool :=
  bool_decide (runtime ∈ ["mlx-server"; "omlx"; "ollama"; "vllm-swift"; "tensorfold"]).

Definition isMetalModel (model : Model) : bool :=
  match mo_Hardware model with
  | Some h => bool_decide (hw_Accelerator h = "metal")
  | None => false
  end.

Definition validateRuntimePlacement (isvc : InferenceService) (model : option Model) : result sharing_error unit :=
  match model with
  | None => Ok tt
  | Some m => when (IsMetalOnlyRuntime (is_Runtime isvc) && negb (isMetalModel m)) (RuntimePlacement (is_Runtime isvc) (mo_Name m))
  end.

Definition multiNodeResourceClaimsConflict (isvc : InferenceService) (model : option Model) : result sharing_error unit :=
  match is_MultiNode isvc, model with
  | Some _, Some _ => when (negb (bool_decide (modelResourceClaims model = []))) MultiNodeClaims
  | _, _ => Ok tt
  end.

(** ** The shared pool's flag *)

(** One [key=value] entry into the selector. *)
Definition pool_entry (selector : gmap string string) (entry : string) : result string (gmap string string) :=
  match CutByte (TrimSpace entry) "="%char with
  | None => Err entry
  | Some (k, v) =>
      let key := TrimSpace k in
      let value := TrimSpace v in
      if bool_decide (key = EmptyString) || bool_decide (value = EmptyString) then Err entry
      else Ok (<[key := value]> selector)
  end.

Fixpoint pool_entries (selector : gmap string string) (pairs : list string) : result string (gmap string string) :=
  match pairs with
  | [] => Ok selector
  | entry :: rest => selector ← pool_entry selector entry; pool_entries selector rest
  end.

(** The error is the entry it complains about. *)
Definition ParseGPUSharingSharedPoolSelector (flagValue : string) : result string (gmap string string) :=
  let flagValue := TrimSpace flagValue in
  if bool_decide (flagValue = EmptyString) then Ok ∅ else pool_entries ∅ (SplitByte flagValue ","%char).

(** ** The readiness path's resource (gpu_resources.go) *)

Definition intelGPUResourceNameXE : string := "gpu.intel.com/xe".
Definition defaultInsufficientGPUHint : string := "Insufficient ".

(** [env] is the value of LLMKUBE_INTEL_GPU_RESOURCE, empty when unset. *)
Definition resolveIntelGPUResourceName (env : string) : string :=
  let configured := TrimSpace env in
  if bool_decide (configured = EmptyString) then intelGPUResourceNameI915 else configured.

Definition resolveGPUResourceName (env : string) (model : option Model) : string :=
  match m ← model; mo_Hardware m with
  | None => nvidiaGPUResourceName
  | Some h =>
      if EqualFold (hw_Accelerator h) "intel" then resolveIntelGPUResourceName env
      else if match hw_GPU h with Some g => EqualFold (gpu_Vendor g) "intel" | None => false end then resolveIntelGPUResourceName env
      else if EqualFold (hw_Accelerator h) "vulkan" then vulkanDRIResourceName
      else if EqualFold (hw_Accelerator h) "rocm" then vulkanDRIResourceName
      else nvidiaGPUResourceName
  end.

(** The containers by their limits. *)
Definition podGPULimit (containers : list (gmap string Z)) (name : string) : Z :=
  fold_left (fun total limits => match limits !! name with Some q => wrap64 (total + q) | None => total end) containers 0.

Definition detectInsufficientGPUResource (env message : string) : option string :=
  let configured := resolveIntelGPUResourceName env in
  let candidates := [nvidiaGPUResourceName; intelGPUResourceNameI915; intelGPUResourceNameXE; vulkanDRIResourceName] in
  let candidates :=
    if negb (bool_decide (configured = intelGPUResourceNameI915)) && negb (bool_decide (configured = intelGPUResourceNameXE))
    then candidates ++ [configured] else candidates in
  List.find (fun resourceName => Contains message (defaultInsufficientGPUHint +:+ resourceName)) candidates.

(** ** Sharding over GPUs (gpu_sharding.go) *)

Definition splitModeLayer : string := "layer".
Definition splitModeRow : string := "row".
Definition splitModeNone : string := "none".

Definition resolveSplitMode (sharding : option GPUShardingSpec) : string :=
  match sharding with
  | None => splitModeLayer
  | Some s =>
      if bool_decide (sh_Strategy s ∈ [splitModeRow; "tensor"]) then splitModeRow
      else if bool_decide (sh_Strategy s = splitModeNone) then splitModeNone
      else splitModeLayer
  end.

(** A range of layers, [start-end]. *)
Definition parseLayerRange (s : string) : option (Z * Z) :=
  '(a, b) ← CutByte s "-"%char;
  start ← Atoi (TrimSpace a);
  last ← Atoi (TrimSpace b);
  if (start <? 0) || (last <? 0) || (last <? start) then None else Some (start, last).

(** The loop of [gcd]; [None] is fuel that ran out. *)
Fixpoint gcd_loop (fuel : nat) (a b : Z) : option Z :=
  if b =? 0 then Some a
  else match fuel with
       | O => None
       | S fuel' => gcd_loop fuel' b (Z.rem a b)
       end.

(** Two rounds at least halve the second argument. *)
Definition gcd (a b : Z) : Z := default 0 (gcd_loop (2 * Z.to_nat (Z.log2 (Z.abs b) + 1)) a b).

Definition layer_count (r : Z * Z) : Z := wrap64 (wrap64 (r.2 - r.1) + 1).

Definition calculateTensorSplit (gpuCount : Z) (sharding : option GPUShardingSpec) : string :=
  if gpuCount <=? 1 then EmptyString
  else
    let equal := Join (replicate (Z.to_nat gpuCount) "1") "," in
    match sharding with
    | None => equal
    | Some s =>
        match sh_LayerSplit s with
        | [] => equal
        | splits =>
            if negb (wrap32 (Z.of_nat (length splits)) =? gpuCount) then equal
            else match mapM parseLayerRange splits with
                 | Some (r :: rs) =>
                     let g := foldl gcd (layer_count r) (layer_count <$> rs) in
                     Join ((fun c => Itoa (wrap64 (Z.quot c g))) <$> (layer_count <$> (r :: rs))) ","
                 | _ => equal
                 end
        end
    end.

(** ** Proportional splits *)

Lemma gcd_loop_spec (k fuel : nat) (a b : Z) :
  0 <= a -> 0 <= b < 2 ^ Z.of_nat k -> (2 * k <= fuel)%nat -> gcd_loop fuel a b = Some (Z.gcd a b).
Proof.
  revert fuel a b. induction k as [|k IH]; intros fuel a b Ha Hb Hf.
  { assert (b = 0) as -> by (simpl in Hb; lia). rewrite Z.gcd_0_r, Z.abs_eq by done. by destruct fuel. }
  assert (Hstep : forall a b, 0 <= a -> 0 < b -> Z.gcd b (Z.rem a b) = Z.gcd a b).
  { intros x y Hx Hy. rewrite Z.rem_mod_nonneg, (Z.gcd_comm y), Z.gcd_mod, Z.gcd_comm by lia. done. }
  destruct fuel as [|[|fuel]]; [lia..|]. cbn [gcd_loop]. destruct (Z.eqb_spec b 0) as [->|Hb0].
  { by rewrite Z.gcd_0_r, Z.abs_eq. }
  assert (Hr : 0 <= Z.rem a b < b) by (rewrite Z.rem_mod_nonneg by lia; apply Z.mod_pos_bound; lia).
  destruct (Z.eqb_spec (Z.rem a b) 0) as [E|E].
  { rewrite <- (Hstep a b), E, Z.gcd_0_r, Z.abs_eq by lia. done. }
  rewrite IH; [|lia| |lia]. { by rewrite (Hstep b), (Hstep a) by lia. }
  rewrite (Z.rem_mod_nonneg b) by lia. pose proof (Z.mod_pos_bound b (Z.rem a b) ltac:(lia)). split; [lia|].
  rewrite Nat2Z.inj_succ, Z.pow_succ_r in Hb by lia. destruct (Z.le_gt_cases (2 * Z.rem a b) b); [lia|].
  rewrite <- (Zmod_unique b (Z.rem a b) 1 (b - Z.rem a b)) by lia. lia.
Qed.

Lemma gcd_spec (a b : Z) : 0 <= a -> 0 <= b -> gcd a b = Z.gcd a b.
Proof.
  intros Ha Hb. unfold gcd. rewrite (gcd_loop_spec (Z.to_nat (Z.log2 (Z.abs b) + 1))); [done|done| |done].
  rewrite Z.abs_eq by done. destruct (Z.eq_dec b 0) as [->|]; [done|]. pose proof (Z.log2_spec b ltac:(lia)) as Hl.
  pose proof (Z.log2_nonneg b). rewrite Z2Nat.id by lia. unfold Z.succ in Hl. lia.
Qed.

Lemma foldl_gcd_divides (l : list Z) (g : Z) :
  0 < g -> Forall (fun c => 0 < c) l ->
  0 < foldl gcd g l /\ (foldl gcd g l | g) /\ Forall (fun c => (foldl gcd g l | c)) l /\
  (forall d, (d | g) -> Forall (fun c => (d | c)) l -> (d | foldl gcd g l)).
Proof.
  revert g. induction l as [|c l IH]; intros g Hg Hl; cbn [foldl].
  { repeat split; try done. }
  apply Forall_cons in Hl as [Hc Hl]. rewrite gcd_spec by lia. pose proof (Z.gcd_nonneg g c). pose proof (Z.gcd_divide_l g c) as D1.
  pose proof (Z.gcd_divide_r g c) as D2. assert (0 < Z.gcd g c).
  { destruct (Z.eq_dec (Z.gcd g c) 0) as [E|]; [|lia]. rewrite E in D1. destruct D1 as [x ?]. lia. }
  destruct (IH (Z.gcd g c)) as (P & Q & R & S); [done..|]. split; [done|]. split; [by etrans|]. split.
  - constructor; [by etrans|done].
  - intros d Hd Hdl. apply Forall_cons in Hdl as [? ?]. apply S; [|done]. by apply Z.gcd_greatest.
Qed.

Definition range_ok (r : Z * Z) : Prop := 0 <= r.1 <= r.2 /\ r.2 < max_int64.

Lemma layer_count_exact (r : Z * Z) : range_ok r -> layer_count r = r.2 - r.1 + 1 /\ 0 < layer_count r <= max_int64.
Proof.
  intros [H1 H2]. unfold layer_count. rewrite (wrap64_small (r.2 - r.1)) by (unfold in_int64, min_int64, max_int64, two63 in *; lia).
  rewrite wrap64_small by (unfold in_int64, min_int64, max_int64, two63 in *; lia). lia.
Qed.

(** What the split means: the counts over their greatest common divisor. *)
Definition ratios (counts : list Z) (g : Z) : list Z := (fun c => c / g) <$> counts.

Lemma calculateTensorSplit_spec (s : GPUShardingSpec) (rs : list (Z * Z)) :
  (1 < length rs)%nat -> Z.of_nat (length rs) <= 2147483647 ->
  mapM parseLayerRange (sh_LayerSplit s) = Some rs -> Forall range_ok rs ->
  exists g, 0 < g /\ Forall (fun r => (g | r.2 - r.1 + 1)) rs /\
    (forall d, Forall (fun r => (d | r.2 - r.1 + 1)) rs -> (d | g)) /\
    calculateTensorSplit (Z.of_nat (length rs)) (Some s) = Join (Itoa <$> ratios ((fun r => r.2 - r.1 + 1) <$> rs) g) ",".
Proof.
  intros Hlen Hmax Hparse Hok. pose proof (length_mapM _ _ _ Hparse) as Hsl. destruct rs as [|r rs]; [simpl in Hlen; lia|].
  assert (Hcounts : layer_count <$> (r :: rs) = (fun r => r.2 - r.1 + 1) <$> (r :: rs)).
  { apply list_fmap_ext. intros i x Hx. apply layer_count_exact. rewrite Forall_lookup in Hok. by eapply Hok. }
  assert (Hpos : Forall (fun c => 0 < c <= max_int64) (layer_count <$> (r :: rs))).
  { apply Forall_fmap. eapply Forall_impl; [done|]. intros x Hx. by apply layer_count_exact. }
  pose proof (foldl_gcd_divides (layer_count <$> rs) (layer_count r)) as Hg.
  destruct Hg as (Hg & D1 & D2 & D3). { apply Forall_cons in Hpos as [? _]. lia. }
  { apply Forall_cons in Hpos as [_ Hp]. eapply Forall_impl; [done|]. simpl. lia. }
  set (g := foldl gcd (layer_count r) (layer_count <$> rs)) in *. exists g.
  assert (Hdiv : forall d, Forall (fun r => (d | r.2 - r.1 + 1)) (r :: rs) <-> Forall (fun c => (d | c)) (layer_count <$> (r :: rs))).
  { intros d. rewrite Hcounts, Forall_fmap. done. }
  split; [done|]. split; [apply Hdiv; by constructor|]. split.
  { intros d Hd. apply Hdiv in Hd. apply Forall_cons in Hd as [? ?]. by apply D3. }
  unfold calculateTensorSplit. rewrite (proj2 (Z.leb_gt _ _)) by lia. destruct (sh_LayerSplit s) as [|sp sps] eqn:Es; [simpl in Hsl; lia|].
  rewrite <- Es, Hsl in *. rewrite wrap32_small, Z.eqb_refl by (simpl length in *; lia). cbn [negb]. rewrite Hparse.
  fold g. rewrite <- Hcounts. unfold ratios. rewrite <- (list_fmap_compose (fun c => c / g) Itoa). f_equal. apply list_fmap_ext. intros i c Hc. simpl.
  rewrite Forall_lookup in Hpos. apply Hpos in Hc. rewrite Z.quot_div_nonneg by lia. f_equal. apply wrap64_small.
  assert (0 <= c / g) by (apply Z.div_pos; lia). assert (c / g <= c) by (apply Z.div_le_upper_bound; nia).
  unfold in_int64, min_int64, max_int64, two63 in *. lia.
Qed.

Lemma parseLayerRange_ordered (s : string) (r : Z * Z) : parseLayerRange s = Some r -> 0 <= r.1 <= r.2.
Proof.
  unfold parseLayerRange. destruct (CutByte s _) as [[a b]|]; [|done]. simpl.
  destruct (Atoi (TrimSpace a)) as [start|]; [|done]. destruct (Atoi (TrimSpace b)) as [last|]; [|done]. simpl.
  case_if; [done|]. intros [= <-]. to_prop. simpl. lia.
Qed.

Lemma ranges_ok (splits : list string) (rs : list (Z * Z)) :
  mapM parseLayerRange splits = Some rs -> Forall (fun r => r.2 < max_int64) rs -> Forall range_ok rs.
Proof.
  intros H Hmax. apply mapM_Some in H. induction H as [|s r splits rs Hs H IH]; [constructor|].
  apply Forall_cons in Hmax as [H1 H2]. constructor; [|by apply IH]. split; [by eapply parseLayerRange_ordered|done].
Qed.

(** A custom layer split becomes the smallest whole ratios.  When every range of
    the split is well formed and there is one per GPU, the flag lists, in order, the
    number of layers of each range divided by their greatest common divisor, and the
    division is exact. *)
Lemma tensor_split_proportional (s : GPUShardingSpec) (rs : list (Z * Z)) :
  (1 < length rs)%nat -> Z.of_nat (length rs) <= 2147483647 ->
  mapM parseLayerRange (sh_LayerSplit s) = Some rs -> Forall (fun r => r.2 < max_int64) rs ->
  exists g, 0 < g /\ Forall (fun r => (g | r.2 - r.1 + 1)) rs /\
    (forall d, Forall (fun r => (d | r.2 - r.1 + 1)) rs -> (d | g)) /\
    calculateTensorSplit (Z.of_nat (length rs)) (Some s) = Join (Itoa <$> ratios ((fun r => r.2 - r.1 + 1) <$> rs) g) ",".
Proof. intros H1 H2 H3 H4. apply calculateTensorSplit_spec; [done..|]. by eapply ranges_ok. Qed.
