(* ===== verification/GpuQuotaFacts.v ===== *)
(** * Quotas hold over time

    A [store] is a cluster whose reads succeed and agree; [apply_op] is a write of a
    user that the webhook admits or refuses, and [run] a sequence of them.  The
    first part shows that the loops of the webhook and of the controller compute
    exact sums as long as services are within the bounds of their schema; the
    second that the sums of a covered scope stay within the caps; the third the
    cases in which the charge is not what the pods use. *)

From stdpp Require Import base strings list gmap.
From Stdlib Require Import ZArith Lia Bool Ascii Permutation.
From S2P Require Import Prelude GoStrings GoStrconv GpuSharing GpuQuota.

(** ** A cluster that answers *)

Record store {LabelSelector : Type} := {
  so_services : gmap (string * string) InferenceService;
  so_models : gmap (string * string) Model;
  so_quotas : list (@GPUQuota LabelSelector);
  so_namespaces : gmap string (gmap string string);
}.
Arguments store : clear implicits.

Definition services_of {L : Type} (st : store L) : list InferenceService := (map_to_list (so_services st)).*2.

Definition in_namespace (ns : string) (i : InferenceService) : bool := bool_decide (is_Namespace i = ns).

Definition client_of {L : Type} (st : store L) : @Client L :=
  {| cl_quotas := Some (so_quotas st);
     cl_namespace := fun ns => so_namespaces st !! ns;
     cl_namespaces_matching := fun f => Some (List.filter (fun ns => match so_namespaces st !! ns with Some l => f l | None => false end)
                                                (map_to_list (so_namespaces st)).*1);
     cl_services := Some (services_of st);
     cl_services_in := fun ns => Some (List.filter (in_namespace ns) (services_of st));
     cl_model := fun ns name => so_models st !! (ns, name) |}.

Definition key_of (isvc : InferenceService) : string * string := (is_Namespace isvc, is_Name isvc).

Definition with_services {L : Type} (st : store L) (m : gmap (string * string) InferenceService) : store L :=
  {| so_services := m; so_models := so_models st; so_quotas := so_quotas st; so_namespaces := so_namespaces st |}.

(** Creating or updating a service, and deleting one. *)
Inductive op :=
| Apply (isvc : InferenceService)
| Delete (ns name : string).

(** ** Exact sums *)

Definition zsum (l : list Z) : Z := fold_right Z.add 0 l.

Lemma zsum_perm (l k : list Z) : l ≡ₚ k -> zsum l = zsum k.
Proof. induction 1; simpl; lia. Qed.

#[local] Instance list_filter_perm {A : Type} (p : A -> bool) : Proper (Permutation ==> Permutation) (List.filter p).
Proof.
  intros l k. induction 1 as [|x l k H IH|x y l|l k r H1 IH1 H2 IH2]; cbn [List.filter]; [done| | |by etrans].
  - destruct (p x); [by constructor|done].
  - destruct (p x), (p y); try done. constructor.
Qed.

Lemma zsum_app (l k : list Z) : zsum (l ++ k) = zsum l + zsum k.
Proof. induction l; simpl; lia. Qed.

Lemma zsum_bound (l : list Z) (b : Z) : Forall (fun x => 0 <= x <= b) l -> 0 <= zsum l <= b * Z.of_nat (length l).
Proof. induction 1; simpl zsum; simpl length; lia. Qed.

Lemma zsum_filter_le (f : InferenceService -> Z) (p : InferenceService -> bool) (l : list InferenceService) :
  Forall (fun x => 0 <= f x) l -> zsum (f <$> List.filter p l) <= zsum (f <$> l).
Proof.
  induction 1 as [|x l Hx Hl IH]; [done|]. cbn [List.filter]. destruct (p x); rewrite ?fmap_cons; simpl zsum; lia.
Qed.

Lemma filter_filter_and (p q : InferenceService -> bool) (l : list InferenceService) :
  List.filter p (List.filter q l) = List.filter (fun x => q x && p x) l.
Proof. induction l as [|x l IH]; [done|]. cbn [List.filter]. destruct (q x); simpl; [destruct (p x)|]; by rewrite IH. Qed.

(** A sum over the namespaces of a list is the sum over the services in them. *)
Lemma zsum_by_namespace (f : InferenceService -> Z) (names : list string) (l : list InferenceService) :
  NoDup names ->
  zsum (f <$> concat ((fun ns => List.filter (in_namespace ns) l) <$> names)) =
  zsum (f <$> List.filter (fun i => bool_decide (is_Namespace i ∈ names)) l).
Proof.
  induction 1 as [|n names Hn Hnd IH]; cbn [concat fmap list_fmap].
  { induction l as [|x l IHl]; [done|]. cbn [List.filter]. by rewrite bool_decide_eq_false_2 by set_solver. }
  rewrite fmap_app, zsum_app, IH. clear IH. induction l as [|x l IHl]; [done|]. cbn [List.filter]. unfold in_namespace in *.
  destruct (decide (is_Namespace x = n)) as [E|E].
  - rewrite bool_decide_eq_true_2 by done. rewrite (bool_decide_eq_false_2 (is_Namespace x ∈ names)) by congruence.
    rewrite bool_decide_eq_true_2 by set_solver. rewrite !fmap_cons. simpl zsum. lia.
  - rewrite bool_decide_eq_false_2 by done. destruct (decide (is_Namespace x ∈ names)).
    + rewrite !bool_decide_eq_true_2 by set_solver. rewrite !fmap_cons. simpl zsum. lia.
    + rewrite !bool_decide_eq_false_2 by set_solver. done.
Qed.

(** ** Bounds of the schema *)

Definition between (lo hi z : Z) : bool := (lo <=? z) && (z <=? hi).

(** The bounds the CRDs put on the numbers that are charged. *)
Definition service_schema_ok (i : InferenceService) : bool :=
  match is_Replicas i with Some r => between 0 100 r | None => true end &&
  match is_Autoscaling i with Some a => between 1 100 (as_MaxReplicas a) | None => true end &&
  match is_Resources i with Some r => between 0 8 (rq_GPU r) | None => true end &&
  negb (bool_decide (is_Namespace i = EmptyString)).

Definition model_schema_ok (m : Model) : bool :=
  match model_gpu (Some m) with Some g => between 0 8 (gpu_Count g) | None => true end.

Lemma between_spec (lo hi z : Z) : between lo hi z = true -> lo <= z <= hi.
Proof. unfold between. intros H. to_prop. lia. Qed.

Lemma gpuCount_bound (i : InferenceService) (m : option Model) :
  service_schema_ok i = true -> (forall x, m = Some x -> model_schema_ok x = true) -> 0 <= gpuCount i m <= 800.
Proof.
  unfold service_schema_ok. intros Hi Hm. to_prop.
  assert (Hp : 0 <= GPUCount i m <= 8).
  { unfold GPUCount. assert (0 <= match is_Resources i with Some r => if 0 <? rq_GPU r then rq_GPU r else 0 | None => 0 end <= 8).
    { destruct (is_Resources i) as [r|]; [|lia]. case_if; [|lia]. by apply between_spec. }
    destruct m as [x|]; [|done]. specialize (Hm x eq_refl). unfold model_schema_ok in Hm. destruct (model_gpu (Some x)); [|done].
    apply between_spec in Hm. case_if; [lia|done]. }
  unfold gpuCount. assert (0 <= match is_Autoscaling i with Some a => as_MaxReplicas a | None => default 1 (is_Replicas i) end <= 100).
  { destruct (is_Autoscaling i) as [a|]; [apply between_spec in H2; lia|]. destruct (is_Replicas i); [by apply between_spec|simpl; lia]. }
  rewrite wrap32_small; nia.
Qed.

Section Facts.
Context {L : Type} (asSelector : L -> option (gmap string string -> bool)).
Context (parseQuantity : string -> option Z) (vramPerDeviceGiB : Z) (sharedPool : gmap string string).

Notation validate := (validate asSelector parseQuantity vramPerDeviceGiB sharedPool).
Notation Reconcile := (Reconcile asSelector parseQuantity vramPerDeviceGiB).

Definition apply_op (st : store L) (o : op) : store L :=
  match o with
  | Apply isvc =>
      match validate (client_of st) isvc with
      | Ok _ => with_services st (<[key_of isvc := isvc]> (so_services st))
      | Err _ => st
      end
  | Delete ns name => with_services st (delete (ns, name) (so_services st))
  end.

Definition run (st : store L) (ops : list op) : store L := fold_left apply_op ops st.

(** A cluster with no services yet, of which models, quotas and namespaces stay. *)
Context (st0 : store L).

Definition charge (i : InferenceService) : Z := gpuCount i (fetchModel (client_of st0) i).
Definition footprint (i : InferenceService) : option Z := serviceVRAMBytesFor parseQuantity vramPerDeviceGiB (client_of st0) i.

(** At most 128 TiB of device memory per service. *)
Definition max_footprint : Z := 140737488355328.
Definition max_services : nat := Z.to_nat 50000.

Definition service_ok (i : InferenceService) : bool :=
  service_schema_ok i && match footprint i with Some v => between 0 max_footprint v | None => true end.

Definition op_ok (o : op) : bool :=
  match o with
  | Apply isvc => service_ok isvc && bool_decide (default EmptyString (is_Labels isvc !! kueueQueueNameLabel) = EmptyString)
  | Delete _ _ => true
  end.

Context (Hmodels : map_Forall (fun _ m => model_schema_ok m = true) (so_models st0)).

Lemma charge_bound (i : InferenceService) : service_ok i = true -> 0 <= charge i <= 800.
Proof.
  unfold service_ok. intros H. to_prop. apply gpuCount_bound; [done|]. intros x. unfold fetchModel.
  case_if; [done|]. apply Hmodels.
Qed.

Lemma footprint_bound (i : InferenceService) : service_ok i = true -> 0 <= default 0 (footprint i) <= max_footprint.
Proof.
  unfold service_ok. intros H. to_prop. destruct (footprint i); [by apply between_spec|]. unfold max_footprint. simpl. lia.
Qed.

Definition state (m : gmap (string * string) InferenceService) : store L := with_services st0 m.

(** What the loops compute. *)
Definition exact (l : list InferenceService) : Usage :=
  {| us_GPUCount := zsum (charge <$> l); us_VRAMBytes := zsum ((default 0 ∘ footprint) <$> l) |}.

Lemma exact_cons (i : InferenceService) (l : list InferenceService) :
  exact (i :: l) = {| us_GPUCount := charge i + us_GPUCount (exact l);
                      us_VRAMBytes := default 0 (footprint i) + us_VRAMBytes (exact l) |}.
Proof. done. Qed.

Lemma account_exact (m : gmap (string * string) InferenceService) (l : list InferenceService) (u : Usage) :
  Forall (fun i => service_ok i = true) l ->
  0 <= us_GPUCount u -> us_GPUCount u + 800 * Z.of_nat (length l) <= 2147483647 ->
  0 <= us_VRAMBytes u -> us_VRAMBytes u + max_footprint * Z.of_nat (length l) <= max_int64 ->
  fold_left (account parseQuantity vramPerDeviceGiB (client_of (state m))) l u =
    {| us_GPUCount := us_GPUCount u + us_GPUCount (exact l); us_VRAMBytes := us_VRAMBytes u + us_VRAMBytes (exact l) |}.
Proof.
  intros Hl. revert u. induction Hl as [|i l Hi Hl IH]; intros u H1 H2 H3 H4; [|rewrite exact_cons]; cbn [fold_left].
  { destruct u; unfold exact; simpl. by rewrite !Z.add_0_r. }
  pose proof (charge_bound i Hi) as Hc. pose proof (footprint_bound i Hi) as Hf. cbn [length] in *. rewrite Nat2Z.inj_succ in *.
  unfold max_int64, max_footprint, two63 in *.
  assert (E : account parseQuantity vramPerDeviceGiB (client_of (state m)) u i =
              {| us_GPUCount := us_GPUCount u + charge i; us_VRAMBytes := us_VRAMBytes u + default 0 (footprint i) |}).
  { unfold account. change (gpuCount i _) with (charge i). change (serviceVRAMBytesFor _ _ _ i) with (footprint i). f_equal.
    - apply wrap32_small. lia.
    - destruct (footprint i); cbn [default from_option id] in *; [|lia]. apply wrap64_small. unfold in_int64, min_int64, max_int64, two63. lia. }
  rewrite E, IH by (cbn [us_GPUCount us_VRAMBytes]; lia). cbn [us_GPUCount us_VRAMBytes]. f_equal; lia.
Qed.

(** The sums start at 0 and no list of services is long enough to overflow them. *)
Lemma account_exact_zero (m : gmap (string * string) InferenceService) (l : list InferenceService) :
  Forall (fun i => service_ok i = true) l -> (length l <= max_services)%nat ->
  fold_left (account parseQuantity vramPerDeviceGiB (client_of (state m))) l {| us_GPUCount := 0; us_VRAMBytes := 0 |} = exact l.
Proof.
  intros Hl Hlen. assert (Z.of_nat (length l) <= 50000) by (unfold max_services in Hlen; lia).
  rewrite account_exact; [done|done|done| |done|]; cbn [us_GPUCount us_VRAMBytes]; unfold max_footprint, max_int64, two63; lia.
Qed.

Lemma fold_skip (m : gmap (string * string) InferenceService) (isvc : InferenceService) (l : list InferenceService) (u : Usage) :
  fold_left (fun u i => if same_object i isvc then u else account parseQuantity vramPerDeviceGiB (client_of (state m)) u i) l u =
  fold_left (account parseQuantity vramPerDeviceGiB (client_of (state m))) (List.filter (fun i => negb (same_object i isvc)) l) u.
Proof. revert u. induction l as [|i l IH]; intros u; [done|]. cbn [fold_left List.filter]. rewrite IH. by destruct (same_object i isvc). Qed.

(** ** Services by name *)

Definition keyed (m : gmap (string * string) InferenceService) : Prop := map_Forall (fun k i => k = key_of i) m.

Lemma same_object_key (i isvc : InferenceService) : same_object i isvc = bool_decide (key_of i = key_of isvc).
Proof.
  unfold same_object, key_of. destruct (decide (is_Namespace i = is_Namespace isvc)), (decide (is_Name i = is_Name isvc));
    repeat first [rewrite bool_decide_eq_true_2 by congruence | rewrite bool_decide_eq_false_2 by congruence]; done.
Qed.

Lemma services_delete (m : gmap (string * string) InferenceService) (isvc : InferenceService) :
  keyed m ->
  List.filter (fun i => negb (same_object i isvc)) (services_of (state m)) ≡ₚ services_of (state (delete (key_of isvc) m)).
Proof.
  intros Hk. unfold services_of. cbn [state with_services so_services].
  assert (Hkeep : forall l, (forall k i, (k, i) ∈ l -> k = key_of i /\ k ≠ key_of isvc) -> List.filter (fun i => negb (same_object i isvc)) l.*2 = l.*2).
  { induction l as [|[k i] l IH]; intros Hl; [done|]. cbn [fmap list_fmap snd List.filter]. destruct (Hl k i) as [-> Hne]; [set_solver|].
    rewrite same_object_key, bool_decide_eq_false_2 by done. cbn [negb]. f_equal. apply IH. intros. apply Hl. set_solver. }
  assert (Hrest : forall k i, (k, i) ∈ map_to_list (delete (key_of isvc) m) -> k = key_of i /\ k ≠ key_of isvc).
  { intros k i Hin. apply elem_of_map_to_list, lookup_delete_Some in Hin as [Hne Hin]. split; [by apply Hk|done]. }
  destruct (m !! key_of isvc) as [x|] eqn:E.
  - rewrite <- (map_to_list_delete m (key_of isvc) x E). cbn [fmap list_fmap snd List.filter].
    rewrite same_object_key, <- (Hk _ _ E), bool_decide_eq_true_2 by done. cbn [negb]. by rewrite Hkeep.
  - rewrite delete_id by done. rewrite Hkeep; [done|]. by rewrite delete_id in Hrest.
Qed.

Lemma services_insert (m : gmap (string * string) InferenceService) (isvc : InferenceService) :
  services_of (state (<[key_of isvc := isvc]> m)) ≡ₚ isvc :: services_of (state (delete (key_of isvc) m)).
Proof.
  unfold services_of. cbn [state with_services so_services]. rewrite <- insert_delete_eq, map_to_list_insert by apply lookup_delete_eq. done.
Qed.

(** ** Usage within a scope *)

Definition scope (q : @GPUQuota L) (i : InferenceService) : bool :=
  gpuQuotaCoversNamespace asSelector (client_of st0) q (is_Namespace i).

Definition all_ok (l : list InferenceService) : Prop := Forall (fun i => service_ok i = true) l.

Definition usage_le (u v : Usage) : Prop := us_GPUCount u <= us_GPUCount v /\ us_VRAMBytes u <= us_VRAMBytes v.

Lemma all_ok_filter (p : InferenceService -> bool) (l : list InferenceService) : all_ok l -> all_ok (List.filter p l).
Proof. unfold all_ok. rewrite !List.Forall_forall. intros H x Hx. apply List.filter_In in Hx as [Hx _]. by apply H. Qed.

Lemma length_filter_le (p : InferenceService -> bool) (l : list InferenceService) : (length (List.filter p l) <= length l)%nat.
Proof. induction l as [|x l IH]; [done|]. cbn [List.filter]. destruct (p x); simpl; lia. Qed.

Lemma exact_perm (l k : list InferenceService) : l ≡ₚ k -> exact l = exact k.
Proof. intros H. unfold exact. by rewrite (zsum_perm _ _ (fmap_Permutation charge _ _ H)), (zsum_perm _ _ (fmap_Permutation (default 0 ∘ footprint) _ _ H)). Qed.

Lemma exact_filter_le (p : InferenceService -> bool) (l : list InferenceService) : all_ok l -> usage_le (exact (List.filter p l)) (exact l).
Proof.
  intros Hl. split; apply zsum_filter_le; (eapply Forall_impl; [exact Hl|]); intros i Hi.
  - by destruct (charge_bound i Hi).
  - by destruct (footprint_bound i Hi).
Qed.

Lemma exact_bound (l : list InferenceService) : all_ok l -> (length l <= max_services)%nat ->
  0 <= us_GPUCount (exact l) <= 40000000 /\ 0 <= us_VRAMBytes (exact l) <= max_footprint * 50000.
Proof.
  intros Hl Hlen. assert (Z.of_nat (length l) <= 50000) by (unfold max_services in Hlen; lia). unfold exact. cbn [us_GPUCount us_VRAMBytes].
  assert (H1 : Forall (fun x => 0 <= x <= 800) (charge <$> l)).
  { apply Forall_fmap. eapply Forall_impl; [exact Hl|]. intros i Hi. by apply charge_bound. }
  assert (H2 : Forall (fun x => 0 <= x <= max_footprint) ((default 0 ∘ footprint) <$> l)).
  { apply Forall_fmap. eapply Forall_impl; [exact Hl|]. intros i Hi. by apply footprint_bound. }
  apply zsum_bound in H1, H2. rewrite length_fmap in H1, H2. unfold max_footprint in *. lia.
Qed.

(** The state the webhook keeps. *)
Definition well_formed (m : gmap (string * string) InferenceService) : Prop := keyed m /\ all_ok (services_of (state m)).

Lemma services_length (m : gmap (string * string) InferenceService) : length (services_of (state m)) = size m.
Proof. unfold services_of. by rewrite length_fmap, length_map_to_list. Qed.

(** What the webhook counts for a quota covers the scope without the object itself. *)
Lemma currentUsage_covers (m : gmap (string * string) InferenceService) (q : @GPUQuota L) (isvc : InferenceService) :
  well_formed m -> (size m <= max_services)%nat -> scope q isvc = true ->
  exists u, currentUsage parseQuantity vramPerDeviceGiB (client_of (state m)) q isvc = Some u /\
    usage_le (exact (List.filter (scope q) (services_of (state (delete (key_of isvc) m))))) u /\
    0 <= us_GPUCount u <= 40000000 /\ 0 <= us_VRAMBytes u <= max_footprint * 50000.
Proof.
  intros [Hk Hok] Hsize Hsc. set (S := services_of (state m)) in *. set (others i := negb (same_object i isvc)).
  assert (Hl : forall p, all_ok (List.filter others (List.filter p S)) /\ (length (List.filter others (List.filter p S)) <= max_services)%nat).
  { intros p. split; [by do 2 apply all_ok_filter|]. do 2 (etrans; [apply length_filter_le|]). unfold S. by rewrite services_length. }
  assert (Hdel : exact (List.filter (scope q) (services_of (state (delete (key_of isvc) m)))) = exact (List.filter (scope q) (List.filter others S))).
  { apply exact_perm. by rewrite <- services_delete. }
  rewrite Hdel. unfold currentUsage. destruct (decide (gq_NamespaceRef (q_Spec q) = EmptyString)) as [E|E].
  - rewrite bool_decide_eq_true_2 by done. cbn [negb]. unfold scope, gpuQuotaCoversNamespace in Hsc.
    rewrite bool_decide_eq_true_2 in Hsc by done. cbn [negb] in Hsc. destruct (gq_Selector (q_Spec q)); [|done].
    eexists. split; [done|]. destruct (Hl (fun _ => true)) as [H1 H2].
    assert (Ht : List.filter (fun _ => true) S = S) by (clear; induction S as [|x S IH]; [done|]; cbn; by rewrite IH). rewrite Ht in *.
    rewrite fold_skip, account_exact_zero by done. split; [by apply exact_filter_le|]. by apply exact_bound.
  - rewrite bool_decide_eq_false_2 by done. cbn [negb]. eexists. split; [done|]. destruct (Hl (in_namespace (gq_NamespaceRef (q_Spec q)))) as [H1 H2].
    rewrite fold_skip, account_exact_zero by done. split; [|by apply exact_bound].
    rewrite !filter_filter_and. replace (exact (List.filter _ S)) with (exact (List.filter (fun x => in_namespace (gq_NamespaceRef (q_Spec q)) x && others x) S)); [done|].
    f_equal. apply List.filter_ext. intros i. unfold scope, gpuQuotaCoversNamespace, in_namespace. rewrite (bool_decide_eq_false_2 (gq_NamespaceRef (q_Spec q) = EmptyString)) by done.
    cbn [negb]. rewrite andb_comm. f_equal. apply bool_decide_ext. naive_solver.
Qed.

Definition within (q : @GPUQuota L) (u : Usage) : Prop :=
  us_GPUCount u <= gq_GPUCount (q_Spec q) /\ (0 < gq_VRAMBytes (q_Spec q) -> us_VRAMBytes u <= gq_VRAMBytes (q_Spec q)).

Lemma map_err_Ok {E F A : Type} (f : E -> F) (r : result E A) (a : A) : map_err f r = Ok a -> r = Ok a.
Proof. by destruct r; intros [= ->]. Qed.

Lemma decide_all_Ok (c : @Client L) (isvc : InferenceService) (model : option Model) (qs : list GPUQuota) :
  decide_all parseQuantity vramPerDeviceGiB c isvc model qs = Ok tt ->
  Forall (fun q => decide_quota parseQuantity vramPerDeviceGiB c q isvc model = Ok tt) qs.
Proof.
  induction qs as [|q qs IH]; [constructor|]. cbn [decide_all]. intros H. apply bind_Ok in H as ([] & H1 & H2).
  constructor; [by apply map_err_Ok in H1|by apply IH].
Qed.

(** Every quota that covers the namespace allowed what the webhook let through. *)
Lemma validate_decides (m : gmap (string * string) InferenceService) (q : GPUQuota) (isvc : InferenceService) :
  validate (client_of (state m)) isvc = Ok tt ->
  default EmptyString (is_Labels isvc !! kueueQueueNameLabel) = EmptyString -> is_Namespace isvc ≠ EmptyString ->
  q ∈ so_quotas st0 -> scope q isvc = true ->
  decide_quota parseQuantity vramPerDeviceGiB (client_of (state m)) q isvc (fetchModel (client_of st0) isvc) = Ok tt.
Proof.
  unfold validate. intros H Hkueue Hns Hq Hsc. apply bind_Ok in H as ([] & _ & H). apply bind_Ok in H as ([] & _ & H). apply bind_Ok in H as ([] & _ & H).
  rewrite bool_decide_eq_true_2 in H by done. cbn [negb] in H. destruct (listApplicableQuotas _ _ _) as [qs|] eqn:E; [|done].
  apply decide_all_Ok in H. rewrite List.Forall_forall in H. apply H. unfold listApplicableQuotas in E. simpl in E.
  destruct (so_namespaces st0 !! is_Namespace isvc) as [labels|] eqn:El; [|done]. injection E as <-. apply List.filter_In.
  split; [by apply list_elem_of_In|]. revert Hsc. unfold scope, gpuQuotaCoversNamespace, applicable. simpl. rewrite El.
  destruct (decide (gq_NamespaceRef (q_Spec q) = EmptyString)) as [E|E].
  - rewrite E, bool_decide_eq_true_2 by done. cbn [negb]. rewrite bool_decide_eq_false_2 by congruence.
    destruct (gq_Selector (q_Spec q)) as [s|]; [|done]. simpl. by destruct (asSelector s).
  - rewrite bool_decide_eq_false_2 by done. cbn [negb]. intros Hb. by rewrite Hb.
Qed.

Lemma admitted_within (m : gmap (string * string) InferenceService) (q : GPUQuota) (isvc : InferenceService) :
  well_formed m -> (size m <= max_services)%nat -> service_ok isvc = true ->
  validate (client_of (state m)) isvc = Ok tt ->
  default EmptyString (is_Labels isvc !! kueueQueueNameLabel) = EmptyString ->
  q ∈ so_quotas st0 -> scope q isvc = true ->
  within q (exact (isvc :: List.filter (scope q) (services_of (state (delete (key_of isvc) m))))).
Proof.
  intros Hwf Hsize Hok Hv Hkueue Hq Hsc. apply validate_decides with (q := q) in Hv; [|done| |done|done].
  2: { unfold service_ok, service_schema_ok in Hok. to_prop. done. }
  pose proof (charge_bound _ Hok) as Hc. pose proof (footprint_bound _ Hok) as Hf.
  destruct (currentUsage_covers m q isvc Hwf Hsize Hsc) as (u & Eu & [Hg Hvr] & Bg & Bv). unfold decide_quota in Hv. rewrite Eu in Hv.
  change (serviceVRAMBytesFor parseQuantity vramPerDeviceGiB (client_of (state m)) isvc) with (footprint isvc) in Hv.
  apply bind_Ok in Hv as ([] & _ & Hv). unfold Decide in Hv. apply bind_Ok in Hv as ([] & _ & Hv). apply bind_Ok in Hv as ([] & H1 & Hv).
  apply bind_Ok in Hv as ([] & H2 & _). apply when_Ok in H1, H2. cbn [in_GPUCount in_VRAMBytes] in *. fold (charge isvc) in H1.
  unfold max_footprint in *. rewrite exact_cons. unfold within. cbn [us_GPUCount us_VRAMBytes].
  rewrite wrap32_small in H1 by lia. rewrite wrap64_small in H2 by (unfold in_int64, min_int64, max_int64, two63; lia). split; [lia|].
  intros Hpos. rewrite (proj2 (Z.ltb_lt _ _) Hpos) in H2. simpl in H2. lia.
Qed.

(** ** Sequences of writes *)

Definition capped (m : gmap (string * string) InferenceService) : Prop :=
  forall q, q ∈ so_quotas st0 -> within q (exact (List.filter (scope q) (services_of (state m)))).

Definition inv (n : nat) (m : gmap (string * string) InferenceService) : Prop := well_formed m /\ (size m <= n)%nat /\ capped m.

Lemma all_ok_perm (l k : list InferenceService) : l ≡ₚ k -> all_ok l -> all_ok k.
Proof. unfold all_ok. intros H. by rewrite H. Qed.

Lemma keyed_delete (m : gmap (string * string) InferenceService) (k : string * string) : keyed m -> keyed (delete k m).
Proof. intros Hk k' i Hi. apply lookup_delete_Some in Hi as [_ Hi]. by apply Hk. Qed.

Lemma services_delete_ok (m : gmap (string * string) InferenceService) (k : string * string) :
  well_formed m -> well_formed (delete k m) /\
  exists p, services_of (state (delete k m)) ≡ₚ List.filter p (services_of (state m)).
Proof.
  intros [Hk Hok]. assert (exists p, services_of (state (delete k m)) ≡ₚ List.filter p (services_of (state m))) as [p Hp].
  { destruct (m !! k) as [x|] eqn:E.
    - exists (fun i => negb (same_object i x)). rewrite services_delete by done. by rewrite <- (Hk _ _ E).
    - exists (fun _ => true). rewrite delete_id by done. generalize (services_of (state m)) as l.
      induction l as [|x l IH]; [done|]. cbn [List.filter]. by constructor. }
  split; [|by exists p]. split; [by apply keyed_delete|]. apply (all_ok_perm _ _ (symmetry Hp)). by apply all_ok_filter.
Qed.

Lemma capped_delete (m : gmap (string * string) InferenceService) (k : string * string) : well_formed m -> capped m -> capped (delete k m).
Proof.
  intros Hwf Hc q Hq. destruct (services_delete_ok m k Hwf) as [_ [p Hp]]. specialize (Hc q Hq).
  destruct (exact_filter_le p (List.filter (scope q) (services_of (state m)))) as [Hg Hv]; [apply all_ok_filter, Hwf|].
  assert (E : exact (List.filter (scope q) (services_of (state (delete k m)))) = exact (List.filter p (List.filter (scope q) (services_of (state m))))).
  { apply exact_perm. rewrite Hp, !filter_filter_and. erewrite List.filter_ext; [done|]. intros i. apply andb_comm. }
  rewrite E. destruct Hc as [Hc1 Hc2]. split; [lia|]. intros Hpos. specialize (Hc2 Hpos). lia.
Qed.

Lemma quota_inv_step (n : nat) (m : gmap (string * string) InferenceService) (o : op) :
  inv n m -> (n <= max_services)%nat -> op_ok o = true -> exists m', apply_op (state m) o = state m' /\ inv (S n) m'.
Proof.
  intros (Hwf & Hs & Hc) Hn Ho. destruct o as [isvc|ns name]; cbn [apply_op].
  2: { exists (delete (ns, name) m). split; [done|]. split; [by apply services_delete_ok|]. split; [|by apply capped_delete].
       rewrite map_size_delete. destruct (m !! (ns, name)); simpl; lia. }
  destruct (validate (client_of (state m)) isvc) as [[]|e] eqn:Ev; [|exists m; split; [done|split; [done|split; [lia|done]]]].
  unfold op_ok in Ho. apply andb_true_iff in Ho as [Hok Hkueue]. apply bool_decide_eq_true in Hkueue.
  exists (<[key_of isvc := isvc]> m). split; [done|]. destruct (services_delete_ok m (key_of isvc) Hwf) as [[_ Hok'] _].
  split; [|split].
  - split; [|apply (all_ok_perm _ _ (symmetry (services_insert m isvc))); by constructor].
    intros k i Hi. apply lookup_insert_Some in Hi as [[<- <-]|[_ Hi]]; [done|]. by apply Hwf.
  - rewrite map_size_insert. destruct (m !! key_of isvc); simpl; lia.
  - intros q Hq. destruct (scope q isvc) eqn:Esc.
    + assert (Hw : within q (exact (isvc :: List.filter (scope q) (services_of (state (delete (key_of isvc) m)))))) by (eapply admitted_within; eauto; lia).
      erewrite exact_perm; [exact Hw|]. rewrite services_insert. cbn [List.filter]. by rewrite Esc.
    + pose proof (capped_delete m (key_of isvc) Hwf Hc q Hq) as Hd. erewrite exact_perm; [exact Hd|].
      rewrite services_insert. cbn [List.filter]. by rewrite Esc.
Qed.

Lemma run_inv (ops : list op) (n : nat) (m : gmap (string * string) InferenceService) :
  inv n m -> (n + length ops <= max_services)%nat -> Forall (fun o => op_ok o = true) ops ->
  exists m', run (state m) ops = state m' /\ inv (n + length ops) m'.
Proof.
  intros Hi Hn Ho. revert n m Hi Hn. induction Ho as [|o ops Ho Hos IH]; intros n m Hi Hn.
  { exists m. rewrite Nat.add_0_r. done. }
  cbn [length] in *. destruct (quota_inv_step n m o Hi) as (m1 & E & Hi1); [lia|done|]. unfold run. cbn [fold_left]. rewrite E.
  destruct (IH (S n) m1 Hi1) as (m2 & E2 & Hi2); [lia|]. exists m2. split; [done|]. by replace (n + S (length ops))%nat with (S n + length ops)%nat by lia.
Qed.

(** ** What the controller reports *)

Lemma mapM_total {A B : Type} (f : A -> option B) (g : A -> B) (l : list A) : (forall x, f x = Some (g x)) -> mapM f l = Some (g <$> l).
Proof. intros H. apply mapM_Some, Forall2_fmap_r, Forall_Forall2_diag, Forall_true, H. Qed.

Lemma zsum_ones (l : list InferenceService) : zsum ((fun _ => 1) <$> l) = Z.of_nat (length l).
Proof. induction l as [|x l IH]; [done|]. rewrite fmap_cons. cbn [length]. change (1 + zsum ((fun _ => 1) <$> l) = Z.of_nat (S (length l))). lia. Qed.

(** The two nested loops over the namespaces of a quota. *)
Lemma aggregate_exact (m : gmap (string * string) InferenceService) (names : list string) :
  all_ok (services_of (state m)) -> (size m <= max_services)%nat -> NoDup names ->
  fold_left (account parseQuantity vramPerDeviceGiB (client_of (state m)))
    (concat ((fun ns => List.filter (in_namespace ns) (services_of (state m))) <$> names)) {| us_GPUCount := 0; us_VRAMBytes := 0 |} =
  exact (List.filter (fun i => bool_decide (is_Namespace i ∈ names)) (services_of (state m))).
Proof.
  intros Hok Hs Hnd. set (S := services_of (state m)) in *. rewrite account_exact_zero.
  - unfold exact. by rewrite !zsum_by_namespace.
  - clear Hnd. induction names as [|n names IH]; [constructor|]. cbn [fmap list_fmap concat]. apply Forall_app. split; [|done]. by apply all_ok_filter.
  - pose proof (zsum_by_namespace (fun _ => 1) names S Hnd) as Hl. rewrite !zsum_ones in Hl.
    pose proof (length_filter_le (fun i => bool_decide (is_Namespace i ∈ names)) S). unfold S in *. rewrite services_length in *. lia.
Qed.

Lemma Reconcile_exact (n : nat) (m : gmap (string * string) InferenceService) (q : GPUQuota) (u : Usage) :
  inv n m -> (n <= max_services)%nat -> Reconcile (client_of (state m)) q = Some (Some u) ->
  u = exact (List.filter (scope q) (services_of (state m))).
Proof.
  intros ([Hk Hok] & Hs & _) Hn. unfold Reconcile, GpuQuota.Reconcile.
  assert (Hagg : forall names, NoDup names -> (forall i, bool_decide (is_Namespace i ∈ names) = scope q i) ->
    (lists ← mapM (cl_services_in (client_of (state m))) names;
     Some (Some (fold_left (account parseQuantity vramPerDeviceGiB (client_of (state m))) (concat lists) {| us_GPUCount := 0; us_VRAMBytes := 0 |})))
    = Some (Some u) -> u = exact (List.filter (scope q) (services_of (state m)))).
  { intros names Hnd Hsc. rewrite (mapM_total _ (fun ns => List.filter (in_namespace ns) (services_of (state m)))) by done. cbn [mbind option_bind].
    rewrite aggregate_exact by (done || lia). intros [= <-]. f_equal. by apply List.filter_ext. }
  unfold scope, gpuQuotaCoversNamespace in *. destruct (bool_decide_reflect (gq_NamespaceRef (q_Spec q) = EmptyString)) as [E|E]; cbn [negb].
  - destruct (gq_Selector (q_Spec q)) as [s|] eqn:Es; [|done]. destruct (asSelector s) as [f|] eqn:Ef; [|done]. cbn [mbind option_bind cl_namespaces_matching client_of].
    apply Hagg.
    + apply NoDup_ListNoDup, List.NoDup_filter, NoDup_ListNoDup, NoDup_fst_map_to_list.
    + intros i. cbn. destruct (so_namespaces st0 !! is_Namespace i) as [labels|] eqn:El; cbn.
      * apply eq_bool_prop_intro. rewrite bool_decide_spec, list_elem_of_In, List.filter_In, El, <- list_elem_of_In, Is_true_true.
        split; [tauto|]. intros Hf. split; [|done]. apply list_elem_of_fmap. exists (is_Namespace i, labels). split; [done|]. by apply elem_of_map_to_list.
      * apply bool_decide_eq_false_2. rewrite list_elem_of_In, List.filter_In, El. by intros [_ ?].
  - apply Hagg; [apply NoDup_singleton|]. intros i. apply bool_decide_ext. rewrite list_elem_of_singleton. naive_solver.
Qed.

End Facts.


(** ** A sample cluster *)

Module QuotaSample.

(** Selectors of one label. *)
Definition asSelector (s : string * string) : option (gmap string string -> bool) :=
  Some (fun labels => bool_decide (labels !! s.1 = Some s.2)).
Definition parseQuantity (_ : string) : option Z := None.
Definition vramPerDeviceGiB : Z := 80.

Definition service (ns name : string) (gpus : Z) (max : option Z) (multi : option MultiNodeSpec) : InferenceService :=
  {| is_Name := name; is_Namespace := ns; is_Labels := ∅; is_ModelRef := EmptyString; is_Runtime := "vllm"; is_Replicas := None;
     is_Autoscaling := Build_AutoscalingSpec <$> max; is_Priority := "normal";
     is_Resources := Some {| rq_GPU := gpus; rq_GPUSharing := None |};
     is_VLLMConfig := None; is_SGLangConfig := None; is_MultiNode := multi |}.

Definition quota (ref : string) (sel : option (string * string)) (gpus vram : Z) : @GPUQuota (string * string) :=
  {| q_Name := "cap"; q_Namespace := "default";
     q_Spec := {| gq_Selector := sel; gq_NamespaceRef := ref; gq_GPUCount := gpus; gq_VRAMBytes := vram;
                  gq_MinPriority := EmptyString; gq_CostBudgetRef := EmptyString |} |}.

Definition cluster (quotas : list (@GPUQuota (string * string))) : store (string * string) :=
  {| so_services := ∅; so_models := ∅; so_quotas := quotas;
     so_namespaces := <["research" := <["team" := "x"]> ∅]> (<["web" := ∅]> ∅) |}.

Definition admission (st : store (string * string)) (isvc : InferenceService) : result admission_error unit :=
  validate asSelector parseQuantity vramPerDeviceGiB ∅ (client_of st) isvc.

Definition history (st : store (string * string)) (ops : list op) : store (string * string) :=
  run asSelector parseQuantity vramPerDeviceGiB ∅ st ops.

Definition reported (st : store (string * string)) (q : GPUQuota) : option (option Usage) :=
  Reconcile asSelector parseQuantity vramPerDeviceGiB (client_of st) q.

End QuotaSample.
Import QuotaSample.

Definition sample_quota : @GPUQuota (string * string) := quota EmptyString (Some ("team", "x")) 3 0.
Definition sample_ops : list op :=
  [Apply (service "research" "a" 1 None None); Apply (service "research" "b" 2 None None); Apply (service "research" "c" 1 None None);
   Delete "research" "a"; Apply (service "research" "b" 1 None None)].


(** ** What the charge leaves out *)

Definition is_ok {E A : Type} (r : result E A) : bool := match r with Ok _ => true | Err _ => false end.

Lemma is_ok_Ok {E : Type} (r : result E unit) : is_ok r = true -> r = Ok tt.
Proof. by destruct r as [[]|]. Qed.

(** A service of one 80 GiB device per pod that scales to [n] pods, and a quota of
    100 GPUs and the memory of one device. *)
Definition scaling (n : Z) : InferenceService := service "web" "s" 1 (Some n) None.
Definition one_device : @GPUQuota (string * string) := quota "web" None 100 (80 * bytesPerGiB).

(** An autoscaled service is charged the device memory of its initial pods only.
    For every ceiling from 2 to 100 pods the webhook admits a service whose pods at
    the ceiling need more memory than the quota's cap (the GPUs are charged at the
    ceiling). *)
Lemma autoscaled_vram_uncharged (n : Z) :
  2 <= n <= 100 ->
  admission (cluster [one_device]) (scaling n) = Ok tt /\
  gpuCount (scaling n) None = n /\
  exists perPod, podVRAMBytes parseQuantity (scaling n) None vramPerDeviceGiB = Some perPod /\
    gq_VRAMBytes (q_Spec one_device) < n * perPod.
Proof.
  intros Hn.
  assert (H : forallb (fun n => is_ok (admission (cluster [one_device]) (scaling n))) (seqZ 2 99) = true) by (vm_compute; reflexivity).
  rewrite List.forallb_forall in H. split; [apply is_ok_Ok, H, list_elem_of_In, elem_of_seqZ; lia|]. split.
  - change (wrap32 (1 * n) = n). rewrite wrap32_small; lia.
  - eexists. split; [by vm_compute|]. unfold one_device, quota, bytesPerGiB. cbn. lia.
Qed.

(** A group over [k] nodes of 8 GPUs each, and a quota of 8 GPUs. *)
Definition group (k : nat) : InferenceService := service "web" "g" 8 None (Some {| mn_Members := replicate k "node" |}).
Definition one_node : @GPUQuota (string * string) := quota "web" None 8 0.

(** A multi-node group is charged one member.  For every group of 2 to 64 members
    the webhook admits it under a quota of the GPUs of one, although it runs on all
    of them. *)
Lemma multinode_members_uncharged (k : nat) :
  (2 <= k <= 64)%nat ->
  admission (cluster [one_node]) (group k) = Ok tt /\
  gpuCount (group k) None = 8 /\
  (multiNodeParallelism None (Z.of_nat k) 8).1.2 = 8 * Z.of_nat k.
Proof.
  intros Hk.
  assert (H : forallb (fun k => is_ok (admission (cluster [one_node]) (group k))) (seq 2 63) = true) by (vm_compute; reflexivity).
  rewrite List.forallb_forall in H. split; [apply is_ok_Ok, (H k), List.in_seq; lia|]. split; [done|].
  change (wrap32 (Z.of_nat k * 8) = 8 * Z.of_nat k). rewrite wrap32_small; lia.
Qed.

(** The webhook counts services outside the scope of a selector quota.  With a
    quota of one GPU on the namespaces of a team and one GPU in use in a namespace
    that is not the team's, the controller reports no usage, but the webhook refuses
    the team's first service as if the GPU were in use. *)
Lemma selector_quota_counts_foreign :
  let q := quota EmptyString (Some ("team", "x")) 1 0 in
  let st := history (cluster [q]) [Apply (service "web" "other" 1 None None)] in
  services_of st = [service "web" "other" 1 None None] /\
  reported st q = Some (Some {| us_GPUCount := 0; us_VRAMBytes := 0 |}) /\
  admission st (service "research" "mine" 1 None None) = Err (QuotaDenied "cap" (DenyGPUCount 1 1 1)).
Proof. vm_compute. repeat split. Qed.
