(* ===== verification/ModelPool.v ===== *)
(** * The ModelPool controller (modelpool_controller.go, modelpool_idle.go)

    A pool's members share one GPU slot.  [Reconcile] is one pass of the controller:
    it resolves the members, decides which should own the slot, drains the others
    and starts the owner.  What it reads of the cluster is an [env]; what it does is
    the list of replica patches it sends, in order, the status it writes and how it
    returns, a run-time panic included.  Every patch is computed from the members as
    they were read at the start of the pass, as in the source.

    Conditions are kept by type with status and reason; their messages, times and
    generations, metrics and log lines are left out.  The idle probe of a member is
    an answer of the environment; its failures are told apart as the source does,
    into a refused connection and the rest. *)

From stdpp Require Import base strings list gmap.
From Stdlib Require Import ZArith Lia Bool.
From S2P Require Import Prelude GoStrings.

(** ** Resources *)

Definition ModelPoolSwapPolicySticky : string := "sticky".
Definition ModelPoolSwapPolicyReclaim : string := "reclaim".
Definition ModelPoolPhasePending : string := "Pending".
Definition ModelPoolPhaseReady : string := "Ready".
Definition ModelPoolPhaseSwapping : string := "Swapping".
Definition ModelPoolPhaseDegraded : string := "Degraded".
Definition ConditionModelPoolSlotAllocated : string := "SlotAllocated".
Definition ConditionModelPoolMembersValid : string := "MembersValid".
Definition ConditionModelPoolSwapDeferred : string := "SwapDeferred".
Definition ConditionModelPoolMetalSupported : string := "MetalSupported".
Definition ReasonPodsBusy : string := "PodsBusy".
Definition ReasonIdleCheckFailed : string := "IdleCheckFailed".
Definition PhaseReady : string := "Ready".

Definition modelPoolSwapRequeue : Z := 3 * second.
Definition modelPoolReclaimPoll : Z := 30 * second.
Definition defaultReclaimAfter : Z := 300 * second.

(** The members by the name of their InferenceService. *)
Record ModelPoolSpec := {
  mp_SwapPolicy : string;
  mp_Members : list string;
  mp_Default : string;
  mp_ReclaimAfter : option Z;
}.

Record ModelPoolMemberStatus := {
  ms_Name : string;
  ms_Phase : string;
  ms_Resident : bool;
}.

Record ModelPoolStatus := {
  st_Phase : string;
  st_ResidentMember : string;
  st_PendingMember : string;
  st_ResidentIdleSince : option Z;
  st_Members : list ModelPoolMemberStatus;
  st_Conditions : gmap string (bool * string);
}.

Record ModelPool := {
  po_Spec : ModelPoolSpec;
  po_Status : ModelPoolStatus;
}.

(** A member InferenceService. *)
Record Member := {
  mb_Replicas : option Z;
  mb_Phase : string;
  mb_ModelRef : string;
}.

(** A Pod: whether it is being deleted, and which containers run. *)
Record Pod := {
  pd_Deleting : bool;
  pd_Running : list bool;
}.

Inductive lookup_result (A : Type) :=
| Found (a : A)
| NotFound
| LookupFailed.
Arguments Found {A} _.
Arguments NotFound {A}.
Arguments LookupFailed {A}.

Inductive probe_answer := ProbeIdle | ProbeBusy | ProbeRefused | ProbeFailed.

Inductive patch_answer := PatchOk | PatchConflict | PatchFailed.

(** What one pass sees.  A Model is whether its accelerator is metal.  The probe of
    the reclaim check and that of the drain are two requests.  A status patch with
    no difference is not sent and counts as [PatchOk]. *)
Record env := {
  ev_member : string -> lookup_result Member;
  ev_model : string -> lookup_result bool;
  ev_pods : string -> option (list Pod);
  ev_reclaimProbe : string -> probe_answer;
  ev_drainProbe : string -> probe_answer;
  ev_now : Z;
  ev_patch : string -> Z -> bool;
  ev_statusPatch : ModelPoolStatus -> ModelPoolStatus -> patch_answer;
}.

(** How a pass returns. *)
Inductive pool_result :=
| RequeueAfter (d : Z)
| RequeueNow
| PassFailed
| PassPanicked.

Record outcome := {
  oc_patches : list (string * Z);
  oc_status : option ModelPoolStatus;
  oc_result : pool_result;
}.

(** ** Members *)

Definition replicasOf (m : Member) : Z := default 1 (mb_Replicas m).

Definition memberReady (m : option Member) : bool :=
  match m with Some m => bool_decide (mb_Phase m = PhaseReady) | None => false end.

Definition memberNames (spec : ModelPoolSpec) : list string := mp_Members spec.

(** The members that resolve and the names that do not; [None] is a failed read. *)
Fixpoint resolveMembers (e : env) (names : list string) (members : gmap string Member) (missing : list string)
    : option (gmap string Member * list string) :=
  match names with
  | [] => Some (members, missing)
  | name :: names' =>
      if bool_decide (name = EmptyString) then resolveMembers e names' members missing
      else match ev_member e name with
           | NotFound => resolveMembers e names' members (missing ++ [name])
           | LookupFailed => None
           | Found m => resolveMembers e names' (<[name := m]> members) missing
           end
  end.

Fixpoint metalMembers (e : env) (members : gmap string Member) (names : list string) (metal : list string) : option (list string) :=
  match names with
  | [] => Some (SortStrings metal)
  | name :: names' =>
      match members !! name with
      | None => metalMembers e members names' metal
      | Some m =>
          if bool_decide (mb_ModelRef m = EmptyString) then metalMembers e members names' metal
          else match ev_model e (mb_ModelRef m) with
               | NotFound => metalMembers e members names' metal
               | LookupFailed => None
               | Found isMetal => metalMembers e members names' (if isMetal then metal ++ [name] else metal)
               end
      end
  end.

(** ** The owner of the slot *)

Definition is_member (members : gmap string Member) (name : string) : bool := bool_decide (is_Some (members !! name)).

Definition requested (spec : ModelPoolSpec) (members : gmap string Member) : list string :=
  List.filter (fun name => match members !! name with Some m => 1 <=? replicasOf m | None => false end) (mp_Members spec).

Definition resolveSlotOwner (pool : ModelPool) (members : gmap string Member) : string :=
  let spec := po_Spec pool in
  let resident := st_ResidentMember (po_Status pool) in
  let pending := st_PendingMember (po_Status pool) in
  let def := mp_Default spec in
  let requested := requested spec members in
  let newly := List.filter (fun name => negb (bool_decide (name = resident))) requested in
  let has s := negb (bool_decide (s = EmptyString)) in
  if bool_decide (resident = EmptyString) then
    if has pending && is_member members pending then pending
    else match requested with
         | [] => if has def && is_member members def then def else EmptyString
         | first :: _ => if has def && bool_decide (def ∈ requested) then def else first
         end
  else match newly with
       | first :: _ => if has pending && bool_decide (pending ∈ newly) then pending else first
       | [] => if has pending && is_member members pending then pending else resident
       end.

Definition pollWithin (reclaimAfter : Z) : Z :=
  if reclaimAfter <? modelPoolReclaimPoll then reclaimAfter else modelPoolReclaimPoll.

Definition reclaimAfterDuration (spec : ModelPoolSpec) : Z :=
  match mp_ReclaimAfter spec with
  | Some d => if 0 <? d then d else defaultReclaimAfter
  | None => defaultReclaimAfter
  end.

(** The owner, how long to wait before the next check, and the idle clock. *)
Definition applyReclaimOwner (e : env) (pool : ModelPool) (members : gmap string Member) (owner : string) : string * Z * option Z :=
  let spec := po_Spec pool in
  let def := mp_Default spec in
  let resident := st_ResidentMember (po_Status pool) in
  if negb (bool_decide (mp_SwapPolicy spec = ModelPoolSwapPolicyReclaim)) || bool_decide (def = EmptyString) then (owner, 0, None)
  else if bool_decide (owner = EmptyString) || negb (bool_decide (owner = resident)) || bool_decide (resident = def) then (owner, 0, None)
  else if negb (memberReady (members !! resident)) then (owner, 0, None)
  else if negb (is_member members def) then (owner, 0, None)
  else match ev_reclaimProbe e resident with
       | ProbeRefused | ProbeFailed => (owner, modelPoolReclaimPoll, st_ResidentIdleSince (po_Status pool))
       | ProbeBusy => (owner, modelPoolReclaimPoll, None)
       | ProbeIdle =>
           let reclaimAfter := reclaimAfterDuration spec in
           match st_ResidentIdleSince (po_Status pool) with
           | None => (owner, pollWithin reclaimAfter, Some (ev_now e))
           | Some since =>
               if reclaimAfter <=? time_sub (ev_now e) since then (def, 0, Some since)
               else (owner, pollWithin reclaimAfter, Some since)
           end
       end.

(** ** Idleness (modelpool_idle.go) *)

Inductive idleVerdict := idleVerdictIdle | idleVerdictBusy | idleVerdictUnknown.

Definition classifyMemberPods (pods : list Pod) : nat :=
  length (List.filter (fun p => negb (pd_Deleting p) && existsb id (pd_Running p)) pods).

Definition memberIdleVerdict (e : env) (name : string) (pods : list Pod) : idleVerdict :=
  match ev_drainProbe e name with
  | ProbeIdle => idleVerdictIdle
  | ProbeBusy => idleVerdictBusy
  | ProbeRefused => if (1 <? classifyMemberPods pods)%nat then idleVerdictUnknown else idleVerdictIdle
  | ProbeFailed => idleVerdictUnknown
  end.

(** ** Draining and starting *)

(** The patch of [ensureReplicas], if one is needed. *)
Definition ensureReplicas (name : string) (m : Member) (desired : Z) : list (string * Z) :=
  if replicasOf m =? desired then [] else [(name, desired)].

Definition patch_ok (e : env) (ps : list (string * Z)) : bool := forallb (fun p => ev_patch e p.1 p.2) ps.

(** The loop over the members that do not own the slot: the patches sent so far,
    and the reason to defer and whether the others are clear, or a failure. *)
Fixpoint drainOthers (e : env) (members : gmap string Member) (owner : string) (names : list string)
    (patches : list (string * Z)) (deferReason : string) (othersClear : bool) : list (string * Z) * option (string * bool) :=
  match names with
  | [] => (patches, Some (deferReason, othersClear))
  | name :: names' =>
      if bool_decide (name = owner) then drainOthers e members owner names' patches deferReason othersClear
      else match members !! name with
           | None => drainOthers e members owner names' patches deferReason othersClear
           | Some m =>
               match ev_pods e name with
               | None => (patches, None)
               | Some pods =>
                   match (if memberReady (Some m) then memberIdleVerdict e name pods else idleVerdictIdle) with
                   | idleVerdictBusy => drainOthers e members owner names' patches ReasonPodsBusy false
                   | idleVerdictUnknown => drainOthers e members owner names' patches ReasonIdleCheckFailed false
                   | idleVerdictIdle =>
                       let ps := ensureReplicas name m 0 in
                       if negb (patch_ok e ps) then (patches ++ ps, None)
                       else drainOthers e members owner names' (patches ++ ps) deferReason
                              (othersClear && bool_decide (pods = []))
                   end
               end
           end
  end.

(** [SetStatusCondition]. *)
Definition set_condition (ty : string) (status : bool) (reason : string) (s : ModelPoolStatus) : ModelPoolStatus :=
  {| st_Phase := st_Phase s; st_ResidentMember := st_ResidentMember s; st_PendingMember := st_PendingMember s;
     st_ResidentIdleSince := st_ResidentIdleSince s; st_Members := st_Members s;
     st_Conditions := <[ty := (status, reason)]> (st_Conditions s) |}.

(** The status of each member; [resident] says whether it owns the slot. *)
Definition member_statuses (spec : ModelPoolSpec) (members : gmap string Member) (resident : string -> Member -> bool)
    : list ModelPoolMemberStatus :=
  (fun name => match members !! name with
               | Some m => {| ms_Name := name; ms_Phase := mb_Phase m; ms_Resident := resident name m |}
               | None => {| ms_Name := name; ms_Phase := EmptyString; ms_Resident := false |}
               end) <$> mp_Members spec.

(** The status [updateStatus] writes. *)
Definition newStatus (pool : ModelPool) (members : gmap string Member) (owner : string) (swapping : bool) (deferReason : string)
    (idleSince : option Z) : ModelPoolStatus :=
  let st := po_Status pool in
  let ownerReady := negb (bool_decide (owner = EmptyString)) && memberReady (members !! owner) in
  let '(phase, resident, pending) :=
    if ownerReady then (ModelPoolPhaseReady, owner, EmptyString)
    else if negb (bool_decide (owner = EmptyString)) then
      (if swapping then ModelPoolPhaseSwapping else ModelPoolPhasePending, st_ResidentMember st, owner)
    else (ModelPoolPhasePending, EmptyString, EmptyString) in
  let base :=
    {| st_Phase := phase; st_ResidentMember := resident; st_PendingMember := pending; st_ResidentIdleSince := idleSince;
       st_Members := member_statuses (po_Spec pool) members (fun name m => bool_decide (name = owner) && memberReady (Some m));
       st_Conditions := st_Conditions st |} in
  set_condition ConditionModelPoolMetalSupported true "KubernetesGPU"
    (set_condition ConditionModelPoolSwapDeferred (negb (bool_decide (deferReason = EmptyString)))
       (if bool_decide (deferReason = EmptyString) then "NotDeferred" else deferReason)
       (set_condition ConditionModelPoolMembersValid true "AllResolved"
          (set_condition ConditionModelPoolSlotAllocated ownerReady (if ownerReady then "Resident" else "Swapping") base))).

(** A status write and what it makes of the pass. *)
Definition write_status (e : env) (before after : ModelPoolStatus) (patches : list (string * Z)) (done : pool_result) : outcome :=
  match ev_statusPatch e before after with
  | PatchOk => {| oc_patches := patches; oc_status := Some after; oc_result := done |}
  | PatchConflict => {| oc_patches := patches; oc_status := None; oc_result := RequeueNow |}
  | PatchFailed => {| oc_patches := patches; oc_status := None; oc_result := PassFailed |}
  end.

(** The common part of [markDegraded] and [markMetalUnsupported]. *)
Definition degraded (pool : ModelPool) (members : gmap string Member) : ModelPoolStatus :=
  let st := po_Status pool in
  {| st_Phase := ModelPoolPhaseDegraded; st_ResidentMember := st_ResidentMember st; st_PendingMember := st_PendingMember st;
     st_ResidentIdleSince := st_ResidentIdleSince st; st_Members := member_statuses (po_Spec pool) members (fun _ _ => false);
     st_Conditions := st_Conditions st |}.

Definition markDegraded (e : env) (pool : ModelPool) (members : gmap string Member) : outcome :=
  write_status e (po_Status pool) (set_condition ConditionModelPoolMembersValid false "MissingMembers" (degraded pool members)) []
    (RequeueAfter modelPoolSwapRequeue).

Definition markMetalUnsupported (e : env) (pool : ModelPool) (members : gmap string Member) : outcome :=
  write_status e (po_Status pool) (set_condition ConditionModelPoolMetalSupported false "MetalMembersUnsupported" (degraded pool members)) []
    (RequeueAfter 0).

Definition failed (patches : list (string * Z)) : outcome := {| oc_patches := patches; oc_status := None; oc_result := PassFailed |}.

(** From the owner on: its replicas, the requeue and the status.  The member of the
    owner is dereferenced, so an owner that is no member is a panic. *)
Definition startOwner (e : env) (pool : ModelPool) (members : gmap string Member) (owner : string) (reclaimRequeue : Z)
    (idleSince : option Z) (patches : list (string * Z)) (deferReason : string) (othersClear : bool) : outcome :=
  let ownerReady := memberReady (members !! owner) in
  let finish patches swapping :=
    let after := if swapping || (negb (bool_decide (owner = EmptyString)) && negb ownerReady) then modelPoolSwapRequeue else 0 in
    let after := if (0 <? reclaimRequeue) && ((after =? 0) || (reclaimRequeue <? after)) then reclaimRequeue else after in
    write_status e (po_Status pool) (newStatus pool members owner swapping deferReason idleSince) patches (RequeueAfter after) in
  let swapping := negb (bool_decide (deferReason = EmptyString)) in
  if bool_decide (owner = EmptyString) then finish patches swapping
  else match members !! owner with
       | None => {| oc_patches := patches; oc_status := None; oc_result := PassPanicked |}
       | Some m =>
           let ps := ensureReplicas owner m (if othersClear then 1 else 0) in
           if negb (patch_ok e ps) then failed (patches ++ ps)
           else finish (patches ++ ps) (swapping || negb othersClear || negb ownerReady)
       end.

(** One pass, for a pool that exists. *)
Definition Reconcile (e : env) (pool : ModelPool) : outcome :=
  match resolveMembers e (mp_Members (po_Spec pool)) ∅ [] with
  | None => failed []
  | Some (members, _ :: _) => markDegraded e pool members
  | Some (members, []) =>
      match metalMembers e members (memberNames (po_Spec pool)) [] with
      | None => failed []
      | Some (_ :: _) => markMetalUnsupported e pool members
      | Some [] =>
          let '(owner, reclaimRequeue, idleSince) := applyReclaimOwner e pool members (resolveSlotOwner pool members) in
          match drainOthers e members owner (memberNames (po_Spec pool)) [] EmptyString true with
          | (patches, None) => failed patches
          | (patches, Some (deferReason, othersClear)) =>
              startOwner e pool members owner reclaimRequeue idleSince patches deferReason othersClear
          end
      end
  end.

Definition findModelPoolsForInferenceService (pools : option (list (string * ModelPoolSpec))) (name : string) : list string :=
  match pools with
  | None => []
  | Some pools => fst <$> List.filter (fun p => bool_decide (name ∈ mp_Members p.2)) pools
  end.

(** ** The router's side (internal/router/activator_k8s.go) *)

(** The replicas [Activate] and [Deactivate] write, if they do. *)
Definition Activate (cur : lookup_result Member) : option (option Z) :=
  match cur with
  | Found m => match mb_Replicas m with Some r => if 1 <=? r then Some None else Some (Some 1) | None => Some (Some 1) end
  | _ => None
  end.

Definition Deactivate (cur : lookup_result Member) : option (option Z) :=
  match cur with
  | Found m => match mb_Replicas m with Some r => if r =? 0 then Some None else Some (Some 0) | None => Some (Some 0) end
  | _ => None
  end.
