(* ===== verification/ModelPoolFacts.v ===== *)
(** * Properties of the ModelPool controller

    What one pass may do (a member is started only when the others are gone, and a
    serving member is drained only when idle), that a swap goes through when the
    cluster follows, when the idle clock returns the slot, and two defects. *)

From stdpp Require Import base strings list gmap.
From Stdlib Require Import ZArith Lia Bool.
From S2P Require Import Prelude GoStrings ModelPool.

(** ** The drain loop *)

(** A member that may be drained: it does not report Ready, or holds no request. *)
Definition drainable (e : env) (name : string) (m : Member) : Prop :=
  exists pods, ev_pods e name = Some pods /\ (memberReady (Some m) = true -> memberIdleVerdict e name pods = idleVerdictIdle).

(** A member that is out of the way of another. *)
Definition cleared (e : env) (patches : list (string * Z)) (name : string) (m : Member) : Prop :=
  ev_pods e name = Some [] /\ drainable e name m /\ (replicasOf m = 0 \/ (name, 0) ∈ patches).

Definition drains (e : env) (members : gmap string Member) (owner : string) (p : string * Z) : Prop :=
  p.2 = 0 /\ p.1 ≠ owner /\ exists m, members !! p.1 = Some m /\ drainable e p.1 m.

Lemma cleared_mono (e : env) (ps qs : list (string * Z)) (name : string) (m : Member) :
  (forall p, p ∈ ps -> p ∈ qs) -> cleared e ps name m -> cleared e qs name m.
Proof. intros H (Hp & Hd & Hr). split; [done|]. split; [done|]. destruct Hr; auto. Qed.

Lemma ensureReplicas_spec (name : string) (m : Member) (d : Z) (p : string * Z) :
  p ∈ ensureReplicas name m d -> p = (name, d).
Proof. unfold ensureReplicas. case_if; set_solver. Qed.

Lemma ensureReplicas_reaches (name : string) (m : Member) (d : Z) : replicasOf m = d \/ (name, d) ∈ ensureReplicas name m d.
Proof. unfold ensureReplicas. destruct (Z.eqb_spec (replicasOf m) d); [by left|right; set_solver]. Qed.

Lemma drainOthers_spec (e : env) (members : gmap string Member) (owner : string) (names : list string)
    (patches0 : list (string * Z)) (d0 : string) (clear0 : bool) (patches : list (string * Z)) (r : option (string * bool)) :
  drainOthers e members owner names patches0 d0 clear0 = (patches, r) ->
  (forall p, p ∈ patches0 -> p ∈ patches) /\
  (forall p, p ∈ patches -> p ∈ patches0 \/ drains e members owner p) /\
  (forall d, r = Some (d, true) -> clear0 = true /\
     forall name m, name ∈ names -> name ≠ owner -> members !! name = Some m -> cleared e patches name m).
Proof.
  revert patches0 d0 clear0. induction names as [|n names IH]; intros patches0 d0 clear0; cbn [drainOthers].
  { intros [= <- <-]. split; [done|]. split; [by left|]. intros d [= <- ->]. split; [done|]. set_solver. }
  destruct (bool_decide_reflect (n = owner)) as [->|Hn].
  { intros H. destruct (IH _ _ _ H) as (H1 & H2 & H3). split; [done|]. split; [done|]. intros d Hd. destruct (H3 d Hd) as [? Hc]. split; [done|].
    intros name m Hin. apply elem_of_cons in Hin as [->|Hin]; [done|by apply Hc]. }
  destruct (members !! n) as [m|] eqn:Em.
  2: { intros H. destruct (IH _ _ _ H) as (H1 & H2 & H3). split; [done|]. split; [done|]. intros d Hd. destruct (H3 d Hd) as [? Hc]. split; [done|].
       intros name m Hin. apply elem_of_cons in Hin as [->|Hin]; [congruence|by apply Hc]. }
  destruct (ev_pods e n) as [pods|] eqn:Ep; [|by intros [= <- <-]; split; [|split; [by left|]]].
  destruct (if memberReady (Some m) then _ else _) eqn:Ev.
  2,3: intros H; destruct (IH _ _ _ H) as (H1 & H2 & H3); (split; [done|]); (split; [done|]); intros d Hd; by destruct (H3 d Hd).
  assert (Hdr : drainable e n m) by (exists pods; split; [done|]; intros Hr; by rewrite Hr in Ev).
  assert (Hnew : forall p, p ∈ ensureReplicas n m 0 -> drains e members owner p).
  { intros p Hp. apply ensureReplicas_spec in Hp as ->. split; [done|]. split; [done|]. by exists m. }
  destruct (patch_ok e (ensureReplicas n m 0)); cbn [negb].
  2: { intros [= <- <-]. split; [set_solver|]. split; [set_solver|done]. }
  intros H. destruct (IH _ _ _ H) as (H1 & H2 & H3). split; [set_solver|]. split.
  { intros p Hp. destruct (H2 p Hp) as [Hq|Hq]; [|by right]. apply elem_of_app in Hq as [?|?]; [by left|right; by apply Hnew]. }
  intros d Hd. destruct (H3 d Hd) as [Hc Hrest]. apply andb_true_iff in Hc as [-> Hpods]. apply bool_decide_eq_true in Hpods as ->. split; [done|].
  intros name m' Hin Hne Hm'. apply elem_of_cons in Hin as [->|Hin]; [|by apply Hrest]. rewrite Em in Hm'. injection Hm' as <-.
  split; [done|]. split; [done|]. destruct (ensureReplicas_reaches n m 0); [by left|right]. apply H1. set_solver.
Qed.

(** ** One pass *)

Definition resolves (e : env) (pool : ModelPool) (members : gmap string Member) : Prop :=
  resolveMembers e (mp_Members (po_Spec pool)) ∅ [] = Some (members, []).

(** The member that should own the slot. *)
Definition owner_of (e : env) (pool : ModelPool) (members : gmap string Member) : string :=
  (applyReclaimOwner e pool members (resolveSlotOwner pool members)).1.1.

Lemma write_status_patches (e : env) (b a : ModelPoolStatus) (ps : list (string * Z)) (r : pool_result) : oc_patches (write_status e b a ps r) = ps.
Proof. unfold write_status. by destruct (ev_statusPatch e b a). Qed.

Lemma startOwner_patches (e : env) (pool : ModelPool) (members : gmap string Member) (owner : string) (rq : Z) (idle : option Z)
    (ps : list (string * Z)) (d : string) (clear : bool) (p : string * Z) :
  p ∈ oc_patches (startOwner e pool members owner rq idle ps d clear) ->
  p ∈ ps \/ p = (owner, if clear then 1 else 0).
Proof.
  unfold startOwner. case_if; [rewrite write_status_patches; by left|]. destruct (members !! owner) as [m|]; [|by left].
  intros Hp. assert (Hp' : p ∈ ps ++ ensureReplicas owner m (if clear then 1 else 0)).
  { destruct (patch_ok _ _); cbn [negb] in Hp; [by rewrite write_status_patches in Hp|exact Hp]. }
  apply elem_of_app in Hp' as [?|He]; [by left|right]. by apply ensureReplicas_spec in He.
Qed.

Lemma Reconcile_patches (e : env) (pool : ModelPool) (p : string * Z) :
  p ∈ oc_patches (Reconcile e pool) ->
  exists members ps r, resolves e pool members /\
    drainOthers e members (owner_of e pool members) (mp_Members (po_Spec pool)) [] EmptyString true = (ps, r) /\
    (forall q, q ∈ ps -> q ∈ oc_patches (Reconcile e pool)) /\
    (p ∈ ps \/ exists d clear, r = Some (d, clear) /\ p = (owner_of e pool members, if clear then 1 else 0)).
Proof.
  unfold Reconcile, resolves, owner_of. destruct (resolveMembers e _ ∅ []) as [[members [|x missing]]|].
  2: { unfold markDegraded. rewrite write_status_patches. set_solver. }
  2: { simpl. set_solver. }
  destruct (metalMembers e members _ []) as [[|y metal]|].
  2: { unfold markMetalUnsupported. rewrite write_status_patches. set_solver. }
  2: { simpl. set_solver. }
  destruct (applyReclaimOwner e pool members _) as [[owner rq] idle] eqn:Ea. unfold memberNames.
  destruct (drainOthers e members owner _ [] EmptyString true) as [ps [[d clear]|]] eqn:Ed.
  - intros Hp. exists members, ps, (Some (d, clear)). rewrite Ea. split; [done|]. split; [done|]. split.
    + intros q Hq. unfold startOwner. case_if; [by rewrite write_status_patches|]. destruct (members !! owner) as [m|]; [|done].
      case_if; [cbn [failed oc_patches]; set_solver|]. rewrite write_status_patches. set_solver.
    + apply startOwner_patches in Hp as [?|?]; [by left|right; eauto].
  - intros Hp. exists members, ps, None. rewrite Ea. split; [done|]. split; [done|]. split; [done|by left].
Qed.

(** C32: a pass of the controller keeps the slot exclusive and never drains a serving
    member.  If it sets a member to one replica, that member owns the slot and every
    other member had no Pods, held no request, and is at zero replicas or was set to
    zero in the same pass.  If it sets a member that does not own the slot to zero,
    the member was not serving, or its probe said idle, or nothing listened and at
    most one of its Pods ran.  It sets no other number. *)
Theorem pass_keeps_slot_exclusive (e : env) (pool : ModelPool) (name : string) (replicas : Z) :
  (name, replicas) ∈ oc_patches (Reconcile e pool) ->
  exists members, resolves e pool members /\
  (replicas = 1 /\ name = owner_of e pool members /\
   (forall other m, other ∈ mp_Members (po_Spec pool) -> other ≠ name -> members !! other = Some m ->
      cleared e (oc_patches (Reconcile e pool)) other m)
   \/ replicas = 0 /\ (name = owner_of e pool members \/
        exists m pods, members !! name = Some m /\ ev_pods e name = Some pods /\
          (mb_Phase m = PhaseReady -> ev_drainProbe e name = ProbeIdle \/
             ev_drainProbe e name = ProbeRefused /\ (classifyMemberPods pods <= 1)%nat))).
Proof.
  intros Hp. destruct (Reconcile_patches e pool _ Hp) as (members & ps & r & Hres & Hd & Hsub & Hcase). exists members. split; [done|].
  destruct (drainOthers_spec _ _ _ _ _ _ _ _ _ Hd) as (_ & Hps & Hclear). destruct Hcase as [Hin|(d & clear & -> & E)].
  - right. destruct (Hps _ Hin) as [?|(E0 & _ & m & Hm & pods & Hpods & Hv)]; [set_solver|]. simpl in *. split; [done|]. right. exists m, pods.
    split; [done|]. split; [done|]. intros Hready. specialize (Hv ltac:(unfold memberReady; by apply bool_decide_eq_true)).
    unfold memberIdleVerdict in Hv. destruct (ev_drainProbe e name); try done; [by left|].
    destruct (Nat.ltb_spec 1 (classifyMemberPods pods)); [done|]. by right.
  - injection E as -> ->. destruct clear; [left|right; auto]. split; [done|]. split; [done|].
    intros other m Hin Hne Hm. destruct (Hclear d eq_refl) as [_ Hc]. eapply cleared_mono; [exact Hsub|]. by apply Hc.
Qed.

(** ** A cluster that answers *)

(** Reads and writes succeed and no Model is metal. *)
Definition calm (members : gmap string Member) (pods : string -> list Pod) (probe : string -> probe_answer) (now : Z) : env :=
  {| ev_member := fun n => match members !! n with Some m => Found m | None => NotFound end;
     ev_model := fun _ => NotFound;
     ev_pods := fun n => Some (pods n);
     ev_reclaimProbe := probe; ev_drainProbe := probe; ev_now := now;
     ev_patch := fun _ _ => true; ev_statusPatch := fun _ _ => PatchOk |}.

(** The members of the pool are those of the map. *)
Definition covers (spec : ModelPoolSpec) (members : gmap string Member) : Prop :=
  EmptyString ∉ mp_Members spec /\ forall n, n ∈ mp_Members spec <-> is_Some (members !! n).

Section Calm.
Context (members : gmap string Member) (pods : string -> list Pod) (probe : string -> probe_answer) (now : Z).
Notation e := (calm members pods probe now).

Lemma resolveMembers_calm (names : list string) (acc : gmap string Member) :
  EmptyString ∉ names -> (forall n, n ∈ names -> is_Some (members !! n)) ->
  exists acc', resolveMembers e names acc [] = Some (acc', []) /\
    forall n, acc' !! n = if decide (n ∈ names) then members !! n else acc !! n.
Proof.
  revert acc. induction names as [|n names IH]; intros acc H0 Hn.
  { exists acc. split; [done|]. intros n. by rewrite decide_False by set_solver. }
  cbn [resolveMembers]. rewrite bool_decide_eq_false_2 by set_solver. cbn [calm ev_member].
  destruct (Hn n) as [m Hm]; [set_solver|]. rewrite Hm. destruct (IH (<[n := m]> acc)) as (acc' & E & Hacc); [set_solver..|].
  exists acc'. split; [done|]. intros k. rewrite Hacc. destruct (decide (k ∈ names)) as [Hk|Hk].
  - by rewrite decide_True by by right.
  - destruct (decide (k = n)) as [->|Hne].
    + rewrite decide_True by by left. by rewrite lookup_insert_eq.
    + rewrite decide_False by (rewrite elem_of_cons; tauto). by rewrite lookup_insert_ne.
Qed.

Lemma resolves_calm (pool : ModelPool) : covers (po_Spec pool) members -> resolves e pool members.
Proof.
  intros [H0 Hc]. unfold resolves. destruct (resolveMembers_calm (mp_Members (po_Spec pool)) ∅ H0) as (acc & -> & Hacc).
  { intros n Hn. by apply Hc. }
  do 2 f_equal. apply map_eq. intros n. rewrite Hacc. destruct (decide (n ∈ _)) as [Hn|Hn]; [done|]. rewrite lookup_empty.
  destruct (members !! n) as [m|] eqn:E; [|done]. exfalso. apply Hn, Hc. by exists m.
Qed.

Lemma metalMembers_calm (names : list string) : metalMembers e members names [] = Some [].
Proof.
  induction names as [|n names IH]; [done|]. cbn [metalMembers]. destruct (members !! n) as [m|]; [|done]. by case_if.
Qed.

Lemma patch_ok_calm (ps : list (string * Z)) : patch_ok e ps = true.
Proof. unfold patch_ok. apply List.forallb_forall. done. Qed.

Lemma drainOthers_calm (owner : string) (names : list string) (ps : list (string * Z)) (d : string) (c : bool) :
  exists ps' d' c', drainOthers e members owner names ps d c = (ps', Some (d', c')).
Proof.
  revert ps d c. induction names as [|n names IH]; intros ps d c; cbn [drainOthers]; [by eauto|].
  case_if; [apply IH|]. destruct (members !! n) as [m|]; [|apply IH]. cbn [calm ev_pods].
  destruct (if memberReady (Some m) then _ else _); [|apply IH..]. rewrite patch_ok_calm. apply IH.
Qed.

(** The others are stopped: no Pods and not serving. *)
Definition stopped (owner : string) : Prop :=
  forall n m, n ≠ owner -> members !! n = Some m -> memberReady (Some m) = false /\ pods n = [].

Lemma drainOthers_stopped (owner : string) (names : list string) (ps : list (string * Z)) (d : string) (c : bool) :
  stopped owner -> exists ps', drainOthers e members owner names ps d c = (ps', Some (d, c)).
Proof.
  intros Hs. revert ps. induction names as [|n names IH]; intros ps; cbn [drainOthers]; [by eauto|].
  destruct (bool_decide_reflect (n = owner)) as [|Hn]; [apply IH|]. destruct (members !! n) as [m|] eqn:Em; [|apply IH].
  cbn [calm ev_pods]. destruct (Hs n m Hn Em) as [-> ->]. rewrite patch_ok_calm. cbn [negb]. rewrite bool_decide_eq_true_2, andb_true_r by done. apply IH.
Qed.

Lemma Reconcile_calm (pool : ModelPool) (owner : string) (rq : Z) (idle : option Z) :
  covers (po_Spec pool) members ->
  applyReclaimOwner e pool members (resolveSlotOwner pool members) = (owner, rq, idle) ->
  exists ps d c, drainOthers e members owner (mp_Members (po_Spec pool)) [] EmptyString true = (ps, Some (d, c)) /\
    Reconcile e pool = startOwner e pool members owner rq idle ps d c.
Proof.
  intros Hc Ha. unfold Reconcile. rewrite (resolves_calm pool Hc), metalMembers_calm, Ha. unfold memberNames.
  destruct (drainOthers_calm owner (mp_Members (po_Spec pool)) [] EmptyString true) as (ps & d & c & E). rewrite E. eauto.
Qed.

(** Starting an owner that is a member. *)
Lemma startOwner_calm (pool : ModelPool) (owner : string) (m : Member) (rq : Z) (idle : option Z) (ps : list (string * Z)) (d : string) (c : bool) :
  owner ≠ EmptyString -> members !! owner = Some m ->
  exists r swapping, startOwner e pool members owner rq idle ps d c =
    {| oc_patches := ps ++ ensureReplicas owner m (if c then 1 else 0);
       oc_status := Some (newStatus pool members owner swapping d idle);
       oc_result := RequeueAfter r |}.
Proof.
  intros Ho Hm. unfold startOwner. rewrite bool_decide_eq_false_2 by done. rewrite Hm, patch_ok_calm. cbn [negb]. unfold write_status. eauto.
Qed.

End Calm.

(** ** Choosing the owner *)

(** Only [name] is scaled up. *)
Definition only_requested (members : gmap string Member) (name : string) : Prop :=
  forall n m, n ≠ name -> members !! n = Some m -> replicasOf m < 1.

Lemma requested_only (spec : ModelPoolSpec) (members : gmap string Member) (r x : string) :
  only_requested members r -> x ∈ requested spec members -> x = r.
Proof.
  intros Ho Hx. destruct (decide (x = r)) as [|Hne]; [done|]. unfold requested in Hx. apply list_elem_of_In, List.filter_In in Hx as [_ Hx].
  destruct (members !! x) as [m|] eqn:E; [|done]. specialize (Ho x m Hne E). to_prop. lia.
Qed.

Lemma owner_settled (pool : ModelPool) (members : gmap string Member) (r : string) :
  st_ResidentMember (po_Status pool) = r -> r ≠ EmptyString -> st_PendingMember (po_Status pool) = EmptyString ->
  only_requested members r -> resolveSlotOwner pool members = r.
Proof.
  intros Hr Hne Hp Ho. unfold resolveSlotOwner. rewrite Hr, Hp, bool_decide_eq_false_2 by done.
  destruct (List.filter _ _) as [|x l] eqn:E; [done|]. exfalso.
  assert (Hx : x ∈ x :: l) by by left. rewrite <- E in Hx. apply list_elem_of_In, List.filter_In in Hx as [Hx Hx'].
  apply list_elem_of_In in Hx. rewrite (requested_only _ _ _ _ Ho Hx), bool_decide_eq_true_2 in Hx' by done. done.
Qed.

(** A scaled-up member other than the resident, or the pending one, takes over. *)
Lemma owner_swaps (pool : ModelPool) (members : gmap string Member) (r t : string) :
  st_ResidentMember (po_Status pool) = r -> r ≠ EmptyString -> t ≠ EmptyString -> t ≠ r -> is_Some (members !! t) ->
  (forall x, x ∈ requested (po_Spec pool) members -> x = r \/ x = t) ->
  (st_PendingMember (po_Status pool) = EmptyString /\ t ∈ requested (po_Spec pool) members \/ st_PendingMember (po_Status pool) = t) ->
  resolveSlotOwner pool members = t.
Proof.
  intros Hr Hrne Htne Htr Ht Hreq Hcase. unfold resolveSlotOwner. rewrite Hr, bool_decide_eq_false_2 by done.
  assert (Hnew : forall x, x ∈ List.filter (fun name => negb (bool_decide (name = r))) (requested (po_Spec pool) members) -> x = t).
  { intros x Hx. apply list_elem_of_In, List.filter_In in Hx as [Hx Hx']. apply list_elem_of_In in Hx. to_prop. by destruct (Hreq x Hx). }
  destruct (List.filter _ _) as [|x l] eqn:E.
  - destruct Hcase as [[_ Hin]|Hp].
    + exfalso. apply list_elem_of_In in Hin. assert (Hin' : In t []); [|done]. rewrite <- E. apply List.filter_In. split; [done|].
      by rewrite bool_decide_eq_false_2.
    + rewrite Hp. unfold is_member. rewrite (bool_decide_eq_true_2 (is_Some _)) by done. by rewrite bool_decide_eq_false_2.
  - assert (x = t) as -> by (apply Hnew; by left). destruct Hcase as [[-> _]| ->]; [done|].
    case_if; done.
Qed.

(** No reclaiming: the policy is another. *)
Lemma applyReclaimOwner_sticky (e : env) (pool : ModelPool) (members : gmap string Member) (owner : string) :
  mp_SwapPolicy (po_Spec pool) ≠ ModelPoolSwapPolicyReclaim -> applyReclaimOwner e pool members owner = (owner, 0, None).
Proof. intros H. unfold applyReclaimOwner. by rewrite bool_decide_eq_false_2. Qed.

(** ** Two defects *)

(** A stray Pod of another member unloads the resident while it serves.  In a
    settled pool (one member resident and ready, the others scaled to zero, no swap
    pending), if a Pod of another member is still there, the pass scales the resident
    to zero, whatever its idle probe says: unlike a displaced member, the owner is
    held at zero without being asked whether it is busy. *)
Lemma stray_pod_unloads_resident (members : gmap string Member) (pods : string -> list Pod) (probe : string -> probe_answer) (now : Z)
    (pool : ModelPool) (r b : string) (m mb : Member) :
  covers (po_Spec pool) members ->
  mp_SwapPolicy (po_Spec pool) ≠ ModelPoolSwapPolicyReclaim ->
  st_ResidentMember (po_Status pool) = r -> st_PendingMember (po_Status pool) = EmptyString ->
  members !! r = Some m -> mb_Replicas m = Some 1 -> mb_Phase m = PhaseReady -> only_requested members r ->
  b ≠ r -> members !! b = Some mb -> pods b ≠ [] ->
  (r, 0) ∈ oc_patches (Reconcile (calm members pods probe now) pool).
Proof.
  intros Hc Hpol Hr Hp Hm Hrep _ Ho Hb Hmb Hpods. assert (Hrne : r ≠ EmptyString).
  { intros ->. apply (proj1 Hc), (proj2 Hc). by exists m. }
  destruct (Reconcile_calm members pods probe now pool r 0 None Hc) as (ps & d & c & Hd & ->).
  { rewrite (owner_settled pool members r) by done. by apply applyReclaimOwner_sticky. }
  destruct (startOwner_calm members pods probe now pool r m 0 None ps d c Hrne Hm) as (res & sw & ->). cbn [oc_patches].
  destruct c; [exfalso|apply elem_of_app; right; unfold ensureReplicas, replicasOf; rewrite Hrep; by left].
  destruct (drainOthers_spec _ _ _ _ _ _ _ _ _ Hd) as (_ & _ & Hcl). destruct (Hcl d eq_refl) as [_ Hall].
  destruct (Hall b mb) as [E _]; [apply (proj2 Hc); by exists mb|done|done|]. cbn [calm ev_pods] in E. congruence.
Qed.

(** Removing the resident from a pool's members crashes the controller.  When the
    recorded resident is no longer a member, no member is scaled up and no swap is
    pending, the owner is still the recorded resident, and the pass dereferences its
    missing InferenceService; the status stays, so every later pass does the same. *)
Lemma removed_resident_panics (members : gmap string Member) (pods : string -> list Pod) (probe : string -> probe_answer) (now : Z)
    (pool : ModelPool) (r : string) :
  covers (po_Spec pool) members ->
  mp_SwapPolicy (po_Spec pool) ≠ ModelPoolSwapPolicyReclaim ->
  st_ResidentMember (po_Status pool) = r -> r ≠ EmptyString -> st_PendingMember (po_Status pool) = EmptyString ->
  r ∉ mp_Members (po_Spec pool) -> only_requested members r ->
  oc_result (Reconcile (calm members pods probe now) pool) = PassPanicked /\
  oc_status (Reconcile (calm members pods probe now) pool) = None.
Proof.
  intros Hc Hpol Hr Hrne Hp Hnot Ho. destruct (Reconcile_calm members pods probe now pool r 0 None Hc) as (ps & d & c & Hd & ->).
  { rewrite (owner_settled pool members r) by done. by apply applyReclaimOwner_sticky. }
  unfold startOwner. rewrite bool_decide_eq_false_2 by done. destruct (members !! r) as [m|] eqn:E; [|done].
  exfalso. apply Hnot, (proj2 Hc). by exists m.
Qed.

(** ** A swap goes through *)

Definition quiet (members : gmap string Member) (pods : string -> list Pod) (owner : string) : Prop :=
  forall n m, n ≠ owner -> members !! n = Some m -> replicasOf m < 1 /\ memberReady (Some m) = false /\ pods n = [].

Lemma newStatus_loading (pool : ModelPool) (members : gmap string Member) (owner : string) (sw : bool) (d : string) (idle : option Z) :
  owner ≠ EmptyString -> memberReady (members !! owner) = false ->
  st_ResidentMember (newStatus pool members owner sw d idle) = st_ResidentMember (po_Status pool) /\
  st_PendingMember (newStatus pool members owner sw d idle) = owner.
Proof. intros Ho Hr. unfold newStatus. rewrite Hr, bool_decide_eq_false_2, andb_false_r by done. done. Qed.

Lemma newStatus_resident (pool : ModelPool) (members : gmap string Member) (owner : string) (sw : bool) (d : string) (idle : option Z) :
  owner ≠ EmptyString -> memberReady (members !! owner) = true ->
  st_Phase (newStatus pool members owner sw d idle) = ModelPoolPhaseReady /\
  st_ResidentMember (newStatus pool members owner sw d idle) = owner /\
  st_PendingMember (newStatus pool members owner sw d idle) = EmptyString.
Proof. intros Ho Hr. unfold newStatus. rewrite Hr, bool_decide_eq_false_2 by done. done. Qed.

(** A pass of a swap from [r] to [t] under way. *)
Lemma swap_pass (members : gmap string Member) (pods : string -> list Pod) (probe : string -> probe_answer) (now : Z)
    (pool : ModelPool) (r t : string) (m : Member) :
  covers (po_Spec pool) members -> mp_SwapPolicy (po_Spec pool) ≠ ModelPoolSwapPolicyReclaim ->
  st_ResidentMember (po_Status pool) = r -> r ≠ EmptyString -> t ≠ r -> members !! t = Some m ->
  (forall n x, n ≠ r -> n ≠ t -> members !! n = Some x -> replicasOf x < 1) ->
  (st_PendingMember (po_Status pool) = EmptyString /\ 1 <= replicasOf m \/ st_PendingMember (po_Status pool) = t) ->
  exists ps d c res sw, drainOthers (calm members pods probe now) members t (mp_Members (po_Spec pool)) [] EmptyString true = (ps, Some (d, c)) /\
    t ≠ EmptyString /\
    Reconcile (calm members pods probe now) pool =
      {| oc_patches := ps ++ ensureReplicas t m (if c then 1 else 0);
         oc_status := Some (newStatus pool members t sw d None); oc_result := RequeueAfter res |}.
Proof.
  intros Hc Hpol Hr Hrne Htr Hm Hreq Hcase. assert (Htne : t ≠ EmptyString).
  { intros ->. apply (proj1 Hc), (proj2 Hc). by exists m. }
  destruct (Reconcile_calm members pods probe now pool t 0 None Hc) as (ps & d & c & Hd & ->).
  { rewrite (owner_swaps pool members r t); [by apply applyReclaimOwner_sticky|done..|by exists m| |].
    - intros x Hx. unfold requested in Hx. apply list_elem_of_In, List.filter_In in Hx as [_ Hx].
      destruct (members !! x) as [y|] eqn:E; [|done]. destruct (decide (x = r)), (decide (x = t)); auto. specialize (Hreq x y ltac:(done) ltac:(done) E). to_prop. lia.
    - destruct Hcase as [[? H1]|?]; [left|by right]. split; [done|]. apply list_elem_of_In, List.filter_In. rewrite Hm.
      split; [apply list_elem_of_In, (proj2 Hc); by exists m|]. by apply Z.leb_le. }
  destruct (startOwner_calm members pods probe now pool t m 0 None ps d c Htne Hm) as (res & sw & ->).
  exists ps, d, c, res, sw. done.
Qed.


(** ** The idle clock *)

Section Reclaim.
Context (spec : ModelPoolSpec) (st : ModelPoolStatus) (members : gmap string Member) (pods : string -> list Pod).

(** The status with another clock.  A time keeps whole seconds when it is stored. *)
Definition with_clock (clock : option Z) : ModelPool :=
  {| po_Spec := spec;
     po_Status := {| st_Phase := st_Phase st; st_ResidentMember := st_ResidentMember st; st_PendingMember := st_PendingMember st;
                     st_ResidentIdleSince := clock; st_Members := st_Members st; st_Conditions := st_Conditions st |} |}.

Definition stored (clock : option Z) : option Z := (fun t => time_truncate t second) <$> clock.

(** A check at a time, with what the probe answers. *)
Definition check (o : Z * probe_answer) (clock : option Z) : string * Z * option Z :=
  applyReclaimOwner (calm members pods (fun _ => o.2) o.1) (with_clock clock) members (st_ResidentMember st).

(** The clock after a sequence of checks. *)
Definition clock_after (obs : list (Z * probe_answer)) (clock : option Z) : option Z :=
  fold_left (fun c o => stored (check o c).2) obs clock.

(** The pool is settled on a member that is not the default. *)
Definition reclaimable : Prop :=
  mp_SwapPolicy spec = ModelPoolSwapPolicyReclaim /\ mp_Default spec ≠ EmptyString /\ is_Some (members !! mp_Default spec) /\
  st_ResidentMember st ≠ EmptyString /\ st_ResidentMember st ≠ mp_Default spec /\
  memberReady (members !! st_ResidentMember st) = true.

Context (Hset : reclaimable).

Lemma check_spec (o : Z * probe_answer) (clock : option Z) :
  check o clock =
    match o.2 with
    | ProbeRefused | ProbeFailed => (st_ResidentMember st, modelPoolReclaimPoll, clock)
    | ProbeBusy => (st_ResidentMember st, modelPoolReclaimPoll, None)
    | ProbeIdle =>
        match clock with
        | None => (st_ResidentMember st, pollWithin (reclaimAfterDuration spec), Some o.1)
        | Some since => if reclaimAfterDuration spec <=? time_sub o.1 since then (mp_Default spec, 0, Some since)
                        else (st_ResidentMember st, pollWithin (reclaimAfterDuration spec), Some since)
        end
    end.
Proof.
  destruct Hset as (Hpol & Hd & Hdm & Hr & Hrd & Hready). unfold check, applyReclaimOwner. cbn [with_clock po_Spec po_Status st_ResidentMember].
  rewrite Hpol, (bool_decide_eq_true_2 (_ = ModelPoolSwapPolicyReclaim)), (bool_decide_eq_false_2 (mp_Default spec = EmptyString)) by done.
  rewrite (bool_decide_eq_false_2 (st_ResidentMember st = EmptyString)), (bool_decide_eq_true_2 (st_ResidentMember st = st_ResidentMember st)) by done.
  rewrite (bool_decide_eq_false_2 (st_ResidentMember st = mp_Default spec)), Hready by done. unfold is_member. rewrite bool_decide_eq_true_2 by done. done.
Qed.

(** The probe said idle at [t] and has not said busy since. *)
Definition idle_since (obs : list (Z * probe_answer)) (t : Z) : Prop :=
  exists pre post, obs = pre ++ (t, ProbeIdle) :: post /\ Forall (fun o => o.2 ≠ ProbeBusy) post.

Lemma idle_since_snoc (obs : list (Z * probe_answer)) (o : Z * probe_answer) (t : Z) :
  idle_since obs t -> o.2 ≠ ProbeBusy -> idle_since (obs ++ [o]) t.
Proof.
  intros (pre & post & -> & Hp) Ho. exists pre, (post ++ [o]). split; [by rewrite <- app_assoc|]. apply Forall_app. by repeat constructor.
Qed.

Lemma stored_bound (t : Z) : t - second < time_truncate t second <= t.
Proof. unfold time_truncate. pose proof (Z.mod_pos_bound t second ltac:(unfold second; lia)). lia. Qed.

Lemma stored_idem (t : Z) : time_truncate (time_truncate t second) second = time_truncate t second.
Proof.
  unfold time_truncate. assert (E : (t - t mod second) mod second = 0); [|rewrite E; lia].
  rewrite Zminus_mod_idemp_r, Z.sub_diag. done.
Qed.

(** A clock that runs is the start of an idle time. *)
Lemma clock_after_idle (obs : list (Z * probe_answer)) (since : Z) :
  clock_after obs None = Some since -> exists t, idle_since obs t /\ since = time_truncate t second.
Proof.
  revert since. induction obs as [|o obs IH] using rev_ind; intros since; [done|]. unfold clock_after in *. rewrite fold_left_app. cbn [fold_left].
  set (c := fold_left _ obs None) in *. rewrite check_spec. destruct o as [now [| | |]]; cbn [fst snd].
  - destruct c as [s0|] eqn:Ec.
    + intros H. assert (since = s0) as ->.
      { destruct (IH s0 eq_refl) as (t & _ & ->). revert H. case_if; cbn; intros [= <-]; apply stored_idem. }
      destruct (IH s0 eq_refl) as (t & Ht & ->). exists t. split; [|done]. by apply idle_since_snoc.
    + cbn. intros [= <-]. exists now. split; [|done]. exists obs, []. done.
  - done.
  - destruct c as [s0|]; [|done]. destruct (IH s0 eq_refl) as (t & Ht & ->). cbn. rewrite stored_idem. intros [= <-]. exists t. split; [|done]. by apply idle_since_snoc.
  - destruct c as [s0|]; [|done]. destruct (IH s0 eq_refl) as (t & Ht & ->). cbn. rewrite stored_idem. intros [= <-]. exists t. split; [|done]. by apply idle_since_snoc.
Qed.

Lemma clock_keeps (obs : list (Z * probe_answer)) (since : Z) :
  Forall (fun o => o.2 ≠ ProbeBusy) obs -> clock_after obs (Some (time_truncate since second)) = Some (time_truncate since second).
Proof.
  intros H. unfold clock_after. induction H as [|[now a] obs Ho Hos IH]; [done|]. cbn [fold_left]. rewrite check_spec. destruct a; cbn [fst snd] in *; try done;
    try case_if; cbn; rewrite stored_idem; exact IH.
Qed.

End Reclaim.

Lemma time_sub_reaches (now since d : Z) : 0 < d <= max_int64 -> (d <=? time_sub now since) = (d <=? now - since).
Proof. intros Hd. unfold time_sub, sat64, min_int64, max_int64, two63 in *. destruct (Z.leb_spec d (now - since)); [apply Z.leb_le|apply Z.leb_gt]; lia. Qed.

Lemma reclaimAfter_positive (spec : ModelPoolSpec) : 0 < reclaimAfterDuration spec.
Proof. unfold reclaimAfterDuration, defaultReclaimAfter, second. destruct (mp_ReclaimAfter spec); [|lia]. case_if; to_prop; lia. Qed.

(** The slot returns to the default member exactly after idle time.  In a pool
    settled on another member, whatever the sequence of checks so far: if a check
    gives the slot back, its probe said idle, and an earlier probe said idle, none
    since said busy, and between them passed more than the reclaim time less a second
    (the clock is stored in whole seconds).  And if an earlier probe said idle, none
    since said busy, and the reclaim time has passed, an idle probe gives it back. *)
Lemma reclaim_follows_idle_time (spec : ModelPoolSpec) (st : ModelPoolStatus) (members : gmap string Member) (pods : string -> list Pod)
    (obs : list (Z * probe_answer)) (now : Z) :
  reclaimable spec st members -> reclaimAfterDuration spec <= max_int64 ->
  (forall a, (check spec st members pods (now, a) (clock_after spec st members pods obs None)).1.1 = mp_Default spec ->
     a = ProbeIdle /\ exists t, idle_since obs t /\ reclaimAfterDuration spec - second < now - t) /\
  (forall pre t post, obs = pre ++ (t, ProbeIdle) :: post -> Forall (fun o => o.1 <= t) pre -> Forall (fun o => o.2 ≠ ProbeBusy) post ->
     reclaimAfterDuration spec <= now - t ->
     (check spec st members pods (now, ProbeIdle) (clock_after spec st members pods obs None)).1.1 = mp_Default spec).
Proof.
  intros Hset Hmax. pose proof (reclaimAfter_positive spec) as Hpos. assert (Hrd : st_ResidentMember st ≠ mp_Default spec) by apply Hset. split.
  - intros a. rewrite check_spec by done. destruct a; cbn [fst snd]; try done. destruct (clock_after _ _ _ _ obs None) as [since|] eqn:Ec; [|done].
    rewrite time_sub_reaches by lia. destruct (Z.leb_spec (reclaimAfterDuration spec) (now - since)) as [Hle|]; [|done]. intros _. split; [done|].
    apply clock_after_idle in Ec as (t & Ht & ->); [|done]. exists t. split; [done|]. pose proof (stored_bound t). lia.
  - intros pre t post -> Hpre Hpost Hra.
    assert (exists s, clock_after spec st members pods (pre ++ (t, ProbeIdle) :: post) None = Some s /\ s <= t) as (s & -> & Hs).
    { unfold clock_after. rewrite fold_left_app. cbn [fold_left]. fold (clock_after spec st members pods pre None).
      destruct (clock_after spec st members pods pre None) as [s0|] eqn:E0.
      - apply clock_after_idle in E0 as (t0 & (pre' & post' & -> & _) & ->); [|done]. exists (time_truncate t0 second).
        apply Forall_app in Hpre as [_ Hpre]. apply Forall_cons in Hpre as [Ht0 _]. simpl in Ht0. split; [|pose proof (stored_bound t0); lia].
        rewrite check_spec by done. cbn [fst snd]. case_if; cbn; rewrite stored_idem; by apply clock_keeps.
      - exists (time_truncate t second). split; [|apply stored_bound]. rewrite check_spec by done. cbn. by apply clock_keeps. }
    rewrite check_spec by done. cbn [fst snd]. rewrite time_sub_reaches by lia. by rewrite (proj2 (Z.leb_le _ _)) by lia.
Qed.

(** ** A sample pool *)

Module PoolSample.

Definition spec : ModelPoolSpec :=
  {| mp_SwapPolicy := "sticky"; mp_Members := ["a"; "b"]; mp_Default := "a"; mp_ReclaimAfter := None |}.

Definition reclaiming : ModelPoolSpec :=
  {| mp_SwapPolicy := "reclaim"; mp_Members := ["a"; "b"]; mp_Default := "b"; mp_ReclaimAfter := None |}.

Definition status (resident : string) : ModelPoolStatus :=
  {| st_Phase := "Ready"; st_ResidentMember := resident; st_PendingMember := EmptyString; st_ResidentIdleSince := None;
     st_Members := []; st_Conditions := ∅ |}.

Definition pool (resident : string) : ModelPool := {| po_Spec := spec; po_Status := status resident |}.

Definition up : Member := {| mb_Replicas := Some 1; mb_Phase := "Ready"; mb_ModelRef := EmptyString |}.
Definition starting : Member := {| mb_Replicas := Some 1; mb_Phase := "Pending"; mb_ModelRef := EmptyString |}.
Definition down : Member := {| mb_Replicas := Some 0; mb_Phase := "Stopped"; mb_ModelRef := EmptyString |}.

Definition two (a b : Member) : gmap string Member := <["a" := a]> (<["b" := b]> ∅).

Definition running : Pod := {| pd_Deleting := false; pd_Running := [true] |}.
Definition leaving : Pod := {| pd_Deleting := true; pd_Running := [true] |}.
Definition pods_of (a b : list Pod) (n : string) : list Pod := if bool_decide (n = "a") then a else if bool_decide (n = "b") then b else [].

Lemma two_lookup (a b : Member) (n : string) (m : Member) : two a b !! n = Some m -> n = "a" /\ m = a \/ n = "b" /\ m = b.
Proof.
  unfold two. rewrite lookup_insert_Some, lookup_insert_Some, lookup_empty. intuition congruence.
Qed.

Lemma two_covers (s : ModelPoolSpec) (a b : Member) : mp_Members s = ["a"; "b"] -> covers s (two a b).
Proof.
  intros Hs. unfold covers. rewrite Hs. split; [set_solver|]. intros n. split.
  - intros Hn. apply elem_of_cons in Hn as [->|Hn]; [by exists a|]. apply list_elem_of_singleton in Hn as ->. by exists b.
  - intros [m Hm]. apply two_lookup in Hm as [[-> _]|[-> _]]; set_solver.
Qed.

End PoolSample.
Import PoolSample.

Definition swapping_pool : ModelPool :=
  {| po_Spec := spec;
     po_Status := {| st_Phase := "Swapping"; st_ResidentMember := "a"; st_PendingMember := "b"; st_ResidentIdleSince := None;
                     st_Members := []; st_Conditions := ∅ |} |}.
Definition freed : env := calm (two down down) (pods_of [] []) (fun _ => ProbeFailed) 0.

Lemma pass_keeps_slot_exclusive_witness :
  oc_patches (Reconcile freed swapping_pool) = [("b", 1)] /\
  exists members, resolves freed swapping_pool members /\ "b" = owner_of freed swapping_pool members /\ ev_pods freed "a" = Some [].
Proof.
  assert (E : oc_patches (Reconcile freed swapping_pool) = [("b", 1)]) by (by vm_compute). split; [done|].
  destruct (pass_keeps_slot_exclusive freed swapping_pool "b" 1) as (members & Hr & [(_ & Ho & Hc)|(H0 & _)]); [rewrite E; by left| |done].
  exists members. split; [done|]. split; [done|].
  pose proof (resolves_calm (two down down) (pods_of [] []) (fun _ => ProbeFailed) 0 swapping_pool (two_covers spec down down eq_refl)) as Hr'.
  unfold resolves, freed in *. rewrite Hr' in Hr. injection Hr as <-. apply (Hc "a" down); [by left|done|done].
Defined.

