(* ===== verification/GoNetip.v ===== *)
(** * Addresses (Go's net/netip and net)

    The parts of [net/netip] and [net] the sources call: parsing of addresses and
    prefixes, the classes of an address, containment, and host-port pairs.  An IPv4
    address is its 32-bit number, an IPv6 address its 128-bit number with a zone,
    which is empty when there is none. *)

From stdpp Require Import base strings list gmap.
From Stdlib Require Import ZArith Lia Bool Ascii.
From S2P Require Import Prelude GoStrings GoStrconv.

Inductive Addr :=
| Addr4 (z : Z)
| Addr6 (z : Z) (zone : string).

#[export] Instance Addr_eq_dec : EqDecision Addr.
Proof. solve_decision. Defined.

Definition Is6 (a : Addr) : bool := match a with Addr6 _ _ => true | Addr4 _ => false end.
Definition hasZone (a : Addr) : bool := match a with Addr6 _ z => negb (bool_decide (z = EmptyString)) | Addr4 _ => false end.
Definition BitLen (a : Addr) : Z := match a with Addr4 _ => 32 | Addr6 _ _ => 128 end.

(** An IPv4-mapped address as the IPv4 address. *)
Definition Unmap (a : Addr) : Addr :=
  match a with
  | Addr6 z _ => if z / 2 ^ 32 =? 65535 then Addr4 (z mod 2 ^ 32) else a
  | Addr4 _ => a
  end.

(** The [i]-th group of 16 bits of an IPv6 address. *)
Definition v6u16 (z i : Z) : Z := z / 2 ^ (112 - 16 * i) mod 2 ^ 16.

Definition IsLoopback (a : Addr) : bool :=
  match a with
  | Addr4 z => z / 2 ^ 24 =? 127
  | Addr6 z _ => z =? 1
  end.

Definition IsLinkLocalUnicast (a : Addr) : bool :=
  match a with
  | Addr4 z => z / 2 ^ 16 =? 169 * 256 + 254
  | Addr6 z _ => Z.land (v6u16 z 0) 65472 =? 65152
  end.

Definition IsLinkLocalMulticast (a : Addr) : bool :=
  match a with
  | Addr4 z => z / 2 ^ 8 =? 224 * 65536
  | Addr6 z _ => Z.land (v6u16 z 0) 65295 =? 65282
  end.

Definition IsInterfaceLocalMulticast (a : Addr) : bool :=
  match a with
  | Addr4 _ => false
  | Addr6 z _ => Z.land (v6u16 z 0) 65295 =? 65281
  end.

Definition IsPrivate (a : Addr) : bool :=
  match a with
  | Addr4 z => (z / 2 ^ 24 =? 10) || (z / 2 ^ 20 =? 172 * 16 + 1) || (z / 2 ^ 16 =? 192 * 256 + 168)
  | Addr6 z _ => z / 2 ^ 121 =? 126
  end.

(** Equality with 0.0.0.0 or ::, zone included. *)
Definition IsUnspecified (a : Addr) : bool := bool_decide (a = Addr4 0) || bool_decide (a = Addr6 0 EmptyString).

(** ** Prefixes *)

Record Prefix := {
  px_addr : Addr;
  px_bits : Z;
}.

(** Prefixes have no zone, and an address with one is in none. *)
Definition Contains (p : Prefix) (a : Addr) : bool :=
  match px_addr p, a with
  | Addr4 x, Addr4 z => x / 2 ^ (32 - px_bits p) =? z / 2 ^ (32 - px_bits p)
  | Addr6 x _, Addr6 z EmptyString => x / 2 ^ (128 - px_bits p) =? z / 2 ^ (128 - px_bits p)
  | _, _ => false
  end.

Definition PrefixFrom (a : Addr) (bits : Z) : Prefix :=
  {| px_addr := match a with Addr6 z _ => Addr6 z EmptyString | Addr4 z => Addr4 z end; px_bits := bits |}.

(** ** Parsing *)

(** A number of an IPv4 address: up to 255, without leading zeros. *)
Definition octet (s : string) : option Z :=
  match s with
  | EmptyString => None
  | String c s' =>
      if bool_decide (c = "0"%char) && negb (bool_decide (s' = EmptyString)) then None
      else n ← read_digits s 0; if n <=? 255 then Some n else None
  end.

Definition parseIPv4 (s : string) : option Z :=
  match mapM octet (SplitByte s "."%char) with
  | Some [a; b; c; d] => Some (((a * 256 + b) * 256 + c) * 256 + d)
  | _ => None
  end.

Definition hex_digit (c : ascii) : option Z :=
  let b := byte_of c in
  if (48 <=? b) && (b <=? 57) then Some (b - 48)
  else if (97 <=? b) && (b <=? 102) then Some (b - 87)
  else if (65 <=? b) && (b <=? 70) then Some (b - 55)
  else None.

(** The hexadecimal digits at the start: their number, their value and the rest. *)
Fixpoint read_hex (s : string) (n : nat) (acc : Z) : nat * Z * string :=
  match s with
  | String c s' => match hex_digit c with Some d => read_hex s' (S n) (16 * acc + d) | None => (n, acc, s) end
  | EmptyString => (n, acc, EmptyString)
  end.

(** The loop of [parseIPv6]: the groups read so far and where the ellipsis is;
    [slots] groups may still follow. *)
Fixpoint groups6 (slots : nat) (s : string) (groups : list Z) (ellipsis : option nat) : option (list Z * option nat) :=
  match slots with
  | O => if bool_decide (s = EmptyString) then Some (groups, ellipsis) else None
  | S slots' =>
      let '(n, acc, rest) := read_hex s 0 0 in
      if (n =? 0)%nat || (4 <? n)%nat then None
      else match rest with
           | EmptyString => Some (groups ++ [acc], ellipsis)
           | String c rest' =>
               if bool_decide (c = "."%char) then
                 if bool_decide (ellipsis = None) && negb (length groups =? 6)%nat then None
                 else if (6 <? length groups)%nat then None
                 else v ← parseIPv4 s; Some (groups ++ [v / 65536; v mod 65536], ellipsis)
               else if negb (bool_decide (c = ":"%char)) then None
               else match rest' with
                    | EmptyString => None
                    | String c' rest'' =>
                        if bool_decide (c' = ":"%char) then
                          if bool_decide (is_Some ellipsis) then None
                          else let groups := groups ++ [acc] in
                               if bool_decide (rest'' = EmptyString) then Some (groups, Some (length groups))
                               else groups6 slots' rest'' groups (Some (length groups))
                        else groups6 slots' rest' (groups ++ [acc]) ellipsis
                    end
           end
  end.

Definition of_groups (groups : list Z) : Z := foldl (fun acc g => acc * 65536 + g) 0 groups.

Definition parseIPv6 (s : string) : option Addr :=
  '(s, zone) ← match CutByte s "%"%char with
               | None => Some (s, EmptyString)
               | Some (_, EmptyString) => None
               | Some (s, zone) => Some (s, zone)
               end;
  let '(s, ellipsis) := match CutPrefix s "::" with Some rest => (rest, Some 0%nat) | None => (s, None) end in
  if bool_decide (ellipsis = Some 0%nat) && bool_decide (s = EmptyString) then Some (Addr6 0 zone)
  else
    '(groups, ellipsis) ← groups6 8 s [] ellipsis;
    match ellipsis with
    | None => if (length groups =? 8)%nat then Some (Addr6 (of_groups groups) zone) else None
    | Some k => if (8 <=? length groups)%nat then None
                else Some (Addr6 (of_groups (take k groups ++ replicate (8 - length groups) 0 ++ drop k groups)) zone)
    end.

(** The first of the bytes [.], [:] and [%] says what an address is. *)
Fixpoint ParseAddr_kind (s : string) : option bool :=
  match s with
  | EmptyString => None
  | String c s' =>
      if bool_decide (c = "."%char) then Some false
      else if bool_decide (c = ":"%char) then Some true
      else if bool_decide (c = "%"%char) then None
      else ParseAddr_kind s'
  end.

Definition ParseAddr (s : string) : option Addr :=
  match ParseAddr_kind s with
  | Some false => Addr4 <$> parseIPv4 s
  | Some true => parseIPv6 s
  | None => None
  end.

(** The part before the last byte [c] and the part after. *)
Fixpoint cut_last (s : string) (c : ascii) : option (string * string) :=
  match s with
  | EmptyString => None
  | String x s' =>
      match cut_last s' c with
      | Some (a, b) => Some (String x a, b)
      | None => if bool_decide (x = c) then Some (EmptyString, s') else None
      end
  end.

Definition ParsePrefix (s : string) : option Prefix :=
  '(ip, bitsStr) ← cut_last s "/"%char;
  a ← ParseAddr ip;
  if hasZone a then None
  else
    let bad := match bitsStr with
               | String c (String _ _) => negb ((49 <=? byte_of c) && (byte_of c <=? 57))
               | _ => false
               end in
    if bad then None
    else bits ← Atoi bitsStr;
         if (bits <? 0) || (BitLen a <? bits) then None else Some (PrefixFrom a bits).

(** [net.JoinHostPort]: a host with a colon is an IPv6 literal. *)
Definition JoinHostPort (host port : string) : string :=
  if ContainsByte host ":"%char then "[" +:+ host +:+ "]:" +:+ port else host +:+ ":" +:+ port.

(** [net.SplitHostPort]: the port follows the last colon, brackets only around the host. *)
Definition SplitHostPort (s : string) : option (string * string) :=
  match s with
  | String "["%char s' =>
      '(host, after) ← CutByte s' "]"%char;
      match after with
      | String ":"%char port =>
          if ContainsByte port ":"%char || ContainsByte s' "["%char || ContainsByte port "]"%char then None
          else Some (host, port)
      | _ => None
      end
  | _ =>
      '(host, port) ← cut_last s ":"%char;
      if ContainsByte host ":"%char || ContainsByte s "["%char || ContainsByte s "]"%char then None
      else Some (host, port)
  end.

Example parse_examples :
  ParseAddr "127.0.0.1" = Some (Addr4 2130706433) /\ ParseAddr "01.2.3.4" = None /\
  ParseAddr "::1" = Some (Addr6 1 EmptyString) /\ ParseAddr "::%lo" = Some (Addr6 0 "lo") /\
  ParseAddr "64:ff9b::10.0.0.1" = Some (Addr6 (of_groups [100; 65435; 0; 0; 0; 0; 2560; 1]) EmptyString) /\
  ParseAddr "1:2:3:4:5:6:7:8:9" = None /\ ParseAddr "1::2::3" = None /\ ParseAddr "example.com" = None /\
  ParsePrefix "10.0.0.0/8" = Some {| px_addr := Addr4 167772160; px_bits := 8 |} /\ ParsePrefix "10.0.0.0/033" = None.
Proof. by vm_compute. Qed.
