(* ===== verification/SafeHttp.v ===== *)
(** * The guarded HTTP client

    Models [internal/safehttp/safehttp.go]: the allowlist, the classification of
    addresses, the checks of a host, the dialer, the treatment of proxies, and the
    hops of a request.  DNS is an argument whose answer may differ on every call, so
    that rebinding is covered; [idna.Lookup.ToASCII], the environment's proxy choice
    and [url.Parse] are arguments too, as is whether a connection opens. *)

From stdpp Require Import base strings list gmap.
From Stdlib Require Import ZArith Lia Bool Ascii.
From S2P Require Import Prelude GoStrings GoStrconv GoNetip.

(** ** The allowlist *)

Record Allowlist := {
  al_hosts : gset string;
  al_prefixes : list Prefix;
}.

Definition add_entry (al : Allowlist) (e : string) : Allowlist :=
  let e := TrimSpace e in
  let as_addr_or_host :=
    match ParseAddr e with
    | Some ip => {| al_hosts := al_hosts al; al_prefixes := al_prefixes al ++ [PrefixFrom ip (BitLen ip)] |}
    | None => {| al_hosts := {[ToLower e]} ∪ al_hosts al; al_prefixes := al_prefixes al |}
    end in
  if bool_decide (e = EmptyString) then al
  else if ContainsByte e "/"%char then
    match ParsePrefix e with
    | Some p => {| al_hosts := al_hosts al; al_prefixes := al_prefixes al ++ [p] |}
    | None => as_addr_or_host
    end
  else as_addr_or_host.

Definition ParseAllowlist (entries : list string) : Allowlist :=
  foldl add_entry {| al_hosts := ∅; al_prefixes := [] |} entries.

Definition hostAllowed (al : Allowlist) (host : string) : bool := bool_decide (ToLower host ∈ al_hosts al).

Definition ipAllowed (al : Allowlist) (ip : Addr) : bool :=
  existsb (fun p => Contains p (Unmap ip)) (al_prefixes al).

(** ** Blocked addresses *)

(** [netip.MustParsePrefix] of the literals of the source, which all parse. *)
Definition MustParsePrefix (s : string) : Prefix :=
  default {| px_addr := Addr4 0; px_bits := 0 |} (ParsePrefix s).

Definition blockedPrefixes : list Prefix :=
  Eval vm_compute in
  map MustParsePrefix ["100.64.0.0/10"; "192.0.0.0/24"; "198.18.0.0/15"; "192.88.99.0/24"; "64:ff9b:1::/48"].

Definition v4CompatPrefix : Prefix := Eval vm_compute in MustParsePrefix "::/96".
Definition nat64Prefix : Prefix := Eval vm_compute in MustParsePrefix "64:ff9b::/96".

(** What [IPBlocked] decides of an unmapped address before it looks for an
    embedded one. *)
Definition blocked_plain (ip : Addr) : bool :=
  IsLoopback ip || IsLinkLocalUnicast ip || IsLinkLocalMulticast ip || IsInterfaceLocalMulticast ip ||
  IsPrivate ip || IsUnspecified ip || existsb (fun p => Contains p ip) blockedPrefixes.

(** The recursive call is on an IPv4 address, of which only the plain part is left. *)
Definition IPBlocked (ip : Addr) : bool :=
  let ip := Unmap ip in
  if blocked_plain ip then true
  else match ip with
       | Addr6 z _ =>
           if Contains v4CompatPrefix ip || Contains nat64Prefix ip then blocked_plain (Addr4 (z mod 2 ^ 32)) else false
       | Addr4 _ => false
       end.

(** ** URLs *)

Record URL := {
  Scheme : string;
  Host : string;
  Hostname : string;
  Port : string;
}.

Definition isASCII (s : string) : bool := forallb (fun c => byte_of c <? 128) (String.list_ascii_of_string s).

Definition defaultPort (u : URL) : string :=
  if bool_decide (Port u = EmptyString) then
    if bool_decide (Scheme u = "http") then "80"
    else if bool_decide (Scheme u = "https") then "443"
    else if bool_decide (Scheme u = "socks5") || bool_decide (Scheme u = "socks5h") then "1080"
    else EmptyString
  else Port u.

Inductive guard_error :=
| EInvalidHost
| ELookup
| ENoAddresses
| EBlocked (host : string) (ip : Addr)
| EAddress
| EProxy
| EDial.

(** ** The client *)

Section Client.
Context (ToASCII : string -> option string).
Context (parseURL : string -> option URL).
(** The answer to the [n]-th lookup. *)
Context (lookup : nat -> string -> option (list Addr)).

Definition canonicalHost (host : string) : result guard_error string :=
  if isASCII host then Ok (ToLower host)
  else match ToASCII host with
       | None => Err EInvalidHost
       | Some a => Ok (ToLower a)
       end.

(** The URLs are pointers, which may be nil. *)
Definition SameOrigin (a b : option URL) : bool :=
  match a, b with
  | Some a, Some b =>
      EqualFold (Scheme a) (Scheme b) &&
      match canonicalHost (Hostname a), canonicalHost (Hostname b) with
      | Ok ah, Ok bh =>
          negb (bool_decide (ah = EmptyString)) && bool_decide (ah = bh) && bool_decide (defaultPort a = defaultPort b)
      | _, _ => false
      end
  | _, _ => false
  end.

Definition permitted (allow : Allowlist) (host : string) (ip : Addr) : bool :=
  hostAllowed allow host || ipAllowed allow ip || negb (IPBlocked ip).

(** The addresses of a canonical host, and the number of lookups made so far. *)
Definition addresses (n : nat) (host : string) : nat * result guard_error (list Addr) :=
  match ParseAddr host with
  | Some ip => (n, Ok [ip])
  | None => (S n, match lookup n host with Some ips => Ok ips | None => Err ELookup end)
  end.

Definition judge (allow : Allowlist) (host : string) (ips : list Addr) : result guard_error (list Addr) :=
  match ips with
  | [] => Err ENoAddresses
  | _ => match find (fun ip => negb (permitted allow host ip)) ips with
         | Some ip => Err (EBlocked host ip)
         | None => Ok ips
         end
  end.

Definition checkHost (allow : Allowlist) (n : nat) (rawHost : string) : nat * result guard_error (list Addr) :=
  match canonicalHost rawHost with
  | Err e => (n, Err e)
  | Ok host =>
      let '(n, ips) := addresses n host in
      (n, ips ≫= judge allow host)
  end.

(** ** Trust in the configured proxies *)

Record proxyEndpoint := {
  pe_host : string;
  pe_port : string;
}.

Record proxyTrust := {
  dialAddrs : gset string;
  proxies : list proxyEndpoint;
}.

Definition proxy_url (raw : string) : option URL :=
  match parseURL raw with
  | Some u => if bool_decide (Scheme u = EmptyString) || bool_decide (Host u = EmptyString)
              then parseURL ("http://" +:+ raw) else Some u
  | None => parseURL ("http://" +:+ raw)
  end.

Definition trust_proxy (t : proxyTrust) (raw : string) : proxyTrust :=
  if bool_decide (raw = EmptyString) then t
  else match proxy_url raw with
       | None => t
       | Some u =>
           match canonicalHost (Hostname u) with
           | Err _ => t
           | Ok host =>
               let port := defaultPort u in
               {| dialAddrs := {[JoinHostPort host port]} ∪ dialAddrs t;
                  proxies := proxies t ++ [{| pe_host := host; pe_port := port |}] |}
           end
       end.

Definition newProxyTrust (HTTPProxy HTTPSProxy : string) : proxyTrust :=
  foldl trust_proxy {| dialAddrs := ∅; proxies := [] |} [HTTPProxy; HTTPSProxy].

Definition isProxyDialAddr (t : proxyTrust) (addr : string) : bool := bool_decide (ToLower addr ∈ dialAddrs t).

Definition resolve (n : nat) (host : string) : nat * list Addr :=
  match addresses n host with
  | (n, Ok ips) => (n, ips)
  | (n, Err _) => (n, [])
  end.

(** The loop of [targets] over the proxies: [targetIPs] is empty until it is
    resolved, and a target without addresses ends the loop. *)
Fixpoint targets_loop (n : nat) (host port : string) (targetIPs : list Addr) (ps : list proxyEndpoint) : nat * bool :=
  match ps with
  | [] => (n, false)
  | p :: ps =>
      if negb (bool_decide (pe_port p = port)) then targets_loop n host port targetIPs ps
      else
        let '(n, targetIPs) := match targetIPs with [] => resolve n host | _ => (n, targetIPs) end in
        match targetIPs with
        | [] => (n, false)
        | _ =>
            let '(n, pips) := resolve n (pe_host p) in
            if existsb (fun pip => existsb (fun tip => bool_decide (Unmap pip = Unmap tip)) targetIPs) pips then (n, true)
            else targets_loop n host port targetIPs ps
        end
  end.

Definition targets (t : proxyTrust) (n : nat) (u : URL) : nat * result guard_error bool :=
  match proxies t with
  | [] => (n, Ok false)
  | _ =>
      match canonicalHost (Hostname u) with
      | Err e => (n, Err e)
      | Ok host =>
          let port := defaultPort u in
          if bool_decide (JoinHostPort host port ∈ dialAddrs t) then (n, Ok true)
          else let '(n, hit) := targets_loop n host port [] (proxies t) in (n, Ok hit)
      end
  end.

(** ** Dialing *)

(** What [base.DialContext] is called with: the configured address of a proxy, which
    it resolves itself, or a pinned address. *)
Inductive dial_to :=
| DialProxy (addr : string)
| DialIP (ip : Addr) (port : string).

(** Whether a connection opens. *)
Context (opens : dial_to -> bool).

(** The attempts at the pinned addresses, in order, up to the first that opens. *)
Fixpoint dial_pinned (port : string) (ips : list Addr) : list dial_to * result guard_error unit :=
  match ips with
  | [] => ([], Err EDial)
  | ip :: ips =>
      let d := DialIP ip port in
      if opens d then ([d], Ok tt)
      else let '(ds, r) := dial_pinned port ips in (d :: ds, r)
  end.

Definition dial (allow : Allowlist) (t : proxyTrust) (n : nat) (addr : string) :
    nat * (list dial_to * result guard_error unit) :=
  if isProxyDialAddr t addr then
    (n, ([DialProxy addr], if opens (DialProxy addr) then Ok tt else Err EDial))
  else match SplitHostPort addr with
       | None => (n, ([], Err EAddress))
       | Some (host, port) =>
           match checkHost allow n host with
           | (n, Err e) => (n, ([], Err e))
           | (n, Ok ips) => (n, dial_pinned port ips)
           end
       end.

(** The environment's choice for a URL: an error, no proxy, or a proxy. *)
Context (envProxy : URL -> result guard_error (option URL)).

Definition proxy (allow : Allowlist) (t : proxyTrust) (n : nat) (u : URL) : nat * result guard_error (option URL) :=
  match envProxy u with
  | Err e => (n, Err e)
  | Ok None =>
      match targets t n u with
      | (n, Err e) => (n, Err e)
      | (n, Ok false) => (n, Ok None)
      | (n, Ok true) =>
          match checkHost allow n (Hostname u) with
          | (n, Err e) => (n, Err e)
          | (n, Ok _) => (n, Ok None)
          end
      end
  | Ok (Some p) =>
      match checkHost allow n (Hostname u) with
      | (n, Err e) => (n, Err e)
      | (n, Ok _) => (n, Ok (Some p))
      end
  end.

(** ** The transport and the client of [net/http] *)

(** The address the transport dials for a URL: the host mapped to ASCII where that
    works, and the port of the scheme. *)
Definition canonicalAddr (u : URL) : string :=
  let host := if isASCII (Hostname u) then Hostname u else default (Hostname u) (ToASCII (Hostname u)) in
  JoinHostPort host (defaultPort u).

(** One request on a new connection. *)
Definition roundTrip (allow : Allowlist) (t : proxyTrust) (n : nat) (u : URL) :
    nat * (list dial_to * result guard_error unit) :=
  match proxy allow t n u with
  | (n, Err e) => (n, ([], Err e))
  | (n, Ok None) => dial allow t n (canonicalAddr u)
  | (n, Ok (Some p)) => dial allow t n (canonicalAddr p)
  end.

(** The server's redirect, if it answers a URL with one. *)
Context (redirect : URL -> option URL).

(** [CheckRedirect] with the requests made so far. *)
Definition CheckRedirect (via : list URL) : bool := (length via <? 5)%nat.

(** The requests of a client, each with the connections it tried; [fuel] bounds the
    loop. *)
Fixpoint Do (fuel : nat) (allow : Allowlist) (t : proxyTrust) (n : nat) (via : list URL) (u : URL) :
    list (URL * list dial_to) :=
  match fuel with
  | O => []
  | S fuel =>
      let '(n, (ds, r)) := roundTrip allow t n u in
      (u, ds) ::
      match r with
      | Err _ => []
      | Ok _ =>
          match redirect u with
          | Some u' => let via := via ++ [u] in if CheckRedirect via then Do fuel allow t n via u' else []
          | None => []
          end
      end
  end.

End Client.
