(* ===== verification/SafeHttpFacts.v ===== *)
(** * What the guarded HTTP client guarantees

    Every connection of every hop is vetted, whatever DNS answers; the forms of an
    IPv6 address that carry an IPv4 address are classified like it; a zone defeats
    the classification. *)

From stdpp Require Import base strings list gmap.
From Stdlib Require Import ZArith Lia Bool Ascii.
From S2P Require Import Prelude GoStrings GoStrconv GoNetip SafeHttp.

(** ** Host-port pairs *)

Lemma lower_byte_colon (c : ascii) : Ascii.eqb (lower_byte c) ":"%char = Ascii.eqb c ":"%char.
Proof. destruct c as [[] [] [] [] [] [] [] []]; reflexivity. Qed.

Lemma ContainsByte_ToLower_colon (s : string) : ContainsByte (ToLower s) ":"%char = ContainsByte s ":"%char.
Proof. induction s as [|c s IH]; [done|]. cbn [ToLower ContainsByte]. by rewrite lower_byte_colon, IH. Qed.

Lemma ToLower_app (s t : string) : ToLower (s +:+ t) = ToLower s +:+ ToLower t.
Proof. induction s as [|c s IH]; [done|]. change (String (lower_byte c) (ToLower (s +:+ t)) = String (lower_byte c) (ToLower s +:+ ToLower t)). by rewrite IH. Qed.

Lemma ToLower_JoinHostPort (h p : string) : ToLower (JoinHostPort h p) = JoinHostPort (ToLower h) (ToLower p).
Proof. unfold JoinHostPort. rewrite ContainsByte_ToLower_colon. case_match; by rewrite !ToLower_app. Qed.

Lemma cut_last_None (s : string) (c : ascii) : ContainsByte s c = false -> cut_last s c = None.
Proof.
  induction s as [|x s IH]; intros Hs; [done|]. cbn [cut_last ContainsByte] in *. apply orb_false_iff in Hs as [Hx Hs].
  rewrite (IH Hs). apply Ascii.eqb_neq in Hx. by rewrite bool_decide_eq_false_2.
Qed.

Lemma cut_last_app (s t : string) (c : ascii) :
  ContainsByte t c = false -> cut_last (s +:+ String c t) c = Some (s, t).
Proof.
  intros Ht. induction s as [|x s IH].
  - change (cut_last (String c t) c = Some (EmptyString, t)). cbn [cut_last].
    by rewrite (cut_last_None _ _ Ht), bool_decide_eq_true_2.
  - change (match cut_last (s +:+ String c t) c with
            | Some (a, b) => Some (String x a, b)
            | None => if bool_decide (x = c) then Some (EmptyString, s +:+ String c t) else None
            end = Some (String x s, t)). by rewrite IH.
Qed.

Definition no_brackets (s : string) : bool := negb (ContainsByte s "["%char || ContainsByte s "]"%char).

Lemma SplitHostPort_unbracketed (s : string) :
  ContainsByte s "["%char = false ->
  SplitHostPort s = ('(host, port) ← cut_last s ":"%char;
                     if ContainsByte host ":"%char || ContainsByte s "["%char || ContainsByte s "]"%char then None
                     else Some (host, port)).
Proof. destruct s as [|c s]; [done|]. destruct c as [[] [] [] [] [] [] [] []]; done. Qed.

(** Splitting undoes joining. *)
Lemma SplitHostPort_Join (h p : string) :
  no_brackets h = true -> no_brackets p = true -> ContainsByte p ":"%char = false ->
  SplitHostPort (JoinHostPort h p) = Some (h, p).
Proof.
  unfold no_brackets. rewrite !negb_true_iff, !orb_false_iff. intros [Hl Hr] [Pl Pr] Pc.
  unfold JoinHostPort. destruct (ContainsByte h ":"%char) eqn:Hc.
  - change (('(host, after) ← CutByte (h +:+ String "]" (String ":" p)) "]"%char;
             match after with
             | String ":"%char port =>
                 if ContainsByte port ":"%char || ContainsByte (h +:+ String "]" (String ":" p)) "["%char
                    || ContainsByte port "]"%char then None else Some (host, port)
             | _ => None end) = Some (h, p)).
    rewrite (CutByte_app _ _ _ Hr). cbn [mbind option_bind].
    rewrite ContainsByte_app, Pc, Hl, Pr. cbn. by rewrite Pl.
  - change (h +:+ ":" +:+ p) with (h +:+ String ":" p).
    rewrite SplitHostPort_unbracketed by (rewrite ContainsByte_app, Hl; done).
    rewrite (cut_last_app _ _ _ Pc). cbn [mbind option_bind].
    by rewrite !ContainsByte_app, Hc, Hl, Hr; cbn; rewrite Pl, Pr.
Qed.

(** ** The checks *)

Section Guard.
Context (ToASCII : string -> option string).
Context (parseURL : string -> option URL).
Context (lookup : nat -> string -> option (list Addr)).
Context (opens : dial_to -> bool).
Context (envProxy : URL -> result guard_error (option URL)).
Context (redirect : URL -> option URL).
Context (allow : Allowlist).

Notation canonical := (canonicalHost ToASCII).

(** The addresses are an answer for the host: its own, or one of DNS. *)
Definition resolves (host : string) (ips : list Addr) : Prop :=
  match ParseAddr host with
  | Some ip => ips = [ip]
  | None => exists k, lookup k host = Some ips
  end.

(** The host was resolved and every address of the answer is permitted. *)
Definition vetted (raw : string) (ips : list Addr) : Prop :=
  exists host, canonical raw = Ok host /\ resolves host ips /\ ips <> [] /\
    Forall (fun ip => permitted allow host ip = true) ips.

Lemma find_None_Forall {A} (f : A -> bool) (l : list A) :
  find (fun x => negb (f x)) l = None -> Forall (fun x => f x = true) l.
Proof.
  intros Hf. apply Forall_forall. intros x Hx. apply list_elem_of_In in Hx.
  pose proof (find_none _ _ Hf x Hx) as Hn. by apply negb_false_iff.
Qed.

Lemma checkHost_vetted (n n' : nat) (raw : string) (ips : list Addr) :
  checkHost ToASCII lookup allow n raw = (n', Ok ips) -> vetted raw ips.
Proof.
  unfold checkHost, addresses, vetted, resolves.
  destruct (canonical raw) as [host|e]; [|done]. intros H. exists host. split; [done|].
  assert (forall l, judge allow host l = Ok ips -> ips = l /\ ips <> [] /\
            Forall (fun ip => permitted allow host ip = true) ips) as Hj.
  { intros [|i l]; [done|]. unfold judge. destruct (find _ _) eqn:Hf; [done|].
    intros [= <-]. split; [done|]. split; [done|]. by apply find_None_Forall. }
  destruct (ParseAddr host) as [ip|].
  - injection H as _ H. change (judge allow host [ip] = Ok ips) in H. by apply Hj in H.
  - destruct (lookup n host) as [l|] eqn:Hl; [|done]. injection H as _ H.
    apply Hj in H as (-> & Hne & HF). eauto.
Qed.

Lemma dial_pinned_incl (port : string) (ips : list Addr) (d : dial_to) :
  d ∈ (dial_pinned opens port ips).1 -> exists ip, d = DialIP ip port /\ ip ∈ ips.
Proof.
  induction ips as [|ip ips IH]; cbn; [by intros ?%elem_of_nil|].
  destruct (opens _); cbn.
  - intros ->%list_elem_of_singleton. exists ip. split; [done|left].
  - destruct (dial_pinned opens port ips) as [ds r]. cbn in *.
    intros [->|H]%elem_of_cons; [exists ip; split; [done|left]|].
    destruct (IH H) as (ip' & -> & Hin). exists ip'. split; [done|by right].
Qed.

Lemma dial_vetted (t : proxyTrust) (n : nat) (addr : string) (d : dial_to) :
  d ∈ (dial ToASCII lookup opens allow t n addr).2.1 ->
  (d = DialProxy addr /\ isProxyDialAddr t addr = true) \/
  (exists host port ip ips, SplitHostPort addr = Some (host, port) /\ d = DialIP ip port /\ ip ∈ ips /\ vetted host ips).
Proof.
  unfold dial. destruct (isProxyDialAddr t addr) eqn:Ht; cbn.
  { intros ->%list_elem_of_singleton. by left. }
  destruct (SplitHostPort addr) as [[host port]|]; cbn; [|by intros ?%elem_of_nil].
  destruct (checkHost ToASCII lookup allow n host) as [n' [ips|e]] eqn:Hc; cbn; [|by intros ?%elem_of_nil].
  intros (ip & -> & Hip)%dial_pinned_incl. right. exists host, port, ip, ips.
  by eauto using checkHost_vetted.
Qed.

(** ** URLs the transport can dial *)

(** What [url.Parse] leaves of a URL: no brackets in the host, and a port of digits. *)
Definition wf_url (u : URL) : bool :=
  no_brackets (Hostname u) && all_digits (Port u).

(** The documented result of [ToASCII]: ASCII without brackets. *)
Definition ascii_result : Prop := forall s a, ToASCII s = Some a -> isASCII a = true /\ no_brackets a = true.

Lemma all_digits_lower (s : string) : all_digits s = true -> ToLower s = s.
Proof.
  induction s as [|c s IH]; [done|]. cbn [all_digits ToLower]. intros [Hc Hs]%andb_true_iff. rewrite (IH Hs). f_equal.
  destruct c as [[] [] [] [] [] [] [] []]; done.
Qed.

Lemma all_digits_no_byte (s : string) (c : ascii) :
  is_digit c = false -> all_digits s = true -> ContainsByte s c = false.
Proof.
  intros Hd. induction s as [|x s IH]; [done|]. cbn [all_digits ContainsByte]. intros [Hx Hs]%andb_true_iff.
  rewrite (IH Hs), orb_false_r. apply Ascii.eqb_neq. by intros ->; rewrite Hd in Hx.
Qed.

Lemma defaultPort_digits (u : URL) : wf_url u = true -> all_digits (defaultPort u) = true.
Proof. unfold wf_url, defaultPort. intros [_ Hp]%andb_true_iff. by repeat case_match. Qed.

(** The host the transport puts in the address it dials. *)
Definition dialed_host (u : URL) : string :=
  if isASCII (Hostname u) then Hostname u else default (Hostname u) (ToASCII (Hostname u)).

Section Urls.
Context (Hascii : ascii_result).

Lemma canonical_dialed_host (u : URL) : canonical (dialed_host u) = canonical (Hostname u).
Proof.
  unfold dialed_host. destruct (isASCII (Hostname u)) eqn:Hu; [done|].
  destruct (ToASCII (Hostname u)) as [a|] eqn:Ha; [|done]. cbn.
  unfold canonicalHost. destruct (Hascii _ _ Ha) as [-> _]. by rewrite Hu, Ha.
Qed.

Lemma split_canonicalAddr (u : URL) :
  wf_url u = true -> SplitHostPort (canonicalAddr ToASCII u) = Some (dialed_host u, defaultPort u).
Proof.
  intros Hw. pose proof (defaultPort_digits u Hw) as Hd. apply andb_true_iff in Hw as [Hh _].
  change (SplitHostPort (JoinHostPort (dialed_host u) (defaultPort u)) = Some (dialed_host u, defaultPort u)).
  apply SplitHostPort_Join.
  - unfold dialed_host. destruct (isASCII _); [done|].
    destruct (ToASCII _) as [a|] eqn:Ha; [|done]. by apply Hascii in Ha as [_ ?].
  - unfold no_brackets. by rewrite (all_digits_no_byte _ "["%char eq_refl Hd), (all_digits_no_byte _ "]"%char eq_refl Hd).
  - by apply all_digits_no_byte.
Qed.

(** The address of a target that the dialer trusts is known to [targets] by its
    canonical spelling. *)
Lemma trusted_addr_canonical (t : proxyTrust) (u : URL) (host : string) :
  wf_url u = true -> canonical (Hostname u) = Ok host ->
  isProxyDialAddr t (canonicalAddr ToASCII u) = true -> JoinHostPort host (defaultPort u) ∈ dialAddrs t.
Proof.
  intros Hw Hc Ht%bool_decide_eq_true. change (canonicalAddr ToASCII u) with (JoinHostPort (dialed_host u) (defaultPort u)) in Ht.
  rewrite ToLower_JoinHostPort, (all_digits_lower _ (defaultPort_digits u Hw)) in Ht.
  enough (host = ToLower (dialed_host u)) as -> by done.
  revert Hc. unfold canonicalHost, dialed_host. destruct (isASCII _); [congruence|].
  destruct (ToASCII _); cbn; congruence.
Qed.

Definition trust_wf (t : proxyTrust) : Prop := proxies t = [] -> dialAddrs t = ∅.

(** A direct request that rides the trusted dial has been vetted. *)
Lemma direct_trusted_vetted (t : proxyTrust) (n n' : nat) (u : URL) :
  trust_wf t -> wf_url u = true -> envProxy u = Ok None ->
  proxy ToASCII lookup envProxy allow t n u = (n', Ok None) ->
  isProxyDialAddr t (canonicalAddr ToASCII u) = true ->
  exists ips, vetted (Hostname u) ips.
Proof.
  intros Hwf Hw He Hp Ht. unfold proxy, targets in Hp. rewrite He in Hp.
  destruct (proxies t) as [|e ps] eqn:Hps.
  { apply bool_decide_eq_true in Ht. rewrite (Hwf Hps) in Ht. by apply not_elem_of_empty in Ht. }
  destruct (canonical (Hostname u)) as [host|] eqn:Hc; [|done].
  rewrite bool_decide_eq_true_2 in Hp by by eapply trusted_addr_canonical.
  destruct (checkHost ToASCII lookup allow n (Hostname u)) as [k [ips|]] eqn:Hk; [|done].
  eauto using checkHost_vetted.
Qed.

(** What a connection made for a request may be: the trusted address of a proxy,
    once the target is vetted; or an address of the vetted answer for the host that is
    dialed, which is the target's, or the proxy's once the target is vetted. *)
Definition connection_ok (t : proxyTrust) (u : URL) (d : dial_to) : Prop :=
  match d with
  | DialProxy addr => isProxyDialAddr t addr = true /\ exists ips, vetted (Hostname u) ips
  | DialIP ip port =>
      exists v ips, ip ∈ ips /\ vetted (Hostname v) ips /\ port = defaultPort v /\
        (envProxy u = Ok None /\ v = u \/ envProxy u = Ok (Some v) /\ exists ips', vetted (Hostname u) ips')
  end.

Lemma dial_url_vetted (t : proxyTrust) (n : nat) (v : URL) (d : dial_to) :
  wf_url v = true -> d ∈ (dial ToASCII lookup opens allow t n (canonicalAddr ToASCII v)).2.1 ->
  (d = DialProxy (canonicalAddr ToASCII v) /\ isProxyDialAddr t (canonicalAddr ToASCII v) = true) \/
  (exists ip ips, d = DialIP ip (defaultPort v) /\ ip ∈ ips /\ vetted (Hostname v) ips).
Proof.
  intros Hw [?|(host & port & ip & ips & Hs & -> & Hip & Hv)]%dial_vetted; [by left|right].
  rewrite (split_canonicalAddr v Hw) in Hs. injection Hs as <- <-.
  exists ip, ips. split; [done|]. split; [done|].
  unfold vetted in *. by rewrite canonical_dialed_host in Hv.
Qed.

Context (Hproxy : forall u p, envProxy u = Ok (Some p) -> wf_url p = true).

Lemma roundTrip_ok (t : proxyTrust) (n : nat) (u : URL) (d : dial_to) :
  trust_wf t -> wf_url u = true ->
  d ∈ (roundTrip ToASCII lookup opens envProxy allow t n u).2.1 -> connection_ok t u d.
Proof.
  intros Ht Hw. unfold roundTrip. destruct (proxy ToASCII lookup envProxy allow t n u) as [n' [[p|]|e]] eqn:Hp; cbn;
    [| |by intros ?%elem_of_nil].
  - assert (envProxy u = Ok (Some p) /\ exists ips, vetted (Hostname u) ips) as [He Hu].
    { unfold proxy in Hp. destruct (envProxy u) as [[q|]|] eqn:He; [| |done].
      - destruct (checkHost _ _ _ _ _) as [k [ips|]] eqn:Hk; [|done].
        injection Hp as _ ->. split; [done|]. eauto using checkHost_vetted.
      - by repeat case_match. }
    intros [[-> Hd]|(ip & ips & -> & Hip & Hv)]%dial_url_vetted; [by split| |by eapply Hproxy].
    exists p, ips. eauto 6.
  - assert (envProxy u = Ok None) as He.
    { unfold proxy in Hp. destruct (envProxy u) as [[q|]|] eqn:He; [|done|done]. by repeat case_match. }
    intros [[-> Hd]|(ip & ips & -> & Hip & Hv)]%dial_url_vetted; [| |done].
    + split; [done|]. by eapply direct_trusted_vetted.
    + exists u, ips. eauto 6.
Qed.

Context (Hredirect : forall u u', redirect u = Some u' -> wf_url u' = true).

Lemma Do_ok (fuel : nat) (t : proxyTrust) : forall (n : nat) (via : list URL) (u : URL),
  trust_wf t -> wf_url u = true ->
  Forall (fun '(v, ds) => Forall (connection_ok t v) ds)
    (Do ToASCII lookup opens envProxy redirect fuel allow t n via u).
Proof.
  induction fuel as [|fuel IH]; intros n via u Ht Hw; [constructor|]. cbn [Do].
  pose proof (fun d => roundTrip_ok t n u d Ht Hw) as Hr.
  destruct (roundTrip ToASCII lookup opens envProxy allow t n u) as [n' [ds r]]. cbn in Hr. constructor.
  { apply Forall_forall. intros d Hd. by apply Hr. }
  destruct r; [|constructor]. destruct (redirect u) as [u'|] eqn:Hu; [|constructor].
  destruct (CheckRedirect _); [|constructor]. by apply IH; [|eapply Hredirect].
Qed.

End Urls.

Lemma trust_proxy_wf (t : proxyTrust) (raw : string) : trust_wf t -> trust_wf (trust_proxy ToASCII parseURL t raw).
Proof.
  intros Ht. unfold trust_proxy. repeat case_match; try done.
  unfold trust_wf. cbn. by intros [_ ?]%app_eq_nil.
Qed.

Lemma newProxyTrust_wf (a b : string) : trust_wf (newProxyTrust ToASCII parseURL a b).
Proof. unfold newProxyTrust. cbn [foldl]. do 2 apply trust_proxy_wf. done. Qed.

(** A client makes at most five requests, and needs no more fuel. *)
Lemma Do_length (fuel : nat) (t : proxyTrust) : forall (n : nat) (via : list URL) (u : URL),
  (length via < 5)%nat ->
  (length (Do ToASCII lookup opens envProxy redirect fuel allow t n via u) <= 5 - length via)%nat.
Proof.
  induction fuel as [|fuel IH]; intros n via u Hv; [cbn; lia|]. cbn [Do].
  destruct (roundTrip _ _ _ _ _ _ _ _) as [n' [ds r]]. cbn [length].
  destruct r; [|cbn; lia]. destruct (redirect u) as [u'|]; [|cbn; lia].
  destruct (CheckRedirect (via ++ [u])) eqn:Hc; [|cbn; lia].
  unfold CheckRedirect in Hc. apply Nat.ltb_lt in Hc. pose proof (IH n' (via ++ [u]) u' Hc) as H. rewrite length_app in *. cbn [length] in *. lia.
Qed.

Lemma Do_fuel (fuel : nat) (t : proxyTrust) : forall (n : nat) (via : list URL) (u : URL),
  (length via < 5)%nat -> (5 - length via <= fuel)%nat ->
  Do ToASCII lookup opens envProxy redirect fuel allow t n via u
  = Do ToASCII lookup opens envProxy redirect (5 - length via) allow t n via u.
Proof.
  induction fuel as [|fuel IH]; intros n via u Hv Hf; [lia|].
  replace (5 - length via)%nat with (S (4 - length via)) by lia. cbn [Do].
  destruct (roundTrip _ _ _ _ _ _ _ _) as [n' [ds r]]. f_equal.
  destruct r; [|done]. destruct (redirect u) as [u'|]; [|done].
  destruct (CheckRedirect (via ++ [u])) eqn:Hc; [|done]. unfold CheckRedirect in Hc. apply Nat.ltb_lt in Hc.
  pose proof Hc as Hl. rewrite length_app in Hl. cbn [length] in Hl.
  rewrite IH; [|done|rewrite length_app; cbn [length]; lia]. f_equal. rewrite length_app. cbn [length]. lia.
Qed.

End Guard.

(** ** Embedded IPv4 addresses *)

(** The IPv4 address [a] below the 96 bits [q]. *)
Definition embed (q a : Z) (zone : string) : Addr := Addr6 (q * 2 ^ 32 + a) zone.

(** 64:ff9b::/96 *)
Definition nat64_high : Z := Eval vm_compute in of_groups [100; 65435; 0; 0; 0; 0].

Lemma high_bits (q a k : Z) : 0 <= a < 2 ^ 32 -> 32 <= k -> (q * 2 ^ 32 + a) / 2 ^ k = q / 2 ^ (k - 32).
Proof.
  intros Ha Hk. replace (2 ^ k) with (2 ^ 32 * 2 ^ (k - 32)) by (rewrite <- Z.pow_add_r by lia; f_equal; lia).
  rewrite <- Z.div_div by (try apply Z.pow_pos_nonneg; lia). f_equal.
  rewrite Z.div_add_l, Z.div_small by lia. lia.
Qed.

Lemma low_bits (q a : Z) : 0 <= a < 2 ^ 32 -> (q * 2 ^ 32 + a) mod 2 ^ 32 = a.
Proof. intros Ha. rewrite Z.add_comm, Z.mod_add by lia. by apply Z.mod_small. Qed.

Lemma Unmap_embed (q a : Z) (zone : string) :
  0 <= a < 2 ^ 32 -> Unmap (embed q a zone) = if q =? 65535 then Addr4 a else embed q a zone.
Proof.
  intros Ha. unfold Unmap, embed. rewrite (high_bits q a 32 Ha) by lia. rewrite Z.sub_diag, Z.div_1_r.
  by rewrite (low_bits q a Ha).
Qed.

(** The plain classes of an IPv6 address see its high bits, except loopback and
    unspecified. *)
Lemma blocked_plain_nat64 (a : Z) (zone : string) : 0 <= a < 2 ^ 32 -> blocked_plain (embed nat64_high a zone) = false.
Proof.
  intros Ha. unfold blocked_plain, embed, IsLoopback, IsLinkLocalUnicast, IsLinkLocalMulticast,
    IsInterfaceLocalMulticast, IsPrivate, IsUnspecified, v6u16.
  rewrite !(high_bits nat64_high a _ Ha) by lia.
  rewrite (proj2 (Z.eqb_neq _ 1)) by (unfold nat64_high; lia).
  rewrite !bool_decide_eq_false_2 by (unfold nat64_high; intros [=]; lia).
  cbn [existsb blockedPrefixes Contains px_addr px_bits].
  destruct zone; [|reflexivity]. rewrite (high_bits nat64_high a _ Ha) by lia. reflexivity.
Qed.

Lemma blocked_plain_compat (a : Z) (zone : string) :
  0 <= a < 2 ^ 32 -> blocked_plain (embed 0 a zone) = (a =? 1) || ((a =? 0) && bool_decide (zone = EmptyString)).
Proof.
  intros Ha. unfold blocked_plain, embed, IsLoopback, IsLinkLocalUnicast, IsLinkLocalMulticast,
    IsInterfaceLocalMulticast, IsPrivate, IsUnspecified, v6u16.
  rewrite !(high_bits 0 a _ Ha) by lia. change (0 * 2 ^ 32 + a) with a.
  rewrite (bool_decide_eq_false_2 (Addr6 a zone = Addr4 0)) by done.
  rewrite (bool_decide_ext (Addr6 a zone = Addr6 0 EmptyString) (a = 0 /\ zone = EmptyString)) by naive_solver.
  rewrite bool_decide_and. cbn [existsb blockedPrefixes Contains px_addr px_bits].
  replace (bool_decide (a = 0)) with (a =? 0) by (apply eq_true_iff_eq; rewrite bool_decide_eq_true; lia).
  destruct zone; [rewrite (high_bits 0 a _ Ha) by lia|]; cbn; by rewrite ?orb_false_r.
Qed.

(** The first and the last address of the blocked ranges of IPv4. *)
Definition blocked_ranges4 : list (Z * Z) :=
  Eval vm_compute in
  map (fun '(lo, hi) => (default 0 (parseIPv4 lo), default 0 (parseIPv4 hi)))
    [("0.0.0.0", "0.0.0.0"); ("10.0.0.0", "10.255.255.255"); ("100.64.0.0", "100.127.255.255");
     ("127.0.0.0", "127.255.255.255"); ("169.254.0.0", "169.254.255.255"); ("172.16.0.0", "172.31.255.255");
     ("192.0.0.0", "192.0.0.255"); ("192.88.99.0", "192.88.99.255"); ("192.168.0.0", "192.168.255.255");
     ("198.18.0.0", "198.19.255.255"); ("224.0.0.0", "224.0.0.255")].

Lemma div_range (a k q : Z) : 0 <= k -> (a / 2 ^ k =? q) = ((q * 2 ^ k <=? a) && (a <=? q * 2 ^ k + 2 ^ k - 1)).
Proof.
  intros Hk. pose proof (Z.pow_pos_nonneg 2 k ltac:(lia) Hk) as Hp.
  apply eq_true_iff_eq. rewrite andb_true_iff, Z.eqb_eq, !Z.leb_le. split.
  - intros <-. pose proof (Z.div_mod a (2 ^ k) ltac:(lia)). pose proof (Z.mod_pos_bound a (2 ^ k) Hp). nia.
  - intros H. symmetry. apply (Z.div_unique a (2 ^ k) q (a - q * 2 ^ k)); lia.
Qed.

Lemma IPBlocked_v4 (a : Z) : IPBlocked (Addr4 a) = blocked_plain (Addr4 a).
Proof. unfold IPBlocked. cbn [Unmap]. by destruct (blocked_plain _). Qed.

Lemma blocked_plain_v4 (a : Z) :
  blocked_plain (Addr4 a) = existsb (fun '(lo, hi) => (lo <=? a) && (a <=? hi)) blocked_ranges4.
Proof.
  unfold blocked_plain, IsLoopback, IsLinkLocalUnicast, IsLinkLocalMulticast, IsInterfaceLocalMulticast, IsPrivate,
    IsUnspecified. cbn [existsb blockedPrefixes Contains px_addr px_bits].
  rewrite (Z.eqb_sym (1681915904 / _)), (Z.eqb_sym (3221225472 / _)), (Z.eqb_sym (3323068416 / _)), (Z.eqb_sym (3227017984 / _)).
  change (1681915904 / 2 ^ (32 - 10)) with 401. change (3221225472 / 2 ^ (32 - 24)) with 12582912.
  change (3323068416 / 2 ^ (32 - 15)) with 25353. change (3227017984 / 2 ^ (32 - 24)) with 12605539.
  change (32 - 10) with 22. change (32 - 24) with 8. change (32 - 15) with 17.
  rewrite !div_range by lia.
  replace (bool_decide (Addr4 a = Addr4 0)) with ((0 <=? a) && (a <=? 0))
    by (apply eq_true_iff_eq; rewrite bool_decide_eq_true, andb_true_iff, !Z.leb_le; split; [intros; f_equal; lia|intros [=]; lia]).
  rewrite (bool_decide_eq_false_2 (Addr4 a = Addr6 _ _)) by done.
  apply eq_true_iff_eq. cbn [existsb blocked_ranges4].
  rewrite !orb_true_iff, !andb_true_iff, !Z.leb_le. cbn. lia.
Qed.

(** An IPv4 address is blocked exactly when it lies in one of eleven ranges, and
    the forms of IPv6 that carry it, mapped under any zone, NAT64 and compatible, are
    blocked when it is; the compatible form of 0.0.0.1 is blocked too, as ::1. *)
Lemma embedded_v4_classified (a : Z) :
  0 <= a < 2 ^ 32 ->
  (IPBlocked (Addr4 a) = true <-> exists lo hi, (lo, hi) ∈ blocked_ranges4 /\ lo <= a <= hi) /\
  (forall zone, IPBlocked (embed 65535 a zone) = IPBlocked (Addr4 a)) /\
  IPBlocked (embed nat64_high a EmptyString) = IPBlocked (Addr4 a) /\
  IPBlocked (embed 0 a EmptyString) = (a =? 1) || IPBlocked (Addr4 a).
Proof.
  intros Ha. split; [|split; [|split]].
  - rewrite IPBlocked_v4, blocked_plain_v4, existsb_exists. split.
    + intros ([lo hi] & Hin & [?%Z.leb_le ?%Z.leb_le]%andb_true_iff). exists lo, hi. by split; [apply list_elem_of_In|].
    + intros (lo & hi & Hin & H). exists (lo, hi). split; [by apply list_elem_of_In|].
      apply andb_true_iff. by rewrite !Z.leb_le.
  - intros zone. unfold IPBlocked. by rewrite (Unmap_embed _ _ _ Ha).
  - rewrite IPBlocked_v4. unfold IPBlocked. rewrite (Unmap_embed _ _ _ Ha). cbn [Z.eqb].
    change (nat64_high =? 65535) with false. cbv iota. rewrite (blocked_plain_nat64 _ _ Ha).
    unfold embed at 1. rewrite (low_bits _ _ Ha).
    unfold Contains, embed. cbn [px_addr px_bits v4CompatPrefix nat64Prefix]. rewrite !(high_bits _ _ _ Ha) by lia.
    by rewrite orb_true_r.
  - rewrite IPBlocked_v4. unfold IPBlocked. rewrite (Unmap_embed _ _ _ Ha). cbn [Z.eqb].
    rewrite (blocked_plain_compat _ _ Ha). unfold embed. rewrite (low_bits _ _ Ha).
    unfold Contains. cbn [px_addr px_bits v4CompatPrefix nat64Prefix]. rewrite !(high_bits _ _ _ Ha) by lia.
    destruct (Z.eqb_spec a 1); [done|]. destruct (Z.eqb_spec a 0) as [->|]; done.
Qed.

(** A zone takes an IPv6 address out of every prefix, so the address :: with a
    zone and every NAT64 or compatible address with a zone, ::1 aside, pass the guard
    whatever IPv4 address they carry; a URL of the host ::%lo is dialed with no entry
    in the allowlist. *)
Lemma zone_defeats_guard (a : Z) (zone : string) :
  0 <= a < 2 ^ 32 -> zone <> EmptyString ->
  IPBlocked (embed nat64_high a zone) = false /\
  (a <> 1 -> IPBlocked (embed 0 a zone) = false) /\
  IPBlocked (Addr6 0 EmptyString) = true /\
  (forall ToASCII lookup n, checkHost ToASCII lookup (ParseAllowlist []) n "::%lo" = (n, Ok [Addr6 0 "lo"])).
Proof.
  intros Ha Hz. assert (forall p z, Contains p (Addr6 z zone) = false) as Hc.
  { intros p z. unfold Contains. destruct (px_addr p); [done|]. by destruct zone. }
  split; [|split; [|split; [done|]]].
  - unfold IPBlocked. rewrite (Unmap_embed _ _ _ Ha). change (nat64_high =? 65535) with false. cbv iota.
    rewrite (blocked_plain_nat64 _ _ Ha). unfold embed. by rewrite !Hc.
  - intros Ha1. unfold IPBlocked. rewrite (Unmap_embed _ _ _ Ha). change (0 =? 65535) with false. cbv iota.
    rewrite (blocked_plain_compat _ _ Ha), (bool_decide_eq_false_2 _ Hz), andb_false_r, (proj2 (Z.eqb_neq _ _) Ha1).
    cbn [orb]. unfold embed. by rewrite !Hc.
  - intros ToASCII lookup n. by vm_compute.
Qed.

(** ** Connections *)

(** C31: for every sequence of answers of DNS, every connection that any hop of a
    request tries goes to an address of a vetted answer for the host it dials, or to a
    configured proxy after the hop's target was vetted; a proxy that is not trusted is
    vetted itself.  There are at most five hops. *)
Theorem guard_vets_every_connection
    (ToASCII : string -> option string) (parseURL : string -> option URL)
    (lookup : nat -> string -> option (list Addr)) (opens : dial_to -> bool)
    (envProxy : URL -> result guard_error (option URL)) (redirect : URL -> option URL)
    (allow : Allowlist) (HTTPProxy HTTPSProxy : string) (fuel n : nat) (u : URL) :
  ascii_result ToASCII ->
  (forall v p, envProxy v = Ok (Some p) -> wf_url p = true) ->
  (forall v v', redirect v = Some v' -> wf_url v' = true) ->
  wf_url u = true ->
  let t := newProxyTrust ToASCII parseURL HTTPProxy HTTPSProxy in
  let hops := Do ToASCII lookup opens envProxy redirect fuel allow t n [] u in
  (length hops <= 5)%nat /\
  Forall (fun '(v, ds) => Forall (connection_ok ToASCII lookup envProxy allow t v) ds) hops.
Proof.
  intros Hascii Hproxy Hredirect Hu t hops. split.
  - apply (Do_length ToASCII lookup opens envProxy redirect allow fuel t n [] u). cbn. lia.
  - apply Do_ok; try done. apply newProxyTrust_wf.
Qed.

(** A site whose name rebinds: public at the first lookup, loopback afterwards; it
    redirects to the proxy's own address. *)
Definition rebinding (n : nat) (host : string) : option (list Addr) :=
  Some [Addr4 (if (n =? 0)%nat then 134744072 else 2130706433)].
Definition site : URL := {| Scheme := "http"; Host := "Site"; Hostname := "Site"; Port := EmptyString |}.
Definition proxy_site : URL :=
  {| Scheme := "http"; Host := "10.0.0.1:3128"; Hostname := "10.0.0.1"; Port := "3128" |}.
Definition to_proxy (u : URL) : option URL := if bool_decide (Hostname u = "Site") then Some proxy_site else None.

Lemma guard_vets_every_connection_witness :
  let t := newProxyTrust (fun _ => None) (fun _ => Some proxy_site) "http://10.0.0.1:3128" EmptyString in
  let hops := Do (fun _ => None) rebinding (fun _ => true) (fun _ => Ok None) to_proxy 5 (ParseAllowlist []) t 0 [] site in
  hops = [(site, [DialIP (Addr4 134744072) "80"]); (proxy_site, [])] /\
  (length hops <= 5)%nat /\
  Forall (fun '(v, ds) =>
    Forall (connection_ok (fun _ => None) rebinding (fun _ => Ok None) (ParseAllowlist []) t v) ds) hops.
Proof.
  split; [vm_compute; reflexivity|].
  apply (guard_vets_every_connection (fun _ => None) (fun _ => Some proxy_site) rebinding (fun _ => true)
           (fun _ => Ok None) to_proxy (ParseAllowlist []) "http://10.0.0.1:3128" EmptyString 5 0 site).
  - intros s a. discriminate.
  - intros v p. discriminate.
  - intros v v'. unfold to_proxy. destruct (bool_decide _); [|discriminate]. intros [= <-]. reflexivity.
  - reflexivity.
Defined.

(** ** Origins *)

(** URLs of one origin are dialed at one address, and being of one origin is
    symmetric and transitive. *)
Lemma SameOrigin_same_address (ToASCII : string -> option string) (a b c : URL) :
  SameOrigin ToASCII (Some a) (Some b) = true ->
  ToLower (canonicalAddr ToASCII a) = ToLower (canonicalAddr ToASCII b) /\
  SameOrigin ToASCII (Some b) (Some a) = true /\
  (SameOrigin ToASCII (Some b) (Some c) = true -> SameOrigin ToASCII (Some a) (Some c) = true).
Proof.
  assert (forall u h, canonicalHost ToASCII (Hostname u) = Ok h -> ToLower (dialed_host ToASCII u) = h) as Hd.
  { intros u h. unfold canonicalHost, dialed_host. destruct (isASCII _); [congruence|].
    destruct (ToASCII _); cbn; congruence. }
  unfold SameOrigin, EqualFold.
  destruct (canonicalHost ToASCII (Hostname a)) as [ha|] eqn:Ha; [|by rewrite andb_false_r].
  destruct (canonicalHost ToASCII (Hostname b)) as [hb|] eqn:Hb; [|by rewrite andb_false_r].
  rewrite !andb_true_iff, !negb_true_iff, !bool_decide_eq_true, !bool_decide_eq_false.
  intros (Hs & (Hne & <-) & Hp). split; [|split; [by auto|]].
  - change (canonicalAddr ToASCII a) with (JoinHostPort (dialed_host ToASCII a) (defaultPort a)).
    change (canonicalAddr ToASCII b) with (JoinHostPort (dialed_host ToASCII b) (defaultPort b)).
    by rewrite !ToLower_JoinHostPort, Hp, (Hd a ha Ha), (Hd b ha Hb).
  - by rewrite Hs, Hp.
Qed.
