(* ===== verification/AgentEvict.v ===== *)
(** * The node agent: memory pressure and the choice of what to evict

    Models [pkg/agent/watchdog.go], [priority.go], [eviction.go] and the choice of
    services to restart of [pressure_restart.go].  What the operating system reports
    of memory is an argument. *)

From stdpp Require Import base strings list gmap.
From Stdlib Require Import ZArith Lia Bool.
From S2P Require Import Prelude GoStrings GoFloat.

(** ** Levels and samples *)

Inductive MemoryPressureLevel := MemoryPressureNormal | MemoryPressureWarning | MemoryPressureCritical.

#[export] Instance MemoryPressureLevel_eq_dec : EqDecision MemoryPressureLevel.
Proof. solve_decision. Defined.

Definition is_high (l : MemoryPressureLevel) : bool := negb (bool_decide (l = MemoryPressureNormal)).

Record MemoryStats := {
  ms_TotalMemory : Z;
  ms_AvailableMemory : Z;
  ms_WiredMemory : Z;
  ms_ProcessRSS : gmap string Z;
  ms_TotalRSS : Z;
}.

Record MemoryWatchdogConfig := {
  wc_WarningThreshold : float64;
  wc_CriticalThreshold : float64;
}.

(** The answers of the operating system to one sample, [None] for an error; the
    processes with their names. *)
Record readings := {
  rd_total : option Z;
  rd_available : option Z;
  rd_wired : option Z;
  rd_processes : list (string * option Z);
}.

(** ** The watchdog *)

Definition normalSamplesBeforeRecovery : Z := 3.

Record MemoryWatchdog := {
  wd_lastLevel : MemoryPressureLevel;
  wd_normalStreak : Z;
}.

Definition NewMemoryWatchdog : MemoryWatchdog :=
  {| wd_lastLevel := MemoryPressureNormal; wd_normalStreak := 0 |}.

Definition computePressure (cfg : MemoryWatchdogConfig) (stats : MemoryStats) : MemoryPressureLevel :=
  if ms_TotalMemory stats =? 0 then MemoryPressureNormal
  else
    let availFraction := fdiv (float_of_int (ms_AvailableMemory stats)) (float_of_int (ms_TotalMemory stats)) in
    if flt availFraction (wc_CriticalThreshold cfg) then MemoryPressureCritical
    else if flt availFraction (wc_WarningThreshold cfg) then MemoryPressureWarning
    else MemoryPressureNormal.

(** The loop over the processes: a process whose memory cannot be read is left out;
    of two of one name the map keeps the later, the sum has both. *)
Definition add_rss (acc : gmap string Z * Z) (p : string * option Z) : gmap string Z * Z :=
  match p.2 with
  | None => acc
  | Some rss => (<[p.1 := rss]> acc.1, uwrap64 (acc.2 + rss))
  end.

(** The part of [sample] after the level is known: the new state, and whether the
    callback is called. *)
Definition deliver (wantNormal : bool) (w : MemoryWatchdog) (level : MemoryPressureLevel) : MemoryWatchdog * bool :=
  if is_high level then ({| wd_lastLevel := level; wd_normalStreak := 0 |}, true)
  else
    let streak := if wd_normalStreak w <? normalSamplesBeforeRecovery then wd_normalStreak w + 1 else wd_normalStreak w in
    let w' := {| wd_lastLevel := wd_lastLevel w; wd_normalStreak := streak |} in
    if is_high (wd_lastLevel w) && (normalSamplesBeforeRecovery <=? streak)
    then ({| wd_lastLevel := MemoryPressureNormal; wd_normalStreak := streak |}, true)
    else if bool_decide (wd_lastLevel w = MemoryPressureNormal) && wantNormal then (w', true)
    else (w', false).

(** One sample: the new state, and the level and statistics the callback gets. *)
Definition sample (cfg : MemoryWatchdogConfig) (wantNormal : bool) (r : readings) (w : MemoryWatchdog) :
    MemoryWatchdog * option (MemoryPressureLevel * MemoryStats) :=
  match rd_total r with
  | None => (w, None)
  | Some total =>
      match rd_available r with
      | None => (w, None)
      | Some avail =>
          let '(rss, totalRSS) := foldl add_rss (∅, 0) (rd_processes r) in
          let stats := {| ms_TotalMemory := total; ms_AvailableMemory := avail;
                          ms_WiredMemory := default 0 (rd_wired r);
                          ms_ProcessRSS := rss; ms_TotalRSS := totalRSS |} in
          let level := computePressure cfg stats in
          let '(w', called) := deliver wantNormal w level in
          (w', if called then Some (level, stats) else None)
      end
  end.

(** ** Priorities *)

Definition priorityWeights : gmap string Z :=
  list_to_map [("critical", 1000000); ("high", 100000); ("normal", 10000); ("low", 1000); ("batch", 100)].

Definition priorityWeight (p : string) : Z := default 10000 (priorityWeights !! p).

(** ** Processes *)

(** A [ManagedProcess]; [mp_id] stands for the identity of the object, and of the
    engine it was made for. *)
Record ManagedProcess := {
  mp_id : nat;
  mp_Namespace : string;
  mp_Name : string;
  mp_ModelID : string;
  mp_StartedAt : Z;
  mp_Healthy : bool;
  mp_SpecHash : string;
  mp_Priority : string;
  mp_EvictionProtection : bool;
  mp_AdmittedBytes : Z;
  mp_healthFailures : Z;
}.

Definition managedProcessRSSKey (p : ManagedProcess) : string := mp_Name p.

(** ** The process to evict *)

Inductive skip_reason := SkipReasonEmpty | SkipReasonFloor | SkipReasonAllProtected | SkipReasonRuntimeIneligible.

(** The order of [sort.Slice]: lower priority, then larger memory, then older. *)
Definition evict_before (rss : gmap string Z) (p q : ManagedProcess) : bool :=
  let wp := priorityWeight (mp_Priority p) in
  let wq := priorityWeight (mp_Priority q) in
  if negb (wp =? wq) then wp <? wq
  else
    let rp := default 0 (rss !! managedProcessRSSKey p) in
    let rq := default 0 (rss !! managedProcessRSSKey q) in
    if negb (rp =? rq) then rq <? rp
    else mp_StartedAt p <? mp_StartedAt q.

(** The first of the sorted slice.  The sort is not stable and the map has no order:
    [l] is in any order, and the first of the smallest is taken. *)
Fixpoint first_smallest (rss : gmap string Z) (best : ManagedProcess) (l : list ManagedProcess) : ManagedProcess :=
  match l with
  | [] => best
  | p :: l => first_smallest rss (if evict_before rss p best then p else best) l
  end.

Definition pickEvictionTarget (processes : list ManagedProcess) (rss : gmap string Z) :
    result skip_reason ManagedProcess :=
  match processes with
  | [] => Err SkipReasonEmpty
  | [_] => Err SkipReasonFloor
  | _ =>
      let llamaServer := List.filter (fun p => bool_decide (mp_ModelID p = EmptyString)) processes in
      match llamaServer with
      | [] => Err SkipReasonRuntimeIneligible
      | _ =>
          match List.filter (fun p => negb (mp_EvictionProtection p)) llamaServer with
          | [] => Err SkipReasonAllProtected
          | p :: l => Ok (first_smallest rss p l)
          end
      end
  end.

Definition shouldEvict (level : MemoryPressureLevel) (stats : MemoryStats) (evictionEnabled : bool) : bool :=
  evictionEnabled && bool_decide (level = MemoryPressureCritical) && negb (ms_TotalMemory stats =? 0) &&
  fgt (fdiv (float_of_int (ms_TotalRSS stats)) (float_of_int (ms_TotalMemory stats))) (float_lit 1 2).

(** ** The services to restart *)

Record evictedService := {
  es_rss : Z;
  es_notBefore : Z;
}.

(** The loop over the keys in order. *)
Fixpoint pick_loop (blocked : gmap string evictedService) (now available floor reserved : Z) (keys : list string) :
    list string :=
  match keys with
  | [] => []
  | key :: keys =>
      match blocked !! key with
      | None => pick_loop blocked now available floor reserved keys
      | Some svc =>
          let need := uwrap64 (reserved + es_rss svc) in
          if now <? es_notBefore svc then pick_loop blocked now available floor reserved keys
          else if (available <? need) || (available - need <? floor) then pick_loop blocked now available floor reserved keys
          else key :: pick_loop blocked now available floor need keys
      end
  end.

Definition pickRestartable (blocked : gmap string evictedService) (now available floor reserved : Z) : list string :=
  pick_loop blocked now available floor reserved (SortStrings (fst <$> map_to_list blocked)).

(** ** The order of eviction *)

Lemma evict_before_irrefl rss p : evict_before rss p p = false.
Proof. unfold evict_before. rewrite !Z.eqb_refl. cbn [negb]. apply Z.ltb_irrefl. Qed.

Lemma evict_before_asym rss p q : evict_before rss p q = true -> evict_before rss q p = false.
Proof.
  unfold evict_before. rewrite (Z.eqb_sym (priorityWeight (mp_Priority q))).
  rewrite (Z.eqb_sym (default 0 (rss !! managedProcessRSSKey q))). repeat case_if; to_prop; intros; to_prop; lia.
Qed.

(** What comes before the first of two comes before the second, or the first does. *)
Lemma evict_before_cotrans rss p q r :
  evict_before rss q p = false -> evict_before rss r q = false -> evict_before rss r p = false.
Proof.
  unfold evict_before.
  generalize (priorityWeight (mp_Priority p)) (priorityWeight (mp_Priority q)) (priorityWeight (mp_Priority r))
    (default 0 (rss !! managedProcessRSSKey p)) (default 0 (rss !! managedProcessRSSKey q))
    (default 0 (rss !! managedProcessRSSKey r)).
  intros wp wq wr rp rq rr.
  destruct (Z.eqb_spec wq wp), (Z.eqb_spec wr wq), (Z.eqb_spec wr wp); cbn [negb]; try lia;
    destruct (Z.eqb_spec rq rp), (Z.eqb_spec rr rq), (Z.eqb_spec rr rp); cbn [negb]; lia.
Qed.

Lemma first_smallest_elem rss best l : first_smallest rss best l = best \/ first_smallest rss best l ∈ l.
Proof.
  revert best; induction l as [|p l IH]; intros best; [by left|]. cbn [first_smallest].
  destruct (IH (if evict_before rss p best then p else best)) as [->|H]; [|by right; right].
  destruct (evict_before rss p best); [by right; left|by left].
Qed.

Lemma first_smallest_min rss best l q :
  q = best \/ q ∈ l -> evict_before rss q (first_smallest rss best l) = false.
Proof.
  revert best q; induction l as [|p l IH]; intros best q H; cbn [first_smallest].
  { destruct H as [->|H]; [apply evict_before_irrefl|by apply elem_of_nil in H]. }
  destruct (evict_before rss p best) eqn:Hp.
  - destruct H as [->|[->|H]%elem_of_cons]; [|by apply IH; left|by apply IH; right].
    apply (evict_before_cotrans rss (first_smallest rss p l) p best); [by apply IH; left|].
    destruct (evict_before rss best p) eqn:Hb; [|done].
    exfalso. pose proof (evict_before_asym rss p best Hp). congruence.
  - destruct H as [->|[->|H]%elem_of_cons]; [by apply IH; left| |by apply IH; right].
    apply (evict_before_cotrans rss (first_smallest rss best l) best p); [by apply IH; left|done].
Qed.

(** ** What is evicted *)

(** A process the agent may stop: its own, and not protected. *)
Definition evictable (p : ManagedProcess) : Prop := mp_ModelID p = EmptyString /\ mp_EvictionProtection p = false.

Lemma evictable_filter (l : list ManagedProcess) (p : ManagedProcess) :
  p ∈ List.filter (fun p => negb (mp_EvictionProtection p))
        (List.filter (fun p => bool_decide (mp_ModelID p = EmptyString)) l) <-> p ∈ l /\ evictable p.
Proof.
  rewrite !list_elem_of_In, !filter_In, bool_decide_eq_true, negb_true_iff. unfold evictable. tauto.
Qed.

(** With at least two processes, one that may be evicted is chosen whenever there is
    one, and no other comes before it by priority, then memory, then age; with fewer
    processes, or none that may be evicted, nothing is. *)
Lemma evicts_least_important (l : list ManagedProcess) (rss : gmap string Z) :
  match pickEvictionTarget l rss with
  | Ok p => (2 <= length l)%nat /\ p ∈ l /\ evictable p /\
            (forall q, q ∈ l -> evictable q -> evict_before rss q p = false)
  | Err SkipReasonEmpty => l = []
  | Err SkipReasonFloor => length l = 1%nat
  | Err SkipReasonRuntimeIneligible => (2 <= length l)%nat /\ (forall q, q ∈ l -> mp_ModelID q <> EmptyString)
  | Err SkipReasonAllProtected =>
      (2 <= length l)%nat /\ (exists q, q ∈ l /\ mp_ModelID q = EmptyString) /\ (forall q, q ∈ l -> ~ evictable q)
  end.
Proof.
  destruct l as [|p1 [|p2 l']]; [done|done|]. unfold pickEvictionTarget.
  assert (2 <= length (p1 :: p2 :: l'))%nat as Hlen by (cbn; lia).
  remember (p1 :: p2 :: l') as l eqn:El. clear El.
  pose proof (evictable_filter l) as He.
  destruct (List.filter (fun p => bool_decide _) l) as [|s ls] eqn:Hs.
  { split; [done|]. intros q Hq Hm.
    assert (In q []) as []. rewrite <- Hs. apply filter_In. split; [by apply list_elem_of_In|]. by apply bool_decide_eq_true. }
  destruct (List.filter (fun p => negb _) (s :: ls)) as [|c cs] eqn:Hc.
  - split; [done|]. split.
    + assert (In s (List.filter (fun p => bool_decide (mp_ModelID p = EmptyString)) l)) as Hin by (rewrite Hs; by left).
      apply filter_In in Hin as [Hin Hm%bool_decide_eq_true]. exists s. split; [by apply list_elem_of_In|done].
    + intros q Hq Hev. by apply (elem_of_nil q), He.
  - pose proof (first_smallest_elem rss c cs) as Hel.
    assert (first_smallest rss c cs ∈ c :: cs) as Hin by (destruct Hel as [->|Hel]; [left|by right]).
    apply He in Hin as [Hin Hev]. do 3 (split; [done|]).
    intros q Hq Hqe. apply first_smallest_min. apply elem_of_cons, He. done.
Qed.

(** ** When the watchdog reports *)

(** The state after some samples, the latest first, with what was wanted at each. *)
Definition watchdog_after (past : list (bool * MemoryPressureLevel)) : MemoryWatchdog :=
  foldr (fun '(want, l) w => (deliver want w l).1) NewMemoryWatchdog past.

(** The number of Normal samples since the last higher one, or since the start. *)
Fixpoint normal_run (past : list (bool * MemoryPressureLevel)) : nat :=
  match past with
  | (_, MemoryPressureNormal) :: past => S (normal_run past)
  | _ => 0
  end.

Lemma normal_run_le past : (normal_run past <= length past)%nat.
Proof. induction past as [|[? []] past IH]; cbn; lia. Qed.

Lemma watchdog_state past :
  wd_normalStreak (watchdog_after past) = Z.min 3 (Z.of_nat (normal_run past)) /\
  (is_high (wd_lastLevel (watchdog_after past)) = true <-> (normal_run past < length past /\ normal_run past < 3)%nat).
Proof.
  induction past as [|[want l] past [IHs IHl]]; [cbn; split; [done|split; [done|lia]]|].
  change (watchdog_after ((want, l) :: past)) with (deliver want (watchdog_after past) l).1.
  pose proof (normal_run_le past) as Hle. unfold deliver.
  destruct l; [|cbn; split; [done|split; [lia|done]]|cbn; split; [done|split; [lia|done]]].
  change (is_high MemoryPressureNormal) with false. cbv iota. rewrite IHs.
  cbn [normal_run length]. unfold normalSamplesBeforeRecovery.
  destruct (is_high (wd_lastLevel (watchdog_after past))) eqn:Hl.
  - destruct (proj1 IHl eq_refl) as [H1 H2]. rewrite (proj2 (Z.ltb_lt _ _)) by lia. cbn [andb].
    destruct (Z.leb_spec 3 (Z.min 3 (Z.of_nat (normal_run past)) + 1)); cbn [fst wd_normalStreak wd_lastLevel].
    + split; [lia|]. split; [done|lia].
    + assert (bool_decide (wd_lastLevel (watchdog_after past) = MemoryPressureNormal) = false) as ->.
      { apply bool_decide_eq_false. intros E. by rewrite E in Hl. }
      cbn. split; [lia|]. rewrite Hl. split; [lia|done].
  - assert (~ (normal_run past < length past /\ normal_run past < 3)%nat) as Hn by (intros H; apply IHl in H; congruence).
    cbn [andb]. set (w' := {| wd_lastLevel := _ |}).
    replace (if _ && want then (w', true) else (w', false)).1 with w' by (by case_match).
    cbn. rewrite Hl. split; [case_if; to_prop; lia|]. split; [done|lia].
Qed.

(** Whether the callback is called for a sample of level [l] after [past]. *)
Definition reports (want : bool) (past : list (bool * MemoryPressureLevel)) (l : MemoryPressureLevel) : bool :=
  match l with
  | MemoryPressureNormal =>
      if (normal_run past <? length past)%nat && (normal_run past <? 3)%nat then (normal_run past =? 2)%nat else want
  | _ => true
  end.

(** The watchdog reports every sample above Normal; a return to Normal is reported at
    the third Normal sample in a row and not before; any other Normal sample is
    reported exactly when it is asked for. *)
Lemma watchdog_hysteresis (want : bool) (past : list (bool * MemoryPressureLevel)) (l : MemoryPressureLevel) :
  (deliver want (watchdog_after past) l).2 = reports want past l.
Proof.
  destruct (watchdog_state past) as [Hs Hl]. unfold deliver, reports. destruct l; [|done|done].
  change (is_high MemoryPressureNormal) with false. cbv iota. rewrite Hs. unfold normalSamplesBeforeRecovery.
  destruct (is_high (wd_lastLevel (watchdog_after past))) eqn:Hh.
  - destruct (proj1 Hl eq_refl) as [H1 H2].
    rewrite (proj2 (Nat.ltb_lt _ _) H1), (proj2 (Nat.ltb_lt _ _) H2), (proj2 (Z.ltb_lt _ _)) by lia. cbn [andb].
    assert (bool_decide (wd_lastLevel (watchdog_after past) = MemoryPressureNormal) = false) as ->.
    { apply bool_decide_eq_false. intros E. by rewrite E in Hh. }
    destruct (Z.leb_spec 3 (Z.min 3 (Z.of_nat (normal_run past)) + 1)), (Nat.eqb_spec (normal_run past) 2); cbn; lia || done.
  - assert (((normal_run past <? length past)%nat && (normal_run past <? 3)%nat) = false) as ->.
    { apply not_true_iff_false. rewrite andb_true_iff, !Nat.ltb_lt. intros H. apply Hl in H. congruence. }
    cbn [andb]. rewrite bool_decide_eq_true_2; [by destruct want|].
    unfold is_high in Hh. by apply negb_false_iff, bool_decide_eq_true in Hh.
Qed.

(** ** What is restarted *)

Definition rss_of (blocked : gmap string evictedService) (k : string) : Z := default 0 (es_rss <$> blocked !! k).

Definition sum_rss (blocked : gmap string evictedService) (keys : list string) : Z :=
  foldr (fun k acc => rss_of blocked k + acc) 0 keys.

Section Restartable.
Context (blocked : gmap string evictedService) (now available floor : Z).
Context (Hpos : forall k, 0 <= rss_of blocked k) (Hfloor : 0 <= floor).

Lemma sum_rss_cons k keys : sum_rss blocked (k :: keys) = rss_of blocked k + sum_rss blocked keys.
Proof. done. Qed.

Lemma sum_rss_pos keys : 0 <= sum_rss blocked keys.
Proof.
  induction keys as [|k keys IH]; [done|]. rewrite sum_rss_cons. pose proof (Hpos k). lia.
Qed.

Lemma pick_loop_fits (keys : list string) : forall reserved,
  0 <= reserved -> reserved + sum_rss blocked keys < two64 ->
  let picked := pick_loop blocked now available floor reserved keys in
  (picked = [] \/ reserved + sum_rss blocked picked + floor <= available) /\
  (forall k, k ∈ picked -> k ∈ keys /\ exists svc, blocked !! k = Some svc /\ es_notBefore svc <= now) /\
  sum_rss blocked picked <= sum_rss blocked keys /\
  (forall k svc, k ∈ keys -> blocked !! k = Some svc -> es_notBefore svc <= now ->
     k ∈ picked \/ available < reserved + sum_rss blocked picked + es_rss svc + floor).
Proof.
  induction keys as [|key keys IH]; intros reserved Hr Hsum; cbn [pick_loop].
  { cbn. split_and!; [by left|by intros k ?%elem_of_nil|lia|by intros k svc ?%elem_of_nil]. }
  rewrite sum_rss_cons in Hsum.
  pose proof (Hpos key) as Hk. pose proof (sum_rss_pos keys) as Hs.
  assert (forall k, rss_of blocked k = default 0 (es_rss <$> blocked !! k)) as Hdef by done.
  destruct (blocked !! key) as [svc|] eqn:Hb.
  2:{ destruct (IH reserved Hr ltac:(lia)) as (H1 & H2 & H3 & H4). rewrite sum_rss_cons. split_and!; [done| |lia|].
      - intros k Hin. destruct (H2 k Hin) as [? ?]. split; [by right|done].
      - intros k svc [->|Hin]%elem_of_cons Hsvc; [congruence|]. by apply H4. }
  assert (rss_of blocked key = es_rss svc) as Hrss by (rewrite Hdef, Hb; done).
  assert (uwrap64 (reserved + es_rss svc) = reserved + es_rss svc) as -> by (apply Z.mod_small; lia).
  destruct (Z.ltb_spec now (es_notBefore svc)) as [Hnow|Hnow];
  [|destruct ((available <? reserved + es_rss svc) || (available - (reserved + es_rss svc) <? floor)) eqn:Hfit].
  - destruct (IH reserved Hr ltac:(lia)) as (H1 & H2 & H3 & H4). rewrite sum_rss_cons. split_and!; [done| |lia|].
    + intros k Hin. destruct (H2 k Hin) as [? ?]. split; [by right|done].
    + intros k svc' [->|Hin]%elem_of_cons Hsvc Hd; [|by apply H4]. simplify_eq. lia.
  - destruct (IH reserved Hr ltac:(lia)) as (H1 & H2 & H3 & H4). rewrite sum_rss_cons. split_and!; [done| |lia|].
    + intros k Hin. destruct (H2 k Hin) as [? ?]. split; [by right|done].
    + intros k svc' [->|Hin]%elem_of_cons Hsvc Hd; [|by apply H4]. simplify_eq. right.
      pose proof (sum_rss_pos (pick_loop blocked now available floor reserved keys)).
      apply orb_true_iff in Hfit as [?%Z.ltb_lt|?%Z.ltb_lt]; lia.
  - apply orb_false_iff in Hfit as [Hf1%Z.ltb_ge Hf2%Z.ltb_ge].
    destruct (IH (reserved + es_rss svc) ltac:(lia) ltac:(lia)) as (H1 & H2 & H3 & H4).
    rewrite !sum_rss_cons, Hrss. split_and!.
    + right. destruct H1 as [->|H1]; [cbn; lia|lia].
    + intros k [->|Hin]%elem_of_cons; [split; [left|eauto]|]. destruct (H2 k Hin) as [? ?]. split; [by right|done].
    + lia.
    + intros k svc' [->|Hin]%elem_of_cons Hsvc Hd; [by left; left|].
      destruct (H4 k svc' Hin Hsvc Hd) as [?|?]; [left; by right|right; lia].
Qed.

End Restartable.

Lemma sum_rss_perm blocked k1 k2 : k1 ≡ₚ k2 -> sum_rss blocked k1 = sum_rss blocked k2.
Proof. induction 1 as [| | |]; cbn; fold sum_rss in *; unfold sum_rss in *; lia. Qed.

(** The services chosen for a restart are blocked ones past their backoff, in the
    order of their keys; what they used, with what is already reserved, leaves the
    floor free; and no other service past its backoff would fit next to them. *)
Lemma restarts_fit_headroom (blocked : gmap string evictedService) (now available floor reserved : Z) :
  (forall k, 0 <= rss_of blocked k) -> 0 <= floor -> 0 <= reserved ->
  reserved + sum_rss blocked (fst <$> map_to_list blocked) < two64 ->
  let picked := pickRestartable blocked now available floor reserved in
  (picked = [] \/ reserved + sum_rss blocked picked + floor <= available) /\
  (forall k, k ∈ picked -> exists svc, blocked !! k = Some svc /\ es_notBefore svc <= now) /\
  (forall k svc, blocked !! k = Some svc -> es_notBefore svc <= now -> k ∉ picked ->
     available < reserved + sum_rss blocked picked + es_rss svc + floor).
Proof.
  intros Hpos Hfloor Hres Hsum picked.
  assert (SortStrings (fst <$> map_to_list blocked) ≡ₚ fst <$> map_to_list blocked) as Hperm
    by apply SortStrings_Permutation.
  destruct (pick_loop_fits blocked now available floor Hpos Hfloor _ reserved Hres
              ltac:(rewrite (sum_rss_perm _ _ _ Hperm); exact Hsum)) as (H1 & H2 & _ & H4).
  split; [exact H1|]. split; [intros k Hk; by destruct (H2 k Hk)|].
  intros k svc Hk Hnow Hno. destruct (H4 k svc) as [?|?]; [|done|done|done|done].
  rewrite Hperm. apply list_elem_of_fmap. exists (k, svc). split; [done|]. by apply elem_of_map_to_list.
Qed.
