(* ===== verification/Agent.v ===== *)
(** * The node agent: its state and the operations on it

    Models the parts of [pkg/agent/agent.go], [health_restart.go], [pressure.go],
    [pressure_restart.go] and [health.go] that run under the agent's mutex: each
    definition here is one critical section, or the part of one, and [AgentMachine]
    puts them together to the threads of the agent.  Kubernetes events, metrics,
    logs and engine records on disk leave no trace in this state. *)

From stdpp Require Import base strings list gmap.
From Stdlib Require Import ZArith Lia Bool Ascii.
From S2P Require Import Prelude GoStrings GoFloat AgentEvict.

(** ** Data *)

(** What the agent reads of an InferenceService; [sv_hash] is its [computeSpecHash]. *)
Record Service := {
  sv_Namespace : string;
  sv_Name : string;
  sv_Suspend : bool;
  sv_Replicas : option Z;
  sv_Priority : string;
  sv_EvictionProtection : option bool;
  sv_Deleting : bool;
  sv_hash : string;
}.

(** [types.NamespacedName.String]. *)
Definition service_key (namespace name : string) : string := namespace +:+ "/" +:+ name.
Definition key_of (i : Service) : string := service_key (sv_Namespace i) (sv_Name i).

(** [parseKey]. *)
Definition parseKey (key : string) : string * string :=
  match CutByte key "/"%char with
  | Some (namespace, name) => (namespace, name)
  | None => (EmptyString, key)
  end.

Definition isvcStopped (i : Service) : bool :=
  sv_Suspend i || bool_decide (sv_Replicas i = Some 0).

(** [rb_id] is the identity of the object, [rb_timer] the time its wake-up fires. *)
Record restartBackoff := {
  rb_id : nat;
  rb_delay : Z;
  rb_pending : bool;
  rb_nextAt : Z;
  rb_specHash : string;
  rb_releaseAt : Z;
  rb_timer : option Z;
}.

Record evictionBackoff := {
  eb_restartedAt : Z;
  eb_wait : Z;
}.

(** The fields of [MetalAgent] that change; [a_wake] is the one place of the channel
    [restartWake], [a_fresh] the next identity. *)
Record MetalAgent := {
  a_processes : gmap string ManagedProcess;
  a_starting : gset string;
  a_restarts : gmap string restartBackoff;
  a_pressureBlocked : gmap string evictedService;
  a_pressureRestarting : gmap string evictedService;
  a_evictionBackoff : gmap string evictionBackoff;
  a_lastPressureLevel : MemoryPressureLevel;
  a_pressureObserved : gmap string MemoryPressureLevel;
  a_reservedMemory : gmap string Z;
  a_wake : bool;
  a_fresh : nat;
}.

Definition NewMetalAgent : MetalAgent :=
  {| a_processes := ∅; a_starting := ∅; a_restarts := ∅; a_pressureBlocked := ∅; a_pressureRestarting := ∅;
     a_evictionBackoff := ∅; a_lastPressureLevel := MemoryPressureNormal; a_pressureObserved := ∅;
     a_reservedMemory := ∅; a_wake := false; a_fresh := 0 |}.

(** ** Updates of one field *)

Definition set_processes (a : MetalAgent) (v : gmap string ManagedProcess) : MetalAgent :=
  {| a_processes := v; a_starting := a_starting a; a_restarts := a_restarts a;
     a_pressureBlocked := a_pressureBlocked a; a_pressureRestarting := a_pressureRestarting a;
     a_evictionBackoff := a_evictionBackoff a; a_lastPressureLevel := a_lastPressureLevel a;
     a_pressureObserved := a_pressureObserved a; a_reservedMemory := a_reservedMemory a;
     a_wake := a_wake a; a_fresh := a_fresh a |}.

Definition set_starting (a : MetalAgent) (v : gset string) : MetalAgent :=
  {| a_processes := a_processes a; a_starting := v; a_restarts := a_restarts a;
     a_pressureBlocked := a_pressureBlocked a; a_pressureRestarting := a_pressureRestarting a;
     a_evictionBackoff := a_evictionBackoff a; a_lastPressureLevel := a_lastPressureLevel a;
     a_pressureObserved := a_pressureObserved a; a_reservedMemory := a_reservedMemory a;
     a_wake := a_wake a; a_fresh := a_fresh a |}.

Definition set_restarts (a : MetalAgent) (v : gmap string restartBackoff) (wake : bool) (fresh : nat) : MetalAgent :=
  {| a_processes := a_processes a; a_starting := a_starting a; a_restarts := v;
     a_pressureBlocked := a_pressureBlocked a; a_pressureRestarting := a_pressureRestarting a;
     a_evictionBackoff := a_evictionBackoff a; a_lastPressureLevel := a_lastPressureLevel a;
     a_pressureObserved := a_pressureObserved a; a_reservedMemory := a_reservedMemory a;
     a_wake := wake; a_fresh := fresh |}.

Definition set_evicted (a : MetalAgent) (blocked restarting : gmap string evictedService)
    (backoff : gmap string evictionBackoff) : MetalAgent :=
  {| a_processes := a_processes a; a_starting := a_starting a; a_restarts := a_restarts a;
     a_pressureBlocked := blocked; a_pressureRestarting := restarting;
     a_evictionBackoff := backoff; a_lastPressureLevel := a_lastPressureLevel a;
     a_pressureObserved := a_pressureObserved a; a_reservedMemory := a_reservedMemory a;
     a_wake := a_wake a; a_fresh := a_fresh a |}.

Definition set_level (a : MetalAgent) (level : MemoryPressureLevel) (observed : gmap string MemoryPressureLevel) :
    MetalAgent :=
  {| a_processes := a_processes a; a_starting := a_starting a; a_restarts := a_restarts a;
     a_pressureBlocked := a_pressureBlocked a; a_pressureRestarting := a_pressureRestarting a;
     a_evictionBackoff := a_evictionBackoff a; a_lastPressureLevel := level;
     a_pressureObserved := observed; a_reservedMemory := a_reservedMemory a;
     a_wake := a_wake a; a_fresh := a_fresh a |}.

Definition set_reserved (a : MetalAgent) (v : gmap string Z) : MetalAgent :=
  {| a_processes := a_processes a; a_starting := a_starting a; a_restarts := a_restarts a;
     a_pressureBlocked := a_pressureBlocked a; a_pressureRestarting := a_pressureRestarting a;
     a_evictionBackoff := a_evictionBackoff a; a_lastPressureLevel := a_lastPressureLevel a;
     a_pressureObserved := a_pressureObserved a; a_reservedMemory := v;
     a_wake := a_wake a; a_fresh := a_fresh a |}.

(** ** The restart queue *)

Definition healthRestartInitialBackoff : Z := 10 * second.
Definition healthRestartMaxBackoff : Z := 5 * minute.
Definition healthRestartBackoffReset : Z := 10 * minute.
Definition restartGuardRetry : Z := second.
Definition DefaultHealthFailureThreshold : Z := 3.

Definition healthFailureThreshold (configured : Z) : Z :=
  if 0 <? configured then configured else DefaultHealthFailureThreshold.

Definition nextRestartDelay (d : Z) : Z :=
  if d <=? 0 then healthRestartInitialBackoff else Z.min (wrap64 (2 * d)) healthRestartMaxBackoff.

Definition with_timer (st : restartBackoff) (t : option Z) : restartBackoff :=
  {| rb_id := rb_id st; rb_delay := rb_delay st; rb_pending := rb_pending st; rb_nextAt := rb_nextAt st;
     rb_specHash := rb_specHash st; rb_releaseAt := rb_releaseAt st; rb_timer := t |}.

Definition with_pending (st : restartBackoff) (b : bool) : restartBackoff :=
  {| rb_id := rb_id st; rb_delay := rb_delay st; rb_pending := b; rb_nextAt := rb_nextAt st;
     rb_specHash := rb_specHash st; rb_releaseAt := rb_releaseAt st; rb_timer := rb_timer st |}.

Definition with_specHash (st : restartBackoff) (h : string) : restartBackoff :=
  {| rb_id := rb_id st; rb_delay := rb_delay st; rb_pending := rb_pending st; rb_nextAt := rb_nextAt st;
     rb_specHash := h; rb_releaseAt := rb_releaseAt st; rb_timer := rb_timer st |}.

Definition with_releaseAt (st : restartBackoff) (t : Z) : restartBackoff :=
  {| rb_id := rb_id st; rb_delay := rb_delay st; rb_pending := rb_pending st; rb_nextAt := rb_nextAt st;
     rb_specHash := rb_specHash st; rb_releaseAt := t; rb_timer := rb_timer st |}.

(** Owed a restart at [t], with the delay of the one after it. *)
Definition with_schedule (st : restartBackoff) (t delay : Z) : restartBackoff :=
  {| rb_id := rb_id st; rb_delay := delay; rb_pending := true; rb_nextAt := t;
     rb_specHash := rb_specHash st; rb_releaseAt := rb_releaseAt st; rb_timer := rb_timer st |}.

Definition put_restart (a : MetalAgent) (key : string) (st : restartBackoff) : MetalAgent :=
  set_restarts a (<[key := st]> (a_restarts a)) (a_wake a) (a_fresh a).

(** The state of a key, which is made when there is none. *)
Definition restartStateLocked (a : MetalAgent) (key : string) : MetalAgent * restartBackoff :=
  match a_restarts a !! key with
  | Some st => (a, st)
  | None =>
      let st := {| rb_id := a_fresh a; rb_delay := 0; rb_pending := false; rb_nextAt := 0;
                   rb_specHash := EmptyString; rb_releaseAt := 0; rb_timer := None |} in
      (set_restarts a (<[key := st]> (a_restarts a)) (a_wake a) (S (a_fresh a)), st)
  end.

Definition wakeRestarts (a : MetalAgent) : MetalAgent := set_restarts a (a_restarts a) true (a_fresh a).

(** [st] is the state of [key], written back with its wake-up. *)
Definition armRestartLocked (a : MetalAgent) (now : Z) (key : string) (st : restartBackoff) (at_ : Z) : MetalAgent :=
  if 0 <? time_sub at_ now then put_restart a key (with_timer st (Some at_))
  else wakeRestarts (put_restart a key (with_timer st None)).

Definition scheduleRestartLocked (a : MetalAgent) (now : Z) (key : string) (notBefore : Z) : MetalAgent :=
  let '(a, st) := restartStateLocked a key in
  let nextAt := Z.max (time_add now (rb_delay st)) notBefore in
  armRestartLocked a now key (with_schedule st nextAt (nextRestartDelay (rb_delay st))) nextAt.

Definition queueRestartLocked (a : MetalAgent) (now : Z) (key : string) (notBefore : Z) : MetalAgent :=
  let '(a, st) := restartStateLocked a key in
  let notBefore := if rb_pending st && (notBefore <? rb_nextAt st) then rb_nextAt st else notBefore in
  let notBefore := if notBefore <? rb_releaseAt st then rb_releaseAt st else notBefore in
  let delay := if rb_delay st =? 0 then healthRestartInitialBackoff else rb_delay st in
  armRestartLocked a now key (with_schedule st notBefore delay) notBefore.

Definition cancelRestartLocked (a : MetalAgent) (key : string) : MetalAgent :=
  set_restarts a (delete key (a_restarts a)) (a_wake a) (a_fresh a).

(** The critical section of [deferToPendingRestart]: not deferred, left to the pending
    restart, or cancelled and to be queued again not before a time. *)
Inductive defer_answer := NotDeferred | Deferred | Requeue (releaseAt : Z).

Definition deferToPendingRestart (a : MetalAgent) (key specHash : string) : MetalAgent * defer_answer :=
  match a_restarts a !! key with
  | None => (a, NotDeferred)
  | Some st =>
      if negb (rb_pending st) || bool_decide (is_Some (a_processes a !! key)) then (a, NotDeferred)
      else if bool_decide (rb_specHash st = EmptyString) || bool_decide (rb_specHash st = specHash) then (a, Deferred)
      else (cancelRestartLocked a key, Requeue (rb_releaseAt st))
  end.

(** The critical section of [dropRestart]: whether the endpoint is to be removed. *)
Definition dropRestart (a : MetalAgent) (key : string) : MetalAgent * bool :=
  (cancelRestartLocked a key,
   bool_decide (is_Some (a_restarts a !! key)) && negb (bool_decide (is_Some (a_processes a !! key)))).

Definition resetRestartBackoffLocked (a : MetalAgent) (now : Z) (key : string) (p : ManagedProcess) : MetalAgent :=
  match a_restarts a !! key with
  | None => a
  | Some st =>
      if rb_pending st || (time_sub now (mp_StartedAt p) <? healthRestartBackoffReset) then a
      else cancelRestartLocked a key
  end.

(** The keys [runDueRestarts] finds due, sorted. *)
Definition dueRestarts (a : MetalAgent) (now : Z) : list string :=
  SortStrings (fst <$> List.filter (fun '(_, st) => rb_pending st && (rb_nextAt st <=? now)) (map_to_list (a_restarts a))).

(** The first critical section of [runRestart]: whether the attempt goes on. *)
Definition runRestart (a : MetalAgent) (now : Z) (key : string) : MetalAgent * bool :=
  match a_restarts a !! key with
  | None => (a, false)
  | Some st =>
      if negb (rb_pending st) || (now <? rb_nextAt st) then (a, false)
      else if bool_decide (key ∈ a_starting a) then
        (armRestartLocked a now key st (time_add now restartGuardRetry), false)
      else if bool_decide (is_Some (a_processes a !! key)) then (put_restart a key (with_pending st false), false)
      else (put_restart a key (with_pending st false), true)
  end.

(** The last critical section of [runRestart], after the attempt. *)
Definition retryRestart (a : MetalAgent) (now : Z) (key specHash : string) : MetalAgent :=
  match a_restarts a !! key with
  | None => a
  | Some st =>
      if bool_decide (is_Some (a_processes a !! key)) then a
      else
        let a := if bool_decide (specHash = EmptyString) then a else put_restart a key (with_specHash st specHash) in
        scheduleRestartLocked a now key 0
  end.

(** ** Health *)

Definition with_health (p : ManagedProcess) (healthy : bool) (failures : Z) : ManagedProcess :=
  {| mp_id := mp_id p; mp_Namespace := mp_Namespace p; mp_Name := mp_Name p; mp_ModelID := mp_ModelID p;
     mp_StartedAt := mp_StartedAt p; mp_Healthy := healthy; mp_SpecHash := mp_SpecHash p;
     mp_Priority := mp_Priority p; mp_EvictionProtection := mp_EvictionProtection p;
     mp_AdmittedBytes := mp_AdmittedBytes p; mp_healthFailures := failures |}.

(** The process tracked under a key, when it is the object [id]. *)
Definition tracked (a : MetalAgent) (key : string) (id : nat) : option ManagedProcess :=
  match a_processes a !! key with
  | Some p => if (mp_id p =? id)%nat then Some p else None
  | None => None
  end.

(** The critical section of [applyResult]: whether the process is to be restarted. *)
Definition applyResult (a : MetalAgent) (now threshold : Z) (key : string) (id : nat) (healthy : bool) :
    MetalAgent * bool :=
  match tracked a key id with
  | None => (a, false)
  | Some p =>
      let failures := if healthy then 0 else wrap64 (mp_healthFailures p + 1) in
      let p' := with_health p healthy failures in
      let a := set_processes a (<[key := p']> (a_processes a)) in
      (if healthy then resetRestartBackoffLocked a now key p' else a, negb healthy && (threshold <=? failures))
  end.

(** The first critical section of [restartUnhealthy]: the process to stop, and the
    identity of the restart state that is held meanwhile. *)
Definition restartUnhealthy (a : MetalAgent) (key : string) (id : nat) : MetalAgent * option (ManagedProcess * nat) :=
  match tracked a key id with
  | None => (a, None)
  | Some p =>
      if mp_Healthy p || bool_decide (key ∈ a_starting a) then (a, None)
      else
        let a := set_processes a (delete key (a_processes a)) in
        let a := set_starting a ({[key]} ∪ a_starting a) in
        let '(a, st) := restartStateLocked a key in
        (put_restart a key (with_specHash st (mp_SpecHash p)), Some (p, rb_id st))
  end.

(** The last critical section of [restartUnhealthy]: [clean] says that the stop
    returned no error, [cancelled] that the agent is stopping. *)
Definition restartStopped (a : MetalAgent) (now : Z) (key : string) (st_id : nat) (clean cancelled : bool) : MetalAgent :=
  let notBefore := if clean then 0 else time_add now healthRestartInitialBackoff in
  let a := set_starting a (a_starting a ∖ {[key]}) in
  match a_restarts a !! key with
  | Some st =>
      if negb (rb_id st =? st_id)%nat || cancelled then a
      else
        let a := if time_is_zero notBefore then a else put_restart a key (with_releaseAt st notBefore) in
        scheduleRestartLocked a now key notBefore
  | None => a
  end.

(** ** Teardown *)

(** The critical section of [deleteProcess]: the process to stop, if one was tracked. *)
Definition deleteProcess (a : MetalAgent) (key : string) : MetalAgent * option ManagedProcess :=
  let a := cancelRestartLocked a key in
  match a_processes a !! key with
  | None => (a, None)
  | Some p => (set_processes a (delete key (a_processes a)), Some p)
  end.

(** ** Memory admission *)

(** The memory of a key: of its process and of a start that holds a reservation. *)
Definition committed_of (a : MetalAgent) (key : string) : Z :=
  uwrap64 (default 0 (mp_AdmittedBytes <$> a_processes a !! key) + default 0 (a_reservedMemory a !! key)).

Definition memory_keys (a : MetalAgent) : gset string := dom (a_processes a) ∪ dom (a_reservedMemory a).

Definition committedMemoryLocked (a : MetalAgent) (exclude : string) : Z :=
  foldr (fun k acc => uwrap64 (committed_of a k + acc)) 0 (elements (memory_keys a ∖ {[exclude]})).

Inductive memory_check_error := MemoryCheckFailed | InsufficientMemory.

(** [checkMemoryAdmission] once the estimate and the Model's budget are known; [None]
    is a check that could not be completed. *)
Definition reserveMemory (hostBudget : Z) (allowOverride warnOnly : bool) (a : MetalAgent) (key : string)
    (check : option (Z * Z)) : result memory_check_error MetalAgent :=
  match check with
  | None => if warnOnly then Ok a else Err MemoryCheckFailed
  | Some (estimate, modelBudget) =>
      let budget := if (hostBudget <? modelBudget) && negb allowOverride then hostBudget else modelBudget in
      if budget <? estimate then Err InsufficientMemory
      else
        let capacity := Z.max hostBudget budget in
        if capacity <? uwrap64 (committedMemoryLocked a key + estimate) then Err InsufficientMemory
        else Ok (set_reserved a (<[key := estimate]> (a_reservedMemory a)))
  end.

Definition releaseAdmission (a : MetalAgent) (key : string) : MetalAgent :=
  set_reserved a (delete key (a_reservedMemory a)).

(** The critical section of [reconcileProcess] that stores a started process. *)
Definition storeProcess (a : MetalAgent) (now : Z) (i : Service) (modelID : string) (id : nat) : MetalAgent :=
  let key := key_of i in
  let p := {| mp_id := id; mp_Namespace := sv_Namespace i; mp_Name := sv_Name i; mp_ModelID := modelID;
              mp_StartedAt := now; mp_Healthy := true; mp_SpecHash := sv_hash i; mp_Priority := sv_Priority i;
              mp_EvictionProtection := default false (sv_EvictionProtection i);
              mp_AdmittedBytes := default 0 (a_reservedMemory a !! key); mp_healthFailures := 0 |} in
  set_processes (set_reserved a (delete key (a_reservedMemory a))) (<[key := p]> (a_processes a)).

(** ** Evicted services *)

Definition evictedRestartInitialWait : Z := minute.
Definition evictedRestartMaxWait : Z := 30 * minute.
Definition evictedRestartBackoffReset : Z := 10 * minute.

(** [None] without a watchdog.  The conversion truncates and, for a value outside the
    range of [uint64], saturates as on arm64. *)
Definition uint64_trunc (x : float64) : Z :=
  match x with
  | SpecFloat.S754_finite false m e =>
      Z.min (two64 - 1) (match e with Zneg p => Zpos m / 2 ^ Zpos p | _ => Zpos m * 2 ^ e end)
  | SpecFloat.S754_infinity false => two64 - 1
  | _ => 0
  end.

Definition restartFloor (watchdog : option MemoryWatchdogConfig) (total : Z) : Z :=
  match watchdog with
  | None => 0
  | Some cfg => uint64_trunc (fmul (wc_WarningThreshold cfg) (float_of_int total))
  end.

(** A queued restart that was cancelled. *)
Definition restart_gone (a : MetalAgent) (key : string) : bool :=
  negb (bool_decide (is_Some (a_restarts a !! key))) && negb (bool_decide (is_Some (a_processes a !! key))) &&
  negb (bool_decide (key ∈ a_starting a)).

Definition live_restarting (a : MetalAgent) : gmap string evictedService :=
  filter (fun '(k, _) => restart_gone a k = false) (a_pressureRestarting a).

Definition reservedRSS (a : MetalAgent) : Z :=
  foldr (fun '(_, svc) acc => uwrap64 (es_rss svc + acc)) 0 (map_to_list (live_restarting a)).

Definition backoff_live (a : MetalAgent) (restarting : gmap string evictedService) (now : Z) (key : string)
    (rec : evictionBackoff) : bool :=
  bool_decide (is_Some (a_pressureBlocked a !! key)) || bool_decide (is_Some (restarting !! key)) ||
  (time_sub now (eb_restartedAt rec) <? evictedRestartBackoffReset).

Definition restartCandidatesLocked (watchdog : option MemoryWatchdogConfig) (a : MetalAgent) (now : Z)
    (stats : MemoryStats) : MetalAgent * list (string * evictedService) :=
  let restarting := live_restarting a in
  let backoff := filter (fun '(k, rec) => backoff_live a restarting now k rec = true) (a_evictionBackoff a) in
  let keys := pickRestartable (a_pressureBlocked a) now (ms_AvailableMemory stats)
                (restartFloor watchdog (ms_TotalMemory stats)) (reservedRSS a) in
  (set_evicted a (a_pressureBlocked a) restarting backoff,
   omap (fun k => (fun svc => (k, svc)) <$> a_pressureBlocked a !! k) keys).

Definition queueEvictedLocked (a : MetalAgent) (now : Z) (key : string) (svc : evictedService) : MetalAgent * bool :=
  let owed := match a_restarts a !! key with Some st => rb_pending st | None => false end in
  if negb (bool_decide (is_Some (a_pressureBlocked a !! key))) then (a, false)
  else if bool_decide (key ∈ a_starting a) || owed then (a, false)
  else
    let a := set_evicted a (delete key (a_pressureBlocked a)) (<[key := svc]> (a_pressureRestarting a)) (a_evictionBackoff a) in
    (queueRestartLocked a now key 0, true).

Definition forgetEvicted (a : MetalAgent) (key : string) : MetalAgent :=
  set_evicted a (delete key (a_pressureBlocked a)) (delete key (a_pressureRestarting a)) (delete key (a_evictionBackoff a)).

Definition holdQueuedEvictedLocked (a : MetalAgent) (key : string) : MetalAgent :=
  match a_pressureRestarting a !! key with
  | None => a
  | Some svc =>
      if bool_decide (a_lastPressureLevel a = MemoryPressureNormal) then a
      else cancelRestartLocked (set_evicted a (<[key := svc]> (a_pressureBlocked a)) (delete key (a_pressureRestarting a))
                                  (a_evictionBackoff a)) key
  end.

Definition nextEvictedRestartLocked (a : MetalAgent) (now : Z) (key : string) : gmap string evictionBackoff * Z :=
  match a_evictionBackoff a !! key with
  | None => (delete key (a_evictionBackoff a), 0)
  | Some rec =>
      if evictedRestartBackoffReset <=? time_sub now (eb_restartedAt rec) then (delete key (a_evictionBackoff a), 0)
      else
        let wait := if eb_wait rec =? 0 then evictedRestartInitialWait
                    else Z.min (wrap64 (2 * eb_wait rec)) evictedRestartMaxWait in
        (<[key := {| eb_restartedAt := eb_restartedAt rec; eb_wait := wait |}]> (a_evictionBackoff a), time_add now wait)
  end.

(** The critical section of [noteEvictedRestarted]: whether the start was the queued
    restart of an evicted service. *)
Definition noteEvictedRestarted (a : MetalAgent) (now : Z) (key : string) : MetalAgent * bool :=
  match a_pressureRestarting a !! key with
  | None => (a, false)
  | Some _ =>
      let wait := match a_evictionBackoff a !! key with Some rec => eb_wait rec | None => 0 end in
      let a := set_evicted a (a_pressureBlocked a) (delete key (a_pressureRestarting a))
                 (<[key := {| eb_restartedAt := now; eb_wait := wait |}]> (a_evictionBackoff a)) in
      (cancelRestartLocked a key, true)
  end.

(** The first critical section of [handleMemoryPressure]: the services to restart, the
    processes, and the keys whose condition is to be written. *)
Definition handleMemoryPressure (watchdog : option MemoryWatchdogConfig) (a : MetalAgent) (now : Z)
    (level : MemoryPressureLevel) (stats : MemoryStats) :
    MetalAgent * (list (string * evictedService) * list (string * ManagedProcess) * list string) :=
  let changed := negb (bool_decide (level = a_lastPressureLevel a)) in
  let a := set_level a level (a_pressureObserved a) in
  let '(a, restart) :=
    if bool_decide (level = MemoryPressureNormal) then restartCandidatesLocked watchdog a now stats else (a, []) in
  let a := set_level a level (if changed then ∅ else a_pressureObserved a) in
  let snapshot := map_to_list (a_processes a) in
  (a, (restart, snapshot,
       fst <$> List.filter (fun '(k, _) => negb (bool_decide (a_pressureObserved a !! k = Some level))) snapshot)).

(** A key whose condition was written at a level. *)
Definition markObserved (a : MetalAgent) (key : string) (level : MemoryPressureLevel) : MetalAgent :=
  set_level a (a_lastPressureLevel a) (<[key := level]> (a_pressureObserved a)).

(** The critical section that marks the target of an eviction. *)
Definition blockEvicted (a : MetalAgent) (now : Z) (key : string) (rss : Z) : MetalAgent :=
  let '(backoff, notBefore) := nextEvictedRestartLocked a now key in
  set_evicted a (<[key := {| es_rss := rss; es_notBefore := notBefore |}]> (a_pressureBlocked a))
    (delete key (a_pressureRestarting a)) backoff.

(** The critical section that takes the mark back when the stop failed. *)
Definition unblockEvicted (a : MetalAgent) (key : string) : MetalAgent :=
  set_evicted a (delete key (a_pressureBlocked a)) (a_pressureRestarting a) (a_evictionBackoff a).

Definition hasEvictedWaiting (a : MetalAgent) : bool := negb (bool_decide (a_pressureBlocked a = ∅)).
