(* ===== verification/AgentMachine.v ===== *)
(** * The node agent: its threads

    The event loop, the health monitor, the memory watchdog and the heartbeat of the
    agent run side by side and share the state of [Agent].  A step is one critical
    section of one thread together with the code up to the next one; what the
    operating system, the engines and the Kubernetes API answer meanwhile is in the
    step's [answer].  [w_engines] are the engines that run, [w_failed] those whose stop
    failed; the agent does not see either. *)

From stdpp Require Import base strings list gmap.
From Stdlib Require Import ZArith Lia Bool.
From S2P Require Import Prelude GoStrings GoFloat AgentEvict Agent.

Record agent_config := {
  cf_hostBudget : Z;
  cf_allowOverride : bool;
  cf_warnOnly : bool;
  cf_evictionEnabled : bool;
  cf_threshold : Z;
  cf_watchdog : MemoryWatchdogConfig;
}.

(** ** Answers *)

Inductive watch_event := Upserted (i : Service) | Deleted (key : string) | Woken.
Inductive get_answer := GetNotFound | GetError | GetFound (i : Service).
Inductive model_answer := ModelFound | ModelNotFound | ModelError.
Inductive stop_answer := StopOk | StopKilled | StopFailed.
Inductive spawn_answer := SpawnOk (modelID : string) | SpawnFailed (leftover : bool).
Inductive evictedVerdict := evictedQueue | evictedKeep | evictedDrop.

Record answer := {
  x_now : Z;
  x_event : watch_event;
  x_get : get_answer;
  x_model : model_answer;
  (** The refusals of [reconcileProcess] before memory admission. *)
  x_allowed : bool;
  x_check : option (Z * Z);
  x_spawn : spawn_answer;
  x_stop : stop_answer;
  (** Whether a write to the API, or of an engine record, succeeds. *)
  x_write : bool;
  x_conflict : bool;
  x_verdict : evictedVerdict;
  x_readings : readings;
  x_probe : string * nat * bool;
  x_gone : string;
}.

(** ** The event loop *)

(** A call of [ensureProcess]: the service, whether [runRestart] made it, and the due
    restarts that are left. *)
Record call := {
  c_svc : Service;
  c_restart : bool;
  c_due : list string;
}.

Definition call_key (c : call) : string := key_of (c_svc c).

(** What the event loop does after a teardown. *)
Inductive after_delete :=
| ThenIdle
| ThenReturn (c : call)
| ThenFetched (c : call) (found : bool).

Inductive loop_pc :=
| LIdle (due : list string)
| LGet (key : string) (due : list string)
| LEnter (c : call)
| LGuarded (c : call)
| LDecide (c : call) (existing : option ManagedProcess) (blocked : bool)
| LScale (c : call) (exists_ held : bool)
| LMarkRead (key : string) (next : loop_pc)
| LMark (key : string) (level : MemoryPressureLevel) (next : loop_pc)
| LDefer (c : call) (existing : option ManagedProcess)
| LRequeue (c : call) (releaseAt : Z)
| LFetch (c : call) (existing : option ManagedProcess)
| LDelete (key : string) (k : after_delete)
| LStopping (key : string) (p : ManagedProcess) (k : after_delete)
| LAdmit (c : call)
| LSpawn (c : call) (id : nat)
| LStore (c : call) (id : nat) (modelID : string)
| LRecord (c : call)
| LNote (c : call)
| LReturn (c : call)
| LLeave (c : call)
| LAfter (key specHash : string) (due : list string).

Inductive health_pc :=
| HIdle
| HRestart (key : string) (id : nat)
| HStopping (key : string) (p : ManagedProcess) (st_id : nat).

(** What a pressure report still has to do. *)
Record pressure_call := {
  pc_level : MemoryPressureLevel;
  pc_stats : MemoryStats;
  pc_restart : list (string * evictedService);
  pc_snapshot : list (string * ManagedProcess);
}.

Inductive dog_pc :=
| WIdle
| WCall (level : MemoryPressureLevel) (stats : MemoryStats)
| WPatch (h : pressure_call) (keys : list string)
| WQueue (h : pressure_call) (items : list (string * evictedService))
| WDecide (h : pressure_call)
| WBlock (h : pressure_call) (p : ManagedProcess)
| WDelete (key : string)
| WStopping (key : string) (p : ManagedProcess)
| WUnblock (key : string).

Inductive beat_pc :=
| BIdle
| BDelete (key : string)
| BStopping (key : string) (p : ManagedProcess).

Record world := {
  w_now : Z;
  w_agent : MetalAgent;
  w_loop : loop_pc;
  w_health : health_pc;
  w_watchdog : MemoryWatchdog;
  w_dog : dog_pc;
  w_beat : beat_pc;
  w_engines : gmap nat string;
  w_failed : gset nat;
}.

Definition start_world : world :=
  {| w_now := 0; w_agent := NewMetalAgent; w_loop := LIdle []; w_health := HIdle; w_watchdog := NewMemoryWatchdog;
     w_dog := WIdle; w_beat := BIdle; w_engines := ∅; w_failed := ∅ |}.

(** ** Engines *)

Definition os := (gmap nat string * gset nat)%type.

(** The end of [stopManagedProcess]: an engine is gone unless the stop failed. *)
Definition stop_engine (o : os) (p : ManagedProcess) (s : stop_answer) : os :=
  match s with
  | StopFailed => (o.1, {[mp_id p]} ∪ o.2)
  | _ => (delete (mp_id p) o.1, o.2)
  end.

Definition stop_clean (s : stop_answer) : bool := match s with StopOk => true | _ => false end.

(** The end of a failed start, which may leave the engine behind. *)
Definition spawn_failed (o : os) (id : nat) (leftover : bool) : os :=
  if leftover then (o.1, {[id]} ∪ o.2) else (delete id o.1, o.2).

(** ** Steps of the event loop *)

Definition loop_state := (MetalAgent * loop_pc * os)%type.

Definition return_to (c : call) : loop_pc :=
  if c_restart c then LAfter (call_key c) (sv_hash (c_svc c)) (c_due c) else LIdle (c_due c).

Definition continue_after (k : after_delete) (ok : bool) : loop_pc :=
  match k with
  | ThenIdle => LIdle []
  | ThenReturn c => LReturn c
  | ThenFetched c found => if ok && found then LAdmit c else LReturn c
  end.

(** Memory admission and the start of the engine. *)
Definition admission_step (cfg : agent_config) (x : answer) (a : MetalAgent) (c : call) (o : os) : loop_state :=
  if negb (x_allowed x) then (a, LReturn c, o)
  else match reserveMemory (cf_hostBudget cfg) (cf_allowOverride cfg) (cf_warnOnly cfg) a (call_key c) (x_check x) with
       | Err _ => (a, LReturn c, o)
       | Ok a =>
           let id := a_fresh a in
           (set_restarts a (a_restarts a) (a_wake a) (S id), LSpawn c id, (<[id := call_key c]> o.1, o.2))
       end.

Definition idle_step (x : answer) (a : MetalAgent) (o : os) : option loop_state :=
  match x_event x with
  | Upserted i => Some (a, LEnter {| c_svc := i; c_restart := false; c_due := [] |}, o)
  | Deleted key => Some (forgetEvicted a key, LDelete key ThenIdle, o)
  | Woken => if a_wake a then Some (set_restarts a (a_restarts a) false (a_fresh a), LIdle (dueRestarts a (x_now x)), o)
             else None
  end.

(** [runRestart] between its two critical sections. *)
Definition get_step (x : answer) (a : MetalAgent) (key : string) (due : list string) (o : os) : option loop_state :=
  match x_get x with
  | GetNotFound => Some ((dropRestart a key).1, LIdle due, o)
  | GetError => Some (a, LAfter key EmptyString due, o)
  | GetFound i =>
      let c := {| c_svc := i; c_restart := true; c_due := due |} in
      if negb (bool_decide (key_of i = key)) then None
      else if sv_Deleting i then Some ((dropRestart a key).1, LIdle due, o)
      else if isvcStopped i then Some (a, LScale c false false, o)
      else Some (a, LEnter c, o)
  end.

Definition decide_step (a : MetalAgent) (c : call) (existing : option ManagedProcess) (blocked : bool) (o : os) :
    loop_state :=
  let exists_ := bool_decide (is_Some existing) in
  if blocked then
    if isvcStopped (c_svc c)
    then (forgetEvicted a (call_key c), LMarkRead (call_key c) (LScale c exists_ true), o)
    else (a, LReturn c, o)
  else if isvcStopped (c_svc c) then (a, LScale c exists_ true, o)
  else (a, LDefer c existing, o).

Definition defer_step (a : MetalAgent) (c : call) (existing : option ManagedProcess) (o : os) : loop_state :=
  match deferToPendingRestart a (call_key c) (sv_hash (c_svc c)) with
  | (a, Deferred) => (a, LReturn c, o)
  | (a, Requeue t) => (a, LRequeue c t, o)
  | (a, NotDeferred) =>
      match existing with
      | Some p => if bool_decide (mp_SpecHash p = sv_hash (c_svc c)) then (a, LReturn c, o) else (a, LFetch c existing, o)
      | None => (a, LFetch c existing, o)
      end
  end.

Definition fetch_step (x : answer) (a : MetalAgent) (c : call) (existing : option ManagedProcess) (o : os) : loop_state :=
  match x_model x, existing with
  | ModelError, _ => (a, LReturn c, o)
  | ModelFound, Some _ => (a, LDelete (call_key c) (ThenFetched c true), o)
  | ModelNotFound, Some _ => (a, LDelete (call_key c) (ThenFetched c false), o)
  | ModelFound, None => (a, LAdmit c, o)
  | ModelNotFound, None => (a, LReturn c, o)
  end.

Definition loop_step (cfg : agent_config) (x : answer) (a : MetalAgent) (pc : loop_pc) (o : os) : option loop_state :=
  match pc with
  | LIdle [] => idle_step x a o
  | LIdle (key :: due) =>
      let '(a, go) := runRestart a (x_now x) key in
      Some (a, if go then LGet key due else LIdle due, o)
  | LGet key due => get_step x a key due o
  | LEnter c =>
      if bool_decide (call_key c ∈ a_starting a) then Some (a, return_to c, o)
      else Some (set_starting a ({[call_key c]} ∪ a_starting a), LGuarded c, o)
  | LGuarded c =>
      let existing := a_processes a !! call_key c in
      let a := holdQueuedEvictedLocked a (call_key c) in
      Some (a, LDecide c existing (bool_decide (is_Some (a_pressureBlocked a !! call_key c))), o)
  | LDecide c existing blocked => Some (decide_step a c existing blocked o)
  | LScale c exists_ held =>
      let a := (dropRestart a (call_key c)).1 in
      Some (a, if exists_ then LDelete (call_key c) (ThenReturn c) else if held then LReturn c else LIdle (c_due c), o)
  | LMarkRead key next => Some (a, LMark key (a_lastPressureLevel a) next, o)
  | LMark key level next => Some (if x_write x then markObserved a key level else a, next, o)
  | LDefer c existing => Some (defer_step a c existing o)
  | LRequeue c t => Some (queueRestartLocked a (x_now x) (call_key c) t, LReturn c, o)
  | LFetch c existing => Some (fetch_step x a c existing o)
  | LDelete key k =>
      match deleteProcess a key with
      | (a', None) => Some (a', continue_after k (x_write x || negb (bool_decide (is_Some (a_restarts a !! key)))), o)
      | (a', Some p) => Some (a', LStopping key p k, o)
      end
  | LStopping key p k => Some (a, continue_after k (stop_clean (x_stop x) && x_write x), stop_engine o p (x_stop x))
  | LAdmit c => Some (admission_step cfg x a c o)
  | LSpawn c id =>
      match x_spawn x with
      | SpawnOk modelID => Some (a, LStore c id modelID, o)
      | SpawnFailed leftover => Some (a, LReturn c, spawn_failed o id leftover)
      end
  | LStore c id modelID => Some (storeProcess a (x_now x) (c_svc c) modelID id, LRecord c, o)
  | LRecord c =>
      if negb (x_write x) || x_conflict x then Some (a, LDelete (call_key c) (ThenReturn c), o) else Some (a, LNote c, o)
  | LNote c =>
      let '(a, restarting) := noteEvictedRestarted a (x_now x) (call_key c) in
      Some (a, if restarting then LMarkRead (call_key c) (LReturn c) else LReturn c, o)
  | LReturn c => Some (releaseAdmission a (call_key c), LLeave c, o)
  | LLeave c => Some (set_starting a (a_starting a ∖ {[call_key c]}), return_to c, o)
  | LAfter key specHash due => Some (retryRestart a (x_now x) key specHash, LIdle due, o)
  end.

(** ** Steps of the other threads *)

Definition health_step (cfg : agent_config) (x : answer) (a : MetalAgent) (pc : health_pc) (o : os) :
    MetalAgent * health_pc * os :=
  match pc with
  | HIdle =>
      let '(key, id, healthy) := x_probe x in
      let '(a, restart) := applyResult a (x_now x) (healthFailureThreshold (cf_threshold cfg)) key id healthy in
      (a, if restart then HRestart key id else HIdle, o)
  | HRestart key id =>
      match restartUnhealthy a key id with
      | (a, Some (p, st_id)) => (a, HStopping key p st_id, o)
      | (a, None) => (a, HIdle, o)
      end
  | HStopping key p st_id =>
      (restartStopped a (x_now x) key st_id (stop_clean (x_stop x)) false, HIdle, stop_engine o p (x_stop x))
  end.

(** The target of an eviction, by the snapshot the report started with. *)
Definition evict_target (cfg : agent_config) (h : pressure_call) : option ManagedProcess :=
  if shouldEvict (pc_level h) (pc_stats h) (cf_evictionEnabled cfg) then
    match pickEvictionTarget (snd <$> pc_snapshot h) (ms_ProcessRSS (pc_stats h)) with
    | Ok p => Some p
    | Err _ => None
    end
  else None.

Definition process_key (p : ManagedProcess) : string := service_key (mp_Namespace p) (mp_Name p).

Definition dog_step (cfg : agent_config) (x : answer) (a : MetalAgent) (wd : MemoryWatchdog) (pc : dog_pc) (o : os) :
    MetalAgent * MemoryWatchdog * dog_pc * os :=
  match pc with
  | WIdle =>
      let '(wd, report) := sample (cf_watchdog cfg) (hasEvictedWaiting a) (x_readings x) wd in
      (a, wd, match report with Some (level, stats) => WCall level stats | None => WIdle end, o)
  | WCall level stats =>
      let '(a, (restart, snapshot, keys)) := handleMemoryPressure (Some (cf_watchdog cfg)) a (x_now x) level stats in
      (a, wd, WPatch {| pc_level := level; pc_stats := stats; pc_restart := restart; pc_snapshot := snapshot |} keys, o)
  | WPatch h [] => (a, wd, WQueue h (pc_restart h), o)
  | WPatch h (key :: keys) => (if x_write x then markObserved a key (pc_level h) else a, wd, WPatch h keys, o)
  | WQueue h [] => (a, wd, WDecide h, o)
  | WQueue h ((key, svc) :: items) =>
      (match x_verdict x with
       | evictedKeep => a
       | evictedDrop => forgetEvicted a key
       | evictedQueue => (queueEvictedLocked a (x_now x) key svc).1
       end, wd, WQueue h items, o)
  | WDecide h => (a, wd, match evict_target cfg h with Some p => WBlock h p | None => WIdle end, o)
  | WBlock h p =>
      let rss := default 0 (ms_ProcessRSS (pc_stats h) !! managedProcessRSSKey p) in
      (blockEvicted a (x_now x) (process_key p) rss, wd, WDelete (process_key p), o)
  | WDelete key =>
      match deleteProcess a key with
      | (a, None) => (a, wd, WIdle, o)
      | (a, Some p) => (a, wd, WStopping key p, o)
      end
  | WStopping key p =>
      (a, wd, match x_stop x with StopFailed => WUnblock key | _ => WIdle end, stop_engine o p (x_stop x))
  | WUnblock key => (unblockEvicted a key, wd, WIdle, o)
  end.

(** [heartbeatOnce] for a process whose InferenceService is gone. *)
Definition beat_step (x : answer) (a : MetalAgent) (pc : beat_pc) (o : os) : MetalAgent * beat_pc * os :=
  match pc with
  | BIdle => (a, if bool_decide (is_Some (a_processes a !! x_gone x)) then BDelete (x_gone x) else BIdle, o)
  | BDelete key =>
      match deleteProcess a key with
      | (a, None) => (a, BIdle, o)
      | (a, Some p) => (a, BStopping key p, o)
      end
  | BStopping key p => (a, BIdle, stop_engine o p (x_stop x))
  end.

(** The wake-up of a restart fires. *)
Definition fire_timer (a : MetalAgent) (now : Z) (key : string) : option MetalAgent :=
  st ← a_restarts a !! key;
  t ← rb_timer st;
  if t <=? now then Some (wakeRestarts (put_restart a key (with_timer st None))) else None.

(** ** Steps of the agent *)

Inductive thread := TLoop | THealth | TDog | TBeat | TTimer (key : string).

Definition with_loop (w : world) (now : Z) (r : loop_state) : world :=
  let '(a, pc, o) := r in
  {| w_now := now; w_agent := a; w_loop := pc; w_health := w_health w; w_watchdog := w_watchdog w; w_dog := w_dog w;
     w_beat := w_beat w; w_engines := o.1; w_failed := o.2 |}.

(** An answer with times and sizes of the machine. *)
Definition answer_ok (w : world) (x : answer) : bool :=
  (w_now w <=? x_now x) &&
  match x_check x with
  | Some (estimate, budget) => (0 <=? estimate) && (estimate <? two64) && (0 <=? budget) && (budget <? two64)
  | None => true
  end.

Definition agent_step (cfg : agent_config) (w : world) (th : thread) (x : answer) : option world :=
  let a := w_agent w in
  let o := (w_engines w, w_failed w) in
  if negb (answer_ok w x) then None
  else match th with
  | TLoop => with_loop w (x_now x) <$> loop_step cfg x a (w_loop w) o
  | THealth =>
      let '(a, pc, o) := health_step cfg x a (w_health w) o in
      Some {| w_now := x_now x; w_agent := a; w_loop := w_loop w; w_health := pc; w_watchdog := w_watchdog w;
              w_dog := w_dog w; w_beat := w_beat w; w_engines := o.1; w_failed := o.2 |}
  | TDog =>
      let '(a, wd, pc, o) := dog_step cfg x a (w_watchdog w) (w_dog w) o in
      Some {| w_now := x_now x; w_agent := a; w_loop := w_loop w; w_health := w_health w; w_watchdog := wd;
              w_dog := pc; w_beat := w_beat w; w_engines := o.1; w_failed := o.2 |}
  | TBeat =>
      let '(a, pc, o) := beat_step x a (w_beat w) o in
      Some {| w_now := x_now x; w_agent := a; w_loop := w_loop w; w_health := w_health w; w_watchdog := w_watchdog w;
              w_dog := w_dog w; w_beat := pc; w_engines := o.1; w_failed := o.2 |}
  | TTimer key =>
      (fun a => {| w_now := x_now x; w_agent := a; w_loop := w_loop w; w_health := w_health w;
                   w_watchdog := w_watchdog w; w_dog := w_dog w; w_beat := w_beat w;
                   w_engines := w_engines w; w_failed := w_failed w |}) <$> fire_timer a (x_now x) key
  end.

Fixpoint agent_run (cfg : agent_config) (w : world) (l : list (thread * answer)) : option world :=
  match l with
  | [] => Some w
  | (th, x) :: l => w' ← agent_step cfg w th x; agent_run cfg w' l
  end.

(** The worlds the agent can reach. *)
Inductive agent_reach (cfg : agent_config) : world -> Prop :=
| reach_start : agent_reach cfg start_world
| reach_step w th x w' : agent_reach cfg w -> agent_step cfg w th x = Some w' -> agent_reach cfg w'.

Lemma agent_run_reach cfg w l w' : agent_reach cfg w -> agent_run cfg w l = Some w' -> agent_reach cfg w'.
Proof.
  revert w; induction l as [|[th x] l IH]; intros w Hw; cbn [agent_run]; [by intros [= <-]|].
  destruct (agent_step cfg w th x) as [w1|] eqn:Hs; [|done]. cbn. apply IH. by eapply reach_step.
Qed.
