(* ===== verification/AgentFacts.v ===== *)
(** * What the node agent guarantees under every interleaving

    One engine per service, the memory budget, and the restart queue, as invariants of
    the steps of [AgentMachine]; and the interleavings that defeat the first. *)

From stdpp Require Import base strings list gmap.
From Stdlib Require Import ZArith Lia Bool.
From S2P Require Import Prelude GoStrings GoFloat AgentEvict Agent AgentMachine.

(** ** Operations that leave processes, starts and reservations alone *)

Record frame (a a' : MetalAgent) : Prop := {
  fr_processes : a_processes a' = a_processes a;
  fr_starting : a_starting a' = a_starting a;
  fr_reserved : a_reservedMemory a' = a_reservedMemory a;
  fr_fresh : (a_fresh a <= a_fresh a')%nat;
}.

Create HintDb agent discriminated.

Lemma frame_refl a : frame a a.
Proof. by split. Qed.

Lemma frame_trans a b c : frame a b -> frame b c -> frame a c.
Proof. intros [] []. split; [congruence|congruence|congruence|lia]. Qed.

#[export] Instance frame_preorder : PreOrder frame.
Proof. split; [exact frame_refl|exact frame_trans]. Qed.

(** Case analysis on an operation whose branches only set other fields. *)
Ltac solve_frame := intros; repeat (case_match; simplify_eq/=); (done || (split; cbn; done || lia)).

Lemma armRestartLocked_frame a now key st t : frame a (armRestartLocked a now key st t).
Proof. unfold armRestartLocked. solve_frame. Qed.

Lemma restartStateLocked_frame a key : frame a (restartStateLocked a key).1.
Proof. unfold restartStateLocked. solve_frame. Qed.

Lemma scheduleRestartLocked_frame a now key t : frame a (scheduleRestartLocked a now key t).
Proof.
  unfold scheduleRestartLocked. pose proof (restartStateLocked_frame a key) as H.
  destruct (restartStateLocked a key) as [a' st]. etrans; [exact H|]. apply armRestartLocked_frame.
Qed.

Lemma queueRestartLocked_frame a now key t : frame a (queueRestartLocked a now key t).
Proof.
  unfold queueRestartLocked. pose proof (restartStateLocked_frame a key) as H.
  destruct (restartStateLocked a key) as [a' st]. etrans; [exact H|]. apply armRestartLocked_frame.
Qed.

Lemma cancelRestartLocked_frame a key : frame a (cancelRestartLocked a key).
Proof. by split. Qed.

Lemma put_restart_frame a key st : frame a (put_restart a key st).
Proof. by split. Qed.

Lemma deferToPendingRestart_frame a key h : frame a (deferToPendingRestart a key h).1.
Proof. unfold deferToPendingRestart. solve_frame. Qed.

Lemma resetRestartBackoffLocked_frame a now key p : frame a (resetRestartBackoffLocked a now key p).
Proof. unfold resetRestartBackoffLocked. solve_frame. Qed.

Lemma runRestart_frame a now key : frame a (runRestart a now key).1.
Proof.
  unfold runRestart. repeat (case_match; simplify_eq/=); try done; apply armRestartLocked_frame.
Qed.

Lemma retryRestart_frame a now key h : frame a (retryRestart a now key h).
Proof.
  unfold retryRestart. repeat (case_match; simplify_eq/=); try done; [apply scheduleRestartLocked_frame|].
  etrans; [|apply scheduleRestartLocked_frame]. by split.
Qed.

Lemma set_evicted_frame a b r e : frame a (set_evicted a b r e).
Proof. by split. Qed.

Lemma set_level_frame a l o : frame a (set_level a l o).
Proof. by split. Qed.

Lemma queueEvictedLocked_frame a now key svc : frame a (queueEvictedLocked a now key svc).1.
Proof.
  unfold queueEvictedLocked. repeat (case_match; simplify_eq/=); try done;
    (etrans; [|apply queueRestartLocked_frame]; by split).
Qed.

Lemma holdQueuedEvictedLocked_frame a key : frame a (holdQueuedEvictedLocked a key).
Proof. unfold holdQueuedEvictedLocked. solve_frame. Qed.

Lemma noteEvictedRestarted_frame a now key : frame a (noteEvictedRestarted a now key).1.
Proof. unfold noteEvictedRestarted. solve_frame. Qed.

Lemma handleMemoryPressure_frame wd a now level stats : frame a (handleMemoryPressure wd a now level stats).1.
Proof. unfold handleMemoryPressure, restartCandidatesLocked. solve_frame. Qed.

Lemma blockEvicted_frame a now key rss : frame a (blockEvicted a now key rss).
Proof. unfold blockEvicted. case_match. by split. Qed.

Lemma fire_timer_frame a now key a' : fire_timer a now key = Some a' -> frame a a'.
Proof.
  unfold fire_timer. destruct (a_restarts a !! key) as [st|]; [|done]. cbn.
  destruct (rb_timer st) as [t|]; [|done]. cbn. case_if; [|done]. intros [= <-]. by split.
Qed.

#[export] Hint Resolve frame_refl armRestartLocked_frame scheduleRestartLocked_frame queueRestartLocked_frame
  cancelRestartLocked_frame put_restart_frame deferToPendingRestart_frame resetRestartBackoffLocked_frame
  runRestart_frame retryRestart_frame set_evicted_frame set_level_frame queueEvictedLocked_frame
  holdQueuedEvictedLocked_frame noteEvictedRestarted_frame handleMemoryPressure_frame blockEvicted_frame
  fire_timer_frame : agent.

(** ** Who holds a key *)

Definition holds_after (k : after_delete) : option string :=
  match k with
  | ThenIdle => None
  | ThenReturn c | ThenFetched c _ => Some (call_key c)
  end.

(** The key whose start the event loop has in flight. *)
Fixpoint loop_holds (pc : loop_pc) : option string :=
  match pc with
  | LIdle _ | LGet _ _ | LEnter _ | LAfter _ _ _ => None
  | LScale c _ held => if held then Some (call_key c) else None
  | LMarkRead _ next | LMark _ _ next => loop_holds next
  | LDelete _ k | LStopping _ _ k => holds_after k
  | LGuarded c | LDecide c _ _ | LDefer c _ | LRequeue c _ | LFetch c _ | LAdmit c | LSpawn c _ | LStore c _ _
  | LRecord c | LNote c | LReturn c | LLeave c => Some (call_key c)
  end.

Definition health_holds (pc : health_pc) : option string :=
  match pc with HStopping key _ _ => Some key | _ => None end.

(** The key the event loop knows to have no tracked process. *)
Definition loop_absent (pc : loop_pc) : option string :=
  match pc with
  | LDecide c None _ | LDefer c None | LFetch c None | LAdmit c | LSpawn c _ | LStore c _ _ => Some (call_key c)
  | LStopping key _ _ => Some key
  | _ => None
  end.

(** The keys of a teardown and of its call agree, a stop that holds no start has no
    process to delete, and a condition is written only on the way to a stop or a
    return. *)
Fixpoint loop_wf (pc : loop_pc) : Prop :=
  match pc with
  | LScale _ exists_ held => exists_ = true -> held = true
  | LMarkRead _ next | LMark _ _ next =>
      match next with LScale _ _ true | LReturn _ => True | _ => False end
  | LDelete key k | LStopping key _ k => match holds_after k with Some key' => key' = key | None => True end
  | _ => True
  end.

Record mutex_inv (P : gmap string ManagedProcess) (S : gset string) (l : loop_pc) (h : health_pc) : Prop := {
  mi_wf : loop_wf l;
  mi_start k : k ∈ S <-> loop_holds l = Some k \/ health_holds h = Some k;
  mi_excl k : loop_holds l = Some k -> health_holds h = Some k -> False;
  mi_absent k : loop_absent l = Some k -> P !! k = None;
  mi_health k : health_holds h = Some k -> P !! k = None;
  mi_stop k p kk : l = LStopping k p kk -> health_holds h = Some k -> False;
}.

Definition not_stopping (l : loop_pc) : Prop := match l with LStopping _ _ _ => False | _ => True end.

(** A step of the event loop that keeps what it holds. *)
Lemma mutex_keep P S l l' h :
  mutex_inv P S l h -> loop_wf l' -> loop_holds l' = loop_holds l -> not_stopping l' ->
  (forall k, loop_absent l' = Some k -> loop_absent l = Some k \/ P !! k = None) ->
  mutex_inv P S l' h.
Proof.
  intros [Hwf Hs He Ha Hh Hst] Hwf' Hl Hn Hab. split; try done.
  - intros k. by rewrite Hl.
  - intros k. rewrite Hl. apply He.
  - intros k Hk. destruct (Hab k Hk) as [?|?]; [by apply Ha|done].
  - intros k p kk ->. done.
Qed.

Lemma deleteProcess_effect a key :
  a_processes (deleteProcess a key).1 = delete key (a_processes a) /\
  a_starting (deleteProcess a key).1 = a_starting a /\
  a_reservedMemory (deleteProcess a key).1 = a_reservedMemory a /\
  a_fresh (deleteProcess a key).1 = a_fresh a /\
  (deleteProcess a key).2 = a_processes a !! key.
Proof.
  unfold deleteProcess. cbn. destruct (a_processes a !! key) as [p|] eqn:Hp; cbn; [done|].
  by rewrite delete_id.
Qed.

(** Fewer processes, by a thread that holds nothing. *)
Lemma mutex_shrink P P' S l h :
  (forall k, P !! k = None -> P' !! k = None) -> mutex_inv P S l h -> mutex_inv P' S l h.
Proof. intros HP [Hwf Hs He Ha Hh Hst]. split; eauto. Qed.

Lemma continue_after_keeps k ok :
  loop_wf (continue_after k ok) /\ loop_holds (continue_after k ok) = holds_after k /\
  not_stopping (continue_after k ok) /\
  (forall key, loop_absent (continue_after k ok) = Some key -> holds_after k = Some key).
Proof. destruct k as [|c|c []], ok; cbn; by repeat split. Qed.

Lemma return_to_keeps c : loop_wf (return_to c) /\ loop_holds (return_to c) = None /\ not_stopping (return_to c) /\
  loop_absent (return_to c) = None.
Proof. unfold return_to. by destruct (c_restart c). Qed.

Definition agent_mutex (a : MetalAgent) (l : loop_pc) (h : health_pc) : Prop :=
  mutex_inv (a_processes a) (a_starting a) l h.

Lemma mutex_frame a a' l l' h :
  frame a a' -> agent_mutex a l h -> loop_wf l' -> loop_holds l' = loop_holds l -> not_stopping l' ->
  (forall k, loop_absent l' = Some k -> loop_absent l = Some k \/ a_processes a !! k = None) ->
  agent_mutex a' l' h.
Proof. intros [Hp Hs _ _]. unfold agent_mutex. rewrite Hp, Hs. apply mutex_keep. Qed.

(** The event loop takes the start of a key. *)
Lemma mutex_enter a c h :
  agent_mutex a (LEnter c) h -> call_key c ∉ a_starting a ->
  agent_mutex (set_starting a ({[call_key c]} ∪ a_starting a)) (LGuarded c) h.
Proof.
  intros [Hwf Hs He Ha Hh Hst] Hn. split; cbn; try done.
  - intros k. rewrite elem_of_union, elem_of_singleton, Hs. cbn. naive_solver.
  - intros k [= <-] Hk. apply Hn, Hs. by right.
Qed.

(** The event loop gives the start of a key back. *)
Lemma mutex_leave a c h :
  agent_mutex a (LLeave c) h -> agent_mutex (set_starting a (a_starting a ∖ {[call_key c]})) (return_to c) h.
Proof.
  intros [Hwf Hs He Ha Hh Hst]. destruct (return_to_keeps c) as (Hwf' & Hl' & Hn & Hab). split; cbn; try done.
  - intros k. rewrite elem_of_difference, elem_of_singleton, Hs, Hl'. cbn. split; [naive_solver|].
    intros [?|Hk]; [done|]. split; [by right|]. intros ->. by eapply He.
  - intros k Hk. by rewrite Hl' in Hk.
  - intros k Hk. by rewrite Hab in Hk.
  - intros k p kk E. by rewrite E in Hn.
Qed.

Lemma mutex_delete a key k ok h :
  agent_mutex a (LDelete key k) h ->
  agent_mutex (deleteProcess a key).1
    (match (deleteProcess a key).2 with None => continue_after k ok | Some p => LStopping key p k end) h.
Proof.
  intros Hm. destruct (deleteProcess_effect a key) as (Hp & Hs & _ & _ & H2). unfold agent_mutex. rewrite Hp, Hs, H2.
  assert (mutex_inv (delete key (a_processes a)) (a_starting a) (LDelete key k) h) as Hm'.
  { eapply mutex_shrink; [|exact Hm]. intros k' Hk'. by rewrite lookup_delete_None; right. }
  destruct (a_processes a !! key) as [p|] eqn:Hkey.
  - destruct Hm' as [Hwf' Hs' He Ha Hh Hst]. split; try done.
    + intros k' [= <-]. apply lookup_delete_eq.
    + intros k' p' kk [= <- <- <-] Hk. destruct Hm as [_ _ _ _ Hh0 _]. rewrite (Hh0 _ Hk) in Hkey. done.
  - destruct (continue_after_keeps k ok) as (? & ? & ? & Hab). eapply mutex_keep; try done.
    intros k' Hk'. right. apply Hab in Hk'. destruct Hm as [Hwf _ _ _ _ _]. cbn in Hwf. rewrite Hk' in Hwf. subst.
    apply lookup_delete_eq.
Qed.

Lemma mutex_stopped a key p k ok h :
  agent_mutex a (LStopping key p k) h -> agent_mutex a (continue_after k ok) h.
Proof.
  intros Hm. destruct (continue_after_keeps k ok) as (? & ? & ? & Hab). eapply mutex_keep; try done.
  intros k' Hk'. left. apply Hab in Hk'. destruct Hm as [Hwf _ _ _ _ _]. cbn in Hwf |- *. rewrite Hk' in Hwf. by subst.
Qed.

(** A started process is stored under the key that the event loop holds. *)
Lemma mutex_store a now c id modelID h :
  agent_mutex a (LStore c id modelID) h -> agent_mutex (storeProcess a now (c_svc c) modelID id) (LRecord c) h.
Proof.
  intros [Hwf Hs He Ha Hh Hst]. split; cbn in *; try done.
  intros k Hk. rewrite lookup_insert_ne; [by apply Hh|]. intros E. apply (He k); [|done]. by rewrite <- E.
Qed.

Lemma reserveMemory_frame hb ov wo a key chk a' :
  reserveMemory hb ov wo a key chk = Ok a' ->
  a_processes a' = a_processes a /\ a_starting a' = a_starting a /\ a_fresh a' = a_fresh a.
Proof. unfold reserveMemory. intros H. repeat (case_match; simplify_eq/=); done. Qed.

Lemma mutex_admission cfg x a c o h :
  agent_mutex a (LAdmit c) h ->
  agent_mutex (admission_step cfg x a c o).1.1 (admission_step cfg x a c o).1.2 h.
Proof.
  intros Hm. unfold admission_step. case_if; [by eapply mutex_keep|].
  destruct (reserveMemory _ _ _ _ _ _) as [a'|e] eqn:Hr; cbn; [|by eapply mutex_keep].
  apply reserveMemory_frame in Hr as (Hp & Hs & _). unfold agent_mutex. cbn. rewrite Hp, Hs.
  eapply mutex_keep; [exact Hm|done|done|done|]. intros k Hk. by left.
Qed.

(** A step that keeps what the event loop holds and touches no process or start. *)
Ltac mutex_keeps := eapply mutex_frame; [|eassumption|done|done|done|naive_solver]; eauto with agent; by split.

Lemma mutex_idle x a h o r :
  agent_mutex a (LIdle []) h -> idle_step x a o = Some r -> agent_mutex r.1.1 r.1.2 h.
Proof.
  intros Hm. unfold idle_step. destruct (x_event x); [| |case_if; [|done]]; intros [= <-]; cbn; mutex_keeps.
Qed.

Lemma mutex_get x a key due h o r :
  agent_mutex a (LGet key due) h -> get_step x a key due o = Some r -> agent_mutex r.1.1 r.1.2 h.
Proof.
  intros Hm Hr. unfold get_step in Hr. repeat case_match; simplify_eq/=; mutex_keeps.
Qed.

Lemma mutex_decide a c existing blocked h o :
  agent_mutex a (LDecide c existing blocked) h ->
  agent_mutex (decide_step a c existing blocked o).1.1 (decide_step a c existing blocked o).1.2 h.
Proof.
  intros Hm. unfold decide_step. repeat case_if; cbn; try mutex_keeps.
Qed.

Lemma mutex_defer a c existing h o :
  agent_mutex a (LDefer c existing) h ->
  agent_mutex (defer_step a c existing o).1.1 (defer_step a c existing o).1.2 h.
Proof.
  intros Hm. unfold defer_step. pose proof (deferToPendingRestart_frame a (call_key c) (sv_hash (c_svc c))) as Hf.
  destruct (deferToPendingRestart _ _ _) as [a' d]. cbn in Hf.
  destruct d, existing as [p|]; try case_if; cbn; (eapply mutex_frame; [exact Hf|exact Hm|done|done|done|]; naive_solver).
Qed.

Lemma mutex_fetch x a c existing h o :
  agent_mutex a (LFetch c existing) h ->
  agent_mutex (fetch_step x a c existing o).1.1 (fetch_step x a c existing o).1.2 h.
Proof. intros Hm. unfold fetch_step. destruct (x_model x), existing; cbn; mutex_keeps. Qed.

Lemma mutex_loop cfg x a l h o r :
  agent_mutex a l h -> loop_step cfg x a l o = Some r -> agent_mutex r.1.1 r.1.2 h.
Proof.
  intros Hm. destruct l; cbn [loop_step]; intros H.
  - destruct due as [|key due]; [by eapply mutex_idle|].
    pose proof (runRestart_frame a (x_now x) key) as Hf. destruct (runRestart _ _ _) as [a' go]. simplify_eq/=.
    destruct go; mutex_keeps.
  - by eapply mutex_get.
  - case_bool_decide; simplify_eq/=; [|by apply mutex_enter].
    destruct (return_to_keeps c) as (? & ? & ? & E). eapply mutex_keep; try done. intros k. by rewrite E.
  - simplify_eq/=. eapply mutex_frame; [apply holdQueuedEvictedLocked_frame|exact Hm|done|done|done|].
    cbn. destruct (a_processes a !! call_key c) eqn:?; naive_solver.
  - simplify_eq. by apply mutex_decide.
  - simplify_eq/=. pose proof (mi_wf _ _ _ _ Hm) as Hwf. cbn in Hwf.
    destruct exists_, held; cbn; try mutex_keeps. by specialize (Hwf eq_refl).
  - simplify_eq/=. pose proof (mi_wf _ _ _ _ Hm) as Hwf. mutex_keeps.
  - simplify_eq/=. pose proof (mi_wf _ _ _ _ Hm) as Hwf. cbn in Hwf.
    destruct l; try done; [destruct held; [|done]|]; (destruct (x_write x); mutex_keeps).
  - simplify_eq. by apply mutex_defer.
  - simplify_eq/=. mutex_keeps.
  - simplify_eq. by apply mutex_fetch.
  - pose proof (mutex_delete a key k (x_write x || negb (bool_decide (is_Some (a_restarts a !! key)))) h Hm) as Hd.
    destruct (deleteProcess a key) as [a' [p|]]; by simplify_eq/=.
  - simplify_eq/=. by eapply mutex_stopped.
  - simplify_eq. by apply mutex_admission.
  - destruct (x_spawn x); simplify_eq/=; mutex_keeps.
  - simplify_eq/=. by eapply mutex_store.
  - case_if; simplify_eq/=; mutex_keeps.
  - pose proof (noteEvictedRestarted_frame a (x_now x) (call_key c)) as Hf.
    destruct (noteEvictedRestarted _ _ _) as [a' b]. simplify_eq/=. destruct b; mutex_keeps.
  - simplify_eq/=. eapply (mutex_keep _ _ _ _ _ Hm); done || naive_solver.
  - simplify_eq/=. by apply mutex_leave.
  - simplify_eq/=. mutex_keeps.
Qed.

(** ** The other threads *)

Lemma tracked_Some a key id p : tracked a key id = Some p -> a_processes a !! key = Some p /\ mp_id p = id.
Proof.
  unfold tracked. destruct (a_processes a !! key) as [q|]; [|done].
  destruct (Nat.eqb_spec (mp_id q) id); [|done]. by intros [= <-].
Qed.

Lemma applyResult_effect a now th key id healthy :
  let a' := (applyResult a now th key id healthy).1 in
  a_starting a' = a_starting a /\ a_reservedMemory a' = a_reservedMemory a /\ (a_fresh a <= a_fresh a')%nat /\
  (a_processes a' = a_processes a \/
   exists p f, a_processes a !! key = Some p /\ a_processes a' = <[key := with_health p healthy f]> (a_processes a)).
Proof.
  unfold applyResult. destruct (tracked a key id) as [p|] eqn:Ht; cbn; [|by auto].
  apply tracked_Some in Ht as [Hp _]. set (f := if healthy then 0 else _).
  set (a1 := set_processes a (<[key := with_health p healthy f]> (a_processes a))).
  assert (frame a1 (if healthy then resetRestartBackoffLocked a1 now key (with_health p healthy f) else a1)) as [E1 E2 E3 E4]
    by (destruct healthy; eauto with agent).
  rewrite E1, E2, E3. split_and!; [done|done|done|]. right. eauto.
Qed.

Lemma restartUnhealthy_effect a key id :
  let r := restartUnhealthy a key id in
  match r.2 with
  | None => r.1 = a
  | Some (p, _) =>
      a_processes a !! key = Some p /\ key ∉ a_starting a /\
      a_processes r.1 = delete key (a_processes a) /\ a_starting r.1 = {[key]} ∪ a_starting a /\
      a_reservedMemory r.1 = a_reservedMemory a /\ (a_fresh a <= a_fresh r.1)%nat
  end.
Proof.
  unfold restartUnhealthy. destruct (tracked a key id) as [p|] eqn:Ht; [|done].
  apply tracked_Some in Ht as [Hp _]. destruct (mp_Healthy p || _) eqn:Hb; [done|].
  apply orb_false_iff in Hb as [_ Hk%bool_decide_eq_false].
  set (a1 := set_starting _ _). pose proof (restartStateLocked_frame a1 key) as [E1 E2 E3 E4].
  destruct (restartStateLocked a1 key) as [a2 st]. cbn in *. by rewrite E1, E2, E3.
Qed.

Lemma restartStopped_effect a now key st_id clean cancelled :
  let a' := restartStopped a now key st_id clean cancelled in
  a_processes a' = a_processes a /\ a_starting a' = a_starting a ∖ {[key]} /\
  a_reservedMemory a' = a_reservedMemory a /\ (a_fresh a <= a_fresh a')%nat.
Proof.
  unfold restartStopped. cbn zeta. set (a1 := set_starting a _).
  assert (forall a2, frame a1 a2 -> a_processes a2 = a_processes a /\ a_starting a2 = a_starting a ∖ {[key]} /\
            a_reservedMemory a2 = a_reservedMemory a /\ (a_fresh a <= a_fresh a2)%nat) as Hf.
  { intros a2 [E1 E2 E3 E4]. by rewrite E1, E2, E3. }
  repeat case_match; apply Hf; try apply frame_refl; try apply scheduleRestartLocked_frame;
    (etrans; [|apply scheduleRestartLocked_frame]; by split).
Qed.

Lemma mutex_health cfg x a l h o :
  agent_mutex a l h -> agent_mutex (health_step cfg x a h o).1.1 l (health_step cfg x a h o).1.2.
Proof.
  intros Hm. destruct h as [|key id|key p st_id]; cbn [health_step].
  - destruct (x_probe x) as [[key id] healthy].
    destruct (applyResult_effect a (x_now x) (healthFailureThreshold (cf_threshold cfg)) key id healthy) as (Hs & _ & _ & Hp).
    destruct (applyResult _ _ _ _ _ _) as [a' r]. cbn in *. unfold agent_mutex. rewrite Hs.
    assert (mutex_inv (a_processes a') (a_starting a) l HIdle) as Hm'.
    { eapply mutex_shrink; [|exact Hm]. intros k Hk. destruct Hp as [->|(q & f & Hq & ->)]; [done|].
      rewrite lookup_insert_ne; [done|]. intros ->. congruence. }
    destruct r; [|done]. by destruct Hm'; split.
  - pose proof (restartUnhealthy_effect a key id) as Hr. destruct (restartUnhealthy a key id) as [a' [[p st]|]]; cbn in *.
    2:{ subst. by destruct Hm; split. }
    destruct Hr as (Hk & Hn & Hp & Hs & _). destruct Hm as [Hwf Hst He Ha Hh Hsp].
    unfold agent_mutex. rewrite Hp, Hs. split; cbn in *; try done.
    + intros k. rewrite elem_of_union, elem_of_singleton, Hst. naive_solver.
    + intros k Hl [= <-]. apply Hn, Hst. by left.
    + intros k Hl. rewrite lookup_delete_None. right. by apply Ha.
    + intros k [= <-]. apply lookup_delete_eq.
    + intros k q kk -> [= <-]. specialize (Ha key eq_refl). congruence.
  - destruct (restartStopped_effect a (x_now x) key st_id (stop_clean (x_stop x)) false) as (Hp & Hs & _).
    destruct Hm as [Hwf Hst He Ha Hh Hsp]. unfold agent_mutex. cbn [fst snd]. rewrite Hp, Hs. split; cbn in *; try done.
    intros k. rewrite elem_of_difference, elem_of_singleton, Hst. split; [naive_solver|].
    intros [Hk|?]; [|done]. split; [by left|]. intros ->. by eapply He.
Qed.

(** The watchdog and the heartbeat only delete processes. *)
Lemma dog_effect cfg x a wd pc o :
  let a' := (dog_step cfg x a wd pc o).1.1.1 in
  a_starting a' = a_starting a /\ a_reservedMemory a' = a_reservedMemory a /\ (a_fresh a <= a_fresh a')%nat /\
  (a_processes a' = a_processes a \/
   exists key, pc = WDelete key /\ a_processes a' = delete key (a_processes a) /\
     (dog_step cfg x a wd pc o).1.2 = match a_processes a !! key with Some p => WStopping key p | None => WIdle end).
Proof.
  destruct pc as [|level stats|h [|key keys]|h [|[key svc] items]|h|h p|key|key p|key]; cbn [dog_step].
  - destruct (sample _ _ _ _) as [wd' r]. cbn. auto.
  - pose proof (handleMemoryPressure_frame (Some (cf_watchdog cfg)) a (x_now x) level stats) as [E1 E2 E3 E4].
    destruct (handleMemoryPressure _ _ _ _ _) as [a' [[r s] k]]. cbn in *. auto.
  - cbn. auto.
  - cbn. destruct (x_write x); cbn; auto.
  - cbn. auto.
  - assert (frame a (match x_verdict x with evictedKeep => a | evictedDrop => forgetEvicted a key
                     | evictedQueue => (queueEvictedLocked a (x_now x) key svc).1 end)) as [E1 E2 E3 E4].
    { destruct (x_verdict x); [apply queueEvictedLocked_frame|done|]. by split. }
    cbn. auto.
  - cbn. auto.
  - destruct (blockEvicted_frame a (x_now x) (process_key p)
                (default 0 (ms_ProcessRSS (pc_stats h) !! managedProcessRSSKey p))) as [E1 E2 E3 E4]. cbn. auto.
  - destruct (deleteProcess_effect a key) as (Hp & Hs & Hr & Hf' & H2).
    destruct (deleteProcess a key) as [a' q]. cbn in *. subst q. rewrite <- Hf'.
    destruct (a_processes a !! key) eqn:E; cbn; split_and!; try done; right; exists key; by rewrite E.
  - cbn. auto.
  - cbn. auto.
Qed.

Lemma beat_effect x a pc o :
  let a' := (beat_step x a pc o).1.1 in
  a_starting a' = a_starting a /\ a_reservedMemory a' = a_reservedMemory a /\ (a_fresh a <= a_fresh a')%nat /\
  (a_processes a' = a_processes a \/
   exists key, pc = BDelete key /\ a_processes a' = delete key (a_processes a) /\
     (beat_step x a pc o).1.2 = match a_processes a !! key with Some p => BStopping key p | None => BIdle end).
Proof.
  destruct pc as [|key|key p]; cbn [beat_step]; [cbn; by auto| |cbn; by auto].
  destruct (deleteProcess_effect a key) as (Hp & Hs & Hr & Hf' & H2).
  destruct (deleteProcess a key) as [a' q]. cbn in *. subst q. rewrite <- Hf'.
  destruct (a_processes a !! key) eqn:E; cbn; split_and!; try done; right; exists key; by rewrite E.
Qed.

Lemma mutex_deletes a a' l h :
  a_starting a' = a_starting a ->
  (a_processes a' = a_processes a \/ exists key, a_processes a' = delete key (a_processes a)) ->
  agent_mutex a l h -> agent_mutex a' l h.
Proof.
  intros Hs Hp Hm. unfold agent_mutex. rewrite Hs. eapply mutex_shrink; [|exact Hm].
  intros k Hk. destruct Hp as [->|[key ->]]; [done|]. rewrite lookup_delete_None. by right.
Qed.

(** ** The steps of the world, by thread *)

(** A world after a step is that of the thread that moved. *)
Lemma agent_step_inv cfg w th x w' :
  agent_step cfg w th x = Some w' ->
  answer_ok w x = true /\ w_now w' = x_now x /\
  match th with
  | TLoop => exists r, loop_step cfg x (w_agent w) (w_loop w) (w_engines w, w_failed w) = Some r /\
               w' = with_loop w (x_now x) r
  | THealth => let r := health_step cfg x (w_agent w) (w_health w) (w_engines w, w_failed w) in
               w_agent w' = r.1.1 /\ w_health w' = r.1.2 /\ (w_engines w', w_failed w') = r.2 /\
               w_loop w' = w_loop w /\ w_dog w' = w_dog w /\ w_beat w' = w_beat w
  | TDog => let r := dog_step cfg x (w_agent w) (w_watchdog w) (w_dog w) (w_engines w, w_failed w) in
            w_agent w' = r.1.1.1 /\ w_dog w' = r.1.2 /\ (w_engines w', w_failed w') = r.2 /\
            w_loop w' = w_loop w /\ w_health w' = w_health w /\ w_beat w' = w_beat w
  | TBeat => let r := beat_step x (w_agent w) (w_beat w) (w_engines w, w_failed w) in
             w_agent w' = r.1.1 /\ w_beat w' = r.1.2 /\ (w_engines w', w_failed w') = r.2 /\
             w_loop w' = w_loop w /\ w_health w' = w_health w /\ w_dog w' = w_dog w
  | TTimer key => fire_timer (w_agent w) (x_now x) key = Some (w_agent w') /\
                  w_engines w' = w_engines w /\ w_failed w' = w_failed w /\ w_loop w' = w_loop w /\
                  w_health w' = w_health w /\ w_dog w' = w_dog w /\ w_beat w' = w_beat w
  end.
Proof.
  unfold agent_step. destruct (answer_ok w x); [|done]. cbn [negb]. intros H. split; [done|]. destruct th.
  - destruct (loop_step _ _ _ _ _) as [[[a pc] o]|]; [|done]. cbn in H. simplify_eq/=. eauto.
  - destruct (health_step _ _ _ _ _) as [[a pc] [e f]]. by simplify_eq/=.
  - destruct (dog_step _ _ _ _ _ _) as [[[a wd] pc] [e f]]. by simplify_eq/=.
  - destruct (beat_step _ _ _ _) as [[a pc] [e f]]. by simplify_eq/=.
  - destruct (fire_timer _ _ _); [|done]. cbn in H. by simplify_eq/=.
Qed.

Definition world_mutex (w : world) : Prop := agent_mutex (w_agent w) (w_loop w) (w_health w).

Lemma world_mutex_step cfg w th x w' : world_mutex w -> agent_step cfg w th x = Some w' -> world_mutex w'.
Proof.
  intros Hm (Hx & _ & H)%agent_step_inv. unfold world_mutex in *. destruct th.
  - destruct H as ([[a pc] o] & Hl & ->). cbn. by apply (mutex_loop _ _ _ _ _ _ _ Hm Hl).
  - destruct H as (-> & -> & _ & -> & _). by apply mutex_health.
  - destruct H as (-> & _ & _ & -> & -> & _).
    destruct (dog_effect cfg x (w_agent w) (w_watchdog w) (w_dog w) (w_engines w, w_failed w)) as (Hs & _ & _ & Hp).
    eapply mutex_deletes; [exact Hs| |exact Hm]. naive_solver.
  - destruct H as (-> & _ & _ & -> & -> & _).
    destruct (beat_effect x (w_agent w) (w_beat w) (w_engines w, w_failed w)) as (Hs & _ & _ & Hp).
    eapply mutex_deletes; [exact Hs| |exact Hm]. naive_solver.
  - destruct H as (Hf%fire_timer_frame & _ & _ & -> & -> & _). destruct Hf as [E1 E2 _ _].
    unfold agent_mutex. by rewrite E1, E2.
Qed.

Lemma reach_mutex cfg w : agent_reach cfg w -> world_mutex w.
Proof.
  induction 1 as [|w th x w' _ IH Hs]; [|by eapply world_mutex_step].
  split; cbn; try done. intros k. rewrite elem_of_empty. naive_solver.
Qed.

(** ** Engines *)

(** The engine a thread starts or stops. *)
Definition loop_engine (pc : loop_pc) : option (nat * string) :=
  match pc with
  | LSpawn c id | LStore c id _ => Some (id, call_key c)
  | LStopping key p _ => Some (mp_id p, key)
  | _ => None
  end.

Definition health_engine (pc : health_pc) : option (nat * string) :=
  match pc with HStopping key p _ => Some (mp_id p, key) | _ => None end.

Definition dog_engine (pc : dog_pc) : option nat := match pc with WStopping _ p => Some (mp_id p) | _ => None end.
Definition beat_engine (pc : beat_pc) : option nat := match pc with BStopping _ p => Some (mp_id p) | _ => None end.

(** An engine the agent tracks, or that its event loop or health monitor handles. *)
Definition guarded (P : gmap string ManagedProcess) (le he : option (nat * string)) (id : nat) (k : string) : Prop :=
  (exists p, P !! k = Some p /\ mp_id p = id) \/ le = Some (id, k) \/ he = Some (id, k).

(** Every engine that runs is accounted for. *)
Definition covered (P : gmap string ManagedProcess) (le he : option (nat * string)) (de be : option nat)
    (E : gmap nat string) (F : gset nat) : Prop :=
  forall id k, E !! id = Some k -> guarded P le he id k \/ de = Some id \/ be = Some id \/ id ∈ F.

Definition world_covered (w : world) : Prop :=
  covered (a_processes (w_agent w)) (loop_engine (w_loop w)) (health_engine (w_health w)) (dog_engine (w_dog w))
    (beat_engine (w_beat w)) (w_engines w) (w_failed w) /\
  (forall id k, w_engines w !! id = Some k -> (id < a_fresh (w_agent w))%nat).

Lemma stop_engine_lookup o p s id k :
  (stop_engine o p s).1 !! id = Some k -> o.1 !! id = Some k /\ (id <> mp_id p \/ id ∈ (stop_engine o p s).2).
Proof.
  destruct s; cbn; rewrite ?lookup_delete_Some; [naive_solver|naive_solver|].
  intros H. split; [done|]. destruct (decide (id = mp_id p)) as [->|?]; [right; set_solver|by left].
Qed.

Lemma stop_engine_failed o p s : o.2 ⊆ (stop_engine o p s).2.
Proof. destruct s; cbn; set_solver. Qed.

Lemma spawn_failed_lookup o i b id k :
  (spawn_failed o i b).1 !! id = Some k -> o.1 !! id = Some k /\ (id <> i \/ id ∈ (spawn_failed o i b).2).
Proof.
  unfold spawn_failed. destruct b; cbn; rewrite ?lookup_delete_Some; [|naive_solver].
  intros H. split; [done|]. destruct (decide (id = i)) as [->|?]; [right; set_solver|by left].
Qed.

Lemma spawn_failed_failed o i b : o.2 ⊆ (spawn_failed o i b).2.
Proof. unfold spawn_failed. destruct b; cbn; set_solver. Qed.

(** The steps of the event loop that handle an engine or its reserved memory. *)
Definition engine_pc (l : loop_pc) : bool :=
  match l with LDelete _ _ | LStopping _ _ _ | LAdmit _ | LSpawn _ _ | LStore _ _ _ | LReturn _ => true | _ => false end.

Record quiet (a : MetalAgent) (o : os) (r : loop_state) : Prop := {
  qu_processes : a_processes r.1.1 = a_processes a;
  qu_fresh : (a_fresh a <= a_fresh r.1.1)%nat;
  qu_os : r.2 = o;
  qu_engine : loop_engine r.1.2 = None;
  qu_reserved : a_reservedMemory r.1.1 = a_reservedMemory a;
}.

Lemma frame_quiet a a' o pc : frame a a' -> loop_engine pc = None -> quiet a o (a', pc, o).
Proof. intros [E1 _ E3 E4] H. by split. Qed.

Lemma loop_quiet cfg x a l o r :
  engine_pc l = false -> loop_wf l -> loop_step cfg x a l o = Some r -> quiet a o r.
Proof.
  intros He Hwf H. destruct l; try done; cbn [loop_step] in H.
  - destruct due as [|key due].
    + unfold idle_step in H. destruct (x_event x); [| |case_if]; simplify_eq; by split.
    + pose proof (runRestart_frame a (x_now x) key) as Hf. destruct (runRestart _ _ _) as [a' go]. simplify_eq.
      apply frame_quiet; [done|]. by destruct go.
  - unfold get_step in H. repeat case_match; simplify_eq; by split.
  - case_bool_decide; simplify_eq; split; cbn; try done; unfold return_to; by case_match.
  - simplify_eq. apply frame_quiet; eauto with agent.
  - simplify_eq. unfold decide_step. repeat case_match; by split.
  - simplify_eq. split; cbn; try done. by repeat case_match.
  - simplify_eq. by split.
  - simplify_eq. cbn in Hwf. destruct l; try done; destruct (x_write x); by split.
  - simplify_eq. unfold defer_step. pose proof (deferToPendingRestart_frame a (call_key c) (sv_hash (c_svc c))) as Hf.
    destruct (deferToPendingRestart _ _ _) as [a' []]; repeat case_match; by apply frame_quiet.
  - simplify_eq. apply frame_quiet; eauto with agent.
  - simplify_eq. unfold fetch_step. repeat case_match; by split.
  - case_if; simplify_eq; by split.
  - pose proof (noteEvictedRestarted_frame a (x_now x) (call_key c)) as Hf.
    destruct (noteEvictedRestarted _ _ _) as [a' []]; simplify_eq; by apply frame_quiet.
  - simplify_eq. split; cbn; try done; unfold return_to; by case_match.
  - simplify_eq. apply frame_quiet; eauto with agent.
Qed.

Lemma continue_after_engine k ok : loop_engine (continue_after k ok) = None.
Proof. destruct k as [|c|c []], ok; done. Qed.

(** A tracked process taken out by a thread that stops it. *)
Lemma guarded_delete P le he key id k :
  guarded P le he id k -> guarded (delete key P) le he id k \/ (exists p, P !! key = Some p /\ mp_id p = id /\ k = key).
Proof.
  intros [(p & Hp & Hid)|H]; [|by left; right]. destruct (decide (k = key)) as [->|Hk]; [right; eauto|].
  left. left. exists p. by rewrite lookup_delete_ne.
Qed.

(** An engine that stopped, or whose stop failed, needs no thread any more. *)
Lemma covered_lost P le he de be le' he' de' be' (E E' : gmap nat string) (F F' : gset nat) (id0 : nat) :
  covered P le he de be E F ->
  (forall id k, E' !! id = Some k -> E !! id = Some k /\ (id <> id0 \/ id ∈ F')) -> F ⊆ F' ->
  (forall id k, id <> id0 -> le = Some (id, k) -> le' = Some (id, k)) ->
  (forall id k, id <> id0 -> he = Some (id, k) -> he' = Some (id, k)) ->
  (forall id, id <> id0 -> de = Some id -> de' = Some id) ->
  (forall id, id <> id0 -> be = Some id -> be' = Some id) ->
  covered P le' he' de' be' E' F'.
Proof.
  intros Hc HE HF Hle Hhe Hde Hbe id k Hid. destruct (HE id k Hid) as [Hold [Hn|?]]; [|by do 3 right].
  destruct (Hc id k Hold) as [[?|[?|?]]|[?|[?|?]]]; [by left; left|left; right; left|left; right; right|right; left|do 2 right; left|do 3 right]; auto.
Qed.

Lemma loop_covered cfg x a l o r h de be :
  agent_mutex a l h -> loop_step cfg x a l o = Some r ->
  covered (a_processes a) (loop_engine l) (health_engine h) de be o.1 o.2 ->
  (forall id k, o.1 !! id = Some k -> (id < a_fresh a)%nat) ->
  covered (a_processes r.1.1) (loop_engine r.1.2) (health_engine h) de be r.2.1 r.2.2 /\
  (forall id k, r.2.1 !! id = Some k -> (id < a_fresh r.1.1)%nat).
Proof.
  intros Hm H Hc Hfr. destruct (engine_pc l) eqn:He.
  2:{ destruct (loop_quiet _ _ _ _ _ _ He (mi_wf _ _ _ _ Hm) H) as [E1 E2 E3 E4 _]. rewrite E1, E3, E4. split.
      - replace None with (loop_engine l); [done|]. destruct l; done.
      - intros id k Hid. specialize (Hfr id k Hid). lia. }
  destruct l; try done; cbn [loop_step] in H.
  - destruct (deleteProcess_effect a key) as (Hp & _ & _ & Hf & H2). destruct (deleteProcess a key) as [a' q]. cbn in *.
    assert (r.1.1 = a' /\ r.2 = o /\ loop_engine r.1.2 = (fun p => (mp_id p, key)) <$> q) as (-> & -> & ->).
    { destruct q; simplify_eq; cbn; [done|]. by rewrite continue_after_engine. }
    rewrite Hp, Hf. subst q. split; [|done]. intros id k' Hid.
    destruct (Hc id k' Hid) as [Hg|?]; [|by right]. left. apply (guarded_delete _ _ _ key) in Hg as [Hg|(p & Hk & <- & ->)].
    + destruct Hg as [?|[?|?]]; [by left|done|by right; right].
    + rewrite Hk. right. by left.
  - simplify_eq. cbn. rewrite continue_after_engine. split.
    + eapply covered_lost; [exact Hc|apply stop_engine_lookup|apply stop_engine_failed|cbn; naive_solver..].
    + intros id k' [Hid _]%stop_engine_lookup. eauto.
  - simplify_eq. unfold admission_step. case_if; [done|].
    destruct (reserveMemory _ _ _ _ _ _) as [a'|e] eqn:Hr; [|done]. cbn.
    apply reserveMemory_frame in Hr as (Hp & _ & Hf). rewrite Hp, Hf. split; intros id k.
    + rewrite lookup_insert_Some. intros [[<- <-]|[_ Hid]]; [by left; right; left|].
      destruct (Hc id k Hid) as [[?|[?|?]]|?]; [by left; left|done|by left; right; right|by right].
    + rewrite lookup_insert_Some. intros [[<- <-]|[_ Hid]]; [lia|]. specialize (Hfr id k Hid). lia.
  - destruct (x_spawn x); simplify_eq; cbn; [done|]. split.
    + eapply covered_lost; [exact Hc|apply spawn_failed_lookup|apply spawn_failed_failed|cbn; naive_solver..].
    + intros i k [Hid _]%spawn_failed_lookup. eauto.
  - simplify_eq. cbn. split; [|done]. intros i k Hid. pose proof (mi_absent _ _ _ _ Hm _ eq_refl) as Hab.
    destruct (Hc i k Hid) as [[(p & Hk & Hpi)|[[= <- <-]|?]]|?].
    + left; left. exists p. rewrite lookup_insert_ne; [done|]. intros E. unfold call_key in Hab. rewrite E in Hab. congruence.
    + left; left. eexists. by rewrite lookup_insert_eq.
    + by left; right; right.
    + by right.
  - by simplify_eq.
Qed.

Lemma guarded_same P P' le he id k :
  (forall key p, P !! key = Some p -> exists p', P' !! key = Some p' /\ mp_id p' = mp_id p) ->
  guarded P le he id k -> guarded P' le he id k.
Proof. intros HP [(p & Hp & <-)|H]; [|by right]. left. by apply HP. Qed.

Lemma health_covered cfg x a le h o de be :
  let r := health_step cfg x a h o in
  covered (a_processes a) le (health_engine h) de be o.1 o.2 ->
  covered (a_processes r.1.1) le (health_engine r.1.2) de be r.2.1 r.2.2 /\
  (a_fresh a <= a_fresh r.1.1)%nat /\ (forall id k, r.2.1 !! id = Some k -> o.1 !! id = Some k).
Proof.
  intros r Hc. subst r. destruct h as [|key id|key p st_id]; cbn [health_step].
  - destruct (x_probe x) as [[key id] healthy].
    destruct (applyResult_effect a (x_now x) (healthFailureThreshold (cf_threshold cfg)) key id healthy) as (_ & _ & Hf & Hp).
    destruct (applyResult _ _ _ _ _ _) as [a' q]. cbn in *. replace (health_engine (if q then _ else _)) with (@None (nat * string)) by (by destruct q).
    split; [|done]. intros i k Hi. destruct (Hc i k Hi) as [Hg|?]; [left|by right].
    eapply guarded_same; [|exact Hg]. intros key' p' Hp'. destruct Hp as [->|(q' & f & Hq & ->)]; [by eauto|].
    destruct (decide (key' = key)) as [->|Hne]; [|rewrite lookup_insert_ne; eauto].
    rewrite lookup_insert_eq. simplify_eq. eauto.
  - pose proof (restartUnhealthy_effect a key id) as Hr. destruct (restartUnhealthy a key id) as [a' [[p st]|]]; cbn in *; [|by subst].
    destruct Hr as (Hk & _ & Hp & _ & _ & Hf). rewrite Hp. split; [|done]. intros i k Hi.
    destruct (Hc i k Hi) as [Hg|?]; [left|by right].
    apply (guarded_delete _ _ _ key) in Hg as [[?|[?|?]]|(q & Hq & <- & ->)]; [by left|by right; left|done|].
    right; right. by simplify_eq.
  - destruct (restartStopped_effect a (x_now x) key st_id (stop_clean (x_stop x)) false) as (Hp & _ & _ & Hf). cbn [fst snd].
    rewrite Hp. split; [|split; [done|]].
    + eapply covered_lost; [exact Hc|apply stop_engine_lookup|apply stop_engine_failed|cbn; naive_solver..].
    + intros i k Hi. by apply stop_engine_lookup in Hi as [? _].
Qed.

(** A process that the watchdog or the heartbeat deletes is one it stops. *)
Lemma covered_taken P le he de be key (E : gmap nat string) (F : gset nat) :
  covered P le he None be E F -> de = mp_id <$> P !! key -> covered (delete key P) le he de be E F.
Proof.
  intros Hc -> i k Hi. destruct (Hc i k Hi) as [Hg|[?|?]]; [|done|by do 2 right].
  apply (guarded_delete _ _ _ key) in Hg as [Hg|(q & Hq & <- & ->)]; [by left|]. right; left. by rewrite Hq.
Qed.

Lemma covered_swap P le he de be E F : covered P le he de be E F -> covered P le he be de E F.
Proof. intros Hc i k Hi. destruct (Hc i k Hi) as [?|[?|[?|?]]]; [by left|by do 2 right; left|by right; left|by do 3 right]. Qed.

Lemma dog_quiet cfg x a wd pc o :
  match pc with WDelete _ | WStopping _ _ => True
  | _ => dog_engine pc = None /\ (dog_step cfg x a wd pc o).2 = o /\ dog_engine (dog_step cfg x a wd pc o).1.2 = None
  end.
Proof.
  destruct pc as [|level stats|h [|key keys]|h [|[key svc] items]|h|h p|key|key p|key]; cbn [dog_step]; try done.
  - destruct (sample _ _ _ _) as [wd' [[? ?]|]]; done.
  - destruct (handleMemoryPressure _ _ _ _ _) as [a' [[r s] k]]. done.
  - cbn. by destruct (evict_target cfg h).
Qed.

Lemma dog_covered cfg x a wd pc le he be o :
  let r := dog_step cfg x a wd pc o in
  covered (a_processes a) le he (dog_engine pc) be o.1 o.2 ->
  covered (a_processes r.1.1.1) le he (dog_engine r.1.2) be r.2.1 r.2.2 /\
  (forall id k, r.2.1 !! id = Some k -> o.1 !! id = Some k).
Proof.
  intros r Hc. pose proof (dog_quiet cfg x a wd pc o) as Hq.
  destruct (dog_effect cfg x a wd pc o) as (_ & _ & _ & [Hp|(key & -> & Hp & Hpc)]); fold r in Hp, Hq.
  - destruct pc as [| | | | | |key|key p|];
      try (destruct Hq as (He & Ho & He'); rewrite Hp, Ho, He'; rewrite He in Hc; done).
    + subst r. cbn in *. destruct (deleteProcess_effect a key) as (Hp' & _ & _ & _ & H2).
      destruct (deleteProcess a key) as [a' q]. cbn in *. subst q. destruct (a_processes a !! key) eqn:E; cbn in *.
      * rewrite Hp' in Hp. apply (f_equal (lookup key)) in Hp. rewrite lookup_delete_eq in Hp. congruence.
      * by rewrite Hp.
    + subst r. cbn in *. split; [|intros id k Hi; by apply stop_engine_lookup in Hi as [? _]].
      eapply covered_lost; [exact Hc|apply stop_engine_lookup|apply stop_engine_failed|cbn; destruct (x_stop x); naive_solver..].
  - fold r in Hpc. assert (r.2 = o) as -> by (subst r; cbn; destruct (deleteProcess a key) as [? []]; done).
    rewrite Hp, Hpc. split; [|done]. apply covered_taken; [exact Hc|]. by destruct (a_processes a !! key).
Qed.

Lemma beat_covered x a pc le he de o :
  let r := beat_step x a pc o in
  covered (a_processes a) le he de (beat_engine pc) o.1 o.2 ->
  covered (a_processes r.1.1) le he de (beat_engine r.1.2) r.2.1 r.2.2 /\
  (forall id k, r.2.1 !! id = Some k -> o.1 !! id = Some k).
Proof.
  intros r Hc. subst r. destruct pc as [|key|key p]; cbn [beat_step].
  - cbn. split; [|done]. by case_bool_decide.
  - destruct (deleteProcess_effect a key) as (Hp & _ & _ & _ & H2). destruct (deleteProcess a key) as [a' q]. cbn in *. subst q.
    assert (covered (delete key (a_processes a)) le he de (mp_id <$> a_processes a !! key) o.1 o.2) as Ht
      by (apply covered_swap, covered_taken; [by apply covered_swap|done]).
    rewrite <- Hp in Ht. destruct (a_processes a !! key); by cbn.
  - cbn. split; [|intros id k Hi; by apply stop_engine_lookup in Hi as [? _]].
    eapply covered_lost; [exact Hc|apply stop_engine_lookup|apply stop_engine_failed|cbn; naive_solver..].
Qed.

Lemma world_covered_step cfg w th x w' :
  world_mutex w -> world_covered w -> agent_step cfg w th x = Some w' -> world_covered w'.
Proof.
  intros Hm [Hc Hf] (Hx & _ & H)%agent_step_inv. unfold world_covered in *. destruct th.
  - destruct H as ([[a pc] o] & Hl & ->). cbn. by apply (loop_covered _ _ _ _ _ _ _ _ _ Hm Hl).
  - destruct H as (-> & -> & Eo & -> & -> & ->).
    destruct (health_covered cfg x _ _ _ (w_engines w, w_failed w) _ _ Hc) as (H1 & H2 & H3). rewrite <- Eo in *. cbn in *.
    split; [done|]. intros id k Hi. specialize (Hf id k (H3 id k Hi)). lia.
  - destruct H as (-> & -> & Eo & -> & -> & ->).
    destruct (dog_effect cfg x (w_agent w) (w_watchdog w) (w_dog w) (w_engines w, w_failed w)) as (_ & _ & H2 & _).
    destruct (dog_covered cfg x _ (w_watchdog w) _ _ _ _ (w_engines w, w_failed w) Hc) as (H1 & H3). rewrite <- Eo in *. cbn in *.
    split; [done|]. intros id k Hi. specialize (Hf id k (H3 id k Hi)). lia.
  - destruct H as (-> & -> & Eo & -> & -> & ->).
    destruct (beat_effect x (w_agent w) (w_beat w) (w_engines w, w_failed w)) as (_ & _ & H2 & _).
    destruct (beat_covered x _ _ _ _ _ (w_engines w, w_failed w) Hc) as (H1 & H3). rewrite <- Eo in *. cbn in *.
    split; [done|]. intros id k Hi. specialize (Hf id k (H3 id k Hi)). lia.
  - destruct H as (Hfr%fire_timer_frame & -> & -> & -> & -> & -> & ->). destruct Hfr as [E1 _ _ E4]. rewrite E1.
    split; [done|]. intros id k Hi. specialize (Hf id k Hi). lia.
Qed.

Lemma reach_covered cfg w : agent_reach cfg w -> world_covered w.
Proof.
  induction 1 as [|w th x w' Hr IH Hs]; [by split|]. eapply world_covered_step; eauto using reach_mutex.
Qed.

(** At most one engine of a key is guarded. *)
Lemma guarded_unique a l h id1 id2 k :
  agent_mutex a l h ->
  guarded (a_processes a) (loop_engine l) (health_engine h) id1 k ->
  guarded (a_processes a) (loop_engine l) (health_engine h) id2 k -> id1 = id2.
Proof.
  intros Hm.
  assert (forall i, loop_engine l = Some (i, k) -> a_processes a !! k = None) as Hl.
  { intros i E. apply (mi_absent _ _ _ _ Hm). destruct l; simplify_eq/=; done. }
  assert (forall i, health_engine h = Some (i, k) -> health_holds h = Some k) as Hh.
  { intros i E. destruct h; simplify_eq/=; done. }
  assert (forall i j, loop_engine l = Some (i, k) -> health_engine h = Some (j, k) -> False) as Hx.
  { intros i j E Hj%Hh. destruct l; simplify_eq/=;
      [by eapply (mi_stop _ _ _ _ Hm)|by eapply (mi_excl _ _ _ _ Hm)|by eapply (mi_excl _ _ _ _ Hm)]. }
  assert (forall i, health_engine h = Some (i, k) -> a_processes a !! k = None) as Hp.
  { intros i Hi%Hh. by apply (mi_health _ _ _ _ Hm). }
  intros [(p & Hp1 & <-)|[H1|H1]] [(q & Hq & <-)|[H2|H2]]; try (simplify_eq; done); exfalso;
    try (apply Hl in H1; congruence); try (apply Hl in H2; congruence);
    try (apply Hp in H1; congruence); try (apply Hp in H2; congruence); eauto.
Qed.
