(* ===== verification/AgentRaces.v ===== *)
(** * The node agent: one engine per service, and the runs that defeat it

    That there is one engine per service, and runs of [AgentMachine], evaluated step by
    step, in which there are two: an eviction that meets the restart of the same
    service for a changed specification.  Another run is a restart that finds its old
    engine slow to stop. *)

From stdpp Require Import base strings list gmap.
From Stdlib Require Import ZArith Lia Bool.
From S2P Require Import Prelude GoStrings GoFloat AgentEvict Agent AgentMachine AgentFacts.

(** ** Answers *)

(** Available memory out of 100, and the memory of the services a and b. *)
Definition sampled (available : Z) : readings :=
  {| rd_total := Some 100; rd_available := Some available; rd_wired := Some 0;
     rd_processes := [("a", Some 40); ("b", Some 30)] |}.

(** Everything succeeds, apart from how an engine stops. *)
Definition answer_of (e : watch_event) (stop : stop_answer) (available : Z) : answer :=
  {| x_now := 1; x_event := e; x_get := GetError; x_model := ModelFound; x_allowed := true;
     x_check := Some (10, 50); x_spawn := SpawnOk EmptyString; x_stop := stop; x_write := true; x_conflict := false;
     x_verdict := evictedQueue; x_readings := sampled available; x_probe := (EmptyString, 0%nat, true);
     x_gone := EmptyString |}.

Definition calm_answer : answer := answer_of Woken StopOk 90.
Definition on_event (e : watch_event) : answer := answer_of e StopOk 90.
Definition on_sample (available : Z) : answer := answer_of Woken StopOk available.
Definition on_kill : answer := answer_of Woken StopKilled 90.

Definition demo_config : agent_config :=
  {| cf_hostBudget := 80; cf_allowOverride := false; cf_warnOnly := false; cf_evictionEnabled := true; cf_threshold := 3;
     cf_watchdog := {| wc_WarningThreshold := float_lit 1 5; wc_CriticalThreshold := float_lit 1 10 |} |}.

(** A service of the namespace ns with a specification. *)
Definition demo_service (name hash : string) : Service :=
  {| sv_Namespace := "ns"; sv_Name := name; sv_Suspend := false; sv_Replicas := Some 1; sv_Priority := "normal";
     sv_EvictionProtection := None; sv_Deleting := false; sv_hash := hash |}.

Definition steps (n : nat) (th : thread) : list (thread * answer) := replicate n (th, calm_answer).

(** An event and the steps of the event loop that start the engine. *)
Definition start_service (name hash : string) : list (thread * answer) :=
  (TLoop, on_event (Upserted (demo_service name hash))) :: steps 12 TLoop.

(** ** Eviction and restart *)

(** Both services run; memory is critical and the watchdog chooses a, whose new
    specification the event loop has just begun to apply; the watchdog takes the old
    engine away to stop it, and the event loop, which finds none to stop, starts the
    new one. *)
Definition race_run : list (thread * answer) :=
  start_service "a" "v1" ++ start_service "b" "v1" ++
  [(TDog, on_sample 5)] ++ steps 6 TDog ++
  [(TLoop, on_event (Upserted (demo_service "a" "v2")))] ++ steps 4 TLoop ++
  steps 2 TDog ++
  steps 3 TLoop.

(** The watchdog's stop returns, the engine starts, memory is plentiful again. *)
Definition race_end : list (thread * answer) :=
  [(TDog, calm_answer)] ++ steps 6 TLoop ++
  replicate 3 (TDog, on_sample 90) ++ steps 7 TDog ++
  [(TLoop, on_event Woken)] ++ steps 1 TLoop.

Definition race_world : world := default start_world (agent_run demo_config start_world race_run).
Definition race_over : world := default start_world (agent_run demo_config race_world race_end).

Lemma race_run_reach : agent_run demo_config start_world race_run = Some race_world.
Proof. vm_compute. reflexivity. Qed.

Lemma race_end_reach : agent_run demo_config race_world race_end = Some race_over.
Proof. vm_compute. reflexivity. Qed.

Lemma race_world_reach : agent_reach demo_config race_world.
Proof. eapply agent_run_reach; [apply reach_start|exact race_run_reach]. Qed.

(** C19: in every state the agent can reach, under every interleaving of its threads, of
    two engines that run for one service at least one is being stopped by the watchdog
    or the heartbeat, or is one whose stop failed: the event loop and the health
    monitor never start an engine next to one that they have not stopped. *)
Theorem one_engine_per_service (cfg : agent_config) (w : world) (id1 id2 : nat) (k : string) :
  agent_reach cfg w -> w_engines w !! id1 = Some k -> w_engines w !! id2 = Some k -> id1 <> id2 ->
  exists id, (id = id1 \/ id = id2) /\
    (dog_engine (w_dog w) = Some id \/ beat_engine (w_beat w) = Some id \/ id ∈ w_failed w).
Proof.
  intros Hr H1 H2 Hne. pose proof (reach_mutex _ _ Hr) as Hm. destruct (reach_covered _ _ Hr) as [Hc _].
  destruct (Hc _ _ H1) as [Hg1|?]; [|by eauto]. destruct (Hc _ _ H2) as [Hg2|?]; [|by eauto].
  by destruct Hne; eapply guarded_unique.
Qed.

Lemma one_engine_per_service_witness :
  (w_engines race_world !! 0%nat = Some "ns/a" /\ w_engines race_world !! 2%nat = Some "ns/a") /\
  exists id, (id = 0%nat \/ id = 2%nat) /\
    (dog_engine (w_dog race_world) = Some id \/ beat_engine (w_beat race_world) = Some id \/ id ∈ w_failed race_world).
Proof.
  split; [vm_compute; split; reflexivity|].
  apply (one_engine_per_service demo_config race_world 0 2 "ns/a").
  - exact race_world_reach.
  - vm_compute. reflexivity.
  - vm_compute. reflexivity.
  - discriminate.
Defined.

(** When the watchdog evicts a service whose changed specification the event loop is
    applying, two engines of the service run at once although no stop failed, and the
    new one starts although the service is blocked.  In the end the service runs, is
    queued for a restart that never happens, and every later report of Normal memory
    keeps its memory reserved as long as it runs. *)
Lemma eviction_races_respawn :
  agent_reach demo_config race_world /\
  w_engines race_world !! 0%nat = Some "ns/a" /\ w_engines race_world !! 2%nat = Some "ns/a" /\
  w_failed race_world = ∅ /\ is_Some (a_pressureBlocked (w_agent race_world) !! "ns/a") /\
  agent_reach demo_config race_over /\
  w_loop race_over = LIdle [] /\ w_dog race_over = WIdle /\
  is_Some (a_processes (w_agent race_over) !! "ns/a") /\ dueRestarts (w_agent race_over) (100 * hour) = [] /\
  (forall wd now stats, a_pressureRestarting (restartCandidatesLocked wd (w_agent race_over) now stats).1 !! "ns/a"
     = Some {| es_rss := 40; es_notBefore := 0 |}).
Proof.
  split; [apply race_world_reach|]. split_and!; try (vm_compute; reflexivity).
  - vm_compute. by eexists.
  - eapply agent_run_reach; [apply race_world_reach|exact race_end_reach].
  - vm_compute. by eexists.
Qed.

(** ** A slow stop *)

Definition killed_run : list (thread * answer) :=
  start_service "a" "v1" ++ [(TLoop, on_event (Upserted (demo_service "a" "v2")))] ++ steps 6 TLoop ++
  [(TLoop, on_kill)] ++ steps 2 TLoop.

Definition killed_world : world := default start_world (agent_run demo_config start_world killed_run).

Lemma killed_run_reach : agent_run demo_config start_world killed_run = Some killed_world.
Proof. vm_compute. reflexivity. Qed.

(** When a changed specification is applied and the old engine has to be killed, the
    new engine is not started: the agent is idle with no process, no restart and no
    block for a service that is to run. *)
Lemma killed_stop_ends_respawn :
  agent_reach demo_config killed_world /\
  w_loop killed_world = LIdle [] /\ a_processes (w_agent killed_world) = ∅ /\
  a_restarts (w_agent killed_world) = ∅ /\ a_pressureBlocked (w_agent killed_world) = ∅ /\
  w_engines killed_world = ∅ /\ w_failed killed_world = ∅.
Proof.
  split; [eapply agent_run_reach; [apply reach_start|exact killed_run_reach]|].
  by vm_compute.
Qed.
