(* ===== verification/AgentBudget.v ===== *)
(** * The node agent: memory admission

    The memory admitted for the engines that run and the starts in flight stays within
    the budget of the host, under every interleaving. *)

From stdpp Require Import base strings list gmap.
From Stdlib Require Import ZArith Lia Bool.
From S2P Require Import Prelude GoStrings GoFloat AgentEvict Agent AgentMachine AgentFacts AgentRaces.

(** ** The sum of what is committed *)

Definition admitted (_ : string) (p : ManagedProcess) : Z := mp_AdmittedBytes p.
Definition reserved (_ : string) (b : Z) : Z := b.

Definition committed (a : MetalAgent) : Z := msum admitted (a_processes a) + msum reserved (a_reservedMemory a).

Definition list_sum (f : string -> Z) (l : list string) : Z := foldr (fun k acc => f k + acc) 0 l.

Lemma list_sum_cons f k l : list_sum f (k :: l) = f k + list_sum f l.
Proof. done. Qed.

Lemma list_sum_ext f g l : (forall k, k ∈ l -> f k = g k) -> list_sum f l = list_sum g l.
Proof.
  induction l as [|k l IH]; intros H; [done|]. rewrite !list_sum_cons, (H k) by left.
  rewrite IH; [done|]. intros k' Hk'. apply H. by right.
Qed.

Lemma list_sum_add f g l : list_sum (fun k => f k + g k) l = list_sum f l + list_sum g l.
Proof. induction l as [|k l IH]; [done|]. rewrite !list_sum_cons, IH. lia. Qed.

(** A sum over a map, by any list that has its keys once. *)
Lemma list_sum_map {A} (f : string -> A -> Z) (l : list string) : forall m : gmap string A,
  NoDup l -> (forall k, is_Some (m !! k) -> k ∈ l) ->
  list_sum (fun k => default 0 (f k <$> m !! k)) l = msum f m.
Proof.
  induction l as [|k l IH]; intros m Hnd Hdom.
  - symmetry. apply msum_zero. intros k x Hk. assert (k ∈ @nil string) as ?%elem_of_nil by (apply Hdom; eauto). done.
  - apply NoDup_cons in Hnd as [Hk Hnd]. rewrite list_sum_cons.
    assert (list_sum (fun k => default 0 (f k <$> m !! k)) l = msum f (delete k m)) as ->.
    { rewrite <- (IH (delete k m)); [|done|].
      - apply list_sum_ext. intros k' Hk'. rewrite lookup_delete_ne; [done|]. by intros ->.
      - intros k' [x Hx]. apply lookup_delete_Some in Hx as [Hne Hx].
        assert (k' ∈ k :: l) as [->|?]%elem_of_cons by (apply Hdom; eauto); done. }
    destruct (m !! k) as [x|] eqn:Hx; cbn; [by rewrite (msum_delete _ _ _ _ Hx)|]. by rewrite delete_id.
Qed.

(** Wrapping at each addition is wrapping once. *)
Lemma wrapped_sum f l : foldr (fun k acc => uwrap64 (uwrap64 (f k) + acc)) 0 l = uwrap64 (list_sum f l).
Proof.
  induction l as [|k l IH]; [done|]. cbn [foldr]. rewrite IH, list_sum_cons. unfold uwrap64.
  by rewrite <- Zplus_mod.
Qed.

Lemma committedMemoryLocked_exact a key :
  a_processes a !! key = None -> a_reservedMemory a !! key = None -> 0 <= committed a < two64 ->
  committedMemoryLocked a key = committed a.
Proof.
  intros Hp Hr Hc. unfold committedMemoryLocked, committed_of.
  rewrite (wrapped_sum (fun k => default 0 (mp_AdmittedBytes <$> a_processes a !! k) + default 0 (a_reservedMemory a !! k))).
  assert (forall k, is_Some (a_processes a !! k) \/ is_Some (a_reservedMemory a !! k) ->
            k ∈ elements (memory_keys a ∖ {[key]})) as Hin.
  { intros k Hk. rewrite elem_of_elements, elem_of_difference, elem_of_singleton. unfold memory_keys.
    rewrite elem_of_union, !elem_of_dom. split; [done|]. intros ->. destruct Hk as [[? ?]|[? ?]]; congruence. }
  rewrite list_sum_add.
  rewrite (list_sum_ext (fun k => default 0 (a_reservedMemory a !! k)) (fun k => default 0 (reserved k <$> a_reservedMemory a !! k)))
    by (intros k _; by destruct (a_reservedMemory a !! k)).
  rewrite (list_sum_ext (fun k => default 0 (mp_AdmittedBytes <$> a_processes a !! k)) (fun k => default 0 (admitted k <$> a_processes a !! k)))
    by (intros k _; by destruct (a_processes a !! k)).
  pose proof (list_sum_map admitted _ (a_processes a) (NoDup_elements (memory_keys a ∖ {[key]})) (fun k H => Hin k (or_introl H))) as E1.
  pose proof (list_sum_map reserved _ (a_reservedMemory a) (NoDup_elements (memory_keys a ∖ {[key]})) (fun k H => Hin k (or_intror H))) as E2.
  rewrite E1, E2. apply Z.mod_small. exact Hc.
Qed.

(** ** The invariant *)

Lemma msum_pos {A} (f : string -> A -> Z) (m : gmap string A) :
  (forall k x, m !! k = Some x -> 0 <= f k x) -> 0 <= msum f m.
Proof.
  induction m as [|k x m Hk IH] using map_ind; intros Hf; [by rewrite msum_empty|].
  rewrite msum_insert by done. specialize (Hf k x) as Hkx. rewrite lookup_insert_eq in Hkx. specialize (Hkx eq_refl).
  assert (0 <= msum f m); [|lia]. apply IH. intros k' x' Hk'. apply Hf. rewrite lookup_insert_ne by congruence. done.
Qed.

(** The key whose start may hold a reservation. *)
Definition loop_reserves (pc : loop_pc) : option string :=
  match pc with LSpawn c _ | LStore c _ _ | LReturn c => Some (call_key c) | _ => None end.

Record budget_inv (hostBudget : Z) (P : gmap string ManagedProcess) (R : gmap string Z) (l : loop_pc) : Prop := {
  bu_P k p : P !! k = Some p -> 0 <= mp_AdmittedBytes p;
  bu_R k b : R !! k = Some b -> 0 <= b /\ loop_reserves l = Some k;
  bu_sum : msum admitted P + msum reserved R <= hostBudget;
}.

(** Fewer processes, or the same with other marks. *)
Lemma budget_delete hb P R l key : budget_inv hb P R l -> budget_inv hb (delete key P) R l.
Proof.
  intros [HP HR Hs]. destruct (P !! key) as [p|] eqn:Hk; [|by rewrite delete_id].
  split; [|done|].
  - intros k q [_ Hq]%lookup_delete_Some. eauto.
  - rewrite (msum_delete admitted P key p Hk) in Hs. specialize (HP key p Hk). unfold admitted at 1 in Hs. lia.
Qed.

Lemma budget_mark hb P R l key p healthy f :
  P !! key = Some p -> budget_inv hb P R l -> budget_inv hb (<[key := with_health p healthy f]> P) R l.
Proof.
  intros Hk [HP HR Hs]. split; [|done|].
  - intros k q. rewrite lookup_insert_Some. intros [[<- <-]|[_ Hq]]; [exact (HP key p Hk)|eauto].
  - rewrite <- insert_delete_eq, msum_insert by apply lookup_delete_eq.
    rewrite (msum_delete admitted P key p Hk) in Hs. exact Hs.
Qed.

(** No reservation outlives its start. *)
Lemma budget_no_reserve hb P R l : budget_inv hb P R l -> loop_reserves l = None -> R = ∅.
Proof.
  intros [_ HR _] Hl. apply map_eq. intros k. rewrite lookup_empty. destruct (R !! k) as [b|] eqn:Hk; [|done].
  apply HR in Hk as [_ Hk]. congruence.
Qed.

Lemma budget_pc hb P R l l' : budget_inv hb P R l -> loop_reserves l = None -> budget_inv hb P R l'.
Proof.
  intros Hb Hl. pose proof (budget_no_reserve _ _ _ _ Hb Hl) as ->. destruct Hb as [HP HR Hs]. by split.
Qed.

Section Budget.
Context (cfg : agent_config) (Hoverride : cf_allowOverride cfg = false) (Hbudget : 0 <= cf_hostBudget cfg < two63).

Definition agent_budget (a : MetalAgent) (l : loop_pc) : Prop :=
  budget_inv (cf_hostBudget cfg) (a_processes a) (a_reservedMemory a) l.

(** What is admitted fits next to what is committed. *)
Lemma budget_reserve x a c h o :
  agent_mutex a (LAdmit c) h -> agent_budget a (LAdmit c) ->
  match x_check x with Some (estimate, _) => 0 <= estimate | None => True end ->
  agent_budget (admission_step cfg x a c o).1.1 (admission_step cfg x a c o).1.2.
Proof.
  intros Hm Hb Hx. pose proof (mi_absent _ _ _ _ Hm _ eq_refl) as Hab.
  pose proof (budget_no_reserve _ _ _ _ Hb eq_refl) as HR.
  unfold admission_step. case_if; [by eapply budget_pc|].
  unfold reserveMemory. rewrite Hoverride. destruct (x_check x) as [[estimate modelBudget]|].
  2:{ destruct (cf_warnOnly cfg); by eapply budget_pc. }
  set (budget := if _ && negb false then _ else _). assert (budget <= cf_hostBudget cfg) as Hle.
  { subst budget. rewrite andb_true_r. destruct (Z.ltb_spec (cf_hostBudget cfg) modelBudget); lia. }
  destruct (Z.ltb_spec budget estimate) as [?|Hfit]; [by eapply budget_pc|].
  assert (0 <= committed a <= cf_hostBudget cfg) as Hc.
  { destruct Hb as [HP HRb Hs]. split; [|exact Hs]. unfold committed.
    pose proof (msum_pos admitted _ HP). pose proof (msum_pos reserved _ (fun k b E => proj1 (HRb k b E))). lia. }
  rewrite committedMemoryLocked_exact; [|done|by rewrite HR|unfold two63, two64 in *; lia].
  assert (uwrap64 (committed a + estimate) = committed a + estimate) as ->
    by (apply Z.mod_small; unfold two63, two64 in *; lia).
  rewrite Z.max_l by lia. destruct (Z.ltb_spec (cf_hostBudget cfg) (committed a + estimate)) as [?|Hsum]; [by eapply budget_pc|].
  unfold committed in Hsum. destruct Hb as [HP _ _]. unfold agent_budget. cbn. rewrite HR in *. rewrite msum_empty in Hsum. split; cbn.
  - exact HP.
  - intros k b [[<- <-]|[_ E]]%lookup_insert_Some; [done|]. by rewrite lookup_empty in E.
  - rewrite msum_insert, msum_empty by apply lookup_empty. unfold reserved. lia.
Qed.

(** The reservation of a start moves to its process. *)
Lemma budget_store now a c id modelID h :
  agent_mutex a (LStore c id modelID) h -> agent_budget a (LStore c id modelID) ->
  agent_budget (storeProcess a now (c_svc c) modelID id) (LRecord c).
Proof.
  intros Hm [HP HR Hs]. pose proof (mi_absent _ _ _ _ Hm _ eq_refl) as Hab. change (call_key c) with (key_of (c_svc c)) in Hab.
  unfold agent_budget, storeProcess. cbn.
  assert (delete (key_of (c_svc c)) (a_reservedMemory a) = ∅) as HE.
  { apply map_eq. intros k. rewrite lookup_empty. apply lookup_delete_None.
    destruct (a_reservedMemory a !! k) as [b|] eqn:E; [|by right]. left. apply HR in E as [_ [= E]]. exact E. }
  assert (msum reserved (a_reservedMemory a) = default 0 (a_reservedMemory a !! key_of (c_svc c))) as Hr.
  { destruct (a_reservedMemory a !! key_of (c_svc c)) as [b|] eqn:E.
    - rewrite (msum_delete _ _ _ _ E), HE, msum_empty. unfold reserved. cbn. lia.
    - rewrite delete_id in HE by done. by rewrite HE, msum_empty. }
  split.
  - intros k p [[<- <-]|[_ E]]%lookup_insert_Some; [cbn|eauto].
    destruct (a_reservedMemory a !! key_of (c_svc c)) as [b|] eqn:E; [|done]. by apply HR in E as [? _].
  - intros k b E. by rewrite HE, lookup_empty in E.
  - rewrite HE, msum_empty, msum_insert by done. unfold admitted at 1. cbn. lia.
Qed.

Lemma budget_loop x a l h o r :
  agent_mutex a l h -> agent_budget a l ->
  match x_check x with Some (estimate, _) => 0 <= estimate | None => True end ->
  loop_step cfg x a l o = Some r -> agent_budget r.1.1 r.1.2.
Proof.
  intros Hm Hb Hx H. destruct (engine_pc l) eqn:He.
  2:{ destruct (loop_quiet _ _ _ _ _ _ He (mi_wf _ _ _ _ Hm) H) as [E1 _ _ _ E5]. unfold agent_budget. rewrite E1, E5.
      eapply budget_pc; [exact Hb|]. by destruct l. }
  destruct l; try done; cbn [loop_step] in H.
  - destruct (deleteProcess_effect a key) as (Hp & _ & Hr & _ & _). destruct (deleteProcess a key) as [a' q]. cbn in *.
    assert (r.1.1 = a') as -> by (destruct q; by simplify_eq). unfold agent_budget. rewrite Hp, Hr.
    eapply budget_pc; [by apply budget_delete|done].
  - simplify_eq. by eapply budget_pc.
  - simplify_eq. by eapply budget_reserve.
  - destruct (x_spawn x); simplify_eq; cbn; destruct Hb as [HP HR Hs]; by split.
  - simplify_eq. by eapply budget_store.
  - simplify_eq. destruct Hb as [HP HR Hs]. unfold agent_budget, releaseAdmission. cbn.
    destruct (a_reservedMemory a !! call_key c) as [b|] eqn:E.
    + rewrite (msum_delete _ _ _ _ E) in Hs. pose proof (HR _ _ E) as [Hpos _]. unfold reserved at 1 in Hs. split; [done| |lia].
      intros k b' [Hne E']%lookup_delete_Some. apply HR in E' as [_ [= E']]. congruence.
    + rewrite delete_id by done. split; [done| |done]. intros k b E'. pose proof (HR k b E') as [_ [= Hk]]. congruence.
Qed.

Lemma budget_step w th x w' :
  world_mutex w -> agent_budget (w_agent w) (w_loop w) -> agent_step cfg w th x = Some w' ->
  agent_budget (w_agent w') (w_loop w').
Proof.
  intros Hm Hb (Hx & _ & H)%agent_step_inv.
  assert (match x_check x with Some (estimate, _) => 0 <= estimate | None => True end) as Hx'.
  { unfold answer_ok in Hx. destruct (x_check x) as [[? ?]|]; [|done]. to_prop. lia. }
  destruct th.
  - destruct H as ([[a pc] o] & Hl & ->). cbn. by apply (budget_loop _ _ _ _ _ _ Hm Hb Hx' Hl).
  - destruct H as (-> & _ & _ & -> & _). destruct (w_health w) as [|key id|key p st_id]; cbn [health_step].
    + destruct (x_probe x) as [[key id] healthy].
      destruct (applyResult_effect (w_agent w) (x_now x) (healthFailureThreshold (cf_threshold cfg)) key id healthy) as (_ & Hr & _ & Hp).
      destruct (applyResult _ _ _ _ _ _) as [a' q]. cbn in *. unfold agent_budget. rewrite Hr.
      destruct Hp as [->|(p & f & Hk & ->)]; [done|]. by apply budget_mark.
    + pose proof (restartUnhealthy_effect (w_agent w) key id) as Hr.
      destruct (restartUnhealthy (w_agent w) key id) as [a' [[p st]|]]; cbn in *; [|by subst].
      destruct Hr as (_ & _ & Hp & _ & Hr & _). unfold agent_budget. rewrite Hp, Hr. by apply budget_delete.
    + destruct (restartStopped_effect (w_agent w) (x_now x) key st_id (stop_clean (x_stop x)) false) as (Hp & _ & Hr & _).
      cbn [fst]. unfold agent_budget. by rewrite Hp, Hr.
  - destruct H as (-> & _ & _ & -> & _).
    destruct (dog_effect cfg x (w_agent w) (w_watchdog w) (w_dog w) (w_engines w, w_failed w)) as (_ & Hr & _ & Hp).
    unfold agent_budget. rewrite Hr. destruct Hp as [->|(key & _ & -> & _)]; [done|]. by apply budget_delete.
  - destruct H as (-> & _ & _ & -> & _).
    destruct (beat_effect x (w_agent w) (w_beat w) (w_engines w, w_failed w)) as (_ & Hr & _ & Hp).
    unfold agent_budget. rewrite Hr. destruct Hp as [->|(key & _ & -> & _)]; [done|]. by apply budget_delete.
  - destruct H as ([E1 _ E3 _]%fire_timer_frame & _ & _ & -> & _). unfold agent_budget. by rewrite E1, E3.
Qed.

Lemma reach_budget w : agent_reach cfg w -> agent_budget (w_agent w) (w_loop w).
Proof.
  induction 1 as [|w th x w' Hr IH Hs]; [|eapply budget_step; eauto using reach_mutex].
  split; cbn; [by intros k p ?%lookup_empty_Some|by intros k p ?%lookup_empty_Some|].
  rewrite !msum_empty. lia.
Qed.

End Budget.


