(* ===== verification/AgentRestarts.v ===== *)
(** * The node agent: the restart queue

    A service that is owed a restart is never forgotten: its wake-up is armed, or the
    event loop is about to look at it. *)

From stdpp Require Import base strings list gmap.
From Stdlib Require Import ZArith Lia Bool.
From S2P Require Import Prelude GoStrings GoFloat AgentEvict Agent AgentMachine AgentFacts AgentRaces.

(** The due restarts the event loop still has before it. *)
Definition due_after (k : after_delete) : list string :=
  match k with
  | ThenIdle => []
  | ThenReturn c | ThenFetched c _ => c_due c
  end.

Fixpoint loop_due (pc : loop_pc) : list string :=
  match pc with
  | LIdle due | LGet _ due | LAfter _ _ due => due
  | LMarkRead _ next | LMark _ _ next => loop_due next
  | LDelete _ k | LStopping _ _ k => due_after k
  | LEnter c | LScale c _ _ | LGuarded c | LDecide c _ _ | LDefer c _ | LRequeue c _ | LFetch c _ | LAdmit c | LSpawn c _
  | LStore c _ _ | LRecord c | LNote c | LReturn c | LLeave c => c_due c
  end.

(** What a restart state owes: a timer that fires when it is due, or, once it is due, a
    wake-up of the event loop or a place in its list. *)
Definition owed_ok (now : Z) (wake : bool) (due : list string) (key : string) (st : restartBackoff) : Prop :=
  rb_pending st = true ->
  (exists t, rb_timer st = Some t /\ rb_nextAt st <= t) \/ (rb_nextAt st <= now /\ (wake = true \/ key ∈ due)).

Definition queue_ok (a : MetalAgent) (now : Z) (due : list string) : Prop :=
  forall key st, a_restarts a !! key = Some st -> owed_ok now (a_wake a) due key st.

Create HintDb queue discriminated.

Lemma owed_later now now' wake due key st :
  now <= now' -> owed_ok now wake due key st -> owed_ok now' wake due key st.
Proof. intros Hn H Hp. destruct (H Hp) as [?|[? ?]]; [by left|right; split; [lia|done]]. Qed.

Lemma owed_wake now wake wake' due key st :
  (wake = true -> wake' = true) -> owed_ok now wake due key st -> owed_ok now wake' due key st.
Proof. intros Hw H Hp. destruct (H Hp) as [?|[? [?|?]]]; auto. Qed.

Lemma queue_later a now now' due : now <= now' -> queue_ok a now due -> queue_ok a now' due.
Proof. intros Hn H key st Hk. eapply owed_later; eauto. Qed.

(** Operations on other fields. *)
Lemma queue_same a a' now due :
  a_restarts a' = a_restarts a -> a_wake a' = a_wake a -> queue_ok a now due -> queue_ok a' now due.
Proof. intros E1 E2 H. unfold queue_ok. by rewrite E1, E2. Qed.

Lemma put_Some a key st k s :
  a_restarts (put_restart a key st) !! k = Some s -> (key = k /\ st = s) \/ (key <> k /\ a_restarts a !! k = Some s).
Proof. apply lookup_insert_Some. Qed.

Lemma queue_put a now due key st :
  queue_ok a now due -> owed_ok now (a_wake a) due key st -> queue_ok (put_restart a key st) now due.
Proof. intros H Hst k s [[<- <-]|[_ Hs]]%put_Some; [done|]. by apply H. Qed.

Lemma queue_cancel a now due key : queue_ok a now due -> queue_ok (cancelRestartLocked a key) now due.
Proof. intros H k s Hs. cbn in Hs. apply lookup_delete_Some in Hs as [_ Hs]. by apply (H k s). Qed.

Lemma queue_woken a now due : queue_ok a now due -> queue_ok (wakeRestarts a) now due.
Proof. intros H k s Hs. eapply owed_wake; [|by apply H]. done. Qed.

(** Arming leaves a key that is due no later than its wake-up in order, even when its
    old state was not. *)
Lemma queue_arm a now due key st t :
  (forall k s, k <> key -> a_restarts a !! k = Some s -> owed_ok now (a_wake a) due k s) -> rb_nextAt st <= t ->
  queue_ok (armRestartLocked a now key st t) now due.
Proof.
  intros H Ht. unfold armRestartLocked. destruct (Z.ltb_spec 0 (time_sub t now)) as [Hp|Hp].
  - intros k s [[<- <-]|[Hne Hs]]%put_Some; [|by apply H]. intros _. left. by exists t.
  - assert (t <= now) as Htn. { unfold time_sub, sat64, max_int64, min_int64, two63 in Hp. lia. }
    intros k s Hk. change (a_restarts (put_restart a key (with_timer st None)) !! k = Some s) in Hk.
    apply put_Some in Hk as [[<- <-]|[Hne Hs]].
    + intros _. right. cbn. split; [lia|by left].
    + eapply owed_wake; [|by apply H]. done.
Qed.

Lemma queue_state a now due key : queue_ok a now due -> queue_ok (restartStateLocked a key).1 now due.
Proof.
  intros H. unfold restartStateLocked. destruct (a_restarts a !! key) as [st|]; [done|].
  intros k s Hk. cbn in Hk. apply lookup_insert_Some in Hk as [[<- <-]|[_ Hs]]; [done|]. by apply (H k s).
Qed.

Lemma queue_others a now due key :
  queue_ok a now due -> forall k s, k <> key -> a_restarts a !! k = Some s -> owed_ok now (a_wake a) due k s.
Proof. intros H k s _. apply H. Qed.

Lemma queue_schedule a now due key t : queue_ok a now due -> queue_ok (scheduleRestartLocked a now key t) now due.
Proof.
  intros H. unfold scheduleRestartLocked. pose proof (queue_state a now due key H) as Hs.
  destruct (restartStateLocked a key) as [a' st]. apply queue_arm; [by apply queue_others|done].
Qed.

Lemma queue_queue a now due key t : queue_ok a now due -> queue_ok (queueRestartLocked a now key t) now due.
Proof.
  intros H. unfold queueRestartLocked. pose proof (queue_state a now due key H) as Hs.
  destruct (restartStateLocked a key) as [a' st]. apply queue_arm; [by apply queue_others|done].
Qed.

#[export] Hint Resolve queue_put queue_cancel queue_woken queue_schedule queue_queue : queue.

Lemma queue_defer a now due key h : queue_ok a now due -> queue_ok (deferToPendingRestart a key h).1 now due.
Proof. intros H. unfold deferToPendingRestart. repeat case_match; cbn; auto with queue. Qed.

Lemma queue_reset a now now' due key p : queue_ok a now due -> queue_ok (resetRestartBackoffLocked a now' key p) now due.
Proof. intros H. unfold resetRestartBackoffLocked. repeat case_match; auto with queue. Qed.

(** The event loop has looked at the first due restart. *)
Lemma queue_run a now due key : queue_ok a now (key :: due) -> queue_ok (runRestart a now key).1 now due.
Proof.
  intros H.
  assert (forall k s, k <> key -> a_restarts a !! k = Some s -> owed_ok now (a_wake a) due k s) as Ho.
  { intros k s Hne Hs Hp. destruct (H k s Hs Hp) as [?|[? [?|[?|?]%elem_of_cons]]]; [by left|right|done|right]; auto. }
  assert (forall st, queue_ok (put_restart a key (with_pending st false)) now due) as Hput.
  { intros st k s [[<- <-]|[Hne Hs]]%put_Some; [done|]. by apply Ho. }
  unfold runRestart. destruct (a_restarts a !! key) as [st|] eqn:Hk; cbn.
  2:{ intros k s Hs. apply Ho; [|done]. intros ->. congruence. }
  destruct (negb (rb_pending st) || (now <? rb_nextAt st)) eqn:Hb; cbn.
  - intros k s Hs. destruct (decide (k = key)) as [->|Hne]; [|by apply Ho]. assert (s = st) as -> by congruence. intros Hp.
    rewrite Hp in Hb. cbn in Hb. apply Z.ltb_lt in Hb. destruct (H key st Hk Hp) as [?|[? _]]; [by left|lia].
  - apply orb_false_iff in Hb as [_ Hb%Z.ltb_ge]. case_bool_decide; cbn.
    + apply queue_arm; [done|]. unfold time_add, restartGuardRetry, second. lia.
    + case_bool_decide; apply Hput.
Qed.

Lemma queue_retry a now due key h : queue_ok a now due -> queue_ok (retryRestart a now key h) now due.
Proof.
  intros H. unfold retryRestart. destruct (a_restarts a !! key) as [st|] eqn:Hk; [|done].
  case_bool_decide; [done|]. apply queue_schedule. case_bool_decide; [done|]. apply queue_put; [done|]. exact (H key st Hk).
Qed.

Lemma queue_health_stop a now due key id : queue_ok a now due -> queue_ok (restartUnhealthy a key id).1 now due.
Proof.
  intros H. unfold restartUnhealthy. destruct (tracked a key id) as [p|]; [|done].
  destruct (mp_Healthy p || bool_decide (key ∈ a_starting a)); [done|].
  match goal with |- context [restartStateLocked ?b key] => set (a0 := b) end.
  pose proof (queue_state a0 now due key H) as Hs. unfold restartStateLocked in *.
  destruct (a_restarts a0 !! key) as [st|] eqn:Hk; cbn [fst] in *; (apply queue_put; [done|]); [|done]. exact (H key st Hk).
Qed.

Lemma queue_stopped a now due key st_id clean cancelled :
  queue_ok a now due -> queue_ok (restartStopped a now key st_id clean cancelled) now due.
Proof.
  intros H. unfold restartStopped.
  match goal with |- context [a_restarts ?b !! key] => set (a0 := b) end. change (queue_ok a0 now due) in H.
  destruct (a_restarts a0 !! key) as [st|] eqn:Hk; [|done]. case_match; [done|].
  apply queue_schedule. case_match; [done|]. apply queue_put; [done|]. exact (H key st Hk).
Qed.

Lemma queue_evicted a now due key svc : queue_ok a now due -> queue_ok (queueEvictedLocked a now key svc).1 now due.
Proof.
  intros H. unfold queueEvictedLocked. do 2 (case_match; [done|]). cbn [fst]. by apply queue_queue.
Qed.

Lemma queue_hold a now due key : queue_ok a now due -> queue_ok (holdQueuedEvictedLocked a key) now due.
Proof. intros H. unfold holdQueuedEvictedLocked. repeat case_match; [done| |done]. by apply queue_cancel. Qed.

Lemma queue_note a now now' due key : queue_ok a now due -> queue_ok (noteEvictedRestarted a now' key).1 now due.
Proof. intros H. unfold noteEvictedRestarted. case_match; [|done]. by apply queue_cancel. Qed.

Lemma queue_delete a now due key : queue_ok a now due -> queue_ok (deleteProcess a key).1 now due.
Proof. intros H. unfold deleteProcess. case_match; by apply queue_cancel. Qed.

Lemma queue_result a now now' due th key id b : queue_ok a now due -> queue_ok (applyResult a now' th key id b).1 now due.
Proof.
  intros H. unfold applyResult. case_match; [|done]. destruct b; cbn [fst]; [by apply queue_reset|done].
Qed.

Lemma queue_pressure wd a now now' due level stats :
  queue_ok a now due -> queue_ok (handleMemoryPressure wd a now' level stats).1 now due.
Proof. intros H. unfold handleMemoryPressure. case_bool_decide; done. Qed.

Lemma queue_reserve hb ov wo a now due key chk a' :
  reserveMemory hb ov wo a key chk = Ok a' -> queue_ok a now due -> queue_ok a' now due.
Proof. unfold reserveMemory. repeat case_match; intros; simplify_eq; done. Qed.

Lemma queue_fire a now due key a' : fire_timer a now key = Some a' -> queue_ok a now due -> queue_ok a' now due.
Proof.
  unfold fire_timer. destruct (a_restarts a !! key) as [st|] eqn:Hk; cbn; [|done].
  destruct (rb_timer st) as [t|] eqn:Ht; cbn; [|done]. destruct (Z.leb_spec t now) as [Hle|]; [|done]. intros [= <-] H.
  intros k s Hs. change (a_restarts (put_restart a key (with_timer st None)) !! k = Some s) in Hs.
  apply put_Some in Hs as [[<- <-]|[_ Hs]]; [|eapply owed_wake; [|exact (H k s Hs)]; done].
  intros Hp. right. cbn in *. split; [|by left]. destruct (H key st Hk Hp) as [(u & Hu & ?)|[? _]]; [|done].
  simplify_eq. lia.
Qed.

#[export] Hint Resolve queue_retry queue_health_stop queue_stopped queue_evicted queue_hold queue_note queue_delete
  queue_result queue_pressure queue_defer : queue.

(** ** The steps *)

Lemma due_sorted a now key st :
  a_restarts a !! key = Some st -> rb_pending st = true -> rb_nextAt st <= now -> key ∈ dueRestarts a now.
Proof.
  intros Hk Hp Hn. unfold dueRestarts. rewrite SortStrings_Permutation. apply list_elem_of_fmap. exists (key, st).
  split; [done|]. apply list_elem_of_In, filter_In. split; [by apply list_elem_of_In, elem_of_map_to_list|].
  rewrite Hp. cbn. by apply Z.leb_le.
Qed.

Lemma queue_idle x a o r : queue_ok a (x_now x) [] -> idle_step x a o = Some r -> queue_ok r.1.1 (x_now x) (loop_due r.1.2).
Proof.
  intros H. unfold idle_step. destruct (x_event x); [by intros [= <-]..|].
  destruct (a_wake a) eqn:Hw; [|done]. intros [= <-] key st Hk Hp. cbn in *.
  destruct (H key st Hk Hp) as [?|[? _]]; [by left|]. right. split; [done|]. right. by eapply due_sorted.
Qed.

Lemma queue_get x a key due o r :
  queue_ok a (x_now x) due -> get_step x a key due o = Some r -> queue_ok r.1.1 (x_now x) (loop_due r.1.2).
Proof. intros H. unfold get_step. repeat case_match; intros; simplify_eq/=; auto with queue. Qed.

Lemma due_return c : loop_due (return_to c) = c_due c.
Proof. unfold return_to. by destruct (c_restart c). Qed.

Lemma due_continue k ok : loop_due (continue_after k ok) = due_after k.
Proof. destruct k as [|c|c found]; [done..|]. cbn. by destruct (ok && found). Qed.

Lemma queue_loop cfg x a l o r :
  queue_ok a (x_now x) (loop_due l) -> loop_step cfg x a l o = Some r -> queue_ok r.1.1 (x_now x) (loop_due r.1.2).
Proof.
  intros H Hs. destruct l; cbn [loop_step] in Hs.
  - destruct due as [|key due]; [by eapply queue_idle|]. pose proof (queue_run a (x_now x) due key H) as Hr.
    destruct (runRestart a (x_now x) key) as [a' go]. simplify_eq. by destruct go.
  - by eapply queue_get.
  - case_bool_decide; simplify_eq; cbn [fst snd]; [by rewrite due_return|done].
  - simplify_eq/=. auto with queue.
  - simplify_eq. unfold decide_step. repeat case_match; done.
  - simplify_eq. cbn in H |- *. repeat case_match; by apply queue_cancel.
  - by simplify_eq.
  - simplify_eq/=. by destruct (x_write x).
  - simplify_eq. unfold defer_step. pose proof (queue_defer a (x_now x) (c_due c) (call_key c) (sv_hash (c_svc c)) H) as Hd.
    destruct (deferToPendingRestart a (call_key c) (sv_hash (c_svc c))) as [a' d]. repeat case_match; done.
  - simplify_eq/=. auto with queue.
  - simplify_eq. unfold fetch_step. repeat case_match; done.
  - pose proof (queue_delete a (x_now x) (due_after k) key H) as Hd.
    destruct (deleteProcess a key) as [a' [p|]]; simplify_eq; cbn [fst snd]; [done|by rewrite due_continue].
  - simplify_eq. cbn [fst snd]. by rewrite due_continue.
  - simplify_eq. unfold admission_step. case_match; [done|]. case_match eqn:E; [|done].
    by apply (queue_reserve _ _ _ _ (x_now x) (c_due c) _ _ _ E) in H.
  - case_match; by simplify_eq.
  - by simplify_eq.
  - case_match; by simplify_eq.
  - pose proof (queue_note a (x_now x) (x_now x) (c_due c) (call_key c) H) as Hn.
    destruct (noteEvictedRestarted a (x_now x) (call_key c)) as [a' b]. simplify_eq. by destruct b.
  - by simplify_eq.
  - simplify_eq. cbn [fst snd]. by rewrite due_return.
  - simplify_eq/=. auto with queue.
Qed.

Lemma queue_health cfg x a h o due :
  queue_ok a (x_now x) due -> queue_ok (health_step cfg x a h o).1.1 (x_now x) due.
Proof.
  intros H. destruct h as [|key id|key p st_id]; cbn [health_step].
  - destruct (x_probe x) as [[key id] healthy].
    match goal with |- context [applyResult ?a ?n ?th ?k ?i ?b] => pose proof (queue_result a n n due th k i b H) as Hr;
      destruct (applyResult a n th k i b) end. done.
  - pose proof (queue_health_stop a (x_now x) due key id H) as Hu.
    destruct (restartUnhealthy a key id) as [a' [[p st_id]|]]; done.
  - by apply queue_stopped.
Qed.

Lemma queue_dog cfg x a wd pc o due :
  queue_ok a (x_now x) due -> queue_ok (dog_step cfg x a wd pc o).1.1.1 (x_now x) due.
Proof.
  intros H. destruct pc as [|level stats|h [|key keys]|h [|[key svc] items]|h|h p|key|key p|key]; cbn [dog_step]; try done.
  - by destruct (sample _ _ _ _).
  - pose proof (queue_pressure (Some (cf_watchdog cfg)) a (x_now x) (x_now x) due level stats H) as Hp.
    destruct (handleMemoryPressure _ _ _ _ _) as [a' [[? ?] ?]]. done.
  - by destruct (x_write x).
  - destruct (x_verdict x); [|done..]. by apply queue_evicted.
  - cbn [fst]. unfold blockEvicted. by destruct (nextEvictedRestartLocked _ _ _).
  - pose proof (queue_delete a (x_now x) due key H) as Hd. by destruct (deleteProcess a key) as [a' [p|]].
Qed.

Lemma queue_beat x a pc o due : queue_ok a (x_now x) due -> queue_ok (beat_step x a pc o).1.1 (x_now x) due.
Proof.
  intros H. destruct pc as [|key|key p]; cbn [beat_step]; [done| |done].
  pose proof (queue_delete a (x_now x) due key H) as Hd. by destruct (deleteProcess a key) as [a' [p|]].
Qed.

(** ** Restart states that are not pending *)

Definition restart_of (c : call) : option string := if c_restart c then Some (call_key c) else None.

(** The restart the event loop is trying. *)
Fixpoint loop_restart (pc : loop_pc) : option string :=
  match pc with
  | LIdle _ => None
  | LGet key _ | LAfter key _ _ => Some key
  | LMarkRead _ next | LMark _ _ next => loop_restart next
  | LDelete _ ThenIdle | LStopping _ _ ThenIdle => None
  | LDelete _ (ThenReturn c) | LStopping _ _ (ThenReturn c) => restart_of c
  | LDelete _ (ThenFetched c _) | LStopping _ _ (ThenFetched c _) => restart_of c
  | LEnter c | LScale c _ _ | LGuarded c | LDecide c _ _ | LDefer c _ | LRequeue c _ | LFetch c _ | LAdmit c | LSpawn c _
  | LStore c _ _ | LRecord c | LNote c | LReturn c | LLeave c => restart_of c
  end.

(** Someone attends to a restart state: it is pending, the service runs, the event loop
    is at its restart, or the health monitor is stopping the old engine. *)
Definition attended (a : MetalAgent) (l : option string) (h : health_pc) (key : string) (st : restartBackoff) : Prop :=
  rb_pending st = true \/ is_Some (a_processes a !! key) \/ l = Some key \/ exists p, h = HStopping key p (rb_id st).

Definition attended_ok (a : MetalAgent) (l : option string) (h : health_pc) : Prop :=
  forall key st, a_restarts a !! key = Some st -> attended a l h key st.

(** Operations that make no restart state which is not pending, and stop tracking no
    service that has one. *)
Record steady (a a' : MetalAgent) : Prop := {
  st_states : forall key st', a_restarts a' !! key = Some st' -> rb_pending st' = true \/
    exists st, a_restarts a !! key = Some st /\ rb_id st = rb_id st' /\ rb_pending st = rb_pending st';
  st_procs : forall key, is_Some (a_processes a !! key) -> is_Some (a_processes a' !! key) \/
    forall st', a_restarts a' !! key = Some st' -> rb_pending st' = true;
}.

Create HintDb steady discriminated.

Lemma steady_refl a : steady a a.
Proof. split; eauto 6. Qed.

Lemma steady_same a a' : a_restarts a' = a_restarts a -> a_processes a' = a_processes a -> steady a a'.
Proof. intros E1 E2. split; rewrite ?E1, ?E2; eauto 6. Qed.

Lemma attended_keeps a a' l h : steady a a' -> attended_ok a l h -> attended_ok a' l h.
Proof.
  intros [Hs Hp] H key st' Hk. destruct (Hs key st' Hk) as [?|(st & Hst & Hid & Hpe)]; [by left|].
  destruct (H key st Hst) as [?|[?|[?|[p ?]]]]; unfold attended.
  - left. congruence.
  - destruct (Hp key ltac:(done)); auto.
  - auto.
  - right; right; right. exists p. congruence.
Qed.

(** States of other keys are untouched, and a new one is pending or an old one. *)
Lemma steady_put a key st' :
  (rb_pending st' = true \/
   exists st, a_restarts a !! key = Some st /\ rb_id st = rb_id st' /\ rb_pending st = rb_pending st') ->
  steady a (put_restart a key st').
Proof.
  intros H. split; [|eauto]. intros k s [[<- <-]|[_ Hs]]%put_Some; [done|eauto 6].
Qed.

Lemma steady_cancel a key : steady a (cancelRestartLocked a key).
Proof. split; [|eauto]. intros k s Hs. cbn in Hs. apply lookup_delete_Some in Hs as [_ Hs]. eauto 6. Qed.

Lemma steady_arm a0 a now key st t :
  (forall k s, k <> key -> a_restarts a !! k = Some s -> a_restarts a0 !! k = Some s) -> a_processes a = a_processes a0 ->
  (rb_pending st = true \/
   exists st0, a_restarts a0 !! key = Some st0 /\ rb_id st0 = rb_id st /\ rb_pending st0 = rb_pending st) ->
  steady a0 (armRestartLocked a now key st t).
Proof.
  intros Ho Hp Hst. unfold armRestartLocked. case_match; split; cbn; rewrite ?Hp; eauto;
    (intros k s Hs; apply lookup_insert_Some in Hs as [[<- <-]|[Hne Hs]]; [done|eauto 8]).
Qed.

Lemma state_others a key k s :
  k <> key -> a_restarts (restartStateLocked a key).1 !! k = Some s -> a_restarts a !! k = Some s.
Proof. intros Hne. unfold restartStateLocked. case_match; [done|]. cbn. by rewrite lookup_insert_ne. Qed.

Lemma state_processes a key : a_processes (restartStateLocked a key).1 = a_processes a.
Proof. unfold restartStateLocked. by case_match. Qed.

Lemma steady_schedule a now key t : steady a (scheduleRestartLocked a now key t).
Proof.
  unfold scheduleRestartLocked. pose proof (state_others a key) as Ho. pose proof (state_processes a key) as Hp.
  destruct (restartStateLocked a key) as [a' st]. apply steady_arm; [naive_solver|done|by left].
Qed.

Lemma steady_queue a now key t : steady a (queueRestartLocked a now key t).
Proof.
  unfold queueRestartLocked. pose proof (state_others a key) as Ho. pose proof (state_processes a key) as Hp.
  destruct (restartStateLocked a key) as [a' st]. apply steady_arm; [naive_solver|done|by left].
Qed.

Lemma steady_trans a b c : steady a b -> steady b c -> steady a c.
Proof.
  intros [H1 P1] [H2 P2]. split.
  - intros key s Hs. destruct (H2 key s Hs) as [?|(s1 & Hs1 & E1 & E2)]; [by left|].
    destruct (H1 key s1 Hs1) as [?|(s0 & Hs0 & ? & ?)]; [left; congruence|]. right. exists s0. split_and!; congruence.
  - intros key Hk. destruct (P1 key Hk) as [Hb|Hn]; [by apply P2|]. right. intros s Hs.
    destruct (H2 key s Hs) as [?|(s1 & Hs1 & _ & <-)]; [done|by apply Hn].
Qed.

#[export] Hint Resolve steady_refl steady_cancel steady_schedule steady_queue : steady.

Lemma steady_delete a key : steady a (deleteProcess a key).1.
Proof.
  unfold deleteProcess. case_match; cbn [fst]; [|apply steady_cancel].
  destruct (steady_cancel a key) as [Hc _]. split; [exact Hc|]. intros k Hk. cbn.
  destruct (decide (k = key)) as [->|Hne]; [right|left; by rewrite lookup_delete_ne].
  intros s Hs. by rewrite lookup_delete_eq in Hs.
Qed.

Lemma steady_defer a key h : steady a (deferToPendingRestart a key h).1.
Proof. unfold deferToPendingRestart. repeat case_match; cbn; auto with steady. Qed.

Lemma steady_hold a key : steady a (holdQueuedEvictedLocked a key).
Proof. unfold holdQueuedEvictedLocked. repeat case_match; auto with steady. eapply steady_trans; [|apply steady_cancel]. by apply steady_same. Qed.

Lemma steady_note a now key : steady a (noteEvictedRestarted a now key).1.
Proof. unfold noteEvictedRestarted. case_match; auto with steady. eapply steady_trans; [|apply steady_cancel]. by apply steady_same. Qed.

Lemma steady_evicted a now key svc : steady a (queueEvictedLocked a now key svc).1.
Proof.
  unfold queueEvictedLocked. do 2 (case_match; auto with steady). cbn [fst].
  eapply steady_trans; [|apply steady_queue]. by apply steady_same.
Qed.

Lemma steady_retry a now key h : steady a (retryRestart a now key h).
Proof.
  unfold retryRestart. destruct (a_restarts a !! key) as [st|] eqn:Hk; auto with steady. case_bool_decide; auto with steady.
  eapply steady_trans; [|apply steady_schedule]. case_bool_decide; auto with steady. apply steady_put. eauto.
Qed.

Lemma steady_stopped a now key st_id clean cancelled : steady a (restartStopped a now key st_id clean cancelled).
Proof.
  unfold restartStopped. match goal with |- context [a_restarts ?b !! key] => set (a0 := b) end.
  apply (steady_trans _ a0); [by apply steady_same|].
  destruct (a_restarts a0 !! key) as [st|] eqn:Hk; auto with steady. case_match; auto with steady.
  eapply steady_trans; [|apply steady_schedule]. case_match; auto with steady. apply steady_put. eauto.
Qed.

Lemma steady_result a now th key id b : steady a (applyResult a now th key id b).1.
Proof.
  unfold applyResult. destruct (tracked a key id) as [p|] eqn:Ht; auto with steady.
  match goal with |- context [set_processes a ?m] => set (a0 := set_processes a m) end.
  assert (steady a a0) as H0.
  { split; [cbn; eauto 6|]. intros k Hk. left. cbn. destruct (decide (key = k)) as [->|?].
    - by rewrite lookup_insert_eq. - by rewrite lookup_insert_ne. }
  destruct b; cbn [fst]; [|done]. eapply steady_trans; [exact H0|]. unfold resetRestartBackoffLocked.
  repeat case_match; auto with steady.
Qed.

Lemma steady_store a now i m id : steady a (storeProcess a now i m id).
Proof.
  split; [cbn; eauto 6|]. intros k Hk. left. cbn. destruct (decide (key_of i = k)) as [->|?].
  - by rewrite lookup_insert_eq.
  - by rewrite lookup_insert_ne.
Qed.

Lemma steady_fire a now key a' : fire_timer a now key = Some a' -> steady a a'.
Proof.
  unfold fire_timer. destruct (a_restarts a !! key) as [st|] eqn:Hk; cbn; [|done].
  destruct (rb_timer st) as [t|] eqn:Ht; cbn; [|done]. case_match; [|done]. intros [= <-].
  eapply steady_trans; [apply (steady_put a key (with_timer st None)); eauto|by apply steady_same].
Qed.

Lemma steady_pressure wd a now level stats : steady a (handleMemoryPressure wd a now level stats).1.
Proof. apply steady_same; unfold handleMemoryPressure; by case_bool_decide. Qed.

#[export] Hint Resolve steady_delete steady_defer steady_hold steady_note steady_evicted steady_retry steady_stopped
  steady_result steady_store steady_pressure : steady.

(** A step that is steady and leaves the loop's restart to the loop, or settles it. *)
Lemma attended_move a a' l l' h :
  steady a a' -> attended_ok a l h ->
  (forall key st, l = Some key -> a_restarts a' !! key = Some st -> attended a' l' h key st) -> attended_ok a' l' h.
Proof.
  intros Hs H Hl key st Hk. destruct (attended_keeps _ _ _ _ Hs H key st Hk) as [?|[?|[?|[p ->]]]].
  - by left.
  - by right; left.
  - by apply Hl.
  - right; right; right. by exists p.
Qed.

Lemma attended_stay a a' l l' h : steady a a' -> l = l' -> attended_ok a l h -> attended_ok a' l' h.
Proof. intros Hs <- H. by eapply attended_keeps. Qed.

Lemma cancelled_attended a l l' h key :
  l = Some key -> attended_ok a l h -> attended_ok (cancelRestartLocked a key) l' h.
Proof.
  intros -> H. eapply attended_move; [apply steady_cancel|exact H|]. intros k st [= <-] Hk. cbn in Hk.
  by rewrite lookup_delete_eq in Hk.
Qed.

Lemma schedule_pending a now key t st : a_restarts (scheduleRestartLocked a now key t) !! key = Some st -> rb_pending st = true.
Proof.
  unfold scheduleRestartLocked. destruct (restartStateLocked a key) as [a' s]. unfold armRestartLocked.
  case_match; cbn; rewrite lookup_insert_eq; by intros [= <-].
Qed.

Lemma retry_settles a now key h st :
  a_restarts (retryRestart a now key h) !! key = Some st -> rb_pending st = true \/ is_Some (a_processes a !! key).
Proof.
  unfold retryRestart. destruct (a_restarts a !! key) as [st0|] eqn:Hk; [|congruence].
  case_bool_decide; [auto|]. intros Hs%schedule_pending. auto.
Qed.

Lemma retry_processes a now key h : a_processes (retryRestart a now key h) = a_processes a.
Proof. apply (fr_processes _ _ (retryRestart_frame a now key h)). Qed.

Lemma run_attended a now key h due :
  attended_ok a None h -> let '(a', go) := runRestart a now key in
  attended_ok a' (loop_restart (if go then LGet key due else LIdle due)) h.
Proof.
  intros H. unfold runRestart. destruct (a_restarts a !! key) as [st|] eqn:Hk; [|done].
  destruct (negb (rb_pending st) || _); [done|]. case_bool_decide.
  - eapply attended_keeps; [|exact H]. apply steady_arm; [done|done|eauto].
  - case_bool_decide as Hp; intros k s [[<- <-]|[_ Hs]]%put_Some; cbn; unfold attended; auto;
      destruct (H k s Hs) as [?|[?|[?|?]]]; auto; discriminate.
Qed.

Lemma loop_restart_return c : loop_restart (return_to c) = restart_of c.
Proof. unfold return_to, restart_of. by destruct (c_restart c). Qed.

Lemma loop_restart_continue key k ok : loop_restart (continue_after k ok) = loop_restart (LDelete key k).
Proof. destruct k as [|c|c found]; [done..|]. cbn. by destruct (ok && found). Qed.

Lemma get_attended x a key due h o r :
  attended_ok a (Some key) h -> get_step x a key due o = Some r -> attended_ok r.1.1 (loop_restart r.1.2) h.
Proof.
  intros H. unfold get_step. repeat case_match; intros; simplify_eq/=; try (by eapply cancelled_attended); try done;
    case_bool_decide; simplify_eq/=; done.
Qed.

Lemma reserve_steady hb ov wo a key chk a' : reserveMemory hb ov wo a key chk = Ok a' -> steady a a'.
Proof. unfold reserveMemory. repeat case_match; intros; simplify_eq; by apply steady_same. Qed.

Lemma loop_attended cfg x a l h o r :
  attended_ok a (loop_restart l) h -> loop_step cfg x a l o = Some r -> attended_ok r.1.1 (loop_restart r.1.2) h.
Proof.
  intros H Hs. destruct l; cbn [loop_step] in Hs.
  - destruct due as [|key due].
    + unfold idle_step in Hs. repeat case_match; by simplify_eq.
    + pose proof (run_attended a (x_now x) key h due H) as Hr. destruct (runRestart a (x_now x) key) as [a' go].
      by simplify_eq.
  - by eapply get_attended.
  - case_bool_decide; simplify_eq; cbn [fst snd]; [by rewrite loop_restart_return|done].
  - simplify_eq. eapply attended_stay; [apply steady_hold|done|exact H].
  - simplify_eq. unfold decide_step. repeat case_match; done.
  - simplify_eq. cbn [fst snd dropRestart]. destruct exists_; [|destruct held].
    1,2: eapply attended_stay; [apply steady_cancel|done|exact H].
    cbn in H |- *. unfold restart_of in H. destruct (c_restart c); [by eapply cancelled_attended|].
    by eapply attended_stay; [apply steady_cancel| |exact H].
  - by simplify_eq.
  - simplify_eq/=. by destruct (x_write x).
  - simplify_eq. unfold defer_step. pose proof (steady_defer a (call_key c) (sv_hash (c_svc c))) as Hd.
    destruct (deferToPendingRestart a (call_key c) (sv_hash (c_svc c))) as [a' d].
    repeat case_match; by eapply attended_stay; [exact Hd| |exact H].
  - simplify_eq. by eapply attended_stay; [apply steady_queue| |exact H].
  - simplify_eq. unfold fetch_step. repeat case_match; done.
  - pose proof (steady_delete a key) as Hd.
    destruct (deleteProcess a key) as [a' [p|]]; simplify_eq; cbn [fst snd];
      [by eapply (attended_stay a); [exact Hd|destruct k|exact H]|].
    eapply attended_stay; [exact Hd|symmetry; apply loop_restart_continue|exact H].
  - simplify_eq. eapply attended_stay; [apply steady_refl|symmetry; apply (loop_restart_continue key)|by destruct k].
  - simplify_eq. unfold admission_step. case_match; [done|]. case_match eqn:E; [|done].
    cbn [fst snd]. eapply attended_stay; [eapply steady_trans; [by eapply reserve_steady|by apply steady_same]|done|exact H].
  - case_match; by simplify_eq.
  - simplify_eq. by eapply attended_stay; [apply steady_store| |exact H].
  - case_match; by simplify_eq.
  - pose proof (steady_note a (x_now x) (call_key c)) as Hn.
    destruct (noteEvictedRestarted a (x_now x) (call_key c)) as [a' b]. simplify_eq.
    destruct b; (eapply (attended_stay a); [exact Hn|done|exact H]).
  - by simplify_eq.
  - simplify_eq. cbn [fst snd]. by rewrite loop_restart_return.
  - simplify_eq. cbn [fst snd]. eapply attended_move; [apply steady_retry|exact H|]. intros k st [= <-] Hk.
    unfold attended. rewrite retry_processes. destruct (retry_settles _ _ _ _ _ Hk); auto.
Qed.

Lemma unhealthy_attended a l key id :
  let '(a', r) := restartUnhealthy a key id in
  attended_ok a l (HRestart key id) ->
  attended_ok a' l (match r with Some (p, st_id) => HStopping key p st_id | None => HIdle end).
Proof.
  assert (attended_ok a l (HRestart key id) -> attended_ok a l HIdle) as Hn.
  { intros H k s Hs. destruct (H k s Hs) as [?|[?|[?|[p [=]]]]]; unfold attended; auto. }
  unfold restartUnhealthy. destruct (tracked a key id) as [p|]; [|done].
  destruct (mp_Healthy p || bool_decide (key ∈ a_starting a)); [done|].
  match goal with |- context [restartStateLocked ?b key] => set (a0 := b) end.
  pose proof (state_others a0 key) as Ho. pose proof (state_processes a0 key) as Hp.
  destruct (restartStateLocked a0 key) as [a' st]. cbn [fst] in Ho, Hp. intros H.
  intros k s [[<- <-]|[Hne Hs]]%put_Some; [right; right; right; by exists p|].
  destruct (H k s (Ho k s (not_eq_sym Hne) Hs)) as [?|[Hk|[?|[q [=]]]]]; unfold attended; auto.
  right; left. cbn. rewrite Hp. cbn. by rewrite lookup_delete_ne.
Qed.

Lemma stopped_attended a now l key p st_id clean :
  attended_ok a l (HStopping key p st_id) -> attended_ok (restartStopped a now key st_id clean false) l HIdle.
Proof.
  intros H. pose proof (attended_keeps _ _ _ _ (steady_stopped a now key st_id clean false) H) as Hk. intros k s Hs.
  destruct (Hk k s Hs) as [?|[?|[?|[q Hq]]]]; unfold attended; auto. injection Hq as -> -> ->. left. revert Hs.
  clear. unfold restartStopped. set (a0 := set_starting a _).
  destruct (a_restarts a0 !! k) as [st|] eqn:Hk; [|congruence].
  destruct (Nat.eqb_spec (rb_id st) (rb_id s)); cbn [negb orb]; [apply schedule_pending|congruence].
Qed.

Lemma health_attended cfg x a l h o :
  attended_ok a l h -> let r := health_step cfg x a h o in attended_ok r.1.1 l r.1.2.
Proof.
  intros H. destruct h as [|key id|key p st_id]; cbn [health_step].
  - destruct (x_probe x) as [[key id] healthy].
    match goal with |- context [applyResult ?a ?n ?th ?k ?i ?b] => pose proof (steady_result a n th k i b) as Hr;
      destruct (applyResult a n th k i b) as [a' []] end; pose proof (attended_keeps _ _ _ _ Hr H) as Hk; [|done].
    intros k s Hs. destruct (Hk k s Hs) as [?|[?|[?|[p [=]]]]]; unfold attended; auto.
  - pose proof (unhealthy_attended a l key id) as Hu. destruct (restartUnhealthy a key id) as [a' [[p st_id]|]]; by apply Hu.
  - by eapply stopped_attended.
Qed.

Lemma dog_steady cfg x a wd pc o : steady a (dog_step cfg x a wd pc o).1.1.1.
Proof.
  destruct pc as [|level stats|h [|key keys]|h [|[key svc] items]|h|h p|key|key p|key]; cbn [dog_step]; auto with steady;
    try by apply steady_same.
  - destruct (sample _ _ _ _). auto with steady.
  - pose proof (steady_pressure (Some (cf_watchdog cfg)) a (x_now x) level stats) as Hp.
    by destruct (handleMemoryPressure _ _ _ _ _) as [a' [[? ?] ?]].
  - destruct (x_write x); by apply steady_same.
  - cbn [fst]. destruct (x_verdict x); auto with steady. by apply steady_same.
  - apply steady_same; cbn [fst]; unfold blockEvicted; by destruct (nextEvictedRestartLocked _ _ _).
  - pose proof (steady_delete a key) as Hd. by destruct (deleteProcess a key) as [a' [p|]].
Qed.

Lemma beat_steady x a pc o : steady a (beat_step x a pc o).1.1.
Proof.
  destruct pc as [|key|key p]; cbn [beat_step]; auto with steady.
  pose proof (steady_delete a key) as Hd. by destruct (deleteProcess a key) as [a' [p|]].
Qed.

(** ** The invariant *)

Definition restarts_ok (w : world) : Prop :=
  queue_ok (w_agent w) (w_now w) (loop_due (w_loop w)) /\
  attended_ok (w_agent w) (loop_restart (w_loop w)) (w_health w).

Lemma restarts_ok_step cfg w th x w' : restarts_ok w -> agent_step cfg w th x = Some w' -> restarts_ok w'.
Proof.
  intros [Hq Ha] (Hx & Hn & H)%agent_step_inv. unfold restarts_ok. rewrite Hn.
  unfold answer_ok in Hx. apply andb_true_iff in Hx as [Hx%Z.leb_le _]. apply (queue_later _ _ _ _ Hx) in Hq. destruct th.
  - destruct H as (r & Hl & ->). pose proof (queue_loop _ _ _ _ _ _ Hq Hl). pose proof (loop_attended _ _ _ _ _ _ _ Ha Hl).
    by destruct r as [[a pc] o].
  - destruct H as (-> & -> & _ & -> & _). split; [by apply queue_health|by apply health_attended].
  - destruct H as (-> & _ & _ & -> & -> & _). split; [by apply queue_dog|]. eapply attended_keeps; [apply dog_steady|done].
  - destruct H as (-> & _ & _ & -> & -> & _). split; [by apply queue_beat|]. eapply attended_keeps; [apply beat_steady|done].
  - destruct H as (Hf & _ & _ & -> & -> & _). split; [by eapply queue_fire|].
    eapply attended_keeps; [by eapply steady_fire|done].
Qed.

Lemma reach_restarts cfg w : agent_reach cfg w -> restarts_ok w.
Proof. induction 1 as [|w th x w' _ IH Hs]; [|by eapply restarts_ok_step]. by split. Qed.

(** C23: in every state the agent can reach, a service with a restart state is attended
    to.  If its restart is pending, a timer is armed that fires no earlier than the
    restart is due, or the restart is due and the event loop has it in its list or a
    wake-up waiting; if not, the service runs, or the event loop is trying the restart,
    or the health monitor is stopping the old engine for it. *)
Theorem restart_never_lost (cfg : agent_config) (w : world) (key : string) (st : restartBackoff) :
  agent_reach cfg w -> a_restarts (w_agent w) !! key = Some st ->
  if rb_pending st then
    (exists t, rb_timer st = Some t /\ rb_nextAt st <= t) \/
    (rb_nextAt st <= w_now w /\ (a_wake (w_agent w) = true \/ key ∈ loop_due (w_loop w)))
  else
    is_Some (a_processes (w_agent w) !! key) \/ loop_restart (w_loop w) = Some key \/
    exists p, w_health w = HStopping key p (rb_id st).
Proof.
  intros [Hq Ha]%reach_restarts Hk. specialize (Hq _ _ Hk). specialize (Ha _ _ Hk). unfold owed_ok, attended in *.
  destruct (rb_pending st); [by apply Hq|]. by destruct Ha.
Qed.

(** An engine fails its probes, and has to be killed. *)
Definition failed_probe : thread * answer :=
  (THealth, {| x_now := 1; x_event := Woken; x_get := GetError; x_model := ModelFound; x_allowed := true;
     x_check := None; x_spawn := SpawnOk EmptyString; x_stop := StopKilled; x_write := true; x_conflict := false;
     x_verdict := evictedQueue; x_readings := sampled 90; x_probe := ("ns/a", 0%nat, false); x_gone := EmptyString |}).

Definition sick_run : list (thread * answer) := start_service "a" "v1" ++ replicate 5 failed_probe.
Definition sick_world : world := default start_world (agent_run demo_config start_world sick_run).
Definition sick_restart : restartBackoff :=
  {| rb_id := 1; rb_delay := healthRestartInitialBackoff; rb_pending := true; rb_nextAt := 1 + healthRestartInitialBackoff;
     rb_specHash := "v1"; rb_releaseAt := 1 + healthRestartInitialBackoff; rb_timer := Some (1 + healthRestartInitialBackoff) |}.

Lemma sick_run_reach : agent_run demo_config start_world sick_run = Some sick_world.
Proof. vm_compute. reflexivity. Qed.

Lemma sick_world_reach : agent_reach demo_config sick_world.
Proof. eapply agent_run_reach; [apply reach_start|exact sick_run_reach]. Qed.

Lemma restart_never_lost_witness :
  a_restarts (w_agent sick_world) !! "ns/a" = Some sick_restart /\
  ((exists t, rb_timer sick_restart = Some t /\ rb_nextAt sick_restart <= t) \/
   (rb_nextAt sick_restart <= w_now sick_world /\
    (a_wake (w_agent sick_world) = true \/ "ns/a" ∈ loop_due (w_loop sick_world)))).
Proof.
  split; [vm_compute; reflexivity|].
  exact (restart_never_lost demo_config sick_world "ns/a" sick_restart sick_world_reach ltac:(vm_compute; reflexivity)).
Defined.

(** The answer of a wake-up at a time. *)
Definition woken_at (now : Z) : answer :=
  {| x_now := now; x_event := Woken; x_get := GetError; x_model := ModelFound; x_allowed := true;
     x_check := None; x_spawn := SpawnOk EmptyString; x_stop := StopOk; x_write := true; x_conflict := false;
     x_verdict := evictedQueue; x_readings := sampled 90; x_probe := (EmptyString, 0%nat, true); x_gone := EmptyString |}.

Lemma woken_ok w now : w_now w <= now -> answer_ok w (woken_at now) = true.
Proof. intros H. unfold answer_ok. cbn. rewrite andb_true_r. by apply Z.leb_le. Qed.

(** The event loop takes a due restart up. *)
Lemma wake_up cfg w now key st :
  w_now w <= now -> w_loop w = LIdle [] -> a_wake (w_agent w) = true ->
  a_restarts (w_agent w) !! key = Some st -> rb_pending st = true -> rb_nextAt st <= now ->
  exists w', agent_step cfg w TLoop (woken_at now) = Some w' /\ key ∈ loop_due (w_loop w').
Proof.
  intros Hn Hl Hw Hk Hp Ht. eexists. split.
  - unfold agent_step. rewrite woken_ok, Hl by done. cbn. rewrite Hw. reflexivity.
  - cbn. by eapply due_sorted.
Qed.

(** A pending restart gets its turn.  From every state the agent can reach in which
    the event loop waits for something to do, at most two steps that nothing can
    prevent, the restart's timer and the wake-up of the event loop, put the service in
    the loop's list of due restarts. *)
Lemma pending_restart_taken_up (cfg : agent_config) (w : world) (key : string) (st : restartBackoff) :
  agent_reach cfg w -> w_loop w = LIdle [] -> a_restarts (w_agent w) !! key = Some st -> rb_pending st = true ->
  exists now w', (agent_run cfg w [(TLoop, woken_at now)] = Some w' \/
                  agent_run cfg w [(TTimer key, woken_at now); (TLoop, woken_at now)] = Some w') /\
    key ∈ loop_due (w_loop w').
Proof.
  intros [Hq _]%reach_restarts Hl Hk Hp. destruct (Hq key st Hk Hp) as [(t & Ht & Hn)|[Hn [Hw|Hd]]].
  - set (now := Z.max (w_now w) t). set (w1 := {| w_now := now;
      w_agent := wakeRestarts (put_restart (w_agent w) key (with_timer st None)); w_loop := w_loop w; w_health := w_health w;
      w_watchdog := w_watchdog w; w_dog := w_dog w; w_beat := w_beat w; w_engines := w_engines w; w_failed := w_failed w |}).
    assert (agent_step cfg w (TTimer key) (woken_at now) = Some w1) as H1.
    { unfold agent_step. rewrite woken_ok by (unfold now; lia). cbn. unfold fire_timer. rewrite Hk. cbn. rewrite Ht. cbn.
      destruct (Z.leb_spec t now); [done|unfold now in *; lia]. }
    destruct (wake_up cfg w1 now key (with_timer st None)) as (w' & Hs & Hin); try done.
    + cbn. by rewrite lookup_insert_eq.
    + cbn. unfold now. lia.
    + exists now, w'. split; [right|done]. cbn [agent_run]. rewrite H1. cbn. by rewrite Hs.
  - destruct (wake_up cfg w (w_now w) key st) as (w' & Hs & Hin); try done.
    exists (w_now w), w'. split; [left|done]. cbn [agent_run]. by rewrite Hs.
  - rewrite Hl in Hd. by apply elem_of_nil in Hd.
Qed.
