(* ===== verification/AgentState.v ===== *)
(** * The node agent: its shared state is well formed

    The maps of the agent are keyed by the services they speak of, a process object is
    tracked once, a start is in flight exactly when a thread is at it, and an evicted
    service is either blocked or on its way back. *)

From stdpp Require Import base strings list gmap.
From Stdlib Require Import ZArith Lia Bool.
From S2P Require Import Prelude GoStrings GoFloat AgentEvict Agent AgentMachine AgentFacts AgentRaces.

(** ** Processes *)

(** The tracked processes, and the engine that the event loop starts or stops. *)
Record processes_wf (P : gmap string ManagedProcess) (fresh : nat) (engine : option (nat * string)) : Prop := {
  pw_key k p : P !! k = Some p -> process_key p = k;
  pw_id k p : P !! k = Some p -> (mp_id p < fresh)%nat;
  pw_distinct k1 k2 p1 p2 : P !! k1 = Some p1 -> P !! k2 = Some p2 -> mp_id p1 = mp_id p2 -> k1 = k2;
  pw_engine id k : engine = Some (id, k) -> (id < fresh)%nat /\ forall k' p, P !! k' = Some p -> mp_id p <> id;
}.

(** Processes that were tracked before, under their keys. *)
Definition inherited (P P' : gmap string ManagedProcess) : Prop :=
  forall k p', P' !! k = Some p' -> exists p, P !! k = Some p /\ mp_id p' = mp_id p /\ process_key p' = process_key p.

Lemma inherited_refl P : inherited P P.
Proof. intros k p. eauto. Qed.

Lemma inherited_delete P key : inherited P (delete key P).
Proof. intros k p [_ Hk]%lookup_delete_Some. eauto. Qed.

Lemma inherited_health P key p healthy f : P !! key = Some p -> inherited P (<[key := with_health p healthy f]> P).
Proof. intros Hp k q [[<- <-]|[_ Hk]]%lookup_insert_Some; eauto. Qed.

Lemma processes_inherited P P' f f' e :
  inherited P P' -> (f <= f')%nat -> processes_wf P f e -> processes_wf P' f' e.
Proof.
  intros Hi Hf [Hk Hid Hd He]. split.
  - intros k p' (p & Hp & _ & ->)%Hi. by apply Hk.
  - intros k p' (p & Hp & -> & _)%Hi. specialize (Hid k p Hp). lia.
  - intros k1 k2 p1 p2 (q1 & H1 & -> & _)%Hi (q2 & H2 & -> & _)%Hi. by eapply Hd.
  - intros id k Hid'. destruct (He id k Hid') as [Hlt Hne]. split; [lia|].
    intros k' p' (p & Hp & -> & _)%Hi. by eapply Hne.
Qed.

Lemma processes_no_engine P f e : processes_wf P f e -> processes_wf P f None.
Proof. intros [Hk Hid Hd He]. by split. Qed.

(** Taking a process out to stop it. *)
Lemma processes_taken P f key k p : P !! key = Some p -> processes_wf P f None -> processes_wf (delete key P) f (Some (mp_id p, k)).
Proof.
  intros Hp H. destruct (processes_inherited _ _ f f _ (inherited_delete P key) (le_n f) H) as [Hk Hid Hd _].
  split; [done..|]. intros id k' [= <- <-]. split; [by eapply pw_id|].
  intros k'' q [Hne Hq]%lookup_delete_Some E. apply Hne. symmetry. by eapply (pw_distinct _ _ _ H).
Qed.

Lemma processes_store P f id k p :
  mp_id p = id -> process_key p = k -> processes_wf P f (Some (id, k)) -> processes_wf (<[k := p]> P) f None.
Proof.
  intros <- <- [Hk Hid Hd He]. destruct (He _ _ eq_refl) as [Hlt Hne]. split; [| | |done].
  - intros k q [[<- <-]|[_ Hq]]%lookup_insert_Some; [done|by apply Hk].
  - intros k q [[<- <-]|[_ Hq]]%lookup_insert_Some; [done|by eapply Hid].
  - intros k1 k2 p1 p2 [[<- <-]|[_ H1]]%lookup_insert_Some [[<- <-]|[_ H2]]%lookup_insert_Some E; [done| | |by eapply Hd].
    + by destruct (Hne _ _ H2).
    + by destruct (Hne _ _ H1).
Qed.

Lemma loop_processes cfg x a l h o r :
  agent_mutex a l h -> loop_step cfg x a l o = Some r ->
  processes_wf (a_processes a) (a_fresh a) (loop_engine l) ->
  processes_wf (a_processes r.1.1) (a_fresh r.1.1) (loop_engine r.1.2).
Proof.
  intros Hm H Hw. destruct (engine_pc l) eqn:He.
  2:{ destruct (loop_quiet _ _ _ _ _ _ He (mi_wf _ _ _ _ Hm) H) as [E1 E2 _ E4 _]. rewrite E1, E4.
      eapply processes_inherited; [apply inherited_refl|done|]. by eapply processes_no_engine. }
  destruct l; try done; cbn [loop_step] in H.
  - destruct (deleteProcess_effect a key) as (Hp & _ & _ & Hf & H2). destruct (deleteProcess a key) as [a' q]. cbn in *.
    subst q. destruct (a_processes a !! key) as [p|] eqn:Hk; simplify_eq; cbn [fst snd]; rewrite Hp, Hf.
    + by apply processes_taken.
    + rewrite continue_after_engine. eapply processes_inherited; [apply inherited_delete|done|exact Hw].
  - simplify_eq. cbn [fst snd]. rewrite continue_after_engine. by eapply processes_no_engine.
  - simplify_eq. unfold admission_step. case_if; [done|].
    destruct (reserveMemory _ _ _ _ _ _) as [a'|e] eqn:Hr; [|done]. cbn.
    apply reserveMemory_frame in Hr as (Hp & _ & Hf). rewrite Hp, Hf. destruct Hw as [Hk Hid Hd _]. split; [done| |done|].
    + intros k p Hp'. specialize (Hid k p Hp'). lia.
    + intros id k [= <- <-]. split; [lia|]. intros k' p Hp'. specialize (Hid k' p Hp'). lia.
  - destruct (x_spawn x); simplify_eq; cbn; [done|]. by eapply processes_no_engine.
  - simplify_eq. cbn. by eapply processes_store; [| |exact Hw].
  - by simplify_eq.
Qed.

(** The other threads only take processes out and mark them. *)
Lemma health_inherited cfg x a h o :
  inherited (a_processes a) (a_processes (health_step cfg x a h o).1.1) /\
  (a_fresh a <= a_fresh (health_step cfg x a h o).1.1)%nat.
Proof.
  destruct h as [|key id|key p st_id]; cbn [health_step].
  - destruct (x_probe x) as [[key id] healthy].
    destruct (applyResult_effect a (x_now x) (healthFailureThreshold (cf_threshold cfg)) key id healthy) as (_ & _ & Hf & Hp).
    destruct (applyResult _ _ _ _ _ _) as [a' b]. cbn in *. split; [|done].
    destruct Hp as [->|(p & f & Hp & ->)]; [apply inherited_refl|by apply inherited_health].
  - pose proof (restartUnhealthy_effect a key id) as Hr. destruct (restartUnhealthy a key id) as [a' [[p st]|]]; cbn in *.
    + destruct Hr as (_ & _ & -> & _ & _ & ?). split; [apply inherited_delete|done].
    + subst. split; [apply inherited_refl|done].
  - destruct (restartStopped_effect a (x_now x) key st_id (stop_clean (x_stop x)) false) as (Hp & _ & _ & Hf). cbn [fst].
    rewrite Hp. split; [apply inherited_refl|done].
Qed.

Lemma deleted_inherited P P' : P' = P \/ (exists key, P' = delete key P) -> inherited P P'.
Proof. intros [->|[key ->]]; [apply inherited_refl|apply inherited_delete]. Qed.

(** ** Evicted services *)

Definition evicted_ok (a : MetalAgent) : Prop := a_pressureBlocked a ##ₘ a_pressureRestarting a.

(** Operations that leave the evicted services alone. *)
Definition evicted_same (a a' : MetalAgent) : Prop :=
  a_pressureBlocked a' = a_pressureBlocked a /\ a_pressureRestarting a' = a_pressureRestarting a.

Create HintDb evicted discriminated.

Lemma evicted_same_ok a a' : evicted_same a a' -> evicted_ok a -> evicted_ok a'.
Proof. intros [E1 E2]. unfold evicted_ok. by rewrite E1, E2. Qed.

Lemma evicted_same_trans a b c : evicted_same a b -> evicted_same b c -> evicted_same a c.
Proof. intros [E1 E2] [E3 E4]. split; congruence. Qed.

Lemma arm_same a now key st t : evicted_same a (armRestartLocked a now key st t).
Proof. unfold armRestartLocked. by case_match. Qed.

Lemma state_same a key : evicted_same a (restartStateLocked a key).1.
Proof. unfold restartStateLocked. by case_match. Qed.

Lemma schedule_same a now key t : evicted_same a (scheduleRestartLocked a now key t).
Proof. unfold scheduleRestartLocked, restartStateLocked, armRestartLocked. by repeat (case_match; simplify_eq/=). Qed.

Lemma queue_same_evicted a now key t : evicted_same a (queueRestartLocked a now key t).
Proof. unfold queueRestartLocked, restartStateLocked, armRestartLocked. by repeat (case_match; simplify_eq/=). Qed.

Lemma run_same a now key : evicted_same a (runRestart a now key).1.
Proof. unfold runRestart, armRestartLocked. by repeat case_match. Qed.

Lemma retry_same a now key h : evicted_same a (retryRestart a now key h).
Proof.
  unfold retryRestart. case_match; [|done]. case_bool_decide; [done|]. eapply evicted_same_trans; [|apply schedule_same]. by case_bool_decide.
Qed.

Lemma defer_same a key h : evicted_same a (deferToPendingRestart a key h).1.
Proof. unfold deferToPendingRestart. by repeat case_match. Qed.

Lemma delete_same a key : evicted_same a (deleteProcess a key).1.
Proof. unfold deleteProcess. by case_match. Qed.

Lemma result_same a now th key id b : evicted_same a (applyResult a now th key id b).1.
Proof. unfold applyResult, resetRestartBackoffLocked. by repeat case_match. Qed.

Lemma unhealthy_same a key id : evicted_same a (restartUnhealthy a key id).1.
Proof. unfold restartUnhealthy, restartStateLocked. by repeat (case_match; simplify_eq/=). Qed.

Lemma stopped_same a now key st_id clean cancelled : evicted_same a (restartStopped a now key st_id clean cancelled).
Proof.
  unfold restartStopped. case_match; [|done]. case_match; [done|]. eapply evicted_same_trans; [|apply schedule_same].
  by case_match.
Qed.

Lemma reserve_same hb ov wo a key chk a' : reserveMemory hb ov wo a key chk = Ok a' -> evicted_same a a'.
Proof. unfold reserveMemory. repeat case_match; intros; by simplify_eq. Qed.

Lemma fire_same a now key a' : fire_timer a now key = Some a' -> evicted_same a a'.
Proof.
  unfold fire_timer. destruct (a_restarts a !! key) as [st|]; cbn; [|done]. destruct (rb_timer st); cbn; [|done].
  case_match; [|done]. by intros [= <-].
Qed.

(** Operations that move a service. *)
Lemma forget_ok a key : evicted_ok a -> evicted_ok (forgetEvicted a key).
Proof. intros H. by apply map_disjoint_delete_l, map_disjoint_delete_r. Qed.

Lemma hold_ok a key : evicted_ok a -> evicted_ok (holdQueuedEvictedLocked a key).
Proof.
  intros H. unfold holdQueuedEvictedLocked. repeat case_match; [done| |done].
  apply map_disjoint_insert_l. split; [apply lookup_delete_eq|by apply map_disjoint_delete_r].
Qed.

Lemma note_ok a now key : evicted_ok a -> evicted_ok (noteEvictedRestarted a now key).1.
Proof. intros H. unfold noteEvictedRestarted. case_match; [|done]. by apply map_disjoint_delete_r. Qed.

Lemma queued_ok a now key svc : evicted_ok a -> evicted_ok (queueEvictedLocked a now key svc).1.
Proof.
  intros H. unfold queueEvictedLocked. do 2 (case_match; [done|]). cbn [fst].
  eapply evicted_same_ok; [apply queue_same_evicted|]. apply map_disjoint_insert_r.
  split; [apply lookup_delete_eq|by apply map_disjoint_delete_l].
Qed.

Lemma block_ok a now key rss : evicted_ok a -> evicted_ok (blockEvicted a now key rss).
Proof.
  intros H. unfold blockEvicted. destruct (nextEvictedRestartLocked a now key).
  apply map_disjoint_insert_l. split; [apply lookup_delete_eq|by apply map_disjoint_delete_r].
Qed.

Lemma pressure_ok wd a now level stats : evicted_ok a -> evicted_ok (handleMemoryPressure wd a now level stats).1.
Proof.
  intros H. unfold handleMemoryPressure. case_bool_decide; [|done]. cbn. unfold evicted_ok. cbn.
  eapply map_disjoint_weaken_r; [exact H|]. apply map_filter_subseteq.
Qed.

#[export] Hint Resolve forget_ok hold_ok note_ok queued_ok block_ok pressure_ok : evicted.

Lemma loop_evicted cfg x a l o r : evicted_ok a -> loop_step cfg x a l o = Some r -> evicted_ok r.1.1.
Proof.
  intros H Hs. destruct l; cbn [loop_step] in Hs.
  - destruct due as [|key due].
    + unfold idle_step in Hs. repeat case_match; simplify_eq; try done. by apply forget_ok.
    + pose proof (evicted_same_ok _ _ (run_same a (x_now x) key) H) as Hr. destruct (runRestart _ _ _). by simplify_eq.
  - unfold get_step in Hs. repeat case_match; by simplify_eq.
  - case_bool_decide; by simplify_eq.
  - simplify_eq. cbn [fst]. auto with evicted.
  - simplify_eq. unfold decide_step. repeat case_match; cbn [fst]; auto with evicted.
  - by simplify_eq.
  - by simplify_eq.
  - simplify_eq. cbn [fst]. by destruct (x_write x).
  - simplify_eq. unfold defer_step. pose proof (evicted_same_ok _ _ (defer_same a (call_key c) (sv_hash (c_svc c))) H) as Hd.
    destruct (deferToPendingRestart _ _ _) as [a' []]; repeat case_match; done.
  - simplify_eq. cbn [fst]. eapply evicted_same_ok; [apply queue_same_evicted|done].
  - simplify_eq. unfold fetch_step. repeat case_match; done.
  - pose proof (evicted_same_ok _ _ (delete_same a key) H) as Hd. destruct (deleteProcess a key) as [a' [p|]]; by simplify_eq.
  - by simplify_eq.
  - simplify_eq. unfold admission_step. case_match; [done|]. case_match eqn:E; [|done].
    by apply (evicted_same_ok _ _ (reserve_same _ _ _ _ _ _ _ E)) in H.
  - case_match; by simplify_eq.
  - by simplify_eq.
  - case_match; by simplify_eq.
  - pose proof (note_ok a (x_now x) (call_key c) H) as Hn. destruct (noteEvictedRestarted _ _ _). by simplify_eq.
  - by simplify_eq.
  - by simplify_eq.
  - simplify_eq. cbn [fst]. eapply evicted_same_ok; [apply retry_same|done].
Qed.

Lemma health_evicted cfg x a h o : evicted_ok a -> evicted_ok (health_step cfg x a h o).1.1.
Proof.
  intros H. destruct h as [|key id|key p st_id]; cbn [health_step].
  - destruct (x_probe x) as [[key id] healthy].
    pose proof (evicted_same_ok _ _ (result_same a (x_now x) (healthFailureThreshold (cf_threshold cfg)) key id healthy) H).
    by destruct (applyResult _ _ _ _ _ _).
  - pose proof (evicted_same_ok _ _ (unhealthy_same a key id) H).
    by destruct (restartUnhealthy a key id) as [a' [[p st]|]].
  - eapply evicted_same_ok; [apply stopped_same|done].
Qed.

Lemma dog_evicted cfg x a wd pc o : evicted_ok a -> evicted_ok (dog_step cfg x a wd pc o).1.1.1.
Proof.
  intros H. destruct pc as [|level stats|h [|key keys]|h [|[key svc] items]|h|h p|key|key p|key]; cbn [dog_step]; try done.
  - by destruct (sample _ _ _ _).
  - pose proof (pressure_ok (Some (cf_watchdog cfg)) a (x_now x) level stats H) as Hp.
    by destruct (handleMemoryPressure _ _ _ _ _) as [a' [[? ?] ?]].
  - by destruct (x_write x).
  - cbn [fst]. destruct (x_verdict x); auto with evicted.
  - cbn [fst]. auto with evicted.
  - pose proof (evicted_same_ok _ _ (delete_same a key) H) as Hd. by destruct (deleteProcess a key) as [a' [p|]].
  - by apply map_disjoint_delete_l.
Qed.

Lemma beat_evicted x a pc o : evicted_ok a -> evicted_ok (beat_step x a pc o).1.1.
Proof.
  intros H. destruct pc as [|key|key p]; cbn [beat_step]; [done| |done].
  pose proof (evicted_same_ok _ _ (delete_same a key) H) as Hd. by destruct (deleteProcess a key) as [a' [p|]].
Qed.

(** ** The state *)

Record agent_wf (w : world) : Prop := {
  aw_processes : processes_wf (a_processes (w_agent w)) (a_fresh (w_agent w)) (loop_engine (w_loop w));
  aw_starting k : k ∈ a_starting (w_agent w) <-> loop_holds (w_loop w) = Some k \/ health_holds (w_health w) = Some k;
  aw_evicted : evicted_ok (w_agent w);
}.

Lemma agent_wf_start : agent_wf start_world.
Proof.
  split; [by split|cbn|apply map_disjoint_empty_l]. intros k. rewrite elem_of_empty. naive_solver.
Qed.

Lemma wf_processes_step cfg w th x w' :
  world_mutex w -> processes_wf (a_processes (w_agent w)) (a_fresh (w_agent w)) (loop_engine (w_loop w)) ->
  agent_step cfg w th x = Some w' ->
  processes_wf (a_processes (w_agent w')) (a_fresh (w_agent w')) (loop_engine (w_loop w')).
Proof.
  intros Hm Hp (_ & _ & H)%agent_step_inv. destruct th.
  - destruct H as (r & Hl & ->). pose proof (loop_processes _ _ _ _ _ _ _ Hm Hl Hp). by destruct r as [[a pc] o].
  - destruct H as (-> & _ & _ & -> & _). by eapply processes_inherited; [apply health_inherited..|].
  - destruct H as (-> & _ & _ & -> & _).
    destruct (dog_effect cfg x (w_agent w) (w_watchdog w) (w_dog w) (w_engines w, w_failed w)) as (_ & _ & Hf & Hd).
    eapply processes_inherited; [|exact Hf|exact Hp]. apply deleted_inherited. naive_solver.
  - destruct H as (-> & _ & _ & -> & _).
    destruct (beat_effect x (w_agent w) (w_beat w) (w_engines w, w_failed w)) as (_ & _ & Hf & Hd).
    eapply processes_inherited; [|exact Hf|exact Hp]. apply deleted_inherited. naive_solver.
  - destruct H as (Hf%fire_timer_frame & _ & _ & -> & _). destruct Hf as [-> _ _ Hf].
    eapply processes_inherited; [apply inherited_refl|done|done].
Qed.

Lemma wf_evicted_step cfg w th x w' : evicted_ok (w_agent w) -> agent_step cfg w th x = Some w' -> evicted_ok (w_agent w').
Proof.
  intros He (_ & _ & H)%agent_step_inv. destruct th.
  - destruct H as (r & Hl & ->). pose proof (loop_evicted _ _ _ _ _ _ He Hl). by destruct r as [[a pc] o].
  - destruct H as (-> & _). by apply health_evicted.
  - destruct H as (-> & _). by apply dog_evicted.
  - destruct H as (-> & _). by apply beat_evicted.
  - destruct H as (Hf & _). by eapply evicted_same_ok; [eapply fire_same|].
Qed.

(** C24: the shared state of the agent is well formed in every state it can reach, under
    every interleaving of its threads.  A process is tracked under the key of its own
    service, and no process object under two; the engine being started or stopped by
    the event loop is tracked under none; a start is marked in flight exactly when the
    event loop or the health monitor is at it; and no service is both blocked by memory
    pressure and queued to come back. *)
Theorem agent_state_well_formed (cfg : agent_config) (w : world) : agent_reach cfg w -> agent_wf w.
Proof.
  intros Hr. pose proof (reach_mutex _ _ Hr) as Hm.
  split; [|exact (mi_start _ _ _ _ Hm)|]; clear Hm; induction Hr as [|w th x w' Hr IH Hs]; try apply agent_wf_start.
  - by eapply wf_processes_step; [eapply reach_mutex| |].
  - by eapply wf_evicted_step.
Qed.

Lemma agent_state_well_formed_witness : agent_reach demo_config race_world /\ agent_wf race_world.
Proof. split; [exact race_world_reach|]. exact (agent_state_well_formed demo_config race_world race_world_reach). Defined.
