(* ===== verification/GoPath.v ===== *)
(** * Go's path/filepath, and a file system

    The functions of path/filepath the program uses, for Unix, and a file system on
    which [EvalSymlinks] and [Lstat] run.  A file system maps the components of an
    absolute path without links to what is there.  [lands] says where the operating
    system takes a path: it is what the checks of [ArgRoots] are measured against. *)

From stdpp Require Import base strings list.
From Stdlib Require Import ZArith Lia Bool Ascii.
From S2P Require Import Prelude GoStrings.

Definition slash : ascii := "/"%char.

(** ** Names of files *)

Definition IsAbs (p : string) : bool := HasPrefix p "/".

(** The components that [Clean] keeps, with the ones before them. *)
Definition clean_step (rooted : bool) (done : list string) (c : string) : list string :=
  if bool_decide (c = EmptyString) || bool_decide (c = ".") then done
  else if bool_decide (c = "..") then
    match last done with
    | Some d => if bool_decide (d = "..") then done ++ [c] else removelast done
    | None => if rooted then done else [c]
    end
  else done ++ [c].

Definition clean_comps (rooted : bool) (l : list string) : list string := fold_left (clean_step rooted) l [].

(** The path of some components. *)
Definition render (rooted : bool) (l : list string) : string :=
  if rooted then String slash (Join l "/") else if bool_decide (l = []) then "." else Join l "/".

Definition Clean (p : string) : string :=
  let rooted := IsAbs p in render rooted (clean_comps rooted (SplitByte p slash)).

(** [filepath.Join] of two elements. *)
Definition JoinPath (a b : string) : string :=
  if bool_decide (a = EmptyString) then if bool_decide (b = EmptyString) then EmptyString else Clean b
  else Clean (a +:+ "/" +:+ b).

(** [filepath.Dir]: everything up to the last slash, cleaned. *)
Definition Dir (p : string) : string :=
  match removelast (SplitByte p slash) with
  | [] => "."
  | l => Clean (Join l "/" +:+ "/")
  end.

(** [filepath.Base]. *)
Definition Base (p : string) : string :=
  if bool_decide (p = EmptyString) then "."
  else match last (List.filter (fun c => negb (bool_decide (c = EmptyString))) (SplitByte p slash)) with
       | Some c => c
       | None => "/"
       end.

(** ** The file system *)

Inductive node :=
| NDir
| NFile
| NLink (target : string)
(** The operating system refuses to say what is there. *)
| NDenied.

Record fsys := {
  fs_at : list string -> option node;
  (** The working directory of the process. *)
  fs_cwd : list string;
}.

Inductive path_err := ErrNotExist | ErrNotDir | ErrTooManyLinks | ErrDenied.

(** The place of a path: relative ones start at the working directory. *)
Definition place (f : fsys) (rooted : bool) (l : list string) : list string :=
  if rooted then l else fold_left (clean_step true) l (fs_cwd f).

(** [walkSymlinks], the loop of [EvalSymlinks]: [todo] are the components before it,
    [dest] those it has resolved; it follows at most [links] links. *)
Fixpoint walk (f : fsys) (links : nat) {struct links} : bool -> list string -> list string -> result path_err (bool * list string) :=
  fix go (rooted : bool) (dest todo : list string) {struct todo} :=
    match todo with
    | [] => Ok (rooted, dest)
    | c :: todo =>
        if bool_decide (c = EmptyString) || bool_decide (c = ".") || bool_decide (c = "..") then
          go rooted (clean_step rooted dest c) todo
        else
          match fs_at f (place f rooted (dest ++ [c])) with
          | None => Err ErrNotExist
          | Some NDenied => Err ErrDenied
          | Some NDir => go rooted (dest ++ [c]) todo
          | Some NFile => if bool_decide (todo = []) then Ok (rooted, dest ++ [c]) else Err ErrNotDir
          | Some (NLink t) =>
              match links with
              | O => Err ErrTooManyLinks
              | S links =>
                  if IsAbs t then walk f links true [] (SplitByte t slash ++ todo)
                  else walk f links rooted dest (SplitByte t slash ++ todo)
              end
          end
    end.

Definition EvalSymlinks (f : fsys) (p : string) : result path_err string :=
  '(rooted, l) ← walk f 255 (IsAbs p) [] (SplitByte p slash);
  Ok (render rooted l).

(** [os.Lstat] of a cleaned path: its last component is not followed.  The operating
    system's own limit on links is not modelled apart from Go's. *)
Definition Lstat (f : fsys) (p : string) : result path_err node :=
  let l := clean_comps (IsAbs p) (SplitByte p slash) in
  match last l with
  | None => Ok NDir
  | Some c =>
      '(rooted, dest) ← walk f 255 (IsAbs p) [] (removelast l);
      match fs_at f (place f rooted (clean_step rooted dest c)) with
      | None => Err ErrNotExist
      | Some NDenied => Err ErrDenied
      | Some n => Ok n
      end
  end.

(** ** Where a path leads *)

Definition proper (c : string) : bool :=
  negb (bool_decide (c = EmptyString) || bool_decide (c = ".") || bool_decide (c = "..")).

(** The operating system takes the components [l] from the directory [d] to the place
    [e]; a component that does not exist is created with what follows it. *)
Inductive lands (f : fsys) : list string -> list string -> list string -> Prop :=
| lands_done d : lands f d [] d
| lands_skip d c l e : c = EmptyString \/ c = "." -> lands f d l e -> lands f d (c :: l) e
| lands_up d l e : lands f (removelast d) l e -> lands f d (".." :: l) e
| lands_dir d c l e : proper c = true -> fs_at f (d ++ [c]) = Some NDir -> lands f (d ++ [c]) l e -> lands f d (c :: l) e
| lands_file d c : proper c = true -> fs_at f (d ++ [c]) = Some NFile -> lands f d [c] (d ++ [c])
| lands_link d c t l e :
    proper c = true -> fs_at f (d ++ [c]) = Some (NLink t) ->
    lands f (if IsAbs t then [] else d) (SplitByte t slash ++ l) e -> lands f d (c :: l) e
| lands_new d c l :
    proper c = true -> fs_at f (d ++ [c]) = None -> ".." ∉ l -> lands f d (c :: l) (d ++ c :: List.filter proper l).

(** ** Lemmas on components *)

Lemma proper_spec c : proper c = true <-> c <> EmptyString /\ c <> "." /\ c <> "..".
Proof. unfold proper. rewrite negb_true_iff, !orb_false_iff, !bool_decide_eq_false. naive_solver. Qed.

Lemma clean_step_proper rooted d c : proper c = true -> clean_step rooted d c = d ++ [c].
Proof.
  intros (H1 & H2 & H3)%proper_spec. unfold clean_step.
  by rewrite !bool_decide_eq_false_2 by done.
Qed.

(** Without a parent component, cleaning drops the empty ones and the dots. *)
Lemma clean_comps_filter rooted l d : ".." ∉ l -> fold_left (clean_step rooted) l d = d ++ List.filter proper l.
Proof.
  revert d; induction l as [|c l IH]; intros d Hl; cbn; [by rewrite app_nil_r|].
  apply not_elem_of_cons in Hl as [Hc Hl]. rewrite IH by done. destruct (proper c) eqn:Hp.
  - by rewrite clean_step_proper, <- app_assoc.
  - unfold proper in Hp. apply negb_false_iff in Hp. unfold clean_step.
    rewrite (bool_decide_eq_false_2 (c = "..")), orb_false_r in Hp by done. by rewrite Hp.
Qed.

Lemma split_no_slash s : Forall (fun c => ContainsByte c slash = false) (SplitByte s slash).
Proof.
  induction s as [|x s IH]; cbn; [by repeat constructor|]. destruct (Ascii.eqb x slash) eqn:Hx.
  - by constructor.
  - destruct (SplitByte s slash) as [|l ls]; [|inversion IH; subst].
    + repeat constructor. cbn. by rewrite Hx.
    + constructor; [|done]. cbn. by rewrite Hx.
Qed.

Lemma split_nonempty s c : SplitByte s c <> [].
Proof. destruct s as [|x s]; cbn; [done|]. destruct (Ascii.eqb x c); [done|]. by destruct (SplitByte s c). Qed.

Lemma split_app a b : ContainsByte a slash = false -> SplitByte (a +:+ String slash b) slash = a :: SplitByte b slash.
Proof. apply SplitByte_app. Qed.

Lemma Join_cons2 a b l : Join (a :: b :: l) "/" = a +:+ String slash (Join (b :: l) "/").
Proof. reflexivity. Qed.

Lemma split_Join l : l <> [] -> Forall (fun c => ContainsByte c slash = false) l -> SplitByte (Join l "/") slash = l.
Proof. apply (SplitByte_Join slash). Qed.

(** A path leads to one place. *)
Lemma lands_det f d l e1 e2 : lands f d l e1 -> lands f d l e2 -> e1 = e2.
Proof.
  intros H; revert e2. induction H; intros e2 H2; inversion H2; simplify_eq; auto; rewrite ?proper_spec in *; naive_solver.
Qed.

Lemma filter_proper_idem l : List.filter proper (List.filter proper l) = List.filter proper l.
Proof. induction l as [|c l IH]; cbn; [done|]. destruct (proper c) eqn:Hc; cbn; [by rewrite Hc, IH|done]. Qed.

(** The dots of a path do not matter to where it leads. *)
Lemma lands_filter_app f d pre l e :
  ".." ∉ l -> lands f d (pre ++ l) e -> lands f d (pre ++ List.filter proper l) e.
Proof.
  intros Hl H. remember (pre ++ l) as m eqn:Em. revert pre l Hl Em.
  induction H as [d|d c m e Hc Hr IH|d m e Hr IH|d c m e Hp Hf Hr IH|d c Hp Hf|d c t m e Hp Hf Hr IH|d c m Hp Hf Hn];
    intros pre l Hl Em.
  - destruct pre, l; try done. constructor.
  - destruct pre as [|x pre]; cbn in Em; simplify_eq/=.
    + apply not_elem_of_cons in Hl as [_ Hl]. replace (proper c) with false by (destruct Hc as [-> | ->]; done).
      by apply (IH []).
    + constructor; [done|]. by apply IH.
  - destruct pre as [|x pre]; cbn in Em; simplify_eq/=; [by apply not_elem_of_cons in Hl as [? _]|].
    apply lands_up. by apply IH.
  - destruct pre as [|x pre]; cbn in Em; simplify_eq/=.
    + apply not_elem_of_cons in Hl as [_ Hl]. rewrite Hp. eapply lands_dir; [done..|]. by apply (IH []).
    + eapply lands_dir; [done..|]. by apply IH.
  - destruct pre as [|x [|y pre]]; cbn in Em; simplify_eq/=; [rewrite Hp|]; by apply lands_file.
  - destruct pre as [|x pre]; cbn in Em; simplify_eq/=.
    + apply not_elem_of_cons in Hl as [_ Hl]. rewrite Hp. eapply lands_link; [done..|]. by apply IH.
    + eapply lands_link; [done..|]. rewrite app_assoc in Hr |- *. apply IH; [done|by rewrite app_assoc].
  - destruct pre as [|x pre]; cbn in Em; simplify_eq/=.
    + rewrite Hp. rewrite <- (filter_proper_idem m) at 2. apply lands_new; [done..|]. intros Hin. apply Hn.
      apply list_elem_of_In, filter_In in Hin as [Hin _]. by apply list_elem_of_In.
    + rewrite List.filter_app. rewrite <- (filter_proper_idem l) at 2. rewrite <- List.filter_app. apply lands_new; [done..|].
      rewrite elem_of_app in *. intros [?|Hin]; [naive_solver|]. apply Hn. right.
      apply list_elem_of_In, filter_In in Hin as [Hin _]. by apply list_elem_of_In.
Qed.

Lemma lands_filter f d l e : ".." ∉ l -> lands f d l e -> lands f d (List.filter proper l) e.
Proof. apply (lands_filter_app f d []). Qed.

(** ** Links *)

Definition comp_ok (c : string) : Prop := proper c = true /\ ContainsByte c slash = false.

Definition no_slash (l : list string) : Prop := Forall (fun c => ContainsByte c slash = false) l.

(** What [walk] resolves is free of dots, and is where the path leads. *)
Lemma removelast_Forall {A} (P : A -> Prop) (l : list A) : Forall P l -> Forall P (removelast l).
Proof. induction 1 as [|x l Hx Hl IH]; cbn; [done|]. destruct l; [constructor|]. by constructor. Qed.

Lemma last_Forall {A} (P : A -> Prop) (l : list A) x : Forall P l -> last l = Some x -> P x.
Proof. intros Hl Hx. rewrite Forall_forall in Hl. apply Hl. by eapply last_Some_elem_of. Qed.

Lemma clean_step_ok d c : Forall comp_ok d -> ContainsByte c slash = false -> Forall comp_ok (clean_step true d c).
Proof.
  intros Hd Hc. unfold clean_step.
  destruct (bool_decide (c = EmptyString) || bool_decide (c = ".")) eqn:Hb; [done|].
  apply orb_false_iff in Hb as [Hb1%bool_decide_eq_false Hb2%bool_decide_eq_false]. case_bool_decide as Hdd.
  - destruct (last d) as [x|] eqn:Hl; [|done]. case_bool_decide as Hx; [|by apply removelast_Forall].
    apply (last_Forall _ _ _ Hd) in Hl as [Hp _]. subst x. done.
  - apply Forall_app; split; [done|]. repeat constructor; [|done]. by apply proper_spec.
Qed.

Lemma walk_eq f links rooted dest todo :
  walk f links rooted dest todo =
  match todo with
  | [] => Ok (rooted, dest)
  | c :: todo =>
      if bool_decide (c = EmptyString) || bool_decide (c = ".") || bool_decide (c = "..") then
        walk f links rooted (clean_step rooted dest c) todo
      else
        match fs_at f (place f rooted (dest ++ [c])) with
        | None => Err ErrNotExist
        | Some NDenied => Err ErrDenied
        | Some NDir => walk f links rooted (dest ++ [c]) todo
        | Some NFile => if bool_decide (todo = []) then Ok (rooted, dest ++ [c]) else Err ErrNotDir
        | Some (NLink t) =>
            match links with
            | O => Err ErrTooManyLinks
            | S links =>
                if IsAbs t then walk f links true [] (SplitByte t slash ++ todo)
                else walk f links rooted dest (SplitByte t slash ++ todo)
            end
        end
  end.
Proof. by destruct links, todo. Qed.

(** The cases of a step of [walk] from the root: a dot, or a component. *)
Lemma dot_cases c :
  bool_decide (c = EmptyString) || bool_decide (c = ".") || bool_decide (c = "..") = negb (proper c).
Proof. unfold proper. by rewrite negb_involutive. Qed.

Lemma walk_ok f links dest todo r d :
  no_slash todo -> Forall comp_ok dest -> walk f links true dest todo = Ok (r, d) -> r = true /\ Forall comp_ok d.
Proof.
  revert dest todo. induction links as [|links IHl]; intros dest todo; revert dest; induction todo as [|c todo IH];
    intros dest Hs Hd; rewrite walk_eq; try (by intros [= <- <-]); inversion Hs as [|? ? Hc Hs']; subst;
    rewrite dot_cases; destruct (proper c) eqn:Hp; cbn [negb]; try (by apply IH; [|apply clean_step_ok]);
    (assert (Forall comp_ok (dest ++ [c])) as Hd' by (apply Forall_app; by repeat constructor));
    destruct (fs_at f _) as [[| |t|]|]; try done; try (by apply IH); try (case_bool_decide; [by intros [= <- <-]|done]).
  assert (no_slash (SplitByte t slash ++ todo)) as Ht by (apply Forall_app; split; [apply split_no_slash|done]).
  destruct (IsAbs t); by apply IHl.
Qed.

Lemma clean_up d : Forall comp_ok d -> clean_step true d ".." = removelast d.
Proof.
  intros Hd. unfold clean_step. rewrite !(bool_decide_eq_false_2 (".." = _)), bool_decide_eq_true_2 by done. cbn [orb].
  destruct (last d) as [x|] eqn:Hl.
  - apply (last_Forall _ _ _ Hd) in Hl as [Hp _]. case_bool_decide; [by subst|done].
  - by apply last_None in Hl as ->.
Qed.

Lemma lands_dots f d c l e :
  Forall comp_ok d -> proper c = false -> lands f (clean_step true d c) l e -> lands f d (c :: l) e.
Proof.
  intros Hd Hp H. destruct (decide (c = "..")) as [->|Hdd]; [rewrite clean_up in H by done; by apply lands_up|].
  assert (c = EmptyString \/ c = ".") as Hdot.
  { unfold proper in Hp. apply negb_false_iff in Hp. rewrite !orb_true_iff, !bool_decide_eq_true in Hp. naive_solver. }
  replace (clean_step true d c) with d in H by (destruct Hdot as [-> | ->]; done). by apply lands_skip.
Qed.

Lemma walk_lands f links dest todo r d :
  no_slash todo -> Forall comp_ok dest -> walk f links true dest todo = Ok (r, d) -> lands f dest todo d.
Proof.
  revert dest todo. induction links as [|links IHl]; intros dest todo; revert dest; induction todo as [|c todo IH];
    intros dest Hs Hd; rewrite walk_eq; try (by intros [= <- <-]; constructor); inversion Hs as [|? ? Hc Hs']; subst;
    rewrite dot_cases; destruct (proper c) eqn:Hp; cbn [negb].
  2,4: intros H; apply IH in H; [|done|by apply clean_step_ok]; by apply lands_dots.
  all: assert (Forall comp_ok (dest ++ [c])) as Hd' by (apply Forall_app; by repeat constructor);
    cbn [place]; destruct (fs_at f (dest ++ [c])) as [[| |t|]|] eqn:Hf; try done; try (intros H; by eapply lands_dir; [| |apply IH]);
    try (case_bool_decide; [|done]; intros [= <- <-]; subst; by apply lands_file).
  assert (no_slash (SplitByte t slash ++ todo)) as Ht by (apply Forall_app; split; [apply split_no_slash|done]).
  intros H. eapply lands_link; [done..|]. destruct (IsAbs t); by apply IHl in H.
Qed.

(** A further component that does not exist is missing where the path leads, or is a
    link there. *)
Lemma walk_missing f links dest todo c r d :
  proper c = true -> walk f links true dest todo = Ok (r, d) -> walk f links true dest (todo ++ [c]) = Err ErrNotExist ->
  r = true -> fs_at f (d ++ [c]) = None \/ exists t, fs_at f (d ++ [c]) = Some (NLink t).
Proof.
  intros Hc. revert dest todo. induction links as [|links IHl]; intros dest todo; revert dest; induction todo as [|x todo IH];
    intros dest; rewrite (walk_eq _ _ _ _ (_ ++ _)), walk_eq; cbn [app].
  1,3: intros [= <- <-]; rewrite dot_cases, Hc; cbn [negb place]; destruct (fs_at f (dest ++ [c])) as [[]|]; rewrite ?walk_eq; by eauto.
  all: rewrite dot_cases; destruct (proper x); cbn [negb place]; [|by apply IH];
    destruct (fs_at f (dest ++ [x])) as [[| |t|]|]; try done; try (by apply IH);
    try (case_bool_decide; [|done]; intros _; by rewrite bool_decide_eq_false_2 by (subst; done)).
  rewrite app_assoc. destruct (IsAbs t); apply IHl.
Qed.

(** ** Cleaned absolute paths *)

Lemma comps_no_slash l : Forall comp_ok l -> no_slash l.
Proof. intros H. eapply Forall_impl; [exact H|]. by intros c [_ ?]. Qed.

Lemma comps_proper l : Forall comp_ok l -> List.filter proper l = l.
Proof. induction 1 as [|c l [Hc _] _ IH]; cbn; [done|]. by rewrite Hc, IH. Qed.

Lemma comps_no_up l : Forall comp_ok l -> ".." ∉ l.
Proof. intros Hl Hin. rewrite Forall_forall in Hl. by apply Hl in Hin as [? _]. Qed.

Lemma split_filter_ok p : ".." ∉ SplitByte p slash -> Forall comp_ok (List.filter proper (SplitByte p slash)).
Proof.
  intros _. pose proof (split_no_slash p) as Hs. rewrite Forall_forall in Hs |- *. intros c Hc.
  apply list_elem_of_In, filter_In in Hc as [Hin Hp]. split; [done|]. by apply Hs, list_elem_of_In.
Qed.

Lemma split_render l : Forall comp_ok l -> List.filter proper (SplitByte (render true l) slash) = l.
Proof.
  intros Hl. cbn [render SplitByte]. rewrite Ascii.eqb_refl. cbn [List.filter].
  replace (proper EmptyString) with false by done.
  destruct l as [|c l]; [done|]. rewrite split_Join; [by apply comps_proper|done|by apply comps_no_slash].
Qed.

Lemma render_no_up l : Forall comp_ok l -> ".." ∉ SplitByte (render true l) slash.
Proof.
  intros Hl. cbn [render SplitByte]. rewrite Ascii.eqb_refl. apply not_elem_of_cons. split; [done|].
  destruct l as [|c l]; [by intros ?%list_elem_of_singleton|].
  rewrite split_Join; [by apply comps_no_up|done|by apply comps_no_slash].
Qed.

Lemma Clean_abs p : IsAbs p = true -> ".." ∉ SplitByte p slash -> Clean p = render true (List.filter proper (SplitByte p slash)).
Proof. intros Ha Hu. unfold Clean, clean_comps. by rewrite Ha, clean_comps_filter. Qed.

Lemma split_app_slash a b : SplitByte (a +:+ String slash b) slash = SplitByte a slash ++ SplitByte b slash.
Proof.
  induction a as [|x a IH]; rewrite ?app_nil, ?app_cons; [done|]. cbn [SplitByte]. rewrite IH.
  destruct (Ascii.eqb x slash); [done|]. pose proof (split_nonempty a slash). by destruct (SplitByte a slash).
Qed.

(** [rest] is a relative path of some components. *)
Lemma split_rest l : Forall comp_ok l -> List.filter proper (SplitByte (Join l "/") slash) = l.
Proof.
  intros Hl. destruct l as [|c l]; [done|]. rewrite split_Join; [by apply comps_proper|done|by apply comps_no_slash].
Qed.

Lemma rest_no_up l : Forall comp_ok l -> ".." ∉ SplitByte (Join l "/") slash.
Proof.
  intros Hl. destruct l as [|c l]; [by intros ?%list_elem_of_singleton|].
  rewrite split_Join; [by apply comps_no_up|done|by apply comps_no_slash].
Qed.

Lemma JoinPath_abs d l : Forall comp_ok d -> Forall comp_ok l -> JoinPath (render true d) (Join l "/") = render true (d ++ l).
Proof.
  intros Hd Hl. unfold JoinPath. rewrite bool_decide_eq_false_2 by done.
  change (render true d +:+ "/" +:+ Join l "/") with (render true d +:+ String slash (Join l "/")).
  rewrite Clean_abs; [|done|].
  - by rewrite split_app_slash, List.filter_app, split_render, split_rest.
  - rewrite split_app_slash, not_elem_of_app. split; [by apply render_no_up|by apply rest_no_up].
Qed.

Lemma IsAbs_app_comp c s : comp_ok c -> IsAbs (c +:+ s) = false.
Proof.
  intros [Hp Hs]. destruct c as [|x c]; [done|]. cbn in Hs. apply orb_false_iff in Hs as [Hx _].
  rewrite app_cons. unfold IsAbs. cbn [HasPrefix]. rewrite Ascii.eqb_sym. change "/"%char with slash. by rewrite Hx.
Qed.

Lemma JoinPath_rest c l : comp_ok c -> Forall comp_ok l -> JoinPath c (Join l "/") = Join (c :: l) "/".
Proof.
  intros Hc Hl. unfold JoinPath. rewrite bool_decide_eq_false_2 by (destruct Hc; by intros ->).
  unfold Clean. rewrite IsAbs_app_comp by done. unfold clean_comps.
  change (c +:+ "/" +:+ Join l "/") with (c +:+ String slash (Join l "/")).
  rewrite split_app by apply Hc. rewrite clean_comps_filter.
  - cbn [List.filter app]. destruct Hc as [-> _]. by rewrite split_rest.
  - apply not_elem_of_cons. split; [destruct Hc; by intros <-|by apply rest_no_up].
Qed.

Lemma Dir_render l c : Forall comp_ok (l ++ [c]) -> Dir (render true (l ++ [c])) = render true l.
Proof.
  intros [Hl Hc]%Forall_app. unfold Dir. cbn [render SplitByte]. rewrite Ascii.eqb_refl.
  rewrite split_Join; [|by destruct l|apply comps_no_slash; by apply Forall_app].
  change (EmptyString :: l ++ [c]) with ((EmptyString :: l) ++ [c]). rewrite removelast_last.
  assert (Join (EmptyString :: l) "/" +:+ "/" = render true l +:+ "/" \/ l = []) as [E| ->]; [|rewrite E|done].
  { destruct l as [|x l]; [by right|left]. done. }
  rewrite Clean_abs; [|done|]; change "/" with (String slash EmptyString); rewrite split_app_slash.
  - rewrite List.filter_app, split_render by done. cbn. by rewrite app_nil_r.
  - rewrite not_elem_of_app. split; [by apply render_no_up|]. by intros ?%list_elem_of_singleton.
Qed.

Lemma Base_render l c : Forall comp_ok (l ++ [c]) -> Base (render true (l ++ [c])) = c.
Proof.
  intros [Hl Hc]%Forall_app. inversion Hc as [|? ? [Hp _]]; subst. unfold Base. rewrite bool_decide_eq_false_2 by done.
  cbn [render SplitByte]. rewrite Ascii.eqb_refl. rewrite split_Join; [|by destruct l|apply comps_no_slash; by apply Forall_app].
  cbn [List.filter]. rewrite bool_decide_eq_true_2 by done. cbn [negb]. rewrite List.filter_app. cbn [List.filter].
  apply proper_spec in Hp as [Hne _]. rewrite bool_decide_eq_false_2 by done. cbn [negb]. by rewrite last_snoc.
Qed.

Lemma render_inj l l' : Forall comp_ok l -> Forall comp_ok l' -> render true l = render true l' -> l = l'.
Proof. intros Hl Hl' E. by rewrite <- (split_render l Hl), E, split_render. Qed.

(** A path through a directory that exists to something that does not. *)
Lemma walk_lands_new f links dest todo c rest r d :
  no_slash todo -> Forall comp_ok dest -> comp_ok c -> Forall comp_ok rest ->
  walk f links true dest todo = Ok (r, d) -> walk f links true dest (todo ++ [c]) = Err ErrNotExist ->
  fs_at f (d ++ [c]) = None -> lands f dest (todo ++ c :: rest) (d ++ c :: rest).
Proof.
  intros Hs Hd Hc Hr. revert dest todo Hs Hd.
  induction links as [|links IHl]; intros dest todo; revert dest; induction todo as [|x todo IH];
    intros dest Hs Hd; rewrite (walk_eq _ _ _ _ (_ ++ _)), walk_eq; cbn [app].
  1,3: intros [= <- <-] _ Hn; rewrite <- (comps_proper rest Hr) at 2; apply lands_new; [apply Hc|done|by apply comps_no_up].
  all: inversion Hs as [|? ? Hx Hs']; subst; rewrite dot_cases; destruct (proper x) eqn:Hp; cbn [negb place].
  2,4: intros H1 H2 Hn; apply lands_dots; [done..|]; by apply IH; [|apply clean_step_ok| | |].
  all: assert (Forall comp_ok (dest ++ [x])) as Hd' by (apply Forall_app; by repeat constructor);
    destruct (fs_at f (dest ++ [x])) as [[| |t|]|] eqn:Hf; try done;
    try (intros H1 H2 Hn; by eapply lands_dir; [| |apply IH]);
    try (case_bool_decide; [|done]; intros _; by rewrite bool_decide_eq_false_2 by (subst; done)).
  assert (no_slash (SplitByte t slash ++ todo)) as Ht by (apply Forall_app; split; [apply split_no_slash|done]).
  intros H1 H2 Hn. eapply lands_link; [done..|]. rewrite app_assoc in H2 |- *. by destruct (IsAbs t); apply IHl.
Qed.
