(* ===== verification/ArgFlags.v ===== *)
(** * Engine arguments: the typed flag tables

    The flags of the engines the node agent starts, each a switch, a value or a path,
    as the policy of [ArgPolicy] types them.  The tables of llama-server and vllm-swift
    are written in parts. *)

From stdpp Require Import base strings list.
From Stdlib Require Import ZArith Lia Bool.
From S2P Require Import Prelude GoStrings.

Inductive FlagKind := KindBool | KindValue | KindPath.
Inductive PathDecode := DecodeNone | DecodeWhole | DecodeCSV | DecodeCSVColon | DecodeNameEqPath.

#[export] Instance FlagKind_eq_dec : EqDecision FlagKind.
Proof. solve_decision. Defined.

#[export] Instance PathDecode_eq_dec : EqDecision PathDecode.
Proof. solve_decision. Defined.

Record FlagSpec := {
  fs_Kind : FlagKind;
  fs_Decode : PathDecode;
  fs_Multi : bool;
  fs_OptionalValue : bool;
  fs_Arity : nat;
  fs_Canonical : string;
  fs_MustExist : bool;
}.

Definition mk_spec (k : FlagKind) (d : PathDecode) (multi optional : bool) (arity : nat) (exist : bool) : FlagSpec :=
  {| fs_Kind := k; fs_Decode := d; fs_Multi := multi; fs_OptionalValue := optional; fs_Arity := arity;
     fs_Canonical := EmptyString; fs_MustExist := exist |}.

Definition as_ (s : FlagSpec) (canonical : string) : FlagSpec :=
  {| fs_Kind := fs_Kind s; fs_Decode := fs_Decode s; fs_Multi := fs_Multi s; fs_OptionalValue := fs_OptionalValue s;
     fs_Arity := fs_Arity s; fs_Canonical := canonical; fs_MustExist := fs_MustExist s |}.

Definition selfCanonical (table : list (string * FlagSpec)) : list (string * FlagSpec) :=
  (fun '(flag, s) => (flag, if bool_decide (fs_Canonical s = EmptyString) then as_ s flag else s)) <$> table.

Definition fBool : FlagSpec := mk_spec KindBool DecodeNone false false 0 false.
Definition fValue : FlagSpec := mk_spec KindValue DecodeNone false false 0 false.
Definition fValue2 : FlagSpec := mk_spec KindValue DecodeNone false false 2 false.
Definition fValueMulti : FlagSpec := mk_spec KindValue DecodeNone true false 0 false.
Definition fValueOptional : FlagSpec := mk_spec KindValue DecodeNone false true 0 false.
Definition fPath : FlagSpec := mk_spec KindPath DecodeWhole false false 0 false.
Definition fPathExists : FlagSpec := mk_spec KindPath DecodeWhole false false 0 true.
Definition fPathCSV : FlagSpec := mk_spec KindPath DecodeCSV false false 0 false.
Definition fPathCSVColon : FlagSpec := mk_spec KindPath DecodeCSVColon false false 0 false.
Definition fPathNameEqPathMultiExists : FlagSpec := mk_spec KindPath DecodeNameEqPath true false 0 true.

Definition llamaFlags1 : list (string * FlagSpec) :=
  [("-h", as_ fBool "--help"); ("--help", fBool); ("--usage", as_ fBool "--help"); ("--version", fBool);
   ("-cl", as_ fBool "--cache-list"); ("--cache-list", fBool); ("--completion-bash", fBool);
   ("-t", as_ fValue "--threads"); ("--threads", fValue); ("-tb", as_ fValue "--threads-batch");
   ("--threads-batch", fValue); ("-C", as_ fValue "--cpu-mask"); ("--cpu-mask", fValue);
   ("-Cr", as_ fValue "--cpu-range"); ("--cpu-range", fValue); ("--cpu-strict", fValue); ("--prio", fValue);
   ("--poll", fValue); ("-Cb", as_ fValue "--cpu-mask-batch"); ("--cpu-mask-batch", fValue);
   ("-Crb", as_ fValue "--cpu-range-batch"); ("--cpu-range-batch", fValue); ("--cpu-strict-batch", fValue);
   ("--prio-batch", fValue); ("--poll-batch", fValue); ("-c", as_ fValue "--ctx-size"); ("--ctx-size", fValue);
   ("-n", as_ fValue "--predict"); ("--predict", fValue); ("--n-predict", as_ fValue "--predict");
   ("-b", as_ fValue "--batch-size"); ("--batch-size", fValue); ("-ub", as_ fValue "--ubatch-size");
   ("--ubatch-size", fValue); ("--keep", fValue); ("--swa-full", fBool); ("-fa", as_ fValue "--flash-attn");
   ("--flash-attn", fValue); ("--perf", fBool); ("--no-perf", as_ fBool "--perf"); ("-e", as_ fBool "--escape");
   ("--escape", fBool); ("--no-escape", as_ fBool "--escape"); ("--rope-scaling", fValue); ("--rope-scale", fValue);
   ("--rope-freq-base", fValue); ("--rope-freq-scale", fValue); ("--yarn-orig-ctx", fValue);
   ("--yarn-ext-factor", fValue); ("--yarn-attn-factor", fValue); ("--yarn-beta-slow", fValue);
   ("--yarn-beta-fast", fValue); ("-kvo", as_ fBool "--kv-offload"); ("--kv-offload", fBool);
   ("-nkvo", as_ fBool "--kv-offload"); ("--no-kv-offload", as_ fBool "--kv-offload"); ("--repack", fBool);
   ("-nr", as_ fBool "--repack"); ("--no-repack", as_ fBool "--repack"); ("--no-host", fBool);
   ("-ctk", as_ fValue "--cache-type-k"); ("--cache-type-k", fValue); ("-ctv", as_ fValue "--cache-type-v");
   ("--cache-type-v", fValue); ("-dt", as_ fValue "--defrag-thold"); ("--defrag-thold", fValue);
   ("-lm", as_ fValue "--load-mode"); ("--load-mode", fValue); ("-lzm", as_ fValue "--lazy-mode");
   ("--lazy-mode", fValue); ("--numa", fValue); ("-dev", as_ fValue "--device"); ("--device", fValue);
   ("--list-devices", fBool); ("-ot", as_ fValue "--override-tensor"); ("--override-tensor", fValue);
   ("-cmoe", as_ fBool "--cpu-moe"); ("--cpu-moe", fBool); ("-ncmoe", as_ fValue "--n-cpu-moe");
   ("--n-cpu-moe", fValue); ("-ncffn", as_ fValue "--n-cpu-ffn"); ("--n-cpu-ffn", fValue);
   ("-ngl", as_ fValue "--gpu-layers"); ("--gpu-layers", fValue); ("--n-gpu-layers", as_ fValue "--gpu-layers");
   ("-sm", as_ fValue "--split-mode"); ("--split-mode", fValue); ("-ts", as_ fValue "--tensor-split");
   ("--tensor-split", fValue); ("-mg", as_ fValue "--main-gpu"); ("--main-gpu", fValue);
   ("-fit", as_ fValue "--fit"); ("--fit", fValue); ("-fitt", as_ fValue "--fit-target"); ("--fit-target", fValue);
   ("-fitc", as_ fValue "--fit-ctx"); ("--fit-ctx", fValue); ("--check-tensors", fBool); ("--override-kv", fValue);
   ("--op-offload", fBool); ("--no-op-offload", as_ fBool "--op-offload"); ("--lora", fPathCSV);
   ("--lora-scaled", fPathCSVColon); ("--control-vector", fPathCSV); ("--control-vector-scaled", fPathCSVColon);
   ("--control-vector-layer-range", fValue2); ("-m", as_ fPath "--model"); ("--model", fPath);
   ("-mu", as_ fValue "--model-url"); ("--model-url", fValue); ("-dr", as_ fValue "--docker-repo");
   ("--docker-repo", fValue); ("-hf", as_ fValue "--hf-repo"); ("-hfr", as_ fValue "--hf-repo");
   ("--hf-repo", fValue); ("-hff", as_ fPath "--hf-file"); ("--hf-file", fPath); ("-hft", as_ fValue "--hf-token");
   ("--hf-token", fValue); ("--log-disable", fBool); ("--log-file", fPath); ("--log-jsonl", fBool);
   ("--no-log-jsonl", as_ fBool "--log-jsonl"); ("--log-colors", fValue); ("-v", as_ fBool "--verbose");
   ("--verbose", fBool); ("--log-verbose", as_ fBool "--verbose"); ("--offline", fBool);
   ("-lv", as_ fValue "--verbosity"); ("--verbosity", fValue); ("--log-verbosity", as_ fValue "--verbosity");
   ("--log-prefix", fBool); ("--no-log-prefix", as_ fBool "--log-prefix"); ("--log-timestamps", fBool);
   ("--no-log-timestamps", as_ fBool "--log-timestamps"); ("--spec-draft-type-k", fValue);
   ("-ctkd", as_ fValue "--spec-draft-type-k"); ("--cache-type-k-draft", as_ fValue "--spec-draft-type-k");
   ("--spec-draft-type-v", fValue); ("-ctvd", as_ fValue "--spec-draft-type-v");
   ("--cache-type-v-draft", as_ fValue "--spec-draft-type-v"); ("--samplers", fValue); ("-s", as_ fValue "--seed");
   ("--seed", fValue); ("--sampler-seq", fValue); ("--sampling-seq", as_ fValue "--sampler-seq");
   ("--ignore-eos", fBool); ("--temp", fValue); ("--temperature", as_ fValue "--temp")].

Definition llamaFlags2 : list (string * FlagSpec) :=
  [("--top-k", fValue); ("--top-p", fValue); ("--min-p", fValue); ("--top-nsigma", fValue);
   ("--top-n-sigma", as_ fValue "--top-nsigma"); ("--xtc-probability", fValue); ("--xtc-threshold", fValue);
   ("--typical", fValue); ("--typical-p", as_ fValue "--typical"); ("--repeat-last-n", fValue);
   ("--repeat-penalty", fValue); ("--presence-penalty", fValue); ("--frequency-penalty", fValue);
   ("--dry-multiplier", fValue); ("--dry-base", fValue); ("--dry-allowed-length", fValue);
   ("--dry-penalty-last-n", fValue); ("--dry-sequence-breaker", fValue); ("--adaptive-target", fValue);
   ("--adaptive-decay", fValue); ("--dynatemp-range", fValue); ("--dynatemp-exp", fValue); ("--mirostat", fValue);
   ("--mirostat-lr", fValue); ("--mirostat-ent", fValue); ("-l", as_ fValue "--logit-bias");
   ("--logit-bias", fValue); ("--grammar", fValue); ("--grammar-file", fPath); ("-j", as_ fValue "--json-schema");
   ("--json-schema", fValue); ("-jf", as_ fPath "--json-schema-file"); ("--json-schema-file", fPath);
   ("-bs", as_ fBool "--backend-sampling"); ("--backend-sampling", fBool); ("--spec-draft-hf", fValue);
   ("-hfd", as_ fValue "--spec-draft-hf"); ("-hfrd", as_ fValue "--spec-draft-hf");
   ("--hf-repo-draft", as_ fValue "--spec-draft-hf"); ("--spec-draft-threads", fValue);
   ("-td", as_ fValue "--spec-draft-threads"); ("--threads-draft", as_ fValue "--spec-draft-threads");
   ("--spec-draft-threads-batch", fValue); ("-tbd", as_ fValue "--spec-draft-threads-batch");
   ("--threads-batch-draft", as_ fValue "--spec-draft-threads-batch"); ("--spec-draft-cpu-mask", fValue);
   ("-Cd", as_ fValue "--spec-draft-cpu-mask"); ("--cpu-mask-draft", as_ fValue "--spec-draft-cpu-mask");
   ("--spec-draft-cpu-range", fValue); ("-Crd", as_ fValue "--spec-draft-cpu-range");
   ("--cpu-range-draft", as_ fValue "--spec-draft-cpu-range"); ("--spec-draft-cpu-strict", fValue);
   ("--cpu-strict-draft", as_ fValue "--spec-draft-cpu-strict"); ("--spec-draft-prio", fValue);
   ("--prio-draft", as_ fValue "--spec-draft-prio"); ("--spec-draft-poll", fValue);
   ("--poll-draft", as_ fValue "--spec-draft-poll"); ("--spec-draft-cpu-mask-batch", fValue);
   ("-Cbd", as_ fValue "--spec-draft-cpu-mask-batch");
   ("--cpu-mask-batch-draft", as_ fValue "--spec-draft-cpu-mask-batch"); ("--spec-draft-cpu-strict-batch", fValue);
   ("--cpu-strict-batch-draft", as_ fValue "--spec-draft-cpu-strict-batch"); ("--spec-draft-prio-batch", fValue);
   ("--prio-batch-draft", as_ fValue "--spec-draft-prio-batch"); ("--spec-draft-poll-batch", fValue);
   ("--poll-batch-draft", as_ fValue "--spec-draft-poll-batch"); ("--spec-draft-override-tensor", fValue);
   ("-otd", as_ fValue "--spec-draft-override-tensor");
   ("--override-tensor-draft", as_ fValue "--spec-draft-override-tensor"); ("--spec-draft-cpu-moe", fBool);
   ("-cmoed", as_ fBool "--spec-draft-cpu-moe"); ("--cpu-moe-draft", as_ fBool "--spec-draft-cpu-moe");
   ("--spec-draft-n-cpu-moe", fValue); ("--spec-draft-ncmoe", as_ fValue "--spec-draft-n-cpu-moe");
   ("-ncmoed", as_ fValue "--spec-draft-n-cpu-moe"); ("--n-cpu-moe-draft", as_ fValue "--spec-draft-n-cpu-moe");
   ("--spec-draft-n-max", fValue); ("--spec-draft-n-min", fValue); ("--spec-synth-len", fValue);
   ("--spec-synth-rates", fValue); ("--spec-draft-p-split", fValue);
   ("--draft-p-split", as_ fValue "--spec-draft-p-split"); ("--spec-draft-p-min", fValue);
   ("--draft-p-min", as_ fValue "--spec-draft-p-min"); ("--spec-draft-backend-sampling", fBool);
   ("--no-spec-draft-backend-sampling", as_ fBool "--spec-draft-backend-sampling"); ("--spec-draft-device", fValue);
   ("-devd", as_ fValue "--spec-draft-device"); ("--device-draft", as_ fValue "--spec-draft-device");
   ("--spec-draft-ngl", fValue); ("-ngld", as_ fValue "--spec-draft-ngl");
   ("--gpu-layers-draft", as_ fValue "--spec-draft-ngl"); ("--n-gpu-layers-draft", as_ fValue "--spec-draft-ngl");
   ("--spec-draft-model", fPath); ("-md", as_ fPath "--spec-draft-model");
   ("--model-draft", as_ fPath "--spec-draft-model"); ("--spec-type", fValue); ("--spec-ngram-mod-n-min", fValue);
   ("--spec-ngram-mod-n-max", fValue); ("--spec-ngram-mod-n-match", fValue); ("--spec-ngram-simple-size-n", fValue);
   ("--spec-ngram-simple-size-m", fValue); ("--spec-ngram-simple-min-hits", fValue);
   ("--spec-ngram-map-k-size-n", fValue); ("--spec-ngram-map-k-size-m", fValue);
   ("--spec-ngram-map-k-min-hits", fValue); ("--spec-ngram-map-k4v-size-n", fValue);
   ("--spec-ngram-map-k4v-size-m", fValue); ("--spec-ngram-map-k4v-min-hits", fValue); ("--draft", fValue);
   ("--draft-n", as_ fValue "--draft"); ("--draft-max", as_ fValue "--draft"); ("--draft-min", fValue);
   ("--draft-n-min", as_ fValue "--draft-min"); ("--spec-ngram-size-n", fValue); ("--spec-ngram-size-m", fValue);
   ("--spec-ngram-min-hits", fValue); ("-lcs", as_ fPath "--lookup-cache-static"); ("--lookup-cache-static", fPath);
   ("-lcd", as_ fPath "--lookup-cache-dynamic"); ("--lookup-cache-dynamic", fPath);
   ("--kv-unified-per-slot", fValue); ("-ctxcp", as_ fValue "--ctx-checkpoints"); ("--ctx-checkpoints", fValue);
   ("--swa-checkpoints", as_ fValue "--ctx-checkpoints"); ("-cms", as_ fValue "--checkpoint-min-step");
   ("--checkpoint-min-step", fValue); ("-cram", as_ fValue "--cache-ram"); ("--cache-ram", fValue);
   ("-kvu", as_ fBool "--kv-unified"); ("--kv-unified", fBool); ("-no-kvu", as_ fBool "--kv-unified");
   ("--no-kv-unified", as_ fBool "--kv-unified"); ("--cache-idle-slots", fBool);
   ("--no-cache-idle-slots", as_ fBool "--cache-idle-slots"); ("--context-shift", fBool);
   ("--no-context-shift", as_ fBool "--context-shift"); ("-r", as_ fValue "--reverse-prompt");
   ("--reverse-prompt", fValue); ("-sp", as_ fBool "--special"); ("--special", fBool); ("--warmup", fBool);
   ("--no-warmup", as_ fBool "--warmup"); ("--spm-infill", fBool); ("--pooling", fValue);
   ("-np", as_ fValue "--parallel"); ("--parallel", fValue); ("-cb", as_ fBool "--cont-batching");
   ("--cont-batching", fBool)].

Definition llamaFlags3 : list (string * FlagSpec) :=
  [("-nocb", as_ fBool "--cont-batching"); ("--no-cont-batching", as_ fBool "--cont-batching");
   ("-mm", as_ fPath "--mmproj"); ("--mmproj", fPath); ("-mmu", as_ fValue "--mmproj-url"); ("--mmproj-url", fValue);
   ("--mmproj-auto", fBool); ("--no-mmproj", as_ fBool "--mmproj-auto");
   ("--no-mmproj-auto", as_ fBool "--mmproj-auto"); ("--mmproj-offload", fBool);
   ("--no-mmproj-offload", as_ fBool "--mmproj-offload"); ("-mmdev", as_ fValue "--mmproj-device");
   ("--mmproj-device", fValue); ("--image-min-tokens", fValue); ("--image-max-tokens", fValue);
   ("--mtmd-batch-max-tokens", fValue); ("--video-fps", fValue); ("--video-timestamp-interval", fValue);
   ("--video-ffmpeg-dir", fPath); ("-a", as_ fValue "--alias"); ("--alias", fValue); ("--tags", fValue);
   ("--embd-normalize", fValue); ("--host", fPath); ("--port", fValue); ("--reuse-port", fBool); ("--path", fPath);
   ("--cors-origins", fValue); ("--cors-methods", fValue); ("--cors-headers", fValue); ("--cors-credentials", fBool);
   ("--no-cors-credentials", as_ fBool "--cors-credentials"); ("--api-prefix", fValue); ("--ui-config", fValue);
   ("--webui-config", as_ fValue "--ui-config"); ("--ui-config-file", fPath);
   ("--webui-config-file", as_ fPath "--ui-config-file"); ("--ui-mcp-proxy", fBool);
   ("--webui-mcp-proxy", as_ fBool "--ui-mcp-proxy"); ("--no-ui-mcp-proxy", as_ fBool "--ui-mcp-proxy");
   ("--no-webui-mcp-proxy", as_ fBool "--ui-mcp-proxy"); ("--tools", fValue); ("--tools-runtime", fValue);
   ("--mcp-servers-config", fPath); ("--mcp-servers-json", fValue); ("-ag", as_ fBool "--agent"); ("--agent", fBool);
   ("-no-ag", as_ fBool "--agent"); ("--no-agent", as_ fBool "--agent"); ("--ui", fBool);
   ("--webui", as_ fBool "--ui"); ("--no-ui", as_ fBool "--ui"); ("--no-webui", as_ fBool "--ui");
   ("--embedding", fBool); ("--embeddings", as_ fBool "--embedding"); ("--rerank", fBool);
   ("--reranking", as_ fBool "--rerank"); ("--api-key", fValue); ("--api-key-file", fPath);
   ("--ssl-key-file", fPath); ("--ssl-cert-file", fPath); ("--chat-template-kwargs", fValue);
   ("-to", as_ fValue "--timeout"); ("--timeout", fValue); ("--sse-ping-interval", fValue);
   ("--threads-http", fValue); ("--cache-prompt", fBool); ("--no-cache-prompt", as_ fBool "--cache-prompt");
   ("--cache-reuse", fValue); ("--metrics", fBool); ("--props", fBool); ("--slots", fBool);
   ("--no-slots", as_ fBool "--slots"); ("--slot-save-path", fPath); ("--media-path", fPath);
   ("--models-dir", fPath); ("--models-preset", fPath); ("--models-max", fValue); ("--models-autoload", fBool);
   ("--no-models-autoload", as_ fBool "--models-autoload"); ("--jinja", fBool); ("--no-jinja", as_ fBool "--jinja");
   ("--reasoning-format", fValue); ("-rea", as_ fValue "--reasoning"); ("--reasoning", fValue);
   ("--reasoning-effort", fValue); ("--reasoning-budget", fValue); ("--reasoning-budget-message", fValue);
   ("--reasoning-preserve", fBool); ("--no-reasoning-preserve", as_ fBool "--reasoning-preserve");
   ("--chat-template", fValue); ("--chat-template-file", fPath); ("--skip-chat-parsing", fBool);
   ("--no-skip-chat-parsing", as_ fBool "--skip-chat-parsing"); ("--prefill-assistant", fBool);
   ("--no-prefill-assistant", as_ fBool "--prefill-assistant"); ("-sps", as_ fValue "--slot-prompt-similarity");
   ("--slot-prompt-similarity", fValue); ("--lora-init-without-apply", fBool); ("--sleep-idle-seconds", fValue);
   ("--log-prompts-dir", fPath); ("--embd-gemma-default", fBool); ("--fim-qwen-1.5b-default", fBool);
   ("--fim-qwen-3b-default", fBool); ("--fim-qwen-7b-default", fBool); ("--fim-qwen-7b-spec", fBool);
   ("--fim-qwen-14b-spec", fBool); ("--fim-qwen-30b-default", fBool); ("--gpt-oss-20b-default", fBool);
   ("--gpt-oss-120b-default", fBool); ("--vision-gemma-4b-default", fBool); ("--vision-gemma-12b-default", fBool);
   ("--spec-default", fBool)].

Definition mlxServerFlagSpecs : list (string * FlagSpec) :=
  [("--model", fPath); ("--host", fValue); ("--port", fValue); ("--max-slots", fValue);
   ("--tool-call-format", fValue); ("--reasoning", fValue); ("-h", as_ fBool "--help"); ("--help", fBool)].

Definition tensorfoldFlagSpecs : list (string * FlagSpec) :=
  [("-h", as_ fBool "--help"); ("--help", fBool); ("--host", fValue); ("--port", fValue); ("--name", fValue);
   ("--alias", fValue); ("--context", fValue); ("--max-tokens", fValue); ("--temperature", fValue);
   ("--top-p", fValue); ("--top-k", fValue); ("--thinking", fBool); ("--no-thinking", as_ fBool "--thinking");
   ("--reasoning-effort", fValue); ("--thinking-budget", fValue); ("--no-drafts", fBool); ("--drafter", fPath);
   ("--drafter-bits", fValue); ("--mtp-drafts", fValue); ("--lane-kernels", fValue); ("--prompt-cache-gib", fValue);
   ("--snapshot-dir", fPath); ("--max-snapshots", fValue); ("--mlx-cache-gib", fValue); ("--no-update-check", fBool);
   ("--backend", fValue); ("--tp", fValue); ("--rank", fValue); ("--master", fValue); ("--master-port", fValue)].

Definition vllmSwiftFlags1 : list (string * FlagSpec) :=
  [("--aggregate-engine-logging", fBool); ("--api-server-count", fValue); ("-asc", as_ fValue "--api-server-count");
   ("--config", fPath); ("--disable-log-stats", fBool); ("--enable-log-requests", fBool);
   ("--no-enable-log-requests", as_ fBool "--enable-log-requests"); ("--fail-on-environ-validation", fBool);
   ("--no-fail-on-environ-validation", as_ fBool "--fail-on-environ-validation"); ("--gdn-prefill-backend", fValue);
   ("--headless", fBool); ("--shutdown-timeout", fValue); ("-h", as_ fBool "--help"); ("--help", fBool);
   ("--allow-credentials", fBool); ("--no-allow-credentials", as_ fBool "--allow-credentials");
   ("--allowed-headers", fValue); ("--allowed-methods", fValue); ("--allowed-origins", fValue);
   ("--api-key", fValueMulti); ("--chat-template", fPath); ("--chat-template-content-format", fValue);
   ("--default-chat-template-kwargs", fValue); ("--disable-access-log-for-endpoints", fValue);
   ("--disable-fastapi-docs", fBool); ("--no-disable-fastapi-docs", as_ fBool "--disable-fastapi-docs");
   ("--disable-uvicorn-access-log", fBool);
   ("--no-disable-uvicorn-access-log", as_ fBool "--disable-uvicorn-access-log");
   ("--enable-auto-tool-choice", fBool); ("--no-enable-auto-tool-choice", as_ fBool "--enable-auto-tool-choice");
   ("--enable-force-include-usage", fBool);
   ("--no-enable-force-include-usage", as_ fBool "--enable-force-include-usage"); ("--enable-log-deltas", fBool);
   ("--no-enable-log-deltas", as_ fBool "--enable-log-deltas"); ("--enable-log-outputs", fBool);
   ("--no-enable-log-outputs", as_ fBool "--enable-log-outputs"); ("--enable-offline-docs", fBool);
   ("--no-enable-offline-docs", as_ fBool "--enable-offline-docs"); ("--enable-prompt-tokens-details", fBool);
   ("--no-enable-prompt-tokens-details", as_ fBool "--enable-prompt-tokens-details");
   ("--enable-request-id-headers", fBool);
   ("--no-enable-request-id-headers", as_ fBool "--enable-request-id-headers");
   ("--enable-server-load-tracking", fBool);
   ("--no-enable-server-load-tracking", as_ fBool "--enable-server-load-tracking"); ("--enable-ssl-refresh", fBool);
   ("--no-enable-ssl-refresh", as_ fBool "--enable-ssl-refresh"); ("--enable-tokenizer-info-endpoint", fBool);
   ("--no-enable-tokenizer-info-endpoint", as_ fBool "--enable-tokenizer-info-endpoint");
   ("--exclude-tools-when-tool-choice-none", fBool);
   ("--no-exclude-tools-when-tool-choice-none", as_ fBool "--exclude-tools-when-tool-choice-none");
   ("--h11-max-header-count", fValue); ("--h11-max-incomplete-event-size", fValue); ("--host", fValue);
   ("--log-config-file", fPath); ("--log-error-stack", fBool);
   ("--no-log-error-stack", as_ fBool "--log-error-stack"); ("--lora-modules", fPathNameEqPathMultiExists);
   ("--max-log-len", fValue); ("--middleware", fValue); ("--port", fValue); ("--response-role", fValue);
   ("--return-tokens-as-token-ids", fBool);
   ("--no-return-tokens-as-token-ids", as_ fBool "--return-tokens-as-token-ids"); ("--root-path", fValue);
   ("--ssl-ca-certs", fPath); ("--ssl-cert-reqs", fValue); ("--ssl-certfile", fPath); ("--ssl-ciphers", fValue);
   ("--ssl-keyfile", fPath); ("--tokens-only", fBool); ("--no-tokens-only", as_ fBool "--tokens-only");
   ("--tool-call-parser", fValue); ("--tool-parser-plugin", fPath); ("--tool-server", fValue);
   ("--trust-request-chat-template", fBool);
   ("--no-trust-request-chat-template", as_ fBool "--trust-request-chat-template"); ("--uds", fPath);
   ("--uvicorn-log-level", fValue); ("--allow-deprecated-quantization", fBool);
   ("--no-allow-deprecated-quantization", as_ fBool "--allow-deprecated-quantization");
   ("--allowed-local-media-path", fPath); ("--allowed-media-domains", fValueMulti); ("--code-revision", fValue);
   ("--config-format", fValue); ("--convert", fValue); ("--disable-cascade-attn", fBool);
   ("--no-disable-cascade-attn", as_ fBool "--disable-cascade-attn"); ("--disable-sliding-window", fBool);
   ("--no-disable-sliding-window", as_ fBool "--disable-sliding-window"); ("--dtype", fValue);
   ("--enable-prompt-embeds", fBool); ("--no-enable-prompt-embeds", as_ fBool "--enable-prompt-embeds");
   ("--enable-return-routed-experts", fBool);
   ("--no-enable-return-routed-experts", as_ fBool "--enable-return-routed-experts"); ("--enable-sleep-mode", fBool);
   ("--no-enable-sleep-mode", as_ fBool "--enable-sleep-mode"); ("--enforce-eager", fBool);
   ("--no-enforce-eager", as_ fBool "--enforce-eager"); ("--generation-config", fPathExists);
   ("--hf-config-path", fPathExists); ("--hf-overrides", fValue); ("--hf-token", fValueOptional);
   ("--io-processor-plugin", fValue); ("--logits-processors", fValueMulti); ("--logprobs-mode", fValue);
   ("--max-logprobs", fValue); ("--max-model-len", fValue); ("--model", fPath); ("--model-impl", fValue);
   ("--override-attention-dtype", fValue); ("--override-generation-config", fValue); ("--pooler-config", fValue);
   ("--quantization", fValue); ("-q", as_ fValue "--quantization"); ("--renderer-num-workers", fValue);
   ("--revision", fValue); ("--runner", fValue); ("--seed", fValue); ("--served-model-name", fValueMulti);
   ("--skip-tokenizer-init", fBool); ("--no-skip-tokenizer-init", as_ fBool "--skip-tokenizer-init");
   ("--tokenizer", fPathExists); ("--tokenizer-mode", fValue); ("--tokenizer-revision", fValue);
   ("--trust-remote-code", fBool); ("--no-trust-remote-code", as_ fBool "--trust-remote-code");
   ("--download-dir", fPath); ("--ignore-patterns", fValueMulti); ("--load-format", fValue);
   ("--model-loader-extra-config", fValue); ("--pt-load-map-location", fValue);
   ("--safetensors-load-strategy", fValue); ("--use-tqdm-on-load", fBool);
   ("--no-use-tqdm-on-load", as_ fBool "--use-tqdm-on-load"); ("--attention-backend", fValue);
   ("--reasoning-parser", fValue); ("--reasoning-parser-plugin", fPath); ("--all2all-backend", fValue);
   ("--cp-kv-cache-interleave-size", fValue); ("--data-parallel-address", fValue);
   ("-dpa", as_ fValue "--data-parallel-address"); ("--data-parallel-backend", fValue);
   ("-dpb", as_ fValue "--data-parallel-backend"); ("--data-parallel-external-lb", fBool);
   ("--no-data-parallel-external-lb", as_ fBool "--data-parallel-external-lb");
   ("-dpe", as_ fBool "--data-parallel-external-lb"); ("--data-parallel-hybrid-lb", fBool);
   ("--no-data-parallel-hybrid-lb", as_ fBool "--data-parallel-hybrid-lb");
   ("-dph", as_ fBool "--data-parallel-hybrid-lb")].

Definition vllmSwiftFlags2 : list (string * FlagSpec) :=
  [("--data-parallel-rank", fValue); ("-dpn", as_ fValue "--data-parallel-rank");
   ("--data-parallel-rpc-port", fValue); ("-dpp", as_ fValue "--data-parallel-rpc-port");
   ("--data-parallel-size", fValue); ("-dp", as_ fValue "--data-parallel-size");
   ("--data-parallel-size-local", fValue); ("-dpl", as_ fValue "--data-parallel-size-local");
   ("--data-parallel-start-rank", fValue); ("-dpr", as_ fValue "--data-parallel-start-rank");
   ("--dbo-decode-token-threshold", fValue); ("--dbo-prefill-token-threshold", fValue);
   ("--dcp-comm-backend", fValue); ("--dcp-kv-cache-interleave-size", fValue);
   ("--decode-context-parallel-size", fValue); ("-dcp", as_ fValue "--decode-context-parallel-size");
   ("--disable-custom-all-reduce", fBool);
   ("--no-disable-custom-all-reduce", as_ fBool "--disable-custom-all-reduce");
   ("--disable-nccl-for-dp-synchronization", fBool);
   ("--no-disable-nccl-for-dp-synchronization", as_ fBool "--disable-nccl-for-dp-synchronization");
   ("--distributed-executor-backend", fValue); ("--distributed-timeout-seconds", fValue); ("--enable-dbo", fBool);
   ("--no-enable-dbo", as_ fBool "--enable-dbo"); ("--enable-elastic-ep", fBool);
   ("--no-enable-elastic-ep", as_ fBool "--enable-elastic-ep"); ("--enable-ep-weight-filter", fBool);
   ("--no-enable-ep-weight-filter", as_ fBool "--enable-ep-weight-filter"); ("--enable-eplb", fBool);
   ("--no-enable-eplb", as_ fBool "--enable-eplb"); ("--enable-expert-parallel", fBool);
   ("--no-enable-expert-parallel", as_ fBool "--enable-expert-parallel");
   ("-ep", as_ fBool "--enable-expert-parallel"); ("--eplb-config", fValue); ("--expert-placement-strategy", fValue);
   ("--master-addr", fValue); ("--master-port", fValue); ("--max-parallel-loading-workers", fValue);
   ("--nnodes", fValue); ("-n", as_ fValue "--nnodes"); ("--node-rank", fValue); ("-r", as_ fValue "--node-rank");
   ("--pipeline-parallel-size", fValue); ("-pp", as_ fValue "--pipeline-parallel-size");
   ("--prefill-context-parallel-size", fValue); ("-pcp", as_ fValue "--prefill-context-parallel-size");
   ("--ray-workers-use-nsight", fBool); ("--no-ray-workers-use-nsight", as_ fBool "--ray-workers-use-nsight");
   ("--tensor-parallel-size", fValue); ("-tp", as_ fValue "--tensor-parallel-size"); ("--ubatch-size", fValue);
   ("--worker-cls", fValue); ("--worker-extension-cls", fValue); ("--block-size", fValue);
   ("--calculate-kv-scales", fBool); ("--no-calculate-kv-scales", as_ fBool "--calculate-kv-scales");
   ("--enable-prefix-caching", fBool); ("--no-enable-prefix-caching", as_ fBool "--enable-prefix-caching");
   ("--gpu-memory-utilization", fValue); ("--kv-cache-dtype", fValue); ("--kv-cache-dtype-skip-layers", fValueMulti);
   ("--kv-cache-memory-bytes", fValue); ("--kv-offloading-backend", fValue); ("--kv-offloading-size", fValue);
   ("--kv-sharing-fast-prefill", fBool); ("--no-kv-sharing-fast-prefill", as_ fBool "--kv-sharing-fast-prefill");
   ("--mamba-block-size", fValue); ("--mamba-cache-dtype", fValue); ("--mamba-cache-mode", fValue);
   ("--mamba-ssm-cache-dtype", fValue); ("--num-gpu-blocks-override", fValue);
   ("--prefix-caching-hash-algo", fValue); ("--cpu-offload-gb", fValue); ("--cpu-offload-params", fValueMulti);
   ("--offload-backend", fValue); ("--offload-group-size", fValue); ("--offload-num-in-group", fValue);
   ("--offload-params", fValueMulti); ("--offload-prefetch-step", fValue); ("--enable-mm-embeds", fBool);
   ("--no-enable-mm-embeds", as_ fBool "--enable-mm-embeds"); ("--interleave-mm-strings", fBool);
   ("--no-interleave-mm-strings", as_ fBool "--interleave-mm-strings"); ("--language-model-only", fBool);
   ("--no-language-model-only", as_ fBool "--language-model-only"); ("--limit-mm-per-prompt", fValue);
   ("--media-io-kwargs", fValue); ("--mm-encoder-attn-backend", fValue); ("--mm-encoder-only", fBool);
   ("--no-mm-encoder-only", as_ fBool "--mm-encoder-only"); ("--mm-encoder-tp-mode", fValue);
   ("--mm-processor-cache-gb", fValue); ("--mm-processor-cache-type", fValue); ("--mm-processor-kwargs", fValue);
   ("--mm-shm-cache-max-object-size-mb", fValue); ("--mm-tensor-ipc", fValue); ("--skip-mm-profiling", fBool);
   ("--no-skip-mm-profiling", as_ fBool "--skip-mm-profiling"); ("--video-pruning-rate", fValue);
   ("--default-mm-loras", fPath); ("--enable-lora", fBool); ("--no-enable-lora", as_ fBool "--enable-lora");
   ("--enable-tower-connector-lora", fBool);
   ("--no-enable-tower-connector-lora", as_ fBool "--enable-tower-connector-lora"); ("--fully-sharded-loras", fBool);
   ("--no-fully-sharded-loras", as_ fBool "--fully-sharded-loras"); ("--lora-dtype", fValue);
   ("--lora-target-modules", fValueMulti); ("--max-cpu-loras", fValue); ("--max-lora-rank", fValue);
   ("--max-loras", fValue); ("--specialize-active-lora", fBool);
   ("--no-specialize-active-lora", as_ fBool "--specialize-active-lora"); ("--collect-detailed-traces", fValueMulti);
   ("--cudagraph-metrics", fBool); ("--no-cudagraph-metrics", as_ fBool "--cudagraph-metrics");
   ("--enable-layerwise-nvtx-tracing", fBool);
   ("--no-enable-layerwise-nvtx-tracing", as_ fBool "--enable-layerwise-nvtx-tracing");
   ("--enable-logging-iteration-details", fBool);
   ("--no-enable-logging-iteration-details", as_ fBool "--enable-logging-iteration-details");
   ("--enable-mfu-metrics", fBool); ("--no-enable-mfu-metrics", as_ fBool "--enable-mfu-metrics");
   ("--kv-cache-metrics", fBool); ("--no-kv-cache-metrics", as_ fBool "--kv-cache-metrics");
   ("--kv-cache-metrics-sample", fValue); ("--otlp-traces-endpoint", fValue);
   ("--show-hidden-metrics-for-version", fValue); ("--async-scheduling", fBool);
   ("--no-async-scheduling", as_ fBool "--async-scheduling"); ("--disable-chunked-mm-input", fBool);
   ("--no-disable-chunked-mm-input", as_ fBool "--disable-chunked-mm-input");
   ("--disable-hybrid-kv-cache-manager", fBool);
   ("--no-disable-hybrid-kv-cache-manager", as_ fBool "--disable-hybrid-kv-cache-manager");
   ("--enable-chunked-prefill", fBool); ("--no-enable-chunked-prefill", as_ fBool "--enable-chunked-prefill");
   ("--long-prefill-token-threshold", fValue); ("--max-long-partial-prefills", fValue);
   ("--max-num-batched-tokens", fValue); ("--max-num-partial-prefills", fValue); ("--max-num-seqs", fValue);
   ("--scheduler-cls", fValue); ("--scheduler-reserve-full-isl", fBool);
   ("--no-scheduler-reserve-full-isl", as_ fBool "--scheduler-reserve-full-isl"); ("--scheduling-policy", fValue);
   ("--stream-interval", fValue); ("--cudagraph-capture-sizes", fValueMulti);
   ("--max-cudagraph-capture-size", fValue); ("--enable-flashinfer-autotune", fBool);
   ("--no-enable-flashinfer-autotune", as_ fBool "--enable-flashinfer-autotune")].

Definition vllmSwiftFlags3 : list (string * FlagSpec) :=
  [("--moe-backend", fValue); ("--additional-config", fValue); ("--attention-config", fValue);
   ("-ac", as_ fValue "--attention-config"); ("--compilation-config", fValue);
   ("-cc", as_ fValue "--compilation-config"); ("--ec-transfer-config", fValue); ("--kernel-config", fValue);
   ("--kv-events-config", fValue); ("--kv-transfer-config", fValue); ("--optimization-level", fValue);
   ("--performance-mode", fValue); ("--profiler-config", fValue); ("--reasoning-config", fValue);
   ("--speculative-config", fValue); ("-sc", as_ fValue "--speculative-config");
   ("--structured-outputs-config", fValue); ("--weight-transfer-config", fValue)].

(** ** The runtimes *)

Definition RuntimeLlamaServer : string := "llama-server".
Definition RuntimeLlamaCPP : string := "llamacpp".
Definition RuntimeMLXServer : string := "mlx-server".
Definition RuntimeTensorFold : string := "tensorfold".
Definition RuntimeVLLMSwift : string := "vllm-swift".

Definition llamaFlagSpecs : list (string * FlagSpec) := llamaFlags1 ++ llamaFlags2 ++ llamaFlags3.
Definition vllmSwiftFlagSpecs : list (string * FlagSpec) := vllmSwiftFlags1 ++ vllmSwiftFlags2 ++ vllmSwiftFlags3.

Definition flagSpecs : list (string * list (string * FlagSpec)) :=
  [(RuntimeLlamaCPP, selfCanonical llamaFlagSpecs); (RuntimeLlamaServer, selfCanonical llamaFlagSpecs);
   (RuntimeMLXServer, selfCanonical mlxServerFlagSpecs); (RuntimeTensorFold, selfCanonical tensorfoldFlagSpecs);
   (RuntimeVLLMSwift, selfCanonical vllmSwiftFlagSpecs)].

(** A read of a Go map given by its entries, and of a map of maps, where a missing map
    reads as an empty one. *)
Fixpoint assoc {A} (k : string) (l : list (string * A)) : option A :=
  match l with
  | [] => None
  | (k', v) :: l => if bool_decide (k = k') then Some v else assoc k l
  end.

Definition specs_of (runtime : string) : list (string * FlagSpec) := default [] (assoc runtime flagSpecs).

Definition specFor (runtime normalizedFlag : string) : option FlagSpec := assoc normalizedFlag (specs_of runtime).
