(* ===== verification/ArgRoots.v ===== *)
(** * Engine arguments: the allowed directories

    [pkg/agent/policy/roots.go]: the directories that model files and path arguments
    must resolve into, and that a path which is accepted leads there. *)

From stdpp Require Import base strings list.
From Stdlib Require Import ZArith Lia Bool Ascii.
From S2P Require Import Prelude GoStrings GoPath.

(** ** Roots *)

Record Roots := { dirs : list string }.

Inductive root_error :=
| RootHomeUnknown (p : string)
| RootUser (p : string)
| RootRelative (p : string)
| RootResolve (p : string) (e : path_err).

(** A leading tilde of a configured root. *)
Definition expand_root (p home : string) : result root_error string :=
  if bool_decide (p = "~") then if bool_decide (home = EmptyString) then Err (RootHomeUnknown p) else Ok home
  else match CutPrefix p "~/" with
       | Some rest => if bool_decide (home = EmptyString) then Err (RootHomeUnknown p) else Ok (home +:+ "/" +:+ rest)
       | None => if HasPrefix p "~" then Err (RootUser p) else Ok p
       end.

(** The roots, and the entries that do not exist. *)
Fixpoint NewRoots (f : fsys) (paths : list string) (home : string) : result root_error (Roots * list string) :=
  match paths with
  | [] => Ok ({| dirs := [] |}, [])
  | p :: paths =>
      if bool_decide (p = EmptyString) then NewRoots f paths home
      else
        p ← expand_root p home;
        if negb (IsAbs p) then Err (RootRelative p)
        else match EvalSymlinks f (Clean p) with
             | Err ErrNotExist => '(r, ignored) ← NewRoots f paths home; Ok (r, p :: ignored)
             | Err e => Err (RootResolve p e)
             | Ok resolved => '(r, ignored) ← NewRoots f paths home; Ok ({| dirs := resolved :: dirs r |}, ignored)
             end
  end.

Definition StripFileScheme (v : string) : string :=
  if (7 <=? String.length v)%nat && EqualFold (String.substring 0 7 v) "file://" then drop_bytes 7 v else v.

(** ** Resolving a path *)

Inductive resolve_error :=
| PathEmpty
| HomeUnknown
| TildeUser (p : string)
| HasParent (p : string)
| ResolveFailed (p : string) (e : path_err)
| DanglingLink (cur : string).

(** A leading tilde of a path. *)
Definition expand_home (p home : string) : result resolve_error string :=
  if HasPrefix p "~" then
    if bool_decide (home = EmptyString) then Err HomeUnknown
    else if bool_decide (p = "~") then Ok home
    else match CutPrefix p "~/" with
         | Some rest => Ok (home +:+ "/" +:+ rest)
         | None => Err (TildeUser p)
         end
  else Ok p.

(** The path that is resolved: without a scheme, with the home directory, absolute. *)
Definition expand_path (p workDir home : string) : result resolve_error string :=
  let p := StripFileScheme p in
  if bool_decide (p = EmptyString) then Err PathEmpty
  else p ← expand_home p home; Ok (if IsAbs p then p else workDir +:+ "/" +:+ p).

Fixpoint resolve_loop (f : fsys) (fuel : nat) (p cur rest : string) : result resolve_error string :=
  match fuel with
  | O => Err (ResolveFailed p ErrNotExist)
  | S fuel =>
      match EvalSymlinks f cur with
      | Ok resolved => Ok (JoinPath resolved rest)
      | Err ErrNotExist =>
          match Lstat f cur with
          | Ok (NLink _) => Err (DanglingLink cur)
          | _ =>
              let parent := Dir cur in
              if bool_decide (parent = cur) then Ok p
              else resolve_loop f fuel p parent (JoinPath (Base cur) rest)
          end
      | Err e => Err (ResolveFailed p e)
      end
  end.

Definition ResolvePath (f : fsys) (p workDir home : string) : result resolve_error string :=
  p ← expand_path p workDir home;
  if bool_decide (".." ∈ SplitByte p slash) then Err (HasParent p)
  else let p := Clean p in resolve_loop f (S (String.length p)) p p EmptyString.

Definition root_contains (d resolved : string) : bool :=
  bool_decide (resolved = d) || HasPrefix resolved (if HasSuffixByte d slash then d else d +:+ "/").

Definition Roots_Contains (r : Roots) (resolved : string) : bool := existsb (fun d => root_contains d resolved) (dirs r).

(** ** The checks *)

Record PathError := {
  pe_What : string;
  pe_Path : string;
  pe_Resolved : string;
  pe_Roots : list string;
  pe_Err : option resolve_error;
  pe_NotExist : bool;
  pe_Hint : string;
}.

Definition CheckPath (f : fsys) (r : Roots) (what p workDir home : string) : option PathError :=
  match ResolvePath f p workDir home with
  | Err e => Some {| pe_What := what; pe_Path := p; pe_Resolved := EmptyString; pe_Roots := dirs r; pe_Err := Some e;
                     pe_NotExist := false; pe_Hint := EmptyString |}
  | Ok resolved =>
      if Roots_Contains r resolved then None
      else Some {| pe_What := what; pe_Path := p; pe_Resolved := resolved; pe_Roots := dirs r; pe_Err := None;
                   pe_NotExist := false; pe_Hint := EmptyString |}
  end.

Definition CheckPathExists (f : fsys) (r : Roots) (what p workDir home : string) : option PathError :=
  match ResolvePath f p workDir home with
  | Err e => Some {| pe_What := what; pe_Path := p; pe_Resolved := EmptyString; pe_Roots := dirs r; pe_Err := Some e;
                     pe_NotExist := false; pe_Hint := EmptyString |}
  | Ok resolved =>
      if negb (Roots_Contains r resolved) then
        Some {| pe_What := what; pe_Path := p; pe_Resolved := resolved; pe_Roots := dirs r; pe_Err := None;
                pe_NotExist := false; pe_Hint := EmptyString |}
      else match Lstat f resolved with
           | Ok _ => None
           | Err _ => Some {| pe_What := what; pe_Path := p; pe_Resolved := resolved; pe_Roots := dirs r; pe_Err := None;
                              pe_NotExist := true; pe_Hint := EmptyString |}
           end
  end.

(** ** Where accepted paths lead *)

#[local] Opaque walk.

Lemma EvalSymlinks_abs f l s :
  Forall comp_ok l -> EvalSymlinks f (render true l) = Ok s ->
  exists d, s = render true d /\ Forall comp_ok d /\ walk f 255 true [] (SplitByte (render true l) slash) = Ok (true, d).
Proof.
  intros Hl. unfold EvalSymlinks. change (IsAbs (render true l)) with true.
  destruct (walk f 255 true [] (SplitByte (render true l) slash)) as [[r d]|e] eqn:Hw; [|done]. intros [= <-].
  destruct (walk_ok _ _ _ _ _ _ (split_no_slash _) (Forall_nil_2 _) Hw) as [-> Hd]. by exists d.
Qed.

(** The components of a rendered path, as [walk] takes them. *)
Lemma walk_render f links l : walk f links true [] (SplitByte (render true l) slash) = walk f links true [] (SplitByte (Join l "/") slash).
Proof. cbn [render SplitByte]. rewrite Ascii.eqb_refl. by rewrite walk_eq. Qed.

Lemma walk_comps f links l : Forall comp_ok l -> walk f links true [] (SplitByte (render true l) slash) = walk f links true [] l.
Proof.
  intros Hl. rewrite walk_render. destruct l as [|c l].
  - change (SplitByte (Join [] "/") slash) with [EmptyString]. by rewrite walk_eq.
  - by rewrite split_Join by (done || by apply comps_no_slash).
Qed.

Lemma Lstat_abs f l c d :
  Forall comp_ok (l ++ [c]) -> walk f 255 true [] l = Ok (true, d) ->
  Lstat f (render true (l ++ [c])) =
    match fs_at f (d ++ [c]) with None => Err ErrNotExist | Some NDenied => Err ErrDenied | Some n => Ok n end.
Proof.
  intros Hl Hw. unfold Lstat. change (IsAbs (render true (l ++ [c]))) with true. unfold clean_comps.
  rewrite clean_comps_filter by by apply render_no_up. cbn [app]. rewrite split_render by done.
  rewrite last_snoc, removelast_last, Hw. cbn [mbind result_bind place].
  apply Forall_app in Hl as [_ Hc]. inversion Hc as [|? ? [Hp _]]; subst. by rewrite clean_step_proper.
Qed.

(** As many steps as components are enough: more fuel changes nothing. *)
Lemma resolve_loop_fuel f n m p l rest :
  Forall comp_ok l -> (length l < n)%nat -> (length l < m)%nat ->
  resolve_loop f n p (render true l) rest = resolve_loop f m p (render true l) rest.
Proof.
  revert m l rest. induction n as [|n IH]; intros m l rest Hl Hn Hm; [lia|]. destruct m as [|m]; [lia|]. cbn [resolve_loop].
  destruct (EvalSymlinks f (render true l)) as [?|[]]; try done.
  assert (forall r, (if bool_decide (Dir (render true l) = render true l) then Ok p else resolve_loop f n p (Dir (render true l)) r) =
    (if bool_decide (Dir (render true l) = render true l) then Ok p else resolve_loop f m p (Dir (render true l)) r)) as Hstep.
  { intros r. destruct l as [|c l _] using rev_ind; [reflexivity|]. rewrite Dir_render by done. case_bool_decide; [done|].
    rewrite length_app in Hn, Hm. cbn in Hn, Hm. apply Forall_app in Hl as [Hl _]. apply IH; [done|lia..]. }
  destruct (Lstat f (render true l)) as [[]|]; auto.
Qed.

(** The loop of [ResolvePath]: what is left of the path after the deepest part that
    exists does not exist, and is no link. *)
Lemma resolve_loop_lands f fuel p l rest s :
  Forall comp_ok l -> Forall comp_ok rest -> (length l < fuel)%nat ->
  match rest with
  | [] => True
  | c :: _ => walk f 255 true [] (l ++ [c]) = Err ErrNotExist /\
              (forall t, Lstat f (render true (l ++ [c])) <> Ok (NLink t))
  end ->
  resolve_loop f fuel p (render true l) (Join rest "/") = Ok s ->
  exists e, s = render true e /\ Forall comp_ok e /\ lands f [] (l ++ rest) e.
Proof.
  revert l rest. induction fuel as [|fuel IH]; intros l rest Hl Hr Hf Hmiss; [lia|]. cbn [resolve_loop].
  destruct (EvalSymlinks f (render true l)) as [resolved|[]] eqn:He; try done.
  - intros [= <-]. apply EvalSymlinks_abs in He as (d & -> & Hd & Hw); [|done]. rewrite walk_comps in Hw by done.
    exists (d ++ rest). split; [by apply JoinPath_abs|]. split; [by apply Forall_app|].
    destruct rest as [|c rest].
    + rewrite !app_nil_r. eapply walk_lands; [by apply comps_no_slash|constructor|exact Hw].
    + destruct Hmiss as [Hm Hnl]. inversion Hr as [|? ? Hc Hr']; subst.
      eapply walk_lands_new; [by apply comps_no_slash|constructor|done|done|exact Hw|exact Hm|].
      destruct (walk_missing _ _ _ _ _ _ _ (proj1 Hc) Hw Hm eq_refl) as [?|[t Ht]]; [done|].
      exfalso. apply (Hnl t). rewrite (Lstat_abs f l c d); [by rewrite Ht| |done]. by apply Forall_app_2; [|constructor].
  - destruct l as [|c l _] using rev_ind.
    { unfold EvalSymlinks in He. change (IsAbs (render true [])) with true in He.
      rewrite walk_comps, walk_eq in He by constructor. done. }
    rewrite Dir_render, Base_render by done. pose proof Hl as [Hl0 Hc]%Forall_app. inversion Hc; subst.
    rewrite bool_decide_eq_false_2.
    2:{ intros E%render_inj; [|done..]. apply (f_equal length) in E. rewrite length_app in E. cbn in E. lia. }
    rewrite JoinPath_rest by done. rewrite <- app_assoc. cbn [app].
    assert (walk f 255 true [] (l ++ [c]) = Err ErrNotExist) as Hw.
    { rewrite <- (walk_comps f 255 (l ++ [c])) by done. unfold EvalSymlinks in He.
      change (IsAbs (render true (l ++ [c]))) with true in He. by destruct (walk _ _ _ _ _) as [[? ?]|]; simplify_eq/=. }
    destruct (Lstat f (render true (l ++ [c]))) as [[| |t|]|e] eqn:Hs; try done;
      (apply IH; [done|by constructor|rewrite length_app in Hf; cbn in Hf; lia|split; [done|congruence]]).
Qed.

(** The length of a rendered path bounds its components. *)
Lemma Join_length l : Forall comp_ok l -> (length l <= String.length (Join l "/") + 1)%nat.
Proof.
  induction 1 as [|c l [Hp _] _ IH]; [cbn; lia|]. destruct l as [|c' l]; [cbn; lia|].
  rewrite Join_cons2, length_app_str. cbn [length String.length] in *. lia.
Qed.

(** Every place the operating system takes an expanded path to is the one that
    [ResolvePath] found for it. *)
Lemma ResolvePath_lands f p workDir home p' s e :
  expand_path p workDir home = Ok p' -> IsAbs p' = true -> ResolvePath f p workDir home = Ok s ->
  lands f [] (SplitByte p' slash) e -> s = render true e /\ Forall comp_ok e.
Proof.
  intros Hx Ha. unfold ResolvePath. rewrite Hx. cbn [mbind result_bind]. case_bool_decide as Hu; [done|].
  rewrite Clean_abs by done. set (l := List.filter proper (SplitByte p' slash)).
  assert (Forall comp_ok l) as Hl by by apply split_filter_ok. intros Hs Hlands.
  apply (resolve_loop_lands _ _ _ l []) in Hs as (e' & -> & He' & Hd); [|done|done| |done].
  - rewrite app_nil_r in Hd. apply lands_filter in Hlands; [|done]. by rewrite (lands_det _ _ _ _ _ Hlands Hd).
  - pose proof (Join_length l Hl). cbn [render String.length]. lia.
Qed.

(** ** Containment *)

Lemma last_byte_app a b x : last_byte (a +:+ String x b) = last_byte (String x b).
Proof.
  induction a as [|y a IH]; rewrite ?app_nil, ?app_cons; [done|]. cbn [last_byte]. rewrite IH.
  destruct a; done.
Qed.

Lemma last_byte_no_slash c : ContainsByte c slash = false -> last_byte c <> Some slash.
Proof.
  induction c as [|x c IH]; cbn; [done|]. intros [Hx Hc]%orb_false_iff. destruct c as [|y c]; [|by apply IH].
  intros [= ->]. by rewrite Ascii.eqb_refl in Hx.
Qed.

Lemma Join_last_byte d : d <> [] -> Forall comp_ok d -> exists x, last_byte (Join d "/") = Some x /\ x <> slash.
Proof.
  intros Hne Hd. induction Hd as [|c d [Hp Hs] Hd IH]; [done|]. destruct d as [|c' d].
  - cbn [Join]. destruct (last_byte c) as [x|] eqn:Hx.
    + exists x. split; [done|]. intros ->. by apply last_byte_no_slash in Hx.
    + destruct c as [|y c]; [done|]. exfalso. clear -Hx. revert y Hx; induction c as [|z c IH]; intros y Hx; [done|]. by apply (IH z).
  - rewrite Join_cons2. destruct IH as (x & Hx & Hn); [done|]. exists x. split; [|done].
    rewrite last_byte_app. cbn [last_byte]. rewrite Hx. by destruct (Join (c' :: d) "/").
Qed.

Lemma suffix_render d : Forall comp_ok d -> HasSuffixByte (render true d) slash = bool_decide (d = []).
Proof.
  intros Hd. destruct d as [|c d]; [done|]. rewrite bool_decide_eq_false_2 by done.
  destruct (Join_last_byte (c :: d) ltac:(done) Hd) as (x & Hx & Hn). unfold HasSuffixByte.
  change (render true (c :: d)) with (String slash (Join (c :: d) "/")). cbn [last_byte]. rewrite Hx.
  destruct (Join (c :: d) "/"); [done|]. destruct (Ascii.eqb_spec x slash); [done|reflexivity].
Qed.

Lemma render_app d k : Forall comp_ok d -> k <> [] ->
  render true (d ++ k) = (if bool_decide (d = []) then render true d else render true d +:+ "/") +:+ Join k "/".
Proof.
  intros Hd Hk. case_bool_decide as Hn; [by subst|]. cbn [render]. rewrite !app_cons. f_equal. clear Hd.
  induction d as [|c d IH]; [done|]. destruct d as [|c' d].
  - destruct k as [|x k]; [done|]. change (Join [c] "/") with c. by rewrite app_assoc_str.
  - cbn [app] in *. rewrite !Join_cons2, IH by done. by rewrite !app_assoc_str, app_cons.
Qed.

(** A directory contains a path exactly when its components begin the path's: a
    sibling whose name extends the directory's is not contained. *)
Lemma root_contains_prefix d c :
  Forall comp_ok d -> Forall comp_ok c -> root_contains (render true d) (render true c) = true <-> d `prefix_of` c.
Proof.
  intros Hd Hc. unfold root_contains. rewrite suffix_render, orb_true_iff, bool_decide_eq_true by done. split.
  - intros [E%render_inj|H]; [by subst|done|done|].
    rewrite HasPrefix_CutPrefix in H. destruct (CutPrefix _ _) as [t|] eqn:Ht; [|done]. apply CutPrefix_Some in Ht.
    exists (List.filter proper (SplitByte t slash)). rewrite <- (split_render c Hc), Ht.
    case_bool_decide as Hn; [by subst|].
    rewrite app_assoc_str. change ("/" +:+ t) with (String slash t).
    by rewrite split_app_slash, List.filter_app, split_render.
  - intros [k ->]. destruct k as [|x k]; [left; by rewrite app_nil_r|right].
    rewrite render_app by done. rewrite HasPrefix_CutPrefix. by rewrite CutPrefix_app.
Qed.

Lemma clean_fold_ok l d : no_slash l -> Forall comp_ok d -> Forall comp_ok (fold_left (clean_step true) l d).
Proof. intros Hl; revert d. induction Hl as [|c l Hc _ IHl]; intros d Hd; [done|]. cbn. by apply IHl, clean_step_ok. Qed.

Lemma NewRoots_ok f paths home r ignored :
  NewRoots f paths home = Ok (r, ignored) -> Forall (fun d => exists l, d = render true l /\ Forall comp_ok l) (dirs r).
Proof.
  revert r ignored; induction paths as [|p paths IH]; intros r ignored; cbn [NewRoots]; [by intros [= <- _]; constructor|].
  case_bool_decide; [by apply IH|]. destruct (expand_root p home) as [p'|e]; [|done]. cbn [mbind result_bind].
  destruct (IsAbs p') eqn:Ha; [|done]. cbn [negb].
  destruct (EvalSymlinks f (Clean p')) as [resolved|[]] eqn:He; try done.
  - destruct (NewRoots f paths home) as [[r' ig]|e]; [|done]. intros [= <- <-]. constructor; [|by eapply IH].
    unfold Clean in He. rewrite Ha in He. set (l := clean_comps true _) in He.
    assert (Forall comp_ok l) as Hl.
    { apply clean_fold_ok; [apply split_no_slash|constructor]. }
    apply EvalSymlinks_abs in He as (d & -> & Hd & _); [|done]. by exists d.
  - destruct (NewRoots f paths home) as [[r' ig]|e]; [|done]. intros [= <- _]. by eapply IH.
Qed.

Lemma expand_path_abs p workDir home p' : IsAbs workDir = true -> expand_path p workDir home = Ok p' -> IsAbs p' = true.
Proof.
  intros Hw. unfold expand_path. case_bool_decide; [done|]. destruct (expand_home _ _) as [q|]; [|done].
  intros [= <-]. destruct (IsAbs q) eqn:Hq; [done|]. by destruct workDir.
Qed.

(** A path that either check accepts leads into an allowed directory: wherever the
    operating system takes the path, through links anywhere on it and through
    components that do not exist yet, the place begins with the components of a root. *)
Lemma CheckPath_lands (f0 f : fsys) (paths ignored : list string) (r : Roots) (what p workDir home p' : string)
    (e : list string) :
  NewRoots f0 paths home = Ok (r, ignored) -> IsAbs workDir = true ->
  CheckPath f r what p workDir home = None \/ CheckPathExists f r what p workDir home = None ->
  expand_path p workDir home = Ok p' -> lands f [] (SplitByte p' slash) e ->
  exists d, render true d ∈ dirs r /\ d `prefix_of` e.
Proof.
  intros Hr%NewRoots_ok Hw Hc Hx Hl. unfold CheckPath, CheckPathExists in Hc.
  destruct (ResolvePath f p workDir home) as [s|] eqn:Hs; [|naive_solver].
  destruct (ResolvePath_lands _ _ _ _ _ _ _ Hx (expand_path_abs _ _ _ _ Hw Hx) Hs Hl) as [-> He].
  destruct (Roots_Contains r (render true e)) eqn:Hin; [|naive_solver].
  apply existsb_exists in Hin as (x & Hx'%list_elem_of_In & Hp). rewrite Forall_forall in Hr.
  destruct (Hr x Hx') as (d & -> & Hd). exists d. split; [done|]. by apply root_contains_prefix.
Qed.
