(* ===== verification/Memory.v ===== *)
(** * The memory of a model (pkg/agent/memory.go, and the estimate and admission of
      pkg/agent/agent.go)

    How much memory a model is taken to need, how much it may have, and the check
    before an engine is started.  What the file system, the memory query, the probes of
    a remote source and [resource.ParseQuantity] answer is given; messages, events, the
    status of the service and metrics are left out.  A [uint64] is a [Z] that wraps, a
    division by zero panics, and a [float64] outside the range of [uint64] converts as
    on arm64, the architecture the agent runs on. *)

From stdpp Require Import base gmap strings list.
From Stdlib Require Import ZArith Lia Bool Ascii SpecFloat.
From S2P Require Import Prelude GoStrings GoFloat GoStrconv GoPath ArgRoots Agent.
Local Open Scope go_scope.

(** ** Numbers *)

Definition MaxUint64 : Z := two64 - 1.

(** [uint64(math.Ceil(x))]. *)
Definition uint64_ceil (x : float64) : Z :=
  match ceil_Z x with
  | Some z => Z.max 0 (Z.min MaxUint64 z)
  | None => if SFltb fzero x then MaxUint64 else 0
  end.

(** [x / y], [None] for the panic of a zero [y]. *)
Definition udiv (x y : Z) : option Z := if y =? 0 then None else Some (x / y).

(** ** The estimate *)

Record MemoryEstimate := {
  me_WeightsBytes : Z;
  me_KVCacheBytes : Z;
  me_OverheadBytes : Z;
  me_TotalBytes : Z;
}.

Definition overheadBytes : Z := 512 * 1024 * 1024.

Record EstimateOptions := {
  eo_CacheTypeK : string;
  eo_CacheTypeV : string;
  eo_HeadCount : Z;
  eo_HeadCountKV : Z;
  eo_KeyLength : Z;
  eo_ValueLength : Z;
}.

Definition cacheTypeBytesPerElement (t : string) : float64 :=
  if bool_decide (t = EmptyString) || bool_decide (t = "f16") then float_lit 20 10
  else if bool_decide (t = "f32") then float_lit 40 10
  else if bool_decide (t = "q8_0") then float_lit 10625 10000
  else if bool_decide (t = "q5_0") then float_lit 6875 10000
  else if bool_decide (t = "q5_1") then float_lit 75 100
  else if bool_decide (t = "q4_0") || bool_decide (t = "iq4_nl") then float_lit 5625 10000
  else if bool_decide (t = "q4_1") then float_lit 625 1000
  else if bool_decide (t = "turbo3") then float_lit 40625 100000
  else if bool_decide (t = "turbo4") then float_lit 53125 100000
  else float_lit 20 10.

Definition fallbackEstimate (fileSizeBytes : Z) : MemoryEstimate :=
  let scaled := uint64_ceil (fmul (float_of_int fileSizeBytes) (float_lit 12 10)) in
  {| me_WeightsBytes := fileSizeBytes; me_KVCacheBytes := 0;
     me_OverheadBytes := uwrap64 (uwrap64 (scaled - fileSizeBytes) + overheadBytes);
     me_TotalBytes := uwrap64 (scaled + overheadBytes) |}.

(** The number of key and value heads and the lengths of a key and of a value. *)
Definition resolveKVShape (embeddingSize : Z) (opts : EstimateOptions) : option (Z * Z * Z) :=
  if (eo_HeadCount opts =? 0) || (eo_HeadCountKV opts =? 0) || (eo_HeadCount opts <? eo_HeadCountKV opts) then None
  else
    let keyLen := eo_KeyLength opts in
    let valLen := eo_ValueLength opts in
    if ((keyLen =? 0) || (valLen =? 0)) && negb (embeddingSize mod eo_HeadCount opts =? 0) then None
    else
      let derived := embeddingSize / eo_HeadCount opts in
      Some (eo_HeadCountKV opts, if keyLen =? 0 then derived else keyLen, if valLen =? 0 then derived else valLen).

(** The estimate with a KV cache of [kvCache] bytes. *)
Definition estimate_with (fileSizeBytes kvCache : Z) : MemoryEstimate :=
  let total := uwrap64 (uwrap64 (fileSizeBytes + kvCache) + overheadBytes) in
  if total <? fileSizeBytes then fallbackEstimate fileSizeBytes
  else {| me_WeightsBytes := fileSizeBytes; me_KVCacheBytes := kvCache; me_OverheadBytes := overheadBytes; me_TotalBytes := total |}.

(** The estimate for grouped-query attention. *)
Definition estimate_shaped (fileSizeBytes layerCount contextSize kvHeads keyLen valLen : Z) (opts : EstimateOptions) : option MemoryEstimate :=
  let fallback := fallbackEstimate fileSizeBytes in
  let ctx := uwrap64 contextSize in
  let base := uwrap64 (layerCount * kvHeads) in
  q ← udiv base layerCount;
  if negb (q =? kvHeads) then Some fallback
  else
    let base := uwrap64 (base * ctx) in
    q ← udiv base ctx;
    if negb (q =? uwrap64 (layerCount * kvHeads)) then Some fallback
    else
      let kElems := uwrap64 (base * keyLen) in
      q ← udiv kElems base;
      if negb (q =? keyLen) then Some fallback
      else
        let vElems := uwrap64 (base * valLen) in
        q ← udiv vElems base;
        if negb (q =? valLen) then Some fallback
        else
          let bytesK := cacheTypeBytesPerElement (eo_CacheTypeK opts) in
          let bytesV := cacheTypeBytesPerElement (eo_CacheTypeV opts) in
          boundK ← udiv MaxUint64 (uwrap64 (4 * uint64_ceil bytesK));
          boundV ← udiv MaxUint64 (uwrap64 (4 * uint64_ceil bytesV));
          if (boundK <? kElems) || (boundV <? vElems) then Some fallback
          else Some (estimate_with fileSizeBytes
                       (uint64_ceil (fadd (fmul (float_of_int kElems) bytesK) (fmul (float_of_int vElems) bytesV)))).

(** The estimate from the width of the embedding. *)
Definition estimate_embedding (fileSizeBytes layerCount embeddingSize contextSize : Z) (opts : EstimateOptions) : option MemoryEstimate :=
  let fallback := fallbackEstimate fileSizeBytes in
  let layerEmbed := uwrap64 (layerCount * embeddingSize) in
  q ← udiv layerEmbed layerCount;
  if negb (q =? embeddingSize) then Some fallback
  else
    let ctx := uwrap64 contextSize in
    let product := uwrap64 (layerEmbed * ctx) in
    overflows ← (if ctx =? 0 then Some false else q ← udiv product ctx; Some (negb (q =? layerEmbed)));
    if (overflows : bool) then Some fallback
    else
      let bytesPerKV := fadd (cacheTypeBytesPerElement (eo_CacheTypeK opts)) (cacheTypeBytesPerElement (eo_CacheTypeV opts)) in
      bound ← udiv MaxUint64 (uwrap64 (4 * uint64_ceil bytesPerKV));
      if bound <? product then Some fallback
      else Some (estimate_with fileSizeBytes (uint64_ceil (fmul (float_of_int product) bytesPerKV))).

Definition EstimateModelMemoryWithOptions (fileSizeBytes layerCount embeddingSize contextSize : Z) (opts : EstimateOptions) : option MemoryEstimate :=
  if (layerCount =? 0) || (embeddingSize =? 0) then Some (fallbackEstimate fileSizeBytes)
  else match resolveKVShape embeddingSize opts with
       | Some (kvHeads, keyLen, valLen) =>
           if 0 <? contextSize then estimate_shaped fileSizeBytes layerCount contextSize kvHeads keyLen valLen opts
           else estimate_embedding fileSizeBytes layerCount embeddingSize contextSize opts
       | None => estimate_embedding fileSizeBytes layerCount embeddingSize contextSize opts
       end.

Definition EstimateModelMemory (fileSizeBytes layerCount embeddingSize contextSize : Z) : option MemoryEstimate :=
  EstimateModelMemoryWithOptions fileSizeBytes layerCount embeddingSize contextSize
    {| eo_CacheTypeK := EmptyString; eo_CacheTypeV := EmptyString; eo_HeadCount := 0; eo_HeadCountKV := 0; eo_KeyLength := 0; eo_ValueLength := 0 |}.

(** ** The size of a model *)

(** What is at a path: a directory has a size of its own and may be unreadable, a link
    has the length of the path it holds and leads somewhere or nowhere, and an entry may
    be gone when it is looked at. *)
Inductive tree :=
| File (size : Z)
| Folder (size : Z) (entries : list tree)
| Closed (size : Z)
| Link (length : Z) (target : option tree)
| Gone.

(** [os.Stat], which follows links. *)
Fixpoint Stat (t : tree) : option tree :=
  match t with
  | Link _ (Some t) => Stat t
  | Link _ None | Gone => None
  | _ => Some t
  end.

(** The [Size] and the [IsDir] of a file that is not a link. *)
Definition Size (t : tree) : Z :=
  match t with File n | Folder n _ | Closed n | Link n _ => n | Gone => 0 end.

Definition IsDir (t : tree) : bool :=
  match t with Folder _ _ | Closed _ => true | _ => false end.

(** [filepath.WalkDir], which does not follow links, with the callback that sums the
    sizes; [None] when it ends with an error. *)
Fixpoint walk_size (t : tree) (total : Z) : option Z :=
  match t with
  | File n | Link n _ => Some (uwrap64 (total + uwrap64 n))
  | Folder _ entries =>
      (fix walk (entries : list tree) (total : Z) : option Z :=
         match entries with
         | [] => Some total
         | e :: entries => total ← walk_size e total; walk entries total
         end) entries total
  | Closed _ | Gone => None
  end.

Definition localModelSize (t : tree) : option Z :=
  info ← Stat t;
  if negb (IsDir info) then Some (uwrap64 (Size info)) else walk_size t 0.

Definition hasFileScheme (source : string) : bool :=
  (7 <=? String.length source)%nat && EqualFold (String.substring 0 7 source) "file://".

Definition isLocalModelSource (source : string) : bool := hasFileScheme source || HasPrefix source "/".

Definition localSourcePath (source : string) : string :=
  if hasFileScheme source then drop_bytes 7 source else source.

Definition isS3Source (source : string) : bool :=
  (5 <=? String.length source)%nat && EqualFold (String.substring 0 5 source) "s3://".

Definition size_units : list (string * float64) :=
  [("B", float_of_int 1); ("KIB", float_of_int 1024); ("MIB", float_of_int (1024 * 1024));
   ("GIB", float_of_int (1024 * 1024 * 1024)); ("TIB", float_of_int (1024 * 1024 * 1024 * 1024))].

Definition multiplier (unit : string) : option float64 :=
  snd <$> List.find (fun u => bool_decide (fst u = ToUpper unit)) size_units.

Definition parseSize (s : string) : option Z :=
  let s := TrimSpace s in
  if bool_decide (s = EmptyString) then None
  else match Fields s with
       | [number; unit] =>
           value ← named_float number;
           m ← multiplier unit;
           Some (uint64_trunc (fmul value m))
       | _ => None
       end.

(** The answer to the HEAD request: its status and content length. *)
Definition remoteModelSize (reply : option (Z * Z)) : option Z :=
  '(status, contentLength) ← reply;
  if negb (status =? 200) then None
  else if contentLength <=? 0 then None
  else Some (uwrap64 contentLength).

(** The part of a Model that is read. *)
Record GGUFMetadata := {
  gm_LayerCount : Z;
  gm_EmbeddingSize : Z;
  gm_HeadCount : Z;
  gm_HeadCountKV : Z;
  gm_KeyLength : Z;
  gm_ValueLength : Z;
}.

Record HardwareSpec := {
  hw_MemoryBudget : string;
  hw_MemoryFraction : option float64;
}.

Record Model := {
  mo_Name : string;
  mo_Source : string;
  mo_Size : string;
  mo_GGUF : option GGUFMetadata;
  mo_Hardware : option HardwareSpec;
}.

(** What the agent finds: the file at a path, the answers of an http source and of the
    signed request to an s3 source, and those of the two queries of the total memory. *)
Record findings := {
  fi_at : string -> tree;
  fi_http : option (Z * Z);
  fi_s3 : option Z;
  fi_total : option Z;
  fi_total_again : option Z;
}.

(** The next source of a size when those before it gave none. *)
Definition or_else (size : Z) (next : option Z) : Z := if size =? 0 then default 0 next else size.

(** The size of the model's file, 0 when there is none to be had. *)
Definition model_size (modelStorePath : string) (f : findings) (model : Model) : Z :=
  let source := mo_Source model in
  let size := if isLocalModelSource source && IsAbs (localSourcePath source)
              then default 0 (localModelSize (fi_at f (localSourcePath source))) else 0 in
  let localPath := JoinPath (JoinPath modelStorePath (mo_Name model)) (Base source) in
  let size := or_else size ((fun info => uwrap64 (Size info)) <$> Stat (fi_at f localPath)) in
  let size := if bool_decide (mo_Size model = EmptyString) then size else or_else size (parseSize (mo_Size model)) in
  let size := if HasPrefix source "http://" || HasPrefix source "https://" then or_else size (remoteModelSize (fi_http f)) else size in
  if isS3Source source then or_else size (fi_s3 f) else size.

(** [None] for an error or a panic; [MemoryFacts] shows that there is no panic. *)
Definition estimateModelMemory (modelStorePath : string) (f : findings) (model : Model) (contextSize : Z)
    (cacheTypeK cacheTypeV : string) : option MemoryEstimate :=
  let fileSizeBytes := model_size modelStorePath f model in
  if fileSizeBytes =? 0 then None
  else
    let of_gguf field := default 0 (field <$> mo_GGUF model) in
    EstimateModelMemoryWithOptions fileSizeBytes (of_gguf gm_LayerCount) (of_gguf gm_EmbeddingSize) contextSize
      {| eo_CacheTypeK := cacheTypeK; eo_CacheTypeV := cacheTypeV; eo_HeadCount := of_gguf gm_HeadCount;
         eo_HeadCountKV := of_gguf gm_HeadCountKV; eo_KeyLength := of_gguf gm_KeyLength; eo_ValueLength := of_gguf gm_ValueLength |}.

(** ** The budget *)

Definition DefaultMemoryFraction (totalBytes : Z) : float64 :=
  if totalBytes <=? 36 * 1024 * 1024 * 1024 then float_lit 67 100 else float_lit 75 100.

Record MemoryBudget := {
  mb_Fits : bool;
  mb_TotalBytes : Z;
  mb_BudgetBytes : Z;
  mb_EstimateBytes : Z;
  mb_HeadroomBytes : Z;
}.

Definition budget_of (total budget : Z) (estimate : MemoryEstimate) : MemoryBudget :=
  let fits := me_TotalBytes estimate <=? budget in
  {| mb_Fits := fits; mb_TotalBytes := total; mb_BudgetBytes := budget; mb_EstimateBytes := me_TotalBytes estimate;
     mb_HeadroomBytes := if fits then uwrap64 (budget - me_TotalBytes estimate) else 0 |}.

Definition CheckMemoryBudget (total : option Z) (estimate : MemoryEstimate) (fraction : float64) : option MemoryBudget :=
  total ← total; Some (budget_of total (uint64_trunc (fmul (float_of_int total) fraction)) estimate).

Definition CheckMemoryBudgetAbsolute (budgetBytes : Z) (estimate : MemoryEstimate) : MemoryBudget := budget_of 0 budgetBytes estimate.

Inductive ResolvedBudget :=
| BudgetModeAbsolute (bytes : Z)
| BudgetModeFraction (fraction : float64).

Inductive budget_error := InvalidBudget | BudgetNotPositive | FractionOutOfRange.

Section Admission.
(** The value of a quantity, [None] when it does not parse. *)
Context (ParseQuantity : string -> option Z).

Definition ResolveMemoryBudget (hardware : option HardwareSpec) (agentFraction : float64) : result budget_error ResolvedBudget :=
  match hardware with
  | Some hw =>
      if negb (bool_decide (hw_MemoryBudget hw = EmptyString)) then
        match ParseQuantity (hw_MemoryBudget hw) with
        | None => Err InvalidBudget
        | Some value => if value <=? 0 then Err BudgetNotPositive else Ok (BudgetModeAbsolute (uwrap64 value))
        end
      else match hw_MemoryFraction hw with
           | Some f =>
               if is_nan f || is_infinite f || fle f fzero || fgt f (float_of_int 1) then Err FractionOutOfRange
               else Ok (BudgetModeFraction f)
           | None => Ok (BudgetModeFraction agentFraction)
           end
  | None => Ok (BudgetModeFraction agentFraction)
  end.

(** The settings of the agent. *)
Record settings := {
  se_modelStorePath : string;
  se_memoryFraction : float64;
  se_allowOverride : bool;
  se_warnOnly : bool;
}.

Definition hostBudget (cfg : settings) (total : Z) : Z := uint64_trunc (fmul (float_of_int total) (se_memoryFraction cfg)).

(** The estimate, the budget of the host and that of the Model; [None] when the check
    could not be completed. *)
Definition memory_check (cfg : settings) (f : findings) (model : Model) (contextSize : Z) (cacheTypeK cacheTypeV : string) :
    option (Z * Z * Z) :=
  estimate ← estimateModelMemory (se_modelStorePath cfg) f model contextSize cacheTypeK cacheTypeV;
  total ← fi_total f;
  budget ← match ResolveMemoryBudget (mo_Hardware model) (se_memoryFraction cfg) with
           | Err _ => None
           | Ok (BudgetModeAbsolute bytes) => Some (CheckMemoryBudgetAbsolute bytes estimate)
           | Ok (BudgetModeFraction fraction) => CheckMemoryBudget (fi_total_again f) estimate fraction
           end;
  Some (me_TotalBytes estimate, hostBudget cfg total, mb_BudgetBytes budget).

Definition checkMemoryAdmission (cfg : settings) (f : findings) (a : MetalAgent) (key : string) (model : Model)
    (contextSize : Z) (cacheTypeK cacheTypeV : string) : result memory_check_error MetalAgent :=
  match memory_check cfg f model contextSize cacheTypeK cacheTypeV with
  | None => reserveMemory 0 (se_allowOverride cfg) (se_warnOnly cfg) a key None
  | Some (estimate, host, budget) => reserveMemory host (se_allowOverride cfg) (se_warnOnly cfg) a key (Some (estimate, budget))
  end.

End Admission.
