(* ===== verification/MemoryFacts.v ===== *)
(** * Properties of the memory estimate and of admission

    The estimate is exact while the KV cache is below [2 ^ 48] bytes, falls back
    whenever a product would overflow, and never divides by zero; admission compares
    exactly it with the budgets.  The size of a directory is that of its regular files,
    unless there are links. *)

From stdpp Require Import base gmap strings list.
From Stdlib Require Import ZArith Lia Bool Ascii SpecFloat.
From S2P Require Import Prelude GoStrings GoFloat GoFloatExact GoStrconv GoPath ArgRoots Agent Memory.
Local Open Scope go_scope.

(** ** Specification *)

Definition u64 (z : Z) : Prop := 0 <= z < two64.

(** The cost of an element of the cache in 32nds of a byte. *)
Definition cost32 (t : string) : Z :=
  if bool_decide (t = "f32") then 128
  else if bool_decide (t = "q8_0") then 34
  else if bool_decide (t = "q5_0") then 22
  else if bool_decide (t = "q5_1") then 24
  else if bool_decide (t = "q4_0") || bool_decide (t = "iq4_nl") then 18
  else if bool_decide (t = "q4_1") then 20
  else if bool_decide (t = "turbo3") then 13
  else if bool_decide (t = "turbo4") then 17
  else 64.

(** The elements of the key and of the value cache. *)
Definition kv_elements (layers embed ctx : Z) (opts : EstimateOptions) : Z * Z :=
  match resolveKVShape embed opts with
  | Some (heads, keyLen, valLen) => (layers * heads * ctx * keyLen, layers * heads * ctx * valLen)
  | None => (layers * embed * ctx, layers * embed * ctx)
  end.

Definition kv_cost (layers embed ctx : Z) (opts : EstimateOptions) : Z :=
  let '(k, v) := kv_elements layers embed ctx opts in k * cost32 (eo_CacheTypeK opts) + v * cost32 (eo_CacheTypeV opts).

(** The bytes of the cache, rounded up. *)
Definition kv_bytes (layers embed ctx : Z) (opts : EstimateOptions) : Z := - (- kv_cost layers embed ctx opts / 32).

(** The weights, the cache and the overhead, or the fallback when they do not fit a
    [uint64]. *)
Definition estimate_of (file kv : Z) : MemoryEstimate :=
  if file + kv + overheadBytes <? two64
  then {| me_WeightsBytes := file; me_KVCacheBytes := kv; me_OverheadBytes := overheadBytes; me_TotalBytes := file + kv + overheadBytes |}
  else fallbackEstimate file.

(** ** Arithmetic *)

Lemma uwrap64_u64 z : u64 z -> uwrap64 z = z.
Proof. apply Z.mod_small. Qed.

(** The check of a product by division finds out whether it wrapped. *)
Lemma checked_product {A} a b (fallback : A) (next : option A) : 0 < a -> 0 <= b ->
  (q ← udiv (uwrap64 (a * b)) a; if negb (q =? b) then Some fallback else next) = if a * b <? two64 then next else Some fallback.
Proof.
  intros Ha Hb. unfold udiv. destruct (Z.eqb_spec a 0); [lia|]. cbn. pose proof (Z.mod_pos_bound (a * b) two64 ltac:(done)) as Hm.
  destruct (Z.ltb_spec (a * b) two64) as [H|H].
  - rewrite uwrap64_u64 by (split; nia). rewrite (Z.mul_comm a b) at 1. rewrite Z.div_mul, Z.eqb_refl by lia. done.
  - destruct (Z.eqb_spec (uwrap64 (a * b) / a) b) as [He|]; [|done]. exfalso. pose proof (Z.mul_div_le (uwrap64 (a * b)) a Ha). unfold uwrap64 in *. nia.
Qed.

Lemma cost_exact t : exact 5 (cacheTypeBytesPerElement t) (cost32 t) /\ 13 <= cost32 t <= 128.
Proof.
  unfold cacheTypeBytesPerElement, cost32.
  repeat (case_bool_decide; [subst; split; [by vm_compute; auto|by vm_compute]|]; cbn [orb]).
  split; [vm_compute; auto|lia].
Qed.

Lemma ceil_exact x N : exact 5 x N -> 0 <= N < 2 ^ 53 -> uint64_ceil x = - (- N / 32).
Proof.
  intros Hx HN. unfold uint64_ceil. rewrite (exact_ceil 5 x N) by (done || lia). change (2 ^ 5) with 32.
  pose proof (Z.div_mod (- N) 32). pose proof (Z.mod_pos_bound (- N) 32). unfold MaxUint64, two64. lia.
Qed.

(** The bound of the elements, whose cost is between 13 and 256 32nds of a byte. *)
Lemma bound_range x N : exact 5 x N -> 13 <= N <= 256 -> exists b, udiv MaxUint64 (uwrap64 (4 * uint64_ceil x)) = Some b /\ 2 ^ 58 <= b < 2 ^ 62.
Proof.
  intros Hx HN. rewrite (ceil_exact x N) by (done || lia). assert (1 <= - (- N / 32) <= 8) as Hc by (pose proof (Z.div_mod (- N) 32); pose proof (Z.mod_pos_bound (- N) 32); lia).
  remember (- (- N / 32)) as c. exists (MaxUint64 / (4 * c)). unfold udiv, uwrap64. rewrite Z.mod_small by (unfold two64; lia). destruct (Z.eqb_spec (4 * c) 0); [lia|]. split; [done|].
  unfold MaxUint64, two64. split; [apply Z.div_le_lower_bound|apply Z.div_lt_upper_bound]; lia.
Qed.

(** ** The two formulas *)

(** The products of the first are checked one after the other; the result is as if they
    were computed without bound. *)
Lemma shaped_eq file layers ctx heads keyLen valLen opts :
  0 < layers -> 0 < heads -> 0 < ctx < two64 -> 0 < keyLen -> 0 < valLen ->
  exists bK bV, 2 ^ 58 <= bK < 2 ^ 62 /\ 2 ^ 58 <= bV < 2 ^ 62 /\
  estimate_shaped file layers ctx heads keyLen valLen opts = Some (
    let k := layers * heads * ctx * keyLen in
    let v := layers * heads * ctx * valLen in
    if (k <=? bK) && (v <=? bV) then
      estimate_with file (uint64_ceil (fadd (fmul (float_of_int k) (cacheTypeBytesPerElement (eo_CacheTypeK opts)))
                                            (fmul (float_of_int v) (cacheTypeBytesPerElement (eo_CacheTypeV opts)))))
    else fallbackEstimate file).
Proof.
  intros Hl Hh Hc Hk Hv. destruct (cost_exact (eo_CacheTypeK opts)) as [HxK HcK], (cost_exact (eo_CacheTypeV opts)) as [HxV HcV].
  destruct (bound_range _ _ HxK ltac:(lia)) as (bK & HbK & HrK), (bound_range _ _ HxV ltac:(lia)) as (bV & HbV & HrV).
  exists bK, bV. split_and!; [lia..|]. cbn zeta. assert (Hlh : 0 < layers * heads) by nia. assert (Hlhc : 0 < layers * heads * ctx) by nia.
  assert (Hbig : forall z, two64 <= z -> (z <=? bK) = false /\ (z <=? bV) = false) by (intros z Hz; unfold two64 in Hz; split; apply Z.leb_gt; lia).
  unfold estimate_shaped. cbv zeta. rewrite HbK, HbV, (uwrap64_u64 ctx) by (unfold u64; lia).
  rewrite (checked_product layers heads) by lia. destruct (Z.ltb_spec (layers * heads) two64) as [H1|H1]; [|by rewrite (proj1 (Hbig (layers * heads * ctx * keyLen) ltac:(nia)))].
  rewrite (uwrap64_u64 (layers * heads)), (Z.mul_comm (layers * heads) ctx) by (unfold u64; lia).
  rewrite (checked_product ctx (layers * heads)) by lia. destruct (Z.ltb_spec (ctx * (layers * heads)) two64) as [H2|H2]; [|by rewrite (proj1 (Hbig (ctx * (layers * heads) * keyLen) ltac:(nia)))].
  set (base := ctx * (layers * heads)) in *. rewrite (uwrap64_u64 base) by (unfold u64; lia).
  rewrite (checked_product base keyLen) by lia. destruct (Z.ltb_spec (base * keyLen) two64) as [H3|H3]; [|by rewrite (proj1 (Hbig (base * keyLen) ltac:(lia)))].
  rewrite (checked_product base valLen) by lia. destruct (Z.ltb_spec (base * valLen) two64) as [H4|H4]; [|by rewrite (proj2 (Hbig (base * valLen) ltac:(lia))), andb_false_r].
  rewrite (uwrap64_u64 (base * keyLen)), (uwrap64_u64 (base * valLen)) by (unfold u64; nia). cbn. rewrite !Z.ltb_antisym. by destruct (_ <=? bK), (_ <=? bV).
Qed.

(** The same check, left out for a zero factor. *)
Lemma checked_unless_zero {A} a b (fallback : A) (next : option A) : 0 <= a -> 0 <= b ->
  (o ← (if b =? 0 then Some false else q ← udiv (uwrap64 (a * b)) b; Some (negb (q =? a))); if (o : bool) then Some fallback else next) =
  if a * b <? two64 then next else Some fallback.
Proof.
  intros Ha Hb. destruct (Z.eqb_spec b 0) as [->|]; [by rewrite Z.mul_0_r|]. rewrite (Z.mul_comm a b), <- (checked_product b a) by lia.
  by destruct (udiv _ _).
Qed.

Lemma embedding_eq file layers embed ctx opts :
  0 < layers -> 0 < embed ->
  exists b, 2 ^ 58 <= b < 2 ^ 62 /\
  estimate_embedding file layers embed ctx opts = Some (
    let product := layers * embed * uwrap64 ctx in
    if (layers * embed <? two64) && (product <=? b) then
      estimate_with file (uint64_ceil (fmul (float_of_int product)
        (fadd (cacheTypeBytesPerElement (eo_CacheTypeK opts)) (cacheTypeBytesPerElement (eo_CacheTypeV opts)))))
    else fallbackEstimate file).
Proof.
  intros Hl He. destruct (cost_exact (eo_CacheTypeK opts)) as [HxK HcK], (cost_exact (eo_CacheTypeV opts)) as [HxV HcV].
  assert (HxKV := HxV). eapply (exact_add 5 _ _ (cost32 (eo_CacheTypeK opts))) in HxKV; [|lia|lia|exact HxK].
  destruct (bound_range _ _ HxKV ltac:(lia)) as (b & Hb & Hr). exists b. split; [done|].
  unfold estimate_embedding. cbv zeta. rewrite Hb. pose proof (Z.mod_pos_bound ctx two64 ltac:(done) : 0 <= uwrap64 ctx < two64) as Hc. set (c := uwrap64 ctx) in *.
  rewrite (checked_product layers embed) by lia. destruct (Z.ltb_spec (layers * embed) two64) as [H1|H1]; [|done].
  rewrite (uwrap64_u64 (layers * embed)) by (unfold u64; lia). rewrite checked_unless_zero by lia. cbn [andb].
  destruct (Z.ltb_spec (layers * embed * c) two64) as [H2|H2].
  - rewrite uwrap64_u64 by (unfold u64; nia). cbn. rewrite Z.ltb_antisym. by destruct (_ <=? b).
  - by replace (layers * embed * c <=? b) with false by (symmetry; apply Z.leb_gt; unfold two64 in H2; lia).
Qed.

(** A sum that wraps is less than the first summand. *)
Lemma estimate_with_eq file kv : u64 file -> 0 <= kv < 2 ^ 63 ->
  estimate_with file kv = estimate_of file kv.
Proof.
  intros Hf Hk. unfold estimate_with, estimate_of, uwrap64. rewrite Zplus_mod_idemp_l. cbv zeta. destruct (Z.ltb_spec (file + kv + overheadBytes) two64) as [H|H].
  - rewrite Z.mod_small by (unfold u64, overheadBytes in *; lia). destruct (Z.ltb_spec (file + kv + overheadBytes) file); [unfold overheadBytes in *; lia|done].
  - assert ((file + kv + overheadBytes) mod two64 = file + kv + overheadBytes - two64) as ->.
    { symmetry. apply Zmod_unique with 1; unfold u64, overheadBytes, two64 in *; lia. }
    destruct (Z.ltb_spec (file + kv + overheadBytes - two64) file); [done|unfold overheadBytes, two64 in *; lia].
Qed.

(** A shape that is taken has no zero in it. *)
Lemma shape_positive embed opts heads keyLen valLen :
  0 < embed -> u64 (eo_HeadCount opts) -> u64 (eo_HeadCountKV opts) -> u64 (eo_KeyLength opts) -> u64 (eo_ValueLength opts) ->
  resolveKVShape embed opts = Some (heads, keyLen, valLen) -> 0 < heads /\ 0 < keyLen /\ 0 < valLen.
Proof.
  unfold resolveKVShape, u64. intros He Hh Hkv Hk Hv. case_if; [done|]. to_prop. case_if; [done|]. intros [= <- <- <-].
  assert (embed mod eo_HeadCount opts = 0 -> 0 < embed / eo_HeadCount opts).
  { intros Hm. pose proof (Z.div_mod embed (eo_HeadCount opts)). nia. }
  destruct (Z.eqb_spec (eo_KeyLength opts) 0), (Z.eqb_spec (eo_ValueLength opts) 0); cbn in *; to_prop; lia.
Qed.

Definition options_u64 (opts : EstimateOptions) : Prop :=
  u64 (eo_HeadCount opts) /\ u64 (eo_HeadCountKV opts) /\ u64 (eo_KeyLength opts) /\ u64 (eo_ValueLength opts).

Lemma elements_exact n t : 0 <= n -> n * cost32 t < 2 ^ 53 -> exact 5 (fmul (float_of_int n) (cacheTypeBytesPerElement t)) (n * cost32 t).
Proof.
  intros Hn Hc. destruct (cost_exact t) as [Hx Ht]. apply (exact_mul 0 5); [lia..|apply exact_of_int; nia|done].
Qed.

Lemma shaped_bytes k v tk tv : 0 <= k -> 0 <= v -> k * cost32 tk + v * cost32 tv < 2 ^ 53 ->
  uint64_ceil (fadd (fmul (float_of_int k) (cacheTypeBytesPerElement tk)) (fmul (float_of_int v) (cacheTypeBytesPerElement tv))) =
  - (- (k * cost32 tk + v * cost32 tv) / 32).
Proof.
  intros Hk Hv Hc. pose proof (proj2 (cost_exact tk)). pose proof (proj2 (cost_exact tv)).
  apply ceil_exact; [|nia]. apply exact_add; [lia|done|apply elements_exact; nia..].
Qed.

Lemma embedding_bytes n tk tv : 0 <= n -> n * cost32 tk + n * cost32 tv < 2 ^ 53 ->
  uint64_ceil (fmul (float_of_int n) (fadd (cacheTypeBytesPerElement tk) (cacheTypeBytesPerElement tv))) =
  - (- (n * cost32 tk + n * cost32 tv) / 32).
Proof.
  intros Hn Hc. destruct (cost_exact tk) as [Hxk Hk], (cost_exact tv) as [Hxv Hv]. rewrite <- Z.mul_add_distr_l in *.
  apply ceil_exact; [|nia]. apply (exact_mul 0 5); [lia..|apply exact_of_int; nia|]. apply exact_add; [lia|lia|done..].
Qed.

Lemma estimate_with_cost file cost : u64 file -> 0 <= cost < 2 ^ 53 -> estimate_with file (- (- cost / 32)) = estimate_of file (- (- cost / 32)).
Proof.
  intros Hf Hc. apply estimate_with_eq; [done|]. pose proof (Z.div_mod (- cost) 32). pose proof (Z.mod_pos_bound (- cost) 32). lia.
Qed.

Lemma shaped_result file layers ctx heads keyLen valLen opts :
  u64 file -> 0 < layers -> 0 < heads -> 0 < ctx < two64 -> 0 < keyLen -> 0 < valLen ->
  let k := layers * heads * ctx * keyLen in
  let v := layers * heads * ctx * valLen in
  let cost := k * cost32 (eo_CacheTypeK opts) + v * cost32 (eo_CacheTypeV opts) in
  exists r, estimate_shaped file layers ctx heads keyLen valLen opts = Some r /\
    (2 ^ 62 <= Z.max k v -> r = fallbackEstimate file) /\ (cost < 2 ^ 53 -> r = estimate_of file (- (- cost / 32))).
Proof.
  intros Hf Hl Hh Hc Hk Hv k v cost. destruct (shaped_eq file layers ctx heads keyLen valLen opts) as (bK & bV & HbK & HbV & ->); [lia..|].
  eexists. split; [done|]. cbv zeta. fold k v. assert (0 <= layers * heads * ctx) by nia. assert (0 <= k /\ 0 <= v) as [Hk0 Hv0] by (unfold k, v; nia).
  pose proof (proj2 (cost_exact (eo_CacheTypeK opts))). pose proof (proj2 (cost_exact (eo_CacheTypeV opts))). clearbody k v. split; intros Hx.
  - destruct (Z.leb_spec k bK); [|done]. destruct (Z.leb_spec v bV); [lia|done].
  - unfold cost in *. destruct (Z.leb_spec k bK); [|nia]. destruct (Z.leb_spec v bV); [|nia]. cbn [andb]. rewrite shaped_bytes by done. apply estimate_with_cost; [done|nia].
Qed.

Lemma embedding_result file layers embed ctx opts :
  u64 file -> 0 < layers -> 0 < embed -> min_int64 <= ctx <= max_int64 ->
  let n := layers * embed * ctx in
  let cost := n * cost32 (eo_CacheTypeK opts) + n * cost32 (eo_CacheTypeV opts) in
  exists r, estimate_embedding file layers embed ctx opts = Some r /\
    (ctx < 0 \/ 2 ^ 62 <= n -> r = fallbackEstimate file) /\ (0 < ctx -> cost < 2 ^ 53 -> r = estimate_of file (- (- cost / 32))).
Proof.
  intros Hf Hl He Hctx n cost. destruct (embedding_eq file layers embed ctx opts) as (b & Hb & ->); [lia..|]. eexists. split; [done|]. cbv zeta.
  pose proof (proj2 (cost_exact (eo_CacheTypeK opts))). pose proof (proj2 (cost_exact (eo_CacheTypeV opts))). assert (0 < layers * embed) by nia. split.
  - intros Hx. assert (b < layers * embed * uwrap64 ctx) as Hlt%Z.leb_gt; [|by rewrite Hlt, andb_false_r]. destruct (Z.lt_ge_cases ctx 0) as [Hneg|Hpos].
    + assert (uwrap64 ctx = ctx + two64) as -> by (unfold uwrap64; symmetry; apply Zmod_unique with (- 1); unfold min_int64, max_int64, two63, two64 in *; lia).
      unfold min_int64, two63, two64 in *. nia.
    + rewrite uwrap64_u64 by (unfold u64, max_int64, two63, two64 in *; lia). fold n. lia.
  - intros Hpos Hx. rewrite uwrap64_u64 by (unfold u64, max_int64, two63, two64 in *; lia). fold n. assert (layers * embed <= n) by (unfold n; nia).
    unfold cost in *. destruct (Z.ltb_spec (layers * embed) two64); [|unfold two64 in *; nia]. destruct (Z.leb_spec n b); [|nia]. cbn [andb].
    rewrite embedding_bytes by (done || lia). apply estimate_with_cost; [done|nia].
Qed.

Lemma estimate_spec file layers embed ctx opts :
  u64 file -> 0 < layers < two64 -> 0 < embed < two64 -> min_int64 <= ctx <= max_int64 -> options_u64 opts ->
  exists r, EstimateModelMemoryWithOptions file layers embed ctx opts = Some r /\
    (ctx < 0 \/ 2 ^ 62 <= Z.max (kv_elements layers embed ctx opts).1 (kv_elements layers embed ctx opts).2 -> r = fallbackEstimate file) /\
    (0 < ctx -> kv_cost layers embed ctx opts < 2 ^ 53 -> r = estimate_of file (kv_bytes layers embed ctx opts)).
Proof.
  intros Hf Hl He Hctx (Hh & Hkv & Hk & Hv). unfold kv_bytes, kv_cost, kv_elements, EstimateModelMemoryWithOptions.
  destruct (Z.eqb_spec layers 0); [lia|]. destruct (Z.eqb_spec embed 0); [lia|]. cbn [orb].
  destruct (embedding_result file layers embed ctx opts) as (r & Hr & Hover & Hexact); [done|lia..|done|].
  destruct (resolveKVShape embed opts) as [[[heads keyLen] valLen]|] eqn:Hshape; cbn [fst snd]; [|by exists r; rewrite Z.max_id].
  destruct (shape_positive embed opts heads keyLen valLen ltac:(lia) Hh Hkv Hk Hv Hshape) as (Hh0 & Hk0 & Hv0). destruct (Z.ltb_spec 0 ctx) as [Hpos|Hneg].
  - destruct (shaped_result file layers ctx heads keyLen valLen opts) as (r' & Hr' & Hover' & Hexact'); [done|unfold max_int64, two63, two64 in *; lia..|].
    exists r'. split_and!; [done| |by intros _]. intros [|]; [lia|auto].
  - exists r. split_and!; [done| |lia]. intros Hx. apply Hover. left. destruct Hx as [|Hx]; [done|]. assert (layers * heads * ctx <= 0) by nia. nia.
Qed.

(** C22: whatever the file, the shape and the context, the estimate never divides by
    zero; without a shape, for a negative context, or for a cache of [2 ^ 62] elements
    or more it is the fallback, so no product overflows unnoticed; and for a cache below
    [2 ^ 48] bytes nothing is rounded: the estimate is the weights, exactly the bytes of
    the cache, rounded up, and the overhead, or the fallback when this sum overflows. *)
Theorem estimate_exact file layers embed ctx opts :
  u64 file -> u64 layers -> u64 embed -> min_int64 <= ctx <= max_int64 -> options_u64 opts ->
  exists r, EstimateModelMemoryWithOptions file layers embed ctx opts = Some r /\
    (layers = 0 \/ embed = 0 \/ ctx < 0 \/ 2 ^ 62 <= Z.max (kv_elements layers embed ctx opts).1 (kv_elements layers embed ctx opts).2 ->
     r = fallbackEstimate file) /\
    (0 < layers -> 0 < embed -> 0 < ctx -> kv_cost layers embed ctx opts < 2 ^ 53 -> r = estimate_of file (kv_bytes layers embed ctx opts)).
Proof.
  intros Hf Hl He Hctx Ho. unfold u64 in Hl, He. destruct (decide (layers = 0 \/ embed = 0)) as [Hz|Hz].
  - exists (fallbackEstimate file). unfold EstimateModelMemoryWithOptions. split_and!; [by destruct Hz as [->| ->]; rewrite ?orb_true_r|done|lia].
  - destruct (estimate_spec file layers embed ctx opts) as (r & Hr & Hover & Hexact); [done|lia..|done|]. exists r. split_and!; [done| |auto].
    intros [|[|]]; [lia..|auto].
Qed.

(** Llama 3.1 70B with a q8_0 cache of 131072 tokens. *)
Definition llama_options : EstimateOptions :=
  {| eo_CacheTypeK := "q8_0"; eo_CacheTypeV := "q8_0"; eo_HeadCount := 64; eo_HeadCountKV := 8; eo_KeyLength := 0; eo_ValueLength := 0 |}.

Lemma estimate_exact_witness :
  exists r, EstimateModelMemoryWithOptions 42520395520 80 8192 131072 llama_options = Some r /\
    me_KVCacheBytes r = 22817013760 /\ me_TotalBytes r = 65874280192.
Proof.
  destruct (estimate_exact 42520395520 80 8192 131072 llama_options) as (r & Hr & _ & Hexact); [done..|by vm_compute|].
  exists r. split; [done|]. rewrite Hexact by done. split; vm_compute; reflexivity.
Defined.

(** ** The size of a directory *)

Section TreeInduction.
Context (P : tree -> Prop).
Hypothesis P_File : forall n, P (File n).
Hypothesis P_Folder : forall n entries, Forall P entries -> P (Folder n entries).
Hypothesis P_Closed : forall n, P (Closed n).
Hypothesis P_Link : forall n target, P (Link n target).
Hypothesis P_Gone : P Gone.

Fixpoint tree_forall_ind (t : tree) : P t :=
  match t with
  | File n => P_File n
  | Folder n entries =>
      P_Folder n entries ((fix go (l : list tree) : Forall P l :=
                             match l with [] => Forall_nil_2 P | e :: l => Forall_cons_2 P e l (tree_forall_ind e) (go l) end) entries)
  | Closed n => P_Closed n
  | Link n target => P_Link n target
  | Gone => P_Gone
  end.
End TreeInduction.

(** Files and directories that can be read, without links. *)
Fixpoint plain (t : tree) : bool :=
  match t with
  | File n => (0 <=? n) && (n <? two63)
  | Folder _ entries => forallb plain entries
  | _ => false
  end.

(** The sizes of all files below. *)
Fixpoint files_size (t : tree) : Z :=
  match t with
  | File n => n
  | Folder _ entries => fold_right (fun e total => files_size e + total) 0 entries
  | _ => 0
  end.

Lemma files_size_nonneg t : plain t = true -> 0 <= files_size t.
Proof.
  induction t as [n|n entries IH| | |] using tree_forall_ind; cbn; try done; [intros; to_prop; lia|].
  induction IH as [|e entries He _ IH]; cbn; [done|]. intros; to_prop. specialize (He ltac:(done)). specialize (IH ltac:(done)). lia.
Qed.

Lemma walk_folder n e entries total : walk_size (Folder n (e :: entries)) total = (total ← walk_size e total; walk_size (Folder n entries) total).
Proof. done. Qed.

Lemma walk_plain t : plain t = true -> forall total, u64 total -> walk_size t total = Some (uwrap64 (total + files_size t)).
Proof.
  induction t as [n|n entries IH| | |] using tree_forall_ind; try done.
  - cbn. intros Hn total _. to_prop. by rewrite (uwrap64_u64 n) by (unfold u64, two63, two64 in *; lia).
  - induction IH as [|e entries He _ IH]; intros Hp total Ht; [cbn; by rewrite Z.add_0_r, uwrap64_u64|].
    cbn in Hp. to_prop. rewrite walk_folder, He by done. cbn [mbind option_bind]. rewrite IH; [|done|apply Z.mod_pos_bound; done]. cbn. unfold uwrap64. rewrite Zplus_mod_idemp_l.
    do 2 f_equal. lia.
Qed.

(** The size of a file or of a directory of files. *)
Lemma localModelSize_plain t : plain t = true -> files_size t < two64 -> localModelSize t = Some (files_size t).
Proof.
  intros Hp Hs. pose proof (files_size_nonneg t Hp). unfold localModelSize. destruct t; try done; cbn [Stat mbind option_bind IsDir negb].
  - cbn. by rewrite uwrap64_u64.
  - rewrite walk_plain by done. by rewrite uwrap64_u64.
Qed.

(** ** Admission *)

Definition gguf_options (g : GGUFMetadata) (cacheTypeK cacheTypeV : string) : EstimateOptions :=
  {| eo_CacheTypeK := cacheTypeK; eo_CacheTypeV := cacheTypeV; eo_HeadCount := gm_HeadCount g; eo_HeadCountKV := gm_HeadCountKV g;
     eo_KeyLength := gm_KeyLength g; eo_ValueLength := gm_ValueLength g |}.

(** A model in a local file or a directory of files, of known shape, whose cache is
    below [2 ^ 48] bytes. *)
Record known_model (f : findings) (model : Model) (g : GGUFMetadata) (t : tree) (ctx : Z) (cacheTypeK cacheTypeV : string) : Prop := {
  kn_local : isLocalModelSource (mo_Source model) = true;
  kn_abs : IsAbs (localSourcePath (mo_Source model)) = true;
  kn_at : fi_at f (localSourcePath (mo_Source model)) = t;
  kn_plain : plain t = true;
  kn_size : 0 < files_size t < two64;
  kn_gguf : mo_GGUF model = Some g;
  kn_layers : 0 < gm_LayerCount g < two64;
  kn_embed : 0 < gm_EmbeddingSize g < two64;
  kn_options : options_u64 (gguf_options g cacheTypeK cacheTypeV);
  kn_context : 0 < ctx <= max_int64;
  kn_cost : kv_cost (gm_LayerCount g) (gm_EmbeddingSize g) ctx (gguf_options g cacheTypeK cacheTypeV) < 2 ^ 53;
}.

(** The bytes it needs. *)
Definition need (g : GGUFMetadata) (t : tree) (ctx : Z) (cacheTypeK cacheTypeV : string) : Z :=
  files_size t + kv_bytes (gm_LayerCount g) (gm_EmbeddingSize g) ctx (gguf_options g cacheTypeK cacheTypeV) + overheadBytes.

(** The budget of the Model, [None] when there is none to be had. *)
Definition model_budget (ParseQuantity : string -> option Z) (cfg : settings) (f : findings) (model : Model) : option Z :=
  match ResolveMemoryBudget ParseQuantity (mo_Hardware model) (se_memoryFraction cfg) with
  | Err _ => None
  | Ok (BudgetModeAbsolute bytes) => Some bytes
  | Ok (BudgetModeFraction fraction) => (fun total => uint64_trunc (fmul (float_of_int total) fraction)) <$> fi_total_again f
  end.

Lemma model_size_local store f model g t ctx ck cv : known_model f model g t ctx ck cv -> model_size store f model = files_size t.
Proof.
  intros []. unfold model_size. cbv zeta. rewrite kn_local0, kn_abs0, kn_at0, localModelSize_plain by (done || lia). cbn [andb default].
  assert (Hor : forall next, or_else (files_size t) next = files_size t) by (intros next; unfold or_else; destruct (Z.eqb_spec (files_size t) 0); [lia|done]).
  repeat (rewrite Hor || case_if); done.
Qed.

Lemma kv_bytes_nonneg layers embed ctx opts : 0 < layers -> 0 < embed -> 0 < ctx -> options_u64 opts -> 0 <= kv_bytes layers embed ctx opts.
Proof.
  intros Hl He Hc (Hh & Hkv & Hk & Hv). pose proof (proj2 (cost_exact (eo_CacheTypeK opts))) as Hck. pose proof (proj2 (cost_exact (eo_CacheTypeV opts))) as Hcv.
  assert (0 <= kv_cost layers embed ctx opts) as Hcost.
  { unfold kv_cost, kv_elements. destruct (resolveKVShape embed opts) as [[[h k] v]|] eqn:Hs.
    - destruct (shape_positive embed opts h k v He Hh Hkv Hk Hv Hs) as (? & ? & ?). assert (0 < layers * h * ctx) by (repeat apply Z.mul_pos_pos; done). nia.
    - assert (0 < layers * embed * ctx) by (repeat apply Z.mul_pos_pos; done). nia. }
  unfold kv_bytes. pose proof (Z.div_mod (- kv_cost layers embed ctx opts) 32). pose proof (Z.mod_pos_bound (- kv_cost layers embed ctx opts) 32). lia.
Qed.

Lemma need_nonneg f model g t ctx ck cv : known_model f model g t ctx ck cv -> 0 <= need g t ctx ck cv.
Proof.
  intros []. unfold need, overheadBytes. pose proof (kv_bytes_nonneg (gm_LayerCount g) (gm_EmbeddingSize g) ctx (gguf_options g ck cv) ltac:(lia) ltac:(lia) ltac:(lia) ltac:(done)). lia.
Qed.

Lemma committed_nonneg a key : 0 <= committedMemoryLocked a key.
Proof. unfold committedMemoryLocked. destruct (elements _); cbn; [done|]. by apply Z.mod_pos_bound. Qed.

Lemma estimate_known store f model g t ctx ck cv : known_model f model g t ctx ck cv -> need g t ctx ck cv < two64 ->
  exists e, estimateModelMemory store f model ctx ck cv = Some e /\ me_TotalBytes e = need g t ctx ck cv.
Proof.
  intros Hm Hn. unfold estimateModelMemory. rewrite (model_size_local store f model g t ctx ck cv Hm). destruct Hm. rewrite kn_gguf0.
  destruct (Z.eqb_spec (files_size t) 0); [lia|].
  destruct (estimate_spec (files_size t) (gm_LayerCount g) (gm_EmbeddingSize g) ctx (gguf_options g ck cv)) as (r & He & _ & Hr);
    [unfold u64; lia|done|done|unfold min_int64, two63; lia|done|].
  exists r. split; [exact He|]. rewrite Hr by (done || lia). unfold estimate_of. fold (need g t ctx ck cv). by destruct (Z.ltb_spec (need g t ctx ck cv) two64); [|lia].
Qed.

(** The reservation, once the estimate and the budgets are known. *)
Lemma reserve_exact cfg a key e bytes host budget :
  me_TotalBytes e = bytes -> 0 <= bytes -> committedMemoryLocked a key + bytes < two64 ->
  let limit := if se_allowOverride cfg then budget else Z.min host budget in
  reserveMemory host (se_allowOverride cfg) (se_warnOnly cfg) a key (Some (me_TotalBytes e, budget)) =
  if (bytes <=? limit) && (committedMemoryLocked a key + bytes <=? Z.max host limit)
  then Ok (set_reserved a (<[key := bytes]> (a_reservedMemory a)))
  else Err InsufficientMemory.
Proof.
  intros -> Hb Hc limit. pose proof (committed_nonneg a key). unfold reserveMemory. rewrite uwrap64_u64 by (unfold u64; lia).
  assert ((if (host <? budget) && negb (se_allowOverride cfg) then host else budget) = limit) as ->.
  { unfold limit. destruct (se_allowOverride cfg); cbn; rewrite ?andb_false_r, ?andb_true_r; [done|]. destruct (Z.ltb_spec host budget); lia. }
  rewrite !Z.ltb_antisym. by destruct (bytes <=? limit), (_ <=? Z.max host limit).
Qed.

(** C21: a model in local files, of known shape, is admitted exactly when the sum of
    its files, the bytes of its KV cache and the overhead are within its own budget,
    which without an override is at most that of the host, and fit next to what is
    committed to the other services; it is then that sum that is reserved.  Without the
    total memory or the Model's budget nothing starts, unless the check only warns. *)
Theorem admission_exact ParseQuantity cfg f a key model g t ctx ck cv :
  known_model f model g t ctx ck cv -> committedMemoryLocked a key + need g t ctx ck cv < two64 ->
  checkMemoryAdmission ParseQuantity cfg f a key model ctx ck cv =
  match fi_total f, model_budget ParseQuantity cfg f model with
  | Some total, Some budget =>
      let host := hostBudget cfg total in
      let limit := if se_allowOverride cfg then budget else Z.min host budget in
      let bytes := need g t ctx ck cv in
      if (bytes <=? limit) && (committedMemoryLocked a key + bytes <=? Z.max host limit)
      then Ok (set_reserved a (<[key := bytes]> (a_reservedMemory a)))
      else Err InsufficientMemory
  | _, _ => if se_warnOnly cfg then Ok a else Err MemoryCheckFailed
  end.
Proof.
  intros Hm Hn. pose proof (committed_nonneg a key) as Hc. pose proof (need_nonneg _ _ _ _ _ _ _ Hm). unfold checkMemoryAdmission, memory_check.
  destruct (estimate_known (se_modelStorePath cfg) f model g t ctx ck cv Hm ltac:(lia)) as (e & -> & He). cbn [mbind option_bind].
  destruct (fi_total f) as [total|]; [|done]. cbn [mbind option_bind]. unfold model_budget, CheckMemoryBudgetAbsolute, CheckMemoryBudget.
  destruct (ResolveMemoryBudget _ _ _) as [[bytes|fraction]|]; [|destruct (fi_total_again f)|]; cbn [mbind option_bind mb_BudgetBytes budget_of fmap option_fmap option_map];
    [by apply reserve_exact..|done|done].
Qed.

Definition GiB : Z := 1024 * 1024 * 1024.

Definition mac : settings :=
  {| se_modelStorePath := "/var/models"; se_memoryFraction := DefaultMemoryFraction (128 * GiB); se_allowOverride := false; se_warnOnly := false |}.

(** A host of 128 GiB with a file or directory at every path. *)
Definition mac_findings (t : tree) : findings :=
  {| fi_at := fun _ => t; fi_http := None; fi_s3 := None; fi_total := Some (128 * GiB); fi_total_again := Some (128 * GiB) |}.

Definition llama_gguf : GGUFMetadata :=
  {| gm_LayerCount := 80; gm_EmbeddingSize := 8192; gm_HeadCount := 64; gm_HeadCountKV := 8; gm_KeyLength := 0; gm_ValueLength := 0 |}.

Definition local_model (gguf : option GGUFMetadata) (hardware : option HardwareSpec) : Model :=
  {| mo_Name := "llama"; mo_Source := "file:///models/llama"; mo_Size := "0"; mo_GGUF := gguf; mo_Hardware := hardware |}.

Definition llama_files : tree := Folder 96 [File 1024; Folder 96 [File 21260197248; File 21260197248]].

(** The quantities of the example. *)
Definition example_quantity (s : string) : option Z := if bool_decide (s = "80Gi") then Some (80 * GiB) else None.

Lemma llama_known hw : known_model (mac_findings llama_files) (local_model (Some llama_gguf) hw) llama_gguf llama_files 131072 "q8_0" "q8_0".
Proof. split; try done; by vm_compute. Qed.

(** It is admitted alone, and refused next to 40 GiB. *)
Lemma admission_exact_witness :
  let model := local_model (Some llama_gguf) (Some {| hw_MemoryBudget := "80Gi"; hw_MemoryFraction := None |}) in
  let busy := set_reserved NewMetalAgent {["ns/other" := 40 * GiB]} in
  checkMemoryAdmission example_quantity mac (mac_findings llama_files) NewMetalAgent "ns/llama" model 131072 "q8_0" "q8_0" =
    Ok (set_reserved NewMetalAgent {["ns/llama" := 65874280192]}) /\
  checkMemoryAdmission example_quantity mac (mac_findings llama_files) busy "ns/llama" model 131072 "q8_0" "q8_0" = Err InsufficientMemory.
Proof.
  intros model busy. pose proof (llama_known (mo_Hardware model)) as Hk. split.
  - rewrite (admission_exact _ _ _ _ _ _ _ _ _ _ _ Hk) by (vm_compute; reflexivity). vm_compute. reflexivity.
  - rewrite (admission_exact _ _ _ _ _ _ _ _ _ _ _ Hk) by (vm_compute; reflexivity). vm_compute. reflexivity.
Defined.

(** ** Sizes that are not those of the model *)

(** A link to a directory has the size of its own text, whatever is in the directory. *)
Lemma linked_directory_unsized length n entries : u64 length -> localModelSize (Link length (Some (Folder n entries))) = Some length.
Proof. intros Hl. unfold localModelSize. cbn. by rewrite (uwrap64_u64 length), Z.add_0_l, uwrap64_u64. Qed.

(** So has every link in a directory: one of the snapshots of a Hugging Face cache, in
    which each file is a link, has the size of these texts. *)
Lemma links_not_followed n (links : list (Z * option tree)) total :
  u64 total -> walk_size (Folder n ((fun l => Link (fst l) (snd l)) <$> links)) total = Some (uwrap64 (total + fold_right (fun l sum => fst l + sum) 0 links)).
Proof.
  revert total. induction links as [|[length target] links IH]; intros total Ht; [cbn; by rewrite Z.add_0_r, uwrap64_u64|].
  rewrite fmap_cons, walk_folder. change (walk_size (Link _ _) total) with (Some (uwrap64 (total + uwrap64 length))). cbn [mbind option_bind]. rewrite IH by (by apply Z.mod_pos_bound). cbn [fold_right fst]. unfold uwrap64.
  rewrite Zplus_mod_idemp_l, <- Z.add_assoc, (Z.add_comm (length mod two64)), Z.add_assoc, Zplus_mod_idemp_r. do 2 f_equal. lia.
Qed.

(** A model of 200 GiB in such a snapshot is admitted to a host of 128 GiB. *)
Lemma linked_model_admitted :
  let snapshot := Folder 160 [Link 76 (Some (File (100 * GiB))); Link 76 (Some (File (100 * GiB)))] in
  checkMemoryAdmission example_quantity mac (mac_findings snapshot) NewMetalAgent "ns/llama" (local_model None None) 2048 EmptyString EmptyString =
  Ok (set_reserved NewMetalAgent {["ns/llama" := 512 * 1024 * 1024 + 183]}).
Proof. vm_compute. reflexivity. Qed.

(** ** Estimates that are too small *)

(** The fallback overflows in turn, without a check. *)
Lemma fallback_wraps : me_TotalBytes (fallbackEstimate MaxUint64) = 512 * 1024 * 1024 - 1 /\ parseSize "Inf B" = Some MaxUint64.
Proof. vm_compute. split; reflexivity. Qed.

(** A cache too large to be counted counts for nothing. *)
Lemma overflow_shrinks_estimate :
  let total layers := me_TotalBytes <$> EstimateModelMemoryWithOptions (40 * GiB) layers 8192 131072 llama_options in
  total 80 = Some (40 * GiB + 22817013760 + overheadBytes) /\ total (2 ^ 50) = Some (48 * GiB + overheadBytes).
Proof. vm_compute. split; reflexivity. Qed.
