(* ===== verification/ArgPolicy.v ===== *)
(** * Engine arguments: the policy

    [pkg/agent/policy/args.go]: which of the extra arguments of an InferenceService the
    node agent passes to an engine.  The arguments are split into flags and values the
    way the engine would, and each is checked against the tables of the runtime. *)

From stdpp Require Import base strings list.
From Stdlib Require Import ZArith Lia Bool Ascii.
From S2P Require Import Prelude GoStrings GoPath ArgFlags ArgRoots.

(** ** Tokens *)

Record Arg := {
  ar_Flag : string;
  ar_Name : string;
  (** [None] when the runtime's table does not list the name. *)
  ar_Spec : option FlagSpec;
  ar_Values : list string;
  ar_Inline : bool;
}.

Definition Stray (a : Arg) : bool := bool_decide (ar_Flag a = EmptyString).

Definition Canonical (a : Arg) : string :=
  match ar_Spec a with Some s => fs_Canonical s | None => ar_Name a end.

Definition is_digit (c : ascii) : bool := in_range 48 57 c.

Fixpoint all_digits (s : string) : bool :=
  match s with EmptyString => true | String c s => is_digit c && all_digits s end.

Definition nonempty (s : string) : bool := negb (bool_decide (s = EmptyString)).

(** The expression [^-[0-9]+$|^-[0-9]*\.[0-9]+$]. *)
Definition negativeNumber (tok : string) : bool :=
  match CutPrefix tok "-" with
  | None => false
  | Some t =>
      nonempty t && all_digits t ||
      match CutByte t "."%char with
      | Some (a, b) => all_digits a && nonempty b && all_digits b
      | None => false
      end
  end.

Definition flagShaped (tok : string) : bool := HasPrefix tok "-" && negb (negativeNumber tok).

(** ** Runtimes *)

Definition isLlamaRuntime (runtime : string) : bool :=
  bool_decide (runtime = RuntimeLlamaCPP) || bool_decide (runtime = RuntimeLlamaServer).

Definition isArgparseRuntime (runtime : string) : bool :=
  bool_decide (runtime = RuntimeTensorFold) || bool_decide (runtime = RuntimeVLLMSwift).

(** [strings.ReplaceAll(s, "_", "-")]. *)
Fixpoint dashes (s : string) : string :=
  match s with
  | EmptyString => EmptyString
  | String c s => String (if Ascii.eqb c "_"%char then "-"%char else c) (dashes s)
  end.

Definition before_dot (s : string) : string := match CutByte s "."%char with Some (a, _) => a | None => s end.

(** [strings.TrimSuffix(s, "+")]. *)
Fixpoint trim_plus (s : string) : string :=
  match s with
  | EmptyString => EmptyString
  | String c EmptyString => if Ascii.eqb c "+"%char then EmptyString else s
  | String c s => String c (trim_plus s)
  end.

Definition normalizeFlag (runtime flag : string) : string :=
  if isLlamaRuntime runtime then if HasPrefix flag "--" then dashes flag else flag
  else if negb (bool_decide (runtime = RuntimeVLLMSwift)) then flag
  else trim_plus (before_dot (dashes flag)).

(** ** Parsing *)

Definition level_digit (c : ascii) : bool := in_range 48 51 c.

(** The expressions [^[0-3]$] and [^-O=?[0-3]$]; the latter with the digit. *)
Definition vllmOptLevelValue (s : string) : bool :=
  match s with String c EmptyString => level_digit c | _ => false end.

Definition vllmOptLevelInline (tok : string) : option string :=
  match CutPrefix tok "-O" with
  | None => None
  | Some t =>
      let t := match CutPrefix t "=" with Some u => u | None => t end in
      if vllmOptLevelValue t then Some t else None
  end.

Definition optimizationArg (flag value : string) (inline : bool) : Arg :=
  {| ar_Flag := flag; ar_Name := "--optimization-level"; ar_Spec := specFor RuntimeVLLMSwift "--optimization-level";
     ar_Values := [value]; ar_Inline := inline |}.

(** The argument at the head of the tokens, and how many tokens it takes. *)
Definition vllmOptimizationLevel (runtime tok : string) (rest : list string) : option (Arg * nat) :=
  if negb (bool_decide (runtime = RuntimeVLLMSwift)) then None
  else match vllmOptLevelInline tok with
       | Some v => Some (optimizationArg tok v true, 1%nat)
       | None =>
           match rest with
           | v :: _ => if bool_decide (tok = "-O") && vllmOptLevelValue v then Some (optimizationArg tok v false, 2%nat) else None
           | [] => None
           end
       end.

(** The argument read as a short option with the rest of its token attached, and the
    token the rest makes when the option takes no value. *)
Definition attachedShort (a : Arg) (runtime : string) : option (Arg * string) :=
  if bool_decide (is_Some (ar_Spec a)) || negb (isArgparseRuntime runtime) || HasPrefix (ar_Flag a) "--" ||
     (String.length (ar_Flag a) <=? 2)%nat || (String.length (ar_Name a) <? 2)%nat ||
     negb (bool_decide (String.substring 0 2 (ar_Flag a) = String.substring 0 2 (ar_Name a)))
  then None
  else
    let short := String.substring 0 2 (ar_Name a) in
    match specFor runtime short with
    | None => None
    | Some spec =>
        let rest := drop_bytes 2 (ar_Flag a) in
        let rest := match ar_Values a with v :: _ => if ar_Inline a then rest +:+ "=" +:+ v else rest | [] => rest end in
        if bool_decide (fs_Kind spec = KindBool)
        then Some ({| ar_Flag := ar_Flag a; ar_Name := short; ar_Spec := Some spec; ar_Values := []; ar_Inline := false |},
                   "-" +:+ rest)
        else Some ({| ar_Flag := ar_Flag a; ar_Name := short; ar_Spec := Some spec; ar_Values := [rest]; ar_Inline := true |},
                   EmptyString)
    end.

(** The leading tokens that are not shaped like flags, at most [want] of them. *)
Fixpoint plain_tokens (want : nat) (rest : list string) : nat :=
  match want, rest with
  | S want, t :: rest => if flagShaped t then 0 else S (plain_tokens want rest)
  | _, _ => 0
  end.

Definition valueTokens (a : Arg) (runtime : string) (rest : list string) : nat :=
  match ar_Spec a with
  | None => 0
  | Some s =>
      if bool_decide (fs_Kind s = KindBool) then 0
      else if fs_Multi s then if ar_Inline a then 0 else plain_tokens (length rest) rest
      else if fs_OptionalValue s then if ar_Inline a then 0 else plain_tokens 1 rest
      else
        let want := (Nat.max (fs_Arity s) 1 - length (ar_Values a))%nat in
        if isArgparseRuntime runtime || bool_decide (runtime = RuntimeMLXServer) then plain_tokens want rest
        else Nat.min want (length rest)
  end.

(** The flag of a token, before its values. *)
Definition flag_arg (runtime tok : string) : Arg :=
  let '(flag, values, inline) :=
    match CutByte tok "="%char with Some (name, val) => (name, [val], true) | None => (tok, [], false) end in
  let name := normalizeFlag runtime flag in
  {| ar_Flag := flag; ar_Name := name; ar_Spec := specFor runtime name; ar_Values := values; ar_Inline := inline |}.

Definition with_written (a : Arg) (flag : string) : Arg :=
  {| ar_Flag := flag; ar_Name := ar_Name a; ar_Spec := ar_Spec a; ar_Values := ar_Values a; ar_Inline := ar_Inline a |}.

Definition add_values (a : Arg) (values : list string) : Arg :=
  {| ar_Flag := ar_Flag a; ar_Name := ar_Name a; ar_Spec := ar_Spec a; ar_Values := ar_Values a ++ values;
     ar_Inline := ar_Inline a |}.

Definition stray (tok : string) : Arg :=
  {| ar_Flag := EmptyString; ar_Name := EmptyString; ar_Spec := None; ar_Values := [tok]; ar_Inline := false |}.

(** Tokens, each with the token the caller wrote if it was split off one. *)
Fixpoint parse_loop (fuel : nat) (runtime : string) (args : list (string * option string)) : list Arg :=
  match fuel, args with
  | S fuel, (tok, written) :: rest =>
      if negb (flagShaped tok) then stray tok :: parse_loop fuel runtime rest
      else match vllmOptimizationLevel runtime tok (fst <$> rest) with
      | Some (a, n) => a :: parse_loop fuel runtime (drop (n - 1) rest)
      | None =>
          let a := flag_arg runtime tok in
          let '(a, rest) :=
            match attachedShort a runtime with
            | Some (a', chained) =>
                (a', if bool_decide (chained = EmptyString) then rest
                     else (chained, Some (default (ar_Flag a') written)) :: rest)
            | None => (a, rest)
            end in
          let a := match written with Some w => with_written a w | None => a end in
          let n := valueTokens a runtime (fst <$> rest) in
          add_values a (take n (fst <$> rest)) :: parse_loop fuel runtime (drop n rest)
      end
  | _, _ => []
  end.

Definition token_fuel (args : list string) : nat := list_sum ((fun t => S (String.length t)) <$> args).

Definition parseTyped (runtime : string) (args : list string) : list Arg :=
  parse_loop (token_fuel args) runtime ((fun t => (t, None)) <$> args).

(** ** Refusals *)

(** The first error of a sequence of checks. *)
Definition or_error {E} (a b : option E) : option E := match a with Some e => Some e | None => b end.
#[local] Notation "a ≫? b" := (or_error a b) (at level 65, right associativity).

Record RejectedError := {
  re_Runtime : string;
  re_Flag : string;
  re_Rule : string;
  re_Why : string;
  re_Relaxable : bool;
}.

Definition reject (runtime flag rule why : string) (relaxable : bool) : RejectedError :=
  {| re_Runtime := runtime; re_Flag := flag; re_Rule := rule; re_Why := why; re_Relaxable := relaxable |}.

Record flagRule := { fr_why : string; fr_bind : bool }.

Definition rule (why : string) (bind : bool) : flagRule := {| fr_why := why; fr_bind := bind |}.

Definition downloadsModel : string := "downloads a model".
Definition multiNodeWhy : string := "opens a data-parallel or multi-node network listener".
Definition distributedWhy : string := "can open network listeners or start distributed backends".

Definition llamaRefused : list (string * flagRule) :=
  [("--host", rule "sets the bind address" true); ("--port", rule "sets the port" true);
   ("--reuse-port", rule "changes socket binding" true); ("--path", rule "serves files over HTTP" false);
   ("--api-prefix", rule "changes the served path" false); ("--log-file", rule "writes a file" false);
   ("--api-key", rule "sets auth keys" false); ("--api-key-file", rule "reads a file" false);
   ("--ssl-key-file", rule "reads a key file" false); ("--ssl-cert-file", rule "reads a cert file" false);
   ("--slot-save-path", rule "writes files" false); ("--log-prompts-dir", rule "writes prompts to disk" false);
   ("--media-path", rule "serves local files" false); ("--models-dir", rule "loads other models" false);
   ("--models-preset", rule "reads a preset file" false);
   ("--video-ffmpeg-dir", rule "runs binaries from a directory" false);
   ("--tools", rule "enables built-in agent tools" false); ("--tools-runtime", rule "runs tools" false);
   ("--mcp-servers-config", rule "starts MCP servers" false);
   ("--mcp-servers-json", rule "starts MCP servers" false); ("--ui-mcp-proxy", rule "proxies MCP" false);
   ("--webui-mcp-proxy", rule "proxies MCP" false); ("-m", rule "overrides the model the agent chose" false);
   ("--model", rule "overrides the model the agent chose" false);
   ("-a", rule "overrides the model alias the agent sets" false);
   ("--alias", rule "overrides the model alias the agent sets" false);
   ("-ag", rule "enables built-in agent tools and a CORS proxy over HTTP" false);
   ("--agent", rule "enables built-in agent tools and a CORS proxy over HTTP" false);
   ("-mu", rule downloadsModel false); ("--model-url", rule downloadsModel false);
   ("-dr", rule downloadsModel false); ("--docker-repo", rule downloadsModel false);
   ("-hf", rule downloadsModel false); ("-hfr", rule downloadsModel false); ("--hf-repo", rule downloadsModel false);
   ("-hff", rule downloadsModel false); ("--hf-file", rule downloadsModel false);
   ("-hft", rule "sets a token" false); ("--hf-token", rule "sets a token" false);
   ("-hfd", rule downloadsModel false); ("-hfrd", rule downloadsModel false);
   ("--hf-repo-draft", rule downloadsModel false); ("--spec-draft-hf", rule downloadsModel false);
   ("-mmu", rule "downloads a file" false); ("--mmproj-url", rule "downloads a file" false)].

Definition mlxServerRefused : list (string * flagRule) :=
  [("--host", rule "sets the bind address" true); ("--port", rule "sets the port" true);
   ("--model", rule "overrides the model the agent chose" false)].

Definition tensorfoldRefused : list (string * flagRule) :=
  [("--host", rule "sets the bind address" true); ("--port", rule "sets the port" true);
   ("--name", rule "overrides the model id the agent set" false);
   ("--alias", rule "overrides the model id the agent set" false); ("--backend", rule "changes the backend" false);
   ("--tp", rule "joins or opens a multi-node group" true);
   ("--rank", rule "joins or opens a multi-node group" true);
   ("--master", rule "sets the multi-node group's master address" true);
   ("--master-port", rule "opens a multi-node group port" true)].

Definition vllmSwiftRefused : list (string * flagRule) :=
  [("--host", rule "sets the bind address" true); ("--port", rule "sets the port" true);
   ("--uds", rule "binds a unix socket" true); ("--headless", rule "changes serving mode" true);
   ("--api-server-count", rule "starts extra servers" true); ("-asc", rule "starts extra servers" true);
   ("--config", rule "a config file can set any flag, including the listen address and port" true);
   ("--model", rule "overrides the model the agent chose" false);
   ("--served-model-name", rule "overrides the model id the agent set" false);
   ("--data-parallel-address", rule multiNodeWhy true); ("-dpa", rule multiNodeWhy true);
   ("--data-parallel-size", rule multiNodeWhy true); ("-dp", rule multiNodeWhy true);
   ("--data-parallel-size-local", rule multiNodeWhy true); ("-dpl", rule multiNodeWhy true);
   ("--data-parallel-rpc-port", rule multiNodeWhy true); ("-dpp", rule multiNodeWhy true);
   ("--data-parallel-external-lb", rule multiNodeWhy true); ("-dpe", rule multiNodeWhy true);
   ("--data-parallel-hybrid-lb", rule multiNodeWhy true); ("-dph", rule multiNodeWhy true);
   ("--data-parallel-start-rank", rule multiNodeWhy true); ("-dpr", rule multiNodeWhy true);
   ("--master-addr", rule multiNodeWhy true); ("--master-port", rule multiNodeWhy true);
   ("--nnodes", rule multiNodeWhy true); ("-n", rule multiNodeWhy true); ("--node-rank", rule multiNodeWhy true);
   ("-r", rule multiNodeWhy true); ("--data-parallel-rank", rule multiNodeWhy true);
   ("-dpn", rule multiNodeWhy true); ("--data-parallel-backend", rule multiNodeWhy true);
   ("-dpb", rule multiNodeWhy true); ("--kv-events-config", rule distributedWhy true);
   ("--kv-transfer-config", rule distributedWhy true); ("--ec-transfer-config", rule distributedWhy true);
   ("--weight-transfer-config", rule distributedWhy true);
   ("--distributed-executor-backend", rule distributedWhy true)].

Definition refusedByRuntime : list (string * list (string * flagRule)) :=
  [(RuntimeLlamaCPP, llamaRefused); (RuntimeLlamaServer, llamaRefused); (RuntimeMLXServer, mlxServerRefused);
   (RuntimeTensorFold, tensorfoldRefused); (RuntimeVLLMSwift, vllmSwiftRefused)].

(** [bindFlagNames[runtime]]. *)
Definition bindFlagNames (runtime : string) : list string :=
  fst <$> List.filter (fun '(_, r) => fr_bind r) (default [] (assoc runtime refusedByRuntime)).

(** A strict prefix. *)
Definition abbreviates (flag name : string) : bool := negb (bool_decide (flag = name)) && HasPrefix name flag.

Definition abbreviatesBindFlag (runtime flag : string) : bool := existsb (abbreviates flag) (bindFlagNames runtime).

Definition prefixesKnownFlag (runtime name : string) : bool := existsb (fun '(flag, _) => abbreviates name flag) (specs_of runtime).

(** [strings.HasSuffix]. *)
Fixpoint HasSuffix (s suffix : string) : bool :=
  bool_decide (s = suffix) || match s with EmptyString => false | String _ s => HasSuffix s suffix end.

Definition llamaPreset (flag : string) : bool := HasPrefix flag "--fim-" || HasSuffix flag "-default".

Definition presetWhy (flag : string) : string :=
  if bool_decide (flag = "--spec-default") then "changes the speculative decoding configuration to a bundled preset"
  else "downloads a preset model".

(** ** Checks *)

Record ArgsInput := {
  in_Runtime : string;
  in_Args : list string;
  in_Roots : Roots;
  in_WorkDir : string;
  in_Home : string;
  in_AllowUnsafe : bool;
}.

Fixpoint checkOptimizationRewrite_loop (runtime : string) (args : list string) : option RejectedError :=
  match args with
  | [] => None
  | tok :: rest =>
      if negb (HasPrefix tok "-O") || bool_decide (is_Some (vllmOptLevelInline tok)) then checkOptimizationRewrite_loop runtime rest
      else if bool_decide (tok = "-O") && match rest with v :: _ => vllmOptLevelValue v | [] => false end
      then checkOptimizationRewrite_loop runtime rest
      else Some (reject runtime tok "bind"
             "vLLM rewrites -O tokens, which can carry other flags; only -O0..-O3, -O=N and -O N are allowed" false)
  end.

Definition checkOptimizationRewrite (i : ArgsInput) : option RejectedError :=
  if negb (bool_decide (in_Runtime i = RuntimeVLLMSwift)) then None
  else checkOptimizationRewrite_loop (in_Runtime i) (in_Args i).

Definition isNegation (a : Arg) (canonical : string) : bool :=
  negb (ar_Inline a) && negb (bool_decide (ar_Name a = canonical)) &&
  (HasPrefix (ar_Name a) "--no-" || HasPrefix (ar_Name a) "-no-").

(** The rule of the table for a flag: by its name, or by its canonical name. *)
Definition table_rule (table : list (string * flagRule)) (a : Arg) : option flagRule :=
  match assoc (ar_Name a) table with
  | Some r => Some r
  | None => if isNegation a (Canonical a) then None else assoc (Canonical a) table
  end.

Definition checkFlag (i : ArgsInput) (table : list (string * flagRule)) (a : Arg) : option RejectedError :=
  let rt := in_Runtime i in
  let isArgparse := isArgparseRuntime rt in
  let canonical := Canonical a in
  if isArgparse && (bool_decide (ar_Name a = "-") || bool_decide (ar_Name a = "--")) then
    Some (reject rt (ar_Flag a) "refused-flag" "bare option separators are not allowed in extraArgs" false)
  else
    match table_rule table a with
    | Some r =>
        if fr_bind r || negb (in_AllowUnsafe i)
        then Some (reject rt (ar_Flag a) (if fr_bind r then "bind" else "refused-flag") (fr_why r) (negb (fr_bind r)))
        else None
    | None => None
    end ≫?
    if isArgparse && abbreviatesBindFlag rt (ar_Name a) then
      Some (reject rt (ar_Flag a) "bind" "abbreviates a flag that controls how the engine listens or is registered" false)
    else if in_AllowUnsafe i then None
    else if isLlamaRuntime rt && (llamaPreset (ar_Name a) || llamaPreset canonical) then
      Some (reject rt (ar_Flag a) "refused-flag"
              (presetWhy (if llamaPreset (ar_Name a) then ar_Name a else canonical)) true)
    else match ar_Spec a with
    | None =>
        let why := "not a recognized flag for this engine version" in
        Some (reject rt (ar_Flag a) "unknown-flag"
          (if isArgparse && prefixesKnownFlag rt (ar_Name a)
           then why +:+ " (argparse would accept it as an abbreviation of another flag)" else why) true)
    | Some _ => None
    end.

(** ** Path flags *)

Definition isNonPathLiteral (runtime flag value : string) : bool :=
  if bool_decide (runtime = RuntimeTensorFold) && bool_decide (flag = "--drafter") then
    bool_decide (value = "auto") || bool_decide (value = "none")
  else if bool_decide (runtime = RuntimeTensorFold) && bool_decide (flag = "--snapshot-dir") then EqualFold value "none"
  else if bool_decide (runtime = RuntimeVLLMSwift) && bool_decide (flag = "--generation-config") then
    bool_decide (value = "auto") || bool_decide (value = "vllm")
  else false.

Definition quote : ascii := "034"%char.

(** A quoted field after its opening quote, and what follows the closing one. *)
Fixpoint csv_quoted (s : string) : string * string :=
  match s with
  | EmptyString => (EmptyString, EmptyString)
  | String c s' =>
      if Ascii.eqb c quote then
        match s' with
        | String d s'' =>
            if Ascii.eqb d quote then let '(f, r) := csv_quoted s'' in (String quote f, r) else (EmptyString, s')
        | EmptyString => (EmptyString, EmptyString)
        end
      else let '(f, r) := csv_quoted s' in (String c f, r)
  end.

Fixpoint csv_fields (fuel : nat) (s : string) : list string :=
  match fuel with
  | O => []
  | S fuel =>
      let '(quoted, s) :=
        match s with
        | String c s' => if Ascii.eqb c quote then csv_quoted s' else (EmptyString, s)
        | EmptyString => (EmptyString, s)
        end in
      match CutByte s ","%char with
      | Some (text, rest) => (quoted +:+ text) :: csv_fields fuel rest
      | None => [quoted +:+ s]
      end
  end.

Definition parseCSVRow (s : string) : list string := csv_fields (S (String.length s)) s.

Definition count_byte (s : string) (c : ascii) : nat := (length (SplitByte s c) - 1)%nat.

Definition nameEqPathWhy : string :=
  "value is not a name=path entry (vLLM would parse it as JSON or fail); only name=path is allowed".

Definition decodePaths (d : PathDecode) (v : string) : result string (list string) :=
  match d with
  | DecodeWhole => Ok [v]
  | DecodeCSV => Ok (parseCSVRow v)
  | DecodeCSVColon => Ok ((fun f => default EmptyString (head (SplitByte f colon))) <$> parseCSVRow v)
  | DecodeNameEqPath =>
      if ContainsByte v ","%char || negb (count_byte v "="%char =? 1)%nat then Err nameEqPathWhy
      else Ok [match CutByte v "="%char with Some (_, p) => p | None => EmptyString end]
  | DecodeNone => Err "no decode rule for this path flag"
  end.

Definition tensorfoldSessionSnapshots (value workDir home : string) : string :=
  let p := if bool_decide (value = "~") && nonempty home then home
           else match CutPrefix value "~/" with
                | Some rest => if nonempty home then JoinPath home rest else value
                | None => value
                end in
  let p := if IsAbs p then p else JoinPath workDir p in
  JoinPath (Dir (Clean p)) "session-snapshots".

(** The further paths an engine derives from a value. *)
Definition extraPathsFor (runtime flag value workDir home : string) : list string :=
  if bool_decide (runtime = RuntimeTensorFold) && bool_decide (flag = "--snapshot-dir")
  then [tensorfoldSessionSnapshots value workDir home] else [].

Inductive check_error := Rejected (e : RejectedError) | PathRefused (e : PathError).

Definition extraArgsPathHint : string :=
  "add its directory to --allowed-model-roots, or set --allow-unsafe-extra-args on the agent to override".

Definition with_hint (e : PathError) : PathError :=
  {| pe_What := pe_What e; pe_Path := pe_Path e; pe_Resolved := pe_Resolved e; pe_Roots := pe_Roots e; pe_Err := pe_Err e;
     pe_NotExist := pe_NotExist e; pe_Hint := extraArgsPathHint |}.

Definition checkPath (f : fsys) (i : ArgsInput) (what p : string) (mustExist : bool) : option check_error :=
  (fun e => PathRefused (with_hint e)) <$>
    (if mustExist then CheckPathExists f (in_Roots i) what p (in_WorkDir i) (in_Home i)
     else CheckPath f (in_Roots i) what p (in_WorkDir i) (in_Home i)).

(** The first error of a list of checks. *)
Fixpoint first_error {A E} (check : A -> option E) (l : list A) : option E :=
  match l with
  | [] => None
  | x :: l => check x ≫? first_error check l
  end.

Definition check_value (f : fsys) (i : ArgsInput) (a : Arg) (spec : FlagSpec) (v : string) : option check_error :=
  let what := "extraArgs value for " +:+ ar_Flag a in
  if isNonPathLiteral (in_Runtime i) (fs_Canonical spec) v then None
  else match decodePaths (fs_Decode spec) v with
       | Err why => Some (Rejected (reject (in_Runtime i) (ar_Flag a) "path" why true))
       | Ok paths =>
           first_error (fun p => checkPath f i what p (fs_MustExist spec)) paths ≫?
           first_error (fun p => checkPath f i what p false)
             (extraPathsFor (in_Runtime i) (fs_Canonical spec) v (in_WorkDir i) (in_Home i))
       end.

Definition checkPaths (f : fsys) (i : ArgsInput) (args : list Arg) : option check_error :=
  first_error (fun a =>
    match ar_Spec a with
    | Some spec => if bool_decide (fs_Kind spec = KindPath) then first_error (check_value f i a spec) (ar_Values a) else None
    | None => None
    end) args.

(** ** Code loading *)

Definition torchLoadEmbedsWhy : string :=
  "lets any API client submit a serialized tensor the server deserializes with torch.load".

Definition vllmRefused : list (string * string) :=
  [("--trust-remote-code", "runs model-supplied code"); ("--code-revision", "runs model-supplied code");
   ("--middleware", "imports Python code"); ("--logits-processors", "imports Python code");
   ("--tool-server", "connects to a tool server");
   ("--log-config-file", "reads a logging config that can name Python classes");
   ("--download-dir", "writes downloads to a directory"); ("--allowed-local-media-path", "serves local files");
   ("--root-path", "changes the served path"); ("--api-key", "sets auth keys");
   ("--ssl-keyfile", "reads a key file"); ("--ssl-certfile", "reads a cert file");
   ("--ssl-ca-certs", "reads CA files"); ("--allowed-origins", "changes CORS");
   ("--allow-credentials", "changes CORS"); ("--otlp-traces-endpoint", "sends traces to a remote endpoint");
   ("--trust-request-chat-template", "lets any API client, not only the InferenceService writer, supply a chat template for the server to render");
   ("--enable-prompt-embeds", torchLoadEmbedsWhy); ("--enable-mm-embeds", torchLoadEmbedsWhy)].

Definition vllmConfigAllowed (flag : string) : bool :=
  bool_decide (flag = "--generation-config") || bool_decide (flag = "--override-generation-config").
Definition vllmJSONAllowed (flag : string) : bool := bool_decide (flag = "--override-generation-config").

(** [unicode.IsSpace]. *)
Definition IsSpace (r : Z) : bool :=
  (9 <=? r) && (r <=? 13) || (r =? 32) || (r =? 133) || (r =? 160) || (r =? 5760) || (8192 <=? r) && (r <=? 8202) ||
  (r =? 8232) || (r =? 8233) || (r =? 8239) || (r =? 8287) || (r =? 12288).

(** Leading space and byte-order marks removed. *)
Fixpoint trim_space_bom (fuel : nat) (v : string) : string :=
  match fuel, v with
  | S fuel, String _ _ =>
      let '(r, n) := DecodeRuneInString v in
      if IsSpace r || (r =? 65279) then trim_space_bom fuel (drop_bytes n v) else v
  | _, _ => v
  end.

Definition trimmed (v : string) : string := trim_space_bom (String.length v) v.

Definition inlineJinja (v : string) : bool :=
  let v := trimmed v in HasPrefix v "{%" || HasPrefix v "{{" || HasPrefix v "{#".

Definition inlineJSON (v : string) : bool := let v := trimmed v in HasPrefix v "{" || HasPrefix v "[".

Definition vllmDottedKey (tok : string) : option string :=
  if negb (HasPrefix tok "-") then None
  else
    let name := match CutByte tok "="%char with Some (n, _) => n | None => tok end in
    if ContainsByte name "."%char then Some name else None.

Definition dottedWhy : string := "dotted-key flags set fields inside JSON config and bypass inline-JSON checks".

Definition dottedValueWhy : string :=
  "vLLM's parser reads any value starting with " +:+ String quote ("-" +:+ String quote " that contains ") +:+
  String quote ("." +:+ String quote " as a dotted-key flag, which sets fields inside JSON config").

(** The values that are tokens of their own. *)
Definition separate_values (a : Arg) : list string := if ar_Inline a then tail (ar_Values a) else ar_Values a.

Definition checkCodeLoading (i : ArgsInput) (parsed : list Arg) : option RejectedError :=
  let refuse flag why := Some (reject (in_Runtime i) flag "code-loading" why true) in
  if negb (bool_decide (in_Runtime i = RuntimeVLLMSwift)) then None
  else first_error (fun a =>
    if Stray a then None
    else if bool_decide (is_Some (vllmDottedKey (ar_Flag a))) then refuse (ar_Flag a) dottedWhy
    else
      let canonical := Canonical a in
      first_error (fun v => match vllmDottedKey v with Some name => refuse name dottedValueWhy | None => None end)
        (separate_values a) ≫?
      match assoc canonical vllmRefused with
      | Some why => if isNegation a canonical then None else refuse (ar_Flag a) why
      | None => None
      end ≫?
      if negb (vllmConfigAllowed canonical) &&
         (HasSuffix canonical "-cls" || HasSuffix canonical "-plugin" || HasSuffix canonical "-config")
      then refuse (ar_Flag a) "can load Python classes or modules"
      else if vllmJSONAllowed canonical then None
      else first_error (fun v =>
             if bool_decide (canonical = "--chat-template") && inlineJinja v then None
             else if inlineJSON v then refuse (ar_Flag a) "inline JSON config can name Python modules or files"
             else None) (ar_Values a)) parsed.

(** ** The policy *)

Definition checkStrays (i : ArgsInput) (args : list Arg) : option RejectedError :=
  first_error (fun a =>
    if Stray a
    then Some (reject (in_Runtime i) (default EmptyString (head (ar_Values a))) "stray-token"
           "no flag takes it as a value; positional arguments are not allowed in extraArgs" true)
    else None) args.

Definition CheckExtraArgs (f : fsys) (i : ArgsInput) : option check_error :=
  match assoc (in_Runtime i) refusedByRuntime with
  | None =>
      match in_Args i with
      | tok :: _ =>
          Some (Rejected (reject (in_Runtime i) tok "unsupported-runtime" "extraArgs are not supported for this runtime" false))
      | [] => None
      end
  | Some table =>
      (Rejected <$> checkOptimizationRewrite i) ≫?
      let args := parseTyped (in_Runtime i) (in_Args i) in
      (Rejected <$> first_error (fun a => if Stray a then None else checkFlag i table a) args) ≫?
      if in_AllowUnsafe i then None
      else (Rejected <$> checkStrays i args) ≫? (Rejected <$> checkCodeLoading i args) ≫? checkPaths f i args
  end.
