(* ===== verification/ArgPolicyFacts.v ===== *)
(** * Engine arguments: what the policy guarantees

    No token of accepted arguments can be read as an option that moves the engine's
    listener, whatever the operator allows; the options that llama-server takes from
    accepted arguments are the ones the policy saw; and the files it opens for them lie
    in the allowed directories. *)

From stdpp Require Import base strings list sets.
From Stdlib Require Import ZArith Lia Bool Ascii.
From S2P Require Import Prelude GoStrings GoPath ArgFlags ArgRoots ArgPolicy.

(** ** The first error *)

Lemma or_error_None {E} (a b : option E) : or_error a b = None <-> a = None /\ b = None.
Proof. destruct a; cbn; naive_solver. Qed.

Lemma first_error_None {A E} (check : A -> option E) l : first_error check l = None <-> Forall (fun x => check x = None) l.
Proof.
  induction l as [|x l IH]; cbn; [by split; constructor|]. rewrite or_error_None, Forall_cons, IH. done.
Qed.

Lemma assoc_Some {A} k (l : list (string * A)) v : assoc k l = Some v -> (k, v) ∈ l.
Proof.
  induction l as [|[k' v'] l IH]; cbn; [done|]. case_bool_decide as Hk; [|right; auto].
  intros [= <-]. subst. by left.
Qed.

Lemma assoc_In {A} k (l : list (string * A)) v : (k, v) ∈ l -> is_Some (assoc k l).
Proof.
  induction l as [|[k' v'] l IH]; [by intros ?%elem_of_nil|]. cbn. case_bool_decide; [by eexists|].
  intros [?|?]%elem_of_cons; [by simplify_eq|auto].
Qed.

(** ** Visited tokens *)

Definition tokens_size (args : list (string * option string)) : nat := token_fuel (fst <$> args).

Lemma token_fuel_cons t args : token_fuel (t :: args) = (S (String.length t) + token_fuel args)%nat.
Proof. reflexivity. Qed.

Lemma tokens_size_cons t w args : tokens_size ((t, w) :: args) = (S (String.length t) + tokens_size args)%nat.
Proof. reflexivity. Qed.

Lemma tokens_size_drop n args : (tokens_size (drop n args) <= tokens_size args)%nat.
Proof.
  revert n; induction args as [|[t w] args IH]; intros n; [by rewrite drop_nil|]. destruct n as [|n]; [done|].
  cbn [drop]. rewrite tokens_size_cons. specialize (IH n). lia.
Qed.

(** A token that is split off is shorter. *)
Lemma attached_shorter rt tok a' chained :
  attachedShort (flag_arg rt tok) rt = Some (a', chained) -> chained <> EmptyString ->
  (String.length chained < String.length tok)%nat.
Proof.
  unfold attachedShort. destruct (_ || _) eqn:Hc; [done|]. rewrite !orb_false_iff in Hc.
  destruct Hc as [[[_ Hl] _] _]. apply Nat.leb_gt in Hl.
  destruct (specFor rt _) as [spec|]; [|done]. case_bool_decide; [|by intros [= _ <-]]. intros [= _ <-] _.
  unfold flag_arg in *. destruct (CutByte tok "="%char) as [[n v]|] eqn:Hcut; cbn [ar_Flag ar_Values ar_Inline] in *.
  - apply CutByte_Some in Hcut as [-> _]. destruct n as [|x [|y n]]; cbn [String.length] in Hl; try lia.
    rewrite !length_app_str. cbn [String.length]. lia.
  - destruct tok as [|x [|y n]]; cbn [String.length] in Hl; try lia. rewrite length_app_str. cbn [String.length]. lia.
Qed.

(** The runtimes for which a token shaped like a flag is never a value. *)
Definition careful (rt : string) : bool := isArgparseRuntime rt || bool_decide (rt = RuntimeMLXServer).

Lemma plain_tokens_plain want rest : Forall (fun t => flagShaped t = false) (take (plain_tokens want rest) rest).
Proof.
  revert rest; induction want as [|want IH]; intros [|t rest]; cbn; try constructor.
  destruct (flagShaped t) eqn:Ht; cbn; [constructor|]. by constructor.
Qed.

Lemma valueTokens_plain a rt rest : careful rt = true -> Forall (fun t => flagShaped t = false) (take (valueTokens a rt rest) rest).
Proof.
  unfold careful. intros Hrt. unfold valueTokens. rewrite Hrt.
  repeat case_match; try apply plain_tokens_plain; constructor.
Qed.

(** The parsed arguments take up a token shaped like a flag: as one of vLLM's levels,
    as a flag of its own, or as a short option and the token its rest makes. *)
Inductive handled (rt : string) (out : list Arg) : string -> Prop :=
| handled_level tok :
    rt = RuntimeVLLMSwift -> is_Some (vllmOptLevelInline tok) \/ tok = "-O" -> handled rt out tok
| handled_flag tok a :
    attachedShort (flag_arg rt tok) rt = None -> a ∈ out -> Stray a = false -> ar_Name a = ar_Name (flag_arg rt tok) ->
    handled rt out tok
| handled_short tok a a' chained :
    attachedShort (flag_arg rt tok) rt = Some (a', chained) -> a ∈ out -> Stray a = false -> ar_Name a = ar_Name a' ->
    (flagShaped chained = true -> handled rt out chained) -> handled rt out tok.

Lemma handled_mono rt out out' tok : (forall a, a ∈ out -> a ∈ out') -> handled rt out tok -> handled rt out' tok.
Proof.
  intros Hs. induction 1; [by apply handled_level|eapply handled_flag; eauto|eapply handled_short; eauto].
Qed.

Lemma handled_cons rt out a tok : handled rt out tok -> handled rt (a :: out) tok.
Proof. apply handled_mono. intros b Hb. by right. Qed.

Definition written_ok (w : option string) : Prop := match w with Some s => s <> EmptyString | None => True end.

Lemma HasPrefix_app s p : HasPrefix s p = true <-> exists t, s = p +:+ t.
Proof.
  rewrite HasPrefix_CutPrefix. destruct (CutPrefix s p) as [t|] eqn:Hc.
  - apply CutPrefix_Some in Hc. naive_solver.
  - split; [done|]. intros [t ->]. by rewrite CutPrefix_app in Hc.
Qed.

Lemma flagShaped_dash tok : flagShaped tok = true -> exists t, tok = String "-"%char t.
Proof. unfold flagShaped. intros [Hp _]%andb_true_iff. by apply HasPrefix_app in Hp. Qed.

Lemma flag_arg_nonempty rt tok : flagShaped tok = true -> ar_Flag (flag_arg rt tok) <> EmptyString.
Proof.
  intros [t ->]%flagShaped_dash. unfold flag_arg. cbn [CutByte]. change (Ascii.eqb "-" "=") with false. cbn iota.
  by destruct (CutByte t "="%char) as [[? ?]|].
Qed.

Lemma attached_flag a rt a' chained : attachedShort a rt = Some (a', chained) -> ar_Flag a' = ar_Flag a.
Proof. unfold attachedShort. repeat case_match; intros; by simplify_eq. Qed.

(** A tail of the tokens, cut at a token that is not a flag, still has the flags. *)
Lemma in_drop (tok : string) (w : option string) n (rest : list (string * option string)) :
  Forall (fun t => flagShaped t = false) (take n (fst <$> rest)) -> flagShaped tok = true -> (tok, w) ∈ rest -> (tok, w) ∈ drop n rest.
Proof.
  intros Hp Ht Hin. rewrite <- (take_drop n rest) in Hin. apply elem_of_app in Hin as [Hin|]; [|done].
  rewrite Forall_forall in Hp. rewrite <- fmap_take in Hp. specialize (Hp tok). rewrite Hp in Ht; [done|].
  apply list_elem_of_fmap. by exists (tok, w).
Qed.

Lemma level_value_plain v : vllmOptLevelValue v = true -> flagShaped v = false.
Proof.
  destruct v as [|c [|]]; try done. cbn [vllmOptLevelValue]. unfold level_digit, in_range. intros H. to_prop.
  unfold flagShaped. destruct (HasPrefix (String c EmptyString) "-") eqn:Hp; [|done].
  apply HasPrefix_app in Hp as [t Ht]. rewrite app_cons in Ht. injection Ht as -> _. by vm_compute in H.
Qed.

Lemma level_spec rt t rest a n :
  vllmOptimizationLevel rt t rest = Some (a, n) ->
  rt = RuntimeVLLMSwift /\ (is_Some (vllmOptLevelInline t) \/ t = "-O") /\
  Forall (fun t => flagShaped t = false) (take (n - 1) rest).
Proof.
  unfold vllmOptimizationLevel. case_bool_decide as Hv; [|done]. cbn [negb].
  destruct (vllmOptLevelInline t) as [v|] eqn:Hi; [intros [= _ <-]; split_and!; [done|left; by eexists|constructor]|].
  destruct rest as [|v rest]; [done|]. destruct (bool_decide (t = "-O")) eqn:Ht; [|done].
  destruct (vllmOptLevelValue v) eqn:Hval; [|done]. intros [= _ <-]. apply bool_decide_eq_true in Ht.
  split_and!; [done|by right|]. cbn. repeat constructor. by apply level_value_plain.
Qed.

(** The tokens after a flag, with the token that is split off it. *)
Lemma parse_handles fuel rt args tok w :
  careful rt = true -> (tokens_size args <= fuel)%nat -> Forall (fun p => written_ok p.2) args ->
  (tok, w) ∈ args -> flagShaped tok = true -> handled rt (parse_loop fuel rt args) tok.
Proof.
  intros Hrt. revert args tok w. induction fuel as [|fuel IH]; intros args tok w Hf Hw Hin Ht.
  { destruct args as [|[t u] args]; [by apply elem_of_nil in Hin|]. rewrite tokens_size_cons in Hf. lia. }
  destruct args as [|[t u] rest]; [by apply elem_of_nil in Hin|]. rewrite tokens_size_cons in Hf.
  apply Forall_cons in Hw as [Hu Hw]. cbn [parse_loop].
  assert (forall n rest', Forall (fun p => written_ok p.2) rest' -> (tokens_size rest' <= fuel)%nat ->
            Forall (fun t => flagShaped t = false) (take n (fst <$> rest')) -> forall a t' w', (t', w') ∈ rest' -> flagShaped t' = true ->
            handled rt (a :: parse_loop fuel rt (drop n rest')) t') as Hrest.
  { intros n rest' Hw' Hf' Hp a t' w' Hin' Ht'. apply handled_cons. eapply (IH _ t' w').
    - pose proof (tokens_size_drop n rest'). lia.
    - by apply Forall_drop.
    - by apply in_drop.
    - done. }
  destruct (flagShaped t) eqn:Hs; cbn [negb].
  2:{ apply elem_of_cons in Hin as [?|Hin]; [congruence|]. exact (Hrest 0%nat rest Hw ltac:(lia) (Forall_nil_2 _) _ tok w Hin Ht). }
  destruct (vllmOptimizationLevel rt t (fst <$> rest)) as [[a n]|] eqn:Ho.
  { apply level_spec in Ho as (Hv & Hlev & Hp). apply elem_of_cons in Hin as [?|Hin].
    - simplify_eq. by apply handled_level.
    - eapply Hrest; eauto. lia. }
  destruct (attachedShort (flag_arg rt t) rt) as [[a' chained]|] eqn:Ha.
  - set (rest' := if bool_decide (chained = EmptyString) then rest else _).
    set (b := match u with Some _ => _ | None => a' end). pose proof (valueTokens_plain b rt (fst <$> rest') Hrt) as Hp.
    assert (Forall (fun p => written_ok p.2) rest' /\ (tokens_size rest' <= fuel)%nat /\ (forall p, p ∈ rest -> p ∈ rest') /\
            (flagShaped chained = true -> exists w', (chained, w') ∈ rest')) as (Hw' & Hf' & Hsub & Hch).
    { subst rest'. case_bool_decide as Hc; [subst; split_and!; [done|lia|done|done]|].
      pose proof (attached_shorter _ _ _ _ Ha Hc). rewrite tokens_size_cons. split_and!; [|lia|by right|].
      - constructor; [|done]. cbn. destruct u; cbn; [done|]. rewrite (attached_flag _ _ _ _ Ha). by apply flag_arg_nonempty.
      - intros _. eexists. by left. }
    apply elem_of_cons in Hin as [?|Hin]; [simplify_eq|by eapply Hrest; eauto].
    eapply (handled_short _ _ _ (add_values b _) a' chained); [done|by left| |by subst b; destruct u|].
    + unfold Stray. apply bool_decide_eq_false. subst b. destruct u; cbn; [done|].
      rewrite (attached_flag _ _ _ _ Ha). by apply flag_arg_nonempty.
    + intros Hs'. destruct (Hch Hs') as [w' Hin']. by eapply Hrest.
  - set (b := match u with Some _ => _ | None => flag_arg rt t end).
    pose proof (valueTokens_plain b rt (fst <$> rest) Hrt) as Hp.
    apply elem_of_cons in Hin as [?|Hin]; [simplify_eq|by eapply Hrest; eauto; lia].
    eapply (handled_flag _ _ _ (add_values b _)); [done|by left| |by subst b; destruct u].
    unfold Stray. apply bool_decide_eq_false. subst b. destruct u; cbn; [done|]. by apply flag_arg_nonempty.
Qed.

(** ** How an engine may read a token *)

(** The options, of those an engine registers, that a token may stand for: by its name
    as the engine spells it; for the runtimes on argparse also as an abbreviation, as a
    short option with its value attached, or as the rest of a switch. *)
Inductive reads (rt : string) : string -> string -> Prop :=
| reads_exact tok opt : flagShaped tok = true -> ar_Name (flag_arg rt tok) = opt -> reads rt tok opt
| reads_abbreviation tok opt :
    isArgparseRuntime rt = true -> flagShaped tok = true -> HasPrefix opt (ar_Name (flag_arg rt tok)) = true -> reads rt tok opt
| reads_attached tok spec :
    isArgparseRuntime rt = true -> flagShaped tok = true -> specFor rt (ar_Name (flag_arg rt tok)) = None ->
    specFor rt (String.substring 0 2 (ar_Flag (flag_arg rt tok))) = Some spec ->
    reads rt tok (String.substring 0 2 (ar_Flag (flag_arg rt tok)))
| reads_chained tok spec opt :
    isArgparseRuntime rt = true -> flagShaped tok = true -> specFor rt (ar_Name (flag_arg rt tok)) = None ->
    specFor rt (String.substring 0 2 (ar_Flag (flag_arg rt tok))) = Some spec -> fs_Kind spec = KindBool ->
    reads rt (String "-"%char (drop_bytes 2 tok)) opt -> reads rt tok opt.

(** vLLM reads what follows -O in a token as a token of its own. *)
Definition token_reads (rt tok opt : string) : Prop :=
  reads rt tok opt \/ (rt = RuntimeVLLMSwift /\ exists rest, tok = "-O" +:+ rest /\ reads rt rest opt).

(** ** Facts of the tables *)

Definition plain_short (s : string) : bool :=
  match s with
  | String d (String c EmptyString) =>
      Ascii.eqb d "-"%char && negb (Ascii.eqb c "-"%char) && negb (Ascii.eqb c "_"%char) && negb (Ascii.eqb c "."%char) &&
      negb (Ascii.eqb c "+"%char)
  | _ => (2 <? String.length s)%nat
  end.

Definition argparse_tables : list string := [RuntimeTensorFold; RuntimeVLLMSwift].

Lemma shorts_plain : forallb (fun rt => forallb (fun '(s, _) => plain_short s) (specs_of rt)) argparse_tables = true.
Proof. vm_compute. reflexivity. Qed.

Definition is_bind (rt opt : string) : bool :=
  match assoc opt (default [] (assoc rt refusedByRuntime)) with Some r => fr_bind r | None => false end.

Lemma binds_found :
  forallb (fun '(rt, _) => forallb (is_bind rt) (bindFlagNames rt)) refusedByRuntime = true.
Proof. vm_compute. reflexivity. Qed.

Lemma no_bind_level : forallb (fun opt => negb (HasPrefix opt "-O")) (bindFlagNames RuntimeVLLMSwift) = true.
Proof. vm_compute. reflexivity. Qed.

Lemma argparse_cases rt : isArgparseRuntime rt = true -> rt = RuntimeTensorFold \/ rt = RuntimeVLLMSwift.
Proof. unfold isArgparseRuntime. rewrite orb_true_iff, !bool_decide_eq_true. done. Qed.

Lemma short_plain rt s spec : isArgparseRuntime rt = true -> specFor rt s = Some spec -> plain_short s = true.
Proof.
  intros Hrt Hs. pose proof shorts_plain as Hp. rewrite forallb_forall in Hp.
  assert (In rt argparse_tables) as Hin by (apply argparse_cases in Hrt as [-> | ->]; cbn; auto).
  specialize (Hp rt Hin). rewrite forallb_forall in Hp. by apply (Hp (s, spec)), list_elem_of_In, assoc_Some.
Qed.

Lemma bind_rule rt table opt :
  assoc rt refusedByRuntime = Some table -> opt ∈ bindFlagNames rt -> exists r, assoc opt table = Some r /\ fr_bind r = true.
Proof.
  intros Ht Ho. pose proof binds_found as Hb. rewrite forallb_forall in Hb.
  specialize (Hb _ (proj1 (list_elem_of_In _ _) (assoc_Some _ _ _ Ht))). cbn beta iota in Hb. rewrite forallb_forall in Hb.
  specialize (Hb opt (proj1 (list_elem_of_In _ _) Ho)). unfold is_bind in Hb. rewrite Ht in Hb. change (match assoc opt table with Some r => fr_bind r | None => false end = true) in Hb.
  destruct (assoc opt table) as [r|]; [|done]. by exists r.
Qed.

(** A flag that passes is no option that binds, and abbreviates none. *)
Lemma checkFlag_bind i table a opt :
  assoc (in_Runtime i) refusedByRuntime = Some table -> checkFlag i table a = None -> opt ∈ bindFlagNames (in_Runtime i) ->
  ar_Name a <> opt /\ (isArgparseRuntime (in_Runtime i) = true -> HasPrefix opt (ar_Name a) = false).
Proof.
  intros Ht Hc Ho. unfold checkFlag in Hc. destruct (isArgparseRuntime (in_Runtime i) && _) eqn:Hbare; [done|].
  apply or_error_None in Hc as [Hr Hc]. destruct (bind_rule _ _ _ Ht Ho) as (r & Hr' & Hbind).
  assert (ar_Name a <> opt) as Hne.
  { intros E. unfold table_rule in Hr. by rewrite E, Hr', Hbind in Hr. }
  split; [done|]. intros Hrt. rewrite Hrt in Hc. destruct (abbreviatesBindFlag (in_Runtime i) (ar_Name a)) eqn:Hab; [done|].
  destruct (HasPrefix opt (ar_Name a)) eqn:Hp; [|done]. exfalso.
  assert (abbreviatesBindFlag (in_Runtime i) (ar_Name a) = true); [|congruence].
  apply existsb_exists. exists opt. split; [by apply list_elem_of_In|]. unfold abbreviates. by rewrite bool_decide_eq_false_2, Hp.
Qed.

(** A registered short option at the head of a token is found by [attachedShort]. *)
Lemma plain_short_cons s : plain_short s = true -> (String.length s <= 2)%nat ->
  exists c, s = String "-"%char (String c EmptyString) /\ Ascii.eqb c "-"%char = false /\ Ascii.eqb c "_"%char = false /\
    Ascii.eqb c "."%char = false /\ Ascii.eqb c "+"%char = false.
Proof.
  destruct s as [|d [|c [|x s]]]; cbn [plain_short String.length]; intros H Hl; try (apply Nat.ltb_lt in H; cbn in H; lia); try lia.
  rewrite !andb_true_iff, !negb_true_iff in H. destruct H as ((((Hd & ?) & ?) & ?) & ?).
  apply Ascii.eqb_eq in Hd. subst d. by exists c.
Qed.

Lemma substring_00 s : String.substring 0 0 s = EmptyString.
Proof. by destruct s. Qed.

Lemma substring_2 s : (String.length (String.substring 0 2 s) <= 2)%nat /\
  forall c, String.substring 0 2 s = String "-"%char (String c EmptyString) -> exists r, s = String "-"%char (String c r).
Proof.
  destruct s as [|a [|b s]]; cbn [String.substring String.length]; [split; [lia|done]..|].
  rewrite substring_00. cbn [String.length]. split; [lia|]. intros c [= -> ->]. by exists s.
Qed.

Lemma trim_plus_cons c x s : trim_plus (String c (String x s)) = String c (trim_plus (String x s)).
Proof. reflexivity. Qed.

(** Normalizing keeps a short option at the head. *)
Lemma normalize_short rt c r :
  isArgparseRuntime rt = true -> Ascii.eqb c "_"%char = false -> Ascii.eqb c "."%char = false -> Ascii.eqb c "+"%char = false ->
  exists r', normalizeFlag rt (String "-"%char (String c r)) = String "-"%char (String c r') /\ (r = EmptyString -> r' = EmptyString).
Proof.
  intros Hrt Hu Hd Hp. unfold normalizeFlag.
  replace (isLlamaRuntime rt) with false by (apply argparse_cases in Hrt as [-> | ->]; done).
  case_bool_decide; cbn [negb]; [|by exists r]. cbn [dashes]. rewrite Hu. change (Ascii.eqb "-" "_") with false. cbn iota.
  unfold before_dot. cbn [CutByte]. rewrite Hd. change (Ascii.eqb "-" ".") with false. cbn iota.
  assert (forall s, exists r', trim_plus (String "-"%char (String c s)) = String "-"%char (String c r') /\ (s = EmptyString -> r' = EmptyString)) as Ht.
  { intros [|x s]; rewrite trim_plus_cons; [exists EmptyString; cbn; by rewrite Hp|]. rewrite trim_plus_cons. by eexists. }
  destruct (CutByte (dashes r) "."%char) as [[b t]|] eqn:Hc.
  - destruct (Ht b) as (r' & -> & Hr'). exists r'. split; [done|]. intros ->. done.
  - destruct (Ht (dashes r)) as (r' & -> & Hr'). exists r'. split; [done|]. intros ->. by apply Hr'.
Qed.

Lemma drop_2_app c d s t : drop_bytes 2 (String c (String d s) +:+ t) = s +:+ t.
Proof. reflexivity. Qed.

Lemma attached_found rt tok spec :
  isArgparseRuntime rt = true -> specFor rt (ar_Name (flag_arg rt tok)) = None ->
  specFor rt (String.substring 0 2 (ar_Flag (flag_arg rt tok))) = Some spec ->
  exists a' chained, attachedShort (flag_arg rt tok) rt = Some (a', chained) /\
    ar_Name a' = String.substring 0 2 (ar_Flag (flag_arg rt tok)) /\
    (fs_Kind spec = KindBool -> chained = String "-"%char (drop_bytes 2 tok)).
Proof.
  intros Hrt Hn Hs. pose proof (short_plain _ _ _ Hrt Hs) as Hp.
  destruct (substring_2 (ar_Flag (flag_arg rt tok))) as [Hl Hsub].
  destruct (plain_short_cons _ Hp Hl) as (c & Hc & Hdash & Hu & Hd & Hpl). destruct (Hsub c Hc) as [r Hf].
  destruct (normalize_short rt c r Hrt Hu Hd Hpl) as (r' & Hnorm & Hr').
  assert (ar_Name (flag_arg rt tok) = normalizeFlag rt (ar_Flag (flag_arg rt tok))) as Hname.
  { unfold flag_arg. by destruct (CutByte tok "="%char) as [[? ?]|]. }
  rewrite Hf in Hname. rewrite Hnorm in Hname. rewrite Hc in Hs |- *.
  destruct r as [|x r]; [rewrite (Hr' eq_refl) in Hname; congruence|].
  assert (drop_bytes 2 tok = match ar_Values (flag_arg rt tok) with
            v :: _ => if ar_Inline (flag_arg rt tok) then String x r +:+ "=" +:+ v else String x r | [] => String x r end) as Htok.
  { revert Hf. unfold flag_arg. destruct (CutByte tok "="%char) as [[n v]|] eqn:Hcut; cbn [ar_Flag ar_Values ar_Inline].
    - apply CutByte_Some in Hcut as [-> _]. intros ->. by rewrite drop_2_app.
    - intros ->. done. }
  unfold attachedShort. rewrite Hf, Hname, Hrt. cbn [negb String.length orb Nat.leb Nat.ltb].
  assert (ar_Spec (flag_arg rt tok) = None) as ->.
  { revert Hn. unfold flag_arg. by destruct (CutByte tok "="%char) as [[? ?]|]. }
  rewrite bool_decide_eq_false_2 by (by intros [? ?]).
  replace (HasPrefix (String "-" (String c (String x r))) "--") with false.
  2:{ change (false = Ascii.eqb "-" c && true). by rewrite Ascii.eqb_sym, Hdash. }
  cbn [orb String.substring]. rewrite !substring_00. rewrite bool_decide_eq_true_2 by done. cbn [negb]. rewrite Hs.
  destruct (bool_decide (fs_Kind spec = KindBool)) eqn:Hk.
  - eexists _, _. split; [reflexivity|]. split; [done|]. intros _. rewrite Htok. by repeat case_match.
  - eexists _, _. split; [reflexivity|]. split; [done|]. intros Hb. by apply bool_decide_eq_false in Hk.
Qed.

(** ** Options that bind *)

Definition level_tokens : list string := ["-O"; "-O0"; "-O1"; "-O2"; "-O3"; "-O=0"; "-O=1"; "-O=2"; "-O=3"].

Lemma level_digits v : vllmOptLevelValue v = true -> v ∈ ["0"; "1"; "2"; "3"].
Proof.
  destruct v as [|c [|]]; try done. cbn [vllmOptLevelValue].
  destruct c as [[] [] [] [] [] [] [] []]; intros H; try (vm_compute in H; discriminate H); set_solver.
Qed.

Lemma level_listed tok : is_Some (vllmOptLevelInline tok) \/ tok = "-O" -> tok ∈ level_tokens.
Proof.
  intros [[v Hv]| ->]; [|by left]. unfold vllmOptLevelInline in Hv. destruct (CutPrefix tok "-O") as [t|] eqn:Ht; [|done].
  apply CutPrefix_Some in Ht as ->. destruct (CutPrefix t "=") as [u|] eqn:Hu.
  - apply CutPrefix_Some in Hu as ->. destruct (vllmOptLevelValue u) eqn:Hl; [|done]. apply level_digits in Hl.
    unfold level_tokens. set_solver.
  - destruct (vllmOptLevelValue t) eqn:Hl; [|done]. apply level_digits in Hl. unfold level_tokens. set_solver.
Qed.

(** What vLLM takes for a level can be read as no option that binds. *)
Lemma levels_safe :
  forallb (fun tok =>
    let a := flag_arg RuntimeVLLMSwift tok in
    forallb (fun opt => negb (HasPrefix opt (ar_Name a))) (bindFlagNames RuntimeVLLMSwift) &&
    bool_decide (specFor RuntimeVLLMSwift (String.substring 0 2 (ar_Flag a)) = None) &&
    negb (flagShaped (drop_bytes 2 tok))) level_tokens = true.
Proof. vm_compute. reflexivity. Qed.

Lemma level_safe tok opt :
  tok ∈ level_tokens -> opt ∈ bindFlagNames RuntimeVLLMSwift ->
  HasPrefix opt (ar_Name (flag_arg RuntimeVLLMSwift tok)) = false /\
  specFor RuntimeVLLMSwift (String.substring 0 2 (ar_Flag (flag_arg RuntimeVLLMSwift tok))) = None /\
  flagShaped (drop_bytes 2 tok) = false.
Proof.
  intros Ht Ho. pose proof levels_safe as H. rewrite forallb_forall in H. specialize (H tok (proj1 (list_elem_of_In _ _) Ht)).
  cbn zeta in H. rewrite !andb_true_iff, bool_decide_eq_true, negb_true_iff in H. destruct H as [[H1 ?] ?].
  rewrite forallb_forall in H1. specialize (H1 opt (proj1 (list_elem_of_In _ _) Ho)). by apply negb_true_iff in H1.
Qed.

Lemma HasPrefix_refl s : HasPrefix s s = true.
Proof. apply HasPrefix_app. exists EmptyString. by rewrite app_empty_r. Qed.

Lemma HasPrefix_trans a b c : HasPrefix a b = true -> HasPrefix b c = true -> HasPrefix a c = true.
Proof. rewrite !HasPrefix_app. intros [t ->] [u ->]. exists (u +:+ t). by rewrite app_assoc_str. Qed.

(** The checks on the parsed arguments rule out every reading as an option that binds. *)
Definition unbound (rt : string) (out : list Arg) (opt : string) : Prop :=
  forall a, a ∈ out -> Stray a = false -> ar_Name a <> opt /\ (isArgparseRuntime rt = true -> HasPrefix opt (ar_Name a) = false).

Lemma attached_inv a rt a' chained :
  attachedShort a rt = Some (a', chained) ->
  ar_Spec a = None /\ isArgparseRuntime rt = true /\ ar_Name a' = String.substring 0 2 (ar_Name a) /\
  exists spec, specFor rt (ar_Name a') = Some spec.
Proof.
  unfold attachedShort. destruct (_ || _) eqn:Hc; [done|]. rewrite !orb_false_iff, negb_false_iff in Hc.
  destruct Hc as [[[[[H1 H2] _] _] _] _]. apply bool_decide_eq_false in H1.
  destruct (specFor rt _) as [spec|] eqn:Hs; [|done]. intros H.
  assert (ar_Name a' = String.substring 0 2 (ar_Name a)) as E by (case_bool_decide; by simplify_eq).
  split_and!; [by apply eq_None_not_Some|done|done|]. exists spec. by rewrite E.
Qed.

Lemma substring_prefix n s : HasPrefix s (String.substring 0 n s) = true.
Proof.
  revert s; induction n as [|n IH]; intros [|c s]; cbn; try done. by rewrite Ascii.eqb_refl, IH.
Qed.

Lemma handled_unread rt out tok opt :
  unbound rt out opt -> opt ∈ bindFlagNames rt -> handled rt out tok -> reads rt tok opt -> False.
Proof.
  intros Hout Hopt. induction 1 as [tok -> Hlev|tok a Ha Hin Hs Hname|tok a a' chained Ha Hin Hs Hname _ IH]; intros Hr.
  - apply level_listed in Hlev. destruct (level_safe tok opt Hlev Hopt) as (H1 & H2 & _).
    inversion Hr; subst; try congruence. by rewrite HasPrefix_refl in H1.
  - destruct (Hout a Hin Hs) as [Hne Hpre]. rewrite Hname in *.
    inversion Hr as [? ? Hf He|? ? Hrt Hf Hp|? spec Hrt Hf Hn Hs'|? spec ? Hrt Hf Hn Hs' Hb Hr']; subst.
    + done.
    + by rewrite Hpre in Hp.
    + destruct (attached_found rt tok spec) as (? & ? & ? & _); [done..|congruence].
    + destruct (attached_found rt tok spec) as (? & ? & ? & _); [done..|congruence].
  - destruct (Hout a Hin Hs) as [Hne Hpre]. destruct (attached_inv _ _ _ _ Ha) as (Hsp & Hrt & Hn' & _).
    specialize (Hpre Hrt). rewrite Hname in *.
    assert (forall opt', HasPrefix opt' (ar_Name (flag_arg rt tok)) = true -> HasPrefix opt' (ar_Name a') = true) as Hshort.
    { intros opt' Hp. rewrite Hn'. eapply HasPrefix_trans; [exact Hp|]. apply substring_prefix. }
    inversion Hr as [? ? Hf He|? ? _ Hf Hp|? spec _ Hf Hn Hs'|? spec ? _ Hf Hn Hs' Hb Hr']; subst.
    + by rewrite (Hshort _ (HasPrefix_refl _)) in Hpre.
    + by rewrite Hshort in Hpre.
    + destruct (attached_found rt tok spec) as (b & ch & Hb & Hbn & _); [done..|]. rewrite Ha in Hb. by simplify_eq.
    + destruct (attached_found rt tok spec) as (b & ch & Hb' & _ & Hch); [done..|]. rewrite Ha in Hb'. simplify_eq.
      rewrite Hch in IH by done. apply IH; [|done]. by destruct Hr'.
Qed.

Lemma tokens_size_fmap args : tokens_size ((fun t => (t, None)) <$> args) = token_fuel args.
Proof. unfold tokens_size. rewrite <- list_fmap_compose. f_equal. induction args as [|t args IH]; cbn; by rewrite ?IH. Qed.

Lemma parseTyped_handles rt args tok :
  careful rt = true -> tok ∈ args -> flagShaped tok = true -> handled rt (parseTyped rt args) tok.
Proof.
  intros Hrt Hin Ht. unfold parseTyped. apply (parse_handles _ _ _ _ None); [done|by rewrite tokens_size_fmap| | |done].
  - apply Forall_fmap, Forall_true. done.
  - apply list_elem_of_fmap. by exists tok.
Qed.

Lemma reads_flag rt tok opt : reads rt tok opt -> flagShaped tok = true.
Proof. by destruct 1. Qed.

Lemma check_levels runtime args tok :
  checkOptimizationRewrite_loop runtime args = None -> tok ∈ args -> HasPrefix tok "-O" = true -> tok ∈ level_tokens.
Proof.
  induction args as [|t args IH]; [by intros _ ?%elem_of_nil|]. cbn [checkOptimizationRewrite_loop]. intros H Hin Hp.
  apply elem_of_cons in Hin as [<-|Hin].
  - rewrite Hp in H. cbn [negb orb] in H. apply level_listed. case_bool_decide as Hl; [by left|].
    destruct (bool_decide (tok = "-O")) eqn:Ht; [right; by apply bool_decide_eq_true in Ht|done].
  - destruct (negb (HasPrefix t "-O") || _); [by apply IH|]. destruct (bool_decide (t = "-O") && _); [by apply IH|done].
Qed.

Lemma accepted_parts f i table :
  assoc (in_Runtime i) refusedByRuntime = Some table -> CheckExtraArgs f i = None ->
  checkOptimizationRewrite i = None /\
  (forall a, a ∈ parseTyped (in_Runtime i) (in_Args i) -> Stray a = false -> checkFlag i table a = None) /\
  (in_AllowUnsafe i = false ->
     checkStrays i (parseTyped (in_Runtime i) (in_Args i)) = None /\
     checkCodeLoading i (parseTyped (in_Runtime i) (in_Args i)) = None /\
     checkPaths f i (parseTyped (in_Runtime i) (in_Args i)) = None).
Proof.
  intros Ht. unfold CheckExtraArgs. rewrite Ht. rewrite !or_error_None, !fmap_None, first_error_None, Forall_forall.
  intros (H1 & H2 & H3). split_and!; [done| |].
  - intros a Ha Hs. specialize (H2 a Ha). by rewrite Hs in H2.
  - intros Hu. rewrite Hu, !or_error_None, !fmap_None in H3. done.
Qed.

Lemma careful_known rt : careful rt = true -> exists table, assoc rt refusedByRuntime = Some table.
Proof.
  unfold careful. rewrite orb_true_iff, bool_decide_eq_true.
  intros [[-> | ->]%argparse_cases| ->]; (eexists; vm_compute; reflexivity).
Qed.

(** C27: for the engines on argparse and for mlx-server no token of accepted arguments,
    wherever it stands, can be read as an option that sets how the engine listens:
    neither by its name nor, on argparse, as an abbreviation, as a short option with
    something attached, at the end of a chain of switches, or behind vLLM's -O.  This
    holds also when the operator allows unsafe arguments. *)
Theorem no_token_binds (f : fsys) (i : ArgsInput) (tok opt : string) :
  careful (in_Runtime i) = true -> CheckExtraArgs f i = None -> tok ∈ in_Args i -> opt ∈ bindFlagNames (in_Runtime i) ->
  ~ token_reads (in_Runtime i) tok opt.
Proof.
  intros Hrt Hc Hin Hopt Hr. destruct (careful_known _ Hrt) as [table Ht].
  destruct (accepted_parts _ _ _ Ht Hc) as (Hlev & Hflags & _). destruct Hr as [Hr|(Hv & rest & -> & Hr)].
  - eapply (handled_unread _ (parseTyped (in_Runtime i) (in_Args i)) tok opt); [|done| |done].
    + intros a Ha Hs. eapply checkFlag_bind; eauto.
    + apply parseTyped_handles; [done..|]. by eapply reads_flag.
  - unfold checkOptimizationRewrite in Hlev. rewrite bool_decide_eq_true_2 in Hlev by done. cbn [negb] in Hlev.
    apply (check_levels _ _ _ Hlev) in Hin; [|apply HasPrefix_app; by exists rest].
    rewrite Hv in Hopt. destruct (level_safe _ _ Hin Hopt) as (_ & _ & Hs). apply reads_flag in Hr.
    change (drop_bytes 2 ("-O" +:+ rest)) with rest in Hs. congruence.
Qed.

(** A model directory with a link out of it into another directory. *)
Definition demo_fs : fsys :=
  {| fs_at l := if bool_decide (l = ["models"]) || bool_decide (l = ["data"]) then Some NDir
                else if bool_decide (l = ["models"; "sub"]) then Some (NLink "../data") else None;
     fs_cwd := [] |}.

(** Arguments of vLLM that are accepted when unsafe ones are allowed. *)
Definition vllm_input : ArgsInput :=
  {| in_Runtime := RuntimeVLLMSwift; in_Args := ["--max-model-len"; "4096"; "-O"; "3"; "-hq"; "--new-flag=x"];
     in_Roots := {| dirs := [] |}; in_WorkDir := "/models"; in_Home := EmptyString; in_AllowUnsafe := true |}.

Lemma no_token_binds_witness :
  CheckExtraArgs demo_fs vllm_input = None /\ ~ token_reads RuntimeVLLMSwift "--new-flag=x" "--port".
Proof.
  split; [vm_compute; reflexivity|]. apply (no_token_binds demo_fs vllm_input "--new-flag=x" "--port").
  - vm_compute. reflexivity.
  - vm_compute. reflexivity.
  - unfold vllm_input. set_solver.
  - apply list_elem_of_In. vm_compute. auto.
Defined.

(** ** What llama-server reads *)

(** The number of value tokens of an option, by the table. *)
Definition value_count (spec : FlagSpec) : nat :=
  if bool_decide (fs_Kind spec = KindBool) then 0%nat else Nat.max (fs_Arity spec) 1.

Section Llama.
(** The options the engine registers, with the number of values each takes whatever
    they look like; it stops at a token it does not know. *)
Context (engine : string -> option nat).

Fixpoint engine_reads (fuel : nat) (rt : string) (args : list string) : list (string * list string) :=
  match fuel, args with
  | S fuel, tok :: rest =>
      match engine (normalizeFlag rt tok) with
      | Some n => if (length rest <? n)%nat then [] else (normalizeFlag rt tok, take n rest) :: engine_reads fuel rt (drop n rest)
      | None => []
      end
  | _, _ => []
  end.

(** The tables list the engine's options with their values. *)
Context (engine_listed : forall rt name n, isLlamaRuntime rt = true -> engine name = Some n ->
                           exists spec, specFor rt name = Some spec /\ n = value_count spec).

Definition llama_entry_ok (p : string * FlagSpec) : bool :=
  flagShaped p.1 && negb (ContainsByte p.1 "="%char) && negb (fs_Multi p.2) && negb (fs_OptionalValue p.2).

Lemma llama_entries : forallb llama_entry_ok (selfCanonical llamaFlagSpecs) = true.
Proof using. vm_compute. reflexivity. Qed.

Lemma llama_specs rt : isLlamaRuntime rt = true -> specs_of rt = selfCanonical llamaFlagSpecs.
Proof using.
  unfold isLlamaRuntime. rewrite orb_true_iff, !bool_decide_eq_true. intros [-> | ->]; unfold specs_of; by vm_compute.
Qed.

Lemma llama_entry rt name spec :
  isLlamaRuntime rt = true -> specFor rt name = Some spec -> llama_entry_ok (name, spec) = true.
Proof using.
  intros Hrt Hs%assoc_Some. rewrite (llama_specs _ Hrt) in Hs. pose proof llama_entries as He.
  rewrite forallb_forall in He. by apply He, list_elem_of_In.
Qed.

Lemma dashes_contains s : ContainsByte (dashes s) "="%char = ContainsByte s "="%char.
Proof using. induction s as [|c s IH]; cbn [dashes ContainsByte]; [done|]. rewrite IH. by destruct (Ascii.eqb_spec c "_"%char) as [->|]. Qed.

Lemma double_dash_flag tok : HasPrefix tok "--" = true -> flagShaped tok = true.
Proof using.
  intros [t ->]%HasPrefix_app. unfold flagShaped, negativeNumber. rewrite !app_cons, app_nil.
  cbn [HasPrefix CutPrefix]. change (Ascii.eqb "-" "-") with true. cbn [andb negb nonempty all_digits].
  change (is_digit "-") with false. cbn [andb orb CutByte]. rewrite andb_false_r. cbn [orb]. change (Ascii.eqb "-" ".") with false. cbn iota.
  by destruct (CutByte t "."%char) as [[a b]|].
Qed.

(** A token the engine knows is parsed as the flag it is. *)
Lemma llama_flag_arg rt tok spec :
  isLlamaRuntime rt = true -> specFor rt (normalizeFlag rt tok) = Some spec ->
  flagShaped tok = true /\ flag_arg rt tok =
    {| ar_Flag := tok; ar_Name := normalizeFlag rt tok; ar_Spec := Some spec; ar_Values := []; ar_Inline := false |}.
Proof using.
  intros Hrt Hs. pose proof (llama_entry _ _ _ Hrt Hs) as Hok. unfold llama_entry_ok in Hok. cbn [fst snd] in Hok.
  rewrite !andb_true_iff, !negb_true_iff in Hok. destruct Hok as [[[Hf He] _] _].
  assert (normalizeFlag rt tok = if HasPrefix tok "--" then dashes tok else tok) as Hn by (unfold normalizeFlag; by rewrite Hrt).
  assert (ContainsByte tok "="%char = false) as Hne.
  { rewrite Hn in He. destruct (HasPrefix tok "--"); [by rewrite dashes_contains in He|done]. }
  split.
  - destruct (HasPrefix tok "--") eqn:Hd; [by apply double_dash_flag|by rewrite Hn in Hf].
  - unfold flag_arg. rewrite CutByte_None by done. by rewrite Hs.
Qed.

Lemma llama_not_argparse rt : isLlamaRuntime rt = true -> isArgparseRuntime rt = false /\ rt <> RuntimeVLLMSwift /\ rt <> RuntimeMLXServer.
Proof using. unfold isLlamaRuntime. rewrite orb_true_iff, !bool_decide_eq_true. by intros [-> | ->]. Qed.

Lemma llama_value_tokens rt tok spec rest :
  isLlamaRuntime rt = true -> specFor rt (normalizeFlag rt tok) = Some spec -> (value_count spec <= length rest)%nat ->
  valueTokens (flag_arg rt tok) rt rest = value_count spec.
Proof using.
  intros Hrt Hs Hl. destruct (llama_flag_arg _ _ _ Hrt Hs) as [_ ->]. unfold valueTokens. cbn [ar_Spec ar_Values ar_Inline].
  pose proof (llama_entry _ _ _ Hrt Hs) as Hok. unfold llama_entry_ok in Hok. cbn [fst snd] in Hok.
  rewrite !andb_true_iff, !negb_true_iff in Hok. destruct Hok as [[_ ->] ->].
  unfold value_count in *. case_bool_decide; [done|].
  destruct (llama_not_argparse _ Hrt) as (-> & _ & Hm). rewrite bool_decide_eq_false_2 by done. cbn [orb length].
  rewrite Nat.sub_0_r. lia.
Qed.

Lemma engine_follows fuel fuel' rt args :
  isLlamaRuntime rt = true -> (token_fuel args <= fuel')%nat ->
  exists k, let l := take k (parse_loop fuel' rt ((fun t => (t, None)) <$> args)) in
    engine_reads fuel rt args = ((fun a => (ar_Name a, ar_Values a)) <$> l) /\
    Forall (fun a => Stray a = false /\ ar_Spec a = specFor rt (ar_Name a)) l.
Proof using engine_listed.
  intros Hrt. revert fuel' args. induction fuel as [|fuel IH]; intros fuel' args Hf; [by exists 0%nat|].
  destruct args as [|tok rest]; [by exists 0%nat|]. cbn [engine_reads].
  destruct (engine (normalizeFlag rt tok)) as [n|] eqn:He; [|by exists 0%nat].
  destruct (Nat.ltb_spec (length rest) n) as [|Hn]; [by exists 0%nat|].
  destruct (engine_listed _ _ _ Hrt He) as (spec & Hs & ->). rewrite token_fuel_cons in Hf.
  destruct fuel' as [|fuel']; [lia|]. destruct (llama_flag_arg _ _ _ Hrt Hs) as [Ht Ha].
  destruct (llama_not_argparse _ Hrt) as (Hap & Hv & _).
  cbn [fmap list_fmap parse_loop]. rewrite Ht. cbn [negb]. unfold vllmOptimizationLevel. rewrite bool_decide_eq_false_2 by done.
  cbn [negb]. unfold attachedShort. rewrite Ha, Hap. cbn [ar_Spec negb]. rewrite bool_decide_eq_true_2 by by eexists.
  cbn [orb]. rewrite <- Ha. rewrite <- list_fmap_compose. change (fst ∘ (fun t : string => (t, None))) with (fun t : string => t).
  rewrite list_fmap_id, (llama_value_tokens rt tok spec) by done.
  destruct (IH fuel' (drop (value_count spec) rest)) as (k & Hk & Hst).
  { pose proof (tokens_size_drop (value_count spec) ((fun t => (t, None)) <$> rest)) as Hd.
    rewrite <- fmap_drop, !tokens_size_fmap in Hd. lia. }
  rewrite fmap_drop in Hk, Hst. exists (S k). cbn [take fmap list_fmap]. rewrite <- Hk, Ha. split; [done|]. constructor; [|done].
  split; [|done]. by apply flagShaped_dash in Ht as [t ->].
Qed.
End Llama.

Lemma llama_table rt : isLlamaRuntime rt = true -> assoc rt refusedByRuntime = Some llamaRefused.
Proof. unfold isLlamaRuntime. rewrite orb_true_iff, !bool_decide_eq_true. intros [-> | ->]; by vm_compute. Qed.

Lemma checkFlag_llama i a :
  isLlamaRuntime (in_Runtime i) = true -> checkFlag i llamaRefused a = None -> in_AllowUnsafe i = false ->
  assoc (ar_Name a) llamaRefused = None /\ llamaPreset (ar_Name a) = false.
Proof.
  intros Hrt Hc Hu. unfold checkFlag in Hc. destruct (_ && _); [done|]. apply or_error_None in Hc as [Hr Hc].
  rewrite Hu in *. split.
  - unfold table_rule in Hr. destruct (assoc (ar_Name a) llamaRefused) as [r|]; [|done]. by rewrite orb_true_r in Hr.
  - destruct (_ && abbreviatesBindFlag _ _); [done|]. rewrite Hrt in Hc. by destruct (llamaPreset (ar_Name a)).
Qed.


(** The engine of the table. *)
Definition table_engine (name : string) : option nat := value_count <$> specFor RuntimeLlamaServer name.

Lemma table_engine_listed rt name n :
  isLlamaRuntime rt = true -> table_engine name = Some n -> exists spec, specFor rt name = Some spec /\ n = value_count spec.
Proof.
  intros Hrt. unfold table_engine, specFor. rewrite (llama_specs rt Hrt), (llama_specs RuntimeLlamaServer eq_refl).
  destruct (assoc name _) as [spec|]; [|done]. intros [= <-]. by exists spec.
Qed.

Definition llama_input : ArgsInput :=
  {| in_Runtime := RuntimeLlamaServer; in_Args := ["--ctx_size"; "4096"; "--lora"; "sub/a.bin,sub/b.bin"; "--no-perf"];
     in_Roots := {| dirs := ["/data"] |}; in_WorkDir := "/models"; in_Home := EmptyString; in_AllowUnsafe := false |}.


(** A path that passed was checked. *)
Lemma accepted_path f0 f i args a spec v ps p p' e paths ignored :
  isLlamaRuntime (in_Runtime i) = true -> checkPaths f i args = None -> a ∈ args -> ar_Spec a = Some spec -> fs_Kind spec = KindPath ->
  v ∈ ar_Values a -> decodePaths (fs_Decode spec) v = Ok ps -> p ∈ ps ->
  NewRoots f0 paths (in_Home i) = Ok (in_Roots i, ignored) -> IsAbs (in_WorkDir i) = true ->
  expand_path p (in_WorkDir i) (in_Home i) = Ok p' -> lands f [] (SplitByte p' slash) e ->
  exists d, render true d ∈ dirs (in_Roots i) /\ d `prefix_of` e.
Proof.
  intros Hrt Hc Ha Hs Hk Hv Hd Hp Hroots Hw Hx Hl. unfold checkPaths in Hc. rewrite first_error_None, Forall_forall in Hc.
  specialize (Hc a Ha). cbn beta in Hc. rewrite Hs, bool_decide_eq_true_2, first_error_None, Forall_forall in Hc by done.
  specialize (Hc v Hv). unfold check_value in Hc. destruct (llama_not_argparse _ Hrt) as (Hap & _ & _).
  replace (isNonPathLiteral (in_Runtime i) (fs_Canonical spec) v) with false in Hc.
  2:{ unfold isNonPathLiteral. unfold isArgparseRuntime in Hap. apply orb_false_iff in Hap as [-> ->]. done. }
  rewrite Hd, or_error_None, !first_error_None, Forall_forall in Hc. destruct Hc as [Hc _]. specialize (Hc p Hp).
  unfold checkPath in Hc. apply fmap_None in Hc. eapply CheckPath_lands; [done|done| |done|done].
  destruct (fs_MustExist spec); [by right|by left].
Qed.


