(* ===== verification/ArgTables.v ===== *)
(** * Engine arguments: the tables and the values

    That the flag tables and the tables of refused flags fit together, and that the
    fields of a comma-separated value are read back as they were written. *)

From stdpp Require Import base strings list.
From Stdlib Require Import ZArith Lia Bool Ascii.
From S2P Require Import Prelude GoStrings GoPath ArgFlags ArgRoots ArgPolicy.

(** ** The tables *)

(** An entry of a runtime's table: it looks like a flag, its canonical name is an entry
    of the same type that is its own canonical name, and exactly a path has a rule to
    decode it. *)
Definition entry_ok (table : list (string * FlagSpec)) (p : string * FlagSpec) : Prop :=
  flagShaped p.1 = true /\
  (exists c, assoc (fs_Canonical p.2) table = Some c /\ fs_Canonical c = fs_Canonical p.2 /\ fs_Kind c = fs_Kind p.2 /\
     fs_Decode c = fs_Decode p.2 /\ fs_MustExist c = fs_MustExist p.2) /\
  (fs_Kind p.2 = KindPath <-> fs_Decode p.2 <> DecodeNone).

Definition entry_okb (table : list (string * FlagSpec)) (p : string * FlagSpec) : bool :=
  flagShaped p.1 &&
  match assoc (fs_Canonical p.2) table with
  | Some c => bool_decide (fs_Canonical c = fs_Canonical p.2) && bool_decide (fs_Kind c = fs_Kind p.2) &&
              bool_decide (fs_Decode c = fs_Decode p.2) && bool_decide (fs_MustExist c = fs_MustExist p.2)
  | None => false
  end && bool_decide (fs_Kind p.2 = KindPath <-> fs_Decode p.2 <> DecodeNone).

Lemma entry_okb_ok table p : entry_okb table p = true -> entry_ok table p.
Proof.
  unfold entry_okb. rewrite !andb_true_iff. intros [[H1 H2] H3%bool_decide_eq_true]. split; [done|]. split; [|done].
  destruct (assoc _ _) as [c|]; [|done]. exists c. rewrite !andb_true_iff, !bool_decide_eq_true in H2. naive_solver.
Qed.

Definition kinds (table : list (string * FlagSpec)) : nat * nat * nat :=
  let count k := length (List.filter (fun '(_, s) => bool_decide (fs_Kind s = k)) table) in
  (count KindBool, count KindValue, count KindPath).

(** The tables fit together.  No flag is listed twice, every entry is well formed,
    the flags that are refused by name are flags of their runtime, so no refusal is dead,
    and the tables have the numbers of switches, values and paths that the source
    states. *)
Lemma flag_tables_well_formed :
  Forall (fun '(_, table) => NoDup (fst <$> table) /\ Forall (entry_ok table) table) flagSpecs /\
  Forall (fun '(rt, refused) => Forall (fun p => is_Some (specFor rt p)) (fst <$> refused)) refusedByRuntime /\
  Forall (fun p => is_Some (specFor RuntimeVLLMSwift p)) (fst <$> vllmRefused) /\
  ((fun '(_, table) => kinds table) <$> flagSpecs) =
    [(116, 259, 36); (116, 259, 36); (2, 5, 1); (6, 22, 2); (134, 165, 17)]%nat.
Proof.
  split_and!.
  - assert (forallb (fun '(_, table) => bool_decide (NoDup (fst <$> table)) && forallb (entry_okb table) table) flagSpecs = true) as H
      by (vm_compute; reflexivity).
    apply Forall_forall. intros [rt table] Hin%list_elem_of_In. rewrite forallb_forall in H. specialize (H _ Hin). cbn beta iota in H.
    apply andb_true_iff in H as [Hd%bool_decide_eq_true He]. split; [done|]. apply Forall_forall. intros p Hp%list_elem_of_In.
    rewrite forallb_forall in He. by apply entry_okb_ok, He.
  - apply Forall_forall. intros [rt refused] Hin. apply Forall_forall.
    assert (forallb (fun '(rt, refused) => forallb (fun p => bool_decide (is_Some (specFor rt p))) (fst <$> refused)) refusedByRuntime = true) as H
      by (vm_compute; reflexivity).
    rewrite forallb_forall in H. specialize (H _ (proj1 (list_elem_of_In _ _) Hin)). cbn beta iota in H. rewrite forallb_forall in H.
    intros p Hp. by apply (bool_decide_unpack _), Is_true_true_2, H, list_elem_of_In.
  - apply Forall_forall. assert (forallb (fun p => bool_decide (is_Some (specFor RuntimeVLLMSwift p))) (fst <$> vllmRefused) = true) as H
      by (vm_compute; reflexivity).
    rewrite forallb_forall in H. intros p Hp. by apply (bool_decide_unpack _), Is_true_true_2, H, list_elem_of_In.
  - vm_compute. reflexivity.
Qed.

(** ** Comma-separated values *)

(** A field in quotes, with its quotes doubled. *)
Fixpoint escaped (f : string) : string :=
  match f with
  | EmptyString => EmptyString
  | String c f => if Ascii.eqb c quote then String quote (String quote (escaped f)) else String c (escaped f)
  end.

Definition quoted (f : string) : string := String quote (escaped f +:+ String quote EmptyString).

(** A field as it is, which has no comma and does not begin with a quote. *)
Definition plain (f : string) : Prop := ContainsByte f ","%char = false /\ HasPrefix f (String quote EmptyString) = false.

Definition writes (f enc : string) : Prop := enc = quoted f \/ (enc = f /\ plain f).

Lemma csv_quoted_escaped f rest : HasPrefix rest (String quote EmptyString) = false ->
  csv_quoted (escaped f +:+ String quote rest) = (f, rest).
Proof.
  intros Hr. induction f as [|c f IH]; cbn [escaped].
  - rewrite app_nil. cbn [csv_quoted]. rewrite Ascii.eqb_refl. destruct rest as [|d rest]; [done|].
    cbn [HasPrefix] in Hr. rewrite andb_true_r, Ascii.eqb_sym in Hr. by rewrite Hr.
  - destruct (Ascii.eqb_spec c quote) as [->|Hne]; rewrite !app_cons; cbn [csv_quoted].
    + rewrite !Ascii.eqb_refl. by rewrite IH.
    + apply Ascii.eqb_neq in Hne. by rewrite Hne, IH.
Qed.

(** The field at the head of a row, before its end or a comma. *)
Definition row_rest (rest : string) (fuel : nat) : list string :=
  match rest with EmptyString => [] | String _ r => csv_fields fuel r end.

Definition row_end (rest : string) : Prop := rest = EmptyString \/ exists r, rest = String ","%char r.

Lemma row_end_quote rest : row_end rest -> HasPrefix rest (String quote EmptyString) = false.
Proof. by intros [->|[r ->]]. Qed.

Lemma row_end_cut rest : row_end rest ->
  match CutByte rest ","%char with Some (text, r) => text = EmptyString /\ rest = String ","%char r | None => rest = EmptyString end.
Proof. by intros [->|[r ->]]. Qed.

Lemma CutByte_absent s c : ContainsByte s c = false -> CutByte s c = None.
Proof. induction s as [|x s IH]; cbn; [done|]. intros [-> Hs]%orb_false_iff. by rewrite IH. Qed.

Lemma csv_field_quoted f rest fuel : row_end rest -> csv_fields (S fuel) (quoted f +:+ rest) = f :: row_rest rest fuel.
Proof.
  intros Hr. unfold quoted. rewrite app_cons, app_assoc_str, app_cons, app_nil. cbn [csv_fields].
  rewrite Ascii.eqb_refl, csv_quoted_escaped by by apply row_end_quote. pose proof (row_end_cut rest Hr) as Hc.
  destruct (CutByte rest ","%char) as [[text r]|]; [destruct Hc as [-> ->]|subst rest]; by rewrite app_empty_r.
Qed.

Lemma csv_field_plain f rest fuel : plain f -> row_end rest -> csv_fields (S fuel) (f +:+ rest) = f :: row_rest rest fuel.
Proof.
  intros [Hc Hq] Hr. cbn [csv_fields].
  assert (match f +:+ rest with
          | EmptyString => (EmptyString, f +:+ rest)
          | String c s' => if Ascii.eqb c quote then csv_quoted s' else (EmptyString, f +:+ rest)
          end = (EmptyString, f +:+ rest)) as ->.
  { destruct f as [|c f]; [|cbn [HasPrefix] in Hq; rewrite andb_true_r, Ascii.eqb_sym in Hq; rewrite app_cons; by rewrite Hq].
    rewrite app_nil. by destruct Hr as [->|[r ->]]. }
  destruct Hr as [->|[r ->]].
  - by rewrite app_empty_r, CutByte_absent.
  - by rewrite CutByte_app.
Qed.

Lemma csv_field f enc rest fuel : writes f enc -> row_end rest -> csv_fields (S fuel) (enc +:+ rest) = f :: row_rest rest fuel.
Proof. intros [->|[-> Hp]] Hr; [by apply csv_field_quoted|by apply csv_field_plain]. Qed.

Lemma Join_comma a b l : Join (a :: b :: l) "," = a +:+ String ","%char (Join (b :: l) ",").
Proof. reflexivity. Qed.

Lemma csv_row fields encs fuel :
  Forall2 writes fields encs -> encs <> [] -> (length encs <= fuel)%nat -> csv_fields fuel (Join encs ",") = fields.
Proof.
  intros H; revert fuel. induction H as [|f enc fields encs Hw Hrest IH]; intros fuel Hne Hf; [done|].
  destruct fuel as [|fuel]; [cbn in Hf; lia|]. cbn [length] in Hf. destruct encs as [|enc' encs].
  - inversion Hrest; subst. change (Join [enc] ",") with enc. rewrite <- (app_empty_r enc).
    rewrite (csv_field f) by (done || by left). done.
  - rewrite Join_comma, (csv_field f) by (done || by right; eexists). cbn [row_rest]. by rewrite IH by (done || lia).
Qed.

Lemma Join_comma_length encs : (length encs <= S (String.length (Join encs ",")))%nat.
Proof.
  induction encs as [|a encs IH]; [cbn; lia|]. destruct encs as [|b encs]; [cbn; lia|].
  rewrite Join_comma, length_app_str. cbn [length String.length] in *. lia.
Qed.

(** The fields of a comma-separated value are read back as they were written: a
    field in quotes with its quotes doubled, whatever it contains, and one without
    commas that does not begin with a quote as it is. *)
Lemma csv_row_roundtrip (fields encs : list string) :
  Forall2 writes fields encs -> encs <> [] -> parseCSVRow (Join encs ",") = fields.
Proof. intros H Hne. apply csv_row; [done..|]. pose proof (Join_comma_length encs). lia. Qed.

