(* ===== verification/AgentWatch.v ===== *)
(** * The node agent: the watcher of InferenceServices

    The polling watcher of pkg/agent/watcher.go and the loop that keeps it running.  A
    round of the watcher is one tick of its timer; what the Kubernetes API answers in it
    is the input of the round, and every lookup of a Model has an answer of its own.  Go
    ranges over a map in an order of its choice, which is the argument [order]. *)

From stdpp Require Import base strings list gmap.
From Stdlib Require Import ZArith Lia Bool.
From S2P Require Import Prelude GoStrings GoFloat AgentEvict Agent.

(** ** Data *)

Inductive EventType := EventTypeCreated | EventTypeUpdated | EventTypeDeleted.

(** A listed InferenceService. *)
Record Item := {
  it_svc : Service;
  it_ResourceVersion : string;
  it_ModelRef : string;
}.

(** The event of a service that is gone holds only its name. *)
Record InferenceServiceEvent := {
  ev_Type : EventType;
  ev_Namespace : string;
  ev_Name : string;
  ev_object : option Item;
}.

(** The answer to a lookup of a Model, with the accelerator of its hardware. *)
Inductive model_reply := ReplyModel (accelerator : option string) | ReplyNotFound | ReplyError.

(** One lookup: the answer, whether the context was cancelled, and the time. *)
Record lookup_reply := {
  lr_model : model_reply;
  lr_cancelled : bool;
  lr_now : Z;
}.

Record InferenceServiceWatcher := {
  w_maxConsecutiveFailures : Z;
  w_pollInterval : Z;
  w_nameAllowlist : option (gset string);
  w_lookupFailing : gmap string Z;
}.

Definition DefaultMaxConsecutiveFailures : Z := 3.
Definition defaultPollInterval : Z := 5 * second.

Definition NewInferenceServiceWatcher : InferenceServiceWatcher :=
  {| w_maxConsecutiveFailures := DefaultMaxConsecutiveFailures; w_pollInterval := defaultPollInterval;
     w_nameAllowlist := None; w_lookupFailing := ∅ |}.

Definition SetMaxConsecutiveFailures (w : InferenceServiceWatcher) (n : Z) : InferenceServiceWatcher :=
  {| w_maxConsecutiveFailures := if n <? 1 then DefaultMaxConsecutiveFailures else n;
     w_pollInterval := w_pollInterval w; w_nameAllowlist := w_nameAllowlist w; w_lookupFailing := w_lookupFailing w |}.

Definition SetPollInterval (w : InferenceServiceWatcher) (d : Z) : InferenceServiceWatcher :=
  if d <=? 0 then w
  else {| w_maxConsecutiveFailures := w_maxConsecutiveFailures w; w_pollInterval := d;
          w_nameAllowlist := w_nameAllowlist w; w_lookupFailing := w_lookupFailing w |}.

Definition SetNameAllowlist (w : InferenceServiceWatcher) (names : list string) : InferenceServiceWatcher :=
  let allow : gset string := list_to_set (List.filter (fun n => negb (bool_decide (n = EmptyString))) (TrimSpace <$> names)) in
  {| w_maxConsecutiveFailures := w_maxConsecutiveFailures w; w_pollInterval := w_pollInterval w;
     w_nameAllowlist := if bool_decide (allow = ∅) then None else Some allow; w_lookupFailing := w_lookupFailing w |}.

Definition with_failing (w : InferenceServiceWatcher) (m : gmap string Z) : InferenceServiceWatcher :=
  {| w_maxConsecutiveFailures := w_maxConsecutiveFailures w; w_pollInterval := w_pollInterval w;
     w_nameAllowlist := w_nameAllowlist w; w_lookupFailing := m |}.

(** ** Whose service it is *)

Definition watchKey (i : Item) : string := key_of (it_svc i).

(** The one error of [decideWatch]: the lookup of the Model failed. *)
Definition decideWatch (w : InferenceServiceWatcher) (i : Item) (m : model_reply) : result unit bool :=
  if bool_decide (it_ModelRef i = EmptyString) then Ok false
  else if match w_nameAllowlist w with Some allow => negb (bool_decide (sv_Name (it_svc i) ∈ allow)) | None => false end
  then Ok false
  else match m with
       | ReplyNotFound => Ok false
       | ReplyError => Err tt
       | ReplyModel accelerator => Ok (bool_decide (accelerator = Some "metal"))
       end.

Definition noteLookupFailed (w : InferenceServiceWatcher) (now : Z) (i : Item) : InferenceServiceWatcher :=
  match w_lookupFailing w !! watchKey i with
  | Some _ => w
  | None => with_failing w (<[watchKey i := now]> (w_lookupFailing w))
  end.

Definition noteLookupDecided (w : InferenceServiceWatcher) (i : Item) : InferenceServiceWatcher :=
  match w_lookupFailing w !! watchKey i with
  | Some _ => with_failing w (delete (watchKey i) (w_lookupFailing w))
  | None => w
  end.

Definition forgetVanishedLookupFailures (w : InferenceServiceWatcher) (current : gset string) : InferenceServiceWatcher :=
  with_failing w (filter (fun kv => kv.1 ∈ current) (w_lookupFailing w)).

Definition shouldWatch (w : InferenceServiceWatcher) (i : Item) (r : lookup_reply) : InferenceServiceWatcher * result unit bool :=
  let d := decideWatch w i (lr_model r) in
  (match d with
   | Ok _ => noteLookupDecided w i
   | Err _ => if lr_cancelled r then w else noteLookupFailed w (lr_now r) i
   end, d).

Definition owns (w : InferenceServiceWatcher) (i : Item) (r : lookup_reply) : InferenceServiceWatcher * bool :=
  let '(w, d) := shouldWatch w i r in (w, match d with Ok watch => watch | Err _ => false end).

(** ** The initial list and a poll *)

Definition object_event (t : EventType) (i : Item) : InferenceServiceEvent :=
  {| ev_Type := t; ev_Namespace := sv_Namespace (it_svc i); ev_Name := sv_Name (it_svc i); ev_object := Some i |}.

Definition deleted_event (key : string) : InferenceServiceEvent :=
  let '(namespace, name) := parseKey key in
  {| ev_Type := EventTypeDeleted; ev_Namespace := namespace; ev_Name := name; ev_object := None |}.

(** The answer to a list: an error, or the services with the answers of their lookups. *)
Definition list_reply : Type := option (list (Item * lookup_reply)).

Fixpoint list_items (w : InferenceServiceWatcher) (items : list (Item * lookup_reply)) :
    InferenceServiceWatcher * list InferenceServiceEvent :=
  match items with
  | [] => (w, [])
  | (i, r) :: items =>
      let '(w, d) := shouldWatch w i r in
      let '(w, evs) := list_items w items in
      (w, match d with Ok true => object_event EventTypeCreated i :: evs | _ => evs end)
  end.

Definition listExisting (w : InferenceServiceWatcher) (l : list_reply) :
    result unit (InferenceServiceWatcher * list InferenceServiceEvent) :=
  match l with None => Err tt | Some items => Ok (list_items w items) end.

(** What a poll changes while it goes over the list. *)
Record poll_state := {
  ps_watcher : InferenceServiceWatcher;
  ps_seen : gmap string string;
  ps_current : gset string;
  ps_events : list InferenceServiceEvent;
}.

Definition poll_item (s : poll_state) (ir : Item * lookup_reply) : poll_state :=
  let '(i, r) := ir in
  let key := watchKey i in
  let '(w, d) := shouldWatch (ps_watcher s) i r in
  let record (t : EventType) :=
    {| ps_watcher := w; ps_seen := <[key := it_ResourceVersion i]> (ps_seen s); ps_current := {[key]} ∪ ps_current s;
       ps_events := ps_events s ++ [object_event t i] |} in
  let keep (current : gset string) :=
    {| ps_watcher := w; ps_seen := ps_seen s; ps_current := current; ps_events := ps_events s |} in
  match d with
  | Err _ => keep ({[key]} ∪ ps_current s)
  | Ok false => keep (ps_current s)
  | Ok true =>
      match ps_seen s !! key with
      | None => record EventTypeCreated
      | Some lastVersion =>
          if bool_decide (lastVersion = it_ResourceVersion i) then keep ({[key]} ∪ ps_current s) else record EventTypeUpdated
      end
  end.

(** The pass over the recorded services, in the order of the keys. *)
Fixpoint delete_missing (current : gset string) (keys : list string) (seen : gmap string string) :
    gmap string string * list InferenceServiceEvent :=
  match keys with
  | [] => (seen, [])
  | key :: keys =>
      if bool_decide (key ∈ current) then delete_missing current keys seen
      else let '(seen, evs) := delete_missing current keys (delete key seen) in (seen, deleted_event key :: evs)
  end.

Definition range_order : Type := gmap string string -> list string.

Definition poll (order : range_order) (w : InferenceServiceWatcher) (seen : gmap string string) (l : list_reply) :
    result unit (InferenceServiceWatcher * gmap string string * list InferenceServiceEvent) :=
  match l with
  | None => Err tt
  | Some items =>
      let s := fold_left poll_item items {| ps_watcher := w; ps_seen := seen; ps_current := ∅; ps_events := [] |} in
      let w := forgetVanishedLookupFailures (ps_watcher s) (ps_current s) in
      let '(seen, deleted) := delete_missing (ps_current s) (order (ps_seen s)) (ps_seen s) in
      Ok (w, seen, ps_events s ++ deleted)
  end.

(** ** The loop *)

(** A wake-up of the loop: the context is done, or the timer ticked. *)
Inductive round := Cancelled | Tick (order : range_order) (l : list_reply).

(** How the loop ended; [Watching] when it did not with the rounds so far. *)
Inductive watch_end := WatchDone | ErrWatchStalled | ErrInitialList | Watching.

Definition watch_threshold (w : InferenceServiceWatcher) : Z :=
  if w_maxConsecutiveFailures w <? 1 then DefaultMaxConsecutiveFailures else w_maxConsecutiveFailures w.

Record watch_state := {
  wl_watcher : InferenceServiceWatcher;
  wl_seen : gmap string string;
  wl_failures : Z;
}.

Fixpoint watch_loop (threshold : Z) (s : watch_state) (rounds : list round) :
    watch_state * list InferenceServiceEvent * watch_end :=
  match rounds with
  | [] => (s, [], Watching)
  | Cancelled :: _ => (s, [], WatchDone)
  | Tick order l :: rounds =>
      match poll order (wl_watcher s) (wl_seen s) l with
      | Err _ =>
          let s := {| wl_watcher := wl_watcher s; wl_seen := wl_seen s; wl_failures := wl_failures s + 1 |} in
          if threshold <=? wl_failures s then (s, [], ErrWatchStalled) else watch_loop threshold s rounds
      | Ok (w, seen, evs) =>
          let '(s, evs', e) := watch_loop threshold {| wl_watcher := w; wl_seen := seen; wl_failures := 0 |} rounds in
          (s, evs ++ evs', e)
      end
  end.

Definition Watch (w : InferenceServiceWatcher) (initial : list_reply) (rounds : list round) :
    watch_state * list InferenceServiceEvent * watch_end :=
  match listExisting w initial with
  | Err _ => ({| wl_watcher := w; wl_seen := ∅; wl_failures := 0 |}, [], ErrInitialList)
  | Ok (w, evs) =>
      let '(s, evs', e) := watch_loop (watch_threshold w) {| wl_watcher := w; wl_seen := ∅; wl_failures := 0 |} rounds in
      (s, evs ++ evs', e)
  end.

(** *** [runWatcherLoop] *)

Definition initialBackoff : Z := 5 * second.
Definition maxBackoff : Z := 60 * second.
Definition backoffFactor : Z := 2.

(** One run of [Watch], whether the context is cancelled when it returns, and whether it
    is while the loop waits. *)
Record watch_run := {
  wr_initial : list_reply;
  wr_rounds : list round;
  wr_cancelled : bool;
  wr_waitCancelled : bool;
}.

(** How the loop ends: it returned, it reported a stalled watcher, or it still runs. *)
Inductive loop_end := LoopReturned | LoopFatal | LoopRunning.

(** The events that were sent, the waits before a retry, and the end. *)
Fixpoint run_watches (w : InferenceServiceWatcher) (backoff : Z) (runs : list watch_run) :
    list InferenceServiceEvent * list Z * loop_end :=
  match runs with
  | [] => ([], [], LoopRunning)
  | r :: runs =>
      let '(s, evs, e) := Watch w (wr_initial r) (wr_rounds r) in
      match e with
      | Watching => (evs, [], LoopRunning)
      | WatchDone => (evs, [], LoopReturned)
      | ErrWatchStalled => (evs, [], if wr_cancelled r then LoopReturned else LoopFatal)
      | ErrInitialList =>
          if wr_cancelled r then (evs, [], LoopReturned)
          else if wr_waitCancelled r then (evs, [backoff], LoopReturned)
          else
            let next := backoff * backoffFactor in
            let '(evs', waits, e) := run_watches (wl_watcher s) (if maxBackoff <? next then maxBackoff else next) runs in
            (evs ++ evs', backoff :: waits, e)
      end
  end.

Definition runWatcherLoop (w : InferenceServiceWatcher) (runs : list watch_run) : list InferenceServiceEvent * list Z * loop_end :=
  run_watches w initialBackoff runs.
