(* ===== verification/AgentWatchFacts.v ===== *)
(** * The node agent: what the watcher reports

    A poll compares the list with what it recorded, service by service.  The stream of
    events is a log of the recorded services, so the event loop that applies it knows
    what the watcher knows, and a lookup that fails changes nothing. *)

From stdpp Require Import base strings list gmap.
From Stdlib Require Import ZArith Lia Bool Ascii.
From S2P Require Import Prelude GoStrings GoFloat AgentEvict Agent AgentWatch.

(** ** Keys *)

Definition event_key (e : InferenceServiceEvent) : string := service_key (ev_Namespace e) (ev_Name e).

Lemma CutByte_service_key ns name : exists a b, CutByte (service_key ns name) "/"%char = Some (a, b) /\ service_key a b = service_key ns name.
Proof.
  unfold service_key. induction ns as [|c ns (a & b & Hc & Hk)].
  - exists EmptyString, name. split; reflexivity.
  - change (String c ns +:+ "/" +:+ name) with (String c (ns +:+ "/" +:+ name)).
    cbn [CutByte]. destruct (Ascii.eqb c "/") eqn:Hs.
    + apply Ascii.eqb_eq in Hs as ->. eexists EmptyString, _. split; reflexivity.
    + rewrite Hc. eexists (String c a), b. split; [done|].
      change (String c a +:+ "/" +:+ b) with (String c (a +:+ "/" +:+ b)). by rewrite Hk.
Qed.

(** A key names a service. *)
Definition is_key (key : string) : Prop := exists ns name, key = service_key ns name.

Lemma deleted_event_key key : is_key key -> event_key (deleted_event key) = key.
Proof.
  intros (ns & name & ->). destruct (CutByte_service_key ns name) as (a & b & Hc & Hk).
  unfold deleted_event, parseKey. rewrite Hc. exact Hk.
Qed.

Lemma watchKey_is_key i : is_key (watchKey i).
Proof. unfold watchKey, key_of. eexists _, _. reflexivity. Qed.

Definition keyed {V} (seen : gmap string V) : Prop := forall key v, seen !! key = Some v -> is_key key.

Lemma keyed_insert {V} (seen : gmap string V) i v : keyed seen -> keyed (<[watchKey i := v]> seen).
Proof. intros H key v'. rewrite lookup_insert_Some. intros [[<- _]|[_ Hk]]; [apply watchKey_is_key|eauto]. Qed.

(** Go visits every entry of a map once. *)
Definition fair (order : range_order) : Prop := forall seen, order seen ≡ₚ (map_to_list seen).*1.

Definition fair_round (r : round) : Prop := match r with Tick order _ => fair order | Cancelled => True end.

Lemma fair_NoDup order seen : fair order -> NoDup (order seen).
Proof. intros H. rewrite (H seen). apply NoDup_fst_map_to_list. Qed.

Lemma fair_elem order seen key : fair order -> key ∈ order seen <-> is_Some (seen !! key).
Proof.
  intros H. rewrite (H seen), list_elem_of_fmap. split.
  - intros ([k v] & -> & Hin). apply elem_of_map_to_list in Hin. by exists v.
  - intros [v Hv]. exists (key, v). by rewrite elem_of_map_to_list.
Qed.

(** ** The log of events *)

(** The services an event loop knows after an event, with the versions it was given. *)
Definition learn (known : gmap string string) (e : InferenceServiceEvent) : gmap string string :=
  match ev_object e with
  | Some i => <[event_key e := it_ResourceVersion i]> known
  | None => delete (event_key e) known
  end.

(** An event that fits what is known: a new service, another version, or a known service. *)
Definition fits (known : gmap string string) (e : InferenceServiceEvent) : Prop :=
  match ev_Type e, ev_object e with
  | EventTypeCreated, Some i => watchKey i = event_key e /\ known !! event_key e = None
  | EventTypeUpdated, Some i =>
      watchKey i = event_key e /\ exists v, known !! event_key e = Some v /\ v <> it_ResourceVersion i
  | EventTypeDeleted, None => is_Some (known !! event_key e)
  | _, _ => False
  end.

Inductive replays : gmap string string -> list InferenceServiceEvent -> gmap string string -> Prop :=
| replays_nil known : replays known [] known
| replays_cons known e evs known' : fits known e -> replays (learn known e) evs known' -> replays known (e :: evs) known'.

#[export] Hint Constructors replays : core.

Lemma replays_app k1 e1 k2 e2 k3 : replays k1 e1 k2 -> replays k2 e2 k3 -> replays k1 (e1 ++ e2) k3.
Proof. induction 1; cbn; eauto. Qed.

Lemma poll_item_replays k s ir :
  replays k (ps_events s) (ps_seen s) -> replays k (ps_events (poll_item s ir)) (ps_seen (poll_item s ir)).
Proof.
  intros H. destruct ir as [i r]. cbn [poll_item]. destruct (shouldWatch _ _ _) as [w [[|]|[]]]; [|done..].
  assert (forall t, fits (ps_seen s) (object_event t i) ->
    replays k (ps_events s ++ [object_event t i]) (<[watchKey i := it_ResourceVersion i]> (ps_seen s))) as Hrec.
  { intros t Ht. eapply replays_app; [done|]. apply replays_cons; [done|constructor]. }
  destruct (ps_seen s !! watchKey i) as [v|] eqn:Hv; [case_bool_decide as Hd|]; [done|..]; apply Hrec; split; eauto.
Qed.

Lemma poll_item_keyed s ir : keyed (ps_seen s) -> keyed (ps_seen (poll_item s ir)).
Proof.
  intros H. destruct ir as [i r]. cbn [poll_item]. destruct (shouldWatch _ _ _) as [w [[|]|[]]]; [|done..].
  destruct (_ !! _); [case_bool_decide|]; try done; by apply keyed_insert.
Qed.

Lemma poll_items_inv k items s :
  replays k (ps_events s) (ps_seen s) -> keyed (ps_seen s) ->
  let s' := fold_left poll_item items s in replays k (ps_events s') (ps_seen s') /\ keyed (ps_seen s').
Proof.
  revert s. induction items as [|ir items IH]; intros s Hr Hk; [done|].
  apply IH; [by apply poll_item_replays|by apply poll_item_keyed].
Qed.

Lemma delete_missing_replays current keys seen :
  NoDup keys -> keyed seen -> (forall key, key ∈ keys -> is_Some (seen !! key)) ->
  let '(seen', evs) := delete_missing current keys seen in replays seen evs seen' /\ keyed seen'.
Proof.
  intros Hn. revert seen. induction Hn as [|key keys Hnot Hn IH]; intros seen Hk Hin; [by split|]. cbn [delete_missing].
  assert (is_Some (seen !! key)) as [v Hv] by (apply Hin; left). case_bool_decide as Hc.
  - apply IH; [done|]. intros key' Hin'. apply Hin. by right.
  - specialize (IH (delete key seen)). destruct (delete_missing _ _ _) as [seen' evs]. destruct IH as [IHr IHk].
    + intros key' v' Hl. apply lookup_delete_Some in Hl as [_ Hl]. eauto.
    + intros key' Hin'. rewrite lookup_delete_ne by set_solver. apply Hin. by right.
    + split; [|done]. pose proof (deleted_event_key key (Hk _ _ Hv)) as He. apply replays_cons.
      * unfold fits. rewrite He. unfold deleted_event. destruct (parseKey key). cbn. by exists v.
      * unfold learn. rewrite He. unfold deleted_event. destruct (parseKey key). exact IHr.
Qed.

Lemma poll_replays order w seen l w' seen' evs :
  fair order -> keyed seen -> poll order w seen l = Ok (w', seen', evs) -> replays seen evs seen' /\ keyed seen'.
Proof.
  intros Hf Hk. destruct l as [items|]; [|done]. cbn [poll].
  destruct (poll_items_inv seen items {| ps_watcher := w; ps_seen := seen; ps_current := ∅; ps_events := [] |}) as [Hr Hs];
    [constructor|done|]. set (s := fold_left _ _ _) in *. cbv zeta.
  pose proof (delete_missing_replays (ps_current s) (order (ps_seen s)) (ps_seen s) (fair_NoDup _ _ Hf) Hs
    (fun key => proj1 (fair_elem _ _ _ Hf))) as Hd.
  destruct (delete_missing _ _ _) as [seen'' deleted]. destruct Hd as [Hd Hk']. intros [= <- <- <-].
  split; [by eapply replays_app|done].
Qed.

Lemma watch_loop_replays threshold rounds s s' evs e :
  Forall fair_round rounds -> keyed (wl_seen s) -> watch_loop threshold s rounds = (s', evs, e) ->
  replays (wl_seen s) evs (wl_seen s').
Proof.
  intros Hf. revert s evs. induction Hf as [|r rounds Hr Hf IH]; intros s evs Hk; cbn [watch_loop]; [intros [= <- <- <-]; constructor|].
  destruct r as [|order l]; [intros [= <- <- <-]; constructor|].
  destruct (poll _ _ _ l) as [[[w seen] evs1]|[]] eqn:Hp.
  - apply poll_replays in Hp as [Hp Hk']; [|done..].
    destruct (watch_loop _ _ rounds) as [[s'' evs2] e'] eqn:Hw. intros [= <- <- <-].
    apply IH in Hw; [|done]. by eapply replays_app.
  - cbn zeta. case_if; [intros [= <- <- <-]; constructor|]. intros Hw. by apply IH in Hw.
Qed.

(** ** One poll, service by service *)

(** The types of the events about a service. *)
Definition events_for (key : string) (evs : list InferenceServiceEvent) : list EventType :=
  ev_Type <$> List.filter (fun e => bool_decide (event_key e = key)) evs.

Lemma events_for_app key e1 e2 : events_for key (e1 ++ e2) = events_for key e1 ++ events_for key e2.
Proof. unfold events_for. by rewrite List.filter_app, fmap_app. Qed.

(** The listed service of a key. *)
Definition entry (key : string) (items : list (Item * lookup_reply)) : option (Item * lookup_reply) :=
  List.find (fun ir => bool_decide (watchKey ir.1 = key)) items.

(** What is to be recorded of a service: its version when it is ours, what was recorded
    when that is unknown, and nothing otherwise. *)
Definition recorded (w : InferenceServiceWatcher) (seen : gmap string string) (items : list (Item * lookup_reply))
    (key : string) : option string :=
  '(i, r) ← entry key items;
  match decideWatch w i (lr_model r) with
  | Ok true => Some (it_ResourceVersion i)
  | Ok false => None
  | Err _ => seen !! key
  end.

(** Since when the lookup of its Model fails. *)
Definition failing_since (w : InferenceServiceWatcher) (items : list (Item * lookup_reply)) (key : string) : option Z :=
  '(i, r) ← entry key items;
  match decideWatch w i (lr_model r) with
  | Ok _ => None
  | Err _ =>
      match w_lookupFailing w !! key with
      | Some since => Some since
      | None => if lr_cancelled r then None else Some (lr_now r)
      end
  end.

(** The events that a change of the record calls for. *)
Definition change (old new : option string) : list EventType :=
  match old, new with
  | None, Some _ => [EventTypeCreated]
  | Some v, Some v' => if bool_decide (v = v') then [] else [EventTypeUpdated]
  | Some _, None => [EventTypeDeleted]
  | None, None => []
  end.

(** What the state of a poll says of one service. *)
Definition view (key : string) (s : poll_state) : option (gset string) * option Z * option string * bool * list EventType :=
  (w_nameAllowlist (ps_watcher s), w_lookupFailing (ps_watcher s) !! key, ps_seen s !! key, bool_decide (key ∈ ps_current s),
   events_for key (ps_events s)).

Lemma decideWatch_allow w w' i m : w_nameAllowlist w = w_nameAllowlist w' -> decideWatch w i m = decideWatch w' i m.
Proof. unfold decideWatch. by intros ->. Qed.

Lemma shouldWatch_allow w i r : w_nameAllowlist (shouldWatch w i r).1 = w_nameAllowlist w.
Proof.
  unfold shouldWatch, noteLookupDecided, noteLookupFailed. cbn [fst]. destruct (decideWatch _ _ _), (lr_cancelled r), (w_lookupFailing w !! watchKey i); done.
Qed.

Lemma shouldWatch_other w i r key : watchKey i <> key -> w_lookupFailing (shouldWatch w i r).1 !! key = w_lookupFailing w !! key.
Proof.
  intros Hne. unfold shouldWatch, noteLookupDecided, noteLookupFailed. cbn [fst].
  destruct (decideWatch _ _ _), (lr_cancelled r), (w_lookupFailing w !! watchKey i); cbn; try done;
    [by rewrite lookup_delete_ne..|by rewrite lookup_insert_ne].
Qed.

Lemma in_union_ne (key k : string) (c : gset string) : k <> key -> bool_decide (key ∈ {[k]} ∪ c) = bool_decide (key ∈ c).
Proof. intros Hne. apply bool_decide_ext. set_solver. Qed.

Lemma events_for_object key t i : events_for key [object_event t i] = if bool_decide (watchKey i = key) then [t] else [].
Proof.
  unfold events_for. cbn [List.filter]. change (event_key (object_event t i)) with (watchKey i). by case_bool_decide.
Qed.

Lemma poll_item_other key s i r : watchKey i <> key -> view key (poll_item s (i, r)) = view key s.
Proof.
  intros Hne. pose proof (shouldWatch_allow (ps_watcher s) i r) as Ha. pose proof (shouldWatch_other (ps_watcher s) i r key Hne) as Hf.
  assert (forall t, events_for key (ps_events s ++ [object_event t i]) = events_for key (ps_events s)) as He.
  { intros t. rewrite events_for_app, events_for_object, bool_decide_eq_false_2 by done. apply app_nil_r. }
  cbn [poll_item]. destruct (shouldWatch _ _ _) as [w [[|]|[]]]; cbn [fst] in Ha, Hf;
    [destruct (ps_seen s !! watchKey i) as [v|]; [case_bool_decide|]|..];
    unfold view; cbn [ps_watcher ps_seen ps_current ps_events]; rewrite ?Ha, ?Hf, ?lookup_insert_ne, ?He by done;
    try rewrite in_union_ne by done; done.
Qed.

Lemma poll_items_other key items s : key ∉ watchKey <$> items.*1 -> view key (fold_left poll_item items s) = view key s.
Proof.
  revert s. induction items as [|[i r] items IH]; intros s Hn; [done|]. cbn [fmap list_fmap fst] in Hn. cbn [fold_left].
  rewrite IH by set_solver. apply poll_item_other. set_solver.
Qed.

(** The listed service, with nothing else of its key around it. *)
Lemma entry_split key items :
  NoDup (watchKey <$> items.*1) ->
  match entry key items with
  | Some (i, r) => exists l1 l2, items = l1 ++ (i, r) :: l2 /\ watchKey i = key /\ key ∉ watchKey <$> l1.*1 /\ key ∉ watchKey <$> l2.*1
  | None => key ∉ watchKey <$> items.*1
  end.
Proof.
  induction items as [|[i r] items IH]; [intros _; apply not_elem_of_nil|]. cbn [fmap list_fmap fst]. intros [Hn Hd]%NoDup_cons.
  unfold entry. cbn [List.find fst]. case_bool_decide as Hk.
  - exists [], items. split_and!; [done..| |by rewrite <- Hk]. apply not_elem_of_nil.
  - specialize (IH Hd). fold (entry key items). destruct (entry key items) as [[i' r']|]; [|set_solver].
    destruct IH as (l1 & l2 & -> & Hi & H1 & H2). exists ((i, r) :: l1), l2. split_and!; [done..| |done]. cbn. set_solver.
Qed.

Lemma poll_item_at key s i r :
  watchKey i = key -> bool_decide (key ∈ ps_current s) = false -> events_for key (ps_events s) = [] ->
  let w := ps_watcher s in
  view key (poll_item s (i, r)) =
    match decideWatch w i (lr_model r) with
    | Ok true => (w_nameAllowlist w, None, Some (it_ResourceVersion i), true, change (ps_seen s !! key) (Some (it_ResourceVersion i)))
    | Ok false => (w_nameAllowlist w, None, ps_seen s !! key, false, [])
    | Err _ =>
        (w_nameAllowlist w,
         match w_lookupFailing w !! key with Some t => Some t | None => if lr_cancelled r then None else Some (lr_now r) end,
         ps_seen s !! key, true, [])
    end.
Proof.
  intros <- Hc He w. pose proof (shouldWatch_allow w i r) as Ha.
  assert (w_lookupFailing (shouldWatch w i r).1 !! watchKey i =
    match decideWatch w i (lr_model r) with
    | Ok _ => None
    | Err _ => match w_lookupFailing w !! watchKey i with Some t => Some t | None => if lr_cancelled r then None else Some (lr_now r) end
    end) as Hf.
  { unfold shouldWatch, noteLookupDecided, noteLookupFailed. cbn [fst].
    destruct (decideWatch _ _ _), (lr_cancelled r), (w_lookupFailing w !! watchKey i) eqn:Hl; cbn;
      rewrite ?lookup_delete_eq, ?lookup_insert_eq; done. }
  assert (bool_decide (watchKey i ∈ {[watchKey i]} ∪ ps_current s) = true) as Hin by (apply bool_decide_eq_true_2; set_solver).
  assert (forall t, events_for (watchKey i) (ps_events s ++ [object_event t i]) = [t]) as Ho.
  { intros t. by rewrite events_for_app, events_for_object, He, bool_decide_eq_true_2. }
  cbn [poll_item]. fold w. change (decideWatch w i (lr_model r)) with (shouldWatch w i r).2 in *.
  destruct (shouldWatch w i r) as [w' [[|]|[]]]; cbn [fst snd] in *;
    [destruct (ps_seen s !! watchKey i) as [v|] eqn:Hv; cbn [change]; [case (bool_decide_reflect (v = it_ResourceVersion i)) as [->|Hd]|]|..];
    unfold view; cbn [ps_watcher ps_seen ps_current ps_events];
    rewrite ?Ha, ?Hf, ?Hin, ?Hc, ?lookup_insert_eq, ?Ho, ?He, ?Hv; done.
Qed.

Lemma events_for_deleted key k : is_key k -> events_for key [deleted_event k] = if bool_decide (k = key) then [EventTypeDeleted] else [].
Proof.
  intros H. unfold events_for. cbn [List.filter]. rewrite (deleted_event_key k H). case_bool_decide; [|done].
  unfold deleted_event. by destruct (parseKey k).
Qed.

Lemma delete_missing_at key current keys seen :
  NoDup keys -> Forall is_key keys ->
  let '(seen', evs) := delete_missing current keys seen in
  let gone := bool_decide (key ∈ keys) && negb (bool_decide (key ∈ current)) in
  seen' !! key = (if gone then None else seen !! key) /\ events_for key evs = if gone then [EventTypeDeleted] else [].
Proof.
  intros Hn. revert seen. induction Hn as [|k keys Hnot Hn IH]; intros seen Hk; [by split|].
  apply Forall_cons in Hk as [Hk Hks]. cbn [delete_missing].
  assert (k <> key -> bool_decide (key ∈ k :: keys) = bool_decide (key ∈ keys)) as Hne.
  { intros Hne. apply bool_decide_ext. set_solver. }
  assert (k = key -> bool_decide (key ∈ keys) = false) as Heq by (intros ->; by apply bool_decide_eq_false_2).
  destruct (bool_decide_reflect (k ∈ current)) as [Hc|Hc].
  - specialize (IH seen Hks). destruct (delete_missing _ _ _) as [seen' evs]. destruct (decide (k = key)) as [<-|Hd].
    + rewrite Heq in IH by done. rewrite (bool_decide_eq_true_2 (k ∈ current)) by done. by rewrite andb_false_r.
    + by rewrite Hne.
  - specialize (IH (delete k seen) Hks). destruct (delete_missing _ _ _) as [seen' evs]. destruct IH as [IHs IHe].
    change (deleted_event k :: evs) with ([deleted_event k] ++ evs). cbv zeta. rewrite events_for_app, events_for_deleted by done.
    destruct (decide (k = key)) as [<-|Hd].
    + rewrite Heq in IHs, IHe by done. rewrite (bool_decide_eq_true_2 (k ∈ k :: keys)) by set_solver.
      rewrite (bool_decide_eq_false_2 (k ∈ current)) by done. rewrite bool_decide_eq_true_2 by done. cbn in *.
      rewrite IHs, IHe, lookup_delete_eq. done.
    + rewrite Hne, (bool_decide_eq_false_2 (k = key)) by done. rewrite lookup_delete_ne in IHs by done. done.
Qed.

(** The state of a poll after the list, for one service. *)
Lemma poll_items_at key w seen items :
  NoDup (watchKey <$> items.*1) ->
  let s := fold_left poll_item items {| ps_watcher := w; ps_seen := seen; ps_current := ∅; ps_events := [] |} in
  view key s =
    match entry key items with
    | None => (w_nameAllowlist w, w_lookupFailing w !! key, seen !! key, false, [])
    | Some (i, r) =>
        match decideWatch w i (lr_model r) with
        | Ok true => (w_nameAllowlist w, None, Some (it_ResourceVersion i), true, change (seen !! key) (Some (it_ResourceVersion i)))
        | Ok false => (w_nameAllowlist w, None, seen !! key, false, [])
        | Err _ => (w_nameAllowlist w, failing_since w items key, seen !! key, true, [])
        end
    end.
Proof.
  intros Hd. pose proof (entry_split key items Hd) as He. unfold failing_since. destruct (entry key items) as [[i r]|].
  - destruct He as (l1 & l2 & -> & Hi & H1 & H2). cbv zeta. rewrite fold_left_app. cbn [fold_left].
    rewrite poll_items_other by done.
    pose proof (poll_items_other key l1 {| ps_watcher := w; ps_seen := seen; ps_current := ∅; ps_events := [] |} H1) as Hv.
    set (s := fold_left _ l1 _) in *. unfold view in Hv. cbn [ps_watcher ps_seen ps_current ps_events] in Hv.
    injection Hv as Ha Hf Hs Hc Hev. rewrite poll_item_at; [|done|by rewrite Hc|done].
    rewrite Ha, Hf, Hs, (decideWatch_allow _ w) by done.
    cbn [mbind option_bind]. destruct (decideWatch _ _ _); done.
  - by rewrite poll_items_other.
Qed.

Lemma forget_at w current key :
  w_lookupFailing (forgetVanishedLookupFailures w current) !! key =
    if bool_decide (key ∈ current) then w_lookupFailing w !! key else None.
Proof.
  cbn. rewrite map_lookup_filter. destruct (w_lookupFailing w !! key); cbn; repeat case_bool_decide; try done; by case_guard.
Qed.

Lemma poll_at (order : range_order) (w w' : InferenceServiceWatcher) (seen seen' : gmap string string)
    (items : list (Item * lookup_reply)) (evs : list InferenceServiceEvent) (key : string) :
  fair order -> keyed seen -> NoDup (watchKey <$> items.*1) -> poll order w seen (Some items) = Ok (w', seen', evs) ->
  seen' !! key = recorded w seen items key /\
  events_for key evs = change (seen !! key) (recorded w seen items key) /\
  w_lookupFailing w' !! key = failing_since w items key /\
  w_nameAllowlist w' = w_nameAllowlist w.
Proof.
  intros Hf Hk Hd. cbn [poll]. cbv zeta. pose proof (poll_items_at key w seen items Hd) as Hv.
  destruct (poll_items_inv seen items {| ps_watcher := w; ps_seen := seen; ps_current := ∅; ps_events := [] |}) as [_ Hks];
    [constructor|done|]. set (s := fold_left _ _ _) in *. cbv zeta in Hv.
  assert (Forall is_key (order (ps_seen s))) as Hkeys.
  { apply Forall_forall. intros k Hin. apply (fair_elem _ _ _ Hf) in Hin as [v Hin]. eauto. }
  pose proof (delete_missing_at key (ps_current s) _ (ps_seen s) (fair_NoDup _ (ps_seen s) Hf) Hkeys) as Hm.
  destruct (delete_missing _ _ _) as [seen'' deleted]. cbv zeta in Hm. destruct Hm as [Hs He]. intros [= <- <- <-].
  rewrite forget_at, events_for_app, Hs, He, (bool_decide_ext _ _ (fair_elem order (ps_seen s) key Hf)). clear Hs He.
  unfold view in Hv. change (w_nameAllowlist (forgetVanishedLookupFailures (ps_watcher s) (ps_current s))) with (w_nameAllowlist (ps_watcher s)).
  unfold recorded, failing_since in *. destruct (entry key items) as [[i r]|].
  - cbn [mbind option_bind] in *. destruct (decideWatch w i (lr_model r)) as [[|]|[]]; injection Hv as -> Hl Hs Hc He;
      rewrite ?Hl, ?Hs, ?Hc, ?He; cbn [negb]; rewrite ?andb_false_r, ?app_nil_r, ?andb_true_r.
    + done.
    + destruct (seen !! key); done.
    + destruct (seen !! key); cbn [change]; [by rewrite bool_decide_eq_true_2|done].
  - cbn [mbind option_bind]. injection Hv as -> Hl Hs Hc He. rewrite Hs, Hc, He. destruct (seen !! key); done.
Qed.

(** C25: a poll that gets a list records of every service what it should and reports exactly
    the change: a service that is ours is recorded with its version, one whose Model
    could not be looked up stays as it was without an event, and any other is dropped.
    The lookups noted as failing are those of this list, since when they first failed. *)
Theorem poll_exact (order : range_order) (w w' : InferenceServiceWatcher) (seen seen' : gmap string string)
    (items : list (Item * lookup_reply)) (evs : list InferenceServiceEvent) (key : string) :
  fair order -> keyed seen -> NoDup (watchKey <$> items.*1) -> poll order w seen (Some items) = Ok (w', seen', evs) ->
  seen' !! key = recorded w seen items key /\
  events_for key evs = change (seen !! key) (recorded w seen items key) /\
  w_lookupFailing w' !! key = failing_since w items key.
Proof. intros Hf Hk Hd Hp. by destruct (poll_at order w w' seen seen' items evs key Hf Hk Hd Hp) as (? & ? & ? & _). Qed.

(** *** A list of three services on a map in the order of its keys *)

Definition sample_service (name : string) : Service :=
  {| sv_Namespace := "team"; sv_Name := name; sv_Suspend := false; sv_Replicas := None; sv_Priority := EmptyString;
     sv_EvictionProtection := None; sv_Deleting := false; sv_hash := EmptyString |}.
Definition sample_item (name version : string) : Item :=
  {| it_svc := sample_service name; it_ResourceVersion := version; it_ModelRef := "m" |}.
Definition reply (m : model_reply) : lookup_reply := {| lr_model := m; lr_cancelled := false; lr_now := 7 |}.
Definition metal : lookup_reply := reply (ReplyModel (Some "metal")).
Definition plain_order : range_order := fun seen => (map_to_list seen).*1.

Lemma plain_order_fair : fair plain_order.
Proof. intros seen. reflexivity. Qed.

Definition sample_seen : gmap string string := {["team/a" := "1"; "team/b" := "1"; "team/c" := "1"]}.
Definition sample_list : list (Item * lookup_reply) :=
  [(sample_item "a" "2", metal); (sample_item "b" "2", reply ReplyError); (sample_item "d" "1", metal)].

Lemma sample_seen_keyed : keyed sample_seen.
Proof.
  intros key v. unfold sample_seen. rewrite !lookup_insert_Some, lookup_singleton_Some || rewrite !lookup_insert_Some.
  intros Hl. assert (key ∈ ["team/a"; "team/b"; "team/c"]) as Hin by (rewrite !elem_of_cons; naive_solver).
  rewrite !elem_of_cons in Hin. destruct Hin as [->|[->|[->|Hin]]]; [exists "team", "a"|exists "team", "b"|exists "team", "c"|set_solver];
    reflexivity.
Qed.

(** The second service stays as it was, and its lookup is noted to fail. *)
Lemma poll_exact_witness :
  match poll plain_order NewInferenceServiceWatcher sample_seen (Some sample_list) with
  | Ok (w', seen', evs) => seen' !! "team/b" = Some "1" /\ events_for "team/b" evs = [] /\ w_lookupFailing w' !! "team/b" = Some 7
  | Err _ => False
  end.
Proof.
  destruct (poll plain_order NewInferenceServiceWatcher sample_seen (Some sample_list)) as [[[w' seen'] evs]|] eqn:Hp;
    [|vm_compute in Hp; discriminate].
  destruct (poll_exact plain_order NewInferenceServiceWatcher w' sample_seen seen' sample_list evs "team/b") as (Hs & He & Hl);
    [apply plain_order_fair|apply sample_seen_keyed|apply (bool_decide_unpack _); vm_compute; reflexivity|exact Hp|].
  rewrite Hs, He, Hl. vm_compute. auto.
Defined.

(** ** The loop *)

Lemma shouldWatch_max w i r : w_maxConsecutiveFailures (shouldWatch w i r).1 = w_maxConsecutiveFailures w.
Proof.
  unfold shouldWatch, noteLookupDecided, noteLookupFailed. cbn [fst].
  destruct (decideWatch _ _ _), (lr_cancelled r), (w_lookupFailing w !! watchKey i); done.
Qed.

Lemma list_items_keeps w items :
  w_maxConsecutiveFailures (list_items w items).1 = w_maxConsecutiveFailures w /\
  w_nameAllowlist (list_items w items).1 = w_nameAllowlist w.
Proof.
  revert w. induction items as [|[i r] items IH]; intros w; [done|]. cbn [list_items].
  pose proof (shouldWatch_max w i r) as Hm. pose proof (shouldWatch_allow w i r) as Ha. destruct (shouldWatch w i r) as [w1 d].
  specialize (IH w1). destruct (list_items w1 items) as [w2 evs]. cbn [fst] in *. destruct IH as [-> ->]. done.
Qed.


Definition sample_rounds : list round :=
  [Tick plain_order (Some [(sample_item "a" "1", metal)]); Tick plain_order None;
   Tick plain_order (Some [(sample_item "a" "2", metal); (sample_item "b" "1", metal)]);
   Tick plain_order (Some [(sample_item "a" "3", reply ReplyError)])].


(** *** Stalls *)

Definition failed (r : round) : Prop := match r with Tick _ None => True | _ => False end.
Definition ticks (r : round) : Prop := match r with Tick _ _ => True | Cancelled => False end.

Definition outcome (threshold : Z) (s : watch_state) (rounds : list round) : watch_end := (watch_loop threshold s rounds).2.

(** A tick: the next outcome, after a failed list or with the failures reset. *)
Lemma outcome_tick threshold s order l rounds :
  outcome threshold s (Tick order l :: rounds) =
    match l with
    | None => if threshold <=? wl_failures s + 1 then ErrWatchStalled
              else outcome threshold {| wl_watcher := wl_watcher s; wl_seen := wl_seen s; wl_failures := wl_failures s + 1 |} rounds
    | Some _ =>
        match poll order (wl_watcher s) (wl_seen s) l with
        | Ok (w, seen, _) => outcome threshold {| wl_watcher := w; wl_seen := seen; wl_failures := 0 |} rounds
        | Err _ => Watching
        end
    end.
Proof.
  unfold outcome. cbn [watch_loop]. destruct l as [items|].
  - cbn [poll]. cbv zeta. destruct (delete_missing _ _ _) as [seen deleted]. by destruct (watch_loop _ _ rounds) as [[s' evs] e].
  - cbn [poll]. cbv zeta. cbn [wl_failures]. by case_if.
Qed.

Lemma poll_list order w seen items : exists w' seen' evs, poll order w seen (Some items) = Ok (w', seen', evs).
Proof. cbn [poll]. cbv zeta. destruct (delete_missing _ _ _). eauto. Qed.

Lemma run_stalls threshold run rest s :
  Forall failed run -> wl_failures s < threshold -> threshold <= wl_failures s + Z.of_nat (length run) ->
  outcome threshold s (run ++ rest) = ErrWatchStalled.
Proof.
  intros Hr. revert s. induction Hr as [|r run Hr Hrun IH]; intros s Hs Hl; [cbn in Hl; lia|].
  destruct r as [|order [items|]]; [done..|]. cbn [app]. rewrite outcome_tick. case_if; [done|].
  to_prop. apply IH; cbn in *; lia.
Qed.

Lemma later_run_stalls threshold before run rest s :
  Forall ticks before -> Forall failed run -> 0 <= wl_failures s < threshold -> threshold <= Z.of_nat (length run) ->
  outcome threshold s (before ++ run ++ rest) = ErrWatchStalled.
Proof.
  intros Hb Hr. revert s. induction Hb as [|r before Hb Hbs IH]; intros s Hs Hl; [apply (run_stalls threshold run); [done|lia..]|].
  destruct r as [|order [items|]]; [done|..]; cbn [app]; rewrite outcome_tick.
  - destruct (poll_list order (wl_watcher s) (wl_seen s) items) as (w' & seen' & evs & ->). apply IH; cbn; lia.
  - case_if; [done|]. to_prop. apply IH; cbn; lia.
Qed.

Lemma stalled_after_run threshold rounds s :
  0 <= wl_failures s < threshold -> outcome threshold s rounds = ErrWatchStalled ->
  exists before run rest, rounds = before ++ run ++ rest /\ Forall ticks before /\ Forall failed run /\
    (Z.of_nat (length run) = threshold \/ before = [] /\ wl_failures s + Z.of_nat (length run) = threshold).
Proof.
  revert s. induction rounds as [|r rounds IH]; intros s Hs; [done|].
  destruct r as [|order [items|]]; [done|..]; rewrite outcome_tick.
  - destruct (poll_list order (wl_watcher s) (wl_seen s) items) as (w' & seen' & evs & ->). intros Ho.
    apply IH in Ho as (before & run & rest & -> & Hb & Hr & Hl); [|cbn; lia].
    exists (Tick order (Some items) :: before), run, rest. split_and!; [done|by constructor|done|]. left. by destruct Hl as [Hl|[_ Hl]].
  - destruct (threshold <=? wl_failures s + 1) eqn:Hc; to_prop.
    + intros _. exists [], [Tick order None], rounds. split_and!; [done|constructor|by repeat constructor|]. right. split; [done|]. cbn. lia.
    + intros Ho. apply IH in Ho as (before & run & rest & -> & Hb & Hr & Hl); [|cbn; lia].
      destruct Hl as [Hl|[-> Hl]].
      * exists (Tick order None :: before), run, rest. split_and!; [done|by constructor|done|by left].
      * exists [], (Tick order None :: run), rest. split_and!; [done|constructor|by constructor|]. right. split; [done|]. cbn in *. lia.
Qed.

Lemma watch_threshold_pos w : 1 <= watch_threshold w.
Proof. unfold watch_threshold, DefaultMaxConsecutiveFailures. case_if; to_prop; lia. Qed.

(** Once the initial list succeeded, the watcher gives up exactly when, before the
    context is done, as many lists in a row fail as its threshold says; failures with a
    success in between never add up. *)
Lemma watch_stalls_exactly (w : InferenceServiceWatcher) (items : list (Item * lookup_reply)) (rounds : list round) :
  (Watch w (Some items) rounds).2 = ErrWatchStalled <->
  exists before run rest, rounds = before ++ run ++ rest /\ Forall ticks before /\ Forall failed run /\
    Z.of_nat (length run) = watch_threshold w.
Proof.
  cbn [Watch listExisting]. destruct (list_items_keeps w items) as [Hm _]. destruct (list_items w items) as [w' initial]. cbn [fst] in Hm.
  assert (watch_threshold w' = watch_threshold w) as -> by (unfold watch_threshold; by rewrite Hm).
  pose proof (watch_threshold_pos w) as Hp. set (s0 := {| wl_watcher := w'; wl_seen := ∅; wl_failures := 0 |}).
  trans (outcome (watch_threshold w) s0 rounds = ErrWatchStalled).
  { unfold outcome. by destruct (watch_loop _ _ rounds) as [[s evs] e]. }
  split.
  - intros Ho. apply stalled_after_run in Ho as (before & run & rest & -> & Hb & Hr & Hl); [|cbn; lia].
    exists before, run, rest. split_and!; [done..|]. by destruct Hl as [Hl|[_ Hl]].
  - intros (before & run & rest & -> & Hb & Hr & Hl). apply later_run_stalls; [done..|cbn; lia|lia].
Qed.

(** *** A service that the initial list claimed *)

(** No listed entry of a service is found to be ours. *)
Definition never_ours (w : InferenceServiceWatcher) (key : string) (r : round) : Prop :=
  match r with
  | Tick _ (Some items) =>
      NoDup (watchKey <$> items.*1) /\
      forall i lr, (i, lr) ∈ items -> watchKey i = key -> decideWatch w i (lr_model lr) <> Ok true
  | _ => True
  end.

Lemma recorded_not_ours w w' seen items key order :
  w_nameAllowlist w' = w_nameAllowlist w -> seen !! key = None -> never_ours w key (Tick order (Some items)) ->
  recorded w' seen items key = None.
Proof.
  intros Ha Hs [Hd Hn]. unfold recorded. pose proof (entry_split key items Hd) as He. destruct (entry key items) as [[i r]|]; [|done].
  destruct He as (l1 & l2 & -> & Hi & _). specialize (Hn i r ltac:(set_solver) Hi). cbn [mbind option_bind].
  rewrite (decideWatch_allow _ _ _ _ Ha). by destruct (decideWatch _ _ _) as [[|]|[]].
Qed.

Lemma unrecorded_unreported threshold w key rounds st s evs e :
  Forall fair_round rounds -> Forall (never_ours w key) rounds ->
  w_nameAllowlist (wl_watcher st) = w_nameAllowlist w -> wl_seen st !! key = None -> keyed (wl_seen st) ->
  watch_loop threshold st rounds = (s, evs, e) -> events_for key evs = [].
Proof.
  intros Hf. revert st evs. induction Hf as [|r rounds Hr Hf IH]; intros st evs Hn Ha Hs Hk; cbn [watch_loop]; [by intros [= <- <- <-]|].
  apply Forall_cons in Hn as [Hn Hns]. destruct r as [|order [items|]]; [by intros [= <- <- <-]|..].
  - destruct (poll_list order (wl_watcher st) (wl_seen st) items) as (w' & seen' & evs1 & Hp). rewrite Hp.
    destruct (watch_loop _ _ rounds) as [[s'' evs2] e'] eqn:Hw. intros [= <- <- <-].
    destruct (poll_at _ _ _ _ _ _ _ key Hr Hk (proj1 Hn) Hp) as (Hs' & He & _ & Ha').
    rewrite (recorded_not_ours w _ _ _ _ order) in Hs', He by done. rewrite Hs in He.
    rewrite events_for_app, He. eapply (IH {| wl_watcher := w'; wl_seen := seen'; wl_failures := 0 |});
      [done|cbn; congruence|done|by eapply poll_replays|exact Hw].
  - cbn [poll]. cbv zeta. case_if; [by intros [= <- <- <-]|]. intros Hw. by eapply IH in Hw.
Qed.

(** A service that the initial list claimed is never withdrawn by the watcher when no
    later list finds it to be ours: the loop starts with nothing recorded, so it has no
    event for it, although the event loop was told to start it. *)
Lemma startup_claim_not_withdrawn (w : InferenceServiceWatcher) (items : list (Item * lookup_reply)) (rounds : list round)
    (s : watch_state) (evs : list InferenceServiceEvent) (e : watch_end) (key : string) :
  Forall fair_round rounds -> Forall (never_ours w key) rounds -> Watch w (Some items) rounds = (s, evs, e) ->
  events_for key evs = events_for key (list_items w items).2.
Proof.
  intros Hf Hn. cbn [Watch listExisting]. destruct (list_items_keeps w items) as [_ Ha]. destruct (list_items w items) as [w' initial].
  destruct (watch_loop _ _ rounds) as [[s' later] e'] eqn:Hw. intros [= <- <- <-]. cbn [fst snd] in *.
  rewrite events_for_app. assert (events_for key later = []) as ->; [|apply app_nil_r].
  eapply (unrecorded_unreported _ w key _ _ _ _ _ Hf Hn); [..|exact Hw]; cbn; [done|apply lookup_empty|done].
Qed.

(** *** Retries of the watcher *)

Lemma retry_waits w backoff runs : initialBackoff <= backoff <= maxBackoff ->
  Forall (fun d => initialBackoff <= d <= maxBackoff) (run_watches w backoff runs).1.2.
Proof.
  revert w backoff. induction runs as [|r runs IH]; intros w backoff Hb; [constructor|]. cbn [run_watches].
  destruct (Watch _ _ _) as [[s evs] []]; [constructor|constructor| |constructor]. destruct (wr_cancelled r); [constructor|].
  destruct (wr_waitCancelled r); [by apply Forall_singleton|].
  assert (initialBackoff <= (if maxBackoff <? backoff * backoffFactor then maxBackoff else backoff * backoffFactor) <= maxBackoff) as Hn.
  { unfold initialBackoff, maxBackoff, backoffFactor, second in *. case_if; to_prop; lia. }
  specialize (IH (wl_watcher s) _ Hn). destruct (run_watches _ _ runs) as [[evs' waits] e]. by constructor.
Qed.
