(* ===== verification/EndpointWatch.v ===== *)
(** * The endpoint watch (internal/router/endpoint_watch.go, endpoints.go)

    The watcher keeps the dispatcher's endpoint sets in step with EndpointSlices.  An
    informer keeps a cache of the slices and tells the watcher of every change; the
    watcher lists the cache again under its lock, in an order that client-go does not
    promise, and then hands the ready endpoints to the dispatcher.  The changes of the
    cache, the listing and the hand-over are steps of their own. *)

From stdpp Require Import base gmap strings list sorting.
From Stdlib Require Import ZArith Lia Bool Ascii.
From S2P Require Import Prelude GoStrings GoFloat GoHttp GoJson RouterConfig RouterSpec RouterCompile BodyRewrite Picker Sessions Dispatcher.

(** ** Slices *)

(** [sl_Service] is the label with the name of the Service. *)
Record EndpointSlice := {
  sl_Namespace : string;
  sl_Name : string;
  sl_Service : string;
  sl_Endpoints : list Endpoint;
}.

(** The ready addresses of slices, by the rule that the controller shares. *)
Definition ready_urls (slices : list EndpointSlice) (port : Z) : list string := ReadyEndpointURLs (sl_Endpoints <$> slices) port.

(** ** The watcher *)

Record watchedBackend := {
  wb_name : string;
  wb_port : Z;
}.

Record EndpointWatcher := {
  ew_byService : gmap string (list watchedBackend);
  ew_services : gmap string (list string);
}.

Definition service_path (namespace service : string) : string := namespace +:+ "/" +:+ service.

Definition index_backend (w : EndpointWatcher) (b : Backend) : EndpointWatcher :=
  match be_EndpointSource b with
  | None => w
  | Some s =>
      let key := service_path (es_Namespace s) (es_Service s) in
      {| ew_byService := <[key := default [] (ew_byService w !! key) ++ [{| wb_name := be_Name b; wb_port := es_Port s |}]]>
                           (ew_byService w);
         ew_services := match ew_byService w !! key with
                        | Some _ => ew_services w
                        | None => <[es_Namespace s := default [] (ew_services w !! es_Namespace s) ++ [es_Service s]]> (ew_services w)
                        end |}
  end.

Definition NewEndpointWatcher (cfg : Config) : EndpointWatcher :=
  foldl index_backend {| ew_byService := ∅; ew_services := ∅ |} (cfg_Backends cfg).

Definition HasSources (w : EndpointWatcher) : bool := negb (bool_decide (ew_byService w = ∅)).

(** The label selector of the informer of a namespace. *)
Definition informer_selector (svcs : list string) : string :=
  "kubernetes.io/service-name" +:+ " in (" +:+ Join (SortStrings svcs) "," +:+ ")".

(** The rest of [recompute] once the cache was listed; [None] is a failed list. *)
Definition recompute (w : EndpointWatcher) (d : Dispatcher) (namespace service : string) (listed : option (list EndpointSlice)) : Dispatcher :=
  match listed with
  | None => d
  | Some slices =>
      foldl (fun d b => SetEndpoints d (wb_name b) (ready_urls slices (wb_port b))) d
        (default [] (ew_byService w !! service_path namespace service))
  end.

(** The object of an event: a slice, the tombstone of a deletion that was missed, or
    something else. *)
Inductive event_object := ObjSlice (s : EndpointSlice) | ObjTombstone (o : option EndpointSlice) | ObjOther.

(** The Service that [onEvent] recomputes. *)
Definition onEvent (o : event_object) : option (string * string) :=
  match o with
  | ObjSlice s | ObjTombstone (Some s) => Some (sl_Namespace s, sl_Service s)
  | ObjTombstone None | ObjOther => None
  end.

(** ** The informers, the watcher and the dispatcher *)

(** [ws_events] are the events that no handler has taken up, [ws_busy] the Service whose
    recomputation holds the lock, with the slices it listed. *)
Record watch_state := {
  ws_cache : gmap (string * string) EndpointSlice;
  ws_events : list event_object;
  ws_busy : option (string * string * list EndpointSlice);
  ws_disp : Dispatcher;
}.

Definition slice_key (s : EndpointSlice) : string * string := (sl_Namespace s, sl_Name s).

(** The slices of a Service in the cache. *)
Definition service_slices (cache : gmap (string * string) EndpointSlice) (namespace service : string) : list EndpointSlice :=
  List.filter (fun s => bool_decide (sl_Namespace s = namespace) && bool_decide (sl_Service s = service)) (map_to_list cache).*2.

(** Kubernetes names a Service once, when it makes the slice: an update keeps the label. *)
Inductive watch_step (w : EndpointWatcher) : watch_state -> watch_state -> Prop :=
| slice_changed st s :
    ContainsByte (sl_Namespace s) "/" = false ->
    (forall old, ws_cache st !! slice_key s = Some old -> sl_Service old = sl_Service s) ->
    watch_step w st {| ws_cache := <[slice_key s := s]> (ws_cache st); ws_events := ws_events st ++ [ObjSlice s];
                       ws_busy := ws_busy st; ws_disp := ws_disp st |}
| slice_deleted st s o :
    ws_cache st !! slice_key s = Some s -> o = ObjSlice s \/ o = ObjTombstone (Some s) ->
    watch_step w st {| ws_cache := delete (slice_key s) (ws_cache st); ws_events := ws_events st ++ [o];
                       ws_busy := ws_busy st; ws_disp := ws_disp st |}
| event_ignored st l1 o l2 :
    ws_events st = l1 ++ o :: l2 -> onEvent o = None ->
    watch_step w st {| ws_cache := ws_cache st; ws_events := l1 ++ l2; ws_busy := ws_busy st; ws_disp := ws_disp st |}
| event_taken st l1 o l2 namespace service slices :
    ws_events st = l1 ++ o :: l2 -> onEvent o = Some (namespace, service) -> ws_busy st = None ->
    slices ≡ₚ service_slices (ws_cache st) namespace service ->
    watch_step w st {| ws_cache := ws_cache st; ws_events := l1 ++ l2; ws_busy := Some (namespace, service, slices);
                       ws_disp := ws_disp st |}
| first_sync st namespace service slices :
    is_Some (ew_byService w !! service_path namespace service) -> ContainsByte namespace "/" = false -> ws_busy st = None ->
    slices ≡ₚ service_slices (ws_cache st) namespace service ->
    watch_step w st {| ws_cache := ws_cache st; ws_events := ws_events st; ws_busy := Some (namespace, service, slices);
                       ws_disp := ws_disp st |}
| recomputed st namespace service slices :
    ws_busy st = Some (namespace, service, slices) ->
    watch_step w st {| ws_cache := ws_cache st; ws_events := ws_events st; ws_busy := None;
                       ws_disp := recompute w (ws_disp st) namespace service (Some slices) |}
| dispatched st d :
    d_endpoints d = d_endpoints (ws_disp st) ->
    watch_step w st {| ws_cache := ws_cache st; ws_events := ws_events st; ws_busy := ws_busy st; ws_disp := d |}.

Definition watch_start (d : Dispatcher) : watch_state :=
  {| ws_cache := ∅; ws_events := []; ws_busy := None; ws_disp := d |}.

(** ** Order does not matter *)

Lemma SortStrings_perm l1 l2 : l1 ≡ₚ l2 -> SortStrings l1 = SortStrings l2.
Proof.
  intros H. apply (StronglySorted_unique String.le); [apply StronglySorted_merge_sort; apply _..|].
  by rewrite !SortStrings_Permutation.
Qed.

#[export] Instance ready_urls_perm : Proper (Permutation ==> eq ==> Permutation) ready_urls.
Proof. intros l1 l2 H ? port ->. unfold ready_urls, ReadyEndpointURLs. rewrite <- !flat_map_concat_map. by rewrite H. Qed.

#[export] Instance filter_perm {A} (f : A -> bool) : Proper (Permutation ==> Permutation) (List.filter f).
Proof. induction 1; cbn; repeat case_match; eauto using Permutation. Qed.

(** ** The dispatcher's sets *)

Lemma SetEndpoints_endpoints d name eps : d_endpoints (SetEndpoints d name eps) = <[name := SortStrings eps]> (d_endpoints d).
Proof.
  unfold SetEndpoints. cbv zeta. cbn [with_endpoints d_endpoints]. f_equal.
  assert (forall l d, d_endpoints (foldl (fun d ep => with_loads (with_health d (delete (healthKey name ep) (d_health d)))
    (delete (healthKey name ep) (d_loads d)) (d_heap d)) d l) = d_endpoints d) as ->.
  { intros l. induction l as [|ep l IH]; intros d'; [done|]. cbn [foldl]. by rewrite IH. }
  generalize (SortStrings eps) as l. intros l. revert d. induction l as [|ep l IH]; intros d; [done|]. cbn [foldl]. rewrite IH.
  unfold healthFor. by destruct (d_health d !! _).
Qed.

(** The backends of a Service, in the order of the configuration. *)
Definition backends_of (key : string) (bs : list Backend) : list watchedBackend :=
  b ← bs;
  match be_EndpointSource b with
  | Some s => if bool_decide (service_path (es_Namespace s) (es_Service s) = key)
              then [{| wb_name := be_Name b; wb_port := es_Port s |}] else []
  | None => []
  end.

Lemma index_backends w bs key :
  default [] (ew_byService (foldl index_backend w bs) !! key) = default [] (ew_byService w !! key) ++ backends_of key bs.
Proof.
  revert w. induction bs as [|b bs IH]; intros w; [by rewrite app_nil_r|]. cbn [foldl]. rewrite IH. unfold index_backend.
  unfold backends_of at 2. cbn [mbind list_bind]. fold (backends_of key bs). destruct (be_EndpointSource b) as [s|]; [|done]. cbn [ew_byService].
  case_bool_decide as Hk.
  - subst key. rewrite lookup_insert_eq. unfold default at 1, from_option, id. by rewrite <- app_assoc.
  - by rewrite lookup_insert_ne.
Qed.

Lemma backends_of_names key bs : NoDup (be_Name <$> bs) -> NoDup (wb_name <$> backends_of key bs).
Proof.
  assert (forall l, wb_name <$> backends_of key l ⊆ be_Name <$> l) as Hsub.
  { induction l as [|b l IH]; [done|]. unfold backends_of. cbn [mbind list_bind fmap list_fmap]. fold (backends_of key l).
    rewrite fmap_app. destruct (be_EndpointSource b) as [s|]; [case_bool_decide|]; cbn; set_solver. }
  induction bs as [|b bs IH]; [constructor|]. cbn [fmap list_fmap]. intros [Hb Hn]%NoDup_cons.
  unfold backends_of. cbn [mbind list_bind]. fold (backends_of key bs). rewrite fmap_app.
  destruct (be_EndpointSource b) as [s|]; [case_bool_decide|]; cbn; try by apply IH. apply NoDup_cons. split; [|by apply IH].
  intros Hin. by apply Hb, Hsub.
Qed.

Lemma elem_of_backends_of key bs wb :
  wb ∈ backends_of key bs <->
  exists b s, b ∈ bs /\ be_EndpointSource b = Some s /\ service_path (es_Namespace s) (es_Service s) = key /\
    wb = {| wb_name := be_Name b; wb_port := es_Port s |}.
Proof.
  unfold backends_of. rewrite list_elem_of_bind. split.
  - intros (b & Hwb & Hb). destruct (be_EndpointSource b) as [s|] eqn:Hs; [|set_solver]. case_bool_decide; [|set_solver].
    apply list_elem_of_singleton in Hwb. eauto 10.
  - intros (b & s & Hb & Hs & Hk & ->). exists b. split; [|done]. rewrite Hs, bool_decide_eq_true_2 by done. by left.
Qed.

(** What a recomputation makes of one set. *)
Lemma set_all_other slices l d name :
  name ∉ wb_name <$> l ->
  d_endpoints (foldl (fun d b => SetEndpoints d (wb_name b) (ready_urls slices (wb_port b))) d l) !! name = d_endpoints d !! name.
Proof.
  revert d. induction l as [|wb l IH]; intros d Hn; [done|]. cbn [foldl fmap list_fmap] in *. rewrite IH by set_solver.
  rewrite SetEndpoints_endpoints, lookup_insert_ne; [done|]. set_solver.
Qed.

Lemma recompute_at w d ns svc slices wb :
  NoDup (wb_name <$> default [] (ew_byService w !! service_path ns svc)) ->
  wb ∈ default [] (ew_byService w !! service_path ns svc) ->
  d_endpoints (recompute w d ns svc (Some slices)) !! wb_name wb = Some (SortStrings (ready_urls slices (wb_port wb))).
Proof.
  unfold recompute. generalize (default [] (ew_byService w !! service_path ns svc)) as l. intros l. revert d.
  induction l as [|x l IH]; intros d Hn Hin; [set_solver|]. cbn [foldl fmap list_fmap] in *. apply NoDup_cons in Hn as [Hx Hn].
  apply elem_of_cons in Hin as [->|Hin]; [|by apply IH].
  rewrite set_all_other, SetEndpoints_endpoints by done. apply lookup_insert_eq.
Qed.

(** ** The sets follow the cache *)

Lemma service_path_inj ns svc ns' svc' :
  ContainsByte ns "/" = false -> ContainsByte ns' "/" = false -> service_path ns svc = service_path ns' svc' -> ns = ns' /\ svc = svc'.
Proof.
  intros H H' Heq. apply (CutByte_app _ svc) in H. apply (CutByte_app _ svc') in H'.
  change (ns +:+ String "/" svc) with (service_path ns svc) in H. rewrite Heq in H.
  change (ns' +:+ String "/" svc') with (service_path ns' svc') in H'. rewrite H in H'. by injection H' as -> ->.
Qed.

(** A slice that comes, changes or goes changes only the slices of its own Service. *)
Lemma service_slices_insert cache s ns svc :
  (forall k old, cache !! k = Some old -> k = slice_key old) ->
  (forall old, cache !! slice_key s = Some old -> sl_Service old = sl_Service s) ->
  (sl_Namespace s, sl_Service s) <> (ns, svc) ->
  service_slices (<[slice_key s := s]> cache) ns svc ≡ₚ service_slices cache ns svc.
Proof.
  intros Hk Hs Hne. unfold service_slices.
  set (f := fun s' => bool_decide (sl_Namespace s' = ns) && bool_decide (sl_Service s' = svc)).
  assert (forall s', sl_Namespace s' = sl_Namespace s -> sl_Service s' = sl_Service s -> f s' = false) as Hf.
  { intros s' Hn Hv. subst f. cbn. rewrite Hn, Hv. apply andb_false_iff. destruct (decide (sl_Namespace s = ns)) as [E|E];
      [right|left]; apply bool_decide_eq_false_2; congruence. }
  rewrite <- insert_delete_eq, map_to_list_insert by apply lookup_delete_eq. cbn [fmap list_fmap List.filter snd].
  rewrite Hf by done. destruct (cache !! slice_key s) as [old|] eqn:Hold; [|by rewrite delete_id].
  rewrite <- (map_to_list_delete cache (slice_key s) old) by done. cbn [fmap list_fmap List.filter snd].
  apply Hk in Hold as Hkey. rewrite Hf; [done| |by apply Hs]. unfold slice_key in Hkey. congruence.
Qed.

Lemma service_slices_delete cache s ns svc :
  cache !! slice_key s = Some s -> (sl_Namespace s, sl_Service s) <> (ns, svc) ->
  service_slices (delete (slice_key s) cache) ns svc ≡ₚ service_slices cache ns svc.
Proof.
  intros Hs Hne. unfold service_slices. rewrite <- (map_to_list_delete cache (slice_key s) s) by done. cbn [fmap list_fmap List.filter snd].
  destruct (bool_decide_reflect (sl_Namespace s = ns)), (bool_decide_reflect (sl_Service s = svc)); cbn [andb]; by try congruence.
Qed.

Section Following.

Context (w : EndpointWatcher).

(** A backend has one name and one Service. *)
Hypothesis names_once : forall key, NoDup (wb_name <$> default [] (ew_byService w !! key)).
Hypothesis names_apart : forall k1 k2 b1 b2,
  b1 ∈ default [] (ew_byService w !! k1) -> b2 ∈ default [] (ew_byService w !! k2) -> wb_name b1 = wb_name b2 -> k1 = k2.

Definition pending (st : watch_state) (ns svc : string) : Prop := exists o, o ∈ ws_events st /\ onEvent o = Some (ns, svc).

Definition in_step (st : watch_state) (ns svc : string) (b : watchedBackend) : Prop :=
  EndpointsOf (ws_disp st) (wb_name b) = SortStrings (ready_urls (service_slices (ws_cache st) ns svc) (wb_port b)).

(** A set is in step with the cache, or a recomputation that sees the cache is under way
    or to come. *)
Record following (st : watch_state) : Prop := {
  fo_cache k s : ws_cache st !! k = Some s -> k = slice_key s /\ ContainsByte (sl_Namespace s) "/" = false;
  fo_events o ns svc : o ∈ ws_events st -> onEvent o = Some (ns, svc) -> ContainsByte ns "/" = false;
  fo_busy ns svc slices : ws_busy st = Some (ns, svc, slices) -> ContainsByte ns "/" = false;
  fo_sets ns svc b :
    ContainsByte ns "/" = false -> b ∈ default [] (ew_byService w !! service_path ns svc) ->
    pending st ns svc \/
    (exists slices, ws_busy st = Some (ns, svc, slices) /\ slices ≡ₚ service_slices (ws_cache st) ns svc) \/
    ((forall slices, ws_busy st <> Some (ns, svc, slices)) /\ in_step st ns svc b);
}.

Lemma pending_app st ns svc l o : ws_events st = l ++ [o] -> onEvent o = Some (ns, svc) -> pending st ns svc.
Proof. intros He Ho. exists o. split; [rewrite He; set_solver|done]. Qed.

(** A change of the cache: its own Service is pending, the others see no difference. *)
Lemma following_change st cache o ns0 svc0 :
  following st -> onEvent o = Some (ns0, svc0) -> ContainsByte ns0 "/" = false ->
  (forall k s, cache !! k = Some s -> k = slice_key s /\ ContainsByte (sl_Namespace s) "/" = false) ->
  (forall ns svc, (ns0, svc0) <> (ns, svc) -> service_slices cache ns svc ≡ₚ service_slices (ws_cache st) ns svc) ->
  following {| ws_cache := cache; ws_events := ws_events st ++ [o]; ws_busy := ws_busy st; ws_disp := ws_disp st |}.
Proof.
  intros [Hc He Hb Hs] Ho Hns Hcache Hsame. split; cbn; [done| |done|].
  - intros o' ns svc [Hin|Hin%list_elem_of_singleton]%elem_of_app Ho'; [by eapply He|]. subst o'. congruence.
  - intros ns svc b Hn Hin. destruct (decide ((ns0, svc0) = (ns, svc))) as [[= <- <-]|Hne]; [left; by eapply pending_app|].
    specialize (Hsame ns svc Hne). destruct (Hs ns svc b Hn Hin) as [(o' & Hin' & Ho')|[(slices & Hbusy & Hp)|Hstep]].
    + left. exists o'. split; [cbn; set_solver|done].
    + right; left. exists slices. by rewrite Hsame.
    + right; right. destruct Hstep as [Hidle Hstep]. split; [done|]. unfold in_step in *. cbn. rewrite Hstep. apply SortStrings_perm. by rewrite Hsame.
Qed.

Lemma following_recomputed st ns svc slices :
  following st -> ws_busy st = Some (ns, svc, slices) ->
  following {| ws_cache := ws_cache st; ws_events := ws_events st; ws_busy := None;
               ws_disp := recompute w (ws_disp st) ns svc (Some slices) |}.
Proof.
  intros [Hc He Hb Hs] Hbusy. split; cbn [ws_cache ws_events ws_busy]; [done..|]. intros ns' svc' b Hn Hin.
  destruct (Hs ns' svc' b Hn Hin) as [Hp|[(slices' & Hbusy' & Hp)|[Hidle Hstep]]]; [by left|..]; right; right; (split; [done|]);
    unfold in_step, EndpointsOf in *; cbn [ws_disp ws_cache].
  - rewrite Hbusy in Hbusy'. injection Hbusy' as <- <- <-. rewrite (recompute_at w _ ns svc slices b) by done.
    cbn. apply SortStrings_perm. by rewrite Hp.
  - unfold recompute. rewrite set_all_other; [done|]. intros (b' & Heq & Hin')%list_elem_of_fmap.
    pose proof (names_apart _ _ _ _ Hin Hin' Heq) as E.
    apply service_path_inj in E as [-> ->]; [|done|by eapply Hb]. by eapply Hidle.
Qed.

Lemma following_taken st events ns svc slices :
  following st -> ws_busy st = None -> ContainsByte ns "/" = false -> slices ≡ₚ service_slices (ws_cache st) ns svc ->
  (forall o, o ∈ events -> o ∈ ws_events st) ->
  (forall o, o ∈ ws_events st -> o ∈ events \/ onEvent o = Some (ns, svc)) ->
  following {| ws_cache := ws_cache st; ws_events := events; ws_busy := Some (ns, svc, slices); ws_disp := ws_disp st |}.
Proof.
  intros [Hc He Hb Hs] Hidle Hns Hp Hsub Hsup. split; cbn; [done|eauto|by intros ? ? ? [= <- <- <-]|].
  intros ns' svc' b Hn Hin. destruct (decide ((ns, svc) = (ns', svc'))) as [[= <- <-]|Hne]; [right; left; by exists slices|].
  destruct (Hs ns' svc' b Hn Hin) as [(o & Ho & Hk)|[(slices' & Hbusy' & _)|[_ Hstep]]]; [left|congruence|right; right].
  - exists o. split; [|done]. destruct (Hsup o Ho) as [|Hk']; [done|congruence].
  - split; [|done]. intros slices' [= -> -> _]. by apply Hne.
Qed.

Lemma following_step st st' : watch_step w st st' -> following st -> following st'.
Proof.
  intros Hstep Hf. pose proof Hf as [Hc He Hb Hs]. destruct Hstep as [st s Hns Hlabel|st s o Hs' Ho|st l1 o l2 Hev Ho|st l1 o l2 ns svc slices Hev Ho Hidle Hp|st ns svc slices Hw Hns Hidle Hp|st ns svc slices Hbusy|st d Hd].
  - apply (following_change _ _ _ (sl_Namespace s) (sl_Service s)); [done..| |].
    + intros k s' [[<- <-]|[_ Hk]]%lookup_insert_Some; [done|by apply Hc].
    + intros ns svc Hne. apply service_slices_insert; [|done..]. intros k old Hk. by apply Hc.
  - apply (following_change _ _ _ (sl_Namespace s) (sl_Service s)); [done|by destruct Ho as [-> | ->]|by eapply Hc| |].
    + intros k s' [_ Hk]%lookup_delete_Some. by apply Hc.
    + intros ns svc Hne. by apply service_slices_delete.
  - split; cbn; [done| |done|].
    + intros o' ns svc Hin. eapply He. rewrite Hev. set_solver.
    + intros ns svc b Hn Hin. destruct (Hs ns svc b Hn Hin) as [(o' & Ho' & Hk)|?]; [left|by right]. exists o'. split; [|done].
      cbn. rewrite Hev in Ho'. apply elem_of_app in Ho' as [|[->|]%elem_of_cons]; [set_solver|congruence|set_solver].
  - apply following_taken; [done|done|eapply He; [|done]; rewrite Hev; set_solver|done|..].
    + intros o' Hin. rewrite Hev. set_solver.
    + intros o' Hin. rewrite Hev in Hin. apply elem_of_app in Hin as [|[->|]%elem_of_cons]; [left; set_solver|by right|left; set_solver].
  - apply following_taken; [done..|]. intros o Ho. by left.
  - by eapply following_recomputed.
  - split; cbn; [done..|]. intros ns svc b Hn Hin. destruct (Hs ns svc b Hn Hin) as [?|[?|[Hidle Hstep]]]; [by left|by right; left|].
    right; right. split; [done|]. unfold in_step, EndpointsOf in *. cbn. by rewrite Hd.
Qed.

Lemma following_reachable st st' : rtc (watch_step w) st st' -> following st -> following st'.
Proof. induction 1; eauto using following_step. Qed.

End Following.

(** *** The watcher of a configuration *)

Lemma watcher_backends cfg key : default [] (ew_byService (NewEndpointWatcher cfg) !! key) = backends_of key (cfg_Backends cfg).
Proof. unfold NewEndpointWatcher. rewrite index_backends. cbn [ew_byService]. by rewrite lookup_empty. Qed.

Lemma name_determines (bs : list Backend) b1 b2 :
  NoDup (be_Name <$> bs) -> b1 ∈ bs -> b2 ∈ bs -> be_Name b1 = be_Name b2 -> b1 = b2.
Proof.
  induction bs as [|b bs IH]; [set_solver|]. cbn [fmap list_fmap]. rewrite NoDup_cons, !elem_of_cons. intros [Hn Hd] [->|H1] [->|H2] E;
    [done| | |by apply IH]; exfalso; apply Hn; apply list_elem_of_fmap; eauto.
Qed.

Lemma watcher_names_apart cfg k1 k2 b1 b2 :
  NoDup (be_Name <$> cfg_Backends cfg) ->
  b1 ∈ default [] (ew_byService (NewEndpointWatcher cfg) !! k1) -> b2 ∈ default [] (ew_byService (NewEndpointWatcher cfg) !! k2) ->
  wb_name b1 = wb_name b2 -> k1 = k2.
Proof.
  intros Hd. rewrite !watcher_backends, !elem_of_backends_of. intros (x & s & Hx & Hs & <- & ->) (y & s' & Hy & Hs' & <- & ->) E.
  rewrite (name_determines _ x y Hd Hx Hy E) in Hs. congruence.
Qed.

(** No endpoints are seeded for a backend with a source. *)
Lemma seeds_no_source bs d name :
  (forall b, b ∈ bs -> be_Name b = name -> is_Some (be_EndpointSource b)) ->
  d_endpoints (foldl seedBackend d bs) !! name = d_endpoints d !! name.
Proof.
  revert d. induction bs as [|b bs IH]; intros d Hb; [done|]. cbn [foldl]. rewrite IH by (intros; apply Hb; set_solver).
  unfold seedBackend. destruct (be_Endpoints b) as [|ep eps] eqn:Heps; [by destruct (be_EndpointSource b)|].
  destruct (be_EndpointSource b) eqn:Hs; [done|].
  assert (forall l d, d_endpoints (foldl (fun d ep => setHealth d (healthKey (be_Name b) ep) freshHealth) d l) = d_endpoints d) as ->.
  { intros l. induction l as [|e l IHl]; intros d'; [done|]. cbn [foldl]. by rewrite IHl. }
  cbn [with_endpoints d_endpoints]. rewrite lookup_insert_ne; [done|]. intros E.
  destruct (Hb b) as [x Hx]; [by left|done|]. congruence.
Qed.

Lemma following_start cfg q h i :
  NoDup (be_Name <$> cfg_Backends cfg) -> following (NewEndpointWatcher cfg) (watch_start (NewDispatcher cfg q h i)).
Proof.
  intros Hd. split; cbn [watch_start ws_cache ws_events ws_busy]; [intros k s Hl; by rewrite lookup_empty in Hl|set_solver|done|].
  intros ns svc wb Hns Hin. right; right. split; [done|]. rewrite watcher_backends, elem_of_backends_of in Hin.
  destruct Hin as (b & s & Hb & Hs & _ & ->). unfold in_step, EndpointsOf. cbn [watch_start ws_disp ws_cache wb_name wb_port].
  unfold NewDispatcher. rewrite seeds_no_source; [reflexivity|]. intros b' Hb' E. rewrite (name_determines _ b' b Hd Hb' Hb E). eauto.
Qed.

(** C4: the dispatcher's pods are the ready pods.  However the changes of EndpointSlices,
    their handling and the requests interleave, once no event of a Service waits and no
    recomputation of it is under way, every backend with that Service dispatches to
    exactly the addresses of its slices that are not marked unready, sorted. *)
Theorem endpoints_follow_slices (cfg : Config) (q h i : Z) (st : watch_state) (b : Backend) (s : EndpointSource) :
  NoDup (be_Name <$> cfg_Backends cfg) -> b ∈ cfg_Backends cfg -> be_EndpointSource b = Some s ->
  ContainsByte (es_Namespace s) "/" = false ->
  rtc (watch_step (NewEndpointWatcher cfg)) (watch_start (NewDispatcher cfg q h i)) st ->
  ~ pending st (es_Namespace s) (es_Service s) -> (forall slices, ws_busy st <> Some (es_Namespace s, es_Service s, slices)) ->
  liveEndpoints (ws_disp st) b =
    SortStrings (ready_urls (service_slices (ws_cache st) (es_Namespace s) (es_Service s)) (es_Port s)).
Proof.
  intros Hd Hb Hs Hns Hr Hp Hidle. set (w := NewEndpointWatcher cfg) in *.
  assert (following w st) as [_ _ _ Hsets].
  { eapply following_reachable; [|by intros; eapply watcher_names_apart|exact Hr|by apply following_start].
    intros key. subst w. rewrite watcher_backends. by apply backends_of_names. }
  destruct (Hsets (es_Namespace s) (es_Service s) {| wb_name := be_Name b; wb_port := es_Port s |}) as [Hin|[(slices & Hbusy & _)|[_ Hin]]];
    [done| |done|by destruct (Hidle slices)|].
  { subst w. rewrite watcher_backends, elem_of_backends_of. eauto 10. }
  rewrite <- Hin. unfold liveEndpoints, EndpointsOf. cbn [wb_name]. rewrite Hs. by destruct (d_endpoints _ !! _).
Qed.

(** *** Two pods of which one is ready *)

Definition pods_backend : Backend :=
  {| be_Name := "llama"; be_DisplayName := EmptyString; be_Tier := "local"; be_Address := "http://llama";
     be_Endpoints := []; be_EndpointSource := Some {| es_Namespace := "prod"; es_Service := "llama"; es_Port := 8080 |};
     be_Balancing := None; be_Metrics := None; be_Provider := EmptyString; be_Model := EmptyString;
     be_ServedModel := EmptyString; be_InferenceService := EmptyString; be_Capabilities := []; be_Weight := 0;
     be_CredentialsEnv := EmptyString; be_Timeout := 0; be_Pool := None; be_CostPerMillionTokens := None |}.
Definition pods_config : Config :=
  {| cfg_Backends := [pods_backend]; cfg_Rules := []; cfg_DefaultRoute := "llama"; cfg_DefaultRouteStrategy := EmptyString;
     cfg_Policy := Sample.policy [] [] |}.
Definition pods_slice : EndpointSlice :=
  {| sl_Namespace := "prod"; sl_Name := "llama-x1"; sl_Service := "llama";
     sl_Endpoints := [{| ept_Addresses := ["10.0.0.7"]; ept_Ready := Some false |}; {| ept_Addresses := ["10.0.0.8"]; ept_Ready := None |}] |}.

Definition pods_start : watch_state := watch_start (NewDispatcher pods_config (15 * second) (120 * second) (300 * second)).
Definition pods_done : watch_state :=
  {| ws_cache := {[("prod", "llama-x1") := pods_slice]}; ws_events := []; ws_busy := None;
     ws_disp := recompute (NewEndpointWatcher pods_config) (ws_disp pods_start) "prod" "llama" (Some [pods_slice]) |}.

Lemma pods_reached : rtc (watch_step (NewEndpointWatcher pods_config)) pods_start pods_done.
Proof.
  eapply rtc_l; [apply (slice_changed _ _ pods_slice); [reflexivity|intros old Hl; discriminate Hl]|].
  eapply rtc_l; [apply (event_taken _ _ [] (ObjSlice pods_slice) [] "prod" "llama" [pods_slice]); [reflexivity..|vm_compute; reflexivity]|].
  eapply rtc_l; [by apply (recomputed _ _ "prod" "llama" [pods_slice])|]. apply rtc_refl.
Qed.

Lemma endpoints_follow_slices_witness : liveEndpoints (ws_disp pods_done) pods_backend = ["http://10.0.0.8:8080"].
Proof.
  rewrite (endpoints_follow_slices pods_config (15 * second) (120 * second) (300 * second) pods_done pods_backend
    {| es_Namespace := "prod"; es_Service := "llama"; es_Port := 8080 |});
    [vm_compute; reflexivity|apply (bool_decide_unpack _); vm_compute; reflexivity|by left|reflexivity|reflexivity|exact pods_reached|..].
  - intros (o & []%not_elem_of_nil & _).
  - discriminate.
Defined.

(** An IPv6 address gets no brackets. *)
Lemma ipv6_url_without_brackets :
  ready_urls [{| sl_Namespace := "prod"; sl_Name := "v6"; sl_Service := "llama";
    sl_Endpoints := [{| ept_Addresses := ["fd00::8"]; ept_Ready := Some true |}] |}] 8080 = ["http://fd00::8:8080"].
Proof. reflexivity. Qed.
