(* ===== verification/LoadScrape.v ===== *)
(** * The load scraper (internal/router/load_scraper.go)

    Reading the gauges of an engine from its Prometheus page, storing them with the
    dispatcher, and the scraper's own gauges.  Numbers are decimal literals, as
    [ParseFloat] models them; the names of infinities and of NaN are no numbers there,
    and the scraper skips their values. *)

From stdpp Require Import base gmap strings list.
From Stdlib Require Import ZArith Lia Bool Ascii SpecFloat.
From S2P Require Import Prelude GoStrings GoFloat GoStrconv GoHttp GoJson RouterConfig BodyRewrite Picker Sessions Dispatcher Usage.

(** ** The page *)

(** The line up to the first brace or space, and the rest from there. *)
Fixpoint cut_name (s : string) : option (string * string) :=
  match s with
  | EmptyString => None
  | String c s' =>
      if Ascii.eqb c "{" || Ascii.eqb c " " then Some (EmptyString, s)
      else match cut_name s' with Some (name, rest) => Some (String c name, rest) | None => None end
  end.

(** What follows the last occurrence of a byte. *)
Fixpoint after_last (s : string) (c : ascii) : option string :=
  match s with
  | EmptyString => None
  | String x s' =>
      match after_last s' c with
      | Some rest => Some rest
      | None => if Ascii.eqb x c then Some s' else None
      end
  end.

(** The name and the value of a sample, [None] for a line without one. *)
Definition read_sample (line : string) : option (string * float64) :=
  let line := TrimSpace line in
  match line with
  | EmptyString => None
  | String c _ =>
      if Ascii.eqb c "#" then None
      else
        '(name, rest) ← cut_name line;
        let rest := match after_last rest "}" with Some r => if HasPrefix rest "{" then r else rest | None => rest end in
        field ← head (Fields rest);
        v ← ParseFloat field;
        Some (name, if flt v fzero then fzero else v)
  end.

Record gauges := {
  ga_running : float64;
  ga_waiting : float64;
  ga_kv : float64;
  ga_haveRunning : bool;
  ga_haveWaiting : bool;
}.

Definition no_gauges : gauges :=
  {| ga_running := fzero; ga_waiting := fzero; ga_kv := fzero; ga_haveRunning := false; ga_haveWaiting := false |}.

Definition add_sample (p : MetricsProfile) (g : gauges) (name : string) (v : float64) : gauges :=
  if bool_decide (name = mp_Running p) then
    {| ga_running := fadd (ga_running g) v; ga_waiting := ga_waiting g; ga_kv := ga_kv g; ga_haveRunning := true;
       ga_haveWaiting := ga_haveWaiting g |}
  else if bool_decide (name = mp_Waiting p) then
    {| ga_running := ga_running g; ga_waiting := fadd (ga_waiting g) v; ga_kv := ga_kv g; ga_haveRunning := ga_haveRunning g;
       ga_haveWaiting := true |}
  else if bool_decide (name = mp_KVUsage p) && negb (bool_decide (mp_KVUsage p = EmptyString)) && fgt v (ga_kv g) then
    {| ga_running := ga_running g; ga_waiting := ga_waiting g; ga_kv := v; ga_haveRunning := ga_haveRunning g;
       ga_haveWaiting := ga_haveWaiting g |}
  else g.

Definition add_line (p : MetricsProfile) (g : gauges) (line : string) : gauges :=
  match read_sample line with Some (name, v) => add_sample p g name v | None => g end.

Inductive scrape_error := ErrRequest | ErrStatus (code : Z) | ErrTooLong | ErrRead | ErrMetricsLack.

(** The longest line the scanner's buffer holds. *)
Definition maxLine : Z := 1048575.

(** [readErr]: the body ends with an error instead of its end. *)
Definition parseEngineGauges (body : string) (readErr : bool) (p : MetricsProfile) : result scrape_error (float64 * float64 * float64) :=
  let lines := SplitByte body newline in
  if existsb (fun l => maxLine <? Z.of_nat (String.length l)) lines then Err ErrTooLong
  else if readErr then Err ErrRead
  else
    let g := fold_left (add_line p) lines no_gauges in
    if ga_haveRunning g && ga_haveWaiting g then Ok (ga_running g, ga_waiting g, ga_kv g) else Err ErrMetricsLack.

(** The answer of an engine. *)
Inductive engine_reply := EngineFailed | EngineAnswered (status : Z) (body : string) (readErr : bool).

Definition bodyLimit : Z := 4194304.

(** [io.LimitReader]: after the limit the body is at its end. *)
Fixpoint limited (n : Z) (s : string) : string :=
  match s with
  | EmptyString => EmptyString
  | String c s' => if n <=? 0 then EmptyString else String c (limited (n - 1) s')
  end.

Definition scrape (p : MetricsProfile) (r : engine_reply) : result scrape_error (float64 * float64 * float64) :=
  match r with
  | EngineFailed => Err ErrRequest
  | EngineAnswered status body readErr =>
      if negb (status =? 200) then Err (ErrStatus status)
      else parseEngineGauges (limited bodyLimit body) (readErr && (Z.of_nat (String.length body) <? bodyLimit)) p
  end.

(** ** A pass of the scraper *)

Record scrapeTarget := {
  st_backend : string;
  st_profile : MetricsProfile;
}.

(** The three gauges of an endpoint. *)
Record series := {
  se_load : Z;
  se_fresh : bool;
  se_prefill : Z;
}.

(** [ls_gauges] are the series of the metrics registry that the scraper writes. *)
Record LoadScraper := {
  ls_targets : list scrapeTarget;
  ls_written : gset (string * string);
  ls_gauges : gmap (string * string) series;
}.

Definition scrape_targets (cfg : Config) : list scrapeTarget :=
  b ← cfg_Backends cfg;
  match be_Metrics b with
  | Some p => if is_LoadAware b then [{| st_backend := be_Name b; st_profile := p |}] else []
  | None => []
  end.

Definition NewLoadScraper (cfg : Config) : LoadScraper :=
  {| ls_targets := scrape_targets cfg; ls_written := ∅; ls_gauges := ∅ |}.

Definition HasTargets (s : LoadScraper) : bool := negb (bool_decide (length (ls_targets s) = 0%nat)).

Definition stillLive (d : Dispatcher) (backend endpoint : string) : bool := bool_decide (endpoint ∈ EndpointsOf d backend).

(** What happens to the dispatcher while a pass waits for its scrapes: a scrape of an
    endpoint ends, with what others do between its two operations, or others go on. *)
Inductive pass_event :=
| Scraped (tgt : scrapeTarget) (endpoint : string) (r : engine_reply) (now : Z) (between : Dispatcher -> Dispatcher)
| Others (f : Dispatcher -> Dispatcher).

Definition pass_step (d : Dispatcher) (e : pass_event) : Dispatcher :=
  match e with
  | Others f => f d
  | Scraped tgt ep r now between =>
      match scrape (st_profile tgt) r with
      | Err _ => d
      | Ok (running, waiting, kv) =>
          if stillLive d (st_backend tgt) ep
          then RecordSample (between d) (st_backend tgt) ep
                 {| sm_Running := running; sm_Waiting := waiting; sm_KVUsage := kv; sm_At := now; sm_InFlightAt := 0 |}
          else d
      end
  end.

(** The refresh of one endpoint's gauges. *)
Definition refresh_endpoint (now : Z) (backend : string) (s : Dispatcher * gmap (string * string) series * gset (string * string))
    (ep : string) : Dispatcher * gmap (string * string) series * gset (string * string) :=
  let '(d, g, current) := s in
  let '(l, d) := loadFor d backend ep in
  let e := loadAt d l in
  let c := {| ca_Endpoint := ep; ca_InFlight := el_inflight e; ca_Sample := el_sample e; ca_Prefill := 0 |} in
  let fresh := match el_sample e with Some sm => time_sub now (sm_At sm) <=? StaleAfter | None => false end in
  (d, <[(backend, ep) := {| se_load := Load c now; se_fresh := fresh; se_prefill := el_prefill e |}]> g, {[(backend, ep)]} ∪ current).

Definition refresh_target (now : Z) (s : Dispatcher * gmap (string * string) series * gset (string * string)) (tgt : scrapeTarget) :
    Dispatcher * gmap (string * string) series * gset (string * string) :=
  fold_left (refresh_endpoint now (st_backend tgt)) (EndpointsOf s.1.1 (st_backend tgt)) s.

Definition scrapeOnce (s : LoadScraper) (d : Dispatcher) (events : list pass_event) (now : Z) : LoadScraper * Dispatcher :=
  let d := fold_left pass_step events d in
  let '(d, g, current) := fold_left (refresh_target now) (ls_targets s) (d, ls_gauges s, ∅) in
  let gone := ls_written s ∖ current in
  ({| ls_targets := ls_targets s; ls_written := current; ls_gauges := filter (fun kv => kv.1 ∉ gone) g |}, d).
