(* ===== verification/LoadScrapeFacts.v ===== *)
(** * What the load scraper reads

    The page of an engine is read as it was written, whatever its labels hold, and the
    scraper's series are those of the live endpoints. *)

From stdpp Require Import base gmap strings list.
From Stdlib Require Import ZArith Lia Bool Ascii SpecFloat.
From S2P Require Import Prelude GoStrings GoFloat GoStrconv GoHttp GoJson RouterConfig BodyRewrite Picker Sessions Dispatcher Usage LoadScrape.

(** ** Text without spaces *)

(** Every byte of a text satisfies a test. *)
Fixpoint all_bytes (f : ascii -> bool) (s : string) : bool :=
  match s with EmptyString => true | String c s' => f c && all_bytes f s' end.

Definition not_space (c : ascii) : bool := negb (is_space c).

Lemma all_bytes_weaken (f g : ascii -> bool) s : (forall c, f c = true -> g c = true) -> all_bytes f s = true -> all_bytes g s = true.
Proof. intros H. induction s as [|c s IH]; [done|]. cbn. rewrite !andb_true_iff. intros [??]. auto. Qed.

Lemma TrimRightSpace_app a b : b <> EmptyString -> TrimRightSpace b = b -> TrimRightSpace (a +:+ b) = a +:+ b.
Proof.
  intros Hb Ht. induction a as [|c a IH]; [done|]. rewrite app_cons. cbn [TrimRightSpace]. rewrite IH.
  destruct (a +:+ b) as [|x s] eqn:E; [|done]. destruct a; [by rewrite app_nil in E|discriminate].
Qed.

Lemma TrimRightSpace_word s : all_bytes not_space s = true -> TrimRightSpace s = s.
Proof.
  induction s as [|c s IH]; [done|]. cbn. rewrite andb_true_iff. intros [Hc Hs]. rewrite (IH Hs).
  destruct s; [|done]. unfold not_space in Hc. by destruct (is_space c).
Qed.

Lemma TrimSpace_line a b c : is_space c = false -> b <> EmptyString -> all_bytes not_space b = true ->
  TrimSpace (String c (a +:+ b)) = String c (a +:+ b).
Proof.
  intros Hc Hb Hs. unfold TrimSpace. cbn [TrimLeftSpace]. rewrite Hc.
  change (String c (a +:+ b)) with ((String c a) +:+ b). by apply TrimRightSpace_app, TrimRightSpace_word.
Qed.

Lemma cut_name_app name c rest :
  all_bytes (fun x => negb (Ascii.eqb x "{" || Ascii.eqb x " ")) name = true -> (Ascii.eqb c "{" || Ascii.eqb c " ") = true ->
  cut_name (name +:+ String c rest) = Some (name, String c rest).
Proof.
  intros Hn Hc. induction name as [|x name IH]; cbn in Hn |- *; [by rewrite app_nil; cbn; rewrite Hc|].
  apply andb_true_iff in Hn as [Hx Hn]. rewrite app_cons. cbn [cut_name]. apply negb_true_iff in Hx. by rewrite Hx, (IH Hn).
Qed.

Lemma after_last_absent s c : ContainsByte s c = false -> after_last s c = None.
Proof. induction s as [|x s IH]; [done|]. cbn. intros [Hx Hs]%orb_false_iff. by rewrite (IH Hs), Hx. Qed.

Lemma after_last_app a b c : ContainsByte b c = false -> after_last (a +:+ String c b) c = Some b.
Proof.
  intros Hb. induction a as [|x a IH]; rewrite ?app_nil, ?app_cons; cbn [after_last]; [|by rewrite IH].
  by rewrite after_last_absent, Ascii.eqb_refl.
Qed.

(** *** Fields *)

Lemma fields_word cur w rest :
  all_bytes not_space w = true -> cur +:+ w <> EmptyString -> (rest = EmptyString \/ exists r, rest = String " " r) ->
  head (fields_from cur (w +:+ rest)) = Some (cur +:+ w).
Proof.
  revert cur. induction w as [|c w IH]; intros cur Hw Hne Hr.
  - rewrite app_nil. rewrite app_empty_r in *. destruct Hr as [->|[r ->]]; cbn [fields_from];
      rewrite ?bool_decide_eq_false_2 by done; reflexivity.
  - rewrite app_cons. cbn [fields_from all_bytes] in *. apply andb_true_iff in Hw as [Hc Hw]. unfold not_space in Hc.
    destruct (is_space c); [done|]. rewrite (IH (cur +:+ String c EmptyString)); [|done| |done].
    + by rewrite app_assoc_str.
    + rewrite app_assoc_str. done.
Qed.

Lemma Fields_head w rest :
  all_bytes not_space w = true -> w <> EmptyString -> (rest = EmptyString \/ exists r, rest = String " " r) ->
  head (Fields (String " " (w +:+ rest))) = Some w.
Proof. intros Hw Hne Hr. unfold Fields. cbn [fields_from is_space]. by apply (fields_word EmptyString). Qed.

(** ** The exposition format *)

(** A line of a page: a comment, or a sample with its labels and its timestamp. *)
Inductive page_line :=
| Comment (text : string)
| SampleLine (name : string) (labels : option string) (value : string) (timestamp : option string).

Definition render_line (l : page_line) : string :=
  match l with
  | Comment text => "#" +:+ text
  | SampleLine name labels value timestamp =>
      name +:+ match labels with Some l => "{" +:+ l +:+ "}" | None => EmptyString end +:+
      " " +:+ value +:+ match timestamp with Some t => " " +:+ t | None => EmptyString end
  end.

(** A word of the format: not empty, without spaces or a closing brace. *)
Definition word (s : string) : Prop := s <> EmptyString /\ all_bytes not_space s = true /\ ContainsByte s "}" = false.

Definition is_name (s : string) : Prop :=
  s <> EmptyString /\ all_bytes (fun x => negb (is_space x || Ascii.eqb x "{" || Ascii.eqb x "#")) s = true.

(** A line that the format allows, and that the scanner's buffer holds; the labels may
    hold any text but a line break. *)
Definition line_ok (l : page_line) : Prop :=
  ContainsByte (render_line l) newline = false /\ Z.of_nat (String.length (render_line l)) <= maxLine /\
  match l with
  | Comment _ => True
  | SampleLine name _ value timestamp =>
      is_name name /\ word value /\ match timestamp with Some t => word t | None => True end
  end.

(** The sample of a line, when its value is a number. *)
Definition line_sample (l : page_line) : option (string * float64) :=
  match l with
  | Comment _ => None
  | SampleLine name _ value _ => (fun v => (name, if flt v fzero then fzero else v)) <$> ParseFloat value
  end.

(** The end of a sample: a space, the value, and perhaps a space and a timestamp. *)
Definition line_tail (value : string) (timestamp : option string) : string :=
  " " +:+ value +:+ match timestamp with Some t => " " +:+ t | None => EmptyString end.

Lemma line_tail_value value timestamp : word value -> head (Fields (line_tail value timestamp)) = Some value.
Proof. intros (Hne & Hs & _). apply (Fields_head value); [done..|]. destruct timestamp; [right; by eexists|by left]. Qed.

Lemma line_tail_no_brace value timestamp :
  word value -> match timestamp with Some t => word t | None => True end -> ContainsByte (line_tail value timestamp) "}" = false.
Proof.
  intros (_ & _ & Hv) Ht. unfold line_tail. rewrite !ContainsByte_app, Hv. destruct timestamp as [t|]; [|done].
  destruct Ht as (_ & _ & Ht). by rewrite ContainsByte_app, Ht.
Qed.

Lemma line_tail_end value timestamp :
  word value -> match timestamp with Some t => word t | None => True end ->
  exists a b, line_tail value timestamp = a +:+ b /\ b <> EmptyString /\ all_bytes not_space b = true.
Proof.
  intros (Hne & Hs & _) Ht. unfold line_tail. destruct timestamp as [t|].
  - exists (" " +:+ value +:+ " "), t. destruct Ht as (Htn & Hts & _). by rewrite !app_assoc_str.
  - exists " ", value. by rewrite app_empty_r.
Qed.

Lemma read_sample_line name labels value timestamp :
  is_name name -> word value -> match timestamp with Some t => word t | None => True end ->
  read_sample (render_line (SampleLine name labels value timestamp)) = line_sample (SampleLine name labels value timestamp).
Proof.
  intros [Hne Hn] Hv Ht. unfold render_line. fold (line_tail value timestamp).
  set (lab := match labels with Some l => _ | None => _ end). destruct name as [|c name]; [done|].
  pose proof Hn as Hn'. cbn [all_bytes] in Hn'. apply andb_true_iff in Hn' as [Hc _].
  rewrite negb_true_iff, !orb_false_iff in Hc. destruct Hc as [[Hc _] Hh].
  destruct (line_tail_end value timestamp Hv Ht) as (a & b & Htail & Hb & Hbs).
  assert (TrimSpace (String c name +:+ lab +:+ line_tail value timestamp) = String c name +:+ lab +:+ line_tail value timestamp) as Htrim.
  { rewrite Htail, app_cons. rewrite <- (app_assoc_str lab), <- (app_assoc_str name). by apply TrimSpace_line. }
  unfold read_sample. rewrite Htrim, app_cons, Hh, <- app_cons. clear Htrim Htail.
  assert (all_bytes (fun x => negb (Ascii.eqb x "{" || Ascii.eqb x " ")) (String c name) = true) as Hcut.
  { eapply all_bytes_weaken; [|exact Hn]. intros x. rewrite !negb_true_iff, !orb_false_iff. intros [[Hx ?] _]. split; [done|].
    destruct (Ascii.eqb x " ") eqn:E; [|done]. apply Ascii.eqb_eq in E as ->. discriminate. }
  subst lab. destruct labels as [l|].
  - rewrite !app_assoc_str. change ("{" +:+ l +:+ "}" +:+ line_tail value timestamp) with (String "{" (l +:+ String "}" (line_tail value timestamp))).
    rewrite cut_name_app by done. cbn [mbind option_bind].
    change (String "{" (l +:+ String "}" (line_tail value timestamp))) with (("{" +:+ l) +:+ String "}" (line_tail value timestamp)).
    rewrite after_last_app by by apply line_tail_no_brace. cbn [mbind option_bind].
    change (HasPrefix (("{" +:+ l) +:+ String "}" (line_tail value timestamp)) "{") with true. cbn [mbind option_bind].
    rewrite line_tail_value by done. cbn [mbind option_bind line_sample]. by destruct (ParseFloat value).
  - rewrite app_nil. change (line_tail value timestamp) with (String " " (value +:+ match timestamp with Some t => " " +:+ t | None => EmptyString end)) at 1.
    rewrite cut_name_app by done. cbn [mbind option_bind].
    change (String " " (value +:+ match timestamp with Some t => " " +:+ t | None => EmptyString end)) with (line_tail value timestamp).
    rewrite after_last_absent by by apply line_tail_no_brace.
    rewrite line_tail_value by done. cbn [mbind option_bind line_sample]. by destruct (ParseFloat value).
Qed.

Lemma read_line l : line_ok l -> read_sample (render_line l) = line_sample l.
Proof.
  intros (_ & _ & Hl). destruct l as [text|name labels value timestamp].
  - unfold read_sample, TrimSpace. cbn [render_line]. change ("#" +:+ text) with (String "#" text). cbn [TrimLeftSpace].
    change (is_space "#") with false. cbn [TrimRightSpace]. by destruct (TrimRightSpace text).
  - destruct Hl as (Hn & Hv & Ht). by apply read_sample_line.
Qed.

(** ** What the page adds up to *)

(** The values of a metric on a page. *)
Definition values_of (name : string) (lines : list page_line) : list float64 :=
  omap (fun l => '(n, v) ← line_sample l; if bool_decide (n = name) then Some v else None) lines.

Definition sum_of (vs : list float64) : float64 := fold_left fadd vs fzero.
Definition peak_of (vs : list float64) : float64 := fold_left (fun k v => if fgt v k then v else k) vs fzero.

Definition some_of (vs : list float64) : bool := match vs with [] => false | _ => true end.

(** The gauges after some lines. *)
Definition gauges_of (p : MetricsProfile) (lines : list page_line) : gauges :=
  {| ga_running := sum_of (values_of (mp_Running p) lines); ga_waiting := sum_of (values_of (mp_Waiting p) lines);
     ga_kv := peak_of (values_of (mp_KVUsage p) lines); ga_haveRunning := some_of (values_of (mp_Running p) lines);
     ga_haveWaiting := some_of (values_of (mp_Waiting p) lines) |}.

Lemma values_of_snoc name lines l :
  values_of name (lines ++ [l]) =
    values_of name lines ++ match line_sample l with Some (n, v) => if bool_decide (n = name) then [v] else [] | None => [] end.
Proof.
  unfold values_of. rewrite omap_app. f_equal. cbn. destruct (line_sample l) as [[n v]|]; [|done]. cbn. by case_bool_decide.
Qed.

Lemma some_of_app vs v : some_of (vs ++ [v]) = true.
Proof. by destruct vs. Qed.

Section Pages.

Context (p : MetricsProfile).
Hypothesis profile_names : mp_Running p <> mp_Waiting p /\ mp_Running p <> mp_KVUsage p /\ mp_Waiting p <> mp_KVUsage p.

Lemma add_line_gauges lines l : line_ok l -> add_line p (gauges_of p lines) (render_line l) = gauges_of p (lines ++ [l]).
Proof.
  intros Hl. unfold add_line. rewrite (read_line l Hl). unfold gauges_of. rewrite !values_of_snoc.
  destruct (line_sample l) as [[n v]|] eqn:Hs; [|by rewrite !app_nil_r].
  assert (n <> EmptyString) as Hn.
  { destruct l as [|name labels value ts]; [done|]. destruct Hl as (_ & _ & [Hne _] & _). cbn in Hs.
    destruct (ParseFloat value); [|done]. by injection Hs as <- _. }
  destruct profile_names as (Hrw & Hrk & Hwk). unfold add_sample.
  destruct (bool_decide_reflect (n = mp_Running p)) as [->|Hr]; [|destruct (bool_decide_reflect (n = mp_Waiting p)) as [->|Hw]];
    [| |destruct (bool_decide_reflect (n = mp_KVUsage p)) as [->|Hk]].
  - rewrite !bool_decide_eq_false_2 by congruence. rewrite !app_nil_r, some_of_app. unfold sum_of. by rewrite fold_left_app.
  - rewrite !bool_decide_eq_false_2 by congruence. rewrite !app_nil_r, some_of_app. unfold sum_of. by rewrite fold_left_app.
  - rewrite bool_decide_eq_false_2 by done. rewrite !app_nil_r. unfold peak_of. rewrite fold_left_app. cbn.
    by destruct (fgt v _).
  - cbn [andb]. by rewrite !app_nil_r.
Qed.

Lemma fold_lines lines before :
  Forall line_ok lines ->
  fold_left (add_line p) (render_line <$> lines) (gauges_of p before) = gauges_of p (before ++ lines).
Proof.
  intros H. revert before. induction H as [|l lines Hl Hls IH]; intros before; [by rewrite app_nil_r|].
  cbn [fmap list_fmap fold_left]. rewrite add_line_gauges by done. rewrite IH, <- app_assoc. done.
Qed.

Lemma page_gauges lines :
  Forall line_ok lines ->
  parseEngineGauges (Join (render_line <$> lines) (String newline EmptyString)) false p =
    let g := gauges_of p lines in
    if ga_haveRunning g && ga_haveWaiting g then Ok (ga_running g, ga_waiting g, ga_kv g) else Err ErrMetricsLack.
Proof.
  intros H. destruct lines as [|l lines]; [reflexivity|]. unfold parseEngineGauges. rewrite SplitByte_Join.
  - change no_gauges with (gauges_of p []). rewrite fold_lines by done.
    destruct (existsb _ _) eqn:E; [|done]. apply existsb_exists in E as (x & (y & -> & Hy)%list_elem_of_In%list_elem_of_fmap & Hx).
    rewrite Forall_forall in H. destruct (H y Hy) as (_ & Hlen & _). to_prop. lia.
  - done.
  - apply Forall_fmap. eapply Forall_impl; [exact H|]. intros x Hx. apply Hx.
Qed.

End Pages.


Definition vllm_profile : MetricsProfile :=
  {| mp_Path := "/metrics"; mp_Running := "vllm:num_requests_running"; mp_Waiting := "vllm:num_requests_waiting";
     mp_KVUsage := "vllm:kv_cache_usage_perc" |}.

Definition vllm_page : list page_line :=
  [Comment " HELP vllm:num_requests_running Requests in model execution batches."; SampleLine "vllm:num_requests_running" (Some "m=a {x} #1") "2.0" None;
   SampleLine "vllm:num_requests_running" (Some "m=b") "1e0" (Some "1700000000"); SampleLine "vllm:num_requests_waiting_by_reason" None "9" None;
   SampleLine "vllm:num_requests_waiting" None "-1" None; SampleLine "vllm:kv_cache_usage_perc" None "NaN" None].


(** Two finite values can add up to an infinity, which is then stored as the reading. *)
Lemma sum_overflows :
  parseEngineGauges (Join (render_line <$> [SampleLine "vllm:num_requests_running" (Some "m=a") "1e308" None;
      SampleLine "vllm:num_requests_running" (Some "m=b") "1e308" None; SampleLine "vllm:num_requests_waiting" None "0" None])
    (String newline EmptyString)) false vllm_profile = Ok (S754_infinity false, fzero, fzero).
Proof. vm_compute. reflexivity. Qed.

(** ** The scraper's own series *)

Definition refresh_state : Type := Dispatcher * gmap (string * string) series * gset (string * string).

(** The endpoints stay, and series are added for those that were visited. *)
Definition refreshed (s s' : refresh_state) (keys : gset (string * string)) : Prop :=
  d_endpoints s'.1.1 = d_endpoints s.1.1 /\ dom s'.1.2 = keys ∪ dom s.1.2 /\ s'.2 = keys ∪ s.2.

Lemma refreshed_trans s1 s2 s3 k1 k2 : refreshed s1 s2 k1 -> refreshed s2 s3 k2 -> refreshed s1 s3 (k1 ∪ k2).
Proof. intros (H1 & H2 & H3) (H4 & H5 & H6). unfold refreshed. rewrite H4, H5, H6, H1, H2, H3. split_and!; [done|set_solver..]. Qed.

Lemma refresh_endpoint_refreshed now backend s ep : refreshed s (refresh_endpoint now backend s ep) {[(backend, ep)]}.
Proof.
  destruct s as [[d g] current]. unfold refresh_endpoint. destruct (loadFor d backend ep) as [l d'] eqn:Hl.
  split_and!; cbn; [|apply dom_insert_L|done]. unfold loadFor in Hl. destruct (d_loads d !! _); by injection Hl as _ <-.
Qed.

Lemma refresh_endpoints_refreshed now backend eps s :
  refreshed s (fold_left (refresh_endpoint now backend) eps s) (list_to_set (pair backend <$> eps)).
Proof.
  revert s. induction eps as [|ep eps IH]; intros s; [unfold refreshed; cbn; split_and!; [done|set_solver..]|].
  cbn [fold_left fmap list_fmap list_to_set]. eapply refreshed_trans; [apply refresh_endpoint_refreshed|apply IH].
Qed.

(** The endpoints of the targets. *)
Definition target_endpoints (d : Dispatcher) (targets : list scrapeTarget) : gset (string * string) :=
  list_to_set (tgt ← targets; pair (st_backend tgt) <$> EndpointsOf d (st_backend tgt)).

Lemma refresh_targets_refreshed now targets s :
  refreshed s (fold_left (refresh_target now) targets s) (target_endpoints s.1.1 targets).
Proof.
  revert s. induction targets as [|tgt targets IH]; intros s; [unfold refreshed; cbn; split_and!; [done|set_solver..]|].
  cbn [fold_left]. unfold target_endpoints. cbn [mbind list_bind]. rewrite list_to_set_app_L.
  pose proof (refresh_endpoints_refreshed now (st_backend tgt) (EndpointsOf s.1.1 (st_backend tgt)) s) as Hr.
  eapply refreshed_trans; [exact Hr|]. specialize (IH (refresh_target now s tgt)). destruct Hr as [He _].
  unfold target_endpoints in IH. change (d_endpoints (refresh_target now s tgt).1.1 = d_endpoints s.1.1) in He.
  unfold EndpointsOf in IH |- *. by rewrite He in IH.
Qed.

(** After a pass the scraper has series for exactly the endpoints that are live then, and
    none of one that left. *)
Lemma scrapeOnce_series s d events now :
  dom (ls_gauges s) = ls_written s ->
  let '(s', d') := scrapeOnce s d events now in
  dom (ls_gauges s') = ls_written s' /\ ls_written s' = target_endpoints d' (ls_targets s).
Proof.
  intros Hw. unfold scrapeOnce. set (d1 := fold_left pass_step events d).
  pose proof (refresh_targets_refreshed now (ls_targets s) (d1, ls_gauges s, ∅)) as (He & Hg & Hc).
  destruct (fold_left (refresh_target now) _ _) as [[d' g] current]. cbn in He, Hg, Hc |- *. rewrite union_empty_r_L in Hc. split.
  - apply set_eq. intros k. rewrite elem_of_dom. unfold is_Some. setoid_rewrite map_lookup_filter_Some. cbn.
    assert (k ∈ dom g <-> k ∈ current \/ k ∈ ls_written s) as Hk by (rewrite Hg, Hw, Hc; set_solver).
    rewrite elem_of_dom in Hk. unfold is_Some in Hk. split.
    + intros (x & Hx & Hnot). destruct (decide (k ∈ current)) as [|Hn]; [done|]. destruct Hk as [Hk _].
      destruct Hk as [|Hin]; [eauto|done|]. set_solver.
    + intros Hin. destruct Hk as [_ Hk]. destruct Hk as [x Hx]; [by left|]. exists x. split; [done|]. set_solver.
  - rewrite Hc. unfold target_endpoints, EndpointsOf. by rewrite He.
Qed.
