(* ===== verification/Drain.v ===== *)
(** * Waiting for an idle backend (internal/controller/drain_before_rollout.go,
      the idle probes of runtime_*.go, and pod_lifetime.go)

    When a new pod template may replace the pods of an InferenceService, and when a pod
    that is too old may be evicted.  What the replicas, the lists of EndpointSlices and
    of pods and the status writes answer is given by [surroundings]; the hash of a
    template is given as a string.  The texts of messages, events and log lines are left
    out.  Numbers are decimal literals, infinities and NaN. *)

From stdpp Require Import base gmap strings list.
From Stdlib Require Import ZArith Lia Bool Ascii SpecFloat.
From S2P Require Import Prelude GoStrings GoFloat GoStrconv GoJson RouterConfig RouterSpec RouterCompile Usage LoadScrape.
Local Open Scope go_scope.

(** ** The resources *)

Record RolloutPolicySpec := {
  rp_WaitForIdle : bool;
  rp_IdleTimeoutSeconds : Z;
  rp_Force : bool;
}.

(** The part of an InferenceService that is read; [sv_EndpointPort] is [None] without an
    endpoint. *)
Record Service := {
  sv_Name : string;
  sv_Namespace : string;
  sv_Generation : Z;
  sv_Annotations : gmap string string;
  sv_Runtime : string;
  sv_EndpointPort : option Z;
  sv_ContainerPort : option Z;
  sv_RolloutPolicy : option RolloutPolicySpec;
  sv_MaxPodLifetimeSeconds : option Z;
  sv_MaxPodLifetimeIdleTimeoutSeconds : option Z;
}.

Definition RolloutPolicyEnabled (isvc : Service) : bool :=
  match sv_RolloutPolicy isvc with Some p => rp_WaitForIdle p | None => false end.

Definition ShouldDeferRollout (isvc : Service) : bool :=
  match sv_RolloutPolicy isvc with
  | Some p => if negb (rp_WaitForIdle p) then false else negb (rp_Force p)
  | None => false
  end.

Record Pod := {
  po_Name : string;
  po_Phase : string;
  po_Deleting : bool;
  po_StartTime : option Z;
  po_Conditions : list (string * string);
}.

(** ** Idle probes *)

(** The answer to a GET, and its body, [None] when reading it failed. *)
Inductive probe_reply := NoReply | Reply (status : Z) (body : option string).

Inductive idle_error := ErrIdleUnsupported | ErrNoEndpoints | ErrProbe.
#[export] Instance idle_error_eq_dec : EqDecision idle_error.
Proof. solve_decision. Defined.

(** The value of a line of the metric, [None] for any other line. *)
Definition gauge_line (metricName raw : string) : option float64 :=
  let line := TrimSpace raw in
  if bool_decide (line = EmptyString) || HasPrefix line "#" then None
  else
    rest ← CutPrefix line metricName;
    match rest with
    | EmptyString => None
    | String c _ =>
        if negb (Ascii.eqb c "{") && negb (Ascii.eqb c " ") then None
        else
          let fields := Fields line in
          if (length fields <? 2)%nat then None else field ← last fields; named_float field
    end.

Definition parsePrometheusGaugeSum (body metricName : string) : float64 * bool :=
  fold_left (fun '(sum, found) raw => match gauge_line metricName raw with Some v => (fadd sum v, true) | None => (sum, found) end)
    (SplitByte body newline) (fzero, false).

(** The body of an answer with status 200. *)
Definition ok_body (r : probe_reply) : result idle_error string :=
  match r with
  | Reply status (Some body) => if status =? 200 then Ok body else Err ErrProbe
  | _ => Err ErrProbe
  end.

Definition feq (x y : float64) : bool := SFeqb x y.

(** The gauges of vLLM, SGLang and TGI. *)
Definition gauge_probe (metric : string) (r : probe_reply) : result idle_error bool :=
  body ← ok_body r;
  let '(sum, found) := parsePrometheusGaugeSum body metric in
  Ok (found && feq sum fzero).

Record llamaCPUSlot := { sl_ID : Z; sl_IsProcessing : bool }.

Definition dec_slot : decoder llamaCPUSlot := dec_struct
  [("id", on_field dec_int64 sl_ID (fun s v => {| sl_ID := v; sl_IsProcessing := sl_IsProcessing s |}));
   ("is_processing", on_field dec_bool sl_IsProcessing (fun s v => {| sl_ID := sl_ID s; sl_IsProcessing := v |}))].

Definition llamaCppSlotsIdleProbe (r : probe_reply) : result idle_error bool :=
  body ← ok_body r;
  match unmarshal (dec_slice {| sl_ID := 0; sl_IsProcessing := false |} dec_slot) [] body with
  | Some slots => Ok (negb (existsb sl_IsProcessing slots))
  | None => Err ErrProbe
  end.

Definition AnnotationIdleEndpoint : string := "inference.llmkube.dev/idle-endpoint".
Definition AnnotationIdleMetric : string := "inference.llmkube.dev/idle-metric".
Definition AnnotationIdleMetricThreshold : string := "inference.llmkube.dev/idle-metric-threshold".
Definition AnnotationIdleMetricPath : string := "inference.llmkube.dev/idle-metric-path".

(** The path a probe asks for, and what it makes of the answer. *)
Record idle_probe := {
  ip_path : string;
  ip_judge : probe_reply -> result idle_error bool;
}.

Definition vllm_probe : idle_probe := {| ip_path := "/metrics"; ip_judge := gauge_probe "vllm:num_requests_running" |}.
Definition tgi_probe : idle_probe := {| ip_path := "/metrics"; ip_judge := gauge_probe "tgi_batch_current_size" |}.
Definition sglang_probe : idle_probe := {| ip_path := "/metrics"; ip_judge := gauge_probe "sglang:num_running_reqs" |}.
Definition llamacpp_probe : idle_probe := {| ip_path := "/slots"; ip_judge := llamaCppSlotsIdleProbe |}.

(** [GenericBackend.IdleProbe]: [None] for a probe that asks nothing. *)
Definition generic_probe (isvc : Service) : option idle_probe :=
  let annotation key := default EmptyString (sv_Annotations isvc !! key) in
  let metric := annotation AnnotationIdleMetric in
  if negb (bool_decide (metric = EmptyString)) then
    let metricsPath := or_default (annotation AnnotationIdleMetricPath) "/metrics" in
    let threshold := match annotation AnnotationIdleMetricThreshold with EmptyString => fzero | raw => default fzero (named_float raw) end in
    Some {| ip_path := metricsPath;
            ip_judge := fun r =>
              body ← ok_body r;
              let '(sum, found) := parsePrometheusGaugeSum body metric in
              Ok (found && fle sum threshold) |}
  else
    path ← sv_Annotations isvc !! AnnotationIdleEndpoint;
    Some {| ip_path := path;
            ip_judge := fun r => match r with
              | NoReply => Err ErrProbe
              | Reply status _ => Ok ((200 <=? status) && (status <? 300))
              end |}.

Inductive RuntimeBackend := PersonaPlexBackend | VLLMBackend | LlamaCppRouterBackend | TGIBackend | SGLangBackend | GenericBackend | LlamaCppBackend.

Definition resolveBackend (isvc : Service) : RuntimeBackend :=
  if bool_decide (sv_Runtime isvc = "personaplex") then PersonaPlexBackend
  else if bool_decide (sv_Runtime isvc = "vllm") then VLLMBackend
  else if bool_decide (sv_Runtime isvc = "llamacpp-router") then LlamaCppRouterBackend
  else if bool_decide (sv_Runtime isvc = "tgi") then TGIBackend
  else if bool_decide (sv_Runtime isvc = "sglang") then SGLangBackend
  else if bool_decide (sv_Runtime isvc = "generic") then GenericBackend
  else LlamaCppBackend.

Definition DefaultPort (b : RuntimeBackend) : Z :=
  match b with
  | PersonaPlexBackend => 8998
  | VLLMBackend => 8000
  | TGIBackend => 80
  | SGLangBackend => 30000
  | LlamaCppRouterBackend | GenericBackend | LlamaCppBackend => 8080
  end.

(** [IdleProbe] of the backend: [None] for a backend that has no such method, [Some None]
    for a probe that asks nothing and answers [errIdleUnsupported]. *)
Definition IdleProbe (b : RuntimeBackend) (isvc : Service) : option (option idle_probe) :=
  match b with
  | PersonaPlexBackend => None
  | VLLMBackend => Some (Some vllm_probe)
  | TGIBackend => Some (Some tgi_probe)
  | SGLangBackend => Some (Some sglang_probe)
  | LlamaCppRouterBackend | LlamaCppBackend => Some (Some llamacpp_probe)
  | GenericBackend => Some (generic_probe isvc)
  end.

(** ** Asking the replicas *)

(** What a pass finds around it: the answer to its [n]-th GET, the EndpointSlices of a
    Service, the pods, and whether its status write goes through.  A list is [None] when the
    call failed.  [su_now] is the time the pass notes first, [su_since] and [su_end] the
    times it reads before it decides and after its status write. *)
Record surroundings := {
  su_fetch : nat -> string -> probe_reply;
  su_slices : string -> string -> option (list (list Endpoint));
  su_pods : option (list Pod);
  su_statusOK : bool;
  su_now : Z;
  su_since : Z;
  su_end : Z;
}.

Definition resolveIdlePort (isvc : Service) (backend : RuntimeBackend) : Z :=
  let otherwise := match sv_ContainerPort isvc with Some port => port | None => DefaultPort backend end in
  match sv_EndpointPort isvc with
  | Some port => if 0 <? port then port else otherwise
  | None => otherwise
  end.

Definition collectReadyReplicaURLs (slices : list (list Endpoint)) (port : Z) : list string := ReadyEndpointURLs slices port.

Definition collectNotReadyReplicaURLs (slices : list (list Endpoint)) (port : Z) : list string :=
  concat (map (fun ep => match ept_Ready ep with
                      | Some false => map (fun addr => "http://" +:+ addr +:+ ":" +:+ Itoa port) (ept_Addresses ep)
                      | _ => []
                      end) (concat slices)).

Definition run_probe (s : surroundings) (p : option idle_probe) (n : nat) (url : string) : result idle_error bool :=
  match p with
  | Some p => ip_judge p (su_fetch s n (url +:+ ip_path p))
  | None => Err ErrIdleUnsupported
  end.

(** The replicas in turn, up to the first that is not idle. *)
Fixpoint probe_replicas (s : surroundings) (p : option idle_probe) (n : nat) (urls : list string) : result idle_error bool :=
  match urls with
  | [] => Ok true
  | url :: urls => idle ← run_probe s p n url; if idle : bool then probe_replicas s p (S n) urls else Ok false
  end.

(** [baseURL] is the reconciler's [RolloutIdleBaseURL]. *)
Definition checkServiceIdle (baseURL : string) (s : surroundings) (isvc : Service) (svcName : string) : result idle_error bool :=
  let backend := resolveBackend isvc in
  match IdleProbe backend isvc with
  | None => Err ErrIdleUnsupported
  | Some probe =>
      let port := resolveIdlePort isvc backend in
      let svcURL :=
        if negb (bool_decide (baseURL = EmptyString)) then baseURL
        else "http://" +:+ svcName +:+ "." +:+ sv_Namespace isvc +:+ ".svc.cluster.local:" +:+ Itoa port in
      match default [] (su_slices s (sv_Namespace isvc) (sanitizeDNSName svcName)) with
      | [] =>
          match run_probe s probe 0 svcURL with
          | Err ErrIdleUnsupported => Err ErrIdleUnsupported
          | Err _ => Err ErrNoEndpoints
          | Ok idle => Ok idle
          end
      | slices =>
          match collectReadyReplicaURLs slices port ++ collectNotReadyReplicaURLs slices port with
          | [] => Err ErrNoEndpoints
          | urls => probe_replicas s probe 0 urls
          end
      end
  end.

(** The pods, and the ones with a Ready condition that is true. *)
Definition countOldPods (s : surroundings) : option (Z * Z) :=
  pods ← su_pods s;
  Some (Z.of_nat (length pods),
        Z.of_nat (length (List.filter (fun p => existsb (fun c => bool_decide (c = ("Ready", "True"))) (po_Conditions p)) pods))).

(** ** The rollout policy *)

Inductive ConditionStatus := ConditionTrue | ConditionFalse | ConditionUnknown.
#[export] Instance ConditionStatus_eq_dec : EqDecision ConditionStatus.
Proof. solve_decision. Defined.

(** [ct_LastTransitionTime]: [None] for the zero time. *)
Record Condition := {
  ct_Type : string;
  ct_Status : ConditionStatus;
  ct_ObservedGeneration : Z;
  ct_LastTransitionTime : option Z;
  ct_Reason : string;
}.

(** The functions of k8s.io/apimachinery/pkg/api/meta. *)
Class MetaConditions := {
  FindStatusCondition : list Condition -> string -> option Condition;
  SetStatusCondition : list Condition -> Condition -> list Condition;
  RemoveStatusCondition : list Condition -> string -> list Condition;
}.

(** What they are documented to do: a condition is found by its type; setting one that has
    a time keeps the time of the last transition when the status is the same. *)
Class MetaConditionsLaws `{MetaConditions} : Prop := {
  find_set : forall l c, is_Some (ct_LastTransitionTime c) ->
    FindStatusCondition (SetStatusCondition l c) (ct_Type c) = Some
      {| ct_Type := ct_Type c; ct_Status := ct_Status c; ct_ObservedGeneration := ct_ObservedGeneration c;
         ct_LastTransitionTime := match FindStatusCondition l (ct_Type c) with
           | Some x => if bool_decide (ct_Status x = ct_Status c) then ct_LastTransitionTime x else ct_LastTransitionTime c
           | None => ct_LastTransitionTime c
           end;
         ct_Reason := ct_Reason c |};
  find_remove : forall l t, FindStatusCondition (RemoveStatusCondition l t) t = None;
  find_map : forall (f : Condition -> Condition) l t, (forall c, ct_Type (f c) = ct_Type c) ->
    FindStatusCondition (map f l) t = f <$> FindStatusCondition l t;
}.

Definition ConditionRolloutDeferred : string := "RolloutDeferred".
Definition DefaultIdleCheckInterval : Z := 5 * second.

(** The conditions as a status write stores them. *)
Definition stored_condition (c : Condition) : Condition :=
  {| ct_Type := ct_Type c; ct_Status := ct_Status c; ct_ObservedGeneration := ct_ObservedGeneration c;
     ct_LastTransitionTime := wire <$> ct_LastTransitionTime c; ct_Reason := ct_Reason c |}.

Section Policy.
Context `{MetaConditions} (baseURL : string).

(** The stored conditions after a write of new ones, and what the pass returns when it
    goes through. *)
Definition update_status (s : surroundings) (conds new : list Condition) (r : Z) : list Condition * result unit Z :=
  if su_statusOK s then (map stored_condition new, Ok r) else (conds, Err tt).

Definition clear_deferred (s : surroundings) (conds : list Condition) : list Condition * result unit Z :=
  match FindStatusCondition conds ConditionRolloutDeferred with
  | Some _ => update_status s conds (RemoveStatusCondition conds ConditionRolloutDeferred) 0
  | None => (conds, Ok 0)
  end.

(** The verdict on the old pods, with the case of no endpoints resolved by their count. *)
Definition idle_verdict (s : surroundings) (isvc : Service) (svcName : string) : result idle_error bool :=
  match checkServiceIdle baseURL s isvc svcName with
  | Err ErrNoEndpoints =>
      match countOldPods s with
      | None => Ok false
      | Some (total, _) => Ok (total =? 0)
      end
  | checked => checked
  end.

Definition defer_reason (s : surroundings) (verdict : result idle_error bool) : string :=
  let '(total, ready) := default (0, 0) (countOldPods s) in
  match verdict with
  | Err ErrIdleUnsupported => "IdleCheckUnsupported"
  | Err _ => "IdleCheckFailed"
  | Ok _ => if ready <? total then "PodsCrashLooping" else "PodsBusy"
  end.

Definition idle_timeout (isvc : Service) : Z :=
  let timeout := match sv_RolloutPolicy isvc with Some p => rp_IdleTimeoutSeconds p | None => 0 end *64 second in
  if timeout =? 0 then 5 * minute else timeout.

(** When the deferral began. *)
Definition defer_since (s : surroundings) (conds : list Condition) : Z :=
  match FindStatusCondition conds ConditionRolloutDeferred with
  | Some c => default (su_now s) (ct_LastTransitionTime c)
  | None => su_now s
  end.

Definition deferred (isvc : Service) (s : surroundings) (status : ConditionStatus) (reason : string) : Condition :=
  {| ct_Type := ConditionRolloutDeferred; ct_Status := status; ct_ObservedGeneration := sv_Generation isvc;
     ct_LastTransitionTime := Some (su_now s); ct_Reason := reason |}.

Definition requeue_in (s : surroundings) (timeout since : Z) : Z :=
  let after := if timeout -64 DefaultIdleCheckInterval <? DefaultIdleCheckInterval then timeout -64 time_sub (su_end s) since
               else DefaultIdleCheckInterval in
  if after <? 0 then 0 else after.

(** The stored conditions, and the time to requeue after: zero lets the rollout go on. *)
Definition reconcileRolloutPolicy (s : surroundings) (isvc : Service) (svcName : string) (conds : list Condition) : list Condition * result unit Z :=
  if negb (RolloutPolicyEnabled isvc) then clear_deferred s conds
  else if negb (ShouldDeferRollout isvc) then clear_deferred s conds
  else
    let verdict := idle_verdict s isvc svcName in
    match verdict with
    | Ok true => clear_deferred s conds
    | _ =>
        let timeout := idle_timeout isvc in
        let since := defer_since s conds in
        if timeout <? time_sub (su_since s) since
        then update_status s conds (SetStatusCondition conds (deferred isvc s ConditionFalse "IdleTimeoutExceeded")) 0
        else update_status s conds (SetStatusCondition conds (deferred isvc s ConditionTrue (defer_reason s verdict))) (requeue_in s timeout since)
    end.

(** ** The gate of the Deployment's update (reconcileDeployment) *)

Inductive gate := GateFailed | Held | Open.

(** [storedHash] is empty without the annotation. *)
Definition rollout_gate (s : surroundings) (isvc : Service) (isMetal : bool) (desiredHash storedHash : string) (conds : list Condition) :
    list Condition * gate :=
  let templateChanged := if negb (bool_decide (storedHash = EmptyString)) then negb (bool_decide (desiredHash = storedHash)) else true in
  if isMetal then (conds, Open)
  else
    let '(conds, r) := if templateChanged then reconcileRolloutPolicy s isvc (sanitizeDNSName (sv_Name isvc)) conds else clear_deferred s conds in
    (conds, match r with Err _ => GateFailed | Ok after => if 0 <? after then Held else Open end).
End Policy.

(** ** Recycling old pods (pod_lifetime.go) *)

(** [dp_Controlled]: the InferenceService is its controller. *)
Record Deployment := {
  dp_Controlled : bool;
  dp_Generation : Z;
  dp_ObservedGeneration : Z;
  dp_SpecReplicas : option Z;
  dp_Replicas : Z;
  dp_UpdatedReplicas : Z;
  dp_ReadyReplicas : Z;
  dp_AvailableReplicas : Z;
}.

Definition maxPodLifetimeSeconds : Z := 9223372036.
Definition podLifetimeRetry : Z := 30 * second.

Definition boundedSeconds (seconds : Z) : Z :=
  if seconds <=? 0 then 0 else (if maxPodLifetimeSeconds <? seconds then maxPodLifetimeSeconds else seconds) *64 second.

Definition stableDeployment (d : Deployment) : bool :=
  if negb (dp_Controlled d) || (dp_Generation d =? 0) || negb (dp_ObservedGeneration d =? dp_Generation d) then false
  else
    let replicas := default 1 (dp_SpecReplicas d) in
    (dp_Replicas d =? replicas) && (dp_UpdatedReplicas d =? replicas) && (dp_ReadyReplicas d =? replicas) && (dp_AvailableReplicas d =? replicas).

(** The first Ready condition decides. *)
Definition podReady (p : Pod) : bool :=
  match List.find (fun c => bool_decide (c.1 = "Ready")) (po_Conditions p) with
  | Some c => bool_decide (c.2 = "True")
  | None => false
  end.

Definition allPodsReady (pods : list Pod) : bool :=
  forallb (fun p => negb (po_Deleting p) && negb (bool_decide (po_StartTime p = None)) && podReady p) pods.

(** [activePods] of the listed ones. *)
Definition activePods (pods : list Pod) : list Pod :=
  List.filter (fun p => negb (bool_decide (po_Phase p = "Succeeded") || bool_decide (po_Phase p = "Failed"))) pods.

Definition earliestPositive (values : list Z) : Z :=
  fold_left (fun earliest value => if (0 <? value) && ((earliest =? 0) || (value <? earliest)) then value else earliest) values 0.

(** The pod that expired first with its deadline, and the time until the next one expires. *)
Definition expiry_step (lifetime now : Z) (acc : option (Pod * Z) * Z) (pod : Pod) : option (Pod * Z) * Z :=
  let '(expired, earliest) := acc in
  let deadline := time_add (default 0 (po_StartTime pod)) lifetime in
  if now <? deadline then (expired, earliestPositive [earliest; time_sub deadline now])
  else match expired with
       | None => (Some (pod, deadline), earliest)
       | Some (p, d) =>
           if (deadline <? d) || ((deadline =? d) && String.ltb (po_Name pod) (po_Name p)) then (Some (pod, deadline), earliest) else (expired, earliest)
       end.

Definition first_expired (lifetime now : Z) (active : list Pod) : option (Pod * Z) * Z := fold_left (expiry_step lifetime now) active (None, 0).

Definition idleWaitExhausted (isvc : Service) (deadline now : Z) : bool :=
  match sv_MaxPodLifetimeIdleTimeoutSeconds isvc with
  | None => false
  | Some timeout => negb (now <? time_add deadline (boundedSeconds timeout))
  end.

(** The answer to an eviction. *)
Inductive eviction_reply := Evicted | EvictNotFound | EvictTooManyRequests | EvictForbidden | EvictFailed.

Definition evictPod (r : eviction_reply) : result unit Z :=
  match r with
  | EvictTooManyRequests | EvictForbidden => Ok podLifetimeRetry
  | EvictFailed => Err tt
  | Evicted | EvictNotFound => Ok 0
  end.

(** The pod whose eviction is asked for, and the requeue. *)
Definition recycleExpiredPod (baseURL : string) (s : surroundings) (evict : Pod -> eviction_reply) (isvc : Service) (active : list Pod)
    (lifetime now : Z) : option Pod * result unit Z :=
  match first_expired lifetime now active with
  | (None, earliest) => (None, Ok earliest)
  | (Some (pod, deadline), _) =>
      let waits := RolloutPolicyEnabled isvc && negb (idleWaitExhausted isvc deadline now) in
      if waits && match checkServiceIdle baseURL s isvc (sanitizeDNSName (sv_Name isvc)) with Ok idle => negb idle | Err _ => true end
      then (None, Ok DefaultIdleCheckInterval)
      else (Some pod, evictPod (evict pod))
  end.

(** [pods]: the pods of the Deployment's selector. *)
Definition reconcilePodLifetime (baseURL : string) (s : surroundings) (deployment : lookup_result Deployment) (pods : option (list Pod))
    (evict : Pod -> eviction_reply) (isvc : Service) (isMetal : bool) (now : Z) : option Pod * result unit Z :=
  match (if isMetal then None else sv_MaxPodLifetimeSeconds isvc) with
  | None => (None, Ok 0)
  | Some seconds =>
      match deployment with
      | NotFound => (None, Ok 0)
      | LookupFailed => (None, Err tt)
      | Found d =>
          if negb (stableDeployment d) then (None, Ok 0)
          else
            match pods with
            | None => (None, Err tt)
            | Some pods =>
                let active := activePods pods in
                if negb (Z.of_nat (length active) =? dp_Replicas d) || negb (allPodsReady active) then (None, Ok 0)
                else recycleExpiredPod baseURL s evict isvc active (boundedSeconds seconds) now
            end
      end
  end.
