(* ===== verification/DrainFacts.v ===== *)
(** * Waiting for an idle backend: properties

    When the gate of a rollout opens, for how long it stays shut, which pod is recycled,
    and how a metrics page is read. *)

From stdpp Require Import base gmap strings list.
From Stdlib Require Import ZArith Lia Bool Ascii SpecFloat.
From S2P Require Import Prelude GoStrings GoFloat GoStrconv GoJson RouterConfig RouterSpec RouterCompile Usage LoadScrape LoadScrapeFacts Drain.
Local Open Scope go_scope.

(** ** The functions of the condition list *)

(** As apimachinery documents them. *)
#[export] Instance meta_conditions : MetaConditions := {|
  FindStatusCondition l t := List.find (fun c => bool_decide (ct_Type c = t)) l;
  SetStatusCondition l c :=
    match List.find (fun x => bool_decide (ct_Type x = ct_Type c)) l with
    | None => l ++ [c]
    | Some _ =>
        map (fun x => if bool_decide (ct_Type x = ct_Type c)
                      then {| ct_Type := ct_Type c; ct_Status := ct_Status c; ct_ObservedGeneration := ct_ObservedGeneration c;
                              ct_LastTransitionTime := if bool_decide (ct_Status x = ct_Status c) then ct_LastTransitionTime x else ct_LastTransitionTime c;
                              ct_Reason := ct_Reason c |}
                      else x) l
    end;
  RemoveStatusCondition l t := List.filter (fun c => negb (bool_decide (ct_Type c = t))) l;
|}.

Lemma find_snoc {A} (f : A -> bool) l x : List.find f l = None -> f x = true -> List.find f (l ++ [x]) = Some x.
Proof. induction l as [|a l IH]; cbn; [by intros _ ->|]. case_if; [done|auto]. Qed.

#[export] Instance meta_conditions_laws : MetaConditionsLaws.
Proof.
  split.
  - intros l c _. cbn. destruct (List.find (fun x => bool_decide (ct_Type x = ct_Type c)) l) as [x|] eqn:Hx.
    + induction l as [|a l IH]; [done|]. cbn in *. destruct (bool_decide_reflect (ct_Type a = ct_Type c)) as [Ha|Ha]; cbn.
      * injection Hx as ->. by rewrite bool_decide_eq_true_2.
      * rewrite bool_decide_eq_false_2 by done. by apply IH.
    + rewrite (find_snoc _ l c Hx) by by apply bool_decide_eq_true. by destruct c.
  - intros l t. cbn. induction l as [|a l IH]; [done|]. cbn. destruct (bool_decide_reflect (ct_Type a = t)); cbn; [done|]. by rewrite bool_decide_eq_false_2.
  - intros f l t Hf. cbn. induction l as [|a l IH]; [done|]. cbn. rewrite Hf. by case_if.
Qed.

(** ** Which replicas are asked *)

Definition url_of (port : Z) (addr : string) : string := "http://" +:+ addr +:+ ":" +:+ Itoa port.

Definition replica_urls (slices : list (list Endpoint)) (port : Z) : list string :=
  collectReadyReplicaURLs slices port ++ collectNotReadyReplicaURLs slices port.

(** The ready and the others together are the addresses of all endpoints. *)
Lemma replica_urls_all slices port u :
  u ∈ replica_urls slices port <-> exists ep addr, ep ∈ concat slices /\ addr ∈ ept_Addresses ep /\ u = url_of port addr.
Proof.
  unfold replica_urls, collectReadyReplicaURLs, ReadyEndpointURLs, collectNotReadyReplicaURLs. rewrite elem_of_app, !list_elem_of_In, !in_concat. split.
  - intros [(l & (ep & <- & Hep)%in_map_iff & Hu)|(l & (ep & <- & Hep)%in_map_iff & Hu)]; exists ep; rewrite <- list_elem_of_In in Hep.
    all: destruct (ept_Ready ep) as [[]|]; cbn in Hu; try done; apply in_map_iff in Hu as (a & <- & Ha); exists a; (split_and!; [done|by apply list_elem_of_In|done]).
  - intros (ep & addr & Hep & Ha & ->). apply list_elem_of_In in Hep. apply list_elem_of_In in Ha. destruct (ept_Ready ep) as [[]|] eqn:Hr; [left|right|left];
      eexists; (split; [apply in_map_iff; exists ep; by rewrite Hr|]); by apply in_map.
Qed.

Lemma probe_replicas_true s p urls : forall n,
  probe_replicas s p n urls = Ok true <-> forall i u, urls !! i = Some u -> run_probe s p (n + i) u = Ok true.
Proof.
  induction urls as [|u urls IH]; intros n; cbn [probe_replicas]; [done|]. split.
  - destruct (run_probe s p n u) as [[]|] eqn:Hr; cbn; [|done|done]. intros H [|i] u' Hu; cbn in Hu.
    + injection Hu as <-. by rewrite Nat.add_0_r.
    + rewrite <- Nat.add_succ_comm. by apply IH.
  - intros H. pose proof (H 0%nat u eq_refl) as H0. rewrite Nat.add_0_r in H0. rewrite H0. cbn. apply IH. intros i u' Hu.
    rewrite Nat.add_succ_comm. by apply (H (S i)).
Qed.

Lemma ok_body_error r x : ok_body r = Err x -> x = ErrProbe.
Proof. destruct r as [|status [body|]]; cbn; [by intros [= <-]| |by intros [= <-]]. case_if; [done|by intros [= <-]]. Qed.

(** No probe makes the mistake of another error for the one of no endpoints. *)
Lemma probe_error backend isvc p s n url : IdleProbe backend isvc = Some p -> run_probe s p n url <> Err ErrNoEndpoints.
Proof.
  assert (Hg : forall m r, gauge_probe m r <> Err ErrNoEndpoints).
  { intros m r. unfold gauge_probe. destruct (ok_body r) eqn:Hb; cbn; [by case_match|]. apply ok_body_error in Hb. congruence. }
  assert (Hl : forall r, llamaCppSlotsIdleProbe r <> Err ErrNoEndpoints).
  { intros r. unfold llamaCppSlotsIdleProbe. destruct (ok_body r) eqn:Hb; cbn; [by case_match|]. apply ok_body_error in Hb. congruence. }
  unfold run_probe. destruct backend; cbn; intros [= <-]; try done; try apply Hg; try apply Hl.
  unfold generic_probe. case_if; cbn.
  - destruct (ok_body _) eqn:Hb; cbn; [by case_match|]. apply ok_body_error in Hb. congruence.
  - destruct (sv_Annotations isvc !! AnnotationIdleEndpoint); cbn; [by case_match|done].
Qed.

Lemma probe_replicas_error backend isvc p s urls : IdleProbe backend isvc = Some p -> forall n, probe_replicas s p n urls <> Err ErrNoEndpoints.
Proof.
  intros Hp. induction urls as [|u urls IH]; intros n; cbn; [done|]. pose proof (probe_error backend isvc p s n u Hp). destruct (run_probe s p n u) as [[]|]; cbn; [auto|done|congruence].
Qed.

(** ** When the gate opens *)

Lemma sanitize_twice name : sanitizeDNSName (sanitizeDNSName name) = sanitizeDNSName name.
Proof. unfold sanitizeDNSName. induction name as [|c name IH]; cbn [ReplaceByte]; [done|]. rewrite IH. f_equal. by destruct (bool_decide_reflect (c = "."%char)) as [|Hc]; [|rewrite bool_decide_eq_false_2]. Qed.

Lemma no_pods s : match countOldPods s with None => Ok false | Some (total, _) => Ok (total =? 0) end = Ok (A := bool) (E := idle_error) true <-> su_pods s = Some [].
Proof.
  unfold countOldPods. destruct (su_pods s) as [[|p l]|]; cbn; [by split| |by split]. split; [|done]. intros H. injection H as H. to_prop. lia.
Qed.

Section Gate.
Context (baseURL : string) (isvc : Service).
Let svcName := sanitizeDNSName (sv_Name isvc).
Let backend := resolveBackend isvc.
Let port := resolveIdlePort isvc backend.

(** The address of the Service itself. *)
Definition service_url : string :=
  if bool_decide (baseURL = EmptyString) then "http://" +:+ svcName +:+ "." +:+ sv_Namespace isvc +:+ ".svc.cluster.local:" +:+ Itoa port else baseURL.

(** Nothing is left to lose: every replica that has an address said that it is idle, or
    there is no address and no pod; without EndpointSlices the Service speaks for all. *)
Definition drained (s : surroundings) : Prop :=
  exists p, IdleProbe backend isvc = Some p /\
  match default [] (su_slices s (sv_Namespace isvc) svcName) with
  | [] => run_probe s p 0 service_url = Ok true \/
          su_pods s = Some [] /\ exists x, run_probe s p 0 service_url = Err x /\ x <> ErrIdleUnsupported
  | slices => (exists u, u ∈ replica_urls slices port) /\ (forall i u, replica_urls slices port !! i = Some u -> run_probe s p i u = Ok true) \/
              su_pods s = Some [] /\ forall u, u ∉ replica_urls slices port
  end.

Lemma idle_verdict_true s : idle_verdict baseURL s isvc svcName = Ok true <-> drained s.
Proof.
  unfold idle_verdict, checkServiceIdle, drained. fold backend port. assert (Hsan : sanitizeDNSName svcName = svcName) by apply sanitize_twice. rewrite Hsan.
  destruct (IdleProbe backend isvc) as [p|] eqn:Hprobe; [|split; [done|by intros (p & Hp & _)]].
  assert (Hurl : (if negb (bool_decide (baseURL = EmptyString)) then baseURL
    else "http://" +:+ svcName +:+ "." +:+ sv_Namespace isvc +:+ ".svc.cluster.local:" +:+ Itoa port) = service_url) by (unfold service_url; by case_bool_decide).
  rewrite Hurl. destruct (default [] _) as [|sl slices].
  - pose proof (no_pods s) as Hp. destruct (run_probe s p 0 service_url) as [b|x] eqn:Hr.
    + split; [intros [= ->]; exists p; auto|]. intros (p' & [= <-] & [H|(_ & x & H & _)]); congruence.
    + split.
      * intros H. exists p. split; [done|right]. destruct x; [done|..]; (split; [by apply Hp|]); eexists; split; [done|done|done|done].
      * intros (p' & [= <-] & [H|(H & y & Hy & Hne)]); [congruence|]. assert (y = x) as -> by congruence. destruct x; [done|by apply Hp..].
  - fold (replica_urls (sl :: slices) port). destruct (replica_urls (sl :: slices) port) as [|u urls] eqn:Hu.
    + rewrite no_pods. split; [intros H; exists p; split; [done|right]; split; [done|]; intros u; apply not_elem_of_nil|].
      intros (p' & _ & [[(u & Hin) _]|[H _]]); [by apply not_elem_of_nil in Hin|done].
    + assert (Hn : probe_replicas s p 0 (u :: urls) <> Err ErrNoEndpoints) by (by eapply probe_replicas_error).
      transitivity (probe_replicas s p 0 (u :: urls) = Ok true); [by destruct (probe_replicas s p 0 (u :: urls)) as [|[]]|].
      rewrite probe_replicas_true. split.
      * intros H. exists p. split; [done|left]. split; [exists u; by left|done].
      * intros (p' & [= <-] & [[_ H]|[_ H]]); [done|]. destruct (H u). by left.
Qed.
End Gate.

(** The time the policy waits is spent: by the first look at the clock, or by the second when the policy waits for less than two checks. *)
Definition out_of_time `{MetaConditions} (isvc : Service) (s : surroundings) (conds : list Condition) : Prop :=
  let since := defer_since s conds in
  idle_timeout isvc < time_sub (su_since s) since \/
  idle_timeout isvc < 2 * DefaultIdleCheckInterval /\ idle_timeout isvc <= time_sub (su_end s) since.

(** A timeout that the conversion to nanoseconds holds. *)
Definition sane_timeout (isvc : Service) : Prop :=
  match sv_RolloutPolicy isvc with Some p => 0 <= rp_IdleTimeoutSeconds p <= maxPodLifetimeSeconds | None => True end.

Lemma sane_timeout_range isvc : sane_timeout isvc -> 0 < idle_timeout isvc <= max_int64.
Proof.
  unfold sane_timeout, idle_timeout. intros H. set (n := match sv_RolloutPolicy isvc with Some p => _ | None => 0 end).
  assert (Hn : 0 <= n <= maxPodLifetimeSeconds) by (subst n; destruct (sv_RolloutPolicy isvc); [done|by unfold maxPodLifetimeSeconds]).
  unfold maxPodLifetimeSeconds in Hn. rewrite wrap64_small by (unfold in_int64, second, min_int64, max_int64, two63; lia).
  unfold second, minute, max_int64, two63. case_if; to_prop; unfold second in *; lia.
Qed.

Lemma time_sub_range t u : u <= t -> 0 <= time_sub t u <= max_int64.
Proof. intros H. unfold time_sub, sat64, max_int64, min_int64, two63. lia. Qed.

(** The requeue is none exactly when a short timeout is spent at the end of the pass. *)
Lemma requeue_in_zero s T since :
  0 < T <= max_int64 -> since <= su_end s -> (0 <? requeue_in s T since) = false <-> T < 2 * DefaultIdleCheckInterval /\ T <= time_sub (su_end s) since.
Proof.
  intros HT Hs. pose proof (time_sub_range _ _ Hs) as Hr. unfold requeue_in, DefaultIdleCheckInterval, second, max_int64, two63 in *.
  rewrite !wrap64_small by (unfold in_int64, min_int64, max_int64, two63; lia). repeat case_if; to_prop; split; intros; to_prop; try lia.
Qed.

Section Open.
Context `{MetaConditions} (baseURL : string) (isvc : Service).

Lemma defer_enabled : ShouldDeferRollout isvc = true -> RolloutPolicyEnabled isvc = true.
Proof using. unfold ShouldDeferRollout, RolloutPolicyEnabled. destruct (sv_RolloutPolicy isvc) as [p|]; [|done]. by destruct (rp_WaitForIdle p). Qed.

Definition changed (desired stored : string) : Prop := stored = EmptyString \/ desired <> stored.

(** The gate of a changed template, when its status write goes through. *)
Lemma gate_changed s desired stored conds :
  ShouldDeferRollout isvc = true -> su_statusOK s = true -> changed desired stored ->
  rollout_gate baseURL s isvc false desired stored conds =
    let '(conds', r) := reconcileRolloutPolicy baseURL s isvc (sanitizeDNSName (sv_Name isvc)) conds in
    (conds', match r with Err _ => GateFailed | Ok after => if 0 <? after then Held else Open end).
Proof using.
  intros Hd Hs Hc. unfold rollout_gate. replace (if negb (bool_decide (stored = EmptyString)) then _ else true) with true; [done|].
  destruct Hc as [->|Hne]; [done|]. case_bool_decide; [done|]. cbn. by rewrite bool_decide_eq_false_2.
Qed.

Lemma clear_deferred_ok s conds : su_statusOK s = true -> (clear_deferred s conds).2 = Ok 0.
Proof using. intros Hs. unfold clear_deferred, update_status. rewrite Hs. by case_match. Qed.

(** The policy, seen from the verdict. *)
Lemma policy_deferring s conds :
  ShouldDeferRollout isvc = true -> su_statusOK s = true -> ~ drained baseURL isvc s ->
  reconcileRolloutPolicy baseURL s isvc (sanitizeDNSName (sv_Name isvc)) conds =
    let '(status, reason, r) :=
      if idle_timeout isvc <? time_sub (su_since s) (defer_since s conds) then (ConditionFalse, "IdleTimeoutExceeded", 0)
      else (ConditionTrue, defer_reason s (idle_verdict baseURL s isvc (sanitizeDNSName (sv_Name isvc))), requeue_in s (idle_timeout isvc) (defer_since s conds)) in
    (map stored_condition (SetStatusCondition conds (deferred isvc s status reason)), Ok r).
Proof using.
  intros Hd Hs Hn. unfold reconcileRolloutPolicy. rewrite (defer_enabled Hd), Hd. cbn [negb].
  rewrite <- idle_verdict_true in Hn. unfold update_status. rewrite Hs.
  destruct (idle_verdict baseURL s isvc (sanitizeDNSName (sv_Name isvc))) as [[]|] eqn:Hv; [done|by case_if..].
Qed.
End Open.


(** ** How long the gate stays shut *)

Lemma wire_wire t : wire (wire t) = wire t.
Proof. unfold wire. by rewrite Z.div_mul by done. Qed.

Section Held.
Context `{MetaConditionsLaws} (baseURL : string) (isvc : Service) (stored : string).
Hypothesis Hdefer : ShouldDeferRollout isvc = true.
Hypothesis Hlong : 2 * DefaultIdleCheckInterval <= idle_timeout isvc <= max_int64.

(** A pass, with the hash of the template it wants, over pods that are not drained. *)
Definition busy_pass (x : surroundings * string) : Prop := su_statusOK x.1 = true /\ ~ drained baseURL isvc x.1 /\ changed x.2 stored.

Fixpoint passes (conds : list Condition) (l : list (surroundings * string)) : list Condition * list gate :=
  match l with
  | [] => (conds, [])
  | (s, desired) :: l =>
      let '(conds, g) := rollout_gate baseURL s isvc false desired stored conds in
      let '(conds, gs) := passes conds l in
      (conds, g :: gs)
  end.

(** The deferral began at [t]. *)
Definition waiting (t : Z) (conds : list Condition) : Prop :=
  exists c, FindStatusCondition conds ConditionRolloutDeferred = Some c /\ ct_Status c = ConditionTrue /\ ct_LastTransitionTime c = Some (wire t).

Lemma requeue_long s since : requeue_in s (idle_timeout isvc) since = DefaultIdleCheckInterval.
Proof using Hlong.
  unfold requeue_in. rewrite wrap64_small by (unfold in_int64, DefaultIdleCheckInterval, second, min_int64, max_int64, two63 in *; lia).
  unfold DefaultIdleCheckInterval, second in *. repeat case_if; to_prop; lia.
Qed.

(** What a busy pass does, and what it leaves when it holds the template. *)
Lemma busy_gate s desired conds t :
  busy_pass (s, desired) -> match FindStatusCondition conds ConditionRolloutDeferred with None => t = su_now s | Some _ => waiting t conds end ->
  let '(conds', g) := rollout_gate baseURL s isvc false desired stored conds in
  if idle_timeout isvc <? time_sub (su_since s) (defer_since s conds) then g = Open else g = Held /\ waiting t conds'.
Proof using All.
  intros (Hs & Hn & Hc) Ht. cbn in Hs, Hn, Hc. rewrite (gate_changed baseURL isvc s desired stored conds Hdefer Hs Hc), (policy_deferring baseURL isvc s conds Hdefer Hs Hn).
  case_if; [done|]. rewrite requeue_long. cbn. split; [done|]. eexists. split; [rewrite find_map by done; rewrite find_set by done; done|]. split; [done|]. cbn.
  destruct (FindStatusCondition conds ConditionRolloutDeferred) as [c|] eqn:Hf; [|by subst t].
  destruct Ht as (c' & Hc' & Hst & Hl). assert (c' = c) as -> by congruence. rewrite Hst. rewrite bool_decide_eq_true_2 by done. rewrite Hl. cbn. by rewrite wire_wire.
Qed.

Lemma waiting_since t conds s : waiting t conds -> defer_since s conds = wire t.
Proof using. intros (c & Hc & _ & Hl). unfold defer_since. by rewrite Hc, Hl. Qed.

Lemma busy_gate_waiting s desired conds t :
  busy_pass (s, desired) -> waiting t conds ->
  let '(conds', g) := rollout_gate baseURL s isvc false desired stored conds in
  if idle_timeout isvc <? time_sub (su_since s) (wire t) then g = Open else g = Held /\ waiting t conds'.
Proof using All.
  intros Hb Hw. rewrite <- (waiting_since t conds s Hw). apply busy_gate; [done|]. pose proof Hw as (c & Hc & _). by rewrite Hc.
Qed.

Lemma passes_waiting l : forall conds t,
  Forall busy_pass l -> Forall (fun x => time_sub (su_since x.1) (wire t) <= idle_timeout isvc) l -> waiting t conds ->
  waiting t (passes conds l).1 /\ Forall (eq Held) (passes conds l).2.
Proof using All.
  induction l as [|[s desired] l IH]; intros conds t Hb Ht Hw; [done|]. apply Forall_cons in Hb as [Hb Hbs]. apply Forall_cons in Ht as [Ht Hts]. cbn in Ht.
  cbn [passes]. pose proof (busy_gate_waiting s desired conds t Hb Hw) as Hg. destruct (rollout_gate _ _ _ _ _ _ _) as [conds1 g].
  case_if; to_prop; [lia|]. destruct Hg as [-> Hw1]. destruct (IH conds1 t Hbs Hts Hw1) as [H1 H2]. destruct (passes conds1 l). split; [done|]. by constructor.
Qed.
End Held.

(** C17: A changed template over busy pods is held from the first pass that finds it on, in each of the passes that follow within the policy's timeout of that
    first one, whatever changes the templates undergo meanwhile; and a pass after these is held exactly while the timeout, counted from the whole second of the first pass, lasts. *)
Theorem held_until_timeout `{MetaConditionsLaws} baseURL isvc stored conds s desired l s' desired' :
  ShouldDeferRollout isvc = true -> 2 * DefaultIdleCheckInterval <= idle_timeout isvc <= max_int64 ->
  FindStatusCondition conds ConditionRolloutDeferred = None -> Forall (busy_pass baseURL isvc stored) ((s, desired) :: l ++ [(s', desired')]) ->
  time_sub (su_since s) (su_now s) <= idle_timeout isvc ->
  Forall (fun x => time_sub (su_since x.1) (wire (su_now s)) <= idle_timeout isvc) l ->
  let '(conds', gs) := passes baseURL isvc stored conds ((s, desired) :: l) in
  Forall (eq Held) gs /\
  (rollout_gate baseURL s' isvc false desired' stored conds').2 = if idle_timeout isvc <? time_sub (su_since s') (wire (su_now s)) then Open else Held.
Proof.
  intros Hd HT Hf Hb Hs Hl. apply Forall_cons in Hb as [Hb [Hbl [Hb' _]%Forall_cons]%Forall_app]. cbn [passes].
  pose proof (busy_gate baseURL isvc stored Hd HT s desired conds (su_now s) Hb) as Hg. rewrite Hf in Hg. specialize (Hg eq_refl).
  destruct (rollout_gate baseURL s isvc false desired stored conds) as [conds1 g]. unfold defer_since in Hg. rewrite Hf in Hg.
  destruct (idle_timeout isvc <? time_sub (su_since s) (su_now s)) eqn:He; to_prop; [lia|]. destruct Hg as [-> Hw]. destruct (passes_waiting baseURL isvc stored Hd HT l conds1 (su_now s) Hbl Hl Hw) as [Hw' Hh].
  destruct (passes baseURL isvc stored conds1 l) as [conds2 gs]. cbn in Hw', Hh. split; [by constructor|].
  pose proof (busy_gate_waiting baseURL isvc stored Hd HT s' desired' conds2 (su_now s) Hb' Hw') as Hg. destruct (rollout_gate _ _ _ _ _ _ _). cbn. case_if; [done|]. by destruct Hg.
Qed.

(** ** Which pod is recycled *)

Lemma ltb_le a b : String.ltb a b = negb (bool_decide (String.le b a)).
Proof.
  assert (bool_decide (String.le b a) = String.leb b a) as ->.
  { case_bool_decide as Hl; unfold String.le in Hl; by destruct (String.leb b a). }
  unfold String.ltb, String.leb. rewrite (String.compare_antisym a b). by destruct (String.compare b a).
Qed.

Section Recycle.
Context (lifetime now : Z).

Definition deadline (p : Pod) : Z := time_add (default 0 (po_StartTime p)) lifetime.
Definition expired (p : Pod) : Prop := deadline p <= now.

(** The pod expires before the other, or with it and comes first by name. *)
Definition expires_first (p q : Pod) : Prop := deadline p < deadline q \/ deadline p = deadline q /\ String.le (po_Name p) (po_Name q).

Lemma expires_first_trans p q r : expires_first p q -> expires_first q r -> expires_first p r.
Proof using. intros [H1|[H1 L1]] [H2|[H2 L2]]; [left; lia..|]. right. split; [lia|]. by transitivity (po_Name q). Qed.

(** The pod found in the ones seen so far. *)
Definition found_in (seen : list Pod) (acc : option (Pod * Z) * Z) : Prop :=
  match acc.1 with
  | None => forall q, q ∈ seen -> ~ expired q
  | Some (p, d) => p ∈ seen /\ d = deadline p /\ expired p /\ forall q, q ∈ seen -> expired q -> expires_first p q
  end.

Lemma expiry_step_found seen acc pod : found_in seen acc -> found_in (seen ++ [pod]) (expiry_step lifetime now acc pod).
Proof using.
  destruct acc as [[[p d]|] earliest]; unfold found_in, expiry_step; cbn [fst]; fold (deadline pod).
  - intros (Hp & -> & He & Hmin). destruct (now <? deadline pod) eqn:Hn; cbn [fst]; to_prop.
    + split; [apply elem_of_app; by left|]. split_and!; [done|done|]. intros q [Hq| ->%list_elem_of_singleton]%elem_of_app; [by apply Hmin|]. unfold expired. lia.
    + rewrite ltb_le. destruct ((deadline pod <? deadline p) || _) eqn:Hb; cbn [fst].
      * assert (Hf : expires_first pod p).
        { apply orb_true_iff in Hb as [Hb|[Hb Hl]%andb_true_iff]; to_prop; [by left|right]. split; [done|]. destruct (total String.le (po_Name pod) (po_Name p)); done. }
        split; [apply elem_of_app; right; by left|]. split_and!; [done|done|]. intros q [Hq| ->%list_elem_of_singleton]%elem_of_app Hx.
        -- eapply expires_first_trans; [exact Hf|by apply Hmin].
        -- right. split; [done|reflexivity].
      * split; [apply elem_of_app; by left|]. split_and!; [done|done|]. intros q [Hq| ->%list_elem_of_singleton]%elem_of_app Hx; [by apply Hmin|].
        apply orb_false_iff in Hb as [Hb Hl]. to_prop. destruct (decide (deadline p = deadline pod)) as [Heq|Hne]; [right|left; lia]. split; [done|].
        rewrite Heq, Z.eqb_refl in Hl. cbn in Hl. by to_prop.
  - intros Hmin. destruct (now <? deadline pod) eqn:Hn; cbn [fst]; to_prop.
    + intros q [Hq| ->%list_elem_of_singleton]%elem_of_app; [by apply Hmin|]. unfold expired. lia.
    + split; [apply elem_of_app; right; by left|]. split_and!; [done|done|]. intros q [Hq| ->%list_elem_of_singleton]%elem_of_app Hx; [by apply Hmin in Hq|].
      right. split; [done|reflexivity].
Qed.

Lemma first_expired_found active : found_in active (first_expired lifetime now active).
Proof using.
  unfold first_expired. assert (H : forall l seen acc, found_in seen acc -> found_in (seen ++ l) (fold_left (expiry_step lifetime now) l acc)).
  { induction l as [|p l IH]; intros seen acc Ha; cbn; [by rewrite app_nil_r|]. replace (seen ++ p :: l) with ((seen ++ [p]) ++ l) by (by rewrite <- app_assoc).
    by apply IH, expiry_step_found. }
  apply (H active []). intros q Hq. by apply not_elem_of_nil in Hq.
Qed.
End Recycle.


(** ** How a page of metrics is read *)

(** The values that the page shows as such: plain numbers, not negative, without a timestamp. *)
Definition plain_line (l : page_line) : Prop :=
  match l with
  | Comment _ => True
  | SampleLine _ _ value timestamp =>
      timestamp = None /\ named_float value = ParseFloat value /\ match ParseFloat value with Some v => flt v fzero = false | None => True end
  end.

Lemma fields_one w : all_bytes not_space w = true -> forall cur, cur +:+ w <> EmptyString -> fields_from cur w = [cur +:+ w].
Proof.
  induction w as [|c w IH]; intros Hw cur Hne; cbn [fields_from].
  - rewrite app_empty_r in *. by rewrite bool_decide_eq_false_2.
  - cbn in Hw. apply andb_true_iff in Hw as [Hc Hw]. unfold not_space in Hc. apply negb_true_iff in Hc. rewrite Hc.
    replace (cur +:+ String c w) with ((cur +:+ String c EmptyString) +:+ w) by (by rewrite app_assoc_str). apply IH; [done|]. by destruct cur.
Qed.

Lemma fields_end a w : w <> EmptyString -> all_bytes not_space w = true -> forall cur,
  exists l, fields_from cur (a +:+ String " " w) = l ++ [w] /\ (cur <> EmptyString \/ (exists c a', a = String c a' /\ is_space c = false) -> l <> []).
Proof.
  intros Hne Hw. assert (Hend : fields_from EmptyString w = [w]).
  { by apply fields_one. }
  induction a as [|c a IH]; intros cur.
  - exists (if bool_decide (cur = EmptyString) then [] else [cur]). rewrite app_nil. cbn [fields_from]. change (is_space " ") with true. cbv iota zeta. rewrite Hend. split; [done|].
    intros [Hc|(c & a' & [=] & _)]. by rewrite bool_decide_eq_false_2.
  - rewrite app_cons. cbn [fields_from]. destruct (is_space c) eqn:Hc.
    + destruct (IH EmptyString) as (l & -> & _). exists ((if bool_decide (cur = EmptyString) then [] else [cur]) ++ l). split; [by rewrite app_assoc|].
      intros [Hn|(c' & a' & [= <- _] & Hs)]; [|congruence]. by rewrite bool_decide_eq_false_2.
    + destruct (IH (cur +:+ String c EmptyString)) as (l & -> & Hl). exists l. split; [done|]. intros _. apply Hl. left. by destruct cur.
Qed.

Definition opens (c : ascii) : bool := Ascii.eqb c "{" || Ascii.eqb c " ".
Local Notation name_byte := (fun x => negb (is_space x || Ascii.eqb x "{" || Ascii.eqb x "#")).

Lemma name_byte_closed c : name_byte c = true -> opens c = false.
Proof.
  unfold opens. rewrite negb_true_iff, !orb_false_iff. intros [[Hs Hb] _]. split; [done|]. destruct (Ascii.eqb_spec c " ") as [->|]; [by vm_compute in Hs|done].
Qed.

(** The rest of a line after the metric's name opens the labels or the value exactly when it is the name of the line. *)
Lemma cut_metric metric : forall name c t,
  all_bytes name_byte name = true -> all_bytes name_byte metric = true -> opens c = true ->
  match CutPrefix (name +:+ String c t) metric with
  | Some (String c' _) => opens c' = bool_decide (name = metric)
  | Some EmptyString => False
  | None => name <> metric
  end.
Proof.
  induction metric as [|m metric IH]; intros [|n name] c t Hn Hm Hc.
  - rewrite app_nil. cbn [CutPrefix]. by rewrite Hc.
  - rewrite app_cons. cbn [CutPrefix]. cbn in Hn. apply andb_true_iff in Hn as [Hn _]. by apply name_byte_closed.
  - rewrite app_nil. cbn in Hm. apply andb_true_iff in Hm as [Hm _]. apply name_byte_closed in Hm. cbn [CutPrefix].
    destruct (Ascii.eqb_spec m c) as [->|]; [congruence|done].
  - rewrite app_cons. cbn in Hm, Hn. apply andb_true_iff in Hm as [_ Hm]. apply andb_true_iff in Hn as [_ Hn]. cbn [CutPrefix].
    destruct (Ascii.eqb_spec m n) as [->|Hne]; [|congruence]. specialize (IH name c t Hn Hm Hc).
    destruct (CutPrefix (name +:+ String c t) metric) as [[|c' r]|]; [done| |congruence]. rewrite IH. apply bool_decide_ext. split; congruence.
Qed.

Lemma gauge_line_render metric l :
  is_name metric -> line_ok l -> plain_line l ->
  gauge_line metric (render_line l) = match line_sample l with Some (n, v) => if bool_decide (n = metric) then Some v else None | None => None end.
Proof.
  intros [_ Hm] (_ & _ & Hl) Hp. destruct l as [text|name labels value timestamp].
  { unfold gauge_line, TrimSpace. cbn [render_line]. change ("#" +:+ text) with (String "#" text). cbn [TrimLeftSpace]. change (is_space "#") with false. cbn [TrimRightSpace].
    by destruct (TrimRightSpace text). }
  destruct Hl as ([Hne Hn] & (Hvn & Hvs & _) & _). destruct Hp as (-> & Hf & Hpos). cbn [line_sample].
  set (lab := match labels with Some l => "{" +:+ l +:+ "}" | None => EmptyString end).
  assert (Hr : render_line (SampleLine name labels value None) = (name +:+ lab) +:+ String " " value).
  { cbn [render_line]. fold lab. rewrite app_empty_r, app_assoc_str. done. }
  assert (Ho : exists c t, render_line (SampleLine name labels value None) = name +:+ String c t /\ opens c = true).
  { rewrite Hr, app_assoc_str. unfold lab. destruct labels as [x|]; [|by exists " "%char, value; rewrite app_nil]. eexists "{"%char, _. split; [|done]. by rewrite !app_assoc_str. }
  destruct Ho as (c & t & Hct & Hc). destruct name as [|n name]; [done|]. pose proof Hn as Hn'. cbn in Hn'. apply andb_true_iff in Hn' as [Hn0 _].
  assert (Htrim : TrimSpace (render_line (SampleLine (String n name) labels value None)) = render_line (SampleLine (String n name) labels value None)).
  { rewrite Hr. rewrite app_cons, app_cons. replace (String n ((name +:+ lab) +:+ String " " value)) with (String n (((name +:+ lab) +:+ " ") +:+ value)) by (by rewrite app_assoc_str).
    apply TrimSpace_line; [|done|done]. rewrite negb_true_iff, !orb_false_iff in Hn0. apply Hn0. }
  unfold gauge_line. rewrite Htrim. pose proof (cut_metric metric (String n name) c t Hn Hm Hc) as Hcut. rewrite <- Hct in Hcut.
  destruct (fields_end (String n name +:+ lab) value Hvn Hvs EmptyString) as (fs & Hfs & Hfn). fold Fields in Hfs. rewrite <- Hr in Hfs.
  assert (fs <> []) as Hfs' by (apply Hfn; right; eexists n, _; split; [by rewrite app_cons|]; rewrite negb_true_iff, !orb_false_iff in Hn0; apply Hn0).
  assert (Hh : bool_decide (render_line (SampleLine (String n name) labels value None) = EmptyString) ||
    HasPrefix (render_line (SampleLine (String n name) labels value None)) "#" = false).
  { rewrite Hct, app_cons. rewrite bool_decide_eq_false_2 by done. cbn [HasPrefix orb]. rewrite negb_true_iff, !orb_false_iff in Hn0. destruct Hn0 as [_ Hh]. rewrite Ascii.eqb_sym, Hh. done. }
  rewrite Hh. cbn iota. unfold Fields. rewrite Hfs. assert (Hlen : (length (fs ++ [value]) <? 2)%nat = false).
  { apply Nat.ltb_ge. rewrite length_app. destruct fs; [done|cbn; lia]. }
  destruct (CutPrefix _ metric) as [[|c' rest]|]; [done| |].
  - cbn [mbind option_bind]. unfold opens in Hcut. rewrite Hlen, last_snoc. cbn [mbind option_bind]. rewrite Hf.
    destruct (bool_decide_reflect (String n name = metric)) as [Hx|Hx].
    + apply orb_true_iff in Hcut as [-> | ->]; rewrite ?andb_false_r; cbn [negb andb]; destruct (ParseFloat value); cbn; rewrite ?Hpos; by rewrite ?bool_decide_eq_true_2.
    + apply orb_false_iff in Hcut as [-> ->]. cbn [negb andb]. destruct (ParseFloat value); cbn; [|done]. by rewrite bool_decide_eq_false_2.
  - cbn [mbind option_bind]. destruct (ParseFloat value); cbn; [|done]. by rewrite bool_decide_eq_false_2.
Qed.

Lemma gauge_sum_lines metric lines : forall before,
  is_name metric -> Forall line_ok lines -> Forall plain_line lines ->
  fold_left (fun '(sum, found) raw => match gauge_line metric raw with Some v => (fadd sum v, true) | None => (sum, found) end) (render_line <$> lines)
    (sum_of (values_of metric before), some_of (values_of metric before)) = (sum_of (values_of metric (before ++ lines)), some_of (values_of metric (before ++ lines))).
Proof.
  induction lines as [|l lines IH]; intros before Hm Hok Hp; [by rewrite app_nil_r|]. apply Forall_cons in Hok as [Hl Hok]. apply Forall_cons in Hp as [Hpl Hp].
  cbn [fmap list_fmap fold_left]. rewrite (gauge_line_render metric l Hm Hl Hpl). replace (before ++ l :: lines) with ((before ++ [l]) ++ lines) by (by rewrite <- app_assoc).
  rewrite <- (IH (before ++ [l]) Hm Hok Hp), values_of_snoc. f_equal. destruct (line_sample l) as [[n v]|]; [|by rewrite app_nil_r].
  case_bool_decide; [|by rewrite app_nil_r]. unfold sum_of. by rewrite fold_left_app, some_of_app.
Qed.

(** On a page of plain lines the drain reads what the load scraper of the router reads. *)
Lemma drain_reads_page metric lines :
  is_name metric -> Forall line_ok lines -> Forall plain_line lines ->
  parsePrometheusGaugeSum (Join (render_line <$> lines) (String newline EmptyString)) metric =
    (sum_of (values_of metric lines), some_of (values_of metric lines)).
Proof.
  intros Hm Hok Hp. destruct lines as [|l lines]; [by destruct metric|]. unfold parsePrometheusGaugeSum. rewrite SplitByte_Join; [|done|].
  - by apply (gauge_sum_lines metric (l :: lines) []).
  - apply Forall_fmap. eapply Forall_impl; [exact Hok|]. intros x Hx. apply Hx.
Qed.

(** ** A service of two replicas *)

Module Replicas.
Definition service (runtime : string) (seconds : Z) : Service :=
  {| sv_Name := "svc"; sv_Namespace := "ns"; sv_Generation := 1; sv_Annotations := ∅; sv_Runtime := runtime; sv_EndpointPort := None; sv_ContainerPort := None;
     sv_RolloutPolicy := Some {| rp_WaitForIdle := true; rp_IdleTimeoutSeconds := seconds; rp_Force := false |};
     sv_MaxPodLifetimeSeconds := Some 3600; sv_MaxPodLifetimeIdleTimeoutSeconds := None |}.

Definition vllm : Service := service "vllm" 300.

(** One replica is ready, the other is not. *)
Definition slices : list (list Endpoint) := [[{| ept_Ready := Some true; ept_Addresses := ["10.0.0.1"] |}; {| ept_Ready := Some false; ept_Addresses := ["10.0.0.2"] |}]].
Definition pod (name : string) (start : Z) (ready : string) : Pod :=
  {| po_Name := name; po_Phase := "Running"; po_Deleting := false; po_StartTime := Some start; po_Conditions := [("Ready", ready)] |}.
Definition pods : list Pod := [pod "b" 0 "True"; pod "a" 0 "True"].

(** The replicas report [first] and [second] running requests, and the Service those of the first. *)
Definition reports (first second : string) (_ : nat) (url : string) : probe_reply :=
  Reply 200 (Some ("vllm:num_requests_running " +:+ if bool_decide (url = "http://10.0.0.2:8000/metrics") then second else first)).

Definition around (first second : string) (listed : option (list (list Endpoint))) (t : Z) : surroundings :=
  {| su_fetch := reports first second; su_slices := fun _ _ => listed; su_pods := Some pods; su_statusOK := true; su_now := t; su_since := t; su_end := t |}.

Definition at_ : Z := 100000 * second.
Definition idle : surroundings := around "0" "0" (Some slices) at_.
Definition busy (t : Z) : surroundings := around "0" "2" (Some slices) t.

Lemma busy_passes stored runtime seconds desired t :
  idle_verdict EmptyString (busy t) (service runtime seconds) "svc" <> Ok true -> changed desired stored -> busy_pass EmptyString (service runtime seconds) stored (busy t, desired).
Proof. intros Hv Hc. split; [done|]. split; [|done]. rewrite <- idle_verdict_true. exact Hv. Qed.

Definition settled : Deployment :=
  {| dp_Controlled := true; dp_Generation := 1; dp_ObservedGeneration := 1; dp_SpecReplicas := Some 2; dp_Replicas := 2; dp_UpdatedReplicas := 2;
     dp_ReadyReplicas := 2; dp_AvailableReplicas := 2 |}.
End Replicas.


Lemma held_until_timeout_witness :
  (passes EmptyString Replicas.vllm "old" [] [(Replicas.busy Replicas.at_, "new"); (Replicas.busy (Replicas.at_ + 299 * second), "newer")]).2 = [Held; Held] /\
  (rollout_gate EmptyString (Replicas.busy (Replicas.at_ + 301 * second)) Replicas.vllm false "newer" "old"
    (passes EmptyString Replicas.vllm "old" [] [(Replicas.busy Replicas.at_, "new"); (Replicas.busy (Replicas.at_ + 299 * second), "newer")]).1).2 = Open.
Proof.
  split; [vm_compute; reflexivity|].
  pose proof (held_until_timeout EmptyString Replicas.vllm "old" [] (Replicas.busy Replicas.at_) "new" [(Replicas.busy (Replicas.at_ + 299 * second), "newer")]
    (Replicas.busy (Replicas.at_ + 301 * second)) "newer") as H.
  assert (Hb : forall t d, d <> "old" -> idle_verdict EmptyString (Replicas.busy t) Replicas.vllm "svc" <> Ok true -> busy_pass EmptyString Replicas.vllm "old" (Replicas.busy t, d))
    by (intros t d Hd Hv; apply (Replicas.busy_passes "old" "vllm" 300); [exact Hv|by right]).
  destruct (passes _ _ _ _ _) as [conds gs]. apply H.
  - reflexivity.
  - vm_compute; split; discriminate.
  - reflexivity.
  - repeat (constructor; [apply Hb; [done|vm_compute; discriminate]|]). constructor.
  - vm_compute; discriminate.
  - constructor; [vm_compute; discriminate|constructor].
Defined.


(** ** What the code does against its word *)

(** When the EndpointSlices cannot be listed one replica speaks for all, and a busy one is replaced. *)
Lemma failed_list_asks_one :
  (rollout_gate EmptyString (Replicas.around "0" "2" None Replicas.at_) Replicas.vllm false "new" "old" []).2 = Open /\
  (rollout_gate EmptyString (Replicas.around "0" "2" (Some Replicas.slices) Replicas.at_) Replicas.vllm false "new" "old" []).2 = Held.
Proof. split; vm_compute; reflexivity. Qed.

(** A timeout of three centuries overflows into the past, and nothing is waited for. *)
Lemma huge_timeout_waits_for_nothing :
  (rollout_gate EmptyString (Replicas.busy Replicas.at_) (Replicas.service "vllm" 10000000000) false "new" "old" []).2 = Open.
Proof. vm_compute; reflexivity. Qed.

(** When the update that follows a timeout fails, the next pass begins to wait again. *)
Lemma failed_update_waits_again :
  let '(conds, gs) := passes EmptyString Replicas.vllm "old" []
    [(Replicas.busy Replicas.at_, "new"); (Replicas.busy (Replicas.at_ + 301 * second), "new"); (Replicas.busy (Replicas.at_ + 302 * second), "new");
     (Replicas.busy (Replicas.at_ + 600 * second), "new")] in gs = [Held; Open; Held; Held].
Proof. vm_compute; reflexivity. Qed.

(** The rollout of a runtime without a probe does not go on at once. *)
Lemma unsupported_runtime_waits :
  rollout_gate EmptyString Replicas.idle (Replicas.service "personaplex" 300) false "new" "old" [] =
    (map stored_condition [deferred (Replicas.service "personaplex" 300) Replicas.idle ConditionTrue "IdleCheckUnsupported"], Held).
Proof. vm_compute; reflexivity. Qed.

(** With every old pod unready the rollout still waits. *)
Lemma unready_pods_wait :
  let s := {| su_fetch := Replicas.reports "2" "2"; su_slices := fun _ _ => Some Replicas.slices; su_pods := Some [Replicas.pod "a" 0 "False"; Replicas.pod "b" 0 "False"];
              su_statusOK := true; su_now := Replicas.at_; su_since := Replicas.at_; su_end := Replicas.at_ |} in
  rollout_gate EmptyString s Replicas.vllm false "new" "old" [] = (map stored_condition [deferred Replicas.vllm s ConditionTrue "PodsCrashLooping"], Held).
Proof. vm_compute; reflexivity. Qed.

(** The timestamp of a sample is read as its value. *)
Lemma timestamp_read_as_value :
  gauge_probe "vllm:num_requests_running" (Reply 200 (Some "vllm:num_requests_running 0 1712345678000")) = Ok false /\
  read_sample "vllm:num_requests_running 0 1712345678000" = Some ("vllm:num_requests_running", fzero).
Proof. split; vm_compute; reflexivity. Qed.
