(* ===== verification/Foreman.v ===== *)
(** * Foreman: tasks, nodes, agents and the Kubernetes API

    The resources of api/foreman/v1alpha1 that the scheduler works on, their predicates,
    and the API the controllers call: reads come from a cache that may lag, writes are
    merge patches on the live objects, of which some carry the version that was read. *)

From stdpp Require Import base strings list gmap sorting.
From Stdlib Require Import ZArith Lia Bool Ascii.
From S2P Require Import Prelude GoStrings GoFloat GoStrconv GoJson RouterConfig Usage.

(** ** Resources *)

Inductive AgenticTaskPhase :=
| PhaseUnset | PhasePending | PhaseScheduled | PhaseRunning | PhaseVerifying | PhaseSucceeded | PhaseFailed.

Inductive AgenticTaskVerdict :=
| VerdictUnset | VerdictGo | VerdictNoGo | VerdictIncomplete | VerdictGatePass | VerdictGateFail | VerdictGateError | VerdictSkipped.

Inductive AgenticTaskKind := KindIssueFix | KindVerify | KindReview | KindFreeform | KindIntegrate | KindReconcile.

#[export] Instance AgenticTaskPhase_eq_dec : EqDecision AgenticTaskPhase.
Proof. solve_decision. Defined.
#[export] Instance AgenticTaskVerdict_eq_dec : EqDecision AgenticTaskVerdict.
Proof. solve_decision. Defined.
#[export] Instance AgenticTaskKind_eq_dec : EqDecision AgenticTaskKind.
Proof. solve_decision. Defined.

Record Condition := {
  cd_Type : string;
  cd_Status : bool;
  cd_Reason : string;
  cd_Message : string;
  cd_LastTransitionTime : Z;
}.

#[export] Instance Condition_eq_dec : EqDecision Condition.
Proof. solve_decision. Defined.

Record RequiredCapability := {
  rc_MinRAMGB : Z;
  rc_RequiresModelInstalled : bool;
  rc_MinContextTokens : Z;
  rc_Accelerator : string;
  rc_NodeSelector : list (string * string);
  rc_Roles : list string;
}.

(** [tk_claimExpiries] is the annotation of that name, [tk_Result] the text of the result
    envelope. *)
Record AgenticTask := {
  tk_Namespace : string;
  tk_Name : string;
  tk_CreationTimestamp : Z;
  tk_claimExpiries : option string;
  tk_Kind : AgenticTaskKind;
  tk_AgentRef : option string;
  tk_RequiredCapability : RequiredCapability;
  tk_DependsOn : list string;
  tk_TimeoutSeconds : Z;
  tk_Phase : AgenticTaskPhase;
  tk_AssignedNode : string;
  tk_ClaimedAt : option Z;
  tk_StartedAt : option Z;
  tk_FinishedAt : option Z;
  tk_Verdict : AgenticTaskVerdict;
  tk_FailureReason : string;
  tk_Result : option string;
  tk_Conditions : list Condition;
}.

Inductive FleetNodePhase := NodeUnset | NodeReady | NodeDraining | NodeNotReady | NodeUnknown.

#[export] Instance FleetNodePhase_eq_dec : EqDecision FleetNodePhase.
Proof. solve_decision. Defined.

Record FleetNodeCapability := {
  fc_Accelerator : string;
  fc_AvailableRAMGB : Z;
  fc_InstalledModels : list string;
  fc_MaxContextTokens : Z;
}.

#[export] Instance FleetNodeCapability_eq_dec : EqDecision FleetNodeCapability.
Proof. solve_decision. Defined.

Record FleetNodeUpdateRequest := {
  ur_TargetVersion : string;
  ur_URL : string;
  ur_SHA256 : string;
}.

#[export] Instance FleetNodeUpdateRequest_eq_dec : EqDecision FleetNodeUpdateRequest.
Proof. solve_decision. Defined.

Record FleetNode := {
  fn_Name : string;
  fn_ResourceVersion : nat;
  fn_CreationTimestamp : Z;
  fn_Labels : gmap string string;
  fn_Roles : list string;
  fn_Phase : FleetNodePhase;
  fn_LastHeartbeatTime : option Z;
  fn_Capability : FleetNodeCapability;
  fn_CurrentTask : string;
  fn_KubernetesNode : string;
  fn_AgentVersion : string;
  fn_AgentKind : string;
  fn_OS : string;
  fn_Arch : string;
  fn_UpdateRequest : option FleetNodeUpdateRequest;
  fn_Conditions : list Condition;
}.

#[export] Instance FleetNode_eq_dec : EqDecision FleetNode.
Proof. solve_decision. Defined.

(** [ag_Mode]: the execution mode, [None] without an execution block. *)
Record Agent := {
  ag_Namespace : string;
  ag_Name : string;
  ag_RequiredCapability : RequiredCapability;
  ag_Model : string;
  ag_InferenceServiceRef : string;
  ag_MaxConcurrentTasks : option Z;
  ag_Mode : option string;
}.

Inductive AgentReleasePhase := ReleaseUnset | ReleasePending | ReleaseAwaitingApproval | ReleaseInProgress | ReleasePaused | ReleaseSucceeded | ReleaseFailed.

Inductive NodeUpdatePhase := UpdateUnset | UpdatePending | Updating | Updated | UpdateFailed.

Inductive AgentReleaseNodeFailureReason := ReasonUnset | NodeUpdateTimeout | NoMatchingArtifact.

#[export] Instance AgentReleasePhase_eq_dec : EqDecision AgentReleasePhase.
Proof. solve_decision. Defined.
#[export] Instance NodeUpdatePhase_eq_dec : EqDecision NodeUpdatePhase.
Proof. solve_decision. Defined.
#[export] Instance AgentReleaseNodeFailureReason_eq_dec : EqDecision AgentReleaseNodeFailureReason.
Proof. solve_decision. Defined.

Record AgentReleaseArtifact := {
  aa_OS : string;
  aa_Arch : string;
  aa_URL : string;
  aa_SHA256 : string;
}.

Record AgentReleaseNodeStatus := {
  ns_Name : string;
  ns_ObservedVersion : string;
  ns_Phase : NodeUpdatePhase;
  ns_Reason : AgentReleaseNodeFailureReason;
  ns_DispatchedAt : option Z;
  ns_LastTransitionTime : option Z;
  ns_Message : string;
}.

#[export] Instance AgentReleaseNodeStatus_eq_dec : EqDecision AgentReleaseNodeStatus.
Proof. solve_decision. Defined.

(** [ar_Selector] is what [LabelSelectorAsSelector] makes of the selector, [Some None] when
    it is not a valid one. *)
Record AgentRelease := {
  ar_Name : string;
  ar_Generation : Z;
  ar_AgentKind : string;
  ar_Version : string;
  ar_Artifacts : list AgentReleaseArtifact;
  ar_Selector : option (option (gmap string string -> bool));
  ar_Concurrency : Z;
  ar_Approved : bool;
  ar_Paused : bool;
  ar_MinHealthySeconds : Z;
  ar_TimeoutSeconds : Z;
  ar_Phase : AgentReleasePhase;
  ar_ObservedGeneration : Z;
  ar_DesiredVersion : string;
  ar_TargetNodes : Z;
  ar_UpdatedNodes : Z;
  ar_InFlightNodes : list string;
  ar_NodeStatuses : list AgentReleaseNodeStatus;
  ar_Conditions : list Condition;
}.

(** ** Predicates of the API types *)

Definition FleetNodeHeartbeatTimeout : Z := 90 * second.
Definition FleetNodeDrainReapTimeout : Z := 10 * minute.
Definition FleetNodeNotReadyReapTimeout : Z := 10 * minute.

Definition HeartbeatStale (n : FleetNode) (now : Z) : bool :=
  match fn_LastHeartbeatTime n with None => true | Some t => FleetNodeHeartbeatTimeout <? time_sub now t end.

Definition DrainReapable (n : FleetNode) (now : Z) : bool :=
  FleetNodeDrainReapTimeout <? time_sub now (default (fn_CreationTimestamp n) (fn_LastHeartbeatTime n)).

Definition NotReadyReapable (n : FleetNode) (now : Z) : bool :=
  negb (bool_decide (fn_KubernetesNode n = EmptyString)) &&
  (FleetNodeNotReadyReapTimeout <? time_sub now (default (fn_CreationTimestamp n) (fn_LastHeartbeatTime n))).

Definition SucceededOnTarget (t : AgenticTask) : bool :=
  bool_decide (tk_Phase t = PhaseSucceeded) &&
  (bool_decide (tk_Verdict t = VerdictGo) || bool_decide (tk_Verdict t = VerdictGatePass)).

Definition terminal (p : AgenticTaskPhase) : bool := bool_decide (p = PhaseSucceeded) || bool_decide (p = PhaseFailed).

(** *** The result envelope *)

Record coderResultEnvelope := {
  ce_Summary : string;
  ce_Outcome : string;
  ce_ModelOutcome : string;
  ce_ResolvedBy : string;
  ce_CrossStageContradictions : list string;
}.

Definition zero_envelope : coderResultEnvelope :=
  {| ce_Summary := EmptyString; ce_Outcome := EmptyString; ce_ModelOutcome := EmptyString; ce_ResolvedBy := EmptyString;
     ce_CrossStageContradictions := [] |}.

Definition put_outcome (e : coderResultEnvelope) (o : string) : coderResultEnvelope :=
  {| ce_Summary := ce_Summary e; ce_Outcome := o; ce_ModelOutcome := ce_ModelOutcome e; ce_ResolvedBy := ce_ResolvedBy e;
     ce_CrossStageContradictions := ce_CrossStageContradictions e |}.
Definition put_modelOutcome (e : coderResultEnvelope) (o : string) : coderResultEnvelope :=
  {| ce_Summary := ce_Summary e; ce_Outcome := ce_Outcome e; ce_ModelOutcome := o; ce_ResolvedBy := ce_ResolvedBy e;
     ce_CrossStageContradictions := ce_CrossStageContradictions e |}.
Definition put_resolvedBy (e : coderResultEnvelope) (o : string) : coderResultEnvelope :=
  {| ce_Summary := ce_Summary e; ce_Outcome := ce_Outcome e; ce_ModelOutcome := ce_ModelOutcome e; ce_ResolvedBy := o;
     ce_CrossStageContradictions := ce_CrossStageContradictions e |}.
Definition put_contradictions (e : coderResultEnvelope) (c : list string) : coderResultEnvelope :=
  {| ce_Summary := ce_Summary e; ce_Outcome := ce_Outcome e; ce_ModelOutcome := ce_ModelOutcome e; ce_ResolvedBy := ce_ResolvedBy e;
     ce_CrossStageContradictions := c |}.
Definition put_summary (e : coderResultEnvelope) (o : string) : coderResultEnvelope :=
  {| ce_Summary := o; ce_Outcome := ce_Outcome e; ce_ModelOutcome := ce_ModelOutcome e; ce_ResolvedBy := ce_ResolvedBy e;
     ce_CrossStageContradictions := ce_CrossStageContradictions e |}.

Definition dec_extra : decoder coderResultEnvelope := dec_struct
  [("outcome", on_field dec_string ce_Outcome put_outcome);
   ("modelExtra", dec_struct [("outcome", on_field dec_string ce_ModelOutcome put_modelOutcome)]);
   ("resolvedBy", on_field dec_string ce_ResolvedBy put_resolvedBy);
   ("crossStageContradictions", on_field (dec_slice EmptyString dec_string) ce_CrossStageContradictions put_contradictions)].

Definition decodeEnvelope (raw : string) : option coderResultEnvelope :=
  unmarshal (dec_struct [("summary", on_field dec_string ce_Summary put_summary); ("extra", dec_extra)]) zero_envelope raw.

Definition task_envelope (t : AgenticTask) : option coderResultEnvelope :=
  match tk_Result t with
  | None | Some EmptyString => None
  | Some raw => decodeEnvelope raw
  end.

Definition coderTerminalOutcome (t : AgenticTask) : AgenticTaskVerdict * string * string :=
  match task_envelope t with
  | None => (tk_Verdict t, EmptyString, EmptyString)
  | Some e => (tk_Verdict t, ce_Outcome e, ce_ModelOutcome e)
  end.

Definition coderSummary (t : AgenticTask) : string := match task_envelope t with Some e => ce_Summary e | None => EmptyString end.
Definition coderResolvedBy (t : AgenticTask) : string := match task_envelope t with Some e => ce_ResolvedBy e | None => EmptyString end.

Definition alreadyResolvedOutcome : string := "ALREADY-RESOLVED".
Definition needsVerificationOutcome : string := "NEEDS-VERIFICATION".

Definition isAlreadyResolvedCoder (t : AgenticTask) : bool :=
  let '(verdict, topOutcome, _) := coderTerminalOutcome t in
  bool_decide (verdict = VerdictNoGo) && bool_decide (topOutcome = alreadyResolvedOutcome).

Definition isSkippedTask (t : AgenticTask) : bool :=
  bool_decide (tk_Phase t = PhaseSucceeded) && bool_decide (tk_Verdict t = VerdictSkipped).

Definition coderCrossStageContradictions (t : AgenticTask) : list string :=
  match task_envelope t with Some e => ce_CrossStageContradictions e | None => [] end.

Definition hasCrossStageContradiction (t : AgenticTask) : bool :=
  match task_envelope t with Some e => negb (bool_decide (length (ce_CrossStageContradictions e) = 0%nat)) | None => false end.

Definition shouldEscalateCoder (verdict : AgenticTaskVerdict) (topOutcome modelOutcome : string) : bool :=
  if bool_decide (verdict = VerdictNoGo) && bool_decide (topOutcome = alreadyResolvedOutcome) then false
  else if bool_decide (verdict = VerdictNoGo) && bool_decide (topOutcome = needsVerificationOutcome) then false
  else if bool_decide (verdict = VerdictNoGo) && bool_decide (topOutcome = "MODEL-DECIDED") then true
  else bool_decide (modelOutcome = "CODER-GATE-FAILED").

Definition shouldEscalateCoderOnFailure (verdict : AgenticTaskVerdict) (topOutcome : string) : bool :=
  if bool_decide (verdict = VerdictNoGo) && bool_decide (topOutcome = alreadyResolvedOutcome) then false
  else if bool_decide (verdict = VerdictNoGo) && bool_decide (topOutcome = needsVerificationOutcome) then false
  else bool_decide (topOutcome = "STUCK-LOOP-DETECTED") || bool_decide (topOutcome = "ERROR") ||
       bool_decide (verdict = VerdictIncomplete) && bool_decide (topOutcome = "MODEL-DECIDED").

(** *** Conditions *)

Fixpoint setCondition (conds : list Condition) (c : Condition) : list Condition :=
  match conds with
  | [] => [c]
  | existing :: conds => if bool_decide (cd_Type existing = cd_Type c) then c :: conds else existing :: setCondition conds c
  end.

Definition FindStatusCondition (conds : list Condition) (type : string) : option Condition :=
  List.find (fun c => bool_decide (cd_Type c = type)) conds.

Definition hasCondition (conds : list Condition) (c : Condition) : bool :=
  match FindStatusCondition conds (cd_Type c) with
  | Some x => bool_decide (cd_Status x = cd_Status c) && bool_decide (cd_Reason x = cd_Reason c)
  | None => false
  end.

(** ** The API *)

Record Cluster := {
  c_tasks : gmap (string * string) AgenticTask;
  c_nodes : gmap string FleetNode;
  c_agents : gmap (string * string) Agent;
  c_releases : gmap string AgentRelease;
  c_revision : nat;
}.

Definition set_tasks (c : Cluster) (m : gmap (string * string) AgenticTask) : Cluster :=
  {| c_tasks := m; c_nodes := c_nodes c; c_agents := c_agents c; c_releases := c_releases c; c_revision := S (c_revision c) |}.
Definition set_nodes (c : Cluster) (m : gmap string FleetNode) : Cluster :=
  {| c_tasks := c_tasks c; c_nodes := m; c_agents := c_agents c; c_releases := c_releases c; c_revision := S (c_revision c) |}.
Definition set_releases (c : Cluster) (m : gmap string AgentRelease) : Cluster :=
  {| c_tasks := c_tasks c; c_nodes := c_nodes c; c_agents := c_agents c; c_releases := m; c_revision := S (c_revision c) |}.

(** [Invalid]: the object does not satisfy its schema; [AlreadyExists]: of a creation. *)
Inductive api_error := NotFound | Conflict | Invalid | AlreadyExists | Transient.

(** What surrounds a run of a controller: the clock, what the cache shows at each call
    ([None]: what is live), which calls fail, and what others do to the cluster before
    each call. *)
Record env := {
  en_now : Z;
  en_view : nat -> option Cluster;
  en_fault : nat -> bool;
  en_meanwhile : nat -> Cluster -> Cluster;
}.

Record world := {
  wd_live : Cluster;
  wd_calls : nat;
}.

Definition api (A : Type) : Type := env -> world -> world * result api_error A.

#[export] Instance api_ret : MRet api := fun A a _ w => (w, Ok a).
#[export] Instance api_bind : MBind api := fun A B f m e w =>
  match m e w with (w, Ok a) => f a e w | (w, Err x) => (w, Err x) end.

Definition fail {A} (x : api_error) : api A := fun _ w => (w, Err x).
(** The result of a call, whatever it is. *)
Definition try {A} (m : api A) : api (result api_error A) := fun e w => let '(w, r) := m e w in (w, Ok r).
Definition the_time : api Z := fun e w => (w, Ok (en_now e)).

Definition timestamp : api Z := fun e w => (w, Ok (wire (en_now e))).

(** One call, with the cache and the live objects. *)
Definition call {A} (f : Cluster -> Cluster -> Cluster * result api_error A) : api A := fun e w =>
  let n := wd_calls w in
  let live := en_meanwhile e n (wd_live w) in
  if en_fault e n then ({| wd_live := live; wd_calls := S n |}, Err Transient)
  else let '(c, r) := f (default live (en_view e n)) live in ({| wd_live := c; wd_calls := S n |}, r).

(** The effect of a run that nobody interrupts. *)
Definition alone (now : Z) (fault : nat -> bool) : env :=
  {| en_now := now; en_view := fun _ => None; en_fault := fault; en_meanwhile := fun _ c => c |}.
Definition effect {A} (m : api A) (e : env) (c : Cluster) : Cluster := wd_live (m e {| wd_live := c; wd_calls := 0 |}).1.

Definition found {A} (o : option A) : result api_error A := match o with Some a => Ok a | None => Err NotFound end.

Definition get_task (namespace name : string) : api AgenticTask := call (fun view live => (live, found (c_tasks view !! (namespace, name)))).
Definition get_node (name : string) : api FleetNode := call (fun view live => (live, found (c_nodes view !! name))).
Definition get_agent (namespace name : string) : api Agent := call (fun view live => (live, found (c_agents view !! (namespace, name)))).
Definition get_release (name : string) : api AgentRelease := call (fun view live => (live, found (c_releases view !! name))).
Definition list_nodes : api (list FleetNode) := call (fun view live => (live, Ok (map_to_list (c_nodes view)).*2)).
Definition list_tasks (namespace : string) : api (list AgenticTask) :=
  call (fun view live => (live, Ok (List.filter (fun t => bool_decide (tk_Namespace t = namespace)) (map_to_list (c_tasks view)).*2))).

(** A merge patch carries the fields that differ from the base. *)
Definition pick {A} `{EqDecision A} (base new live : A) : A := if bool_decide (base = new) then live else new.

Definition merge_task (base new live : AgenticTask) : AgenticTask :=
  {| tk_Namespace := tk_Namespace live; tk_Name := tk_Name live; tk_CreationTimestamp := tk_CreationTimestamp live;
     tk_claimExpiries := pick (tk_claimExpiries base) (tk_claimExpiries new) (tk_claimExpiries live);
     tk_Kind := tk_Kind live; tk_AgentRef := tk_AgentRef live; tk_RequiredCapability := tk_RequiredCapability live;
     tk_DependsOn := tk_DependsOn live; tk_TimeoutSeconds := tk_TimeoutSeconds live;
     tk_Phase := pick (tk_Phase base) (tk_Phase new) (tk_Phase live);
     tk_AssignedNode := pick (tk_AssignedNode base) (tk_AssignedNode new) (tk_AssignedNode live);
     tk_ClaimedAt := pick (tk_ClaimedAt base) (tk_ClaimedAt new) (tk_ClaimedAt live);
     tk_StartedAt := pick (tk_StartedAt base) (tk_StartedAt new) (tk_StartedAt live);
     tk_FinishedAt := pick (tk_FinishedAt base) (tk_FinishedAt new) (tk_FinishedAt live);
     tk_Verdict := pick (tk_Verdict base) (tk_Verdict new) (tk_Verdict live);
     tk_FailureReason := pick (tk_FailureReason base) (tk_FailureReason new) (tk_FailureReason live);
     tk_Result := pick (tk_Result base) (tk_Result new) (tk_Result live);
     tk_Conditions := pick (tk_Conditions base) (tk_Conditions new) (tk_Conditions live) |}.

Definition merge_node (base new live : FleetNode) : FleetNode :=
  {| fn_Name := fn_Name live; fn_ResourceVersion := fn_ResourceVersion live; fn_CreationTimestamp := fn_CreationTimestamp live;
     fn_Labels := fn_Labels live; fn_Roles := fn_Roles live;
     fn_Phase := pick (fn_Phase base) (fn_Phase new) (fn_Phase live);
     fn_LastHeartbeatTime := pick (fn_LastHeartbeatTime base) (fn_LastHeartbeatTime new) (fn_LastHeartbeatTime live);
     fn_Capability := pick (fn_Capability base) (fn_Capability new) (fn_Capability live);
     fn_CurrentTask := pick (fn_CurrentTask base) (fn_CurrentTask new) (fn_CurrentTask live);
     fn_KubernetesNode := pick (fn_KubernetesNode base) (fn_KubernetesNode new) (fn_KubernetesNode live);
     fn_AgentVersion := pick (fn_AgentVersion base) (fn_AgentVersion new) (fn_AgentVersion live);
     fn_AgentKind := pick (fn_AgentKind base) (fn_AgentKind new) (fn_AgentKind live);
     fn_OS := pick (fn_OS base) (fn_OS new) (fn_OS live);
     fn_Arch := pick (fn_Arch base) (fn_Arch new) (fn_Arch live);
     fn_UpdateRequest := pick (fn_UpdateRequest base) (fn_UpdateRequest new) (fn_UpdateRequest live);
     fn_Conditions := pick (fn_Conditions base) (fn_Conditions new) (fn_Conditions live) |}.

(** A patch of a task, from the object that was read to the changed one. *)
Definition patch_task (base new : AgenticTask) : api AgenticTask := call (fun _ live =>
  let key := (tk_Namespace base, tk_Name base) in
  match c_tasks live !! key with
  | None => (live, Err NotFound)
  | Some t => let t := merge_task base new t in (set_tasks live (<[key := t]> (c_tasks live)), Ok t)
  end).

Definition with_version (n : FleetNode) (version : nat) : FleetNode :=
  {| fn_Name := fn_Name n; fn_ResourceVersion := version; fn_CreationTimestamp := fn_CreationTimestamp n; fn_Labels := fn_Labels n;
     fn_Roles := fn_Roles n; fn_Phase := fn_Phase n; fn_LastHeartbeatTime := fn_LastHeartbeatTime n; fn_Capability := fn_Capability n;
     fn_CurrentTask := fn_CurrentTask n; fn_KubernetesNode := fn_KubernetesNode n;
     fn_AgentVersion := fn_AgentVersion n; fn_AgentKind := fn_AgentKind n; fn_OS := fn_OS n; fn_Arch := fn_Arch n;
     fn_UpdateRequest := fn_UpdateRequest n; fn_Conditions := fn_Conditions n |}.

(** A patch of a node; with [lock] it fails when the node has changed since it was read.
    A patch that changes nothing leaves the version. *)
Definition patch_node (lock : bool) (base new : FleetNode) : api FleetNode := call (fun _ live =>
  match c_nodes live !! fn_Name base with
  | None => (live, Err NotFound)
  | Some n =>
      if lock && negb (bool_decide (fn_ResourceVersion n = fn_ResourceVersion base)) then (live, Err Conflict)
      else
        let m := merge_node base new n in
        if bool_decide (m = n) then (live, Ok n)
        else
          let m := with_version m (S (c_revision live)) in
          (set_nodes live (<[fn_Name base := m]> (c_nodes live)), Ok m)
  end).

(** The whole object in place of the one that was read; an update always carries the
    version. *)
Definition update_node (n : FleetNode) : api unit := call (fun _ live =>
  match c_nodes live !! fn_Name n with
  | None => (live, Err NotFound)
  | Some n' =>
      if bool_decide (fn_ResourceVersion n' = fn_ResourceVersion n)
      then (set_nodes live (<[fn_Name n := with_version n (S (c_revision live))]> (c_nodes live)), Ok tt)
      else (live, Err Conflict)
  end).

Definition create_node (n : FleetNode) : api unit := call (fun _ live =>
  match c_nodes live !! fn_Name n with
  | Some _ => (live, Err AlreadyExists)
  | None => (set_nodes live (<[fn_Name n := with_version n (S (c_revision live))]> (c_nodes live)), Ok tt)
  end).

(** A deletion with the version as its precondition. *)
Definition delete_node (n : FleetNode) : api unit := call (fun _ live =>
  match c_nodes live !! fn_Name n with
  | None => (live, Err NotFound)
  | Some n' =>
      if bool_decide (fn_ResourceVersion n' = fn_ResourceVersion n) then (set_nodes live (delete (fn_Name n) (c_nodes live)), Ok tt)
      else (live, Err Conflict)
  end).

Definition merge_release (base new live : AgentRelease) : AgentRelease :=
  {| ar_Name := ar_Name live; ar_Generation := ar_Generation live; ar_AgentKind := ar_AgentKind live; ar_Version := ar_Version live;
     ar_Artifacts := ar_Artifacts live; ar_Selector := ar_Selector live; ar_Concurrency := ar_Concurrency live;
     ar_Approved := ar_Approved live; ar_Paused := ar_Paused live; ar_MinHealthySeconds := ar_MinHealthySeconds live;
     ar_TimeoutSeconds := ar_TimeoutSeconds live;
     ar_Phase := pick (ar_Phase base) (ar_Phase new) (ar_Phase live);
     ar_ObservedGeneration := pick (ar_ObservedGeneration base) (ar_ObservedGeneration new) (ar_ObservedGeneration live);
     ar_DesiredVersion := pick (ar_DesiredVersion base) (ar_DesiredVersion new) (ar_DesiredVersion live);
     ar_TargetNodes := pick (ar_TargetNodes base) (ar_TargetNodes new) (ar_TargetNodes live);
     ar_UpdatedNodes := pick (ar_UpdatedNodes base) (ar_UpdatedNodes new) (ar_UpdatedNodes live);
     ar_InFlightNodes := pick (ar_InFlightNodes base) (ar_InFlightNodes new) (ar_InFlightNodes live);
     ar_NodeStatuses := pick (ar_NodeStatuses base) (ar_NodeStatuses new) (ar_NodeStatuses live);
     ar_Conditions := pick (ar_Conditions base) (ar_Conditions new) (ar_Conditions live) |}.

Definition patch_release (base new : AgentRelease) : api unit := call (fun _ live =>
  match c_releases live !! ar_Name base with
  | None => (live, Err NotFound)
  | Some r => (set_releases live (<[ar_Name base := merge_release base new r]> (c_releases live)), Ok tt)
  end).
