(* ===== verification/ForemanTasks.v ===== *)
(** * Foreman: the scheduler (internal/foreman/controller/agentictask_controller.go)

    One pass of the AgenticTask controller, as a program over the API of [Foreman].  The
    audit record, the archive and the metrics of a finished task are left out. *)

From stdpp Require Import base strings list gmap sorting.
From Stdlib Require Import ZArith Lia Bool Ascii.
From S2P Require Import Prelude GoStrings GoFloat GoStrconv GoJson RouterConfig Usage Foreman.

Definition claimExpiryLimit : Z := 2.
Definition requeueNoFit : Z := 10 * second.
Definition requeueWaitingForDeps : Z := 10 * second.
Definition defaultDepWaitBudget : Z := hour.

(** [ctrl.Result]: when to come back, [0] for not by itself. *)
Definition Result : Type := Z.
Definition done_ : Result := 0.

(** ** Changes of a task *)

(** A task with another status. *)
Definition with_status (t : AgenticTask) (phase : AgenticTaskPhase) (node : string) (claimed started finished : option Z)
    (verdict : AgenticTaskVerdict) (reason : string) (result : option string) (conds : list Condition) : AgenticTask :=
  {| tk_Namespace := tk_Namespace t; tk_Name := tk_Name t; tk_CreationTimestamp := tk_CreationTimestamp t;
     tk_claimExpiries := tk_claimExpiries t; tk_Kind := tk_Kind t; tk_AgentRef := tk_AgentRef t;
     tk_RequiredCapability := tk_RequiredCapability t; tk_DependsOn := tk_DependsOn t; tk_TimeoutSeconds := tk_TimeoutSeconds t;
     tk_Phase := phase; tk_AssignedNode := node; tk_ClaimedAt := claimed; tk_StartedAt := started; tk_FinishedAt := finished;
     tk_Verdict := verdict; tk_FailureReason := reason; tk_Result := result; tk_Conditions := conds |}.

Definition condition (type : string) (status : bool) (reason message : string) (now : Z) : Condition :=
  {| cd_Type := type; cd_Status := status; cd_Reason := reason; cd_Message := message; cd_LastTransitionTime := now |}.

(** The message parts of the conditions; the texts are not modelled further. *)
Definition quoted_text (s : string) : string := String dquote (s +:+ one dquote).

Definition setInitialPending (t : AgenticTask) : api Result :=
  _ ← patch_task t (with_status t PhasePending (tk_AssignedNode t) (tk_ClaimedAt t) (tk_StartedAt t) (tk_FinishedAt t)
    (tk_Verdict t) (tk_FailureReason t) (tk_Result t) (tk_Conditions t));
  mret done_.

Definition scheduleToNode (t : AgenticTask) (nodeName : string) : api unit :=
  now ← timestamp;
  _ ← patch_task t (with_status t PhaseScheduled nodeName (tk_ClaimedAt t) (tk_StartedAt t) (tk_FinishedAt t) (tk_Verdict t)
    (tk_FailureReason t) (tk_Result t)
    (setCondition (tk_Conditions t)
      (condition "Scheduled" true "FleetNodeAssigned" ("scheduled to FleetNode " +:+ quoted_text nodeName) now)));
  mret tt.

Definition failTask (t : AgenticTask) (reason message : string) : api Result :=
  now ← timestamp;
  _ ← patch_task t (with_status t PhaseFailed (tk_AssignedNode t) (tk_ClaimedAt t) (tk_StartedAt t) (Some now) VerdictIncomplete
    (tk_FailureReason t) (tk_Result t) (setCondition (tk_Conditions t) (condition "Failed" true reason message now)));
  mret done_.

Definition skipTask (t : AgenticTask) (depName depState : string) (contradicted : bool) : api Result :=
  now ← timestamp;
  let reason := if contradicted then "UpstreamContradicted" else "UpstreamAlreadyResolved" in
  let message := "dependency " +:+ quoted_text depName +:+
    (if contradicted then " ended with a contradiction; dependent skipped (" +:+ depState +:+ ")"
     else " ended " +:+ depState +:+ "; dependent skipped") in
  _ ← patch_task t (with_status t PhaseSucceeded (tk_AssignedNode t) (tk_ClaimedAt t) (tk_StartedAt t) (Some now) VerdictSkipped
    (tk_FailureReason t) (tk_Result t) (setCondition (tk_Conditions t) (condition "Skipped" true reason message now)));
  mret done_.

(** ** Dependencies *)

(** The first dependency that [f] has an answer for; one that does not exist is passed
    over, or answered by [absent]. *)
Fixpoint first_dep {A} (t : AgenticTask) (f : string -> AgenticTask -> option A) (absent : string -> option A) (deps : list string) :
    api (option A) :=
  match deps with
  | [] => mret None
  | depName :: deps =>
      r ← try (get_task (tk_Namespace t) depName);
      match r with
      | Ok dep => match f depName dep with Some a => mret (Some a) | None => first_dep t f absent deps end
      | Err NotFound => match absent depName with Some a => mret (Some a) | None => first_dep t f absent deps end
      | Err x => fail x
      end
  end.

Definition cascadeSkipIfDepResolvedOrSkipped (t : AgenticTask) : api (option (string * string)) :=
  first_dep t (fun name dep => if isAlreadyResolvedCoder dep then Some (name, "ALREADY-RESOLVED")
                               else if isSkippedTask dep then Some (name, "Skipped") else None)
    (fun _ => None) (tk_DependsOn t).

Definition cascadeSkipIfDepContradicted (t : AgenticTask) : api (option (string * string)) :=
  first_dep t (fun name dep => if hasCrossStageContradiction dep
                               then Some (name, default EmptyString (head (coderCrossStageContradictions dep))) else None)
    (fun _ => None) (tk_DependsOn t).

Definition depWaitExpired (t : AgenticTask) (now : Z) : bool :=
  let budget := (tk_TimeoutSeconds t *64 second)%go in
  let budget := if budget <=? 0 then defaultDepWaitBudget else budget in
  match FindStatusCondition (tk_Conditions t) "DepWaitStarted" with
  | None => false
  | Some started => negb (cd_LastTransitionTime started =? 0) && (budget <=? time_sub now (cd_LastTransitionTime started))
  end.

Definition cascadeFailIfMissing (t : AgenticTask) : api (option string) :=
  now ← the_time;
  first_dep t (fun _ _ => None)
    (fun name => if depWaitExpired t now
                 then Some ("dependency " +:+ quoted_text name +:+ " never appeared within TimeoutSeconds=" +:+
                            Itoa (tk_TimeoutSeconds t) +:+ "; cascade-failing")
                 else None) (tk_DependsOn t).

(** A dependency that ended without a usable result. *)
Definition dep_failed (dep : AgenticTask) : bool :=
  bool_decide (tk_Phase dep = PhaseFailed) || (bool_decide (tk_Phase dep = PhaseSucceeded) && negb (SucceededOnTarget dep)).

Definition verdict_text (v : AgenticTaskVerdict) : string :=
  match v with
  | VerdictUnset => EmptyString | VerdictGo => "GO" | VerdictNoGo => "NO-GO" | VerdictIncomplete => "INCOMPLETE"
  | VerdictGatePass => "GATE-PASS" | VerdictGateFail => "GATE-FAIL" | VerdictGateError => "GATE-ERROR" | VerdictSkipped => "Skipped"
  end.

Definition cascadeFailIfDepFailed (t : AgenticTask) : api (option string) :=
  first_dep t (fun name dep =>
      if bool_decide (tk_Phase dep = PhaseFailed) then Some ("dependency " +:+ quoted_text name +:+ " failed; cascade-failing")
      else if dep_failed dep
      then Some ("dependency " +:+ quoted_text name +:+ " ended with verdict=" +:+ verdict_text (tk_Verdict dep) +:+
                 " (not on-target); cascade-failing")
      else None)
    (fun _ => None) (tk_DependsOn t).

Definition recordMissingDepCondition (t : AgenticTask) (depName : string) : api unit :=
  now ← timestamp;
  let depWait := condition "DepWaitStarted" true "DependencyAbsent"
    ("dependency " +:+ quoted_text depName +:+ " not found; waiting for it to be created") now in
  if hasCondition (tk_Conditions t) depWait then mret tt
  else
    _ ← patch_task t (with_status t (tk_Phase t) (tk_AssignedNode t) (tk_ClaimedAt t) (tk_StartedAt t) (tk_FinishedAt t) (tk_Verdict t)
      (tk_FailureReason t) (tk_Result t) (setCondition (tk_Conditions t) depWait));
    mret tt.

Fixpoint all_deps (t : AgenticTask) (deps : list string) : api bool :=
  match deps with
  | [] => mret true
  | depName :: deps =>
      r ← try (get_task (tk_Namespace t) depName);
      match r with
      | Ok dep => if SucceededOnTarget dep then all_deps t deps else mret false
      | Err NotFound => _ ← recordMissingDepCondition t depName; mret false
      | Err x => fail x
      end
  end.

Definition allDepsSucceeded (t : AgenticTask) : api bool := all_deps t (tk_DependsOn t).

(** ** Capabilities and limits *)

Definition ExecutionModeJob : string := "Job".

Definition agentModelIdentity (a : Agent) : string :=
  if negb (bool_decide (ag_Model a = EmptyString)) then ag_Model a else ag_InferenceServiceRef a.

(** The Agent a task names, [None] for none. *)
Definition agent_name (t : AgenticTask) : option string :=
  match tk_AgentRef t with Some EmptyString | None => None | Some name => Some name end.

Definition job_mode (a : Agent) : bool := bool_decide (ag_Mode a = Some ExecutionModeJob).

Definition effectiveRequiredCapability (t : AgenticTask) : api (RequiredCapability * string * bool) :=
  match agent_name t with
  | None => mret (tk_RequiredCapability t, EmptyString, false)
  | Some name =>
      agent ← get_agent (tk_Namespace t) name;
      mret (ag_RequiredCapability agent, agentModelIdentity agent, job_mode agent)
  end.

Definition holdsInFlightSlot (p : AgenticTaskPhase) : bool :=
  match p with PhaseScheduled | PhaseRunning | PhaseVerifying => true | _ => false end.

(** A task that counts against the limit of an Agent. *)
Definition counts_against (agentName taskName : string) (t : AgenticTask) : bool :=
  bool_decide (tk_AgentRef t = Some agentName) && negb (bool_decide (tk_Name t = taskName)) && holdsInFlightSlot (tk_Phase t).

Definition agentAtConcurrencyLimit (t : AgenticTask) : api bool :=
  match agent_name t with
  | None => mret false
  | Some name =>
      r ← try (get_agent (tk_Namespace t) name);
      match r with
      | Err NotFound => mret false
      | Err x => fail x
      | Ok agent =>
          match ag_MaxConcurrentTasks agent with
          | None => mret false
          | Some limit =>
              tasks ← list_tasks (tk_Namespace t);
              mret (limit <=? Z.of_nat (length (List.filter (counts_against (ag_Name agent) (tk_Name t)) tasks)))
          end
      end
  end.

Definition nodeSchedulable (n : FleetNode) (now : Z) : bool := bool_decide (fn_Phase n = NodeReady) && negb (HeartbeatStale n now).

(** The gates that bind a node to a model it holds. *)
Definition model_gates (req : RequiredCapability) (requiredModel : string) (cap : FleetNodeCapability) : bool :=
  (bool_decide (rc_Accelerator req = EmptyString) || bool_decide (rc_Accelerator req = "any") ||
   bool_decide (fc_Accelerator cap = rc_Accelerator req)) &&
  (if rc_RequiresModelInstalled req
   then negb (bool_decide (requiredModel = EmptyString)) && bool_decide (requiredModel ∈ fc_InstalledModels cap)
   else negb ((0 <? rc_MinRAMGB req) && (fc_AvailableRAMGB cap <? rc_MinRAMGB req))) &&
  negb ((0 <? rc_MinContextTokens req) && (fc_MaxContextTokens cap <? rc_MinContextTokens req)).

Definition capabilitySatisfies (req : RequiredCapability) (requiredModel : string) (n : FleetNode) (jobMode : bool) : bool :=
  (jobMode || model_gates req requiredModel (fn_Capability n)) &&
  forallb (fun '(k, v) => bool_decide (default EmptyString (fn_Labels n !! k) = v)) (rc_NodeSelector req) &&
  forallb (fun want => bool_decide (want ∈ fn_Roles n)) (rc_Roles req).

(** ** Reservations *)

Definition taskKey (t : AgenticTask) : string := tk_Namespace t +:+ "/" +:+ tk_Name t.

Definition splitNamespacedName (key : string) : option (string * string) := CutByte key "/"%char.

(** What [taskIsLive] makes of the task it read. *)
Definition occupies (t : AgenticTask) (nodeName : string) : bool :=
  negb (terminal (tk_Phase t)) && (bool_decide (tk_AssignedNode t = EmptyString) || bool_decide (tk_AssignedNode t = nodeName)).

Definition taskIsLive (key nodeName : string) : api bool :=
  match splitNamespacedName key with
  | None => mret false
  | Some (ns, name) =>
      r ← try (get_task ns name);
      match r with
      | Err NotFound => mret false
      | Err x => fail x
      | Ok t => mret (occupies t nodeName)
      end
  end.

Definition with_currentTask (n : FleetNode) (key : string) : FleetNode :=
  {| fn_Name := fn_Name n; fn_ResourceVersion := fn_ResourceVersion n; fn_CreationTimestamp := fn_CreationTimestamp n;
     fn_Labels := fn_Labels n; fn_Roles := fn_Roles n; fn_Phase := fn_Phase n; fn_LastHeartbeatTime := fn_LastHeartbeatTime n;
     fn_Capability := fn_Capability n; fn_CurrentTask := key; fn_KubernetesNode := fn_KubernetesNode n;
     fn_AgentVersion := fn_AgentVersion n; fn_AgentKind := fn_AgentKind n; fn_OS := fn_OS n; fn_Arch := fn_Arch n;
     fn_UpdateRequest := fn_UpdateRequest n; fn_Conditions := fn_Conditions n |}.

(** The node is reserved for another task that is live. *)
Definition node_busy (n : FleetNode) (key : string) : api bool :=
  let cur := fn_CurrentTask n in
  if negb (bool_decide (cur = EmptyString)) && negb (bool_decide (cur = key)) then taskIsLive cur (fn_Name n) else mret false.

Definition reserveNode (n : FleetNode) (key : string) : api bool :=
  '(busy : bool) ← node_busy n key;
  if busy then mret false
  else
    r ← try (patch_node true n (with_currentTask n key));
    match r with
    | Ok _ => mret true
    | Err Conflict | Err NotFound => mret false
    | Err x => fail x
    end.

Definition clearNodeCurrentTask (nodeName key : string) : api unit :=
  if bool_decide (nodeName = EmptyString) then mret tt
  else
    r ← try (get_node nodeName);
    match r with
    | Err NotFound => mret tt
    | Err x => fail x
    | Ok node => if bool_decide (fn_CurrentTask node = key)
                 then _ ← patch_node true node (with_currentTask node EmptyString); mret tt else mret tt
    end.

(** The calls whose error is only logged. *)
Definition logged {A} (m : api A) : api unit := _ ← try m; mret tt.

(** The load of a node: the tasks in flight that were assigned to it. *)
Definition node_load (tasks : list AgenticTask) (name : string) : nat :=
  length (List.filter (fun t => holdsInFlightSlot (tk_Phase t) && negb (bool_decide (tk_AssignedNode t = EmptyString)) &&
                                bool_decide (tk_AssignedNode t = name)) tasks).

Definition jobModeLoadByNode (t : AgenticTask) : api (string -> nat) :=
  r ← try (list_tasks (tk_Namespace t));
  mret (match r with Ok tasks => node_load tasks | Err _ => fun _ => 0%nat end).

Fixpoint least_loaded (load : string -> nat) (best : FleetNode) (rest : list FleetNode) : FleetNode :=
  match rest with
  | [] => best
  | n :: rest => least_loaded load (if (load (fn_Name n) <? load (fn_Name best))%nat then n else best) rest
  end.

(** The first candidate that can be reserved. *)
Fixpoint reserve_first (key : string) (nodes : list FleetNode) : api string :=
  match nodes with
  | [] => mret EmptyString
  | n :: nodes =>
      '(reserved : bool) ← reserveNode n key;
      if reserved then mret (fn_Name n) else reserve_first key nodes
  end.

Definition node_le (a b : FleetNode) : Prop := String.le (fn_Name a) (fn_Name b).
#[export] Instance node_le_dec : RelDecision node_le.
Proof. intros a b. unfold node_le. apply _. Defined.

Definition reserveFirstFitNode (t : AgenticTask) (required : RequiredCapability) (requiredModel : string) (jobMode : bool) : api string :=
  nodes ← list_nodes;
  now ← the_time;
  let eligible := List.filter (fun n => nodeSchedulable n now && capabilitySatisfies required requiredModel n jobMode) (merge_sort node_le nodes) in
  if jobMode then
    match eligible with
    | [] => mret EmptyString
    | n :: rest => load ← jobModeLoadByNode t; mret (fn_Name (least_loaded load n rest))
    end
  else reserve_first (taskKey t) eligible.

(** ** Claim expiry *)

Definition expiry_count (t : AgenticTask) : Z := match tk_claimExpiries t with Some raw => default 0 (Atoi raw) | None => 0 end.

Definition with_expiries (t : AgenticTask) (n : string) : AgenticTask :=
  {| tk_Namespace := tk_Namespace t; tk_Name := tk_Name t; tk_CreationTimestamp := tk_CreationTimestamp t;
     tk_claimExpiries := Some n; tk_Kind := tk_Kind t; tk_AgentRef := tk_AgentRef t;
     tk_RequiredCapability := tk_RequiredCapability t; tk_DependsOn := tk_DependsOn t; tk_TimeoutSeconds := tk_TimeoutSeconds t;
     tk_Phase := tk_Phase t; tk_AssignedNode := tk_AssignedNode t; tk_ClaimedAt := tk_ClaimedAt t; tk_StartedAt := tk_StartedAt t;
     tk_FinishedAt := tk_FinishedAt t; tk_Verdict := tk_Verdict t; tk_FailureReason := tk_FailureReason t; tk_Result := tk_Result t;
     tk_Conditions := tk_Conditions t |}.

Definition incrementExpiryCounter (t : AgenticTask) (snapshotPrior : Z) : api unit :=
  current ← get_task (tk_Namespace t) (tk_Name t);
  let base := Z.max (expiry_count current) snapshotPrior in
  _ ← patch_task current (with_expiries current (Itoa (base +64 1)%go));
  mret tt.

(** The task was finished or moved meanwhile. *)
Definition superseded (current : AgenticTask) (nodeName : string) : bool :=
  terminal (tk_Phase current) || negb (bool_decide (tk_AssignedNode current = nodeName)).

Definition releaseExpiredClaim (t : AgenticTask) (nodeName heartbeatMsg : string) : api Result :=
  current ← get_task (tk_Namespace t) (tk_Name t);
  if superseded current nodeName then mret done_
  else
    now ← timestamp;
    patched ← patch_task current (with_status current PhasePending EmptyString None None (tk_FinishedAt current) (tk_Verdict current)
      (tk_FailureReason current) (tk_Result current)
      (setCondition (tk_Conditions current) (condition "ClaimExpired" true "ClaimExpired"
        ("released from node " +:+ quoted_text nodeName +:+ ": " +:+ heartbeatMsg) now)));
    _ ← logged (clearNodeCurrentTask nodeName (taskKey patched));
    mret done_.

Definition FailureInfrastructureError : string := "InfrastructureError".

Definition terminalFailExpired (t : AgenticTask) (nodeName : string) (priorExpiries : Z) : api Result :=
  current ← get_task (tk_Namespace t) (tk_Name t);
  if superseded current nodeName then mret done_
  else
    now ← timestamp;
    patched ← patch_task current (with_status current PhaseFailed (tk_AssignedNode current) (tk_ClaimedAt current) (tk_StartedAt current)
      (Some now) VerdictIncomplete FailureInfrastructureError (tk_Result current)
      (setCondition (tk_Conditions current) (condition "Failed" true "ClaimExpiryLimitReached"
        ("task on node " +:+ quoted_text nodeName +:+ " expired " +:+ Itoa (priorExpiries +64 1)%go +:+
         " time(s); terminal-failing to prevent poison loop") now)));
    _ ← logged (clearNodeCurrentTask nodeName (taskKey patched));
    mret done_.

(** [fmt_time] is the RFC 3339 text of a time. *)
Definition checkClaimExpiry (fmt_time : Z -> string) (t : AgenticTask) : api Result :=
  r ← try (get_node (tk_AssignedNode t));
  now ← the_time;
  let expired (msg : string) :=
    let prior := expiry_count t in
    if claimExpiryLimit <=? prior then terminalFailExpired t (tk_AssignedNode t) prior
    else _ ← incrementExpiryCounter t prior; releaseExpiredClaim t (tk_AssignedNode t) msg in
  match r with
  | Err NotFound => expired "FleetNode not found"
  | Err x => fail x
  | Ok node =>
      if negb (HeartbeatStale node now) then mret (Z.quot FleetNodeHeartbeatTimeout 2)
      else expired (match fn_LastHeartbeatTime node with
                    | Some h => "last heartbeat " +:+ fmt_time h
                    | None => "no heartbeat recorded"
                    end)
  end.

(** ** The pass *)

(** A Pending task whose dependencies are all on target. *)
Definition dispatch (t : AgenticTask) : api Result :=
  r ← try (effectiveRequiredCapability t);
  match r with
  | Err NotFound =>
      failTask t "AgentNotFound" ("Agent " +:+ quoted_text (default EmptyString (tk_AgentRef t)) +:+ " not found in namespace " +:+
        quoted_text (tk_Namespace t))
  | Err x => fail x
  | Ok (required, requiredModel, jobMode) =>
      '(atLimit : bool) ← agentAtConcurrencyLimit t;
      if atLimit then mret requeueNoFit
      else
        nodeName ← reserveFirstFitNode t required requiredModel jobMode;
        if bool_decide (nodeName = EmptyString) then mret requeueNoFit
        else
          s ← try (scheduleToNode t nodeName);
          match s with
          | Ok _ => mret done_
          | Err x => _ ← logged (clearNodeCurrentTask nodeName (taskKey t)); fail x
          end
  end.

Definition reconcile_pending (t : AgenticTask) : api Result :=
  skip ← cascadeSkipIfDepResolvedOrSkipped t;
  match skip with
  | Some (depName, depState) => skipTask t depName depState false
  | None =>
      contradicted ← cascadeSkipIfDepContradicted t;
      match contradicted with
      | Some (depName, contradiction) => skipTask t depName ("contradiction: " +:+ contradiction) true
      | None =>
          missing ← cascadeFailIfMissing t;
          match missing with
          | Some msg => failTask t "MissingDependency" msg
          | None =>
              failed ← cascadeFailIfDepFailed t;
              match failed with
              | Some msg => failTask t "UpstreamFailed" msg
              | None =>
                  '(allSucceeded : bool) ← allDepsSucceeded t;
                  if allSucceeded then dispatch t else mret requeueWaitingForDeps
              end
          end
      end
  end.

(** [AgenticTaskReconciler.Reconcile]. *)
Definition Reconcile (fmt_time : Z -> string) (namespace name : string) : api Result :=
  r ← try (get_task namespace name);
  match r with
  | Err NotFound => mret done_
  | Err x => fail x
  | Ok t =>
      if bool_decide (tk_Phase t = PhaseUnset) then setInitialPending t
      else if terminal (tk_Phase t) then _ ← logged (clearNodeCurrentTask (tk_AssignedNode t) (taskKey t)); mret done_
      else if bool_decide (tk_Phase t = PhasePending) then reconcile_pending t
      else if negb (bool_decide (tk_AssignedNode t = EmptyString)) then checkClaimExpiry fmt_time t
      else mret done_
  end.
