(* ===== verification/ForemanNodes.v ===== *)
(** * Foreman: the nodes (internal/foreman/controller/fleetnode_controller.go and
      pkg/foreman/agent)

    One pass of the FleetNode controller, and what the agent of a node does with the API:
    registering, the heartbeat, claiming a scheduled task, writing its outcome, and the
    recovery of tasks a dead process left behind.  The supervision budget a node
    publishes is left out. *)

From stdpp Require Import base strings list gmap sorting.
From Stdlib Require Import ZArith Lia Bool Ascii.
From S2P Require Import Prelude GoStrings GoFloat GoStrconv GoJson RouterConfig Usage Foreman ForemanTasks.

(** ** The FleetNode controller *)

Definition reapNode (n : FleetNode) : api Result :=
  r ← try (delete_node n);
  match r with
  | Ok _ | Err NotFound => mret done_
  | Err Conflict => mret FleetNodeHeartbeatTimeout
  | Err x => fail x
  end.

(** The reservation hygiene: [None] when another writer got the node first. *)
Definition clear_dead_reservation (n : FleetNode) : api (option FleetNode) :=
  if bool_decide (fn_CurrentTask n = EmptyString) then mret (Some n)
  else
    '(live : bool) ← taskIsLive (fn_CurrentTask n) (fn_Name n);
    if live then mret (Some n)
    else
      r ← try (patch_node true n (with_currentTask n EmptyString));
      match r with
      | Ok n => mret (Some n)
      | Err Conflict | Err NotFound => mret None
      | Err x => fail x
      end.

Definition with_phase (n : FleetNode) (phase : FleetNodePhase) (conds : list Condition) : FleetNode :=
  {| fn_Name := fn_Name n; fn_ResourceVersion := fn_ResourceVersion n; fn_CreationTimestamp := fn_CreationTimestamp n;
     fn_Labels := fn_Labels n; fn_Roles := fn_Roles n; fn_Phase := phase; fn_LastHeartbeatTime := fn_LastHeartbeatTime n;
     fn_Capability := fn_Capability n; fn_CurrentTask := fn_CurrentTask n; fn_KubernetesNode := fn_KubernetesNode n;
     fn_AgentVersion := fn_AgentVersion n; fn_AgentKind := fn_AgentKind n; fn_OS := fn_OS n; fn_Arch := fn_Arch n;
     fn_UpdateRequest := fn_UpdateRequest n; fn_Conditions := conds |}.

Definition ready_condition (stale : bool) (now : Z) : Condition :=
  if stale then condition "Ready" false "HeartbeatStale" "no heartbeat within 1m30s" now
  else condition "Ready" true "HeartbeatFresh" "FleetAgent heartbeat is current" now.

(** [FleetNodeReconciler.Reconcile]. *)
Definition ReconcileNode (name : string) : api Result :=
  r ← try (get_node name);
  now ← the_time;
  match r with
  | Err NotFound => mret done_
  | Err x => fail x
  | Ok n =>
      if bool_decide (fn_Phase n = NodeDraining)
      then if DrainReapable n now then reapNode n else mret FleetNodeHeartbeatTimeout
      else
        kept ← clear_dead_reservation n;
        match kept with
        | None => mret FleetNodeHeartbeatTimeout
        | Some n =>
            let stale := HeartbeatStale n now in
            if (bool_decide (fn_Phase n = NodeNotReady) || stale) && NotReadyReapable n now then reapNode n
            else
              let desired := if stale then NodeNotReady else NodeReady in
              let cond := ready_condition stale (wire now) in
              if negb (bool_decide (fn_Phase n = desired)) || negb (hasCondition (fn_Conditions n) cond)
              then
                _ ← patch_node false n (with_phase n desired (setCondition (fn_Conditions n) cond));
                mret FleetNodeHeartbeatTimeout
              else mret FleetNodeHeartbeatTimeout
        end
  end.

(** The tasks a change of a node re-enqueues. *)
Definition fleetNodeEnqueues (tasks : list AgenticTask) (changedNodeName : string) : list (string * string) :=
  map (fun t => (tk_Namespace t, tk_Name t))
    (List.filter (fun t => bool_decide (tk_Phase t = PhasePending) ||
                           holdsInFlightSlot (tk_Phase t) && bool_decide (tk_AssignedNode t = changedNodeName)) tasks).

(** ** Registration and heartbeats (pkg/foreman/agent/fleetnode.go) *)

Record Registrar := {
  rg_NodeName : string;
  rg_Roles : list string;
  rg_Labels : gmap string string;
  rg_Capability : FleetNodeCapability;
  rg_KubernetesNode : string;
  rg_Version : string;
  rg_Kind : string;
  rg_OS : string;
  rg_Arch : string;
}.

Definition no_capability : FleetNodeCapability :=
  {| fc_Accelerator := EmptyString; fc_AvailableRAMGB := 0; fc_InstalledModels := []; fc_MaxContextTokens := 0 |}.

(** The object a registration creates; the server stamps the creation time. *)
Definition new_node (r : Registrar) (now : Z) : FleetNode :=
  {| fn_Name := rg_NodeName r; fn_ResourceVersion := 0; fn_CreationTimestamp := now; fn_Labels := rg_Labels r; fn_Roles := rg_Roles r;
     fn_Phase := NodeUnset; fn_LastHeartbeatTime := None; fn_Capability := no_capability; fn_CurrentTask := EmptyString;
     fn_KubernetesNode := EmptyString; fn_AgentVersion := EmptyString; fn_AgentKind := EmptyString; fn_OS := EmptyString;
     fn_Arch := EmptyString; fn_UpdateRequest := None; fn_Conditions := [] |}.

Definition with_spec (n : FleetNode) (roles : list string) (labels : gmap string string) : FleetNode :=
  {| fn_Name := fn_Name n; fn_ResourceVersion := fn_ResourceVersion n; fn_CreationTimestamp := fn_CreationTimestamp n;
     fn_Labels := labels; fn_Roles := roles; fn_Phase := fn_Phase n; fn_LastHeartbeatTime := fn_LastHeartbeatTime n;
     fn_Capability := fn_Capability n; fn_CurrentTask := fn_CurrentTask n; fn_KubernetesNode := fn_KubernetesNode n;
     fn_AgentVersion := fn_AgentVersion n; fn_AgentKind := fn_AgentKind n; fn_OS := fn_OS n; fn_Arch := fn_Arch n;
     fn_UpdateRequest := fn_UpdateRequest n; fn_Conditions := fn_Conditions n |}.

(** The managed labels over the existing ones, and whether that changes anything. *)
Definition mergeManagedLabels (existing managed : gmap string string) : gmap string string * bool :=
  (managed ∪ existing, negb (bool_decide (managed ∪ existing = existing))).

Definition Upsert (r : Registrar) : api unit :=
  got ← try (get_node (rg_NodeName r));
  match got with
  | Err NotFound => now ← timestamp; create_node (new_node r now)
  | Err x => fail x
  | Ok existing =>
      let '(labels, labelsChanged) := mergeManagedLabels (fn_Labels existing) (rg_Labels r) in
      let specChanged := negb (bool_decide (fn_Roles existing = rg_Roles r)) in
      if negb specChanged && negb labelsChanged then mret tt
      else update_node (with_spec existing (rg_Roles r) labels)
  end.

(** A field that an older agent leaves empty keeps its value. *)
Definition or_keep (new old : string) : string := if bool_decide (new = EmptyString) then old else new.

Definition with_heartbeat (n : FleetNode) (r : Registrar) (phase : FleetNodePhase) (now : Z) : FleetNode :=
  {| fn_Name := fn_Name n; fn_ResourceVersion := fn_ResourceVersion n; fn_CreationTimestamp := fn_CreationTimestamp n;
     fn_Labels := fn_Labels n; fn_Roles := fn_Roles n; fn_Phase := phase; fn_LastHeartbeatTime := Some now;
     fn_Capability := rg_Capability r; fn_CurrentTask := fn_CurrentTask n;
     fn_KubernetesNode := or_keep (rg_KubernetesNode r) (fn_KubernetesNode n);
     fn_AgentVersion := or_keep (rg_Version r) (fn_AgentVersion n);
     fn_AgentKind := or_keep (rg_Kind r) (fn_AgentKind n);
     fn_OS := or_keep (rg_OS r) (fn_OS n);
     fn_Arch := or_keep (rg_Arch r) (fn_Arch n);
     fn_UpdateRequest := fn_UpdateRequest n;
     fn_Conditions := fn_Conditions n |}.

(** The answer is the update request that was there before the patch. *)
Definition PatchHeartbeat (r : Registrar) (phase : FleetNodePhase) : api (option FleetNodeUpdateRequest) :=
  n ← get_node (rg_NodeName r);
  now ← timestamp;
  _ ← patch_node false n (with_heartbeat n r phase now);
  mret (fn_UpdateRequest n).

(** One tick of [Registrar.Run] up to the self-update: a node that is gone is registered
    again, and the errors of a tick are logged.  The answer is the update request seen. *)
Definition heartbeat_tick (r : Registrar) : api (option FleetNodeUpdateRequest) :=
  b ← try (PatchHeartbeat r NodeReady);
  match b with
  | Err NotFound =>
      again ← try (_ ← Upsert r; PatchHeartbeat r NodeReady);
      mret (match again with Ok request => request | Err _ => None end)
  | Ok request => mret request
  | Err _ => mret None
  end.

(** ** The dispatch loop of a node (pkg/foreman/agent/watcher.go) *)

(** [claim]: from Scheduled to Running. *)
Definition claim (nodeName : string) (t : AgenticTask) : api AgenticTask :=
  now ← timestamp;
  patch_task t (with_status t PhaseRunning (tk_AssignedNode t) (Some now) (Some now) (tk_FinishedAt t) (tk_Verdict t)
    (tk_FailureReason t) (tk_Result t)
    (setCondition (tk_Conditions t) (condition "Running" true "Claimed" ("claimed by " +:+ nodeName) now))).

Definition resetOrphanedTask (nodeName : string) (t : AgenticTask) : api unit :=
  now ← timestamp;
  _ ← patch_task t (with_status t PhasePending EmptyString None None (tk_FinishedAt t) (tk_Verdict t)
    (tk_FailureReason t) (tk_Result t)
    (setCondition (tk_Conditions t) (condition "Running" false "AgentRestartRecovery"
      ("reset to Pending: " +:+ nodeName +:+ " restarted while this task was Running") now)));
  mret tt.

(** The tasks a restart finds Running on its node. *)
Definition orphaned (nodeName : string) (t : AgenticTask) : bool :=
  bool_decide (tk_AssignedNode t = nodeName) && bool_decide (tk_Phase t = PhaseRunning).

Fixpoint reset_all (nodeName : string) (tasks : list AgenticTask) : api unit :=
  match tasks with
  | [] => mret tt
  | t :: tasks => _ ← try (resetOrphanedTask nodeName t); reset_all nodeName tasks
  end.

Definition recoverOrphanedTasks (nodeName namespace : string) : api unit :=
  tasks ← list_tasks namespace;
  reset_all nodeName (List.filter (orphaned nodeName) tasks).

(** What an executor returns: an error, nothing at all, or a result with its text. *)
Inductive outcome :=
| ExecError (message : string)
| ExecNothing
| ExecResult (verdict : AgenticTaskVerdict) (reason summary raw : string).

(** The terminal status for an outcome. *)
Definition finished (t : AgenticTask) (o : outcome) (now : Z) : AgenticTask :=
  let failed reason message :=
    with_status t PhaseFailed (tk_AssignedNode t) (tk_ClaimedAt t) (tk_StartedAt t) (Some now) VerdictIncomplete
      FailureInfrastructureError (tk_Result t) (setCondition (tk_Conditions t) (condition "Completed" false reason message now)) in
  match o with
  | ExecError message => failed "ExecutorError" message
  | ExecNothing => failed "ExecutorContractViolation" "executor returned nil error and nil Result"
  | ExecResult verdict reason summary raw =>
      with_status t PhaseSucceeded (tk_AssignedNode t) (tk_ClaimedAt t) (tk_StartedAt t) (Some now) verdict reason (Some raw)
        (setCondition (tk_Conditions t) (condition "Completed" true "ExecutorSucceeded" summary now))
  end.

(** The agent still owns the task: its node and the claim are those of the run. *)
Definition owned (nodeName : string) (run fresh : AgenticTask) : bool :=
  bool_decide (tk_AssignedNode fresh = nodeName) &&
  match tk_ClaimedAt fresh, tk_ClaimedAt run with Some a, Some b => a =? b | _, _ => false end.

(** [patchTerminal] for the task as it was claimed.  [accepted]: the installed schema
    knows the verdict and the reason of the result; [complaint]: what the server says
    when it does not. *)
Definition patchTerminal (nodeName : string) (t : AgenticTask) (o : outcome) (accepted : bool) (complaint : string) : api unit :=
  r ← try (get_task (tk_Namespace t) (tk_Name t));
  match r with
  | Err NotFound => mret tt
  | Err x => fail x
  | Ok fresh =>
      if negb (owned nodeName t fresh) then mret tt
      else
        now ← timestamp;
        match o with
        | ExecResult verdict reason summary raw =>
            p ← try (if accepted then patch_task fresh (finished fresh o now) else call (fun _ live => (live, Err Invalid)));
            match p with
            | Ok _ => mret tt
            | Err Invalid =>
                fallback ← get_task (tk_Namespace t) (tk_Name t);
                _ ← patch_task fallback (with_status fallback PhaseFailed (tk_AssignedNode fallback) (tk_ClaimedAt fallback)
                  (tk_StartedAt fallback) (Some now) VerdictIncomplete FailureInfrastructureError (Some raw)
                  (setCondition (tk_Conditions fallback) (condition "Completed" false "TerminalPatchRejected"
                    ("original verdict " +:+ quoted_text (verdict_text verdict) +:+ " rejected by apiserver: " +:+
                     (if (512 <? Z.of_nat (String.length complaint)) then String.substring 0 512 complaint +:+ "... (truncated)" else complaint)) now)));
                mret tt
            | Err x => fail x
            end
        | _ => _ ← patch_task fresh (finished fresh o now); mret tt
        end
  end.

Definition kindClaimPriority (k : AgenticTaskKind) : Z :=
  match k with KindReview => 0 | KindVerify => 1 | KindIssueFix => 2 | _ => 3 end.

(** The order [sortTasksDepthFirst] sorts by, stably. *)
Definition claim_before (a b : AgenticTask) : bool :=
  let pa := kindClaimPriority (tk_Kind a) in
  let pb := kindClaimPriority (tk_Kind b) in
  if negb (pa =? pb) then pa <? pb else tk_CreationTimestamp a <? tk_CreationTimestamp b.

Definition claim_le (a b : AgenticTask) : Prop := claim_before b a = false.
#[export] Instance claim_le_dec : RelDecision claim_le.
Proof. intros a b. unfold claim_le. apply _. Defined.

Definition sortTasksDepthFirst (tasks : list AgenticTask) : list AgenticTask := merge_sort claim_le tasks.

(** The agent: its node, its bound, and the executor: whether it is one that supervises
    Jobs, and whether a submitter of Jobs is wired. *)
Record Watcher := {
  w_NodeName : string;
  w_MaxSupervisedTasks : Z;
  w_canSupervise : bool;
  w_submitter : bool;
}.

Record slots := {
  sl_inflight : option AgenticTask;
  sl_supervised : Z;
}.

Definition maxSupervised (w : Watcher) : Z := if w_MaxSupervisedTasks w <=? 0 then 4 else w_MaxSupervisedTasks w.

Definition hasCapacityFor (w : Watcher) (s : slots) (supervise : bool) : bool :=
  if supervise then sl_supervised s <? maxSupervised w else negb (bool_decide (is_Some (sl_inflight s))).

Definition agentRefKey (t : AgenticTask) : string := tk_Namespace t +:+ "/" +:+ default EmptyString (tk_AgentRef t).

Definition resolveTaskAgent (t : AgenticTask) : api (option Agent) :=
  match agent_name t with
  | None => mret None
  | Some name =>
      r ← try (get_agent (tk_Namespace t) name);
      match r with Ok a => mret (Some a) | Err NotFound => mret None | Err x => fail x end
  end.

Definition supervises (w : Watcher) (a : option Agent) : bool :=
  w_canSupervise w && match a with Some a => w_submitter w && job_mode a | None => false end.

(** [launchExecutor] takes the slot before the run starts. *)
Definition launch (s : slots) (t : AgenticTask) (supervise : bool) : slots :=
  if supervise then {| sl_inflight := sl_inflight s; sl_supervised := sl_supervised s + 1 |}
  else {| sl_inflight := Some t; sl_supervised := sl_supervised s |}.

(** The candidates of one poll; [resolved] remembers the Agents read, [draining] the
    answers of the two checks before each claim, [launched] the runs started. *)
Fixpoint claim_candidates (w : Watcher) (draining : nat -> bool) (i : nat) (resolved : gmap string (result api_error (option Agent)))
    (s : slots) (launched : list (AgenticTask * bool)) (candidates : list AgenticTask) : api (slots * list (AgenticTask * bool)) :=
  match candidates with
  | [] => mret (s, launched)
  | t :: candidates =>
      if draining (2 * i)%nat then mret (s, launched)
      else
        res ← (match resolved !! agentRefKey t with Some res => mret res | None => try (resolveTaskAgent t) end);
        let resolved := <[agentRefKey t := res]> resolved in
        match res with
        | Err _ => claim_candidates w draining (S i) resolved s launched candidates
        | Ok agent =>
            let supervise := supervises w agent in
            if negb (hasCapacityFor w s supervise) then claim_candidates w draining (S i) resolved s launched candidates
            else if draining (S (2 * i)) then mret (s, launched)
            else
              r ← try (claim (w_NodeName w) t);
              match r with
              | Err _ => claim_candidates w draining (S i) resolved s launched candidates
              | Ok t' => claim_candidates w draining (S i) resolved (launch s t' supervise) (launched ++ [(t', supervise)]) candidates
              end
        end
  end.

Definition pollOnce (w : Watcher) (draining : nat -> bool) (namespace : string) (s : slots) : api (slots * list (AgenticTask * bool)) :=
  if negb (hasCapacityFor w s false) && (negb (w_canSupervise w) || negb (hasCapacityFor w s true)) then mret (s, [])
  else
    tasks ← list_tasks namespace;
    let candidates := sortTasksDepthFirst
      (List.filter (fun t => bool_decide (tk_AssignedNode t = w_NodeName w) && bool_decide (tk_Phase t = PhaseScheduled)) tasks) in
    claim_candidates w draining 0 ∅ s [] candidates.
