(* ===== verification/ForemanRelease.v ===== *)
(** * Foreman: the rollout of agent releases
      (internal/foreman/controller/agentrelease_controller.go)

    One pass of the AgentRelease controller: which nodes a release targets, where each of
    them is, and which get an update request. *)

From stdpp Require Import base strings list gmap sorting.
From Stdlib Require Import ZArith Lia Bool Ascii.
From S2P Require Import Prelude GoStrings GoFloat GoStrconv GoJson RouterConfig Usage Foreman ForemanTasks ForemanNodes.

(** ** Status values *)

Definition with_release_status (r : AgentRelease) (phase : AgentReleasePhase) (generation : Z) (desired : string) (target updated : Z)
    (inFlight : list string) (statuses : list AgentReleaseNodeStatus) (conds : list Condition) : AgentRelease :=
  {| ar_Name := ar_Name r; ar_Generation := ar_Generation r; ar_AgentKind := ar_AgentKind r; ar_Version := ar_Version r;
     ar_Artifacts := ar_Artifacts r; ar_Selector := ar_Selector r; ar_Concurrency := ar_Concurrency r; ar_Approved := ar_Approved r;
     ar_Paused := ar_Paused r; ar_MinHealthySeconds := ar_MinHealthySeconds r; ar_TimeoutSeconds := ar_TimeoutSeconds r;
     ar_Phase := phase; ar_ObservedGeneration := generation; ar_DesiredVersion := desired; ar_TargetNodes := target;
     ar_UpdatedNodes := updated; ar_InFlightNodes := inFlight; ar_NodeStatuses := statuses; ar_Conditions := conds |}.

(** Another phase and other conditions. *)
Definition with_release_phase (r : AgentRelease) (phase : AgentReleasePhase) (conds : list Condition) : AgentRelease :=
  with_release_status r phase (ar_ObservedGeneration r) (ar_DesiredVersion r) (ar_TargetNodes r) (ar_UpdatedNodes r) (ar_InFlightNodes r)
    (ar_NodeStatuses r) conds.

Definition zero_status (name : string) : AgentReleaseNodeStatus :=
  {| ns_Name := name; ns_ObservedVersion := EmptyString; ns_Phase := UpdateUnset; ns_Reason := ReasonUnset; ns_DispatchedAt := None;
     ns_LastTransitionTime := None; ns_Message := EmptyString |}.

Definition with_node_status (s : AgentReleaseNodeStatus) (version : string) (phase : NodeUpdatePhase) (reason : AgentReleaseNodeFailureReason)
    (dispatched transition : option Z) (message : string) : AgentReleaseNodeStatus :=
  {| ns_Name := ns_Name s; ns_ObservedVersion := version; ns_Phase := phase; ns_Reason := reason; ns_DispatchedAt := dispatched;
     ns_LastTransitionTime := transition; ns_Message := message |}.

Definition observing (s : AgentReleaseNodeStatus) (version : string) : AgentReleaseNodeStatus :=
  with_node_status s version (ns_Phase s) (ns_Reason s) (ns_DispatchedAt s) (ns_LastTransitionTime s) (ns_Message s).

(** The phase, the time of the change and the message. *)
Definition moving (s : AgentReleaseNodeStatus) (phase : NodeUpdatePhase) (now : Z) (message : string) : AgentReleaseNodeStatus :=
  with_node_status s (ns_ObservedVersion s) phase (ns_Reason s) (ns_DispatchedAt s) (Some now) message.

(** The times as they are written. *)
Definition stored (s : AgentReleaseNodeStatus) : AgentReleaseNodeStatus :=
  with_node_status s (ns_ObservedVersion s) (ns_Phase s) (ns_Reason s) (wire <$> ns_DispatchedAt s) (wire <$> ns_LastTransitionTime s) (ns_Message s).

(** ** The target nodes *)

Definition selected (r : AgentRelease) (n : FleetNode) : bool :=
  bool_decide (fn_AgentKind n = ar_AgentKind r) &&
  match ar_Selector r with Some (Some matches) => matches (fn_Labels n) | _ => true end.

(** [Invalid] stands for the error of a selector. *)
Definition resolveTargetNodes (r : AgentRelease) : api (list FleetNode) :=
  nodes ← list_nodes;
  match ar_Selector r with
  | Some None => fail Invalid
  | _ => mret (merge_sort node_le (List.filter (selected r) nodes))
  end.

Definition findArtifact (artifacts : list AgentReleaseArtifact) (os arch : string) : option AgentReleaseArtifact :=
  if bool_decide (os = EmptyString) || bool_decide (arch = EmptyString) then None
  else List.find (fun a => bool_decide (aa_OS a = os) && bool_decide (aa_Arch a = arch)) artifacts.

(** The node holds an update request of this release. *)
Definition requested_for (r : AgentRelease) (n : FleetNode) : bool :=
  match fn_UpdateRequest n with Some u => bool_decide (ur_TargetVersion u = ar_Version r) | None => false end.

Definition with_updateRequest (n : FleetNode) (u : option FleetNodeUpdateRequest) : FleetNode :=
  {| fn_Name := fn_Name n; fn_ResourceVersion := fn_ResourceVersion n; fn_CreationTimestamp := fn_CreationTimestamp n;
     fn_Labels := fn_Labels n; fn_Roles := fn_Roles n; fn_Phase := fn_Phase n; fn_LastHeartbeatTime := fn_LastHeartbeatTime n;
     fn_Capability := fn_Capability n; fn_CurrentTask := fn_CurrentTask n; fn_KubernetesNode := fn_KubernetesNode n;
     fn_AgentVersion := fn_AgentVersion n; fn_AgentKind := fn_AgentKind n; fn_OS := fn_OS n; fn_Arch := fn_Arch n;
     fn_UpdateRequest := u; fn_Conditions := fn_Conditions n |}.

Definition clearUpdateRequest (nodeName : string) : api unit :=
  r ← try (get_node nodeName);
  match r with
  | Err NotFound => mret tt
  | Err x => fail x
  | Ok current =>
      match fn_UpdateRequest current with
      | None => mret tt
      | Some _ => _ ← patch_node false current (with_updateRequest current None); mret tt
      end
  end.

(** ** Where each node is *)

Definition timeout_of (r : AgentRelease) : Z := let d := ar_TimeoutSeconds r * second in if d <=? 0 then 600 * second else d.
Definition min_healthy_of (r : AgentRelease) : Z := let d := ar_MinHealthySeconds r * second in if d <? 0 then 60 * second else d.

Record tally := {
  ta_statuses : list AgentReleaseNodeStatus;
  ta_updated : Z;
  ta_inFlight : list string;
  ta_failed : list string;
}.

(** A node that reports the version of the release and is ready: the soak window, at the
    end of which its request is cleared. *)
Definition soak (r : AgentRelease) (now : Z) (n : FleetNode) (s : AgentReleaseNodeStatus) : api AgentReleaseNodeStatus :=
  if bool_decide (ns_Phase s = Updated) then mret (observing s (fn_AgentVersion n))
  else
    let s := if negb (bool_decide (ns_ObservedVersion s = ar_Version r)) || bool_decide (ns_LastTransitionTime s = None)
             then moving s Updating now "soak window started" else s in
    let s := observing s (fn_AgentVersion n) in
    if min_healthy_of r <=? time_sub now (default 0 (ns_LastTransitionTime s))
    then _ ← clearUpdateRequest (fn_Name n); mret (moving s Updated now "health gate passed")
    else mret s.

(** A node that does not: the status, and whether it counts as in flight or has failed.
    [fmt_timeout] is the message of a timeout, from the elapsed time and the threshold. *)
Definition await (fmt_timeout : Z -> Z -> string) (r : AgentRelease) (now : Z) (n : FleetNode) (s : AgentReleaseNodeStatus) :
    AgentReleaseNodeStatus * bool * bool :=
  let s := observing s (fn_AgentVersion n) in
  match (if requested_for r n then ns_DispatchedAt s else None) with
  | Some dispatched =>
      let elapsed := time_sub now dispatched in
      if timeout_of r <? elapsed
      then (with_node_status s (ns_ObservedVersion s) UpdateFailed NodeUpdateTimeout (ns_DispatchedAt s) (Some now)
              (fmt_timeout elapsed (timeout_of r)), false, true)
      else
        (if bool_decide (ns_Phase s = UpdateUnset)
         then with_node_status s (ns_ObservedVersion s) Updating (ns_Reason s) (Some now) (ns_LastTransitionTime s) (ns_Message s)
         else s, true, false)
  | None =>
      if bool_decide (ns_Phase s = Updating) && bool_decide (fn_UpdateRequest n = None)
      then (with_node_status s (ns_ObservedVersion s) UpdatePending (ns_Reason s) (ns_DispatchedAt s) (ns_LastTransitionTime s) EmptyString, false, false)
      else if bool_decide (ns_Phase s = UpdateUnset)
      then (with_node_status s (ns_ObservedVersion s) UpdatePending (ns_Reason s) (ns_DispatchedAt s) (ns_LastTransitionTime s) (ns_Message s), false, false)
      else (s, false, false)
  end.

Definition node_status (fmt_timeout : Z -> Z -> string) (r : AgentRelease) (now : Z) (n : FleetNode) (s : AgentReleaseNodeStatus) :
    api (AgentReleaseNodeStatus * bool * bool) :=
  let ready := negb (HeartbeatStale n now) && bool_decide (fn_Phase n = NodeReady) in
  if bool_decide (fn_AgentVersion n = ar_Version r) && ready then s ← soak r now n s; mret (s, false, false)
  else if negb (bool_decide (ns_Phase s = Updated)) && negb (bool_decide (ns_Phase s = UpdateFailed)) then mret (await fmt_timeout r now n s)
  else mret (observing s (fn_AgentVersion n), false, false).

(** The counts, after one more node. *)
Definition add_tally (r : AgentRelease) (n : FleetNode) (a : tally) (s : AgentReleaseNodeStatus) (flying failed : bool) : tally :=
  let inFlight := if flying then ta_inFlight a ++ [fn_Name n] else ta_inFlight a in
  let counted := bool_decide (fn_Name n ∈ inFlight) in
  {| ta_statuses := ta_statuses a ++ [s];
     ta_updated := if bool_decide (ns_Phase s = Updated) then ta_updated a + 1 else ta_updated a;
     ta_inFlight := if negb (bool_decide (ns_Phase s = Updated)) && bool_decide (ns_Phase s = Updating) && requested_for r n && negb counted
                    then inFlight ++ [fn_Name n] else inFlight;
     ta_failed := if failed then ta_failed a ++ [fn_Name n] else ta_failed a |}.

Fixpoint compute_loop (fmt_timeout : Z -> Z -> string) (r : AgentRelease) (now : Z) (existing : gmap string AgentReleaseNodeStatus) (a : tally)
    (nodes : list FleetNode) : api tally :=
  match nodes with
  | [] => mret a
  | n :: nodes =>
      '(s, flying, failed) ← node_status fmt_timeout r now n (default (zero_status (fn_Name n)) (existing !! fn_Name n));
      compute_loop fmt_timeout r now existing (add_tally r n a s flying failed) nodes
  end.

(** The statuses by name; of two with one name the later counts. *)
Definition by_name (statuses : list AgentReleaseNodeStatus) : gmap string AgentReleaseNodeStatus :=
  foldl (fun m s => <[ns_Name s := s]> m) ∅ statuses.

Definition no_tally : tally := {| ta_statuses := []; ta_updated := 0; ta_inFlight := []; ta_failed := [] |}.

Definition computeNodeStatuses (fmt_timeout : Z -> Z -> string) (r : AgentRelease) (nodes : list FleetNode) (now : Z) : api tally :=
  compute_loop fmt_timeout r now (by_name (ar_NodeStatuses r)) no_tally nodes.

(** The pre-pass: a Pending node whose platform is known and has no artifact fails. *)
Definition lacks_artifact (r : AgentRelease) (n : FleetNode) : bool :=
  negb (bool_decide (fn_OS n = EmptyString) || bool_decide (fn_Arch n = EmptyString)) &&
  match findArtifact (ar_Artifacts r) (fn_OS n) (fn_Arch n) with None => true | Some _ => false end.

Definition fail_unmatched (r : AgentRelease) (nodes : list FleetNode) (now : Z) (s : AgentReleaseNodeStatus) : AgentReleaseNodeStatus * list string :=
  if bool_decide (ns_Phase s = UpdatePending) then
    match List.find (fun n => bool_decide (fn_Name n = ns_Name s)) nodes with
    | Some n =>
        if lacks_artifact r n
        then (with_node_status s (ns_ObservedVersion s) UpdateFailed NoMatchingArtifact (ns_DispatchedAt s) (Some now)
                ("no artifact for " +:+ fn_OS n +:+ "/" +:+ fn_Arch n), [fn_Name n])
        else (s, [])
    | None => (s, [])
    end
  else (s, []).

Definition prepass (r : AgentRelease) (nodes : list FleetNode) (now : Z) (a : tally) : tally :=
  let out := map (fail_unmatched r nodes now) (ta_statuses a) in
  {| ta_statuses := out.*1; ta_updated := ta_updated a; ta_inFlight := ta_inFlight a; ta_failed := ta_failed a ++ concat out.*2 |}.

(** ** Status writes *)

Definition patchCounts (r : AgentRelease) (target updated : Z) (inFlight : list string) (statuses : list AgentReleaseNodeStatus) : api unit :=
  current ← get_release (ar_Name r);
  patch_release current (with_release_status current (ar_Phase current) (ar_Generation r) (ar_Version r) target updated inFlight
    (map stored statuses) (ar_Conditions current)).

Definition haltFailed (r : AgentRelease) (nodeName : string) : api Result :=
  current ← get_release (ar_Name r);
  if bool_decide (ar_Phase current = ReleaseFailed) then mret done_
  else
    now ← timestamp;
    let '(reason, msg) :=
      match List.find (fun s => bool_decide (ns_Name s = nodeName)) (ar_NodeStatuses current) with
      | Some s =>
          if bool_decide (ns_Reason s = NoMatchingArtifact)
          then ("NoMatchingArtifact", "node " +:+ quoted_text nodeName +:+ " has no matching artifact: " +:+ ns_Message s)
          else ("NodeUpdateTimeout", "node " +:+ quoted_text nodeName +:+ " timed out during update; rollout halted to bound blast radius")
      | None => ("NodeUpdateTimeout", "node " +:+ quoted_text nodeName +:+ " timed out during update; rollout halted to bound blast radius")
      end in
    _ ← patch_release current (with_release_phase current ReleaseFailed
      (setCondition (ar_Conditions current) (condition "Halted" true reason msg now)));
    mret done_.

Definition setSucceeded (r : AgentRelease) : api Result :=
  current ← get_release (ar_Name r);
  if bool_decide (ar_Phase current = ReleaseSucceeded) then mret done_
  else
    now ← timestamp;
    _ ← patch_release current (with_release_status current ReleaseSucceeded (ar_ObservedGeneration current) (ar_DesiredVersion current)
      (ar_TargetNodes current) (ar_UpdatedNodes current) [] (ar_NodeStatuses current)
      (setCondition (ar_Conditions current) (condition "Complete" true "AllNodesUpdated"
        ("all " +:+ Itoa (ar_TargetNodes current) +:+ " target node(s) updated to " +:+ ar_Version r) now)));
    mret done_.

Definition setAwaitingApproval (r : AgentRelease) : api Result :=
  current ← get_release (ar_Name r);
  now ← timestamp;
  _ ← patch_release current (with_release_phase current ReleaseAwaitingApproval
    (setCondition (ar_Conditions current) (condition "Approved" false "NotApproved" "waiting for spec.approved=true before beginning rollout" now)));
  mret done_.

Definition setInProgress (r : AgentRelease) : api unit :=
  current ← get_release (ar_Name r);
  now ← timestamp;
  patch_release current (with_release_phase current ReleaseInProgress
    (setCondition (ar_Conditions current) (condition "Approved" true "Approved" "rollout approved; dispatching updates" now))).

Definition release_terminal (p : AgentReleasePhase) : bool := bool_decide (p = ReleaseSucceeded) || bool_decide (p = ReleaseFailed).

Definition setPaused (r : AgentRelease) : api Result :=
  if bool_decide (ar_Phase r = ReleasePaused) || release_terminal (ar_Phase r) then mret done_
  else
    current ← get_release (ar_Name r);
    _ ← patch_release current (with_release_phase current ReleasePaused (ar_Conditions current));
    mret done_.

Definition setReleasePending (r : AgentRelease) : api Result :=
  current ← get_release (ar_Name r);
  _ ← patch_release current (with_release_status current ReleasePending (ar_Generation r) (ar_Version r) (ar_TargetNodes current)
    (ar_UpdatedNodes current) (ar_InFlightNodes current) (ar_NodeStatuses current) (ar_Conditions current));
  mret done_.

(** ** Dispatch *)

(** A node that may get the update request now. *)
Definition candidate (r : AgentRelease) (n : FleetNode) (s : AgentReleaseNodeStatus) : bool :=
  negb (bool_decide (ns_Phase s = Updated)) && negb (bool_decide (ns_Phase s = UpdateFailed)) && negb (requested_for r n) &&
  negb (bool_decide (ns_Phase s = Updating) && bool_decide (fn_AgentVersion n = ar_Version r)).

(** The status of a node that got it: the first entry of its name. *)
Fixpoint mark_dispatched (n : FleetNode) (now : Z) (statuses : list AgentReleaseNodeStatus) : list AgentReleaseNodeStatus :=
  match statuses with
  | [] => []
  | s :: statuses =>
      if bool_decide (ns_Name s = fn_Name n)
      then with_node_status s (ns_ObservedVersion s) Updating (ns_Reason s) (Some now) (ns_LastTransitionTime s)
             ("dispatched update to " +:+ fn_OS n +:+ "/" +:+ fn_Arch n) :: statuses
      else s :: mark_dispatched n now statuses
  end.

Fixpoint dispatch_loop (r : AgentRelease) (now : Z) (nsMap : gmap string AgentReleaseNodeStatus) (capacity dispatched : Z)
    (statuses : list AgentReleaseNodeStatus) (nodes : list FleetNode) : api (list AgentReleaseNodeStatus) :=
  match nodes with
  | [] => mret statuses
  | n :: nodes =>
      if capacity <=? dispatched then mret statuses
      else
        let skip := dispatch_loop r now nsMap capacity dispatched statuses nodes in
        if negb (candidate r n (default (zero_status EmptyString) (nsMap !! fn_Name n))) then skip
        else
          match findArtifact (ar_Artifacts r) (fn_OS n) (fn_Arch n) with
          | None => skip
          | Some artifact =>
              got ← try (get_node (fn_Name n));
              match got with
              | Err NotFound => skip
              | Err x => fail x
              | Ok current =>
                  _ ← patch_node false current (with_updateRequest current
                    (Some {| ur_TargetVersion := ar_Version r; ur_URL := aa_URL artifact; ur_SHA256 := aa_SHA256 artifact |}));
                  dispatch_loop r now nsMap capacity (dispatched + 1) (mark_dispatched n now statuses) nodes
              end
          end
  end.

Definition dispatchCandidates (r : AgentRelease) (nodes : list FleetNode) (statuses : list AgentReleaseNodeStatus) (capacity now : Z) :
    api (list AgentReleaseNodeStatus) :=
  dispatch_loop r now (by_name statuses) capacity 0 statuses nodes.

(** ** The pass *)

Definition requeue_of (r : AgentRelease) : Result :=
  let secs := ar_MinHealthySeconds r * second in
  let secs := if secs <=? 0 then 30 * second else secs in
  Z.min secs (Z.quot FleetNodeHeartbeatTimeout 2).

(** Approved and with room: requests, and the statuses that say so. *)
Definition advance (r : AgentRelease) (nodes : list FleetNode) (now : Z) (a : tally) : api unit :=
  let capacity := ar_Concurrency r - Z.of_nat (length (ta_inFlight a)) in
  if 0 <? capacity then
    statuses ← dispatchCandidates r nodes (ta_statuses a) capacity now;
    patchCounts r (wrap32 (Z.of_nat (length nodes))) (wrap32 (ta_updated a))
      (map ns_Name (List.filter (fun s => bool_decide (ns_Phase s = Updating)) statuses)) statuses
  else mret tt.

Definition reconcileActive (fmt_timeout : Z -> Z -> string) (r : AgentRelease) : api Result :=
  now ← the_time;
  nodes ← resolveTargetNodes r;
  a ← computeNodeStatuses fmt_timeout r nodes now;
  let a := prepass r nodes now a in
  let target := wrap32 (Z.of_nat (length nodes)) in
  _ ← patchCounts r target (wrap32 (ta_updated a)) (ta_inFlight a) (ta_statuses a);
  match ta_failed a with
  | nodeName :: _ => haltFailed r nodeName
  | [] =>
      if (0 <? target) && (wrap32 (ta_updated a) =? target) then setSucceeded r
      else if negb (ar_Approved r) then setAwaitingApproval r
      else
        _ ← advance r nodes now a;
        _ ← setInProgress r;
        mret (requeue_of r)
  end.

(** [AgentReleaseReconciler.Reconcile]. *)
Definition ReconcileRelease (fmt_timeout : Z -> Z -> string) (name : string) : api Result :=
  got ← try (get_release name);
  match got with
  | Err NotFound => mret done_
  | Err x => fail x
  | Ok r =>
      if ar_Paused r then setPaused r
      else if bool_decide (ar_Phase r = ReleaseUnset) then setReleasePending r
      else if release_terminal (ar_Phase r) then mret done_
      else reconcileActive fmt_timeout r
  end.

(** The releases a change of a node re-enqueues. *)
Definition releaseEnqueues (releases : list AgentRelease) (n : FleetNode) : list string :=
  map ar_Name (List.filter (fun r => negb (release_terminal (ar_Phase r)) && bool_decide (ar_AgentKind r = fn_AgentKind n) &&
    match ar_Selector r with None => true | Some None => false | Some (Some matches) => matches (fn_Labels n) end) releases).
