(* ===== verification/ForemanMachine.v ===== *)
(** * Foreman: the cluster as a machine

    The scheduler's passes, the agents, the FleetNode controller and the users as steps on
    one cluster, the invariant of these steps, and a small logic for programs of the API
    that others interrupt between two calls. *)

From stdpp Require Import base strings list gmap sorting relations.
From Stdlib Require Import ZArith Lia Bool Ascii.
From S2P Require Import Prelude GoStrings GoFloat GoStrconv GoJson RouterConfig Usage Foreman ForemanTasks ForemanNodes ForemanRelease.

(** ** Steps *)

(** The task runs in the agent's process and not in a Job of its own. *)
Definition in_process (c : Cluster) (t : AgenticTask) : bool :=
  match agent_name t with
  | None => true
  | Some name => match c_agents c !! (tk_Namespace t, name) with Some a => negb (job_mode a) | None => true end
  end.

(** The task holds the node it is assigned to. *)
Definition on_node (c : Cluster) (t : AgenticTask) (n : string) : Prop :=
  holdsInFlightSlot (tk_Phase t) = true /\ in_process c t = true /\ tk_AssignedNode t = n.

Definition task_key (t : AgenticTask) : string * string := (tk_Namespace t, tk_Name t).

(** What runs beside the scheduler: an agent's heartbeat, its claim of a task scheduled on
    it, the outcome of a run, the recovery of a task after a restart, and a pass of the
    FleetNode or of the AgentRelease controller.  Any of their calls may fail. *)
Inductive other_step : Cluster -> Cluster -> Prop :=
| step_heartbeat c r phase now fault :
    other_step c (effect (PatchHeartbeat r phase) (alone now fault) c)
| step_claim c t now fault :
    c_tasks c !! task_key t = Some t -> tk_Phase t = PhaseScheduled -> tk_AssignedNode t <> EmptyString ->
    other_step c (effect (claim (tk_AssignedNode t) t) (alone now fault) c)
| step_finish c n t o accepted complaint now fault :
    n <> EmptyString ->
    other_step c (effect (patchTerminal n t o accepted complaint) (alone now fault) c)
| step_recover c t now fault :
    c_tasks c !! task_key t = Some t -> tk_Phase t = PhaseRunning -> tk_AssignedNode t <> EmptyString ->
    other_step c (effect (resetOrphanedTask (tk_AssignedNode t) t) (alone now fault) c)
| step_node_pass c n now fault :
    other_step c (effect (ReconcileNode n) (alone now fault) c)
| step_release_pass c fmt_timeout name now fault :
    other_step c (effect (ReconcileRelease fmt_timeout name) (alone now fault) c).

(** The scheduler reads what is live, and the others may act before each of its calls. *)
Definition interrupted (e : env) : Prop :=
  (forall n, en_view e n = None) /\ forall n c, rtc other_step c (en_meanwhile e n c).

(** A node is registered when no task is running on one of its name. *)
Inductive step (fmt_time : Z -> string) : Cluster -> Cluster -> Prop :=
| step_task_pass c ns name e : interrupted e -> step fmt_time c (effect (Reconcile fmt_time ns name) e c)
| step_other c c' : other_step c c' -> step fmt_time c c'
| step_register c r now fault :
    (forall k t, c_tasks c !! k = Some t -> ~ on_node c t (rg_NodeName r)) ->
    step fmt_time c (effect (Upsert r) (alone now fault) c)
| step_create c t :
    c_tasks c !! task_key t = None -> ContainsByte (tk_Namespace t) "/"%char = false ->
    tk_Phase t = PhaseUnset -> tk_AssignedNode t = EmptyString ->
    step fmt_time c (set_tasks c (<[task_key t := t]> (c_tasks c)))
| step_delete c k : step fmt_time c (set_tasks c (delete k (c_tasks c))).

(** The cluster before the first task and the first node. *)
Definition fresh_cluster (agents : gmap (string * string) Agent) : Cluster :=
  {| c_tasks := ∅; c_nodes := ∅; c_agents := agents; c_releases := ∅; c_revision := 0 |}.

Definition agents_named (agents : gmap (string * string) Agent) : Prop :=
  forall k a, agents !! k = Some a -> k = (ag_Namespace a, ag_Name a).

(** ** The invariant *)

(** The tasks that hold a slot of an Agent. *)
Definition counted (ns name : string) (t : AgenticTask) : bool :=
  bool_decide (tk_Namespace t = ns) && bool_decide (tk_AgentRef t = Some name) && holdsInFlightSlot (tk_Phase t).

Definition holders (c : Cluster) (ns name : string) : gset (string * string) :=
  dom (filter (fun kt => counted ns name kt.2 = true) (c_tasks c)).

Definition waiting (p : AgenticTaskPhase) : bool := match p with PhaseUnset | PhasePending => true | _ => false end.

Record inv (c : Cluster) : Prop := {
  inv_agents : agents_named (c_agents c);
  inv_tasks : forall k t, c_tasks c !! k = Some t -> k = task_key t /\ ContainsByte (tk_Namespace t) "/"%char = false;
  inv_waiting : forall k t, c_tasks c !! k = Some t -> waiting (tk_Phase t) = true -> tk_AssignedNode t = EmptyString;
  inv_nodes : forall n x, c_nodes c !! n = Some x -> fn_Name x = n /\ (fn_ResourceVersion x <= c_revision c)%nat;
  inv_booked : forall k t n x, c_tasks c !! k = Some t -> on_node c t n -> c_nodes c !! n = Some x -> fn_CurrentTask x = taskKey t;
  inv_single : forall k k' t t' n, c_tasks c !! k = Some t -> c_tasks c !! k' = Some t' -> on_node c t n -> on_node c t' n -> k = k';
  inv_bound : forall ns name a limit, c_agents c !! (ns, name) = Some a -> name <> EmptyString -> ag_MaxConcurrentTasks a = Some limit ->
    Z.of_nat (size (holders c ns name)) <= Z.max 0 limit;
}.

(** What the others leave alone: who the tasks are, those that no node was given, and the
    reservations of those; no task starts to hold a node, and a node that changed has a
    new version. *)
Definition unreserved (c : Cluster) (cur : string) : Prop :=
  forall k t, c_tasks c !! k = Some t -> taskKey t = cur -> tk_AssignedNode t = EmptyString -> terminal (tk_Phase t) = true.

Definition same_spec (t t' : AgenticTask) : Prop :=
  tk_Namespace t' = tk_Namespace t /\ tk_Name t' = tk_Name t /\ tk_AgentRef t' = tk_AgentRef t.

Definition task_calm (t t' : AgenticTask) : Prop :=
  same_spec t t' /\ (tk_AssignedNode t = EmptyString -> t' = t) /\
  (holdsInFlightSlot (tk_Phase t') = true -> holdsInFlightSlot (tk_Phase t) = true /\ tk_AssignedNode t' = tk_AssignedNode t).

Record calm (c c' : Cluster) : Prop := {
  calm_agents : c_agents c' = c_agents c;
  calm_revision : (c_revision c <= c_revision c')%nat;
  calm_back : forall k t', c_tasks c' !! k = Some t' -> exists t, c_tasks c !! k = Some t /\ task_calm t t';
  calm_forth : forall k t, c_tasks c !! k = Some t -> exists t', c_tasks c' !! k = Some t' /\ task_calm t t';
  calm_nodes : forall n x', c_nodes c' !! n = Some x' -> exists x, c_nodes c !! n = Some x /\
    (x' = x \/ (c_revision c < fn_ResourceVersion x')%nat) /\ (fn_CurrentTask x' = fn_CurrentTask x \/ unreserved c (fn_CurrentTask x));
}.

(** ** Keys *)

Lemma taskKey_split t : ContainsByte (tk_Namespace t) "/"%char = false -> splitNamespacedName (taskKey t) = Some (task_key t).
Proof. intros H. apply CutByte_app, H. Qed.

Lemma taskKey_inj t t' :
  ContainsByte (tk_Namespace t) "/"%char = false -> ContainsByte (tk_Namespace t') "/"%char = false ->
  taskKey t = taskKey t' -> task_key t = task_key t'.
Proof. intros H%taskKey_split H'%taskKey_split Heq. rewrite Heq in H. congruence. Qed.

Lemma taskKey_nonempty t : taskKey t <> EmptyString.
Proof. unfold taskKey. by destruct (tk_Namespace t). Qed.

(** Tasks of the same key are the same task. *)
Lemma inv_key_inj c k t k' t' :
  inv c -> c_tasks c !! k = Some t -> c_tasks c !! k' = Some t' -> taskKey t = taskKey t' -> k = k'.
Proof.
  intros Hi Ht Ht' Hk. destruct (inv_tasks c Hi _ _ Ht) as [-> Hs]. destruct (inv_tasks c Hi _ _ Ht') as [-> Hs'].
  by apply taskKey_inj.
Qed.

Lemma waiting_not_held p : waiting p = true -> holdsInFlightSlot p = false.
Proof. by destruct p. Qed.

Lemma same_spec_refl t : same_spec t t.
Proof. done. Qed.

Lemma in_process_spec c c' t t' : c_agents c' = c_agents c -> same_spec t t' -> in_process c' t' = in_process c t.
Proof. intros Ha (Hn & _ & Hr). unfold in_process, agent_name. by rewrite Ha, Hn, Hr. Qed.

Lemma taskKey_spec t t' : same_spec t t' -> taskKey t' = taskKey t /\ task_key t' = task_key t.
Proof. intros (Hn & Hm & _). unfold taskKey, task_key. by rewrite Hn, Hm. Qed.

Lemma on_node_back c c' t t' n : c_agents c' = c_agents c -> task_calm t t' -> on_node c' t' n -> on_node c t n.
Proof.
  intros Ha (Hs & _ & Hf) (Hh & Hp & Hn). destruct (Hf Hh) as [Hh' Hn']. rewrite (in_process_spec _ _ _ _ Ha Hs) in Hp.
  split; [done|split; [done|congruence]].
Qed.

Lemma task_calm_refl t : task_calm t t.
Proof. done. Qed.
Lemma task_calm_trans t1 t2 t3 : task_calm t1 t2 -> task_calm t2 t3 -> task_calm t1 t3.
Proof.
  intros ((Hn & Hm & Hr) & He & Hf) ((Hn' & Hm' & Hr') & He' & Hf'). split; [split; [congruence|split; congruence]|split].
  - intros H. pose proof (He H) as ->. by apply He'.
  - intros H. destruct (Hf' H) as [H1 H2]. destruct (Hf H1) as [H3 H4]. split; [done|congruence].
Qed.

Lemma calm_refl c : calm c c.
Proof. constructor; [done|done|eauto using task_calm_refl|eauto using task_calm_refl|]. intros n x H. exists x. auto. Qed.

Lemma calm_trans c1 c2 c3 : calm c1 c2 -> calm c2 c3 -> calm c1 c3.
Proof.
  intros H H'. constructor.
  - rewrite (calm_agents _ _ H'). apply H.
  - etrans; [apply H|apply H'].
  - intros k t3 H3. destruct (calm_back _ _ H' _ _ H3) as (t2 & H2 & Hc). destruct (calm_back _ _ H _ _ H2) as (t1 & H1 & Hc').
    eauto using task_calm_trans.
  - intros k t1 H1. destruct (calm_forth _ _ H _ _ H1) as (t2 & H2 & Hc). destruct (calm_forth _ _ H' _ _ H2) as (t3 & H3 & Hc').
    eauto using task_calm_trans.
  - intros n x3 H3. destruct (calm_nodes _ _ H' _ _ H3) as (x2 & H2 & Hv & Hr). destruct (calm_nodes _ _ H _ _ H2) as (x1 & H1 & Hv' & Hr').
    exists x1. split; [done|]. pose proof (calm_revision _ _ H) as Hrev. split.
    + destruct Hv as [-> |Hv]; [done|right; lia].
    + destruct Hr' as [Hr'|Hr']; [|by right]. destruct Hr as [Hr|Hr]; [left; congruence|right].
      rewrite <- Hr'. intros k t Ht Hk Hn. destruct (calm_forth _ _ H _ _ Ht) as (t2 & Ht2 & (_ & He & _)). rewrite (He Hn) in Ht2. eauto.
Qed.

(** ** Assertions that outlast an interruption *)

(** No task in a process is on the node. *)
Definition free (n : string) (c : Cluster) : Prop := forall k t, c_tasks c !! k = Some t -> ~ on_node c t n.

(** The task is as it was read. *)
Definition unchanged (t : AgenticTask) (c : Cluster) : Prop := c_tasks c !! task_key t = Some t.

(** A node that was listed: while its version is the live one it is the live one, and it
    names the task that is on it. *)
Definition copy (x : FleetNode) (c : Cluster) : Prop :=
  (fn_ResourceVersion x <= c_revision c)%nat /\
  (forall x', c_nodes c !! fn_Name x = Some x' -> fn_ResourceVersion x' = fn_ResourceVersion x -> x' = x) /\
  forall k t, c_tasks c !! k = Some t -> on_node c t (fn_Name x) -> fn_CurrentTask x = taskKey t.

(** The node, if it is still there, is reserved for the task. *)
Definition held (t : AgenticTask) (n : string) (c : Cluster) : Prop :=
  forall x, c_nodes c !! n = Some x -> fn_CurrentTask x = taskKey t.

(** The Agent of the task has room for it. *)
Definition room (t : AgenticTask) (c : Cluster) : Prop :=
  forall name a limit, agent_name t = Some name -> c_agents c !! (tk_Namespace t, name) = Some a -> ag_MaxConcurrentTasks a = Some limit ->
  Z.of_nat (size (holders c (tk_Namespace t) name ∖ {[task_key t]})) < limit.

Definition keeps_agents (agents : gmap (string * string) Agent) (c : Cluster) : Prop := c_agents c = agents.

Lemma calm_free n c c' : calm c c' -> free n c -> free n c'.
Proof. intros H Hf k t' Ht' Ho. destruct (calm_back _ _ H _ _ Ht') as (t & Ht & Hc). apply (Hf _ _ Ht). eapply on_node_back, Ho; [apply H|done]. Qed.

Lemma calm_unchanged t c c' : tk_AssignedNode t = EmptyString -> calm c c' -> unchanged t c -> unchanged t c'.
Proof. intros Hn H Hu. destruct (calm_forth _ _ H _ _ Hu) as (t' & Ht' & _ & He & _). by rewrite (He Hn) in Ht'. Qed.

Lemma calm_copy x c c' : calm c c' -> copy x c -> copy x c'.
Proof.
  intros H (Hv & Hx & Ho). pose proof (calm_revision _ _ H). split; [lia|split].
  - intros x' Hx' Heq. destruct (calm_nodes _ _ H _ _ Hx') as (x1 & Hx1 & [-> |Hlt] & _); [by apply Hx|lia].
  - intros k t' Ht' Ho'. destruct (calm_back _ _ H _ _ Ht') as (t & Ht & Hc). rewrite (proj1 (taskKey_spec _ _ (proj1 Hc))).
    eapply Ho, on_node_back, Ho'; [done|apply H|done].
Qed.

Lemma calm_held t n c c' :
  tk_AssignedNode t = EmptyString -> terminal (tk_Phase t) = false -> calm c c' -> unchanged t c -> held t n c -> held t n c'.
Proof.
  intros Hn Hp H Hu Hh x' Hx'. destruct (calm_nodes _ _ H _ _ Hx') as (x & Hx & _ & [-> |Hr]); [by apply Hh|].
  rewrite (Hh _ Hx) in Hr. rewrite (Hr _ _ Hu eq_refl Hn) in Hp. done.
Qed.

Lemma elem_of_holders c ns name k : k ∈ holders c ns name <-> exists t, c_tasks c !! k = Some t /\ counted ns name t = true.
Proof.
  unfold holders. rewrite elem_of_dom. split.
  - intros [t [Ht Hc]%map_lookup_filter_Some]. eauto.
  - intros (t & Ht & Hc). exists t. by apply map_lookup_filter_Some.
Qed.

Lemma counted_true ns name t :
  counted ns name t = true <-> tk_Namespace t = ns /\ tk_AgentRef t = Some name /\ holdsInFlightSlot (tk_Phase t) = true.
Proof. unfold counted. rewrite !andb_true_iff, !bool_decide_eq_true. tauto. Qed.

Lemma calm_holders c c' ns name : calm c c' -> holders c' ns name ⊆ holders c ns name.
Proof.
  intros H k (t' & Ht' & (Hn & Hr & Hh)%counted_true)%elem_of_holders. apply elem_of_holders.
  destruct (calm_back _ _ H _ _ Ht') as (t & Ht & (Hs1 & Hs2 & Hs3) & _ & Hf). exists t. split; [done|].
  apply counted_true. destruct (Hf Hh). by rewrite <- Hs1, <- Hs3.
Qed.

Lemma calm_room t c c' : calm c c' -> room t c -> room t c'.
Proof.
  intros H Hr name a limit Hn Ha Hl. rewrite (calm_agents _ _ H) in Ha. eapply Z.le_lt_trans; [|by eapply Hr].
  apply inj_le, subseteq_size. pose proof (calm_holders _ _ (tk_Namespace t) name H). set_solver.
Qed.

(** ** Programs that are interrupted *)

Section Logic.
Context (rely : Cluster -> Cluster -> Prop) (e : env).

Definition stable (P : Cluster -> Prop) : Prop := forall c c', rely c c' -> P c -> P c'.

Definition surroundings : Prop :=
  (forall n, en_view e n = None) /\ forall n c, inv c -> rely c (en_meanwhile e n c) /\ inv (en_meanwhile e n c).

(** From a cluster with [P] the program keeps the invariant and ends with [Q]. *)
Definition triple {A} (P : Cluster -> Prop) (m : api A) (Q : result api_error A -> Cluster -> Prop) : Prop :=
  forall w, inv (wd_live w) -> P (wd_live w) -> inv (wd_live (m e w).1) /\ Q (m e w).2 (wd_live (m e w).1).

Lemma triple_ret {A} (a : A) P (Q : result api_error A -> Cluster -> Prop) : (forall c, inv c -> P c -> Q (Ok a) c) -> triple P (mret a) Q.
Proof using. intros H w Hi Hp. split; [done|by apply H]. Qed.

Lemma triple_fail {A} x P (Q : result api_error A -> Cluster -> Prop) : (forall c, inv c -> P c -> Q (Err x) c) -> triple P (fail x) Q.
Proof using. intros H w Hi Hp. split; [done|by apply H]. Qed.

Lemma triple_now P : triple P the_time (fun r c => r = Ok (en_now e) /\ P c).
Proof using. by intros w Hi Hp. Qed.

Lemma triple_timestamp P : triple P timestamp (fun r c => r = Ok (wire (en_now e)) /\ P c).
Proof using. by intros w Hi Hp. Qed.

Lemma triple_bind {A B} (m : api A) (f : A -> api B) P R Q :
  triple P m R -> (forall a, triple (R (Ok a)) (f a) Q) -> (forall x c, inv c -> R (Err x) c -> Q (Err x) c) -> triple P (m ≫= f) Q.
Proof using.
  intros Hm Hf He w Hi Hp. specialize (Hm w Hi Hp). unfold mbind, api_bind. destruct (m e w) as [w' [a|x]]; cbn [fst snd] in *.
  - destruct Hm as [Hi' Hr]. by apply Hf.
  - destruct Hm as [Hi' Hr]. split; [done|by apply He].
Qed.

Lemma triple_try {A} (m : api A) P Q : triple P m (fun r => Q (Ok r)) -> triple P (try m) Q.
Proof using. intros Hm w Hi Hp. specialize (Hm w Hi Hp). unfold try. by destruct (m e w) as [w' r]. Qed.

Lemma triple_try_bind {A B} (m : api A) (f : result api_error A -> api B) P R Q :
  triple P m R -> (forall r, triple (R r) (f r) Q) -> triple P (try m ≫= f) Q.
Proof using.
  intros Hm Hf w Hi Hp. specialize (Hm w Hi Hp). unfold mbind, api_bind, try. destruct (m e w) as [w' r]; cbn [fst snd] in *.
  destruct Hm as [Hi' Hr]. by apply Hf.
Qed.

Lemma triple_weaken {A} (m : api A) (P P' : Cluster -> Prop) (Q Q' : result api_error A -> Cluster -> Prop) :
  triple P m Q -> (forall c, inv c -> P' c -> P c) -> (forall r c, inv c -> Q r c -> Q' r c) -> triple P' m Q'.
Proof using. intros Hm Hp Hq w Hi H. destruct (Hm w Hi (Hp _ Hi H)) as [Hi' H']. split; [done|by apply Hq]. Qed.

(** A fact that follows from the assertion. *)
Lemma triple_pure {A} (m : api A) (P : Cluster -> Prop) (Q : result api_error A -> Cluster -> Prop) (F : Prop) :
  (forall c, inv c -> P c -> F) -> (F -> triple P m Q) -> triple P m Q.
Proof using. intros Hf Hm w Hi Hp. by apply Hm; [eapply Hf| |]. Qed.

Lemma triple_call {A} (f : Cluster -> Cluster -> Cluster * result api_error A) P (Q : result api_error A -> Cluster -> Prop) :
  surroundings -> stable P -> (forall c, inv c -> P c -> Q (Err Transient) c) ->
  (forall c, inv c -> P c -> inv (f c c).1 /\ Q (f c c).2 (f c c).1) -> triple P (call f) Q.
Proof using.
  intros [Hv Hm] Hs Hx Hf w Hi Hp. unfold call. destruct (Hm (wd_calls w) _ Hi) as [Hr Hi']. pose proof (Hs _ _ Hr Hp) as Hp'.
  rewrite Hv. cbn [default from_option id]. set (live := en_meanwhile e (wd_calls w) (wd_live w)) in *.
  destruct (en_fault e (wd_calls w)); [split; [done|by apply Hx]|]. specialize (Hf live Hi' Hp'). by destruct (f live live).
Qed.

(** A read that found an object found the live one. *)
Lemma triple_get_task ns name P :
  surroundings -> stable P ->
  triple P (get_task ns name) (fun r c => P c /\ match r with Ok t => c_tasks c !! (ns, name) = Some t | Err NotFound => c_tasks c !! (ns, name) = None | Err _ => True end).
Proof using. intros He Hs. apply triple_call; [done|done|done|]. intros c Hi Hp. cbn. by destruct (c_tasks c !! (ns, name)). Qed.

Lemma triple_get_node name P :
  surroundings -> stable P ->
  triple P (get_node name) (fun r c => P c /\ match r with Ok x => c_nodes c !! name = Some x | Err NotFound => c_nodes c !! name = None | Err _ => True end).
Proof using. intros He Hs. apply triple_call; [done|done|done|]. intros c Hi Hp. cbn. by destruct (c_nodes c !! name). Qed.

Lemma triple_get_agent ns name P :
  surroundings -> stable P ->
  triple P (get_agent ns name) (fun r c => P c /\ match r with Ok a => c_agents c !! (ns, name) = Some a | Err NotFound => c_agents c !! (ns, name) = None | Err _ => True end).
Proof using. intros He Hs. apply triple_call; [done|done|done|]. intros c Hi Hp. cbn. by destruct (c_agents c !! (ns, name)). Qed.

Lemma triple_list_nodes P :
  surroundings -> stable P -> triple P list_nodes (fun r c => P c /\ match r with Ok l => l = (map_to_list (c_nodes c)).*2 | Err _ => True end).
Proof using. intros He Hs. by apply triple_call. Qed.

Lemma triple_list_tasks ns P :
  surroundings -> stable P ->
  triple P (list_tasks ns) (fun r c => P c /\
    match r with Ok l => l = List.filter (fun t => bool_decide (tk_Namespace t = ns)) (map_to_list (c_tasks c)).*2 | Err _ => True end).
Proof using. intros He Hs. by apply triple_call. Qed.

(** A write keeps the invariant when each object it may meet does. *)
Lemma triple_patch_task base new P (Q : result api_error AgenticTask -> Cluster -> Prop) :
  surroundings -> stable P -> (forall x c, inv c -> P c -> Q (Err x) c) ->
  (forall c t, inv c -> P c -> c_tasks c !! task_key base = Some t ->
    let t' := merge_task base new t in let c' := set_tasks c (<[task_key base := t']> (c_tasks c)) in inv c' /\ Q (Ok t') c') ->
  triple P (patch_task base new) Q.
Proof using.
  intros He Hs Hx Ht. apply triple_call; [done|done|eauto|]. intros c Hi Hp. unfold task_key in Ht. cbv beta zeta.
  destruct (c_tasks c !! (tk_Namespace base, tk_Name base)) eqn:Hl; cbn [fst snd]; [by apply Ht|auto].
Qed.

Lemma triple_patch_node lock base new P (Q : result api_error FleetNode -> Cluster -> Prop) :
  surroundings -> stable P -> (forall x c, inv c -> P c -> Q (Err x) c) ->
  (forall c x, inv c -> P c -> c_nodes c !! fn_Name base = Some x -> (lock = true -> fn_ResourceVersion x = fn_ResourceVersion base) ->
    let m := merge_node base new x in let m' := with_version m (S (c_revision c)) in
    let c' := set_nodes c (<[fn_Name base := m']> (c_nodes c)) in
    (m = x -> Q (Ok x) c) /\ inv c' /\ Q (Ok m') c') ->
  triple P (patch_node lock base new) Q.
Proof using.
  intros He Hs Hx Hn. apply triple_call; [done|done|eauto|]. intros c Hi Hp. cbv beta zeta.
  destruct (c_nodes c !! fn_Name base) as [x|] eqn:Hl; [|cbn; auto].
  destruct (bool_decide_reflect (fn_ResourceVersion x = fn_ResourceVersion base)) as [Hv|Hv]; destruct lock; cbn [andb negb fst snd];
    try (cbn; by auto); (destruct (Hn c x Hi Hp Hl ltac:(done)) as (H1 & H2 & H3)).
  all: destruct (bool_decide_reflect (merge_node base new x = x)) as [Hm|Hm]; cbn [fst snd]; auto.
Qed.
End Logic.
