(* ===== verification/ForemanSafety.v ===== *)
(** * Foreman: one task per node, and the bound of an Agent

    Every step of the machine keeps the invariant: the writes first, then the programs of
    the agents and of the FleetNode controller, then a pass of the scheduler with all of
    them acting between its calls. *)

From stdpp Require Import base strings list gmap sorting relations.
From Stdlib Require Import ZArith Lia Bool Ascii.
From S2P Require Import Prelude GoStrings GoFloat GoStrconv GoJson RouterConfig Usage Foreman ForemanTasks ForemanNodes ForemanRelease ForemanMachine.

(** ** Writes *)

Lemma lookup_write {K A} `{Countable K} (m : gmap K A) k k' a b : <[k := a]> m !! k' = Some b -> k' = k /\ b = a \/ k' <> k /\ m !! k' = Some b.
Proof. intros [[-> ->]|[Hk Hm]]%lookup_insert_Some; auto. Qed.

Section WriteTask.
Context (c : Cluster) (k : string * string) (t t' : AgenticTask).
Hypothesis Hi : inv c.
Hypothesis Ht : c_tasks c !! k = Some t.
Hypothesis Hs : same_spec t t'.
Let c' := set_tasks c (<[k := t']> (c_tasks c)).

Lemma holders_write ns name : counted ns name t' = false \/ holdsInFlightSlot (tk_Phase t) = true -> holders c' ns name ⊆ holders c ns name.
Proof using Ht Hs.
  intros Hor k2 (t2 & H2 & Hc)%elem_of_holders. apply elem_of_holders. apply lookup_write in H2 as [[-> ->]|[_ H2]]; [|by eauto].
  destruct Hor as [Hor|Hor]; [congruence|]. apply counted_true in Hc as (Hn & Hr & _). destruct Hs as (Hs1 & _ & Hs3).
  exists t. split; [done|]. apply counted_true. split; [congruence|split; [congruence|done]].
Qed.

Lemma bound_write :
  (holdsInFlightSlot (tk_Phase t') = true -> holdsInFlightSlot (tk_Phase t) = true \/ room t c) ->
  forall ns name a limit, c_agents c' !! (ns, name) = Some a -> name <> EmptyString -> ag_MaxConcurrentTasks a = Some limit ->
  Z.of_nat (size (holders c' ns name)) <= Z.max 0 limit.
Proof using Hi Ht Hs.
  intros Hroom ns name a limit Ha Hne Hl. change (c_agents c') with (c_agents c) in Ha.
  pose proof (inv_bound c Hi ns name a limit Ha Hne Hl) as Hb.
  assert (Hle : holders c' ns name ⊆ holders c ns name -> Z.of_nat (size (holders c' ns name)) <= Z.max 0 limit).
  { intros Hsub%subseteq_size. lia. }
  destruct (counted ns name t') eqn:Hc; [|apply Hle, holders_write; by left].
  pose proof Hc as (Hn & Hr & Hh)%counted_true. destruct (Hroom Hh) as [Hold|Hr']; [apply Hle, holders_write; by right|].
  destruct Hs as (Hs1 & Hs2 & Hs3). destruct (inv_tasks c Hi _ _ Ht) as [Hk _].
  assert (Hlt : Z.of_nat (size (holders c ns name ∖ {[k]})) < limit).
  { rewrite Hk, <- Hn, Hs1. eapply Hr'; [|rewrite <- Hs1, Hn; done|done]. unfold agent_name. rewrite <- Hs3, Hr. by destruct name. }
  assert (Hsub : holders c' ns name ⊆ holders c ns name ∖ {[k]} ∪ {[k]}).
  { intros k2 (t2 & H2 & Hc2)%elem_of_holders. apply lookup_write in H2 as [[-> ->]|[Hk2 H2]]; [set_solver|].
    apply elem_of_union_l, elem_of_difference. split; [apply elem_of_holders; eauto|set_solver]. }
  apply subseteq_size in Hsub. rewrite size_union in Hsub by set_solver. rewrite size_singleton in Hsub. lia.
Qed.

Lemma inv_set_task :
  (waiting (tk_Phase t') = true -> tk_AssignedNode t' = EmptyString) ->
  (forall n, on_node c t' n -> on_node c t n \/
    (forall k2 t2, c_tasks c !! k2 = Some t2 -> k2 <> k -> ~ on_node c t2 n) /\ held t n c) ->
  (holdsInFlightSlot (tk_Phase t') = true -> holdsInFlightSlot (tk_Phase t) = true \/ room t c) ->
  inv c'.
Proof using Hi Ht Hs.
  intros Hw Ho Hroom. destruct (taskKey_spec _ _ Hs) as [Hkey Hkey'].
  assert (Honly : forall n k2 t2, on_node c t' n -> c_tasks c !! k2 = Some t2 -> on_node c t2 n -> k2 = k).
  { intros n k2 t2 [Hn|[Hn _]]%Ho H2 Ho2; [by eapply (inv_single c Hi)|]. destruct (decide (k2 = k)) as [|Hne]; [done|]. by destruct (Hn k2 t2 H2 Hne). }
  constructor.
  - apply Hi.
  - intros k2 t2 [[-> ->]|[_ H2]]%lookup_write; [|by apply (inv_tasks c Hi)]. destruct (inv_tasks c Hi _ _ Ht) as [-> Hsl].
    by rewrite Hkey', (proj1 Hs).
  - intros k2 t2 [[-> ->]|[_ H2]]%lookup_write; [done|by apply (inv_waiting c Hi k2)].
  - intros n x Hx. destruct (inv_nodes c Hi n x Hx). split; [done|]. cbn. lia.
  - intros k2 t2 n x [[-> ->]|[_ H2]]%lookup_write Hon Hx; [|by eapply (inv_booked c Hi)]. rewrite Hkey.
    destruct (Ho n Hon) as [Hon'|[_ Hh]]; [by eapply (inv_booked c Hi)|by apply Hh].
  - intros k1 k2 t1 t2 n [[-> ->]|[Hk1 H1]]%lookup_write [[-> ->]|[Hk2 H2]]%lookup_write Ho1 Ho2; [done| | |].
    + symmetry. by eapply Honly.
    + by eapply Honly.
    + by eapply (inv_single c Hi k1 k2).
  - apply bound_write, Hroom.
Qed.

Lemma calm_set_task : task_calm t t' -> calm c c'.
Proof using Ht.
  intros Hc. constructor; cbn; [done|lia| | |].
  - intros k2 t2 [[-> ->]|[_ H2]]%lookup_write; eauto using task_calm_refl.
  - intros k2 t2 H2. destruct (decide (k = k2)) as [<-|Hne].
    + rewrite lookup_insert_eq. assert (t2 = t) as -> by congruence. eauto.
    + rewrite lookup_insert_ne by done. eauto using task_calm_refl.
  - intros n x Hx. exists x. auto.
Qed.
End WriteTask.

(** A task that does not start to hold a node. *)
Lemma inv_set_task_calm c k t t' :
  inv c -> c_tasks c !! k = Some t -> same_spec t t' ->
  (waiting (tk_Phase t') = true -> tk_AssignedNode t' = EmptyString) ->
  (holdsInFlightSlot (tk_Phase t') = true -> holdsInFlightSlot (tk_Phase t) = true /\ tk_AssignedNode t' = tk_AssignedNode t) ->
  inv (set_tasks c (<[k := t']> (c_tasks c))).
Proof.
  intros Hi Ht Hs Hw Hh. eapply inv_set_task; [done|done|done|done| |].
  - intros n (Ho1 & Ho2 & Ho3). left. destruct (Hh Ho1) as [Hh1 Hh2]. split; [done|]. rewrite <- (in_process_spec c c t t' eq_refl Hs). split; congruence.
  - intros H. left. by apply Hh.
Qed.

Section WriteNode.
Context (c : Cluster) (n : string) (x x' : FleetNode).
Hypothesis Hi : inv c.
Hypothesis Hx : c_nodes c !! n = Some x.
Hypothesis Hn : fn_Name x' = n.
Hypothesis Hv : fn_ResourceVersion x' = S (c_revision c).
Let c' := set_nodes c (<[n := x']> (c_nodes c)).

Lemma inv_set_node : (forall k t, c_tasks c !! k = Some t -> on_node c t n -> fn_CurrentTask x' = taskKey t) -> inv c'.
Proof using Hi Hn Hv.
  intros Ho. constructor; [apply Hi|apply (inv_tasks c Hi)|apply (inv_waiting c Hi)| | |apply (inv_single c Hi)|apply (inv_bound c Hi)].
  - intros m y [[-> ->]|[_ Hy]]%lookup_write; cbn; [split; [done|lia]|]. destruct (inv_nodes c Hi m y Hy). split; [done|lia].
  - intros k t m y Ht Hm [[-> ->]|[_ Hy]]%lookup_write; [by eapply Ho|by eapply (inv_booked c Hi)].
Qed.

Lemma calm_set_node : fn_CurrentTask x' = fn_CurrentTask x \/ unreserved c (fn_CurrentTask x) -> calm c c'.
Proof using Hx Hv.
  intros Ho. constructor; cbn; [done|lia|eauto using task_calm_refl|eauto using task_calm_refl|].
  intros m y [[-> ->]|[_ Hy]]%lookup_write; [exists x; split; [done|split; [right; lia|done]]|exists y; auto].
Qed.
End WriteNode.

Lemma inv_delete_node c n : inv c -> inv (set_nodes c (delete n (c_nodes c))) /\ calm c (set_nodes c (delete n (c_nodes c))).
Proof.
  intros Hi. split.
  - constructor; [apply Hi|apply (inv_tasks c Hi)|apply (inv_waiting c Hi)| | |apply (inv_single c Hi)|apply (inv_bound c Hi)].
    + intros m y [_ Hy]%(lookup_delete_Some (c_nodes c)). destruct (inv_nodes c Hi m y Hy). split; [done|]. cbn. lia.
    + intros k t m y Ht Hm [_ Hy]%(lookup_delete_Some (c_nodes c)). by eapply (inv_booked c Hi).
  - constructor; cbn; [done|lia|eauto using task_calm_refl|eauto using task_calm_refl|].
    intros m y [_ Hy]%(lookup_delete_Some (c_nodes c)). exists y. auto.
Qed.

Lemma inv_set_releases c m : inv c -> inv (set_releases c m) /\ calm c (set_releases c m).
Proof.
  intros Hi. split.
  - constructor; [apply Hi|apply (inv_tasks c Hi)|apply (inv_waiting c Hi)| |apply (inv_booked c Hi)|apply (inv_single c Hi)|apply (inv_bound c Hi)].
    intros n x Hx. destruct (inv_nodes c Hi n x Hx). split; [done|]. cbn. lia.
  - constructor; cbn; [done|lia|eauto using task_calm_refl|eauto using task_calm_refl|]. intros n x Hx. exists x. auto.
Qed.

(** A field of a merge patch. *)
Lemma pick_same {A} `{EqDecision A} (a l : A) : pick a a l = l.
Proof. unfold pick. by rewrite bool_decide_eq_true_2. Qed.
Lemma pick_live {A} `{EqDecision A} (a b : A) : pick a b a = b.
Proof. unfold pick. by case_bool_decide. Qed.
Lemma pick_change {A} `{EqDecision A} (a b l : A) : a <> b -> pick a b l = b.
Proof. intros H. unfold pick. by rewrite bool_decide_eq_false_2. Qed.

Lemma merge_same_spec base new t : same_spec t (merge_task base new t).
Proof. done. Qed.

(** ** What runs beside the scheduler *)

(** Nothing of the task named on the node keeps it. *)
Definition dead (n cur : string) (c : Cluster) : Prop :=
  forall k t, c_tasks c !! k = Some t -> taskKey t = cur ->
  terminal (tk_Phase t) = true \/ tk_AssignedNode t <> EmptyString /\ tk_AssignedNode t <> n.

Lemma dead_unreserved n cur c : dead n cur c -> unreserved c cur.
Proof. intros Hd k t Ht Hk Hn. by destruct (Hd k t Ht Hk) as [H|[H _]]. Qed.

Lemma dead_free n cur c : dead n cur c -> (forall k t, c_tasks c !! k = Some t -> on_node c t n -> cur = taskKey t) -> free n c.
Proof.
  intros Hd Ho k t Ht Hon. pose proof (Ho k t Ht Hon) as Hk. destruct Hon as (Hh & _ & Hn).
  destruct (Hd k t Ht (eq_sym Hk)) as [H|[_ H]]; [by destruct (tk_Phase t)|done].
Qed.

Ltac seq := eapply triple_bind; [| |try done].
Ltac tseq := eapply triple_try_bind.
(** A last call whose answer does not matter. *)
Ltac last R := eapply (triple_bind _ _ _ _ (fun _ => R)); [|by intros a; apply triple_ret|done].

Section Shared.
Context (rely : Cluster -> Cluster -> Prop) (e : env).
Hypothesis He : surroundings rely e.

Lemma triple_taskIsLive cur n P :
  stable rely P -> triple e P (taskIsLive cur n) (fun r c => P c /\ (r = Ok false -> dead n cur c)).
Proof using He.
  intros Hs. unfold taskIsLive. destruct (splitNamespacedName cur) as [[ns name]|] eqn:Hcut.
  - tseq; [apply (triple_get_task rely); done|]. intros [t|x].
    + apply triple_ret. intros c Hi [Hp Ht]. split; [done|]. intros [= Ho] k t' Ht' Hk.
      destruct (inv_tasks c Hi _ _ Ht') as [Hk' Hsl]. pose proof (taskKey_split t' Hsl) as Hcut'. rewrite Hk in Hcut'.
      unfold splitNamespacedName in *. rewrite Hcut in Hcut'. injection Hcut' as -> ->. fold (task_key t') in Ht. rewrite <- Hk' in Ht.
      assert (t' = t) as -> by congruence. unfold occupies in Ho. destruct (terminal (tk_Phase t)); [by left|right].
      cbn in Ho. to_prop. done.
    + destruct x; [apply triple_ret|apply triple_fail..]; intros c Hi [Hp Ht]; (split; [done|]); try done.
      intros _ k t' Ht' Hk. destruct (inv_tasks c Hi _ _ Ht') as [Hk' Hsl]. pose proof (taskKey_split t' Hsl) as Hcut'. rewrite Hk in Hcut'.
      unfold splitNamespacedName in *. rewrite Hcut in Hcut'. injection Hcut' as -> ->. fold (task_key t') in Ht. congruence.
  - apply triple_ret. intros c Hi Hp. split; [done|]. intros _ k t' Ht' Hk. destruct (inv_tasks c Hi _ _ Ht') as [_ Hsl].
    pose proof (taskKey_split t' Hsl) as Hcut'. rewrite Hk in Hcut'. congruence.
Qed.

(** A patch of a node that leaves its reservation. *)
Lemma triple_patch_status lock base new P :
  stable rely P -> (forall c c', calm c c' -> P c -> P c') -> fn_CurrentTask new = fn_CurrentTask base ->
  triple e P (patch_node lock base new) (fun _ => P).
Proof using He.
  intros Hs Hc Hcur. eapply triple_patch_node; [done|done|done|]. intros c x Hi Hp Hx _ m m' c'.
  destruct (inv_nodes c Hi _ _ Hx) as [Hname _].
  assert (Hsame : fn_CurrentTask m' = fn_CurrentTask x) by (cbn; rewrite Hcur; apply pick_same).
  split; [done|split].
  - eapply inv_set_node; [done|done|done|]. intros k t Ht Ho. rewrite Hsame. by eapply (inv_booked c Hi).
  - eapply Hc, Hp. eapply calm_set_node; [done|done|by left].
Qed.
End Shared.

Section Others.
Context (now : Z) (fault : nat -> bool) (c0 : Cluster).
Let e := alone now fault.
Let P : Cluster -> Prop := calm c0.

Lemma alone_surroundings : surroundings eq e.
Proof using. split; [done|]. intros n c Hi. by split. Qed.

Lemma eq_stable Q : stable eq Q.
Proof using. by intros c c' <-. Qed.

Lemma calm_closed c c' : calm c c' -> P c -> P c'.
Proof using. intros H Hp. by eapply calm_trans. Qed.

Hint Resolve alone_surroundings eq_stable calm_closed : core.

Lemma calm_effect {A} (m : api A) (Q : Cluster -> Prop) :
  triple e (fun c => P c /\ Q c) m (fun _ => P) -> inv c0 -> Q c0 -> inv (effect m e c0) /\ calm c0 (effect m e c0).
Proof using. intros Hm Hi Hq. apply (Hm {| wd_live := c0; wd_calls := 0 |} Hi). split; [apply calm_refl|done]. Qed.

Lemma heartbeat_calm r phase : triple e P (PatchHeartbeat r phase) (fun _ => P).
Proof using.
  unfold PatchHeartbeat. seq; [apply (triple_get_node eq); auto| |by intros x c _ [H _]]. intros n. cbv beta iota.
  seq; [apply triple_timestamp| |by intros x c _ [? _]]. intros t.
  last P.
  eapply triple_weaken; [eapply (triple_patch_status eq e alone_surroundings false n _ P)| |]; eauto; tauto.
Qed.

(** A patch of a task that has a node, from the live object. *)
Lemma patch_task_calm base new :
  tk_AssignedNode base <> EmptyString ->
  (waiting (tk_Phase new) = true -> tk_AssignedNode new = EmptyString) ->
  (holdsInFlightSlot (tk_Phase new) = true -> holdsInFlightSlot (tk_Phase base) = true /\ tk_AssignedNode new = tk_AssignedNode base) ->
  triple e (fun c => P c /\ unchanged base c) (patch_task base new) (fun _ => P).
Proof using.
  intros Hn Hw Hh. eapply (triple_patch_task eq); auto; [by intros x c _ [H _]|]. intros c t Hi [Hp Hu] Ht t' c'.
  unfold unchanged in Hu. assert (t = base) as -> by congruence.
  assert (Hph : tk_Phase t' = tk_Phase new) by apply pick_live. assert (Has : tk_AssignedNode t' = tk_AssignedNode new) by apply pick_live.
  rewrite <- Hph, <- Has in Hw, Hh. split.
  - by eapply inv_set_task_calm.
  - eapply calm_closed, Hp. by eapply calm_set_task.
Qed.

Lemma claim_calm t :
  tk_Phase t = PhaseScheduled -> tk_AssignedNode t <> EmptyString ->
  triple e (fun c => P c /\ unchanged t c) (claim (tk_AssignedNode t) t) (fun _ => P).
Proof using.
  intros Hph Hn. unfold claim. seq; [apply triple_timestamp| |by intros x c _ [? [? _]]]. intros s.
  eapply triple_weaken; [eapply patch_task_calm; [done| |]| |]; try done; [by rewrite Hph|by intros c _ [_ H]].
Qed.

Lemma recover_calm t :
  tk_AssignedNode t <> EmptyString ->
  triple e (fun c => P c /\ unchanged t c) (resetOrphanedTask (tk_AssignedNode t) t) (fun _ => P).
Proof using.
  intros Hn. unfold resetOrphanedTask. seq; [apply triple_timestamp| |by intros x c _ [? [? _]]]. intros s.
  last P.
  eapply triple_weaken; [eapply patch_task_calm; [done| |]| |]; try done. by intros c _ [_ H].
Qed.

Lemma finish_calm n t o accepted complaint : n <> EmptyString -> triple e P (patchTerminal n t o accepted complaint) (fun _ => P).
Proof using.
  intros Hne. unfold patchTerminal. tseq; [apply (triple_get_task eq); auto|]. intros [fresh|x].
  2: { destruct x; (apply triple_ret || apply triple_fail); by intros c _ [H _]. }
  destruct (owned n t fresh) eqn:Ho; cbn [negb]; [|apply triple_ret; by intros c _ [H _]].
  unfold owned in Ho. to_prop. subst n.
  seq; [apply triple_timestamp| |by intros x c _ [? [? _]]]. intros s.
  apply (triple_pure e _ _ _ (task_key fresh = (tk_Namespace t, tk_Name t))).
  { intros c Hi (_ & Hp & Ht). by destruct (inv_tasks c Hi _ _ Ht). }
  intros Hkey. apply (triple_weaken e _ (fun c => P c /\ unchanged fresh c) _ (fun _ => P)); [|intros c Hi (_ & Hp & Ht); cbn in Ht|done].
  2: { split; [done|]. destruct (inv_tasks c Hi _ _ Ht) as [Hk _]. unfold unchanged. by rewrite <- Hk. }
  assert (Hpatch : forall new, terminal (tk_Phase new) = true ->
    triple e (fun c => P c /\ unchanged fresh c) (patch_task fresh new) (fun _ => P)).
  { intros new Hnew. apply patch_task_calm; [done| |]; by destruct (tk_Phase new). }
  destruct o as [msg| |verdict reason summary raw]; [last P; by apply Hpatch..|].
  eapply (triple_try_bind _ _ _ _ (fun r c => P c /\ (r = Err Invalid -> unchanged fresh c))).
  - destruct accepted; [|apply (triple_call eq); auto; intros c Hi [Hp Hu]; auto].
    eapply (triple_patch_task eq); auto.
    + intros x c _ [Hp Hu]. auto.
    + intros c0' t1 Hi [Hp Hu] Ht t' c'. assert (Hsame : t1 = fresh) by (unfold unchanged in Hu; congruence). subst t1.
      assert (Hph : tk_Phase t' = PhaseSucceeded) by apply pick_live. split; [|split; [|done]].
      * eapply inv_set_task_calm; [done|done|done|by rewrite Hph|by rewrite Hph].
      * eapply calm_closed, Hp. eapply calm_set_task; [done|]. split; [done|split; [done|]]. by rewrite Hph.
  - intros [a|x]; [apply triple_ret; by intros c _ [H _]|].
    destruct x; try (apply triple_fail; by intros c _ [H _]).
    seq; [apply (triple_get_task eq); auto| |by intros x c _ [[? _] _]]. intros fallback.
    apply (triple_pure e _ _ _ (fallback = fresh)).
    { intros c _ [[_ Hu] Hf]. specialize (Hu eq_refl). unfold unchanged in Hu. rewrite Hkey in Hu. congruence. }
    intros ->. last P. eapply triple_weaken; [by apply Hpatch| |done]. intros c _ [[Hp Hu] _]. auto.
Qed.

Lemma reap_calm n : triple e P (reapNode n) (fun _ => P).
Proof using.
  unfold reapNode. eapply (triple_try_bind _ _ _ _ (fun _ => P)).
  - apply (triple_call eq); auto. intros c Hi Hp. cbv beta zeta. destruct (c_nodes c !! fn_Name n); [|done]. case_if; [|done].
    destruct (inv_delete_node c (fn_Name n) Hi) as [Hi' Hc]. split; [done|]. by eapply calm_closed.
  - intros [a|x]; [by apply triple_ret|]. destruct x; (by apply triple_ret) || (by apply triple_fail).
Qed.

Lemma hygiene_calm n : triple e (fun c => P c /\ c_nodes c !! fn_Name n = Some n) (clear_dead_reservation n) (fun _ => P).
Proof using.
  unfold clear_dead_reservation. case_if; [apply triple_ret; by intros c _ [H _]|].
  seq; [apply (triple_taskIsLive eq); auto| |by intros x c _ [[? _] _]]. intros [].
  { apply triple_ret. by intros c _ [[H _] _]. }
  eapply (triple_try_bind _ _ _ _ (fun _ => P)).
  - eapply (triple_patch_node eq); auto; [by intros x c _ [[H _] _]|]. intros c x Hi [[Hp Hn] Hd] Hx _ m m' c'.
    assert (x = n) as -> by congruence. specialize (Hd eq_refl). split; [done|]. split.
    + eapply inv_set_node; [done|done|done|]. intros k t Ht Ho. exfalso. eapply (dead_free _ _ _ Hd); [|done|done].
      intros k' t' Ht' Ho'. by eapply (inv_booked c Hi).
    + eapply calm_closed, Hp. eapply calm_set_node; [done|done|]. right. by eapply dead_unreserved.
  - intros [a|x]; [by apply triple_ret|]. destruct x; (by apply triple_ret) || (by apply triple_fail).
Qed.

Lemma node_pass_calm n : triple e P (ReconcileNode n) (fun _ => P).
Proof using.
  unfold ReconcileNode. tseq; [apply (triple_get_node eq); auto|]. intros r.
  seq; [apply triple_now| |by intros x c _ [? [? _]]]. intros s.
  destruct r as [x|x]; [|destruct x; (apply triple_ret || apply triple_fail); by intros c _ (_ & H & _)].
  apply (triple_weaken e _ (fun c => P c /\ c_nodes c !! fn_Name x = Some x) _ (fun _ => P)); [| |done].
  2: { intros c Hi (_ & Hp & Hx). destruct (inv_nodes c Hi _ _ Hx) as [-> _]. auto. }
  case_if; [case_if; [|apply triple_ret; by intros c _ [H _]]|].
  { eapply triple_weaken; [apply reap_calm|tauto|done]. }
  eapply (triple_bind _ _ _ _ (fun _ => P)); [apply hygiene_calm| |done]. intros [x'|]; [|by apply triple_ret]. cbv zeta.
  case_if; [apply reap_calm|]. case_if; [|by apply triple_ret]. last P. apply (triple_patch_status eq); auto. apply calm_closed.
Qed.

Create HintDb kept.
(** A program whose calls all keep [P]. *)
Definition kept {A} (m : api A) : Prop := triple e P m (fun _ => P).

Lemma kept_ret {A} (a : A) : kept (mret a).
Proof using. by apply triple_ret. Qed.
Lemma kept_fail {A} x : kept (@fail A x).
Proof using. by apply triple_fail. Qed.
Lemma kept_now : kept the_time.
Proof using. eapply triple_weaken; [apply (triple_now e P)|done|by intros r c _ [_ H]]. Qed.
Lemma kept_timestamp : kept timestamp.
Proof using. eapply triple_weaken; [apply (triple_timestamp e P)|done|by intros r c _ [_ H]]. Qed.
Lemma kept_bind {A B} (m : api A) (f : A -> api B) : kept m -> (forall a, kept (f a)) -> kept (m ≫= f).
Proof using. intros Hm Hf. by eapply (triple_bind _ _ _ _ (fun _ => P)). Qed.
Lemma kept_try {A} (m : api A) : kept m -> kept (try m).
Proof using. intros Hm. by apply triple_try. Qed.
Lemma kept_read {A} (f : Cluster -> result api_error A) : kept (call (fun view live => (live, f view))).
Proof using. apply (triple_call eq); auto. Qed.
Lemma kept_patch_release base new : kept (patch_release base new).
Proof using.
  apply (triple_call eq); auto. intros c Hi Hp. cbv beta zeta. destruct (c_releases c !! ar_Name base); [|done]. cbn [fst snd].
  destruct (inv_set_releases c (<[ar_Name base := merge_release base new a]> (c_releases c)) Hi) as [Hi' Hc]. split; [done|]. by eapply calm_closed.
Qed.
Lemma kept_request n u : kept (patch_node false n (with_updateRequest n u)).
Proof using. apply (triple_patch_status eq); auto. apply calm_closed. Qed.
Hint Resolve kept_ret kept_fail kept_now kept_timestamp kept_try kept_patch_release kept_request : kept.
Hint Extern 1 (kept (get_node _)) => apply kept_read : kept.
Hint Extern 1 (kept (get_release _)) => apply kept_read : kept.
Hint Extern 1 (kept list_nodes) => apply kept_read : kept.
Ltac kept_step := first [apply kept_bind; [|intros] | progress auto with kept | case_match | progress cbv zeta].

Lemma kept_clear n : kept (clearUpdateRequest n).
Proof using. unfold clearUpdateRequest. repeat kept_step. Qed.

Lemma kept_compute fmt_timeout r now' existing nodes : forall a, kept (compute_loop fmt_timeout r now' existing a nodes).
Proof using.
  induction nodes as [|n nodes IH]; intros a; cbn [compute_loop]; [apply kept_ret|]. apply kept_bind; [|intros [[s fl] fa]; apply IH].
  unfold node_status, soak. repeat first [apply kept_clear | kept_step].
Qed.

Lemma kept_dispatch r now' nsMap capacity nodes : forall dispatched statuses, kept (dispatch_loop r now' nsMap capacity dispatched statuses nodes).
Proof using.
  induction nodes as [|n nodes IH]; intros dispatched statuses; cbn [dispatch_loop]; [apply kept_ret|]. repeat first [apply IH | kept_step].
Qed.

Lemma release_calm fmt_timeout name : triple e P (ReconcileRelease fmt_timeout name) (fun _ => P).
Proof using.
  change (kept (ReconcileRelease fmt_timeout name)).
  unfold ReconcileRelease, reconcileActive, advance, dispatchCandidates, computeNodeStatuses, resolveTargetNodes, patchCounts, haltFailed, setSucceeded,
    setAwaitingApproval, setInProgress, setPaused, setReleasePending.
  repeat first [apply kept_compute | apply kept_dispatch | kept_step].
Qed.
End Others.

Lemma other_step_calm c c' : other_step c c' -> inv c -> inv c' /\ calm c c'.
Proof.
  intros H Hi. destruct H.
  - apply (calm_effect now fault c _ (fun _ => True)); [|done|done]. eapply triple_weaken; [apply (heartbeat_calm now fault c)|by intros d _ [H _]|done].
  - apply (calm_effect now fault c _ (unchanged t)); [by apply claim_calm|done|done].
  - apply (calm_effect now fault c _ (fun _ => True)); [|done|done]. eapply triple_weaken; [by apply (finish_calm now fault c)|by intros d _ [H2 _]|done].
  - apply (calm_effect now fault c _ (unchanged t)); [by apply recover_calm|done|done].
  - apply (calm_effect now fault c _ (fun _ => True)); [|done|done]. eapply triple_weaken; [apply (node_pass_calm now fault c)|by intros d _ [H _]|done].
  - apply (calm_effect now fault c _ (fun _ => True)); [|done|done]. eapply triple_weaken; [apply (release_calm now fault c)|by intros d _ [H _]|done].
Qed.

Lemma interrupted_surroundings e : interrupted e -> surroundings calm e.
Proof.
  intros [Hv Hm]. split; [done|]. intros n c Hi. cut (inv (en_meanwhile e n c) /\ calm c (en_meanwhile e n c)); [tauto|].
  specialize (Hm n c). induction Hm as [c|c c1 c2 H1 _ IH]; [auto using calm_refl|].
  destruct (other_step_calm _ _ H1 Hi) as [Hi1 Hc1]. destruct (IH Hi1). eauto using calm_trans.
Qed.

(** ** A pass of the scheduler *)

(** No task of that key is in flight. *)
Definition gone (key : string) (c : Cluster) : Prop :=
  forall k t, c_tasks c !! k = Some t -> taskKey t = key -> holdsInFlightSlot (tk_Phase t) = false.

(** What assigning the node to the task takes. *)
Definition bookable (jobMode : bool) (t : AgenticTask) (n : string) (c : Cluster) : Prop :=
  if jobMode then in_process c t = false else free n c /\ held t n c.

Lemma gone_unchanged t c : inv c -> unchanged t c -> holdsInFlightSlot (tk_Phase t) = false -> gone (taskKey t) c.
Proof. intros Hi Hu Hh k t' Ht' Hk. assert (k = task_key t) as -> by (by eapply inv_key_inj). unfold unchanged in Hu. congruence. Qed.

Lemma copy_read c n x : inv c -> c_nodes c !! n = Some x -> copy x c.
Proof.
  intros Hi Hx. destruct (inv_nodes c Hi n x Hx) as [<- Hv]. split; [done|split].
  - intros x' Hx' _. congruence.
  - intros k t Ht Ho. by eapply (inv_booked c Hi).
Qed.

Lemma calm_gone key c c' : calm c c' -> gone key c -> gone key c'.
Proof.
  intros H Hg k t' Ht' Hk. destruct (calm_back _ _ H _ _ Ht') as (t & Ht & Hs & _ & Hf). rewrite (proj1 (taskKey_spec _ _ Hs)) in Hk.
  specialize (Hg k t Ht Hk). destruct (holdsInFlightSlot (tk_Phase t')); [|done]. destruct (Hf eq_refl). congruence.
Qed.

Lemma stable_and rely (P Q : Cluster -> Prop) : stable rely P -> stable rely Q -> stable rely (fun c => P c /\ Q c).
Proof. intros HP HQ c c' H [Hp Hq]. split; [by eapply HP|by eapply HQ]. Qed.
Lemma stable_free n : stable calm (free n).
Proof. intros c c'. apply calm_free. Qed.
Lemma stable_unchanged t : tk_AssignedNode t = EmptyString -> stable calm (unchanged t).
Proof. intros H c c'. by apply calm_unchanged. Qed.
Lemma stable_copies l : stable calm (fun c => Forall (fun x => copy x c) l).
Proof. intros c c' H Hl. eapply Forall_impl; [done|]. intros x. by apply calm_copy. Qed.
Lemma stable_copy x : stable calm (copy x).
Proof. intros c c'. apply calm_copy. Qed.
Lemma stable_room t : stable calm (room t).
Proof. intros c c'. apply calm_room. Qed.
Lemma stable_gone key : stable calm (gone key).
Proof. intros c c'. apply calm_gone. Qed.
Lemma stable_agent k a : stable calm (fun c => c_agents c !! k = Some a).
Proof. intros c c' H. by rewrite (calm_agents _ _ H). Qed.
Lemma stable_true rely : stable rely (fun _ => True).
Proof. done. Qed.
Lemma stable_job (t : AgenticTask) (jobMode : bool) : stable calm (fun c => jobMode = true -> in_process c t = false).
Proof. intros c c' H. by rewrite (in_process_spec c c' t t (calm_agents _ _ H) (same_spec_refl t)). Qed.
Lemma stable_bookable jobMode t n :
  tk_AssignedNode t = EmptyString -> terminal (tk_Phase t) = false -> stable calm (fun c => unchanged t c /\ bookable jobMode t n c).
Proof.
  intros Hn Hp c c' H [Hu Hb]. split; [by eapply calm_unchanged|]. destruct jobMode; cbn in *.
  - by rewrite (in_process_spec c c' t t (calm_agents _ _ H) (same_spec_refl t)).
  - destruct Hb. split; [by eapply calm_free|by eapply calm_held].
Qed.

Create HintDb stable.
#[export] Hint Resolve stable_and stable_free stable_unchanged stable_copies stable_copy stable_room stable_gone stable_agent stable_true stable_job stable_bookable : stable.

Section Pass.
Context (e : env).
Hypothesis He : surroundings calm e.
Let tt_ {A} : result api_error A -> Cluster -> Prop := fun _ _ => True.

Lemma triple_clear n key : triple e (gone key) (clearNodeCurrentTask n key) tt_.
Proof using He.
  unfold clearNodeCurrentTask. case_if; [by apply triple_ret|]. tseq; [apply (triple_get_node calm); auto with stable|].
  intros [x|x]; [|destruct x; (by apply triple_ret) || (by apply triple_fail)]. case_if; [|by apply triple_ret]. to_prop. subst key.
  last (fun _ : Cluster => True). apply (triple_weaken e _ (fun c => gone (fn_CurrentTask x) c /\ copy x c) _ tt_); [| |done].
  2: { intros c Hi [Hg Hx]. split; [done|by eapply copy_read]. }
  eapply (triple_patch_node calm); auto with stable; [done|]. intros c x' Hi [Hg (_ & Hc & Ho)] Hx' Hv m m' c'.
  split; [done|split; [|done]]. destruct (inv_nodes c Hi _ _ Hx') as [Hname _].
  eapply inv_set_node; [done|done|done|]. intros k t Ht Hon. exfalso. destruct Hon as (Hh & Hp & Hn).
  assert (fn_CurrentTask x = taskKey t) as Hk by (eapply Ho; [done|by split]). by rewrite (Hg k t Ht (eq_sym Hk)) in Hh.
Qed.

Lemma triple_logged_clear n key P : (forall c, inv c -> P c -> gone key c) -> triple e P (logged (clearNodeCurrentTask n key)) tt_.
Proof using He.
  intros H. unfold logged. eapply (triple_try_bind _ _ _ _ (fun _ _ => True)); [|intros r; by apply triple_ret].
  eapply triple_weaken; [apply triple_clear|done|done].
Qed.

(** A patch of a task that does not put it in flight. *)
Lemma triple_patch_idle base new P (Q : result api_error AgenticTask -> Cluster -> Prop) :
  stable calm P -> (forall x c, inv c -> P c -> Q (Err x) c) ->
  (forall c t, inv c -> P c -> c_tasks c !! task_key base = Some t -> let t' := merge_task base new t in
    (waiting (tk_Phase t') = true -> tk_AssignedNode t' = EmptyString) /\
    (holdsInFlightSlot (tk_Phase t') = true -> holdsInFlightSlot (tk_Phase t) = true /\ tk_AssignedNode t' = tk_AssignedNode t) /\
    (let c' := set_tasks c (<[task_key base := t']> (c_tasks c)) in inv c' -> Q (Ok t') c')) ->
  triple e P (patch_task base new) Q.
Proof using He.
  intros Hs Hx Ht. eapply (triple_patch_task calm); [done|done|done|]. intros c t Hi Hp Hl t' c'.
  destruct (Ht c t Hi Hp Hl) as (H1 & H2 & H3). assert (inv c') by (by eapply inv_set_task_calm). auto.
Qed.

Lemma triple_first_dep {A} t (f : string -> AgenticTask -> option A) absent deps P :
  stable calm P -> triple e P (first_dep t f absent deps) (fun _ => P).
Proof using He.
  intros Hs. induction deps as [|d deps IH]; cbn [first_dep]; [by apply triple_ret|].
  tseq; [apply (triple_get_task calm); auto|].
  assert (Hrest : forall (o : option A) R, (forall c, R c -> P c) ->
    triple e R (match o with Some a => mret (Some a) | None => first_dep t f absent deps end) (fun _ => P)).
  { intros [a|] R HR; [apply triple_ret; auto|]. eapply triple_weaken; [apply IH|auto|done]. }
  intros [dep|x]; [apply Hrest; tauto|]. destruct x; try (apply triple_fail; tauto). apply Hrest. tauto.
Qed.

Section Pending.
Context (t : AgenticTask).
Hypothesis Hn : tk_AssignedNode t = EmptyString.
Hypothesis Hp : waiting (tk_Phase t) = true.
Let U : Cluster -> Prop := unchanged t.

Lemma stable_own : stable calm U.
Proof using Hn. by apply stable_unchanged. Qed.
Hint Resolve stable_own : stable.

Lemma pending_live : terminal (tk_Phase t) = false.
Proof using Hp. by destruct (tk_Phase t). Qed.

(** The patch that ends or keeps waiting a task. *)
Lemma triple_patch_own new :
  holdsInFlightSlot (tk_Phase new) = false -> tk_AssignedNode new = EmptyString ->
  triple e U (patch_task t new) tt_.
Proof using He Hn.
  intros Hh Hn'. apply triple_patch_idle; [by apply stable_unchanged|done|]. intros c t1 Hi Hu Ht t'.
  unfold U, unchanged in Hu. assert (t1 = t) as -> by congruence.
  assert (Hph : tk_Phase t' = tk_Phase new) by apply pick_live. assert (Has : tk_AssignedNode t' = tk_AssignedNode new) by apply pick_live.
  rewrite Hph, Has. split; [done|split; [by rewrite Hh|done]].
Qed.

Lemma triple_fail_skip new :
  holdsInFlightSlot (tk_Phase (new (wire (en_now e)))) = false -> tk_AssignedNode (new (wire (en_now e))) = EmptyString ->
  triple e U (now ← timestamp; _ ← patch_task t (new now); mret done_) tt_.
Proof using He Hn.
  intros Hh Hn'. seq; [apply triple_timestamp|]. intros now. apply (triple_pure e _ _ _ (now = wire (en_now e))); [intros c _ [H _]; by injection H|].
  intros ->. last (fun _ : Cluster => True). eapply triple_weaken; [by apply triple_patch_own|by intros c _ [_ H]|done].
Qed.

Lemma triple_failTask reason message : triple e U (failTask t reason message) tt_.
Proof using He Hn. unfold failTask. by apply triple_fail_skip. Qed.

Lemma triple_skipTask depName depState contradicted : triple e U (skipTask t depName depState contradicted) tt_.
Proof using He Hn. unfold skipTask. by apply triple_fail_skip. Qed.

Lemma triple_all_deps deps : triple e U (all_deps t deps) (fun r c => r = Ok true -> U c).
Proof using He Hn Hp.
  induction deps as [|d deps IH]; cbn [all_deps]; [by apply triple_ret|].
  tseq; [apply (triple_get_task calm); auto with stable|]. intros [dep|x].
  { case_if; [|by apply triple_ret]. eapply triple_weaken; [apply IH|tauto|done]. }
  destruct x; try (by apply triple_fail). last (fun _ : Cluster => True).
  unfold recordMissingDepCondition. seq; [apply triple_timestamp|]. intros now. cbv zeta. case_if; [by apply triple_ret|].
  last (fun _ : Cluster => True). eapply triple_weaken; [apply triple_patch_own| |done]; cbn; [by destruct (tk_Phase t)|done|tauto].
Qed.

Lemma triple_setInitialPending : triple e U (setInitialPending t) tt_.
Proof using He Hn. unfold setInitialPending. last (fun _ : Cluster => True). by apply triple_patch_own. Qed.

Let W : Cluster -> Prop := fun c => U c /\ room t c.

Lemma stable_W : stable calm W.
Proof using Hn. apply stable_and; auto with stable. Qed.
Hint Resolve stable_W : stable.

Lemma triple_node_busy x R :
  stable calm R ->
  triple e (fun c => W c /\ copy x c /\ R c) (node_busy x (taskKey t))
    (fun r c => (W c /\ copy x c /\ R c) /\ (r = Ok false -> free (fn_Name x) c)).
Proof using He Hn Hp.
  intros HR. unfold node_busy. case_if.
  - eapply triple_weaken; [apply (triple_taskIsLive calm e He _ _ (fun c => W c /\ copy x c /\ R c)); eauto with stable|done|]. intros r c Hi [Hc Hd]. split; [done|]. intros Hr.
    eapply dead_free; [by apply Hd|]. apply Hc.
  - apply triple_ret. intros c Hi (HW & Hc & Hr). split; [done|]. intros _ k t1 Ht1 Ho.
    pose proof (proj2 (proj2 Hc) k t1 Ht1 Ho) as Hk. apply andb_false_iff in Heqb as [Hb|Hb]; to_prop.
    + rewrite Hb in Hk. by eapply taskKey_nonempty.
    + assert (k = task_key t) as -> by (eapply inv_key_inj; [done|done|apply HW|congruence]).
      assert (t1 = t) as -> by (destruct HW as [HU _]; unfold U, unchanged in HU; congruence).
      destruct Ho as [Hh _]. by rewrite (waiting_not_held _ Hp) in Hh.
Qed.

Lemma triple_reserveNode x R :
  stable calm R ->
  triple e (fun c => W c /\ copy x c /\ R c) (reserveNode x (taskKey t))
    (fun r c => (r = Ok true -> W c /\ bookable false t (fn_Name x) c) /\ (r = Ok false -> W c /\ R c)).
Proof using He Hn Hp.
  intros HR. unfold reserveNode. seq; [by apply triple_node_busy|]. intros [].
  { apply triple_ret. intros c _ [(HW & _ & Hr) _]. by split. }
  eapply (triple_try_bind _ _ _ _ (fun r c => match r with Ok _ => W c /\ bookable false t (fn_Name x) c | Err _ => W c /\ R c end)).
  - apply (triple_weaken e _ (fun c => (W c /\ copy x c /\ R c) /\ free (fn_Name x) c) _
      (fun r c => match r with Ok _ => W c /\ bookable false t (fn_Name x) c | Err _ => W c /\ R c end)); [|by intros c _ [H Hf]; auto|done].
    eapply (triple_patch_node calm); [done|eauto with stable|by intros y c _ [(HW & _ & Hr) _]|].
    intros c x' Hi [(HW & Hc & Hr) Hf] Hx' Hv m m' c'. assert (x' = x) as -> by (apply Hc; auto).
    assert (Hcur : fn_CurrentTask m = taskKey t) by apply pick_live. split; [|split].
    + intros Hm. split; [done|]. split; [done|]. intros y Hy. congruence.
    + eapply inv_set_node; [done|done|done|]. intros k t1 Ht1 Ho. by destruct (Hf k t1 Ht1).
    + split; [done|]. split; [done|]. intros y [[_ ->]|[Hne _]]%lookup_write; [done|done].
  - intros [a|y]; [by apply triple_ret|]. destruct y; (by apply triple_ret) || (by apply triple_fail).
Qed.

Lemma triple_reserve_first nodes :
  triple e (fun c => W c /\ Forall (fun x => copy x c) nodes) (reserve_first (taskKey t) nodes)
    (fun r c => match r with Ok n => n <> EmptyString -> W c /\ bookable false t n c | Err _ => True end).
Proof using He Hn Hp.
  induction nodes as [|x nodes IH]; cbn [reserve_first]; [by apply triple_ret|].
  seq; [eapply triple_weaken; [apply (triple_reserveNode x (fun c => Forall (fun x => copy x c) nodes)); auto with stable| |]|].
  - intros c _ [HW Hl]. apply Forall_cons in Hl. tauto.
  - intros r c _ Hr. exact Hr.
  - intros []; cbv beta iota; [apply triple_ret; intros c _ [H _] _; auto|].
    eapply triple_weaken; [apply IH|intros c _ [_ H]; auto|done].
Qed.

Lemma triple_reserveFirstFit required model jobMode :
  triple e (fun c => W c /\ (jobMode = true -> in_process c t = false)) (reserveFirstFitNode t required model jobMode)
    (fun r c => match r with Ok n => n <> EmptyString -> W c /\ bookable jobMode t n c | Err _ => True end).
Proof using He Hn Hp.
  unfold reserveFirstFitNode.
  seq; [apply (triple_list_nodes calm e (fun c => W c /\ (jobMode = true -> in_process c t = false))); eauto with stable|]. intros nodes.
  seq; [apply triple_now|]. intros now. cbv zeta. set (eligible := List.filter _ _).
  apply (triple_weaken e _ (fun c => (W c /\ (jobMode = true -> in_process c t = false)) /\ Forall (fun x => copy x c) eligible) _
    (fun r c => match r with Ok n => n <> EmptyString -> W c /\ bookable jobMode t n c | Err _ => True end)); [| |done].
  2: { intros c Hi (_ & HW & ->). split; [done|]. apply List.Forall_forall. intros x [Hx _]%filter_In.
       apply list_elem_of_In in Hx. rewrite merge_sort_Permutation in Hx. apply list_elem_of_fmap in Hx as ([n x'] & -> & Hx).
       apply elem_of_map_to_list in Hx. by eapply copy_read. }
  destruct jobMode.
  - destruct eligible as [|x rest]; [by apply triple_ret|].
    eapply (triple_bind _ _ _ _ (fun _ c => W c /\ in_process c t = false)); [|intros load; by apply triple_ret|done].
    unfold jobModeLoadByNode. tseq; [apply (triple_list_tasks calm); eauto 6 with stable|intros r].
    apply triple_ret. intros c _ [[[HW Hj] _] _]. auto.
  - eapply triple_weaken; [apply triple_reserve_first|by intros c _ [[HW _] Hl]|done].
Qed.

(** The tasks counted are the ones that hold a slot. *)
Lemma room_counted c name a limit tasks :
  inv c -> agent_name t = Some name -> c_agents c !! (tk_Namespace t, name) = Some a -> ag_MaxConcurrentTasks a = Some limit ->
  tasks = List.filter (fun t1 => bool_decide (tk_Namespace t1 = tk_Namespace t)) (map_to_list (c_tasks c)).*2 ->
  Z.of_nat (length (List.filter (counts_against (ag_Name a) (tk_Name t)) tasks)) < limit -> room t c.
Proof using.
  intros Hi Hname Ha Hl -> Hlt name' a' limit' Hname' Ha' Hl'. simplify_eq.
  injection (inv_agents c Hi _ _ Ha) as _ Han. eapply Z.le_lt_trans; [|exact Hlt]. apply inj_le.
  unfold size, set_size; cbn. rewrite <- (length_map task_key (List.filter _ _)). apply submseteq_length, NoDup_submseteq; [apply NoDup_elements|].
  intros k Hk%elem_of_elements. apply elem_of_difference in Hk as [(t1 & Ht1 & (Hn1 & Hr1 & Hh1)%counted_true)%elem_of_holders Hne].
  apply list_elem_of_In, in_map_iff. destruct (inv_tasks c Hi _ _ Ht1) as [Hk1 _]. exists t1. split; [done|].
  apply filter_In. split; [apply filter_In; split|].
  - apply list_elem_of_In, list_elem_of_fmap. exists (k, t1). split; [done|]. by apply elem_of_map_to_list.
  - by apply bool_decide_eq_true.
  - unfold counts_against. rewrite !andb_true_iff, negb_true_iff, bool_decide_eq_true, bool_decide_eq_false.
    split; [split; [congruence|]|done]. intros Hsame. apply Hne. rewrite Hk1. apply elem_of_singleton. unfold task_key. congruence.
Qed.

Lemma triple_atLimit R :
  stable calm R ->
  triple e (fun c => U c /\ R c) (agentAtConcurrencyLimit t) (fun r c => r = Ok false -> W c /\ R c).
Proof using He Hn.
  intros HR. unfold agentAtConcurrencyLimit. destruct (agent_name t) as [name|] eqn:Hname.
  2: { apply triple_ret. intros c _ [HU Hr] _. split; [split; [done|]|done]. intros ? ? ? Hx. congruence. }
  tseq; [apply (triple_get_agent calm); eauto with stable|]. intros [a|x].
  2: { destruct x; (apply triple_ret || by apply triple_fail). intros c _ [[HU Hr] Hnone] _. split; [split; [done|]|done].
       intros n' a' l' Hx Ha' _. congruence. }
  destruct (ag_MaxConcurrentTasks a) as [limit|] eqn:Hl.
  2: { apply triple_ret. intros c _ [[HU Hr] Ha] _. split; [split; [done|]|done]. intros n' a' l' Hx Ha' Hl'. congruence. }
  seq; [apply (triple_list_tasks calm e _ (fun c => (U c /\ R c) /\ c_agents c !! (tk_Namespace t, name) = Some a)); eauto 6 with stable|].
  intros tasks. apply triple_ret. intros c Hi [[[HU Hr] Ha] Htasks] [= Hlt]. to_prop. split; [split; [done|]|done]. by eapply room_counted.
Qed.

Lemma triple_capability :
  triple e U (effectiveRequiredCapability t)
    (fun r c => U c /\ match r with Ok (_, _, jobMode) => jobMode = true -> in_process c t = false | Err _ => True end).
Proof using He Hn.
  unfold effectiveRequiredCapability. destruct (agent_name t) as [name|] eqn:Hname; [|by apply triple_ret].
  seq; [apply (triple_get_agent calm); auto with stable| |by intros x c _ [HU _]]. intros a. apply triple_ret.
  intros c _ [HU Ha]. split; [done|]. intros Hj. unfold in_process. by rewrite Hname, Ha, Hj.
Qed.

Lemma triple_schedule jobMode n :
  n <> EmptyString ->
  triple e (fun c => W c /\ bookable jobMode t n c) (scheduleToNode t n) (fun r c => match r with Ok _ => True | Err _ => U c end).
Proof using He Hn Hp.
  intros Hne. unfold scheduleToNode. seq; [apply triple_timestamp| |by intros x c _ [? _]]. intros now.
  eapply (triple_bind _ _ _ _ (fun r c => match r with Ok _ => True | Err _ => U c end)); [|intros r; by apply triple_ret|done].
  apply (triple_weaken e _ (fun c => (unchanged t c /\ bookable jobMode t n c) /\ room t c) _
    (fun r c => match r with Ok _ => True | Err _ => U c end)); [|by intros c _ (_ & (HU & Hr) & Hb)|done].
  eapply (triple_patch_task calm); [done|auto using pending_live with stable|by intros x c _ [[HU _] _]|].
  intros c t1 Hi [[HU Hb] Hr] Ht t' c'. split; [|done]. assert (t1 = t) as -> by (unfold unchanged in HU; congruence).
  assert (Hph : tk_Phase t' = PhaseScheduled) by apply pick_live. assert (Has : tk_AssignedNode t' = n) by apply pick_live.
  eapply inv_set_task; [done|done|done|by rewrite Hph| |by auto].
  intros n' (_ & Hpr & <-). right. rewrite (in_process_spec c c t t' eq_refl) in Hpr by done.
  destruct jobMode; cbn in Hb; [congruence|]. rewrite Has. destruct Hb as [Hf Hh]. split; [|done]. intros k2 t2 H2 _. by eapply Hf.
Qed.

Lemma triple_dispatch : triple e U (dispatch t) tt_.
Proof using He Hn Hp.
  unfold dispatch. tseq; [apply triple_capability|]. intros [[[required model] jobMode]|x].
  2: { destruct x; try (by apply triple_fail). eapply triple_weaken; [apply triple_failTask|tauto|done]. }
  seq; [apply (triple_atLimit (fun c => jobMode = true -> in_process c t = false)); auto with stable|]. intros []; [by apply triple_ret|].
  seq; [eapply triple_weaken; [apply triple_reserveFirstFit|intros c _ H; by apply H|intros r c _ H; exact H]|]. intros n.
  case_if; [by apply triple_ret|]. to_prop. tseq; [eapply triple_weaken; [by apply (triple_schedule jobMode n)| |intros r c _ H; exact H]|].
  - intros c _ H. by apply H.
  - intros [[]|x]; [by apply triple_ret|]. seq; [apply triple_logged_clear|by intros a; apply triple_fail].
    intros c Hi HU. eapply gone_unchanged; [done|done|by apply waiting_not_held].
Qed.

Lemma triple_reconcile_pending : triple e U (reconcile_pending t) tt_.
Proof using He Hn Hp.
  unfold reconcile_pending. seq; [apply triple_first_dep; auto with stable|]. intros [[d s]|]; [apply triple_skipTask|].
  seq; [apply triple_first_dep; auto with stable|]. intros [[d s]|]; [apply triple_skipTask|].
  eapply (triple_bind _ _ _ _ (fun _ => U)); [|intros [m|]; [apply triple_failTask|]|done].
  { unfold cascadeFailIfMissing. seq; [apply triple_now| |by intros x c _ [? _]]. intros now.
    eapply triple_weaken; [apply (triple_first_dep _ _ _ _ U); auto with stable|by intros c _ [_ H]|intros r c _ H; exact H]. }
  seq; [apply triple_first_dep; auto with stable|]. intros [m|]; [apply triple_failTask|].
  seq; [apply triple_all_deps|]. intros []; [|by apply triple_ret]. eapply triple_weaken; [apply triple_dispatch|auto|done].
Qed.
End Pending.

Lemma triple_increment t prior : triple e (fun _ => True) (incrementExpiryCounter t prior) tt_.
Proof using He.
  unfold incrementExpiryCounter. seq; [apply (triple_get_task calm); auto with stable|]. intros current. cbv zeta.
  last (fun _ : Cluster => True). apply (triple_weaken e _ (fun _ => True) _ tt_); [apply triple_patch_idle; [auto with stable|done|]|done|done].
  intros c t1 Hi _ Ht t'. assert (Hph : tk_Phase t' = tk_Phase t1) by apply pick_same.
  assert (Has : tk_AssignedNode t' = tk_AssignedNode t1) by apply pick_same. rewrite Hph, Has.
  split; [by apply (inv_waiting c Hi _ _ Ht)|split; [done|done]].
Qed.

(** The patch that takes a task out of flight, and the release of its node. *)
Lemma triple_end current new n :
  terminal (tk_Phase current) = false -> waiting (tk_Phase current) = false ->
  (tk_Phase new = PhaseFailed \/ tk_Phase new = PhasePending /\ tk_AssignedNode new = EmptyString /\ tk_AssignedNode current <> EmptyString) ->
  triple e (fun _ => True) (patched ← patch_task current new; _ ← logged (clearNodeCurrentTask n (taskKey patched)); mret done_) tt_.
Proof using He.
  intros Ht Hw Hnew. assert (Hne : tk_Phase current <> tk_Phase new) by (destruct Hnew as [-> |(-> & _)]; by destruct (tk_Phase current)).
  eapply (triple_bind _ _ _ _ (fun r c => match r with Ok t' => gone (taskKey t') c | Err _ => True end)); [| |done].
  - apply triple_patch_idle; [auto with stable|done|]. intros c t1 Hi _ Hl t'.
    assert (Hph : tk_Phase t' = tk_Phase new) by (by apply pick_change).
    assert (Hidle : holdsInFlightSlot (tk_Phase t') = false) by (rewrite Hph; by destruct Hnew as [-> |(-> & _)]).
    split; [|split; [by rewrite Hidle|]].
    + rewrite Hph. destruct Hnew as [-> |(-> & Hna & Hne')]; [done|]. intros _. cbn. rewrite Hna. by apply pick_change.
    + intros c' Hi'. eapply gone_unchanged; [done| |done]. destruct (inv_tasks c Hi _ _ Hl) as [Hk _].
      unfold unchanged, c'. cbn [c_tasks set_tasks]. change (task_key t') with (task_key t1). rewrite <- Hk. apply lookup_insert_eq.
  - intros t'. last (fun _ : Cluster => True). by apply triple_logged_clear.
Qed.

Lemma triple_release t n msg : n <> EmptyString -> triple e (fun _ => True) (releaseExpiredClaim t n msg) tt_.
Proof using He.
  intros Hne. unfold releaseExpiredClaim. seq; [apply (triple_get_task calm); auto with stable|]. intros current.
  destruct (superseded current n) eqn:Hsup; [by apply triple_ret|]. unfold superseded in Hsup. to_prop. subst n.
  apply (triple_pure e _ _ _ (waiting (tk_Phase current) = false)).
  { intros c Hi [_ Hc]. destruct (waiting (tk_Phase current)) eqn:Hw; [|done]. by destruct Hne; apply (inv_waiting c Hi _ _ Hc). }
  intros Hw. seq; [apply triple_timestamp|]. intros now. eapply triple_weaken; [apply triple_end; [done|done|]|done|done]. by right.
Qed.

Lemma triple_terminalFail t n prior : n <> EmptyString -> triple e (fun _ => True) (terminalFailExpired t n prior) tt_.
Proof using He.
  intros Hne. unfold terminalFailExpired. seq; [apply (triple_get_task calm); auto with stable|]. intros current.
  destruct (superseded current n) eqn:Hsup; [by apply triple_ret|]. unfold superseded in Hsup. to_prop. subst n.
  apply (triple_pure e _ _ _ (waiting (tk_Phase current) = false)).
  { intros c Hi [_ Hc]. destruct (waiting (tk_Phase current)) eqn:Hw; [|done]. by destruct Hne; apply (inv_waiting c Hi _ _ Hc). }
  intros Hw. seq; [apply triple_timestamp|]. intros now. eapply triple_weaken; [apply triple_end; [done|done|]|done|done]. by left.
Qed.

Lemma triple_checkExpiry fmt_time t : tk_AssignedNode t <> EmptyString -> triple e (fun _ => True) (checkClaimExpiry fmt_time t) tt_.
Proof using He.
  intros Hne. unfold checkClaimExpiry. tseq; [apply (triple_get_node calm); auto with stable|]. intros r.
  seq; [apply triple_now|]. intros now. cbv zeta.
  assert (Hexp : forall msg, triple e (fun _ => True)
    (if claimExpiryLimit <=? expiry_count t then terminalFailExpired t (tk_AssignedNode t) (expiry_count t)
     else _ ← incrementExpiryCounter t (expiry_count t); releaseExpiredClaim t (tk_AssignedNode t) msg) tt_).
  { intros msg. case_if; [by apply triple_terminalFail|]. seq; [apply triple_increment|]. intros a. by apply triple_release. }
  destruct r as [node|x]; [case_if; [by apply triple_ret|]|destruct x; try (by apply triple_fail)]; (eapply triple_weaken; [apply Hexp|done|done]).
Qed.

Lemma triple_Reconcile fmt_time ns name : triple e (fun _ => True) (Reconcile fmt_time ns name) tt_.
Proof using He.
  unfold Reconcile. tseq; [apply (triple_get_task calm); auto with stable|].
  intros [t|x]; [|destruct x; (by apply triple_ret) || (by apply triple_fail)].
  assert (Hown : forall c, inv c -> c_tasks c !! (ns, name) = Some t -> unchanged t c).
  { intros c Hi Ht. destruct (inv_tasks c Hi _ _ Ht) as [Hk _]. unfold unchanged. by rewrite <- Hk. }
  assert (Hwait : waiting (tk_Phase t) = true -> forall m, (tk_AssignedNode t = EmptyString -> triple e (unchanged t) m tt_) ->
    triple e (fun c => True /\ c_tasks c !! (ns, name) = Some t) m (@tt_ Result)).
  { intros Hw m Hm. apply (triple_pure e _ _ _ (tk_AssignedNode t = EmptyString)); [intros c Hi [_ Ht]; by apply (inv_waiting c Hi _ _ Ht)|].
    intros Hn. eapply triple_weaken; [by apply Hm|intros c Hi [_ Ht]; by apply Hown|done]. }
  destruct (bool_decide_reflect (tk_Phase t = PhaseUnset)) as [Hu|Hu].
  { apply Hwait; [by rewrite Hu|]. intros Hn. by apply triple_setInitialPending. }
  destruct (terminal (tk_Phase t)) eqn:Hterm.
  { last (fun _ : Cluster => True). apply triple_logged_clear. intros c Hi [_ Ht]. eapply gone_unchanged; [done|by apply Hown|by destruct (tk_Phase t)]. }
  destruct (bool_decide_reflect (tk_Phase t = PhasePending)) as [Hpd|Hpd].
  { apply Hwait; [by rewrite Hpd|]. intros Hn. apply triple_reconcile_pending; [done|by rewrite Hpd]. }
  case_if; [|by apply triple_ret]. to_prop. eapply triple_weaken; [by apply triple_checkExpiry|done|done].
Qed.
End Pass.

(** ** The machine *)

Lemma effect_inv {A} e (m : api A) P Q c : triple e P m Q -> inv c -> P c -> inv (effect m e c).
Proof. intros Hm Hi Hp. by apply (Hm {| wd_live := c; wd_calls := 0 |}). Qed.

(** A node that is created or updated by its agent. *)
Lemma upsert_inv r now fault c :
  inv c -> (forall k t, c_tasks c !! k = Some t -> ~ on_node c t (rg_NodeName r)) -> inv (effect (Upsert r) (alone now fault) c).
Proof.
  intros Hi Hfree. eapply (effect_inv _ _ (eq c) (fun _ _ => True)); [|done|done].
  unfold Upsert. tseq; [apply (triple_get_node eq); [apply alone_surroundings|apply eq_stable]|].
  intros [x|x]; [|destruct x; try (apply triple_fail; done)].
  - cbn [mergeManagedLabels]. case_if; [by apply triple_ret|]. apply (triple_call eq); [apply alone_surroundings|apply eq_stable|done|].
    intros d Hd [<- Hx]. cbv beta zeta. cbn [fn_Name with_spec]. destruct (inv_nodes c Hi _ _ Hx) as [Hname _]. rewrite Hname, Hx. case_if; [|done].
    split; [|done]. eapply inv_set_node; [done|by cbn|done|]. intros k t Ht Ho. by destruct (Hfree k t Ht).
  - seq; [apply triple_timestamp|]. intros s. apply (triple_call eq); [apply alone_surroundings|apply eq_stable|done|].
    intros d Hd (_ & <- & Hx). cbv beta zeta. cbn [fn_Name new_node]. rewrite Hx. split; [|done].
    apply inv_set_node; [done|done|done|]. intros k t Ht Ho. by destruct (Hfree k t Ht).
Qed.

Lemma create_inv c t :
  inv c -> c_tasks c !! task_key t = None -> ContainsByte (tk_Namespace t) "/"%char = false -> tk_Phase t = PhaseUnset ->
  tk_AssignedNode t = EmptyString -> inv (set_tasks c (<[task_key t := t]> (c_tasks c))).
Proof.
  intros Hi Hnew Hs Hph Hn.
  assert (Hidle : forall n, ~ on_node c t n) by (intros n (Hh & _); by rewrite Hph in Hh).
  constructor; [apply Hi| | | | | |].
  - intros k t1 [[-> ->]|[_ H1]]%lookup_write; [done|by apply (inv_tasks c Hi)].
  - intros k t1 [[-> ->]|[_ H1]]%lookup_write; [done|by apply (inv_waiting c Hi k)].
  - intros n x Hx. destruct (inv_nodes c Hi n x Hx). split; [done|]. cbn. lia.
  - intros k t1 n x [[-> ->]|[_ H1]]%lookup_write Ho; [by destruct (Hidle n)|by eapply (inv_booked c Hi)].
  - intros k k' t1 t2 n [[-> ->]|[_ H1]]%lookup_write [[-> ->]|[_ H2]]%lookup_write Ho1 Ho2; try (by destruct (Hidle n)).
    by eapply (inv_single c Hi k k').
  - intros ns name a limit Ha Hne Hl. etrans; [|by eapply (inv_bound c Hi)]. apply inj_le, subseteq_size.
    intros k (t1 & [[-> ->]|[_ H1]]%lookup_write & Hc)%elem_of_holders; apply elem_of_holders; [|by eauto].
    apply counted_true in Hc as (_ & _ & Hh). by rewrite Hph in Hh.
Qed.

Lemma delete_inv c k : inv c -> inv (set_tasks c (delete k (c_tasks c))).
Proof.
  intros Hi. assert (Hd : forall k' t, delete k (c_tasks c) !! k' = Some t -> c_tasks c !! k' = Some t) by (by intros k' t [_ H]%lookup_delete_Some).
  constructor; [apply Hi| | | | | |].
  - intros k' t H%Hd. by apply (inv_tasks c Hi).
  - intros k' t H%Hd. by apply (inv_waiting c Hi k').
  - intros n x Hx. destruct (inv_nodes c Hi n x Hx). split; [done|]. cbn. lia.
  - intros k' t n x H%Hd. by apply (inv_booked c Hi k').
  - intros k1 k2 t1 t2 n H1%Hd H2%Hd. by apply (inv_single c Hi).
  - intros ns name a limit Ha Hne Hl. etrans; [|by eapply (inv_bound c Hi)]. apply inj_le, subseteq_size.
    intros k' (t & H%Hd & Hc)%elem_of_holders. apply elem_of_holders. eauto.
Qed.

Lemma step_inv fmt_time c c' : step fmt_time c c' -> inv c -> inv c'.
Proof.
  intros [c1 ns name e He|c1 c2 Ho|c1 r now fault Hf|c1 t Hn Hs Hp Ha|c1 k] Hi.
  - eapply effect_inv; [by apply triple_Reconcile, interrupted_surroundings|done|done].
  - by eapply other_step_calm.
  - by apply upsert_inv.
  - by apply create_inv.
  - by apply delete_inv.
Qed.

Lemma fresh_inv agents : agents_named agents -> inv (fresh_cluster agents).
Proof.
  intros Ha. constructor; try done. intros ns name a limit _ _ _. unfold holders. cbn. rewrite map_filter_empty, dom_empty_L, size_empty. lia.
Qed.

(** Every cluster the machine reaches. *)
Lemma reachable_inv fmt_time agents c : agents_named agents -> rtc (step fmt_time) (fresh_cluster agents) c -> inv c.
Proof.
  intros Ha Hr. pose proof (fresh_inv agents Ha) as Hi. induction Hr as [c|c1 c2 c3 Hs _ IH]; [done|]. by eapply IH, step_inv.
Qed.
