(* ===== verification/ForemanFacts.v ===== *)
(** * Foreman: what the scheduler promises

    One task per node and the bound of an Agent, for every run of the machine; which
    Pending tasks an undisturbed pass schedules; and what it makes of a claim whose node
    went silent. *)

From stdpp Require Import base strings list gmap sorting relations.
From Stdlib Require Import ZArith Lia Bool Ascii.
From S2P Require Import Prelude GoStrings GoFloat GoStrconv GoJson RouterConfig Usage Foreman ForemanTasks ForemanNodes ForemanRelease ForemanMachine ForemanSafety.

(** ** A pass that nothing disturbs *)

Section Quiet.
Context (now : Z).
Let e := alone now (fun _ => false).

(** The program takes the cluster from [c] to [c'] and answers [r]. *)
Definition runs {A} (m : api A) (c c' : Cluster) (r : result api_error A) : Prop :=
  forall n, exists n', m e {| wd_live := c; wd_calls := n |} = ({| wd_live := c'; wd_calls := n' |}, r).

Lemma runs_effect {A} (m : api A) c c' r : runs m c c' r -> effect m e c = c'.
Proof using. intros H. destruct (H 0%nat) as [n' Hn]. unfold effect. by rewrite Hn. Qed.

Lemma runs_ret {A} (a : A) c : runs (mret a) c c (Ok a).
Proof using. intros n. by exists n. Qed.
Lemma runs_now c : runs the_time c c (Ok now).
Proof using. intros n. by exists n. Qed.
Lemma runs_timestamp c : runs timestamp c c (Ok (wire now)).
Proof using. intros n. by exists n. Qed.

Lemma runs_bind {A B} (m : api A) (f : A -> api B) c c1 c2 a r : runs m c c1 (Ok a) -> runs (f a) c1 c2 r -> runs (m ≫= f) c c2 r.
Proof using.
  intros Hm Hf n. destruct (Hm n) as [n1 H1]. destruct (Hf n1) as [n2 H2]. exists n2. unfold mbind, api_bind. by rewrite H1.
Qed.
Lemma runs_bind_err {A B} (m : api A) (f : A -> api B) c c1 x : runs m c c1 (Err x) -> runs (m ≫= f) c c1 (Err x).
Proof using. intros Hm n. destruct (Hm n) as [n1 H1]. exists n1. unfold mbind, api_bind. by rewrite H1. Qed.
Lemma runs_try {A} (m : api A) c c' r : runs m c c' r -> runs (try m) c c' (Ok r).
Proof using. intros Hm n. destruct (Hm n) as [n1 H1]. exists n1. unfold try. by rewrite H1. Qed.

Lemma runs_call {A} (f : Cluster -> Cluster -> Cluster * result api_error A) c : runs (call f) c (f c c).1 (f c c).2.
Proof using. intros n. exists (S n). unfold call. cbn. by destruct (f c c). Qed.

Lemma runs_get_task ns name c : runs (get_task ns name) c c (found (c_tasks c !! (ns, name))).
Proof using. apply runs_call. Qed.
Lemma runs_get_node name c : runs (get_node name) c c (found (c_nodes c !! name)).
Proof using. apply runs_call. Qed.
Lemma runs_get_agent ns name c : runs (get_agent ns name) c c (found (c_agents c !! (ns, name))).
Proof using. apply runs_call. Qed.

(** A patch from the live object writes the changed one. *)
Lemma runs_patch_task base new c :
  c_tasks c !! task_key base = Some base ->
  runs (patch_task base new) c (set_tasks c (<[task_key base := merge_task base new base]> (c_tasks c))) (Ok (merge_task base new base)).
Proof using. intros H n. exists (S n). unfold patch_task, call. cbn. unfold task_key in H. by rewrite H. Qed.

(** *** Reservations *)

(** The node is kept for another task. *)
Definition live_in (c : Cluster) (cur n : string) : bool :=
  match splitNamespacedName cur with
  | None => false
  | Some k => match c_tasks c !! k with None => false | Some t => occupies t n end
  end.

Definition busy (c : Cluster) (x : FleetNode) (key : string) : bool :=
  negb (bool_decide (fn_CurrentTask x = EmptyString)) && negb (bool_decide (fn_CurrentTask x = key)) &&
  live_in c (fn_CurrentTask x) (fn_Name x).

Lemma runs_node_busy x key c : runs (node_busy x key) c c (Ok (busy c x key)).
Proof using.
  unfold node_busy, busy. destruct (negb _ && negb _); [cbn [andb]|apply runs_ret].
  unfold taskIsLive, live_in. destruct (splitNamespacedName (fn_CurrentTask x)) as [[ns name]|]; [|apply runs_ret].
  eapply runs_bind; [apply runs_try, runs_get_task|]. destruct (c_tasks c !! (ns, name)); apply runs_ret.
Qed.

(** The cluster with the node reserved. *)
Definition reserved (c : Cluster) (x : FleetNode) (key : string) : Cluster :=
  if bool_decide (merge_node x (with_currentTask x key) x = x) then c
  else set_nodes c (<[fn_Name x := with_version (merge_node x (with_currentTask x key) x) (S (c_revision c))]> (c_nodes c)).

Lemma reserved_tasks c x key : c_tasks (reserved c x key) = c_tasks c.
Proof using. unfold reserved. by case_if. Qed.

(** A locked patch of the live node goes through. *)
Lemma runs_patch_node x key c :
  c_nodes c !! fn_Name x = Some x -> exists y, runs (patch_node true x (with_currentTask x key)) c (reserved c x key) (Ok y).
Proof using.
  intros Hx. unfold reserved. case_if; eexists; intros n; exists (S n); unfold patch_node, call; cbn [e alone en_view en_fault en_meanwhile wd_live wd_calls default from_option id];
    rewrite Hx, (bool_decide_eq_true_2 (fn_ResourceVersion x = fn_ResourceVersion x)) by done; cbn [andb negb]; cbv zeta; by rewrite Heqb.
Qed.

Lemma runs_reserveNode x key c :
  c_nodes c !! fn_Name x = Some x ->
  runs (reserveNode x key) c (if busy c x key then c else reserved c x key) (Ok (negb (busy c x key))).
Proof using.
  intros Hx. unfold reserveNode. eapply runs_bind; [apply runs_node_busy|]. destruct (busy c x key); [apply runs_ret|].
  destruct (runs_patch_node x key c Hx) as [y Hy]. eapply runs_bind; [apply runs_try, Hy|apply runs_ret].
Qed.

Lemma runs_reserve_first key c nodes :
  Forall (fun x => c_nodes c !! fn_Name x = Some x) nodes ->
  match List.find (fun x => negb (busy c x key)) nodes with
  | Some x => runs (reserve_first key nodes) c (reserved c x key) (Ok (fn_Name x))
  | None => runs (reserve_first key nodes) c c (Ok EmptyString)
  end.
Proof using.
  induction 1 as [|x nodes Hx _ IH]; cbn [reserve_first List.find]; [apply runs_ret|].
  pose proof (runs_reserveNode x key c Hx) as Hr. destruct (busy c x key); cbn [negb] in *.
  - destruct (List.find _ nodes); eapply runs_bind; [exact Hr|exact IH|exact Hr|exact IH].
  - eapply runs_bind; [exact Hr|apply runs_ret].
Qed.

(** *** Dependencies *)

Fixpoint dep_find {A} (c : Cluster) (ns : string) (f : string -> AgenticTask -> option A) (absent : string -> option A) (deps : list string) : option A :=
  match deps with
  | [] => None
  | d :: deps =>
      match (match c_tasks c !! (ns, d) with Some dep => f d dep | None => absent d end) with
      | Some a => Some a
      | None => dep_find c ns f absent deps
      end
  end.

Lemma runs_first_dep {A} t (f : string -> AgenticTask -> option A) absent deps c :
  runs (first_dep t f absent deps) c c (Ok (dep_find c (tk_Namespace t) f absent deps)).
Proof using.
  induction deps as [|d deps IH]; cbn [first_dep dep_find]; [apply runs_ret|].
  eapply runs_bind; [apply runs_try, runs_get_task|]. destruct (c_tasks c !! (tk_Namespace t, d)) as [dep|]; cbn [found].
  - destruct (f d dep); [apply runs_ret|apply IH].
  - destruct (absent d); [apply runs_ret|apply IH].
Qed.

Lemma dep_find_None {A} c ns (f : string -> AgenticTask -> option A) absent deps :
  dep_find c ns f absent deps = None <->
  Forall (fun d => match c_tasks c !! (ns, d) with Some dep => f d dep | None => absent d end = None) deps.
Proof using.
  induction deps as [|d deps IH]; cbn; [done|]. rewrite Forall_cons, <- IH. case_match; naive_solver.
Qed.

Definition dep_on_target (c : Cluster) (ns d : string) : bool :=
  match c_tasks c !! (ns, d) with Some dep => SucceededOnTarget dep | None => false end.

(** The task keeps its phase. *)
Definition phase_is (c : Cluster) (t : AgenticTask) (p : AgenticTaskPhase) : Prop :=
  exists t', c_tasks c !! task_key t = Some t' /\ tk_Phase t' = p.

Lemma runs_patch_own t new c :
  unchanged t c -> exists c', runs (_ ← patch_task t new; mret done_) c c' (Ok done_) /\ phase_is c' t (tk_Phase new).
Proof using.
  intros Hu. eexists. split; [eapply runs_bind; [by apply runs_patch_task|apply runs_ret]|].
  exists (merge_task t new t). split; [apply lookup_insert_eq|apply pick_live].
Qed.

Lemma runs_all_deps t c deps :
  unchanged t c ->
  if forallb (dep_on_target c (tk_Namespace t)) deps then runs (all_deps t deps) c c (Ok true)
  else exists c', runs (all_deps t deps) c c' (Ok false) /\ phase_is c' t (tk_Phase t).
Proof using.
  intros Hu. induction deps as [|d deps IH]; cbn [forallb all_deps]; [apply runs_ret|].
  unfold dep_on_target at 1. pose proof (runs_get_task (tk_Namespace t) d c) as Hget.
  destruct (c_tasks c !! (tk_Namespace t, d)) as [dep|] eqn:Hd; cbn [found] in Hget.
  - destruct (SucceededOnTarget dep) eqn:Hs; cbn [andb].
    + case_if; [eapply runs_bind; [apply runs_try, Hget|]; cbv beta iota; by rewrite Hs|].
      destruct IH as (c' & Hr & Hp). exists c'. split; [|done]. eapply runs_bind; [apply runs_try, Hget|]. cbv beta iota. by rewrite Hs.
    + exists c. split; [eapply runs_bind; [apply runs_try, Hget|]; cbv beta iota; rewrite Hs; apply runs_ret|by exists t].
  - cbn [andb]. destruct (hasCondition (tk_Conditions t) (condition "DepWaitStarted" true "DependencyAbsent"
      ("dependency " +:+ quoted_text d +:+ " not found; waiting for it to be created") (wire now))) eqn:Hc.
    + exists c. split; [|by exists t]. eapply runs_bind; [apply runs_try, Hget|]. eapply runs_bind; [|apply runs_ret].
      unfold recordMissingDepCondition. eapply runs_bind; [apply runs_timestamp|]. cbv zeta. rewrite Hc. apply runs_ret.
    + eexists. split.
      * eapply runs_bind; [apply runs_try, Hget|]. eapply runs_bind; [|apply runs_ret].
        unfold recordMissingDepCondition. eapply runs_bind; [apply runs_timestamp|]. cbv zeta. rewrite Hc.
        eapply runs_bind; [by apply runs_patch_task|apply runs_ret].
      * eexists. split; [apply lookup_insert_eq|apply pick_live].
Qed.

(** *** Dispatch *)

(** What the task needs of a node, from its Agent where it names one. *)
Definition requirement (c : Cluster) (t : AgenticTask) : option (RequiredCapability * string * bool) :=
  match agent_name t with
  | None => Some (tk_RequiredCapability t, EmptyString, false)
  | Some name =>
      match c_agents c !! (tk_Namespace t, name) with
      | Some a => Some (ag_RequiredCapability a, agentModelIdentity a, job_mode a)
      | None => None
      end
  end.

Definition tasks_in (c : Cluster) (ns : string) : list AgenticTask :=
  List.filter (fun t => bool_decide (tk_Namespace t = ns)) (map_to_list (c_tasks c)).*2.

Lemma runs_list_tasks ns c : runs (list_tasks ns) c c (Ok (tasks_in c ns)).
Proof using. apply runs_call. Qed.

(** The Agent of the task already has its share of tasks in flight. *)
Definition at_limit (c : Cluster) (t : AgenticTask) : bool :=
  match agent_name t with
  | None => false
  | Some name =>
      match c_agents c !! (tk_Namespace t, name) with
      | Some a =>
          match ag_MaxConcurrentTasks a with
          | Some limit => limit <=? Z.of_nat (length (List.filter (counts_against (ag_Name a) (tk_Name t)) (tasks_in c (tk_Namespace t))))
          | None => false
          end
      | None => false
      end
  end.

(** A node that could take the task now. *)
Definition suits (c : Cluster) (t : AgenticTask) (x : FleetNode) : Prop :=
  c_nodes c !! fn_Name x = Some x /\ nodeSchedulable x now = true /\
  exists required model jobMode, requirement c t = Some (required, model, jobMode) /\
    capabilitySatisfies required model x jobMode = true /\ (jobMode = true \/ busy c x (taskKey t) = false).

Definition eligible (c : Cluster) (required : RequiredCapability) (model : string) (jobMode : bool) : list FleetNode :=
  List.filter (fun n => nodeSchedulable n now && capabilitySatisfies required model n jobMode) (merge_sort node_le (map_to_list (c_nodes c)).*2).

Lemma In_eligible c required model jobMode x :
  inv c -> In x (eligible c required model jobMode) <->
  c_nodes c !! fn_Name x = Some x /\ nodeSchedulable x now = true /\ capabilitySatisfies required model x jobMode = true.
Proof using.
  intros Hi. unfold eligible. rewrite filter_In, andb_true_iff, <- list_elem_of_In, merge_sort_Permutation, list_elem_of_fmap.
  split; [intros [([n x'] & -> & Hx) H]|intros (Hx & H)].
  - apply elem_of_map_to_list in Hx. destruct (inv_nodes c Hi _ _ Hx) as [Hn _]. cbn [snd] in *. by rewrite Hn.
  - split; [|done]. exists (fn_Name x, x). split; [done|]. by apply elem_of_map_to_list.
Qed.

Lemma least_loaded_In load best rest : In (least_loaded load best rest) (best :: rest).
Proof using.
  revert best. induction rest as [|n rest IH]; intros best; cbn [least_loaded]; [by left|].
  destruct (IH (if (load (fn_Name n) <? load (fn_Name best))%nat then n else best)) as [H|H]; [|by right; right].
  rewrite <- H. case_if; [by right; left|by left].
Qed.

(** The node a pass takes. *)
Definition choice (c : Cluster) (t : AgenticTask) (required : RequiredCapability) (model : string) (jobMode : bool) : option FleetNode :=
  let nodes := eligible c required model jobMode in
  if jobMode then match nodes with [] => None | n :: rest => Some (least_loaded (node_load (tasks_in c (tk_Namespace t))) n rest) end
  else List.find (fun x => negb (busy c x (taskKey t))) nodes.

Lemma choice_suits c t required model jobMode :
  inv c -> requirement c t = Some (required, model, jobMode) ->
  match choice c t required model jobMode with Some x => suits c t x | None => forall x, ~ suits c t x end.
Proof using.
  intros Hi Hr. unfold choice. destruct jobMode.
  - destruct (eligible c required model true) as [|n rest] eqn:He.
    + intros x (Hx & Hs & r & m & j & Hr' & Hc & _). rewrite Hr in Hr'. injection Hr' as <- <- <-. assert (Hin : In x (eligible c required model true)) by (by apply In_eligible).
      by rewrite He in Hin.
    + pose proof (least_loaded_In (node_load (tasks_in c (tk_Namespace t))) n rest) as Hin. rewrite <- He in Hin.
      apply In_eligible in Hin as (Hx & Hs & Hc); [|done]. split; [done|split; [done|]]. exists required, model, true. auto.
  - destruct (List.find _ _) as [x|] eqn:Hf.
    + apply find_some in Hf as [Hin Hb]. apply In_eligible in Hin as (Hx & Hs & Hc); [|done]. to_prop.
      split; [done|split; [done|]]. exists required, model, false. auto.
    + intros x (Hx & Hs & r & m & j & Hr' & Hc & Hb). rewrite Hr in Hr'. injection Hr' as <- <- <-. destruct Hb as [|Hb]; [done|].
      assert (Hin : In x (eligible c required model false)) by (by apply In_eligible). pose proof (find_none _ _ Hf x Hin) as Hn. cbn in Hn. by rewrite Hb in Hn.
Qed.

Lemma runs_reserveFirstFit c t required model jobMode :
  inv c ->
  exists c', runs (reserveFirstFitNode t required model jobMode) c c' (Ok (match choice c t required model jobMode with Some x => fn_Name x | None => EmptyString end))
    /\ c_tasks c' = c_tasks c.
Proof using.
  intros Hi. unfold reserveFirstFitNode, choice.
  assert (Hlist : runs list_nodes c c (Ok (map_to_list (c_nodes c)).*2)) by apply runs_call.
  pose proof (fun x => proj1 (In_eligible c required model jobMode x Hi)) as Hin. unfold eligible in *. destruct jobMode.
  - destruct (List.filter _ _) as [|n rest] eqn:He.
    + exists c. split; [|done]. eapply runs_bind; [exact Hlist|]. eapply runs_bind; [apply runs_now|]. cbv beta zeta. rewrite He. apply runs_ret.
    + exists c. split; [|done]. eapply runs_bind; [exact Hlist|]. eapply runs_bind; [apply runs_now|]. cbv beta zeta. rewrite He.
      eapply runs_bind; [|apply runs_ret]. unfold jobModeLoadByNode. eapply runs_bind; [apply runs_try, runs_call|]. apply runs_ret.
  - assert (Hl : Forall (fun x => c_nodes c !! fn_Name x = Some x) (List.filter (fun n => nodeSchedulable n now && capabilitySatisfies required model n false) (merge_sort node_le (map_to_list (c_nodes c)).*2))).
    { apply List.Forall_forall. intros x Hx. by apply Hin in Hx as [Hx _]. }
    pose proof (runs_reserve_first (taskKey t) c _ Hl) as Hrun. destruct (List.find _ _) as [x|].
    + exists (reserved c x (taskKey t)). split; [|apply reserved_tasks]. eapply runs_bind; [exact Hlist|]. eapply runs_bind; [apply runs_now|exact Hrun].
    + exists c. split; [|done]. eapply runs_bind; [exact Hlist|]. eapply runs_bind; [apply runs_now|exact Hrun].
Qed.

(** How a pass may end for the task. *)
Definition scheduled_on (c c' : Cluster) (t : AgenticTask) : Prop :=
  exists t' x, c_tasks c' !! task_key t = Some t' /\ tk_Phase t' = PhaseScheduled /\ tk_AssignedNode t' = fn_Name x /\ suits c t x.
Definition not_scheduled (c' : Cluster) (t : AgenticTask) : Prop := exists p, phase_is c' t p /\ p <> PhaseScheduled.

Lemma runs_requirement c t :
  runs (effectiveRequiredCapability t) c c (match requirement c t with Some q => Ok q | None => Err NotFound end).
Proof using.
  unfold effectiveRequiredCapability, requirement. destruct (agent_name t) as [name|]; [|apply runs_ret].
  pose proof (runs_get_agent (tk_Namespace t) name c) as Hget. destruct (c_agents c !! (tk_Namespace t, name)); cbn [found] in Hget.
  - eapply runs_bind; [exact Hget|apply runs_ret].
  - by apply runs_bind_err.
Qed.

Lemma runs_at_limit c t : runs (agentAtConcurrencyLimit t) c c (Ok (at_limit c t)).
Proof using.
  unfold agentAtConcurrencyLimit, at_limit. destruct (agent_name t) as [name|]; [|apply runs_ret].
  eapply runs_bind; [apply runs_try, runs_get_agent|]. destruct (c_agents c !! (tk_Namespace t, name)) as [a|]; cbn [found]; [|apply runs_ret].
  destruct (ag_MaxConcurrentTasks a); [|apply runs_ret]. eapply runs_bind; [apply runs_list_tasks|apply runs_ret].
Qed.

Lemma runs_failTask t reason message c :
  unchanged t c -> exists c', runs (failTask t reason message) c c' (Ok done_) /\ not_scheduled c' t.
Proof using.
  intros Hu. unfold failTask. edestruct (runs_patch_own t) as (c' & Hr & Hp); [done|]. exists c'. split; [eapply runs_bind; [apply runs_timestamp|exact Hr]|].
  eexists. by split.
Qed.

Lemma runs_skipTask t depName depState contradicted c :
  unchanged t c -> exists c', runs (skipTask t depName depState contradicted) c c' (Ok done_) /\ not_scheduled c' t.
Proof using.
  intros Hu. unfold skipTask. edestruct (runs_patch_own t) as (c' & Hr & Hp); [done|]. exists c'. split; [eapply runs_bind; [apply runs_timestamp|exact Hr]|].
  eexists. by split.
Qed.

Lemma runs_schedule t n c :
  unchanged t c -> exists c' t', runs (scheduleToNode t n) c c' (Ok tt) /\ c_tasks c' !! task_key t = Some t' /\
    tk_Phase t' = PhaseScheduled /\ tk_AssignedNode t' = n.
Proof using.
  intros Hu. eexists _, _. split; [|split].
  - unfold scheduleToNode. eapply runs_bind; [apply runs_timestamp|]. eapply runs_bind; [by apply runs_patch_task|apply runs_ret].
  - apply lookup_insert_eq.
  - split; apply pick_live.
Qed.

Section Task.
Context (c : Cluster) (t : AgenticTask).
Hypothesis Hi : inv c.
Hypothesis Hu : unchanged t c.
Hypothesis Hp : tk_Phase t = PhasePending.
Hypothesis Hnames : c_nodes c !! EmptyString = None.

Lemma unscheduled : not_scheduled c t.
Proof using Hu Hp. exists PhasePending. split; [by exists t|done]. Qed.

Lemma runs_dispatch :
  exists c' r, runs (dispatch t) c c' r /\
    ((at_limit c t = false /\ exists x, suits c t x) /\ scheduled_on c c' t \/
     ~ (at_limit c t = false /\ exists x, suits c t x) /\ not_scheduled c' t).
Proof using Hi Hu Hp Hnames.
  pose proof (runs_requirement c t) as Hreq. unfold dispatch. destruct (requirement c t) as [[[required model] jobMode]|] eqn:Hr.
  2: { destruct (runs_failTask t "AgentNotFound" ("Agent " +:+ quoted_text (default EmptyString (tk_AgentRef t)) +:+ " not found in namespace " +:+
         quoted_text (tk_Namespace t)) c Hu) as (c' & Hf & Hn). exists c', (Ok done_). split; [eapply runs_bind; [apply runs_try, Hreq|exact Hf]|].
       right. split; [|done]. intros [_ (x & _ & _ & ? & ? & ? & Hx & _)]. congruence. }
  pose proof (choice_suits c t required model jobMode Hi Hr) as Hchoice.
  destruct (runs_reserveFirstFit c t required model jobMode Hi) as (c1 & Hres & Htasks).
  assert (Hstart : forall c' r, runs (if at_limit c t then mret requeueNoFit
      else nodeName ← reserveFirstFitNode t required model jobMode;
           if bool_decide (nodeName = EmptyString) then mret requeueNoFit
           else s ← try (scheduleToNode t nodeName);
                match s with Ok _ => mret done_ | Err x => _ ← logged (clearNodeCurrentTask nodeName (taskKey t)); fail x end) c c' r ->
    runs (dispatch t) c c' r).
  { intros c' r H. unfold dispatch. eapply runs_bind; [apply runs_try, Hreq|]. eapply runs_bind; [apply runs_at_limit|]. exact H. }
  destruct (at_limit c t) eqn:Hlim.
  { exists c, (Ok requeueNoFit). split; [apply Hstart, runs_ret|]. right. split; [by intros [? _]|apply unscheduled]. }
  destruct (choice c t required model jobMode) as [x|].
  2: { exists c1, (Ok requeueNoFit). split; [apply Hstart; eapply runs_bind; [exact Hres|apply runs_ret]|]. right.
       split; [intros [_ [x Hx]]; by eapply Hchoice|]. exists PhasePending. split; [|done]. exists t. by rewrite Htasks. }
  assert (Hne : bool_decide (fn_Name x = EmptyString) = false) by (apply bool_decide_eq_false; intros He; destruct Hchoice as [Hx _]; congruence).
  destruct (runs_schedule t (fn_Name x) c1) as (c' & t' & Hrun & Ht' & Hph & Has); [unfold unchanged; by rewrite Htasks|].
  exists c', (Ok done_). split; [|left; split; [split; [done|by exists x]|by exists t', x]].
  apply Hstart. eapply runs_bind; [exact Hres|]. rewrite Hne. eapply runs_bind; [apply runs_try, Hrun|apply runs_ret].
Qed.

(** The dependencies are done as the task needs them, its Agent has room, and a node
    suits it. *)
Definition ready : Prop :=
  Forall (fun d => exists dep, c_tasks c !! (tk_Namespace t, d) = Some dep /\ SucceededOnTarget dep = true /\ hasCrossStageContradiction dep = false)
    (tk_DependsOn t) /\ at_limit c t = false /\ exists x, suits c t x.

Definition resolved_or_skipped (name : string) (dep : AgenticTask) : option (string * string) :=
  if isAlreadyResolvedCoder dep then Some (name, "ALREADY-RESOLVED") else if isSkippedTask dep then Some (name, "Skipped") else None.
Definition contradiction_of (name : string) (dep : AgenticTask) : option (string * string) :=
  if hasCrossStageContradiction dep then Some (name, default EmptyString (head (coderCrossStageContradictions dep))) else None.
Definition failure_of (name : string) (dep : AgenticTask) : option string :=
  if bool_decide (tk_Phase dep = PhaseFailed) then Some ("dependency " +:+ quoted_text name +:+ " failed; cascade-failing")
  else if dep_failed dep
  then Some ("dependency " +:+ quoted_text name +:+ " ended with verdict=" +:+ verdict_text (tk_Verdict dep) +:+
             " (not on-target); cascade-failing")
  else None.

Lemma on_target_passes d dep :
  SucceededOnTarget dep = true -> hasCrossStageContradiction dep = false ->
  resolved_or_skipped d dep = None /\ contradiction_of d dep = None /\ failure_of d dep = None.
Proof using.
  intros Hs Hc. unfold resolved_or_skipped, contradiction_of, failure_of, isAlreadyResolvedCoder, isSkippedTask, dep_failed, coderTerminalOutcome. rewrite Hs, Hc.
  unfold SucceededOnTarget in Hs. apply andb_true_iff in Hs as [Hph Hv]. to_prop. rewrite Hph. destruct (tk_Verdict dep), (task_envelope dep); by cbn in *.
Qed.

Lemma ready_deps :
  ready -> dep_find c (tk_Namespace t) resolved_or_skipped (fun _ => None) (tk_DependsOn t) = None /\
    dep_find c (tk_Namespace t) contradiction_of (fun _ => None) (tk_DependsOn t) = None /\
    (forall absent, dep_find c (tk_Namespace t) (fun _ _ => @None string) absent (tk_DependsOn t) = None) /\
    dep_find c (tk_Namespace t) failure_of (fun _ => None) (tk_DependsOn t) = None /\
    forallb (dep_on_target c (tk_Namespace t)) (tk_DependsOn t) = true.
Proof using.
  intros [Hd _]. rewrite !dep_find_None, forallb_forall.
  assert (Hall : forall (F : string -> Prop), (forall d dep, c_tasks c !! (tk_Namespace t, d) = Some dep -> SucceededOnTarget dep = true ->
    hasCrossStageContradiction dep = false -> F d) -> Forall F (tk_DependsOn t)).
  { intros F HF. eapply Forall_impl; [exact Hd|]. intros d (dep & H1 & H2 & H3). eauto. }
  split; [|split; [|split; [|split]]].
  1,2,4: apply Hall; intros d dep Hdep Hs Hc; rewrite Hdep; by apply on_target_passes.
  - intros absent. apply dep_find_None. apply Hall. intros d dep Hdep _ _. by rewrite Hdep.
  - apply List.Forall_forall, Hall. intros d dep Hdep Hs _. unfold dep_on_target. by rewrite Hdep.
Qed.

(** A check of the dependencies that says nothing lets the pass go on. *)
Lemma pending_step {A} (chk : api (option A)) (o : option A) (stop : A -> api Result) (rest : api Result) :
  runs chk c c (Ok o) -> (ready -> o = None) ->
  (forall a, exists c', runs (stop a) c c' (Ok done_) /\ not_scheduled c' t) ->
  (o = None -> exists c' r, runs rest c c' r /\ (ready /\ scheduled_on c c' t \/ ~ ready /\ not_scheduled c' t)) ->
  exists c' r, runs (x ← chk; match x with Some a => stop a | None => rest end) c c' r /\
    (ready /\ scheduled_on c c' t \/ ~ ready /\ not_scheduled c' t).
Proof using.
  intros Hchk Hready Hstop Hrest. destruct o as [a|].
  - destruct (Hstop a) as (c' & Hr & Hn). exists c', (Ok done_). split; [eapply runs_bind; [exact Hchk|exact Hr]|].
    right. split; [|done]. intros H%Hready. done.
  - destruct (Hrest eq_refl) as (c' & r & Hr & H). exists c', r. split; [eapply runs_bind; [exact Hchk|exact Hr]|done].
Qed.

Lemma deps_ready :
  dep_find c (tk_Namespace t) contradiction_of (fun _ => None) (tk_DependsOn t) = None ->
  forallb (dep_on_target c (tk_Namespace t)) (tk_DependsOn t) = true ->
  (ready <-> at_limit c t = false /\ exists x, suits c t x).
Proof using.
  rewrite dep_find_None, forallb_forall. intros Hc Ht. split; [by intros [_ H]|]. intros H. split; [|done].
  apply List.Forall_forall. intros d Hd. specialize (Ht d Hd). rewrite List.Forall_forall in Hc. specialize (Hc d Hd). cbv beta in Hc.
  unfold dep_on_target in Ht. destruct (c_tasks c !! (tk_Namespace t, d)) as [dep|]; [|done]. exists dep. unfold contradiction_of in Hc.
  by destruct (hasCrossStageContradiction dep).
Qed.

Lemma runs_pending :
  exists c' r, runs (reconcile_pending t) c c' r /\ (ready /\ scheduled_on c c' t \/ ~ ready /\ not_scheduled c' t).
Proof using Hi Hu Hp Hnames.
  apply (pending_step _ _ (fun '(depName, depState) => skipTask t depName depState false) _ (runs_first_dep _ resolved_or_skipped _ _ _)).
  { intros H. apply (ready_deps H). } { intros [d s]. by apply runs_skipTask. } intros _.
  apply (pending_step _ _ (fun '(depName, contradiction) => skipTask t depName ("contradiction: " +:+ contradiction) true) _
    (runs_first_dep _ contradiction_of _ _ _)).
  { intros H. apply (ready_deps H). } { intros [d s]. by apply runs_skipTask. } intros Hcontra.
  eapply (pending_step _ _ (fun msg => failTask t "MissingDependency" msg)).
  { eapply runs_bind; [apply runs_now|]. apply runs_first_dep. }
  { intros H. apply (ready_deps H). } { intros msg. by apply runs_failTask. } intros _.
  apply (pending_step _ _ (fun msg => failTask t "UpstreamFailed" msg) _ (runs_first_dep _ failure_of _ _ _)).
  { intros H. apply (ready_deps H). } { intros msg. by apply runs_failTask. } intros _.
  pose proof (runs_all_deps t c (tk_DependsOn t) Hu) as Hall. destruct (forallb _ _) eqn:Hdeps.
  - destruct runs_dispatch as (c' & r & Hr & Hor). exists c', r. split; [eapply runs_bind; [exact Hall|exact Hr]|].
    pose proof (deps_ready Hcontra Hdeps). tauto.
  - destruct Hall as (c' & Hr & Hph). exists c', (Ok requeueWaitingForDeps). split; [eapply runs_bind; [exact Hr|apply runs_ret]|].
    right. split; [intros H%ready_deps; destruct H as (_ & _ & _ & _ & H); congruence|]. exists PhasePending. rewrite <- Hp at 1. done.
Qed.
End Task.
End Quiet.


(** ** A claim whose node went silent *)

Section Expiry.
Context (now : Z).

Lemma runs_clear n key c :
  n <> EmptyString -> key <> EmptyString -> (forall x, c_nodes c !! n = Some x -> fn_Name x = n) ->
  exists c', runs now (logged (clearNodeCurrentTask n key)) c c' (Ok tt) /\ c_tasks c' = c_tasks c /\
    forall x, c_nodes c' !! n = Some x -> fn_CurrentTask x <> key.
Proof using.
  intros Hn Hk Hname. unfold logged, clearNodeCurrentTask. rewrite (bool_decide_eq_false_2 (n = EmptyString)) by done.
  pose proof (runs_get_node now n c) as Hget. destruct (c_nodes c !! n) as [x|] eqn:Hx; cbn [found] in Hget.
  2: { exists c. split; [|split; [done|congruence]]. eapply runs_bind; [apply runs_try|apply runs_ret]. eapply runs_bind; [apply runs_try, Hget|apply runs_ret]. }
  destruct (bool_decide_reflect (fn_CurrentTask x = key)) as [Hc|Hc].
  2: { exists c. split; [|split; [done|congruence]]. eapply runs_bind; [apply runs_try|apply runs_ret]. eapply runs_bind; [apply runs_try, Hget|].
       cbv beta iota. rewrite (bool_decide_eq_false_2 (fn_CurrentTask x = key)) by done. apply runs_ret. }
  specialize (Hname x eq_refl). destruct (runs_patch_node now x EmptyString c) as [y Hy]; [by rewrite Hname|].
  exists (reserved c x EmptyString). split; [|split; [apply reserved_tasks|]].
  - eapply runs_bind; [apply runs_try|apply runs_ret]. eapply runs_bind; [apply runs_try, Hget|].
    cbv beta iota. rewrite (bool_decide_eq_true_2 (fn_CurrentTask x = key)) by done. eapply runs_bind; [exact Hy|apply runs_ret].
  - assert (Hcur : fn_CurrentTask (merge_node x (with_currentTask x EmptyString) x) = EmptyString) by apply pick_live.
    unfold reserved. case_if; to_prop; [rewrite Heqb in Hcur; congruence|]. cbn [c_nodes set_nodes]. rewrite Hname, lookup_insert_eq.
    intros x' [= <-]. cbn [fn_CurrentTask with_version]. congruence.
Qed.

(** The last patch of a claim that expired, and the release of the node. *)
Lemma runs_end t new n c :
  unchanged t c -> n <> EmptyString -> (forall x, c_nodes c !! n = Some x -> fn_Name x = n) ->
  exists c', runs now (patched ← patch_task t new; _ ← logged (clearNodeCurrentTask n (taskKey patched)); mret done_) c c' (Ok done_) /\
    c_tasks c' !! task_key t = Some (merge_task t new t) /\ forall x, c_nodes c' !! n = Some x -> fn_CurrentTask x <> taskKey t.
Proof using.
  intros Hu Hn Hname. pose proof (runs_patch_task now t new c Hu) as Hp.
  destruct (runs_clear n (taskKey t) (set_tasks c (<[task_key t := merge_task t new t]> (c_tasks c))) Hn (taskKey_nonempty t) Hname) as (c' & Hr & Ht & Hc).
  exists c'. split; [|split; [rewrite Ht; apply lookup_insert_eq|done]]. eapply runs_bind; [exact Hp|]. eapply runs_bind; [exact Hr|apply runs_ret].
Qed.
End Expiry.

(** The node of the task is gone, or its heartbeat is stale. *)
Definition silent (c : Cluster) (now : Z) (n : string) : bool :=
  match c_nodes c !! n with None => true | Some x => HeartbeatStale x now end.

(** What becomes of the task: twice it goes back to Pending, the third time it fails. *)
Definition expired (t t' : AgenticTask) : Prop :=
  if claimExpiryLimit <=? expiry_count t
  then tk_Phase t' = PhaseFailed /\ tk_FailureReason t' = FailureInfrastructureError /\ tk_Verdict t' = VerdictIncomplete
  else tk_Phase t' = PhasePending /\ tk_AssignedNode t' = EmptyString /\ tk_ClaimedAt t' = None /\
       tk_claimExpiries t' = Some (Itoa (expiry_count t +64 1)%go).

Lemma runs_expired now c t msg :
  unchanged t c -> holdsInFlightSlot (tk_Phase t) = true -> tk_AssignedNode t <> EmptyString ->
  (forall x, c_nodes c !! tk_AssignedNode t = Some x -> fn_Name x = tk_AssignedNode t) ->
  exists c' t', runs now
      (if claimExpiryLimit <=? expiry_count t then terminalFailExpired t (tk_AssignedNode t) (expiry_count t)
       else _ ← incrementExpiryCounter t (expiry_count t); releaseExpiredClaim t (tk_AssignedNode t) msg) c c' (Ok done_) /\
    c_tasks c' !! task_key t = Some t' /\ expired t t' /\ forall x, c_nodes c' !! tk_AssignedNode t = Some x -> fn_CurrentTask x <> taskKey t.
Proof.
  intros Hu Hh Hn Hname.
  assert (Hsup : forall t', tk_Phase t' = tk_Phase t -> tk_AssignedNode t' = tk_AssignedNode t -> superseded t' (tk_AssignedNode t) = false).
  { intros t' H1 H2. unfold superseded. rewrite H1, H2, (bool_decide_eq_true_2 (tk_AssignedNode t = tk_AssignedNode t)) by done. by destruct (tk_Phase t). }
  assert (Hget : forall d t', c_tasks d !! task_key t = Some t' -> runs now (get_task (tk_Namespace t) (tk_Name t)) d d (Ok t')).
  { intros d t' H. pose proof (runs_get_task now (tk_Namespace t) (tk_Name t) d) as Hg. change (tk_Namespace t, tk_Name t) with (task_key t) in Hg. by rewrite H in Hg. }
  unfold expired. case_if.
  - edestruct (runs_end now t) as (c' & Hr & Ht & Hc); [done|done|done|]. exists c'. eexists. split; [|split; [exact Ht|split; [|exact Hc]]].
    + unfold terminalFailExpired. eapply runs_bind; [by apply Hget|]. rewrite (Hsup t) by done. eapply runs_bind; [apply runs_timestamp|exact Hr].
    + cbn. by rewrite !pick_live.
  - set (t1 := merge_task t (with_expiries t (Itoa (expiry_count t +64 1)%go)) t).
    set (c1 := set_tasks c (<[task_key t := t1]> (c_tasks c))). assert (Hu1 : unchanged t1 c1) by apply lookup_insert_eq.
    assert (Hph1 : tk_Phase t1 = tk_Phase t) by apply pick_live. assert (Ha1 : tk_AssignedNode t1 = tk_AssignedNode t) by apply pick_live.
    assert (Hcount : tk_claimExpiries t1 = Some (Itoa (expiry_count t +64 1)%go)) by apply pick_live.
    edestruct (runs_end now t1) as (c' & Hr & Ht & Hc); [exact Hu1|exact Hn|exact Hname|]. exists c'. eexists. split; [|split; [exact Ht|split; [|exact Hc]]].
    + eapply runs_bind.
      * unfold incrementExpiryCounter. eapply runs_bind; [by apply Hget|]. cbv zeta. rewrite Z.max_id. eapply runs_bind; [by apply runs_patch_task|apply runs_ret].
      * unfold releaseExpiredClaim. eapply runs_bind; [by apply Hget|]. rewrite (Hsup t1) by done. eapply runs_bind; [apply runs_timestamp|exact Hr].
    + split_and!; [apply pick_live..|]. cbn [tk_claimExpiries merge_task with_status]. by rewrite pick_same.
Qed.

(** C13: What an undisturbed pass makes of a task in flight.  While its node has a fresh heartbeat nothing changes.  When the node is gone or silent, the
    first two expiries put the task back to Pending with its claim cleared and the expiry counted, and the third one fails it; in both cases the node
    is no longer reserved for it. *)
Theorem expired_claim_exact fmt_time now c t :
  inv c -> c_tasks c !! task_key t = Some t -> holdsInFlightSlot (tk_Phase t) = true -> tk_AssignedNode t <> EmptyString ->
  let c' := effect (Reconcile fmt_time (tk_Namespace t) (tk_Name t)) (alone now (fun _ => false)) c in
  if silent c now (tk_AssignedNode t)
  then exists t', c_tasks c' !! task_key t = Some t' /\ expired t t' /\
         forall x, c_nodes c' !! tk_AssignedNode t = Some x -> fn_CurrentTask x <> taskKey t
  else c' = c.
Proof.
  intros Hi Hu Hh Hn c'.
  assert (Hrec : forall c1 r, runs now (checkClaimExpiry fmt_time t) c c1 r -> c' = c1).
  { intros c1 r Hr. apply (runs_effect now _ c c1 r). eapply runs_bind; [apply runs_try, runs_get_task|]. change (tk_Namespace t, tk_Name t) with (task_key t).
    rewrite Hu. cbn [found]. cbv beta iota. rewrite (bool_decide_eq_false_2 (tk_AssignedNode t = EmptyString)) by done. by destruct (tk_Phase t). }
  assert (Hname : forall x, c_nodes c !! tk_AssignedNode t = Some x -> fn_Name x = tk_AssignedNode t) by (intros x Hx; by apply (inv_nodes c Hi)).
  pose proof (runs_get_node now (tk_AssignedNode t) c) as Hget. unfold silent.
  destruct (c_nodes c !! tk_AssignedNode t) as [x|] eqn:Hx; cbn [found] in Hget; [destruct (HeartbeatStale x now) eqn:Hs|].
  - destruct (runs_expired now c t (match fn_LastHeartbeatTime x with Some h => "last heartbeat " +:+ fmt_time h | None => "no heartbeat recorded" end) Hu Hh Hn ltac:(by rewrite Hx)) as (c1 & t' & Hr & Ht & He & Hc).
    rewrite (Hrec c1 (Ok done_)); [by exists t'|]. eapply runs_bind; [apply runs_try, Hget|]. eapply runs_bind; [apply runs_now|].
    cbv beta iota zeta. rewrite Hs. exact Hr.
  - apply (Hrec c (Ok (Z.quot FleetNodeHeartbeatTimeout 2))). eapply runs_bind; [apply runs_try, Hget|]. eapply runs_bind; [apply runs_now|].
    cbv beta iota zeta. rewrite Hs. apply runs_ret.
  - destruct (runs_expired now c t "FleetNode not found" Hu Hh Hn ltac:(by rewrite Hx)) as (c1 & t' & Hr & Ht & He & Hc).
    rewrite (Hrec c1 (Ok done_)); [by exists t'|]. eapply runs_bind; [apply runs_try, Hget|]. eapply runs_bind; [apply runs_now|]. exact Hr.
Qed.

(** ** Every run of the machine *)



(** ** A small cluster *)

Module Example.

Definition any_node : RequiredCapability :=
  {| rc_MinRAMGB := 0; rc_RequiresModelInstalled := false; rc_MinContextTokens := 0; rc_Accelerator := EmptyString; rc_NodeSelector := []; rc_Roles := [] |}.

Definition coder : Agent :=
  {| ag_Namespace := "ns"; ag_Name := "coder"; ag_RequiredCapability := any_node; ag_Model := "m"; ag_InferenceServiceRef := EmptyString;
     ag_MaxConcurrentTasks := Some 1; ag_Mode := None |}.

Definition agents : gmap (string * string) Agent := {[("ns", "coder") := coder]}.

Definition agent_of (n : string) : Registrar :=
  {| rg_NodeName := n; rg_Roles := []; rg_Labels := ∅; rg_Capability := no_capability; rg_KubernetesNode := EmptyString;
     rg_Version := EmptyString; rg_Kind := EmptyString; rg_OS := EmptyString; rg_Arch := EmptyString |}.

Definition fix_ (name : string) (agent : option string) (deps : list string) : AgenticTask :=
  {| tk_Namespace := "ns"; tk_Name := name; tk_CreationTimestamp := 0; tk_claimExpiries := None; tk_Kind := KindIssueFix; tk_AgentRef := agent;
     tk_RequiredCapability := any_node; tk_DependsOn := deps; tk_TimeoutSeconds := 60; tk_Phase := PhaseUnset; tk_AssignedNode := EmptyString;
     tk_ClaimedAt := None; tk_StartedAt := None; tk_FinishedAt := None; tk_Verdict := VerdictUnset; tk_FailureReason := EmptyString; tk_Result := None;
     tk_Conditions := [] |}.

Definition fmt (_ : Z) : string := EmptyString.
Definition quiet (now : Z) : env := alone now (fun _ => false).
Definition at_ : Z := 1000 * second.

(** A node with a heartbeat, a task, and its first two passes. *)
Definition with_task (c : Cluster) (t : AgenticTask) : Cluster := set_tasks c (<[task_key t := t]> (c_tasks c)).
Definition pass (c : Cluster) (name : string) : Cluster := effect (Reconcile fmt "ns" name) (quiet at_) c.

Definition first : AgenticTask := fix_ "a" (Some "coder") [].
Definition registered : Cluster := effect (Upsert (agent_of "n1")) (quiet at_) (fresh_cluster agents).
Definition beating : Cluster := effect (PatchHeartbeat (agent_of "n1") NodeReady) (quiet at_) registered.
Definition created : Cluster := with_task beating first.
Definition pending : Cluster := pass created "a".
Definition running : Cluster := pass pending "a".
Definition the_task (c : Cluster) : AgenticTask := default first (c_tasks c !! task_key first).

Lemma quiet_interrupted now : interrupted (quiet now).
Proof. split; [done|]. intros n c. apply rtc_refl. Qed.

Lemma agents_ok : agents_named agents.
Proof. intros k a H. unfold agents in H. apply lookup_singleton_Some in H as [<- <-]. done. Qed.

Lemma registers : step fmt (fresh_cluster agents) registered.
Proof. apply (step_register fmt _ (agent_of "n1") at_ (fun _ => false)). intros k t H. by apply (lookup_empty_Some k t) in H. Qed.
Lemma beats : step fmt registered beating.
Proof. apply step_other, (step_heartbeat _ (agent_of "n1") NodeReady at_ (fun _ => false)). Qed.
Lemma creates : step fmt beating created.
Proof. apply (step_create fmt beating first); [vm_compute; reflexivity..]. Qed.
Lemma passes c name : step fmt c (pass c name).
Proof. apply (step_task_pass fmt c "ns" name (quiet at_)), quiet_interrupted. Qed.

Lemma pending_reached : rtc (step fmt) (fresh_cluster agents) pending.
Proof. eapply rtc_l; [exact registers|]. eapply rtc_l; [exact beats|]. eapply rtc_l; [exact creates|]. eapply rtc_l; [apply passes|apply rtc_refl]. Qed.

Lemma running_reached : rtc (step fmt) (fresh_cluster agents) running.
Proof. eapply rtc_r; [apply pending_reached|]. apply passes. Qed.

End Example.




Lemma expired_claim_exact_witness :
  let t := Example.the_task Example.running in
  let c' := effect (Reconcile Example.fmt (tk_Namespace t) (tk_Name t)) (alone (Example.at_ + 91 * second) (fun _ => false)) Example.running in
  exists t', c_tasks c' !! task_key t = Some t' /\ expired t t'.
Proof.
  pose proof (expired_claim_exact Example.fmt (Example.at_ + 91 * second) Example.running (Example.the_task Example.running)
    (reachable_inv _ _ _ Example.agents_ok Example.running_reached) ltac:(by vm_compute) ltac:(by vm_compute) ltac:(by vm_compute)) as H.
  replace (silent Example.running (Example.at_ + 91 * second) (tk_AssignedNode (Example.the_task Example.running))) with true in H by (by vm_compute).
  destruct H as (t' & Ht & He & _). exists t'. exact (conj Ht He).
Defined.
