(* ===== verification/ForemanRaces.v ===== *)
(** * Foreman: two races

    What the machine of [ForemanMachine] leaves out: a scheduler that reads a task from a
    cache that lags, and a pass of the FleetNode controller that another pass overtakes. *)

From stdpp Require Import base strings list gmap sorting relations.
From Stdlib Require Import ZArith Lia Bool Ascii.
From S2P Require Import Prelude GoStrings GoFloat GoStrconv GoJson RouterConfig Usage Foreman ForemanTasks ForemanNodes ForemanRelease ForemanMachine ForemanSafety ForemanFacts.

Import Example.

Definition register (c : Cluster) (n : string) : Cluster := effect (Upsert (agent_of n)) (quiet at_) c.
Definition beat (c : Cluster) (n : string) (now : Z) : Cluster := effect (PatchHeartbeat (agent_of n) NodeReady) (quiet now) c.
Definition where_is (c : Cluster) (k : string * string) : option (AgenticTaskPhase * string) :=
  (fun t => (tk_Phase t, tk_AssignedNode t)) <$> c_tasks c !! k.

(** ** A cache that lags *)

Definition job : AgenticTask := fix_ "a" None [].

(** Two nodes, of which only "n1" has a heartbeat; the task waits. *)
Definition waiting_task : Cluster := pass (with_task (beat (register (register (fresh_cluster ∅) "n0") "n1") "n1" at_) job) "a".
(** The scheduler takes "n1", whose agent claims the task; then "n0" comes up. *)
Definition scheduled_task : Cluster := pass waiting_task "a".
Definition claimed_task : Cluster :=
  effect (claim "n1" (default job (c_tasks scheduled_task !! ("ns", "a")))) (quiet at_) scheduled_task.
Definition both_up : Cluster := beat claimed_task "n0" at_.
(** The event of "n0" has the task enqueued again, and its cached copy is still Pending. *)
Definition lagging : env :=
  {| en_now := at_; en_fault := fun _ => false; en_meanwhile := fun _ c => c;
     en_view := fun _ => Some {| c_tasks := c_tasks waiting_task; c_nodes := c_nodes both_up; c_agents := ∅; c_releases := ∅; c_revision := c_revision both_up |} |}.
Definition moved : Cluster := effect (Reconcile fmt "ns" "a") lagging both_up.
Definition outcome_written : Cluster :=
  effect (patchTerminal "n1" (default job (c_tasks claimed_task !! ("ns", "a"))) (ExecResult VerdictGo EmptyString EmptyString EmptyString) true EmptyString)
    (quiet at_) moved.

(** The patch that schedules a task carries no version.  A pass whose cached copy of the task is still Pending, though it was scheduled and an agent
    runs it, moves the task to another node; the agent's outcome is then thrown away. *)
Lemma stale_pass_moves_running_task :
  ("ns", "a") ∈ fleetNodeEnqueues (map_to_list (c_tasks waiting_task)).*2 "n0" /\
  where_is both_up ("ns", "a") = Some (PhaseRunning, "n1") /\
  where_is moved ("ns", "a") = Some (PhaseScheduled, "n0") /\
  where_is outcome_written ("ns", "a") = Some (PhaseScheduled, "n0").
Proof. split; [apply list_elem_of_In; vm_compute; auto|]. split_and!; vm_compute; reflexivity. Qed.

(** ** A pass that overtakes another *)

(** The claim of "n1" expires while the call that frees the node fails, and the task goes
    to "n0": the reservation of "n1" is left over. *)
Definition later : Z := at_ + 100 * second.
Definition released_task : Cluster :=
  effect (Reconcile fmt "ns" "a") (alone later (fun n => bool_decide (6 <= n)%nat)) claimed_task.
Definition on_n0 : Cluster := effect (Reconcile fmt "ns" "a") (quiet later) (beat released_task "n0" later).
(** "n1" is back and "n0" restarts: its recovery puts the task back, and the scheduler
    takes "n1" while "n0" is not Ready. *)
Definition restart (c : Cluster) : Cluster :=
  let c := effect (claim "n0" (default job (c_tasks c !! ("ns", "a")))) (quiet later) c in
  let c := effect (PatchHeartbeat (agent_of "n0") NodeDraining) (quiet later) c in
  let c := effect (resetOrphanedTask "n0" (default job (c_tasks c !! ("ns", "a")))) (quiet later) c in
  effect (Reconcile fmt "ns" "a") (quiet later) c.
(** This happens between the reads and the write of a pass for "n1". *)
Definition overtaken : env :=
  {| en_now := later; en_view := fun _ => None; en_fault := fun _ => false;
     en_meanwhile := fun n c => if bool_decide (n = 2%nat) then restart c else c |}.
Definition freed : Cluster := effect (ReconcileNode "n1") overtaken (beat on_n0 "n1" later).
Definition twice : Cluster :=
  let c := with_task freed (fix_ "b" None []) in
  let c := effect (Reconcile fmt "ns" "b") (quiet later) c in
  effect (Reconcile fmt "ns" "b") (quiet later) c.

(** A reservation that is already there is not written again, so the version of the node
    stays; a pass of the FleetNode controller that found it dead then frees the node of a
    task just scheduled on it, and the node gets a second one. *)
Lemma hygiene_race_books_twice :
  fn_CurrentTask <$> c_nodes (beat on_n0 "n1" later) !! "n1" = Some "ns/a" /\ where_is on_n0 ("ns", "a") = Some (PhaseScheduled, "n0") /\
  where_is freed ("ns", "a") = Some (PhaseScheduled, "n1") /\ fn_CurrentTask <$> c_nodes freed !! "n1" = Some EmptyString /\
  where_is twice ("ns", "a") = Some (PhaseScheduled, "n1") /\ where_is twice ("ns", "b") = Some (PhaseScheduled, "n1").
Proof. split_and!; vm_compute; reflexivity. Qed.

(** ** The slots of an agent *)

(** Runs in the agent's process among the ones started. *)
Definition in_process_runs (l : list (AgenticTask * bool)) : nat := length (List.filter (fun r => negb r.2) l).

Definition slots_kept (w : Watcher) (s : slots) (l : list (AgenticTask * bool)) : Prop :=
  sl_supervised s <= maxSupervised w /\ (in_process_runs l <= 1)%nat /\ (in_process_runs l = 1%nat -> is_Some (sl_inflight s)).

Lemma launch_kept w s l t supervise : slots_kept w s l -> hasCapacityFor w s supervise = true -> slots_kept w (launch s t supervise) (l ++ [(t, supervise)]).
Proof.
  intros (Hs & Hl & Hi) Hc. unfold hasCapacityFor in Hc. unfold slots_kept, launch, in_process_runs in *. rewrite List.filter_app, length_app.
  destruct supervise; cbn; to_prop; [rewrite Nat.add_0_r; split; [lia|done]|]. split; [done|].
  assert (length (List.filter (fun r : AgenticTask * bool => negb r.2) l) <> 1%nat) by (intros H; by apply Hc, Hi). split; [lia|by eexists].
Qed.

Lemma candidates_kept w draining candidates : forall i resolved s l e x x' s' l',
  slots_kept w s l -> claim_candidates w draining i resolved s l candidates e x = (x', Ok (s', l')) -> slots_kept w s' l'.
Proof.
  induction candidates as [|t candidates IH]; intros i resolved s l e x x' s' l' Hk; cbn [claim_candidates]; [by intros [= <- <- <-]|].
  case_if; [by intros [= <- <- <-]|]. unfold mbind, api_bind at 1.
  destruct ((match resolved !! agentRefKey t with Some res => mret res | None => try (resolveTaskAgent t) end) e x) as [x1 [[agent|y]|y]]; [| |done].
  - cbv beta iota zeta. case_if; [by apply IH|]. to_prop. case_if; [by intros [= <- <- <-]|].
    unfold api_bind, try. destruct (claim (w_NodeName w) t e x1) as [x2 [t'|y]]; [|by apply IH]. apply IH. by apply launch_kept.
  - cbv beta iota zeta. by apply IH.
Qed.

(** A poll starts at most one run in the agent's process, none while one is running, and
    keeps to the bound on Jobs. *)
Lemma poll_keeps_slots w draining ns s e x x' s' l :
  sl_supervised s <= maxSupervised w -> pollOnce w draining ns s e x = (x', Ok (s', l)) -> slots_kept w s' l.
Proof.
  intros Hs. assert (H0 : slots_kept w s []) by (split; [done|split; [cbn; lia|done]]). unfold pollOnce. case_if; [by intros [= <- <- <-]|]. unfold mbind, api_bind. destruct (list_tasks ns e x) as [x1 [tasks|y]]; [|done].
  by apply candidates_kept.
Qed.
