(* ===== verification/ForemanRollout.v ===== *)
(** * Foreman: what a rollout promises

    How many nodes an AgentRelease updates at a time, in every run of its controller with
    the agents and the FleetNode controller; whose approval it needs before it touches a
    node; and what a rollout loses when a write of its own status fails. *)

From stdpp Require Import base strings list gmap sorting relations.
From Stdlib Require Import ZArith Lia Bool Ascii.
From S2P Require Import Prelude GoStrings GoFloat GoStrconv GoJson RouterConfig Usage Foreman ForemanTasks ForemanNodes ForemanRelease ForemanMachine ForemanSafety ForemanFacts.

(** ** The machine *)

(** The nodes that hold an update request. *)
Definition requests (c : Cluster) : gset string := dom (filter (fun kx => is_Some (fn_UpdateRequest kx.2)) (c_nodes c)).

Lemma elem_of_requests c k : k ∈ requests c <-> exists x, c_nodes c !! k = Some x /\ is_Some (fn_UpdateRequest x).
Proof.
  unfold requests. rewrite elem_of_dom. split.
  - intros [x [Hx Hu]%map_lookup_filter_Some]. eauto.
  - intros (x & Hx & Hu). exists x. by apply map_lookup_filter_Some.
Qed.

(** A release as its author wrote it. *)
Definition unstarted (r : AgentRelease) : Prop := ar_Phase r = ReleaseUnset /\ ar_NodeStatuses r = [].

Definition rollout_start (rn : string) (r : AgentRelease) : Cluster :=
  {| c_tasks := ∅; c_nodes := ∅; c_agents := ∅; c_releases := {[rn := r]}; c_revision := 0 |}.

(** The release with other switches. *)
Definition with_switches (r : AgentRelease) (approved paused : bool) : AgentRelease :=
  {| ar_Name := ar_Name r; ar_Generation := ar_Generation r + 1; ar_AgentKind := ar_AgentKind r; ar_Version := ar_Version r;
     ar_Artifacts := ar_Artifacts r; ar_Selector := ar_Selector r; ar_Concurrency := ar_Concurrency r; ar_Approved := approved;
     ar_Paused := paused; ar_MinHealthySeconds := ar_MinHealthySeconds r; ar_TimeoutSeconds := ar_TimeoutSeconds r;
     ar_Phase := ar_Phase r; ar_ObservedGeneration := ar_ObservedGeneration r; ar_DesiredVersion := ar_DesiredVersion r;
     ar_TargetNodes := ar_TargetNodes r; ar_UpdatedNodes := ar_UpdatedNodes r; ar_InFlightNodes := ar_InFlightNodes r;
     ar_NodeStatuses := ar_NodeStatuses r; ar_Conditions := ar_Conditions r |}.

(** One release, whose passes go through; the calls of the agents and of the FleetNode
    controller may fail.  An agent keeps its kind. *)
Inductive rollout_step (fmt_timeout : Z -> Z -> string) (rn : string) : Cluster -> Cluster -> Prop :=
| roll_pass c now : rollout_step fmt_timeout rn c (effect (ReconcileRelease fmt_timeout rn) (alone now (fun _ => false)) c)
| roll_heartbeat c r g phase now fault :
    c_releases c !! rn = Some r -> rg_Kind g = EmptyString \/ rg_Kind g = ar_AgentKind r ->
    rollout_step fmt_timeout rn c (effect (PatchHeartbeat g phase) (alone now fault) c)
| roll_node_pass c n now fault : rollout_step fmt_timeout rn c (effect (ReconcileNode n) (alone now fault) c)
| roll_register c g now fault :
    c_nodes c !! rg_NodeName g = None -> rollout_step fmt_timeout rn c (effect (Upsert g) (alone now fault) c)
| roll_switch c r approved paused :
    c_releases c !! rn = Some r -> rollout_step fmt_timeout rn c (set_releases c (<[rn := with_switches r approved paused]> (c_releases c))).

(** ** The invariant *)

(** The statuses know that the node was sent an update. *)
Definition tracked (l : list AgentReleaseNodeStatus) (k : string) : Prop :=
  exists s, s ∈ l /\ ns_Name s = k /\ ns_Phase s = Updating /\ is_Some (ns_DispatchedAt s).

Record rolling (rn : string) (c : Cluster) : Prop := {
  ro_nodes : forall k x, c_nodes c !! k = Some x -> fn_Name x = k;
  ro_release : exists r, c_releases c !! rn = Some r;
  ro_statuses : forall r, c_releases c !! rn = Some r -> ar_Name r = rn /\ NoDup (map ns_Name (ar_NodeStatuses r));
  ro_requests : forall r k x, c_releases c !! rn = Some r -> c_nodes c !! k = Some x -> is_Some (fn_UpdateRequest x) ->
    requested_for r x = true /\ selected r x = true /\ (release_terminal (ar_Phase r) = true \/ tracked (ar_NodeStatuses r) k);
  ro_bound : forall r, c_releases c !! rn = Some r -> Z.of_nat (size (requests c)) <= Z.max 0 (ar_Concurrency r);
}.

(** ** Programs that do not touch a rollout *)

Section Keeps.
Context (P : Cluster -> Prop) (now : Z) (fault : nat -> bool).
Let e := alone now fault.

Definition keeps {A} (m : api A) : Prop := forall w, P (wd_live w) -> P (wd_live (m e w).1).

Lemma keeps_effect {A} (m : api A) c : keeps m -> P c -> P (effect m e c).
Proof using. intros Hm Hp. by apply Hm. Qed.
Lemma keeps_ret {A} (a : A) : keeps (mret a).
Proof using. by intros w Hp. Qed.
Lemma keeps_fail {A} x : keeps (@fail A x).
Proof using. by intros w Hp. Qed.
Lemma keeps_now : keeps the_time.
Proof using. by intros w Hp. Qed.
Lemma keeps_timestamp : keeps timestamp.
Proof using. by intros w Hp. Qed.
Lemma keeps_bind {A B} (m : api A) (f : A -> api B) : keeps m -> (forall a, keeps (f a)) -> keeps (m ≫= f).
Proof using.
  intros Hm Hf w Hp. specialize (Hm w Hp). unfold mbind, api_bind. destruct (m e w) as [w' [a|x]]; [by apply Hf|done].
Qed.
Lemma keeps_try {A} (m : api A) : keeps m -> keeps (try m).
Proof using. intros Hm w Hp. specialize (Hm w Hp). unfold try. by destruct (m e w). Qed.
Lemma keeps_call {A} (f : Cluster -> Cluster -> Cluster * result api_error A) : (forall c, P c -> P (f c c).1) -> keeps (call f).
Proof using.
  intros Hf w Hp. unfold call. cbn. destruct (fault (wd_calls w)); [done|]. specialize (Hf (wd_live w) Hp). by destruct (f (wd_live w) (wd_live w)).
Qed.
End Keeps.

(** The nodes after a write of one of them that leaves its request. *)
Lemma rolling_set_node rn c k x x' :
  rolling rn c -> c_nodes c !! k = Some x -> fn_Name x' = k -> fn_UpdateRequest x' = fn_UpdateRequest x ->
  (forall r, c_releases c !! rn = Some r -> selected r x = true -> selected r x' = true) ->
  rolling rn (set_nodes c (<[k := x']> (c_nodes c))).
Proof.
  intros H Hx Hn Hu Hs. constructor.
  - intros k2 x2 [[-> ->]|[_ H2]]%lookup_write; [done|by apply (ro_nodes _ _ H)].
  - apply H.
  - apply H.
  - intros r k2 x2 Hr [[-> ->]|[_ H2]]%lookup_write Hreq; [|by apply (ro_requests _ _ H)]. rewrite Hu in Hreq.
    destruct (ro_requests _ _ H r k x Hr Hx Hreq) as (H1 & H2 & H3). unfold requested_for in *. rewrite Hu. eauto.
  - intros r Hr. etrans; [|by apply (ro_bound _ _ H)]. apply inj_le, subseteq_size.
    intros k2 (x2 & [[-> ->]|[_ H2]]%lookup_write & Hreq)%elem_of_requests; apply elem_of_requests; [exists x; by rewrite <- Hu|eauto].
Qed.

(** The rollout is in order and of agents of that kind. *)
Definition of_kind (rn kind : string) (c : Cluster) : Prop := rolling rn c /\ ar_AgentKind <$> c_releases c !! rn = Some kind.

Lemma keeps_patch_node rn kind lock base new now fault :
  fn_UpdateRequest new = fn_UpdateRequest base -> fn_AgentKind new = fn_AgentKind base \/ fn_AgentKind new = kind ->
  keeps (of_kind rn kind) now fault (patch_node lock base new).
Proof.
  intros Hu Hk. apply keeps_call. intros c [H Hkind]. cbv beta zeta.
  destruct (c_nodes c !! fn_Name base) as [x|] eqn:Hx; [|done]. case_if; [done|]. case_if; [done|]. split; [|done].
  eapply rolling_set_node; [done|done|exact (ro_nodes _ _ H _ _ Hx)| |].
  - cbn. rewrite Hu. apply pick_same.
  - intros r Hr. rewrite Hr in Hkind. injection Hkind as <-. unfold selected. cbn. intros [Hkd Hsel]%andb_true_iff. apply andb_true_iff.
    split; [|done]. apply bool_decide_eq_true in Hkd. apply bool_decide_eq_true. unfold pick. destruct Hk as [Hk|Hk]; rewrite Hk; case_if; to_prop; congruence.
Qed.

Lemma rolling_delete_node rn c k : rolling rn c -> rolling rn (set_nodes c (delete k (c_nodes c))).
Proof.
  intros H. assert (Hd : forall k' x, delete k (c_nodes c) !! k' = Some x -> c_nodes c !! k' = Some x) by (by intros k' x [_ Hx]%lookup_delete_Some).
  constructor; [by intros k' x Hx%Hd; apply (ro_nodes _ _ H)|apply H|apply H|by intros r k' x Hr Hx%Hd; apply (ro_requests _ _ H)|].
  intros r Hr. etrans; [|by apply (ro_bound _ _ H)]. apply inj_le, subseteq_size.
  intros k' (x & Hx%Hd & Hreq)%elem_of_requests. apply elem_of_requests. eauto.
Qed.

Lemma rolling_create rn c x :
  rolling rn c -> fn_UpdateRequest x = None -> c_nodes c !! fn_Name x = None -> rolling rn (set_nodes c (<[fn_Name x := x]> (c_nodes c))).
Proof.
  intros H Hu Hx. constructor; [|apply H|apply H| |].
  - intros k x2 [[-> ->]|[_ H2]]%lookup_write; [done|by apply (ro_nodes _ _ H)].
  - intros r k x2 Hr [[-> ->]|[_ H2]]%lookup_write Hreq; [|by apply (ro_requests _ _ H)]. rewrite Hu in Hreq. by destruct Hreq.
  - intros r Hr. etrans; [|by apply (ro_bound _ _ H)]. apply inj_le, subseteq_size.
    intros k (x2 & [[-> ->]|[_ H2]]%lookup_write & Hreq)%elem_of_requests; apply elem_of_requests; [rewrite Hu in Hreq; by destruct Hreq|eauto].
Qed.

Create HintDb keeps.
#[export] Hint Resolve keeps_ret keeps_fail keeps_now keeps_timestamp keeps_try : keeps.
Ltac keeps_step := first [apply keeps_bind; [|intros] | progress auto with keeps | case_match | progress cbv zeta].

Section Frame.
Context (rn kind : string) (now : Z) (fault : nat -> bool).
Local Notation K := (keeps (of_kind rn kind) now fault).

Lemma keeps_read {A} (f : Cluster -> result api_error A) : K (call (fun view live => (live, f view))).
Proof using. apply keeps_call. by intros c H. Qed.
Lemma keeps_get_node n : K (get_node n).
Proof using. apply keeps_read. Qed.
Lemma keeps_get_task ns n : K (get_task ns n).
Proof using. apply keeps_read. Qed.
Lemma keeps_status lock n x : fn_UpdateRequest x = fn_UpdateRequest n -> fn_AgentKind x = fn_AgentKind n -> K (patch_node lock n x).
Proof using. intros Hu Hk. apply keeps_patch_node; auto. Qed.
Lemma keeps_delete n : K (delete_node n).
Proof using.
  apply keeps_call. intros c [H Hk]. cbv beta zeta. destruct (c_nodes c !! fn_Name n); [|done]. case_if; [|done]. split; [by apply rolling_delete_node|done].
Qed.
Hint Resolve keeps_get_node keeps_get_task keeps_status keeps_delete : keeps.

Lemma keeps_heartbeat g phase : rg_Kind g = EmptyString \/ rg_Kind g = kind -> K (PatchHeartbeat g phase).
Proof using.
  intros Hg. unfold PatchHeartbeat. apply keeps_bind; [apply keeps_get_node|intros n]. apply keeps_bind; [apply keeps_timestamp|intros t].
  apply keeps_bind; [|intros _; apply keeps_ret]. apply keeps_patch_node; [done|]. cbn. unfold or_keep.
  destruct Hg as [Hg|Hg]; rewrite Hg; [by left|]. case_bool_decide; auto.
Qed.

Lemma keeps_node_pass n : K (ReconcileNode n).
Proof using. unfold ReconcileNode, clear_dead_reservation, reapNode, taskIsLive. repeat keeps_step. Qed.
End Frame.

(** ** A pass that goes through *)

Lemma by_name_other l : forall (m : gmap string AgentReleaseNodeStatus) k, k ∉ map ns_Name l -> foldl (fun m s => <[ns_Name s := s]> m) m l !! k = m !! k.
Proof.
  induction l as [|s l IH]; intros m k Hk; cbn; [done|]. cbn in Hk. apply not_elem_of_cons in Hk as [Hne Hk].
  rewrite IH by done. by apply lookup_insert_ne.
Qed.

Lemma by_name_lookup l s : NoDup (map ns_Name l) -> s ∈ l -> by_name l !! ns_Name s = Some s.
Proof.
  unfold by_name. generalize (∅ : gmap string AgentReleaseNodeStatus). induction l as [|s' l IH]; intros m Hnd Hin; [by apply not_elem_of_nil in Hin|].
  cbn in *. apply NoDup_cons in Hnd as [Hni Hnd]. apply elem_of_cons in Hin as [->|Hin]; [|by apply IH].
  rewrite by_name_other by done. apply lookup_insert_eq.
Qed.

(** Everything of a node but its request and version stays. *)
Definition same_node (x x' : FleetNode) : Prop := fn_Name x' = fn_Name x /\ fn_AgentKind x' = fn_AgentKind x /\ fn_Labels x' = fn_Labels x.

Lemma same_node_refl x : same_node x x.
Proof. done. Qed.

Lemma selected_same r x x' : same_node x x' -> selected r x' = selected r x.
Proof. intros (_ & Hk & Hl). unfold selected. by rewrite Hk, Hl. Qed.

Section Pass.
Context (now : Z).

(** A patch of the request of a live node. *)
Lemma runs_request c x u :
  c_nodes c !! fn_Name x = Some x ->
  exists c' y x', runs now (patch_node false x (with_updateRequest x u)) c c' (Ok y) /\ c_releases c' = c_releases c /\
    c_nodes c' !! fn_Name x = Some x' /\ same_node x x' /\ fn_UpdateRequest x' = u /\
    forall k, k <> fn_Name x -> c_nodes c' !! k = c_nodes c !! k.
Proof using.
  intros Hx. set (m := merge_node x (with_updateRequest x u) x).
  assert (Hm : same_node x m /\ fn_UpdateRequest m = u) by (split; [repeat split; apply pick_live|apply pick_live]).
  destruct (decide (m = x)) as [Heq|Hne].
  - exists c, x, x. rewrite Heq in Hm. split; [|split; [done|split; [done|split; [apply Hm|split; [apply Hm|done]]]]].
    intros n. exists (S n). unfold patch_node, call. cbn. rewrite Hx. fold m. by rewrite bool_decide_eq_true_2.
  - exists (set_nodes c (<[fn_Name x := with_version m (S (c_revision c))]> (c_nodes c))), (with_version m (S (c_revision c))), (with_version m (S (c_revision c))).
    split; [|split; [done|split; [apply lookup_insert_eq|split; [apply Hm|split; [apply Hm|]]]]].
    + intros n. exists (S n). unfold patch_node, call. cbn. rewrite Hx. fold m. by rewrite bool_decide_eq_false_2.
    + intros k Hk. by apply lookup_insert_ne.
Qed.

Lemma runs_clearRequest c x :
  c_nodes c !! fn_Name x = Some x ->
  exists c' x', runs now (clearUpdateRequest (fn_Name x)) c c' (Ok tt) /\ c_releases c' = c_releases c /\
    c_nodes c' !! fn_Name x = Some x' /\ same_node x x' /\ fn_UpdateRequest x' = None /\
    forall k, k <> fn_Name x -> c_nodes c' !! k = c_nodes c !! k.
Proof using.
  intros Hx. unfold clearUpdateRequest. pose proof (runs_get_node now (fn_Name x) c) as Hget. rewrite Hx in Hget. cbn [found] in Hget.
  destruct (fn_UpdateRequest x) as [u|] eqn:Hu.
  - destruct (runs_request c x None Hx) as (c' & y & x' & Hr & H). exists c', x'. split; [|done]. eapply runs_bind; [apply runs_try, Hget|].
    cbv beta iota. rewrite Hu. eapply runs_bind; [exact Hr|apply runs_ret].
  - exists c, x. split; [|done]. eapply runs_bind; [apply runs_try, Hget|]. cbv beta iota. rewrite Hu. apply runs_ret.
Qed.

(** What a pass makes of one node: its request is kept only when the node failed or its
    status says that it is updating. *)
Lemma runs_node_status fmt_timeout r c n s :
  c_nodes c !! fn_Name n = Some n -> ns_Name s = fn_Name n ->
  (is_Some (fn_UpdateRequest n) -> requested_for r n = true /\ ns_Phase s = Updating /\ is_Some (ns_DispatchedAt s)) ->
  exists c' s' flying failed x', runs now (node_status fmt_timeout r now n s) c c' (Ok (s', flying, failed)) /\
    c_releases c' = c_releases c /\ c_nodes c' !! fn_Name n = Some x' /\ same_node n x' /\
    (forall k, k <> fn_Name n -> c_nodes c' !! k = c_nodes c !! k) /\ ns_Name s' = fn_Name n /\
    (fn_UpdateRequest x' = fn_UpdateRequest n \/ fn_UpdateRequest x' = None) /\
    (is_Some (fn_UpdateRequest x') -> failed = true \/ ns_Phase s' = Updating /\ is_Some (ns_DispatchedAt s')).
Proof using.
  intros Hn Hname Hreq. unfold node_status. case_if.
  - unfold soak. destruct (bool_decide_reflect (ns_Phase s = Updated)) as [Hup|Hup].
    { exists c. eexists _, false, false, n. split; [eapply runs_bind; [apply runs_ret|apply runs_ret]|]. split_and!; auto using same_node_refl.
      intros (_ & Hp & _)%Hreq. congruence. }
    cbv zeta. set (s1 := if _ || _ then _ else s). set (s2 := observing s1 (fn_AgentVersion n)).
    assert (H1 : ns_Name s2 = fn_Name n /\ (is_Some (fn_UpdateRequest n) -> ns_Phase s2 = Updating /\ is_Some (ns_DispatchedAt s2))).
    { unfold s2, s1. case_if; cbn; (split; [done|]); intros (_ & Hp & Hd)%Hreq; auto. }
    case_if.
    + destruct (runs_clearRequest c n Hn) as (c' & x' & Hr & Hrel & Hx' & Hsame & Hu & Hoth).
      exists c'. eexists _, false, false, x'. split; [eapply runs_bind; [eapply runs_bind; [exact Hr|apply runs_ret]|apply runs_ret]|].
      split_and!; auto; [by apply H1|]. rewrite Hu. by intros [? ?].
    + exists c. eexists _, false, false, n. split; [eapply runs_bind; [apply runs_ret|apply runs_ret]|].
      split_and!; auto using same_node_refl; [by apply H1|]. right. by apply H1.
  - case_if.
    + exists c. destruct (await fmt_timeout r now n s) as [[s' flying] failed] eqn:Ha. exists s', flying, failed, n. split; [apply runs_ret|].
      unfold await in Ha. split_and!; auto using same_node_refl.
      * destruct (if requested_for r n then _ else _); repeat case_if; injection Ha as <- <- <-; done.
      * intros (Hrq & Hp & [d Hd])%Hreq. rewrite Hrq in Ha. cbn in Ha. rewrite Hd, Hp in Ha. cbn in Ha. case_if; injection Ha as <- <- <-; [by left|right].
        cbn. by rewrite Hp, Hd.
    + exists c. eexists _, false, false, n. split; [apply runs_ret|]. split_and!; auto using same_node_refl. intros (_ & Hp & _)%Hreq. by rewrite Hp in Heqb0.
Qed.

Lemma by_name_key l k s : by_name l !! k = Some s -> ns_Name s = k /\ s ∈ l.
Proof using.
  unfold by_name. cut (forall m : gmap string AgentReleaseNodeStatus, foldl (fun m s => <[ns_Name s := s]> m) m l !! k = Some s -> m !! k = Some s \/ ns_Name s = k /\ s ∈ l).
  { intros H Hs. destruct (H _ Hs) as [Hm|]; [by rewrite lookup_empty in Hm|done]. }
  induction l as [|s' l IH]; intros m Hs; cbn in Hs; [by left|]. destruct (IH _ Hs) as [Hm|[Hn Hin]]; [|right; split; [done|by right]].
  apply lookup_write in Hm as [[-> ->]|[_ Hm]]; [right; split; [done|by left]|by left].
Qed.

Lemma tracked_app l1 l2 k : tracked l1 k \/ tracked l2 k -> tracked (l1 ++ l2) k.
Proof using. intros [(s & Hs & H)|(s & Hs & H)]; exists s; (split; [apply elem_of_app; auto|done]). Qed.

Lemma add_tally_counts r n a s flying failed :
  ns_Phase s = Updating -> requested_for r n = true -> fn_Name n ∈ ta_inFlight (add_tally r n a s flying failed).
Proof using.
  intros Hp Hr. unfold add_tally. cbn [ta_inFlight]. rewrite Hp, Hr. cbn [negb andb bool_decide]. rewrite (bool_decide_eq_false_2 (Updating = Updated)) by done.
  rewrite (bool_decide_eq_true_2 (Updating = Updating)) by done. cbn [negb andb]. case_bool_decide; cbn [negb]; [done|]. apply elem_of_app. right. by left.
Qed.

Lemma add_tally_grows r n a s flying failed :
  ta_inFlight a ⊆ ta_inFlight (add_tally r n a s flying failed) /\ ta_failed a ⊆ ta_failed (add_tally r n a s flying failed) /\
  (failed = true -> fn_Name n ∈ ta_failed (add_tally r n a s flying failed)).
Proof using. unfold add_tally. cbn. split_and!; repeat case_match; set_solver. Qed.

(** What the passes over the nodes know of the ones that came up. *)
Definition accounted (c' : Cluster) (l : list AgentReleaseNodeStatus) (inFlight failed : list string) (n : FleetNode) : Prop :=
  exists x', c_nodes c' !! fn_Name n = Some x' /\ same_node n x' /\ (fn_UpdateRequest x' = fn_UpdateRequest n \/ fn_UpdateRequest x' = None) /\
    (is_Some (fn_UpdateRequest x') -> fn_Name n ∈ failed \/ tracked l (fn_Name n) /\ fn_Name n ∈ inFlight).

Lemma runs_compute fmt_timeout r existing nodes : forall a c,
  NoDup (map fn_Name nodes) -> (forall n, n ∈ nodes -> c_nodes c !! fn_Name n = Some n) ->
  (forall k s, existing !! k = Some s -> ns_Name s = k) ->
  (forall n, n ∈ nodes -> is_Some (fn_UpdateRequest n) -> requested_for r n = true /\
     exists s, existing !! fn_Name n = Some s /\ ns_Phase s = Updating /\ is_Some (ns_DispatchedAt s)) ->
  exists c' a' l, runs now (compute_loop fmt_timeout r now existing a nodes) c c' (Ok a') /\ c_releases c' = c_releases c /\
    ta_statuses a' = ta_statuses a ++ l /\ map ns_Name l = map fn_Name nodes /\ ta_inFlight a ⊆ ta_inFlight a' /\ ta_failed a ⊆ ta_failed a' /\
    (forall k, k ∉ map fn_Name nodes -> c_nodes c' !! k = c_nodes c !! k) /\
    forall n, n ∈ nodes -> accounted c' l (ta_inFlight a') (ta_failed a') n.
Proof using.
  induction nodes as [|n nodes IH]; intros a c Hnd Hlive Hkey Hreq; cbn [compute_loop].
  { exists c, a, []. split; [apply runs_ret|]. rewrite app_nil_r. split_and!; try done. intros n Hn. by apply not_elem_of_nil in Hn. }
  cbn in Hnd. apply NoDup_cons in Hnd as [Hni Hnd].
  destruct (runs_node_status fmt_timeout r c n (default (zero_status (fn_Name n)) (existing !! fn_Name n)) (Hlive n ltac:(by left)))
    as (c1 & s' & flying & failed & x' & Hr & Hrel & Hx' & Hsame & Hoth & Hname & Hu & Htr).
  { destruct (existing !! fn_Name n) eqn:Hs; [by apply Hkey|done]. }
  { intros Hsm. destruct (Hreq n ltac:(by left) Hsm) as (H1 & s & Hs & H2 & H3). by rewrite Hs. }
  assert (Hne : forall n', n' ∈ nodes -> fn_Name n' <> fn_Name n).
  { intros n' Hn' Heq. apply Hni. rewrite <- Heq. by apply list_elem_of_fmap_2. }
  destruct (IH (add_tally r n a s' flying failed) c1 Hnd) as (c' & a' & l & Hr' & Hrel' & Hst & Hnames & Hif & Hfl & Hout & Hacc).
  { intros n' Hn'. rewrite Hoth by auto. apply Hlive. by right. } { done. } { intros n' Hn'. apply Hreq. by right. }
  destruct (add_tally_grows r n a s' flying failed) as (Hg1 & Hg2 & Hg3).
  exists c', a', (s' :: l). split; [eapply runs_bind; [exact Hr|exact Hr']|]. split_and!.
  - congruence.
  - rewrite Hst. cbn. by rewrite <- app_assoc.
  - cbn. congruence.
  - set_solver.
  - set_solver.
  - intros k Hk. cbn in Hk. apply not_elem_of_cons in Hk as [Hk1 Hk2]. rewrite Hout by done. by apply Hoth.
  - intros n' [->|Hn']%elem_of_cons.
    + exists x'. rewrite Hout by done. split_and!; [done|done|done|]. intros Hsm. destruct (Htr Hsm) as [->|[Hp Hd]]; [left; by apply Hfl, Hg3|right].
      split; [exists s'; split; [by left|done]|]. apply Hif, add_tally_counts; [done|]. apply Hreq; [by left|]. destruct Hu as [<-|Hu]; [done|]. rewrite Hu in Hsm. by destruct Hsm.
    + destruct (Hacc n' Hn') as (y & Hy & Hsy & Huy & Hty). exists y. split_and!; [done|done|done|]. intros Hsm. destruct (Hty Hsm) as [|[Ht Hin]]; [by left|right].
      split; [|done]. apply (tracked_app [s'] l). by right.
Qed.

Lemma prepass_spec r nodes t a :
  map ns_Name (ta_statuses (prepass r nodes t a)) = map ns_Name (ta_statuses a) /\ ta_inFlight (prepass r nodes t a) = ta_inFlight a /\
  ta_failed a ⊆ ta_failed (prepass r nodes t a) /\ forall k, tracked (ta_statuses a) k -> tracked (ta_statuses (prepass r nodes t a)) k.
Proof using.
  unfold prepass. cbn. split_and!; [|done|set_solver|].
  - rewrite !map_map. apply map_ext. intros s. unfold fail_unmatched. repeat case_match; done.
  - intros k (s & Hs & Hn & Hp & Hd). exists s. split; [|done]. apply list_elem_of_fmap. exists (s, []). split; [done|].
    apply list_elem_of_fmap. exists s. split; [|done]. unfold fail_unmatched. by rewrite Hp.
Qed.

Lemma mark_dispatched_names n t sts : map ns_Name (mark_dispatched n t sts) = map ns_Name sts.
Proof using. induction sts as [|s sts IH]; cbn; [done|]. case_if; cbn; [done|]. by rewrite IH. Qed.

Lemma mark_dispatched_tracks n t sts k : tracked sts k \/ k = fn_Name n /\ k ∈ map ns_Name sts -> tracked (mark_dispatched n t sts) k.
Proof using.
  induction sts as [|s sts IH]; cbn.
  { intros [(s & Hs & _)|[_ Hk]]; [by apply not_elem_of_nil in Hs|by apply not_elem_of_nil in Hk]. }
  case_if; to_prop.
  - intros [(s' & [->|Hs]%elem_of_cons & Hn & Hp & Hd)|[-> _]].
    + eexists. split; [by left|]. done.
    + exists s'. split; [by right|done].
    + eexists. split; [by left|]. done.
  - intros H. assert (Hr : k = ns_Name s /\ tracked [s] k \/ tracked (mark_dispatched n t sts) k).
    { destruct H as [(s' & [->|Hs]%elem_of_cons & Hn & H)|[-> Hk]]; [left; split; [done|]; exists s; split; [by left|done]|right; apply IH; left; by exists s'|right; apply IH; right].
      split; [done|]. apply elem_of_cons in Hk as [Hk|Hk]; [congruence|done]. }
    apply (tracked_app [s]). tauto.
Qed.

(** At most [room] of the nodes got a request, and their statuses say so. *)
Definition sent (r : AgentRelease) (nodes : list FleetNode) (room : Z) (c : Cluster) (sts : list AgentReleaseNodeStatus) (c' : Cluster)
    (sts' : list AgentReleaseNodeStatus) : Prop :=
  exists B : gset string, c_releases c' = c_releases c /\ map ns_Name sts' = map ns_Name sts /\ Z.of_nat (size B) <= room /\
    (forall k, k ∉ B -> c_nodes c' !! k = c_nodes c !! k) /\
    (forall k, k ∈ B -> exists n x', n ∈ nodes /\ fn_Name n = k /\ c_nodes c' !! k = Some x' /\ same_node n x' /\ requested_for r x' = true /\ tracked sts' k) /\
    forall k, tracked sts k -> tracked sts' k.

Lemma sent_none r nodes room c sts : 0 <= room -> sent r nodes room c sts c sts.
Proof using. intros H. exists ∅. rewrite size_empty. split_and!; done. Qed.

Lemma runs_sending r nsMap capacity nodes : forall d sts c,
  NoDup (map fn_Name nodes) -> (forall n, n ∈ nodes -> exists x, c_nodes c !! fn_Name n = Some x /\ same_node n x) ->
  (forall n, n ∈ nodes -> fn_Name n ∈ map ns_Name sts) -> d <= capacity ->
  exists c' sts', runs now (dispatch_loop r now nsMap capacity d sts nodes) c c' (Ok sts') /\ sent r nodes (capacity - d) c sts c' sts'.
Proof using.
  induction nodes as [|n nodes IH]; intros d sts c Hnd Hlive Hnames Hd; cbn [dispatch_loop].
  { exists c, sts. split; [apply runs_ret|]. apply sent_none. lia. }
  case_if; to_prop. { exists c, sts. split; [apply runs_ret|]. apply sent_none. lia. }
  cbn in Hnd. apply NoDup_cons in Hnd as [Hni Hnd].
  assert (Hskip : exists c' sts', runs now (dispatch_loop r now nsMap capacity d sts nodes) c c' (Ok sts') /\ sent r (n :: nodes) (capacity - d) c sts c' sts').
  { destruct (IH d sts c Hnd) as (c' & sts' & H1 & B & H2 & H3 & H4 & H5 & H6 & H7); [intros n' Hn'; apply Hlive; by right|intros n' Hn'; apply Hnames; by right|done|].
    exists c', sts'. split; [done|]. exists B. split_and!; try done. intros k Hk. destruct (H6 k Hk) as (n' & x' & Hin & H). exists n', x'. split; [by right|done]. }
  cbv zeta. case_if; [exact Hskip|]. destruct (findArtifact _ _ _) as [art|]; [|exact Hskip]. clear Hskip.
  destruct (Hlive n ltac:(by left)) as (x & Hx & Hsame). pose proof (runs_get_node now (fn_Name n) c) as Hget. rewrite Hx in Hget. cbn [found] in Hget.
  set (u := Some {| ur_TargetVersion := ar_Version r; ur_URL := aa_URL art; ur_SHA256 := aa_SHA256 art |}).
  assert (Hxn : fn_Name x = fn_Name n) by apply Hsame.
  destruct (runs_request c x u ltac:(by rewrite Hxn)) as (c1 & y & x1 & Hr & Hrel & Hx1 & Hs1 & Hu1 & Hoth). rewrite Hxn in Hx1, Hoth.
  assert (Hne : forall n', n' ∈ nodes -> fn_Name n' <> fn_Name n).
  { intros n' Hn' Heq. apply Hni. rewrite <- Heq. by apply list_elem_of_fmap_2. }
  destruct (IH (d + 1) (mark_dispatched n now sts) c1 Hnd) as (c' & sts' & H1 & B & H2 & H3 & H4 & H5 & H6 & H7); [| |lia|].
  { intros n' Hn'. rewrite Hoth by auto. apply Hlive. by right. }
  { intros n' Hn'. rewrite mark_dispatched_names. apply Hnames. by right. }
  assert (HnB : fn_Name n ∉ B). { intros Hin. destruct (H6 _ Hin) as (n' & _ & Hn' & Heq & _). by eapply Hne. }
  exists c', sts'. split; [eapply runs_bind; [apply runs_try, Hget|]; eapply runs_bind; [exact Hr|exact H1]|].
  exists ({[fn_Name n]} ∪ B). split_and!.
  - congruence.
  - by rewrite H3, mark_dispatched_names.
  - rewrite size_union, size_singleton by set_solver. lia.
  - intros k Hk. rewrite H5 by set_solver. apply Hoth. set_solver.
  - intros k [->%elem_of_singleton|Hk]%elem_of_union.
    + exists n, x1. rewrite H5 by done. split_and!; [by left|done|done| | |].
      * destruct Hsame as (? & ? & ?), Hs1 as (? & ? & ?). split_and!; congruence.
      * unfold requested_for. rewrite Hu1. by apply bool_decide_eq_true.
      * apply H7, mark_dispatched_tracks. right. split; [done|]. apply Hnames. by left.
    + destruct (H6 k Hk) as (n' & x' & Hin & H). exists n', x'. split; [by right|done].
  - intros k Hk. apply H7, mark_dispatched_tracks. by left.
Qed.

(** *** Writes of the release *)

Definition same_release (r r' : AgentRelease) : Prop :=
  ar_Name r' = ar_Name r /\ ar_AgentKind r' = ar_AgentKind r /\ ar_Version r' = ar_Version r /\ ar_Selector r' = ar_Selector r /\ ar_Concurrency r' = ar_Concurrency r.

(** The program only changes the status of the release, from [r] to [r'] with [F r r']. *)
Definition writes {A} (rn : string) (m : api A) (c : Cluster) (F : AgentRelease -> AgentRelease -> Prop) : Prop :=
  exists c' a r r', runs now m c c' (Ok a) /\ c_nodes c' = c_nodes c /\ c_releases c !! rn = Some r /\ c_releases c' !! rn = Some r' /\ same_release r r' /\ F r r'.

Lemma runs_get_release name c : runs now (get_release name) c c (found (c_releases c !! name)).
Proof using. intros n. by exists (S n). Qed.

Lemma writes_patch cur new c :
  c_releases c !! ar_Name cur = Some cur ->
  writes (ar_Name cur) (patch_release cur new) c (fun r r' => r = cur /\ ar_Phase r' = ar_Phase new /\ ar_NodeStatuses r' = ar_NodeStatuses new).
Proof using.
  intros Hc. exists (set_releases c (<[ar_Name cur := merge_release cur new cur]> (c_releases c))), tt, cur, (merge_release cur new cur).
  split_and!; [|done|done|apply lookup_insert_eq|done|done|apply pick_live|apply pick_live].
  intros n. exists (S n). unfold patch_release, call. cbn. by rewrite Hc.
Qed.

Lemma writes_after {A B} rn (m : api A) (f : A -> api B) c a F : runs now m c c (Ok a) -> writes rn (f a) c F -> writes rn (m ≫= f) c F.
Proof using. intros Hm (c' & b & r & r' & Hr & H). exists c', b, r, r'. split; [by eapply runs_bind|done]. Qed.
Lemma writes_then {A B} rn (m : api A) (b : B) c F : writes rn m c F -> writes rn (_ ← m; mret b) c F.
Proof using. intros (c' & a & r & r' & Hr & H). exists c', b, r, r'. split; [eapply runs_bind; [exact Hr|apply runs_ret]|done]. Qed.
Lemma writes_weaken {A} rn (m : api A) c (F G : AgentRelease -> AgentRelease -> Prop) : writes rn m c F -> (forall r r', F r r' -> G r r') -> writes rn m c G.
Proof using. intros (c' & b & r & r' & H1 & H2 & H3 & H4 & H5 & H6) HG. exists c', b, r, r'. split_and!; auto. Qed.

Section Writes.
Context (c : Cluster) (r cur : AgentRelease).
Hypothesis Hc : c_releases c !! ar_Name r = Some cur.
Hypothesis Hn : ar_Name cur = ar_Name r.

Lemma get_current : runs now (get_release (ar_Name r)) c c (Ok cur).
Proof using Hc. pose proof (runs_get_release (ar_Name r) c) as H. by rewrite Hc in H. Qed.

Lemma patch_current new : writes (ar_Name r) (patch_release cur new) c (fun r0 r' => r0 = cur /\ ar_Phase r' = ar_Phase new /\ ar_NodeStatuses r' = ar_NodeStatuses new).
Proof using Hc Hn. rewrite <- Hn. apply writes_patch. by rewrite Hn. Qed.

Lemma writes_patchCounts target updated inFlight sts :
  writes (ar_Name r) (patchCounts r target updated inFlight sts) c (fun r0 r' => ar_Phase r' = ar_Phase r0 /\ ar_NodeStatuses r' = map stored sts).
Proof using Hc Hn.
  eapply writes_after; [apply get_current|]. eapply writes_weaken; [apply patch_current|]. by intros r0 r' (-> & Hp & Hs).
Qed.

Lemma writes_haltFailed nodeName : ar_Phase cur <> ReleaseFailed -> writes (ar_Name r) (haltFailed r nodeName) c (fun r0 r' => ar_Phase r' = ReleaseFailed /\ ar_NodeStatuses r' = ar_NodeStatuses r0).
Proof using Hc Hn.
  intros Hp. eapply writes_after; [apply get_current|]. rewrite (bool_decide_eq_false_2 (ar_Phase cur = ReleaseFailed)) by done.
  eapply writes_after; [apply runs_timestamp|]. case_match. apply writes_then. eapply writes_weaken; [apply patch_current|]. by intros r0 r' (-> & Hp' & Hs).
Qed.

(** The phase changes, the statuses do not. *)
Lemma writes_setSucceeded : ar_Phase cur <> ReleaseSucceeded -> writes (ar_Name r) (setSucceeded r) c (fun r0 r' => ar_NodeStatuses r' = ar_NodeStatuses r0).
Proof using Hc Hn.
  intros Hp. eapply writes_after; [apply get_current|]. rewrite (bool_decide_eq_false_2 (ar_Phase cur = ReleaseSucceeded)) by done.
  eapply writes_after; [apply runs_timestamp|]. apply writes_then. eapply writes_weaken; [apply patch_current|]. by intros r0 r' (-> & Hp' & Hs).
Qed.

Lemma writes_setAwaitingApproval : writes (ar_Name r) (setAwaitingApproval r) c (fun r0 r' => ar_NodeStatuses r' = ar_NodeStatuses r0).
Proof using Hc Hn.
  eapply writes_after; [apply get_current|]. eapply writes_after; [apply runs_timestamp|]. apply writes_then.
  eapply writes_weaken; [apply patch_current|]. by intros r0 r' (-> & Hp' & Hs).
Qed.

Lemma writes_setInProgress : writes (ar_Name r) (setInProgress r) c (fun r0 r' => ar_NodeStatuses r' = ar_NodeStatuses r0).
Proof using Hc Hn.
  eapply writes_after; [apply get_current|]. eapply writes_after; [apply runs_timestamp|].
  eapply writes_weaken; [apply patch_current|]. by intros r0 r' (-> & Hp' & Hs).
Qed.

Lemma writes_setReleasePending : writes (ar_Name r) (setReleasePending r) c (fun r0 r' => ar_NodeStatuses r' = ar_NodeStatuses r0).
Proof using Hc Hn.
  eapply writes_after; [apply get_current|]. apply writes_then. eapply writes_weaken; [apply patch_current|]. by intros r0 r' (-> & Hp' & Hs).
Qed.

Lemma writes_paused : writes (ar_Name r) (current ← get_release (ar_Name r);
    _ ← patch_release current (with_release_phase current ReleasePaused (ar_Conditions current)); mret done_) c (fun r0 r' => ar_NodeStatuses r' = ar_NodeStatuses r0).
Proof using Hc Hn.
  eapply writes_after; [apply get_current|]. apply writes_then. eapply writes_weaken; [apply patch_current|]. by intros r0 r' (-> & Hp' & Hs).
Qed.
End Writes.
End Pass.

(** ** Every step keeps the bound *)

Lemma selected_spec r r' x : same_release r r' -> selected r' x = selected r x /\ requested_for r' x = requested_for r x.
Proof. intros (_ & Hk & Hv & Hs & _). unfold selected, requested_for. by rewrite Hk, Hv, Hs. Qed.

(** A write of the status that does not lose a node. *)
Lemma rolling_write rn c c' r r' :
  rolling rn c -> c_nodes c' = c_nodes c -> c_releases c !! rn = Some r -> c_releases c' !! rn = Some r' -> same_release r r' ->
  NoDup (map ns_Name (ar_NodeStatuses r')) ->
  (forall k, k ∈ requests c -> release_terminal (ar_Phase r') = true \/ tracked (ar_NodeStatuses r') k) -> rolling rn c'.
Proof.
  intros H Hn Hr Hr' Hs Hnd Ht. constructor.
  - rewrite Hn. apply H.
  - eauto.
  - intros r2 Hr2. assert (r2 = r') as -> by congruence. split; [|done]. destruct (ro_statuses _ _ H _ Hr) as [<- _]. apply Hs.
  - intros r2 k x Hr2 Hx Hu. assert (r2 = r') as -> by congruence. rewrite Hn in Hx. destruct (ro_requests _ _ H r k x Hr Hx Hu) as (H1 & H2 & _).
    destruct (selected_spec r r' x Hs) as [-> ->]. split_and!; [done|done|]. apply Ht, elem_of_requests. eauto.
  - intros r2 Hr2. assert (r2 = r') as -> by congruence. destruct Hs as (_ & _ & _ & _ & ->). unfold requests. rewrite Hn. by apply (ro_bound _ _ H).
Qed.

(** The program goes through and leaves the rollout in order. *)
Definition settles {A} (now : Z) (rn : string) (m : api A) (c : Cluster) : Prop := exists c' res, runs now m c c' res /\ rolling rn c'.

Lemma settles_bind {A B} now rn (m : api A) (f : A -> api B) c c1 a : runs now m c c1 (Ok a) -> settles now rn (f a) c1 -> settles now rn (m ≫= f) c.
Proof. intros Hm (c' & res & Hf & H). exists c', res. split; [by eapply runs_bind|done]. Qed.
Lemma settles_ret {A} now rn (a : A) c : rolling rn c -> settles now rn (mret a) c.
Proof. intros H. exists c, (Ok a). split; [apply runs_ret|done]. Qed.

(** A write that leaves the statuses, of a release that is not over. *)
Lemma writes_settle {A B} rn now (m : api A) (f : A -> B) c r :
  rolling rn c -> c_releases c !! rn = Some r -> release_terminal (ar_Phase r) = false ->
  writes now rn m c (fun r0 r' => ar_NodeStatuses r' = ar_NodeStatuses r0) -> settles now rn m c /\ settles now rn (a ← m; mret (f a)) c.
Proof.
  intros H Hr Hp (c' & a & r0 & r' & Hrun & Hn & Hr0 & Hr' & Hs & Hst). assert (r0 = r) as -> by congruence.
  assert (rolling rn c'); [|split; [by exists c', (Ok a)|exists c', (Ok (f a)); split; [eapply runs_bind; [exact Hrun|apply runs_ret]|done]]].
  eapply rolling_write; [done|done|done|done|done|rewrite Hst; by apply (ro_statuses _ _ H)|]. intros k (x & Hx & Hu)%elem_of_requests. right. rewrite Hst.
  destruct (ro_requests _ _ H r k x Hr Hx Hu) as (_ & _ & [Ht|Ht]); [congruence|done].
Qed.

Lemma NoDup_map_filter {A B} (f : A -> B) p l : NoDup (map f l) -> NoDup (map f (List.filter p l)).
Proof.
  induction l as [|a l IH]; cbn; [done|]. intros [Hni Hnd]%NoDup_cons. destruct (p a); cbn; [|by apply IH]. apply NoDup_cons. split; [|by apply IH].
  intros (b & Hab & [Hb _]%list_elem_of_In%filter_In)%list_elem_of_fmap. apply Hni. rewrite Hab. rewrite <- list_elem_of_In in Hb. by apply list_elem_of_fmap_2.
Qed.

(** The nodes of the release, each once. *)
Definition targets (r : AgentRelease) (c : Cluster) (nodes : list FleetNode) : Prop :=
  NoDup (map fn_Name nodes) /\ forall n, n ∈ nodes <-> c_nodes c !! fn_Name n = Some n /\ selected r n = true.

Lemma runs_targets now rn c r :
  rolling rn c -> ar_Selector r <> Some None -> exists nodes, runs now (resolveTargetNodes r) c c (Ok nodes) /\ targets r c nodes.
Proof.
  intros H Hsel. set (nodes := merge_sort node_le (List.filter (selected r) (map_to_list (c_nodes c)).*2)). exists nodes. split.
  - assert (Hlist : runs now list_nodes c c (Ok (map_to_list (c_nodes c)).*2)) by apply runs_call.
    eapply runs_bind; [exact Hlist|]. destruct (ar_Selector r) as [[|]|]; try done; apply runs_ret.
  - assert (Hkeys : map fn_Name (map_to_list (c_nodes c)).*2 = (map_to_list (c_nodes c)).*1).
    { change (fn_Name <$> (snd <$> map_to_list (c_nodes c)) = fst <$> map_to_list (c_nodes c)). rewrite <- list_fmap_compose. apply list_fmap_ext.
      intros i [k x] Hi%list_elem_of_lookup_2%elem_of_map_to_list. by apply (ro_nodes _ _ H). }
    split.
    + unfold nodes. rewrite merge_sort_Permutation. apply NoDup_map_filter. rewrite Hkeys. apply NoDup_fst_map_to_list.
    + intros n. unfold nodes. rewrite merge_sort_Permutation, list_elem_of_In, filter_In, <- list_elem_of_In, list_elem_of_fmap. split.
      * intros [([k x] & -> & Hx%elem_of_map_to_list) Hs]. cbn. by rewrite (ro_nodes _ _ H _ _ Hx).
      * intros [Hn Hs]. split; [|done]. exists (fn_Name n, n). split; [done|]. by apply elem_of_map_to_list.
Qed.

(** After the count: no request is new, and each is of a node that failed or is in flight. *)
Record counted (c c1 : Cluster) (nodes : list FleetNode) (a : tally) : Prop := {
  co_releases : c_releases c1 = c_releases c;
  co_names : map ns_Name (ta_statuses a) = map fn_Name nodes;
  co_live : forall n, n ∈ nodes -> exists x, c_nodes c1 !! fn_Name n = Some x /\ same_node n x;
  co_before : forall k x', c_nodes c1 !! k = Some x' -> exists x, c_nodes c !! k = Some x /\ same_node x x' /\
    (fn_UpdateRequest x' = fn_UpdateRequest x \/ fn_UpdateRequest x' = None);
  co_requests : forall k, k ∈ requests c1 -> k ∈ ta_failed a \/ tracked (ta_statuses a) k /\ k ∈ ta_inFlight a;
}.

Lemma runs_counts fmt_timeout now rn c r nodes :
  rolling rn c -> c_releases c !! rn = Some r -> release_terminal (ar_Phase r) = false -> targets r c nodes ->
  exists c1 a, runs now (computeNodeStatuses fmt_timeout r nodes now) c c1 (Ok a) /\ counted c c1 nodes (prepass r nodes now a).
Proof.
  intros H Hr Hp [Hnd Hin]. destruct (ro_statuses _ _ H r Hr) as [_ Hst].
  destruct (runs_compute now fmt_timeout r (by_name (ar_NodeStatuses r)) nodes no_tally c Hnd) as (c1 & a & l & Hrun & Hrel & Hs & Hnames & _ & _ & Hout & Hacc).
  { intros n Hn. by apply Hin. } { intros k s Hs. by apply by_name_key in Hs as [Hs _]. }
  { intros n [Hn _]%Hin Hu. destruct (ro_requests _ _ H r _ n Hr Hn Hu) as (H1 & _ & [Ht|(s & Hsin & Hsn & H3)]); [congruence|].
    split; [done|]. exists s. split; [|done]. rewrite <- Hsn. by apply by_name_lookup. }
  cbn in Hs. exists c1, a. split; [done|]. destruct (prepass_spec r nodes now a) as (Hp1 & Hp2 & Hp3 & Hp4). constructor.
  - done.
  - by rewrite Hp1, Hs.
  - intros n Hn. destruct (Hacc n Hn) as (x & Hx & Hsame & _). eauto.
  - intros k x' Hx'. destruct (decide (k ∈ map fn_Name nodes)) as [(n & -> & Hn)%list_elem_of_fmap|Hk].
    + destruct (Hacc n Hn) as (x & Hx & Hsame & Hu & _). assert (x = x') as -> by congruence. exists n. split; [by apply Hin|done].
    + rewrite Hout in Hx' by done. exists x'. split_and!; auto using same_node_refl.
  - intros k (x' & Hx' & Hu)%elem_of_requests. rewrite Hp2. destruct (decide (k ∈ map fn_Name nodes)) as [(n & -> & Hn)%list_elem_of_fmap|Hk].
    + destruct (Hacc n Hn) as (x & Hx & _ & _ & Ht). assert (x = x') as -> by congruence. destruct (Ht Hu) as [Hf|[Ht1 Ht2]]; [left; by apply Hp3|right].
      split; [|done]. apply Hp4. by rewrite Hs.
    + rewrite Hout in Hx' by done. destruct (ro_requests _ _ H r k x' Hr Hx' Hu) as (_ & Hsl & _). pose proof (ro_nodes _ _ H _ _ Hx') as Hk'.
      destruct Hk. rewrite <- Hk'. apply list_elem_of_fmap_2, Hin. by rewrite Hk'.
Qed.

Lemma tracked_stored l k : tracked l k -> tracked (map stored l) k.
Proof.
  intros (s & Hs & Hn & Hp & [d Hd]). exists (stored s). split; [by apply list_elem_of_fmap_2|]. cbn. by rewrite Hd.
Qed.

Lemma names_stored l : map ns_Name (map stored l) = map ns_Name l.
Proof. rewrite map_map. by apply map_ext. Qed.

Lemma same_release_trans r1 r2 r3 : same_release r1 r2 -> same_release r2 r3 -> same_release r1 r3.
Proof. unfold same_release. intuition congruence. Qed.

(** A set within a list and another set. *)
Lemma size_within (X B : gset string) (l : list string) : (forall k, k ∈ X -> k ∈ l \/ k ∈ B) -> (size X <= length l + size B)%nat.
Proof.
  revert X. induction l as [|k l IH]; intros X HX.
  - apply subseteq_size. intros k Hk. destruct (HX k Hk) as [Hn|]; [by apply not_elem_of_nil in Hn|done].
  - assert (Hd : (size (X ∖ {[k]}) <= length l + size B)%nat).
    { apply IH. intros k' [Hk' Hne]%elem_of_difference. destruct (HX k' Hk') as [[->|Hin]%elem_of_cons|]; [set_solver|by left|by right]. }
    assert (Hs : X ⊆ {[k]} ∪ X ∖ {[k]}) by (intros k' Hk'; destruct (decide (k' = k)); set_solver).
    apply subseteq_size in Hs. rewrite size_union, size_singleton in Hs by set_solver. cbn. lia.
Qed.

Section Counted.
Context (rn : string) (c c1 : Cluster) (r : AgentRelease) (nodes : list FleetNode) (a : tally).
Hypothesis H : rolling rn c.
Hypothesis Hr : c_releases c !! rn = Some r.
Hypothesis Ht : targets r c nodes.
Hypothesis Hc : counted c c1 nodes a.

Lemma counted_requests k x' : c_nodes c1 !! k = Some x' -> is_Some (fn_UpdateRequest x') -> requested_for r x' = true /\ selected r x' = true /\ k ∈ requests c.
Proof using H Hr Hc.
  intros Hx' Hu. destruct (co_before _ _ _ _ Hc _ _ Hx') as (x & Hx & Hsame & [Heq|Heq]); [|rewrite Heq in Hu; by destruct Hu].
  destruct (ro_requests _ _ H r k x Hr Hx) as (H1 & H2 & _); [by rewrite <- Heq|].
  rewrite (selected_same _ _ _ Hsame). unfold requested_for in *. rewrite Heq. split_and!; [done|done|]. apply elem_of_requests. exists x. by rewrite <- Heq.
Qed.

Lemma counted_names : NoDup (map ns_Name (map stored (ta_statuses a))).
Proof using Ht Hc. rewrite names_stored, (co_names _ _ _ _ Hc). apply Ht. Qed.

(** The statuses of the count are written, and the release is over if a node failed. *)
Lemma counted_rolling c2 r2 :
  c_nodes c2 = c_nodes c1 -> c_releases c2 !! rn = Some r2 -> same_release r r2 -> ar_NodeStatuses r2 = map stored (ta_statuses a) ->
  release_terminal (ar_Phase r2) = true \/ ta_failed a = [] -> rolling rn c2.
Proof using H Hr Ht Hc.
  intros Hn Hr2 Hs Hst Hover. constructor.
  - intros k x'. rewrite Hn. intros Hx'. destruct (co_before _ _ _ _ Hc _ _ Hx') as (x & Hx & [-> _] & _). by apply (ro_nodes _ _ H).
  - eauto.
  - intros r3 Hr3. assert (r3 = r2) as -> by congruence. rewrite Hst. split; [|apply counted_names]. destruct (ro_statuses _ _ H _ Hr) as [<- _]. apply Hs.
  - intros r3 k x' Hr3 Hx' Hu. assert (r3 = r2) as -> by congruence. rewrite Hn in Hx'. destruct (counted_requests k x' Hx' Hu) as (H1 & H2 & _).
    destruct (selected_spec r r2 x' Hs) as [-> ->]. split_and!; [done|done|]. destruct Hover as [Ho|Ho]; [by left|right].
    destruct (co_requests _ _ _ _ Hc k) as [Hf|[Hf _]]; [apply elem_of_requests; eauto|rewrite Ho in Hf; by apply not_elem_of_nil in Hf|].
    rewrite Hst. by apply tracked_stored.
  - intros r3 Hr3. assert (r3 = r2) as -> by congruence. destruct Hs as (_ & _ & _ & _ & ->). etrans; [|by apply (ro_bound _ _ H)].
    apply inj_le, subseteq_size. intros k (x' & Hx' & Hu)%elem_of_requests. rewrite Hn in Hx'. by eapply counted_requests.
Qed.

(** Requests went out, and the statuses with them. *)
Lemma sent_rolling c2 c3 c4 r2 r4 sts :
  ta_failed a = [] -> c_nodes c2 = c_nodes c1 -> c_releases c2 !! rn = Some r2 ->
  sent r nodes (ar_Concurrency r - Z.of_nat (length (ta_inFlight a))) c2 (ta_statuses a) c3 sts ->
  c_nodes c4 = c_nodes c3 -> c_releases c4 !! rn = Some r4 -> same_release r r4 -> ar_NodeStatuses r4 = map stored sts -> rolling rn c4.
Proof using H Hr Ht Hc.
  intros Hf Hn2 Hr2 (B & Hrel & Hnames & Hsize & Hout & HB & Hkeep) Hn4 Hr4 Hs Hst.
  assert (Hin : forall k, k ∈ requests c1 -> tracked (ta_statuses a) k /\ k ∈ ta_inFlight a).
  { intros k Hk. destruct (co_requests _ _ _ _ Hc k Hk) as [Hk'|]; [rewrite Hf in Hk'; by apply not_elem_of_nil in Hk'|done]. }
  constructor.
  - intros k x'. rewrite Hn4. intros Hx'. destruct (decide (k ∈ B)) as [Hk|Hk].
    + destruct (HB k Hk) as (n & y & _ & <- & Hy & [Hyn _] & _). congruence.
    + rewrite Hout, Hn2 in Hx' by done. destruct (co_before _ _ _ _ Hc _ _ Hx') as (x & Hx & [-> _] & _). by apply (ro_nodes _ _ H).
  - eauto.
  - intros r3 Hr3. assert (r3 = r4) as -> by congruence. rewrite Hst, names_stored, Hnames, <- names_stored. split; [|apply counted_names].
    destruct (ro_statuses _ _ H _ Hr) as [<- _]. apply Hs.
  - intros r3 k x' Hr3 Hx' Hu. assert (r3 = r4) as -> by congruence. rewrite Hn4 in Hx'. destruct (selected_spec r r4 x' Hs) as [-> ->].
    rewrite Hst. destruct (decide (k ∈ B)) as [Hk|Hk].
    + destruct (HB k Hk) as (n & y & Hn & <- & Hy & Hsame & Hrq & Htr). assert (y = x') as -> by congruence. rewrite (selected_same _ _ _ Hsame).
      split_and!; [done|by apply Ht|right; by apply tracked_stored].
    + rewrite Hout, Hn2 in Hx' by done. destruct (counted_requests k x' Hx' Hu) as (H1 & H2 & _). split_and!; [done|done|right].
      apply tracked_stored, Hkeep, Hin, elem_of_requests. eauto.
  - intros r3 Hr3. assert (r3 = r4) as -> by congruence. destruct Hs as (_ & _ & _ & _ & ->).
    assert (Hsub : (size (requests c4) <= length (ta_inFlight a) + size B)%nat); [|lia]. apply size_within.
    intros k (x' & Hx' & Hu)%elem_of_requests. rewrite Hn4 in Hx'. destruct (decide (k ∈ B)) as [Hk|Hk]; [by right|left].
    rewrite Hout, Hn2 in Hx' by done. apply Hin, elem_of_requests. eauto.
Qed.
End Counted.

Section Active.
Context (fmt_timeout : Z -> Z -> string) (now : Z) (c : Cluster) (r : AgentRelease).
Hypothesis H : rolling (ar_Name r) c.
Hypothesis Hr : c_releases c !! ar_Name r = Some r.
Hypothesis Hp : release_terminal (ar_Phase r) = false.

Lemma runs_advance c1 c2 r2 nodes a :
  targets r c nodes -> counted c c1 nodes a -> ta_failed a = [] -> c_nodes c2 = c_nodes c1 -> c_releases c2 !! ar_Name r = Some r2 ->
  same_release r r2 -> ar_Phase r2 = ar_Phase r -> rolling (ar_Name r) c2 ->
  exists c4 r4, runs now (advance r nodes now a) c2 c4 (Ok tt) /\ rolling (ar_Name r) c4 /\ c_releases c4 !! ar_Name r = Some r4 /\
    ar_Name r4 = ar_Name r /\ ar_Phase r4 = ar_Phase r.
Proof using H Hr.
  intros Ht Hc Hf Hn Hr2 Hs Hph H2. unfold advance. cbv zeta. case_if; to_prop.
  2: { exists c2, r2. split; [apply runs_ret|]. split_and!; try done. apply Hs. }
  destruct (runs_sending now r (by_name (ta_statuses a)) (ar_Concurrency r - Z.of_nat (length (ta_inFlight a))) nodes 0 (ta_statuses a) c2)
    as (c3 & sts & Hrun & Hsent).
  { apply Ht. } { rewrite Hn. apply Hc. } { intros n Hn'. rewrite (co_names _ _ _ _ Hc). by apply list_elem_of_fmap_2. } { lia. }
  rewrite Z.sub_0_r in Hsent. assert (Hr3 : c_releases c3 !! ar_Name r = Some r2) by (destruct Hsent as (B & -> & _); done).
  destruct (writes_patchCounts now c3 r r2 Hr3 ltac:(apply Hs) (wrap32 (Z.of_nat (length nodes))) (wrap32 (ta_updated a))
    (map ns_Name (List.filter (fun s => bool_decide (ns_Phase s = Updating)) sts)) sts) as (c4 & [] & r0 & r4 & Hrun4 & Hn4 & Hr0 & Hr4 & Hs4 & Hp4 & Hst4).
  assert (r0 = r2) as -> by congruence. exists c4, r4. split; [eapply runs_bind; [exact Hrun|exact Hrun4]|].
  pose proof (same_release_trans _ _ _ Hs Hs4) as Hs'. split_and!; [|done|apply Hs'|congruence].
  eapply sent_rolling; [exact H|exact Hr|exact Ht|exact Hc|exact Hf|exact Hn|exact Hr2|exact Hsent|done|done|done|done].
Qed.

Lemma active_settles : settles now (ar_Name r) (reconcileActive fmt_timeout r) c.
Proof using H Hr Hp.
  assert (ar_Selector r = Some None \/ ar_Selector r <> Some None) as [Hsel|Hsel] by (destruct (ar_Selector r) as [[|]|]; auto).
  { exists c, (Err Invalid). split; [|done]. eapply runs_bind; [apply runs_now|]. apply runs_bind_err.
    assert (Hlist : runs now list_nodes c c (Ok (map_to_list (c_nodes c)).*2)) by apply runs_call.
    eapply runs_bind; [exact Hlist|]. rewrite Hsel. intros n. by exists n. }
  destruct (runs_targets now _ c r H Hsel) as (nodes & Hrn & Ht).
  destruct (runs_counts fmt_timeout now _ c r nodes H Hr Hp Ht) as (c1 & a0 & Hr1 & Hc).
  eapply settles_bind; [apply runs_now|]. eapply settles_bind; [exact Hrn|]. eapply settles_bind; [exact Hr1|]. cbv beta zeta.
  set (a := prepass r nodes now a0) in *. assert (Hrel : c_releases c1 !! ar_Name r = Some r) by (rewrite (co_releases _ _ _ _ Hc); done).
  destruct (writes_patchCounts now c1 r r Hrel eq_refl (wrap32 (Z.of_nat (length nodes))) (wrap32 (ta_updated a)) (ta_inFlight a) (ta_statuses a))
    as (c2 & [] & r0 & r2 & Hrun2 & Hn2 & Hr0 & Hr2 & Hs2 & Hp2 & Hst2). assert (r0 = r) as -> by congruence.
  eapply settles_bind; [exact Hrun2|]. pose proof (counted_rolling _ c c1 r nodes a H Hr Ht Hc) as Hroll. destruct (ta_failed a) as [|nodeName rest] eqn:Hf.
  2: { destruct (writes_haltFailed now c2 r r2 Hr2 ltac:(apply Hs2) nodeName) as (c3 & res & r3 & r4 & Hrun3 & Hn3 & Hr3 & Hr4 & Hs3 & Hp3 & Hst3).
       { rewrite Hp2. intros He. by rewrite He in Hp. }
       assert (r3 = r2) as -> by congruence. exists c3, (Ok res). split; [done|].
       apply (Hroll c3 r4); [congruence|done|by eapply same_release_trans|congruence|left; by rewrite Hp3]. }
  assert (H2 : rolling (ar_Name r) c2) by (apply (Hroll c2 r2); auto). assert (Hp2' : release_terminal (ar_Phase r2) = false) by congruence.
  case_if; [|case_if].
  - eapply (writes_settle _ _ _ id); [done|exact Hr2|done|]. apply (writes_setSucceeded now c2 r r2); [done|apply Hs2|]. intros He. by rewrite He in Hp2'.
  - eapply (writes_settle _ _ _ id); [done|exact Hr2|done|]. apply (writes_setAwaitingApproval now c2 r r2); [done|apply Hs2].
  - destruct (runs_advance c1 c2 r2 nodes a Ht Hc Hf Hn2 Hr2 Hs2 Hp2 H2) as (c4 & r4 & Hrun4 & H4 & Hr4 & Hn4 & Hp4).
    eapply settles_bind; [exact Hrun4|]. eapply (writes_settle _ _ _ (fun _ => requeue_of r)); [done|exact Hr4|congruence|].
    by apply (writes_setInProgress now c4 r r4).
Qed.
End Active.

Lemma pass_settles fmt_timeout now rn c : rolling rn c -> settles now rn (ReconcileRelease fmt_timeout rn) c.
Proof.
  intros H. destruct (ro_release _ _ H) as [r Hr]. destruct (ro_statuses _ _ H r Hr) as [<- _].
  pose proof (runs_get_release now (ar_Name r) c) as Hget. rewrite Hr in Hget. cbn [found] in Hget.
  unfold ReconcileRelease. eapply settles_bind; [apply runs_try, Hget|]. cbv beta iota.
  assert (Hout : forall p, ar_Phase r = p -> release_terminal p = false -> release_terminal (ar_Phase r) = false) by congruence.
  case_if; [unfold setPaused; case_if; [by apply settles_ret|]|case_if; [|case_if; [by apply settles_ret|by apply active_settles]]].
  - apply orb_false_iff in Heqb0 as [_ Hp]. eapply (writes_settle _ _ _ id); [done|exact Hr|done|]. by apply (writes_paused now c r r).
  - to_prop. eapply (writes_settle _ _ _ id); [done|exact Hr|by eapply Hout|]. by apply (writes_setReleasePending now c r r).
Qed.

(** *** The other steps *)

Lemma rolling_kind rn c r : rolling rn c -> c_releases c !! rn = Some r -> of_kind rn (ar_AgentKind r) c.
Proof. intros H Hr. split; [done|]. by rewrite Hr. Qed.

Lemma register_rolling rn c g now fault : rolling rn c -> c_nodes c !! rg_NodeName g = None -> rolling rn (effect (Upsert g) (alone now fault) c).
Proof.
  intros H Hn. unfold effect, Upsert, mbind, api_bind, try, get_node, call. cbn. destruct (fault 0%nat); [done|]. cbn. rewrite Hn. cbn.
  unfold create_node, call. cbn. destruct (fault 1%nat); [done|]. cbn. rewrite Hn. cbn.
  apply (rolling_create rn c (with_version (new_node g (wire now)) (S (c_revision c)))); done.
Qed.

Lemma switch_rolling rn c r approved paused :
  rolling rn c -> c_releases c !! rn = Some r -> rolling rn (set_releases c (<[rn := with_switches r approved paused]> (c_releases c))).
Proof.
  intros H Hr. eapply rolling_write; [exact H|done|exact Hr|apply lookup_insert_eq|done|apply (ro_statuses _ _ H r Hr)|].
  intros k (x & Hx & Hu)%elem_of_requests. by apply (ro_requests _ _ H r k x Hr Hx Hu).
Qed.

Lemma step_rolling fmt_timeout rn c c' : rollout_step fmt_timeout rn c c' -> rolling rn c -> rolling rn c'.
Proof.
  intros [c0 now|c0 r g phase now fault Hr Hg|c0 n now fault|c0 g now fault Hn|c0 r approved paused Hr] H.
  - destruct (pass_settles fmt_timeout now rn c0 H) as (c1 & res & Hrun & H1). by rewrite (runs_effect _ _ _ _ _ Hrun).
  - apply (keeps_effect (of_kind rn (ar_AgentKind r)) now fault (PatchHeartbeat g phase)); [by apply keeps_heartbeat|by apply rolling_kind].
  - destruct (ro_release _ _ H) as [r Hr].
    apply (keeps_effect (of_kind rn (ar_AgentKind r)) now fault (ReconcileNode n)); [apply keeps_node_pass|by apply rolling_kind].
  - by apply register_rolling.
  - by apply switch_rolling.
Qed.

Lemma start_rolling r : unstarted r -> rolling (ar_Name r) (rollout_start (ar_Name r) r).
Proof.
  intros [Hp Hs]. constructor; cbn.
  - intros k x Hx. by rewrite lookup_empty in Hx.
  - exists r. apply lookup_singleton_eq.
  - intros r' [_ <-]%lookup_singleton_Some. rewrite Hs. split; [done|]. apply NoDup_nil_2.
  - intros r' k x _ Hx. by rewrite lookup_empty in Hx.
  - intros r' _. unfold requests. cbn. rewrite map_filter_empty, dom_empty_L, size_empty. lia.
Qed.

(** The spec of a release does not change but for its switches. *)
Lemma reachable_rolling fmt_timeout r c : unstarted r -> rtc (rollout_step fmt_timeout (ar_Name r)) (rollout_start (ar_Name r) r) c -> rolling (ar_Name r) c.
Proof.
  intros Hu Hs. pose proof (start_rolling r Hu) as H. revert Hs H. generalize (rollout_start (ar_Name r) r). induction 1; [done|]. eauto using step_rolling.
Qed.

(** ** What a rollout promises *)


(** ** What it does not *)

(** A node that was sent its request but whose status says Pending without a time of dispatch (the write of the statuses failed after the
    requests were written), and a node whose status says Failed (the write that halts the release failed after the statuses were written), are never
    again counted as in flight or as failed while they do not report the version, whatever the time: the first does not time out and the second does
    not halt the rollout; and neither is sent another request. *)
Lemma lost_nodes_not_counted fmt_timeout r now n s :
  fn_AgentVersion n <> ar_Version r -> requested_for r n = true -> ns_Phase s = UpdatePending /\ ns_DispatchedAt s = None \/ ns_Phase s = UpdateFailed ->
  forall e w a, exists s', node_status fmt_timeout r now n s e w = (w, Ok (s', false, false)) /\ ns_Phase s' = ns_Phase s /\ ns_DispatchedAt s' = ns_DispatchedAt s /\
    ta_inFlight (add_tally r n a s' false false) = ta_inFlight a /\ ta_failed (add_tally r n a s' false false) = ta_failed a /\ candidate r n s' = false.
Proof.
  intros Hv Hr Hs e w a. exists (observing s (fn_AgentVersion n)).
  assert (Hc : candidate r n (observing s (fn_AgentVersion n)) = false) by (unfold candidate; rewrite Hr; by rewrite andb_false_r).
  unfold node_status. rewrite (bool_decide_eq_false_2 (fn_AgentVersion n = ar_Version r)) by done. cbn [andb].
  destruct Hs as [[Hp Hd]|Hp]; unfold add_tally; cbn; rewrite Hp; cbn; (split; [|done]); [|done].
  unfold await. rewrite Hr. cbn. rewrite Hd, Hp. done.
Qed.

(** ** Approval *)

(** The nodes with a request are among [R]. *)
Lemma keeps_requests_patch (R : gset string) now fault cur : keeps (fun c => requests c ⊆ R) now fault (patch_node false cur (with_updateRequest cur None)).
Proof.
  apply keeps_call. intros c Hc. cbv beta zeta. destruct (c_nodes c !! fn_Name cur) as [x|] eqn:Hx; [|done]. cbn [andb]. case_if; [done|].
  intros k (x2 & [[-> ->]|[_ H2]]%lookup_write & Hu)%elem_of_requests; [|apply Hc, elem_of_requests; eauto]. apply Hc, elem_of_requests. exists x. split; [done|].
  cbn in Hu. unfold pick in Hu. case_bool_decide; [done|by destruct Hu].
Qed.

Section Approval.
Context (R : gset string) (now : Z) (fault : nat -> bool).
Local Notation K := (keeps (fun c => requests c ⊆ R) now fault).

Lemma keeps_view {A} (f : Cluster -> result api_error A) : K (call (fun view live => (live, f view))).
Proof using. apply keeps_call. by intros c H. Qed.
Lemma keeps_view_node n : K (get_node n).
Proof using. apply keeps_view. Qed.
Lemma keeps_view_nodes : K list_nodes.
Proof using. apply (keeps_view (fun c => Ok (map_to_list (c_nodes c)).*2)). Qed.
Lemma keeps_view_release n : K (get_release n).
Proof using. apply keeps_view. Qed.
Lemma keeps_write_release base new : K (patch_release base new).
Proof using. apply keeps_call. intros c Hc. cbv beta zeta. by destruct (c_releases c !! ar_Name base). Qed.
Hint Resolve keeps_requests_patch keeps_view_node keeps_view_nodes keeps_view_release keeps_write_release : keeps.

Lemma keeps_count fmt_timeout r existing nodes t : forall a, K (compute_loop fmt_timeout r t existing a nodes).
Proof using.
  induction nodes as [|n nodes IH]; intros a; cbn [compute_loop]; [apply keeps_ret|]. apply keeps_bind; [|intros [[s flying] failed]; apply IH].
  unfold node_status, soak, clearUpdateRequest. repeat keeps_step.
Qed.

Lemma keeps_unapproved fmt_timeout r : ar_Approved r = false -> K (reconcileActive fmt_timeout r).
Proof using.
  intros Ha. unfold reconcileActive, resolveTargetNodes, computeNodeStatuses, patchCounts, haltFailed, setSucceeded, setAwaitingApproval.
  rewrite Ha. cbn [negb]. pose proof keeps_count. repeat keeps_step.
Qed.
End Approval.


(** ** A fleet of two *)

Module Fleet.
Definition fmt (_ _ : Z) : string := EmptyString.
Definition at_ : Z := 1000 * second.
Definition none (_ : nat) : bool := false.

Definition host (n version : string) : Registrar :=
  {| rg_NodeName := n; rg_Roles := []; rg_Labels := ∅; rg_Capability := no_capability; rg_KubernetesNode := EmptyString;
     rg_Version := version; rg_Kind := "foreman-agent"; rg_OS := "darwin"; rg_Arch := "arm64" |}.

Definition release : AgentRelease :=
  {| ar_Name := "r1"; ar_Generation := 1; ar_AgentKind := "foreman-agent"; ar_Version := "2.0";
     ar_Artifacts := [{| aa_OS := "darwin"; aa_Arch := "arm64"; aa_URL := "u"; aa_SHA256 := "s" |}]; ar_Selector := None; ar_Concurrency := 1;
     ar_Approved := false; ar_Paused := false; ar_MinHealthySeconds := 60; ar_TimeoutSeconds := 600; ar_Phase := ReleaseUnset; ar_ObservedGeneration := 0;
     ar_DesiredVersion := EmptyString; ar_TargetNodes := 0; ar_UpdatedNodes := 0; ar_InFlightNodes := []; ar_NodeStatuses := []; ar_Conditions := [] |}.

Definition joins (n : string) (c : Cluster) : Cluster := effect (Upsert (host n "1.0")) (alone at_ none) c.
Definition beats (n version : string) (t : Z) (c : Cluster) : Cluster := effect (PatchHeartbeat (host n version) NodeReady) (alone t none) c.
Definition pass (t : Z) (fault : nat -> bool) (c : Cluster) : Cluster := effect (ReconcileRelease fmt "r1") (alone t fault) c.
Definition the_release (c : Cluster) : AgentRelease := default release (c_releases c !! "r1").
Definition approve (c : Cluster) : Cluster := set_releases c (<["r1" := with_switches (the_release c) true false]> (c_releases c)).
Definition the_node (c : Cluster) (n : string) : FleetNode := default (new_node (host n "1.0") 0) (c_nodes c !! n).
Definition the_status (c : Cluster) (n : string) : AgentReleaseNodeStatus := default (zero_status n) (by_name (ar_NodeStatuses (the_release c)) !! n).

Definition joined : Cluster := joins "b" (beats "a" "1.0" at_ (joins "a" (rollout_start "r1" release))).
Definition ready : Cluster := beats "b" "1.0" at_ joined.
Definition pending : Cluster := pass at_ none ready.
Definition approved : Cluster := approve pending.
Definition sent : Cluster := pass at_ none approved.

Local Notation step := (rollout_step fmt "r1").

Lemma beat_step n version t c : is_Some (c_releases c !! "r1") -> ar_AgentKind (the_release c) = "foreman-agent" -> step c (beats n version t c).
Proof. intros [r Hr] Hk. unfold the_release in Hk. rewrite Hr in Hk. eapply (roll_heartbeat _ _ c r (host n version) NodeReady t none Hr). by right. Qed.

Lemma approve_step c : is_Some (c_releases c !! "r1") -> step c (approve c).
Proof. intros [r Hr]. unfold approve, the_release. rewrite Hr. by apply roll_switch. Qed.

Lemma ready_reached : rtc step (rollout_start "r1" release) ready.
Proof.
  eapply rtc_l; [apply (roll_register _ _ _ (host "a" "1.0") at_ none); by vm_compute|].
  eapply rtc_l; [apply (beat_step "a" "1.0" at_); [vm_compute; eauto|by vm_compute]|].
  eapply rtc_l; [apply (roll_register _ _ _ (host "b" "1.0") at_ none); by vm_compute|].
  eapply rtc_l; [apply (beat_step "b" "1.0" at_); [vm_compute; eauto|by vm_compute]|]. apply rtc_refl.
Qed.

Lemma sent_reached : rtc step (rollout_start "r1" release) sent.
Proof.
  etrans; [exact ready_reached|]. eapply rtc_l; [apply (roll_pass _ _ ready at_)|].
  eapply rtc_l; [apply (approve_step pending); vm_compute; eauto|]. eapply rtc_l; [apply (roll_pass _ _ approved at_)|]. apply rtc_refl.
Qed.

(** The write of the statuses after the dispatch fails, and the controller tries again. *)
Definition lost : Cluster := pass at_ (fun n => Nat.eqb n 6) approved.
Definition retried : Cluster := pass at_ none lost.

(** A node times out, and the write that halts the release fails. *)
Definition limping : Cluster := pass (at_ + 601 * second) (fun n => Nat.eqb n 4) sent.
Definition went_on : Cluster := pass (at_ + 601 * second) none limping.

(** A node on the version, seen at the start of its soak window, silent for longer than the
    heartbeats may be apart, seen silent by a pass, and back. *)
Definition soaking : Cluster := pass (at_ + 10 * second) none (beats "a" "2.0" (at_ + 10 * second) sent).
Definition silent : Cluster := pass (at_ + 150 * second) none soaking.
Definition back : Cluster := pass (at_ + 200 * second) none (beats "a" "2.0" (at_ + 200 * second) silent).

(** A node that had the version before the release did. *)
Definition one_ahead : Cluster := pass at_ none (beats "b" "2.0" at_ approved).
End Fleet.



(** A status write that fails lets the next pass exceed the concurrency of the release. *)
Lemma lost_write_breaks_bound : ar_Concurrency (Fleet.the_release Fleet.retried) = 1 /\ requests Fleet.retried = {["a"; "b"]}.
Proof. split; [by vm_compute|]. by apply (bool_decide_unpack _); vm_compute. Qed.

(** A halt whose write fails does not happen: the rollout goes on to the next node. *)
Lemma lost_halt_goes_on :
  ns_Phase (Fleet.the_status Fleet.limping "a") = UpdateFailed /\ ar_Phase (Fleet.the_release Fleet.went_on) = ReleaseInProgress /\
  requests Fleet.went_on = {["a"; "b"]}.
Proof. split_and!; [by vm_compute..|]. by apply (bool_decide_unpack _); vm_compute. Qed.

(** A node that was silent in its soak window passes the health gate with its first heartbeat after that. *)
Lemma silence_does_not_restart_soak :
  HeartbeatStale (Fleet.the_node Fleet.soaking "a") (Fleet.at_ + 150 * second) = true /\
  ns_Phase (Fleet.the_status Fleet.silent "a") = Updating /\ ns_Phase (Fleet.the_status Fleet.back "a") = Updated.
Proof. split_and!; by vm_compute. Qed.

(** The list of the nodes in flight also has the nodes in their soak window that were sent nothing, and is longer than the concurrency. *)
Lemma in_flight_list_exceeds_concurrency :
  ar_InFlightNodes (Fleet.the_release Fleet.one_ahead) = ["a"; "b"] /\ ar_Concurrency (Fleet.the_release Fleet.one_ahead) = 1 /\ requests Fleet.one_ahead = {["a"]}.
Proof. split_and!; [by vm_compute..|]. by apply (bool_decide_unpack _); vm_compute. Qed.
